(* ===== verification/_CoqProject ===== *)
-Q . S2P
Prelude.v
GoInt.v
GoStrings.v
PrefixTree.v
Watcher.v
ConfigImpl.v
Encrypt.v
Filter.v
TaskQueue.v
Scheduler.v
RetryController.v
Control.v
RetryManager.v
RateLimit.v
CircuitBreaker.v
Timeout.v
PathMatcher.v
Balancer.v
MemoryRegistry.v
Value.v
ConfigSources.v
FileWatch.v
GoScanner.v
Hocon.v
HoconTree.v
HoconEnd.v
HoconRead.v
Interceptor.v
Hooks.v
Lifecycle.v
Logging.v
Uri.v
Declare.v
Plugin.v
GrpcMetadata.v
GrpcStream.v
StreamLocks.v
StreamProps.v
StreamStatus.v
ServiceRegistry.v
UnaryCall.v
RegistryCall.v
MemoryDialer.v
Tracing.v
SpanTags.v
CallContext.v
Discovery.v
Hostname.v
Pkix.v
Certificates.v
Credentials.v
ServerListen.v
ServerOptions.v
Guards.v
ServiceStart.v
ServerHooks.v
HttpService.v
TlsInfo.v
DialOption.v
DialRegistry.v
Pool.v
PathTemplate.v
HttpMux.v
HttpRequest.v
HttpHeader.v
HttpInvoker.v
ControlConfig.v
ConfigPolicies.v
Framework.v
