(* ===== verification/Prelude.v ===== *)
(** * go-framework: a verification library

    This library models the core of go-framework, a Go framework for micro-services, and
    proves what makes its parts correct.  All paths below are relative to [src/].

    ** The program and its parts

    - _Configuration_ ([config/]).  Sources (files, environment, flags, plugins) deliver
      key/value snapshots and changes.  Every source is wrapped ([SourceWrapper]); a
      [ConfigImpl] merges the wrappers into one [PrefixTree], in which the source of the
      highest level wins, and tells its notifier about changes.  The program reads the
      result through a [View], which is a [Filter] (prefix, namespaces, decryption of
      [encrypted://] values) with a cache of derived views, and through [ValueImpl], which
      converts strings to Go types.  A URI for a configuration key becomes entries of
      the same store ([uri/]).
    - _Start-up._  Components declare flags and plugins ([declare/], [internal/declare/]).
      The defaults, the environment, the command line and memory or file sources
      ([config_plugins/]) become the first configuration; plugins are created from it by name
      or from URIs ([plugin/], [di/]).
    - _Calls to other services._  A call goes through the connection wrapper of the dialer
      ([dialer/]): call options select a pool, the pool dials with the options and
      credentials registered for the target, and interceptors trace the call ([tracing/]),
      repeat it ([retry/] over [internal/retry/]) and bound its time.  Addresses come from a
      registry ([registry/]): its watcher turns registrations into naming updates, which
      the balancer ([balancer/]) applies before it picks one per call (round robin), and a
      discovery serves the same entries, and the HTTP rules in their metadata, to proxies.
    - _Serving calls._  Rate limiting, circuit breaking and timeouts ([rate_limit/],
      [circuit_breaker/], [timeout/]) are interceptors ([interceptor/]), driven by the
      policies of the control plane ([control/]), which are read from configuration
      ([control_plugins/]).  HTTP requests find their method through the multiplexer of the
      server ([server/]) and the path matcher ([http/]).  Peers are authenticated by their
      certificates, which a process may issue and renew ([pkix/], [certificate/]), and their
      identity may be forwarded ([credentials/]).  A server takes its
      options from the configuration, listens, starts every service in a goroutine of its own
      and announces it in the registry; requests and responses of HTTP are translated to and
      from gRPC.  Hooks wrap the handlers of its methods ([hooks/]), and its chain of interceptors
      recovers from panics, checks deadlines and tags spans.
    - _Calls in the own process_ do not go through the network: services are registered in
      memory ([memory_registry/]), and streams join both ends by channels ([stream/]).
    - _Process._  [Init] prepares the configuration and runs the hooks of the life cycle
      ([framework.go], [lifecycle/]); everything writes to loggers ([log/]).

    ** Files

    - [Prelude] (this file): tactics, hint databases, results of Go functions ([gores]:
      a value, an error or a panic) and lemmas every file shares.
    - [GoInt], [GoStrings]: fixed-width integers and the [strings] package.
    - [PrefixTree]: [config/internal/prefix_tree.go].  The state is the trie, the map [m]
      from keys to nodes and the memo table of split keys; the operations are those of
      the Go type.  A node pointer is the path to the node.
    - [Watcher]: [config/watcher/].
    - [ConfigImpl]: [config/internal/source.go], [config/internal/config_impl.go].
      Module [ConfigImpl] has the merge and the three callbacks of a source; Module
      [ConfigNotify] has the events and their notifications as a step function.
    - [Filter]: [config/internal/filter.go], [config/internal/view.go], over the class
      [DataSource], which [ConfigImpl] implements.
    - [Encrypt]: [lib/encrypt.go].  [Value]: [config/internal/value.go].
      [Uri]: [uri/uri.go].
    - [TaskQueue], [Scheduler]: [internal/retry/task_queue.go],
      [internal/retry/task_scheduler.go] and the body of [Invoke]; a labelled machine
      whose steps are the atomic actions of the goroutines of one call.
    - [RetryController]: the options, policies and ready-made controllers of
      [internal/retry/] (Module [Controller]) and the schedule in which attempts answer one
      after the other (Module [Sequential]).
    - [Control]: [control/] (Module [Control]) and the cache of per-method state that
      retries, rate limits and circuit breakers share (Module [PolicyCache], against the
      class [CachedPolicy]).
    - [ControlConfig]: [control_plugins/config.go], over the class [ConcurrentMap];
      [ConfigPolicies]: what its policies do to the retries of a process, and which layer
      of the configuration they come from.
    - [RetryManager]: [retry/].  [RateLimit]: [rate_limit/].
      [CircuitBreaker]: [circuit_breaker/].  [Timeout]: [timeout/timeout.go].
    - [ConfigSources]: [config_plugins/].  [FileWatch]: the goroutines that reload a file, a
      machine over [ConfigSources] and [Watcher].  [Hocon], [HoconTree]: the parser of HOCON files
      ([config_plugins/internal/3rdparty/hocon/]) over [GoScanner], the scanner of Go's
      [text/scanner]; their substitutions in a store, and the reader
      ([config_plugins/internal/hocon.go]).  [HoconRead], [HoconEnd]: what the reader makes of a
      printed object, and that it returns.  [Declare]: [internal/declare/config.go] and
      [usage.go], and the sources made of declared flags; the layers of the first
      configuration.  [Plugin]: [internal/declare/plugin.go], [plugin/], [di/], over the
      class of an injector.
    - [PathMatcher]: [http/matcher.go], [http/header.go], [http/registry.go].
      [PathTemplate]: the templates of [3rdparty/grpc-gateway/httprule/].
      [HttpMux]: [server/internal/http_server/http_mux.go], over the path matcher and the
      templates; [HttpRequest]: the handlers in it that fill the request of a method.
      [HttpHeader], [HttpInvoker]: [http_header.go], [invoker.go] and [http_error.go] beside
      it.  [HttpService]: routes, announced rules and the routing of the HTTP server, over
      [HttpMux], [MemoryRegistry] and [Discovery].
    - [ServerListen], [ServerOptions]: listeners and options of a server.  [ServiceStart]: the
      routines that start services, a machine over [ServiceRegistry] and [MemoryRegistry].
      [ServerHooks]: the hooks of HTTP services around serving, a machine as well, the lists of
      servers and the health service.
    - [Hooks]: [hooks/server.go].  [Guards]: [recovery/], [deadline/], the guarded reflection
      service and the choice of what [prometheus/] measures, in the chain of
      [server/internal/grpc_server/option.go].
    - [ServiceRegistry]: [memory_registry/registry.go] and what the wrappers learn from
      reflection.  [UnaryCall]: one unary call.  [RegistryCall]: calls by name.
      [MemoryDialer]: [memory_registry/dialer.go].
    - [GrpcStream]: [stream/grpc_stream.go]; every method is a program over atomic actions, a
      system steps by labels.  [StreamLocks]: the discipline of the locks and the invariant it
      keeps.  [StreamProps], [StreamStatus]: what follows.
    - [Balancer]: [balancer/] (Modules [RoundRobin] and [Balancer]; the picker is the class
      [Picker]).  [MemoryRegistry]: [registry/memory.go] and the watcher of its resolver.
      [Discovery]: [registry/discovery.go], [registry/meta.go], fed by [MemoryRegistry].
    - [GrpcMetadata]: gRPC metadata as the class [Metadata], for [Tracing]
      ([tracing/reqid.go]), [SpanTags] ([tracing/tracer.go]), [CallContext] ([async/],
      [balancer/hash_key.go]) and [TlsInfo].
    - [Pkix]: keys, requests, authorities and certificates of hosts ([pkix/]).  [Certificates]:
      [certificate/], the goroutines of a factory as a machine over the issuer of [Pkix].
    - [Hostname], [Credentials], [TlsInfo]: [credentials/utils.go]; options, TLS
      configurations and the verification of peers; forwarded TLS identities.
    - [DialOption]: call options, interceptors and the connection wrappers
      ([dialer/dialer.go], [dialer/internal/option/]).  [DialRegistry]: dial options and
      credentials from the registry.  [Pool]: [dialer/internal/pool/pool.go].
    - [Interceptor]: [interceptor/chain.go].  [Lifecycle]: [lifecycle/].  [Logging]: [log/].
    - [Framework]: [framework.go], [option.go] and [server/server.go], over [Lifecycle] and
      [Logging].

    ** What the theorems show

    - _Configuration._  A prefix tree refines a finite map through any sequence of
      operations ([prefix_tree_refines]).  After any updates
      and deletes the merged cache holds for each key the value of the highest source
      ([config_layering]); a watcher that applies the notifications stays in step with it,
      through syncs as well ([watcher_in_step]).  What
      a filter reads is determined by namespaces, prefix and levels ([filter_get_spec]).
      Decryption inverts encryption and returns signed plain texts only
      ([decrypt_encrypt], [decrypt_authentic]).
    - _Start-up._  What a lookup in the first configuration answers, from the command line as it
      was written, the environment, the plugins and the defaults ([bootstrap_layers]);
      writes to a memory source are read through the merged configuration
      ([memory_writes_read]); a URI sets the flags of its plugin ([plugin_uri_configures]).
      Whatever the order of events, watchers and goroutines, a reload of a file tells the
      watchers that are registered when it notifies, and no others, what it read before
      ([reload_notifies]); the reading, the notification and the calls of watchers are steps
      of their own, so that what is told may be old ([older_told_last], [read_before_watch]).  A HOCON file that was
      printed is read back ([hocon_reads_back]), by the text of every leaf; one without a dollar sign is read or refused,
      whatever its text is ([file_is_read]).
    - _Policies._  A setting of a method comes before the one of its service, and either can
      switch a policy on ([settings_layered], against a specification of its own of what the
      configuration says); the retries of a process follow the configuration within the
      update interval ([retry_follows_config]).
    - _Retries._  [invoke_runs_retry_loop] is a refinement: the goroutines, queue and
      channel of one [Invoke] come to the plain retry loop when attempts answer in turn.
      [returned_closed] is an invariant of all interleavings.  [retry_follows_policy] and
      [one_call_per_task_id] are about the layers around it.
    - _Control._  [rate_limit_admission], [breaker_transparent] and [timeout_result] say
      when a request reaches its handler and what the caller gets, refusals included.
    - _HTTP._  Templates of paths are printed and read back ([template_roundtrip]), and the
      operations they are compiled to give back their segments ([compile_correct]).
      [match_sound]: what a request gets was registered for a pattern that matches
      its path; [match_complete]: a request is accepted if a registered pattern without
      [**] before its end matches it.  For the multiplexer, a request that is handed on
      reaches a method of the server that its rules or its raw path name
      ([requests_reach_their_method]), and the raw path of a method without rules is served
      ([raw_post_served]); the fields that the path sets are not overridden by the query
      where it names them as the path does ([path_decides]; [alias_overrides] otherwise).
      Answers carry the result of the call with its metadata, errors the status of their code,
      and a status that is asked for takes the place of both
      ([unary_response], [stream_response]); headers of the transport are renamed
      ([transport_headers_renamed]).
    - _Servers._  A server comes up and its services are announced only when they can be called
      ([server_comes_up], [announced_when_started]); discoveries find them
      ([started_service_found], [grpc_web_announced]).  Its transport security follows the
      configuration ([server_tls_from_config]); it listens within its range of ports
      ([listen_bounded]).  It announces itself after every start hook and runs the stop hooks
      after serving, in all interleavings ([serving_in_order]).  Hooks wrap every method of the
      services ([hooks_around_handlers]); without a token a caller does not reach the
      reflection service ([reflection_guarded]).
    - _The own process._  A call by name runs the registered handler
      ([registered_handler_called]), whose methods have the types of a unary or streaming
      method ([registry_types]).  Streams deliver in order in all interleavings
      ([stream_in_order]), come to rest after a cancellation ([cancelled_stream_rests]) and end
      with the status of the handler ([served_stream_read]).
    - _Balancing and discovery._  The balancer's addresses follow the updates
      ([balancer_follows_updates]); with the registry in front of it the two ends agree
      ([registry_balancer_in_step]); round robin is fair ([round_robin_fair]).  Discovery
      picks registered addresses that are not known to be down ([discovery_picks_live], with
      the notifications that are still on their way, and [http_picks_registered]) and stops checking the others ([health_checks_bounded]).
    - _Connections._  Every connection is in one slot of one pool or closed
      ([connections_conserved]); a dial returns one that was ready
      ([pool_dial_sound]), in the pool of its call ([call_on_own_pool]), and a failed one is
      not replaced before its time ([redial_throttled]).  The first
      entry of the registry decides about TLS, which then verifies nobody
      ([registry_decides_tls]).
    - _Identity._  Verifiers of one's own keep the strength of the client authentication
      that was asked for ([client_auth_kept]); a peer whose authority was asked for has a chain
      and a name that were verified, on both sides ([authority_checked]), and names are
      matched as specified for any host and certificate ([hostname_covers]).
      A forwarded identity comes out field by field as it was, unless the serial numbers of
      another peer read the same, and only with a valid signature
      ([tls_identity_forwarded], [forwarded_identity_signed]).  Issued certificates do not
      outlive their authority ([issued_within_authority]); what a factory hands out was issued
      for a request with the same identifier ([fetched_was_issued]), and a fetch on its own
      succeeds when issuing does ([lone_fetch]).
    - _Context._  Request identifiers follow a chain of calls ([request_id_follows_chain]); the
      options of an asynchronous call arrive ([async_options_arrive]); the tags of a span
      ([alias_of_last_call]).  Loggers derived from one another write the fields of both
      ([derived_logger_writes]).
    - _Order._  [chain_nests], [hooks_in_order].
    - _Where the code does something else._  [invoke_can_deadlock], [client_calls_refused]
      and [process_cannot_serve] prove behaviour a caller has to know.  The same is shown by lemmas
      next to the definitions: [blocked_get_starves], [timeout_leaks_goroutine],
      [config_get_never_missing], [single_source_reads_empty],
      [sync_resurrects_dropped_key], [with_password_then_prefix],
      [service_settings_shadowed], [metadata_change_leaves_stale_address],
      [registration_lost_at_start], [invoke_with_retry_calls], [double_star_hides_match],
      [priority_ignored], [hooks_never_called], [call_interceptors_run_twice],
      [hook_identity_lost], [forwarded_identity_confused],
      [header_believed_under_any_key], [nested_del_leaves_keys], [alphabet_decides],
      [nothing_created], [force_uri_ignored], [password_logged], [client_overrides_path],
      [trailer_announced_only], [status_drops_metadata], [stream_error_lost],
      [high_range_refused], [v6_auto_refused], [max_streams_unset], [authorities_ignored],
      [refused_registration_keeps_names], [shared_handler], [tls_race],
      [announced_routes], [slash_accepted], [colon_lost], [null_ends], [other_error],
      [producer_hangs], [same_name], [authority_starts_now], [configured_log_panics],
      [missing_caller_panics], [rate_limit_ignored], [recovery_with_logger],
      [target_believed], [hooked_twice], [shared_address], [failed_hook_blocks], [older_told_last], [read_before_watch], [missed_in_between],
      [notifications_crossed], [alias_overrides], [signed_without_usage], [authority_not_asked],
      [integers_collapse], [first_cancel_silences], [wait_not_raised], and for HOCON files
      [negative_number], [dashed_key], [comments], [words_lost], [numbers_lost],
      [chain_by_order], [path_through_number], [object_in_itself], [hangs_for_ever],
      [included_twice], [included_alone], [included_in_value] and [half_second].

    ** Parameters

    Code outside the repository is an argument of the definitions that use it: AES blocks,
    HMAC and base64 (their inverses are hypotheses of [Encrypt]), the token bucket of
    juju/ratelimit (class [TokenBucket]), the circuit of cep21/circuit (class
    [CircuitLaws]), sorting and grouping of go-linq (class [LinqLaws]), concurrent-map
    (class [ConcurrentMapLaws]), gRPC metadata (class [MetadataLaws]), certificates and
    their verification (classes [HostCert] and [X509]), gob, gzip and RSA signatures (class
    [TlsCodecLaws]), [encoding/json], [strconv.ParseFloat], md5, uuid, strcase, [net/url],
    [rand.Float64], grpc's [status.FromError], protobuf descriptors and reflection, the
    construction of patterns from opcodes in grpc-gateway, messages and the filling of their
    fields (class [MessageLaws], which says of the query only that keys that begin with a name of
    the filter are passed over), the codecs and signatures of [crypto/x509], [crypto/rsa] and
    [encoding/pem] (class [CryptoLaws]), [fmt.Sprintf] and the formats of times, the
    interceptors of go-grpc-prometheus and opentracing, the classes of characters beyond Latin-1,
    files and the environment, and the header matchers of package [utils],
    which the repository calls and does not contain.  So are the joining of metadata (class
    [MetadataJoinLaws]), the header prefixes and marshalers of grpc-gateway, the formats of
    floats and durations, [regexp.MatchString], readers of structured files, the host's address,
    the parsing of addresses, binding a port and drawing one at random, self-signed
    certificates, the router of gorilla/mux (class [RouterLaws]), the origins of rs/cors, and
    the JSON of registry metadata.  Each theorem with such a hypothesis
    has a witness with a concrete instance.

    ** Fuel

    Recursion is structural where the data allows it.  Elsewhere fuel is fixed by the
    definitions so that it does not run out: the length of the data for the block loop of
    [Encrypt], the height of the trie for the path matcher (each call goes down one
    level), the length of the template for its conversion, two calls for each token
    of a template and the length of a path for the scan of its pattern, the length of a name for
    its package, sixteen calls for each character of a HOCON file ([file_is_read] shows that they
    are enough), the number of nodes for a walk through its values, the number of addresses for a
    pick, the bit length for the digits of a number, and the bound of the policy for the
    retry loop.

    ** Not modelled

    Times (a timer may fire at any moment after it was armed; where times are compared they
    are arguments) and the counters of metrics.  Locks are explicit where an operation blocks
    while it holds one ([GrpcStream]); elsewhere an operation under a lock is one step.  What
    the code does after a lock was given back is a step of its own in [FileWatch] and in the
    processes of [Discovery]; the callbacks of [ConfigImpl] and the operations of
    [MemoryRegistry] are one step with what they notify, so that their theorems are about
    callbacks and operations that come one after the other.  [ToLower] is that of texts in ASCII.  The
    sockets, grpc's connections and servers, and the encoding of bodies are I/O.  What
    reflection reads and writes in private fields of grpc ([hooks/clientconn.go],
    [GetServiceInfo]), the generation of keys and serial numbers, the spans of opentracing, the
    collectors of [prometheus/] and the handlers of [profile/] are calls of libraries.  The typed
    getters of a HOCON tree are not called.  Functions that only forward to another package (the exported ones of
    [config/], [server/] and [log/]) have no definitions of their own.  Generated and copied code
    ([testpb/], the rest of [3rdparty/]) is left aside. *)

From stdpp Require Export base tactics option list gmap strings sets fin_maps.
From Stdlib Require Export ZArith Lia.

Declare Scope gofw_scope.
Delimit Scope gofw_scope with gofw.

Create HintDb gofw.
Create Rewrite HintDb gofw.

(** ** Tactics *)

(** Turn boolean tests on strings, numbers and decisions into propositions. *)
Ltac bool_to_prop :=
  repeat match goal with
  | H : _ && _ = true |- _ => apply andb_true_iff in H as [? ?]
  | H : _ || _ = false |- _ => apply orb_false_iff in H as [? ?]
  | H : negb _ = true |- _ => apply negb_true_iff in H
  | H : negb _ = false |- _ => apply negb_false_iff in H
  | H : bool_decide _ = true |- _ => apply bool_decide_eq_true in H
  | H : bool_decide _ = false |- _ => apply bool_decide_eq_false in H
  | H : (_ =? _)%nat = true |- _ => apply Nat.eqb_eq in H
  | H : (_ =? _)%nat = false |- _ => apply Nat.eqb_neq in H
  | H : (_ <? _)%Z = true |- _ => apply Z.ltb_lt in H
  | H : (_ <? _)%Z = false |- _ => apply Z.ltb_ge in H
  | H : (_ <=? _)%Z = true |- _ => apply Z.leb_le in H
  | H : (_ <=? _)%Z = false |- _ => apply Z.leb_gt in H
  end.

(** Split on every [match]/[if] of the goal, then tidy up. *)
Ltac split_cases := repeat (case_match; simplify_eq/=; bool_to_prop).

(** Case on one proposition tested by [bool_decide]. *)
Tactic Notation "case_bd" constr(P) "as" ident(H) :=
  destruct (decide P) as [H|H];
  [rewrite !(bool_decide_eq_true_2 P) by exact H | rewrite !(bool_decide_eq_false_2 P) by exact H].

(** ** Lists *)

Lemma list_snoc_inv {A} (l : list A) : l = [] \/ exists l' x, l = l' ++ [x].
Proof. destruct l as [|x l _] using rev_ind; eauto. Qed.

Lemma foldl_ind {A B} (P : A -> Prop) (f : A -> B -> A) (l : list B) (a : A) :
  P a -> (forall a' b, b ∈ l -> P a' -> P (f a' b)) -> P (foldl f a l).
Proof.
  revert a; induction l as [|b l IH]; intros a Ha Hf; simpl; [done|].
  apply IH; [by apply Hf; [left|]|]. intros a' b' Hb'. apply Hf. by right.
Qed.

Lemma list_filter_all {A} (P : A -> Prop) `{forall x, Decision (P x)} (l : list A) :
  (forall x, x ∈ l -> P x) -> filter P l = l.
Proof.
  induction l as [|x l IH]; intros Hl; [done|]. rewrite filter_cons_True by (apply Hl; by left).
  f_equal. apply IH. intros y Hy. apply Hl. by right.
Qed.

(** ** Results of Go functions *)

(** A value, an error return, or a panic. *)
Inductive gores (A : Type) : Type := Ok (a : A) | Err (msg : string) | Panic (msg : string).
Arguments Ok {_}. Arguments Err {_}. Arguments Panic {_}.

#[export] Instance gores_ret : MRet gores := fun _ a => Ok a.
#[export] Instance gores_bind : MBind gores := fun _ _ f r =>
  match r with Ok a => f a | Err m => Err m | Panic m => Panic m end.

Lemma gores_bind_ok {A B} (f : A -> gores B) (r : gores A) (b : B) :
  r ≫= f = Ok b <-> exists a, r = Ok a /\ f a = Ok b.
Proof. destruct r; cbn; naive_solver. Qed.

(** ** Reachability *)

(** An invariant of the steps holds of everything reachable from a state where it holds. *)
Lemma rtc_invariant {A} (R : relation A) (P : A -> Prop) (s0 : A) :
  P s0 -> (forall s s', P s -> R s s' -> P s') -> forall s, rtc R s0 s -> P s.
Proof. intros H0 Hs s Hr. revert H0. induction Hr; eauto. Qed.

(** ** Finite maps *)

Lemma lookup_insert_case {K V} `{Countable K} (m : gmap K V) (i j : K) (x : V) :
  <[i:=x]> m !! j = if decide (i = j) then Some x else m !! j.
Proof. apply lookup_insert. Qed.

Lemma lookup_delete_case {K V} `{Countable K} (m : gmap K V) (i j : K) :
  delete i m !! j = if decide (i = j) then None else m !! j.
Proof. apply lookup_delete. Qed.
