(* ===== verification/GoInt.v ===== *)
(** * Go's fixed-width integers.

    An [intN] or [uintN] value is a [Z] in its range; every operation wraps its exact result
    around into the range, as the language specifies.  Shifts by a count of at least the
    width give 0 (or -1), which the exact result wrapped around gives as well. *)

From S2P Require Import Prelude.

#[local] Open Scope Z_scope.

(** The value of [z] as a signed, respectively unsigned, [w]-bit integer. *)
Definition wrapS (w z : Z) : Z := (z + 2 ^ (w - 1)) mod 2 ^ w - 2 ^ (w - 1).
Definition wrapU (w z : Z) : Z := z mod 2 ^ w.

Definition inS (w z : Z) : Prop := - 2 ^ (w - 1) <= z < 2 ^ (w - 1).
Definition inU (w z : Z) : Prop := 0 <= z < 2 ^ w.

#[export] Instance inS_dec w z : Decision (inS w z).
Proof. unfold inS. apply _. Defined.
#[export] Instance inU_dec w z : Decision (inU w z).
Proof. unfold inU. apply _. Defined.

Definition add64 (a b : Z) : Z := wrapS 64 (a + b).
Definition sub64 (a b : Z) : Z := wrapS 64 (a - b).
Definition mul64 (a b : Z) : Z := wrapS 64 (a * b).
(** Truncated division; division by zero panics ([None]). *)
Definition quot64 (a b : Z) : option Z := if b =? 0 then None else Some (wrapS 64 (Z.quot a b)).
Definition shl64 (a n : Z) : Z := wrapS 64 (Z.shiftl a n).
Definition shr64 (a n : Z) : Z := Z.shiftr a n.

Lemma wrapS_id w z : 0 < w -> inS w z -> wrapS w z = z.
Proof.
  intros Hw [H1 H2]. unfold wrapS.
  assert (Hp : 2 ^ w = 2 * 2 ^ (w - 1)) by (rewrite <- Z.pow_succ_r by lia; f_equal; lia).
  rewrite Z.mod_small; lia.
Qed.

Lemma wrapS_range w z : 0 < w -> inS w (wrapS w z).
Proof.
  intros Hw. unfold wrapS, inS.
  assert (Hp : 2 ^ w = 2 * 2 ^ (w - 1)) by (rewrite <- Z.pow_succ_r by lia; f_equal; lia).
  pose proof (Z.pow_pos_nonneg 2 (w - 1)). pose proof (Z.mod_pos_bound (z + 2 ^ (w - 1)) (2 ^ w)). lia.
Qed.

Lemma wrapS_cong w z k : 0 < w -> wrapS w (z + k * 2 ^ w) = wrapS w z.
Proof.
  intros Hw. unfold wrapS. f_equal. rewrite <- (Z_mod_plus_full (z + 2 ^ (w - 1)) k (2 ^ w)). f_equal. lia.
Qed.

Lemma wrapU_id w z : inU w z -> wrapU w z = z.
Proof. intros H. by apply Z.mod_small. Qed.

Lemma wrapU_range w z : 0 <= w -> inU w (wrapU w z).
Proof. intros Hw. apply Z.mod_pos_bound. pose proof (Z.pow_pos_nonneg 2 w). lia. Qed.

#[export] Hint Resolve wrapS_range wrapU_range : gofw.

(** A left shift of 1 by at least the width gives 0, by 63 the smallest number. *)
Lemma shl64_one n : 0 <= n -> shl64 1 n = if n <? 63 then 2 ^ n else if n =? 63 then - 2 ^ 63 else 0.
Proof.
  intros Hn. unfold shl64. rewrite Z.shiftl_1_l. destruct (Z.ltb_spec n 63).
  - apply wrapS_id; [lia|]. split; [|apply Z.pow_lt_mono_r; lia].
    pose proof (Z.pow_pos_nonneg 2 n). lia.
  - destruct (Z.eqb_spec n 63) as [->|]; [reflexivity|].
    assert (E : 2 ^ n = 0 + 2 ^ (n - 64) * 2 ^ 64).
    { rewrite Z.add_0_l, <- Z.pow_add_r by lia. f_equal. lia. }
    rewrite E, wrapS_cong by lia. reflexivity.
Qed.
