(* ===== verification/GoStrings.v ===== *)
(** * Go strings.

    Go strings are byte sequences; they are modelled by [string] (a list of 8-bit
    [ascii]).  This file models what the repository uses of the [strings] package:
    [Split] and [Join] with a one-byte separator, [ToLower], [ToUpper], [TrimSpace],
    [HasPrefix], [TrimPrefix], [LastIndex] and [IndexAny].  [ToLower], [ToUpper] and
    [TrimSpace] are the ASCII restrictions of the Go functions (bytes above 0x7f are
    left alone), which is what configuration keys, HTTP methods and templates use. *)

From S2P Require Import Prelude.
From Stdlib Require Import Ascii.

Open Scope string_scope.
Open Scope list_scope.

(** ** Definitions *)

(** [strings.Split(s, c)] for a separator of one byte: never the empty list. *)
Fixpoint Split (c : ascii) (s : string) : list string :=
  match s with
  | EmptyString => [EmptyString]
  | String a s' =>
      if decide (a = c) then EmptyString :: Split c s'
      else match Split c s' with
           | h :: t => String a h :: t
           | [] => [String a EmptyString]
           end
  end.

(** [strings.Join(l, sep)]. *)
Fixpoint Join (l : list string) (sep : string) : string :=
  match l with
  | [] => EmptyString
  | [s] => s
  | s :: l' => s +:+ sep +:+ Join l' sep
  end.

Definition is_upper (a : ascii) : bool :=
  ((65 <=? nat_of_ascii a) && (nat_of_ascii a <=? 90))%nat.

Definition lower_ascii (a : ascii) : ascii :=
  if is_upper a then ascii_of_nat (nat_of_ascii a + 32) else a.

(** [strings.ToLower] on texts in ASCII.  On other texts Go also maps the letters beyond ASCII
    (and replaces bytes that are no UTF-8), which this leaves alone: what is proved of keys,
    paths and names with [ToLower] is about texts in ASCII. *)
Fixpoint ToLower (s : string) : string :=
  match s with
  | EmptyString => EmptyString
  | String a s' => String (lower_ascii a) (ToLower s')
  end.

Definition is_lower (a : ascii) : bool :=
  ((97 <=? nat_of_ascii a) && (nat_of_ascii a <=? 122))%nat.

Definition upper_ascii (a : ascii) : ascii :=
  if is_lower a then ascii_of_nat (nat_of_ascii a - 32) else a.

(** [strings.ToUpper] on ASCII. *)
Fixpoint ToUpper (s : string) : string :=
  match s with
  | EmptyString => EmptyString
  | String a s' => String (upper_ascii a) (ToUpper s')
  end.

(** The ASCII white space of [strings.TrimSpace]: \t \n \v \f \r and blank. *)
Definition is_space (a : ascii) : bool :=
  let n := nat_of_ascii a in (((9 <=? n) && (n <=? 13)) || (n =? 32))%nat.

Fixpoint trim_left (s : string) : string :=
  match s with
  | EmptyString => EmptyString
  | String a s' => if is_space a then trim_left s' else s
  end.

Fixpoint trim_right (s : string) : string :=
  match s with
  | EmptyString => EmptyString
  | String a s' =>
      match trim_right s' with
      | EmptyString => if is_space a then EmptyString else String a EmptyString
      | r => String a r
      end
  end.

Definition TrimSpace (s : string) : string := trim_right (trim_left s).

(** [strings.HasPrefix(s, p)]. *)
Definition HasPrefix (s p : string) : bool := String.prefix p s.

(** [s[n:]] for [n <= len(s)]. *)
Fixpoint sdrop (n : nat) (s : string) : string :=
  match n, s with
  | O, _ => s
  | S n', String _ s' => sdrop n' s'
  | S _, EmptyString => EmptyString
  end.

(** [s[:n]] for [n <= len(s)]. *)
Fixpoint stake (n : nat) (s : string) : string :=
  match n, s with
  | O, _ => EmptyString
  | S n', String a s' => String a (stake n' s')
  | S _, EmptyString => EmptyString
  end.

(** [strings.TrimPrefix(s, p)]. *)
Definition TrimPrefix (s p : string) : string :=
  if HasPrefix s p then sdrop (String.length p) s else s.

(** [strings.HasSuffix(s, p)] and [strings.TrimSuffix(s, p)]. *)
Definition HasSuffix (s p : string) : bool :=
  (String.length p <=? String.length s)%nat && bool_decide (sdrop (String.length s - String.length p) s = p).
Definition TrimSuffix (s p : string) : string :=
  if HasSuffix s p then stake (String.length s - String.length p) s else s.

(** [strings.LastIndex(s, string(c))], [None] for -1. *)
Fixpoint LastIndex (s : string) (c : ascii) : option nat :=
  match s with
  | EmptyString => None
  | String a s' =>
      match LastIndex s' c with
      | Some i => Some (S i)
      | None => if decide (a = c) then Some 0 else None
      end
  end.

(** Does the byte occur in the string? *)
Fixpoint contains_char (c : ascii) (s : string) : bool :=
  match s with
  | EmptyString => false
  | String a s' => if decide (a = c) then true else contains_char c s'
  end.

(** [strings.IndexAny(s, chars)] for ASCII [chars], [None] for -1. *)
Fixpoint IndexAny (s chars : string) : option nat :=
  match s with
  | EmptyString => None
  | String a s' => if contains_char a chars then Some 0 else S <$> IndexAny s' chars
  end.

(** A key of a separated name space: no component of it is empty. *)
Definition nonempty_parts (l : list string) : bool := forallb (fun s => negb (bool_decide (s = ""))) l.

(** ** Lemmas *)

Lemma Split_cons (c : ascii) (s : string) : exists h t, Split c s = h :: t.
Proof. induction s as [|a s (h & t & E)]; simpl; [eauto|]. rewrite E. case_decide; eauto. Qed.

Lemma Split_not_nil (c : ascii) (s : string) : Split c s <> [].
Proof. destruct (Split_cons c s) as (h & t & ->). done. Qed.

Lemma Join_cons_cons (s h : string) (t : list string) (sep : string) :
  Join (s :: h :: t) sep = s +:+ sep +:+ Join (h :: t) sep.
Proof. done. Qed.

(** [Join] undoes [Split]. *)
Lemma Join_Split (c : ascii) (s : string) : Join (Split c s) (String c "") = s.
Proof.
  induction s as [|a s IH]; [done|]. simpl.
  destruct (Split_cons c s) as (h & t & E). rewrite E in IH |- *.
  case_decide as Hc; [subst a|].
  - rewrite Join_cons_cons, IH. done.
  - rewrite <-IH. by destruct t.
Qed.

Lemma Split_inj (c : ascii) (s1 s2 : string) : Split c s1 = Split c s2 -> s1 = s2.
Proof. intros E. rewrite <-(Join_Split c s1), <-(Join_Split c s2). by rewrite E. Qed.

(** A string free of the separator is one component. *)
Lemma Split_free (c : ascii) (s : string) : contains_char c s = false -> Split c s = [s].
Proof.
  induction s as [|a s IH]; simpl; [done|]. case_decide; [done|]. intros H'. by rewrite IH.
Qed.

Lemma Split_app_sep (c : ascii) (s r : string) :
  contains_char c s = false -> Split c (s +:+ String c r) = s :: Split c r.
Proof.
  induction s as [|a s IH]; simpl; intros H'.
  - by rewrite decide_True.
  - case_decide; [done|]. by rewrite IH.
Qed.

(** Components of [Split] are free of the separator. *)
Lemma Split_parts_free (c : ascii) (s : string) :
  Forall (fun p => contains_char c p = false) (Split c s).
Proof.
  induction s as [|a s IH]; simpl; [by repeat constructor|].
  case_decide; [by constructor|].
  destruct (Split_cons c s) as (h & t & E). rewrite E in IH |- *.
  inversion IH; subst. constructor; [|done]. simpl. by rewrite decide_False.
Qed.

(** [Split] undoes [Join] on separator-free components. *)
Lemma Split_Join (c : ascii) (l : list string) :
  l <> [] -> Forall (fun p => contains_char c p = false) l ->
  Split c (Join l (String c "")) = l.
Proof.
  induction l as [|s l IH]; intros Hne Hl; [done|].
  inversion Hl as [|?? Hs Hl']; subst. destruct l as [|h t]; [by apply Split_free|].
  change (Split c (s +:+ String c (Join (h :: t) (String c ""))) = s :: h :: t).
  rewrite Split_app_sep by done. f_equal. by apply IH.
Qed.

Lemma nonempty_parts_app (l1 l2 : list string) :
  nonempty_parts (l1 ++ l2) = nonempty_parts l1 && nonempty_parts l2.
Proof. apply forallb_app. Qed.

Lemma lower_ascii_idemp (a : ascii) : lower_ascii (lower_ascii a) = lower_ascii a.
Proof. destruct a as [[] [] [] [] [] [] [] []]; vm_compute; reflexivity. Qed.

Lemma ToLower_idemp (s : string) : ToLower (ToLower s) = ToLower s.
Proof. induction s as [|a s IH]; simpl; [done|]. by rewrite lower_ascii_idemp, IH. Qed.

Lemma ToLower_app (s1 s2 : string) : ToLower (s1 +:+ s2) = ToLower s1 +:+ ToLower s2.
Proof. induction s1 as [|a s IH]; simpl; [done|]. by rewrite IH. Qed.

Lemma contains_char_app (c : ascii) (s1 s2 : string) : contains_char c (s1 +:+ s2) = contains_char c s1 || contains_char c s2.
Proof. induction s1 as [|a s IH]; simpl; [done|]. by case_decide. Qed.

Lemma LastIndex_free (c : ascii) (s : string) : contains_char c s = false -> LastIndex s c = None.
Proof. induction s as [|a s IH]; simpl; [done|]. case_decide; [done|]. intros Hs. by rewrite (IH Hs). Qed.

(** Lower case neither makes nor removes a byte that is no letter. *)
Lemma ToLower_contains (c : ascii) (s : string) : (forall a, lower_ascii a = c <-> a = c) ->
  contains_char c (ToLower s) = contains_char c s.
Proof.
  intros Hc. induction s as [|a s IH]; simpl; [done|]. rewrite IH.
  destruct (decide (lower_ascii a = c)) as [E|E], (decide (a = c)) as [E'|E']; try done; exfalso; [by apply E', Hc|by apply E, Hc].
Qed.
Lemma lower_slash (a : ascii) : lower_ascii a = "/"%char <-> a = "/"%char.
Proof. destruct a as [[] [] [] [] [] [] [] []]; vm_compute; split; congruence. Qed.
Lemma lower_colon (a : ascii) : lower_ascii a = ":"%char <-> a = ":"%char.
Proof. destruct a as [[] [] [] [] [] [] [] []]; vm_compute; split; congruence. Qed.

Lemma string_app_inj_l (a b c : string) : a +:+ b = a +:+ c -> b = c.
Proof. induction a as [|x a IH]; [done|]. intros [= Hx]. by apply IH. Qed.

Lemma HasPrefix_app (p s : string) : HasPrefix (p +:+ s) p = true.
Proof.
  unfold HasPrefix. induction p as [|a p IH]; simpl; [by destruct s|].
  destruct (ascii_dec a a); done.
Qed.

Lemma HasPrefix_spec (s p : string) : HasPrefix s p = true <-> exists r, s = p +:+ r.
Proof.
  split; [|intros [r ->]; apply HasPrefix_app].
  unfold HasPrefix. revert s. induction p as [|a p IH]; intros s; simpl; [eauto|].
  destruct s as [|b s]; simpl; [done|]. destruct (ascii_dec a b) as [->|]; [|done].
  intros [r ->]%IH. by exists r.
Qed.

Lemma sdrop_app (p s : string) : sdrop (String.length p) (p +:+ s) = s.
Proof. induction p; simpl; [by destruct s|done]. Qed.

Lemma stake_app (p s : string) : stake (String.length p) (p +:+ s) = p.
Proof. induction p as [|a p IH]; [by destruct s|]. change (String a (stake (String.length p) (p +:+ s)) = String a p). by rewrite IH. Qed.

Lemma length_string_app (s1 s2 : string) : String.length (s1 +:+ s2) = String.length s1 + String.length s2.
Proof. induction s1 as [|a s1 IH]; [done|]. change (S (String.length (s1 +:+ s2)) = S (String.length s1 + String.length s2)). by rewrite IH. Qed.

Lemma stake_sdrop (n : nat) (s : string) : stake n s +:+ sdrop n s = s.
Proof. revert n. induction s as [|a s IH]; intros [|n]; [done..|]. change (String a (stake n s +:+ sdrop n s) = String a s). by rewrite IH. Qed.

Lemma TrimPrefix_app (p s : string) : TrimPrefix (p +:+ s) p = s.
Proof. unfold TrimPrefix. by rewrite HasPrefix_app, sdrop_app. Qed.

Lemma string_app_nil_r (s : string) : s +:+ "" = s.
Proof. induction s as [|a s IH]; [done|]. change (String a (s +:+ "") = String a s). by f_equal. Qed.

Lemma string_app_assoc (s1 s2 s3 : string) : (s1 +:+ s2) +:+ s3 = s1 +:+ s2 +:+ s3.
Proof.
  induction s1 as [|a s IH]; [done|].
  change (String a ((s +:+ s2) +:+ s3) = String a (s +:+ s2 +:+ s3)). by f_equal.
Qed.

#[export] Hint Rewrite ToLower_idemp HasPrefix_app sdrop_app TrimPrefix_app
  string_app_nil_r string_app_assoc Join_Split : gofw.
#[export] Hint Resolve Split_not_nil Split_parts_free : gofw.
