(* ===== verification/PrefixTree.v ===== *)
(** * The prefix tree of the configuration cache ([config/internal/prefix_tree.go]).

    A [PrefixTree] keeps a trie of nodes and, beside it, the map [m] from full keys
    to pointers into the trie, plus a memo table of split keys.  Nodes are never
    unlinked (only [Clear] replaces the root, together with [m]), so a pointer is
    modelled by the path from the root to its node.  The theorems show that the
    whole object refines a finite map from keys to metas, and what
    [SearchByPrefix] returns in terms of that map. *)

From S2P Require Import Prelude GoStrings.
From Stdlib Require Import Ascii.

Open Scope string_scope.
Open Scope list_scope.

Module PrefixTree.

Section defs.
Context {V : Type}.

(** A node: [meta] ([None] is Go's nil) and its children. *)
Inductive PrefixTreeNode : Type :=
| Node (meta : option V) (children : gmap string PrefixTreeNode).

Definition nmeta (n : PrefixTreeNode) : option V := let 'Node meta _ := n in meta.
Definition nchildren (n : PrefixTreeNode) : gmap string PrefixTreeNode := let 'Node _ ch := n in ch.

Definition newNode : PrefixTreeNode := Node None ∅.

Record PrefixTree := mkPrefixTree {
  root : PrefixTreeNode;
  separator : ascii;
  prefixCache : gmap string (list string);
  m : gmap string (list string)
}.

Definition NewPrefixTree (sep : ascii) : PrefixTree := mkPrefixTree newNode sep ∅ ∅.

Definition set_root (s : PrefixTree) (r : PrefixTreeNode) : PrefixTree :=
  mkPrefixTree r (separator s) (prefixCache s) (m s).
Definition set_m (s : PrefixTree) (mm : gmap string (list string)) : PrefixTree :=
  mkPrefixTree (root s) (separator s) (prefixCache s) mm.

(** The memoised split of a key. *)
Definition prefix (s : PrefixTree) (key : string) : list string * PrefixTree :=
  match prefixCache s !! key with
  | Some p => (p, s)
  | None =>
      let p := Split (separator s) key in
      (p, mkPrefixTree (root s) (separator s) (<[key:=p]> (prefixCache s)) (m s))
  end.

(** The loop of [Put]: walk down, creating missing children; an empty component
    stops it, leaving the nodes made so far.  The boolean says the end was reached. *)
Fixpoint put_at (ps : list string) (meta : option V) (n : PrefixTreeNode)
  : PrefixTreeNode * bool :=
  match ps with
  | [] => (Node meta (nchildren n), true)
  | p :: ps' =>
      if bool_decide (p = "") then (n, false)
      else
        let child := default newNode (nchildren n !! p) in
        let '(child', reached) := put_at ps' meta child in
        (Node (nmeta n) (<[p:=child']> (nchildren n)), reached)
  end.

Definition Put (s : PrefixTree) (key : string) (meta : option V) : PrefixTree :=
  let '(ps, s) := prefix s key in
  let '(r, reached) := put_at ps meta (root s) in
  let s := set_root s r in
  if reached then set_m s (<[key:=ps]> (m s)) else s.

(** The loop of [node]: [None] is nil. *)
Fixpoint node_at (ps : list string) (n : PrefixTreeNode) : option PrefixTreeNode :=
  match ps with
  | [] => Some n
  | p :: ps' =>
      if bool_decide (p = "") then None
      else match nchildren n !! p with
           | Some child => node_at ps' child
           | None => None
           end
  end.

Definition node (s : PrefixTree) (key : string) : option PrefixTreeNode * PrefixTree :=
  let '(ps, s) := prefix s key in (node_at ps (root s), s).

(** Read the meta a pointer of [m] points to. *)
Definition deref (s : PrefixTree) (ptr : list string) : option V := node_at ptr (root s) ≫= nmeta.

Definition Get (s : PrefixTree) (key : string) : option V :=
  match m s !! key with
  | None => None
  | Some ptr => deref s ptr
  end.

(** [node.meta = nil] for the node at a path, if there is one. *)
Fixpoint clear_at (ps : list string) (n : PrefixTreeNode) : PrefixTreeNode :=
  match ps with
  | [] => Node None (nchildren n)
  | p :: ps' =>
      if bool_decide (p = "") then n
      else match nchildren n !! p with
           | Some child => Node (nmeta n) (<[p:=clear_at ps' child]> (nchildren n))
           | None => n
           end
  end.

Definition Del (s : PrefixTree) (key : string) : PrefixTree :=
  let '(ps, s) := prefix s key in
  let s := set_root s (clear_at ps (root s)) in
  set_m s (delete key (m s)).

Definition Keys (s : PrefixTree) : list string := (map_to_list (m s)).*1.

Definition Clear (s : PrefixTree) : PrefixTree := mkPrefixTree newNode (separator s) ∅ ∅.

(** [if len(name) != 0 && node.meta != nil { result[name] = node.meta }]. *)
Definition note (name : string) (meta : option V) (result : gmap string V) : gmap string V :=
  if bool_decide (name = "") then result
  else match meta with Some v => <[name:=v]> result | None => result end.

(** The recursive closure of [SearchByPrefix]; [result] is threaded through. *)
Fixpoint travel (sep : ascii) (name : string) (n : PrefixTreeNode) (result : gmap string V)
  : gmap string V :=
  match n with
  | Node meta children =>
      map_fold (fun k child acc =>
        travel sep (if bool_decide (name = "") then k else name +:+ String sep k) child acc)
        (note name meta result) children
  end.

Definition SearchByPrefix (s : PrefixTree) (pre : string) : gmap string V * PrefixTree :=
  if bool_decide (pre = "") then (travel (separator s) pre (root s) ∅, s)
  else
    let '(n, s) := node s pre in
    match n with
    | None => (∅, s)
    | Some n => (travel (separator s) pre n ∅, s)
    end.

(** ** Abstract view *)

(** What the object promises: a finite map from keys to metas. *)
Definition contents (s : PrefixTree) : gmap string (option V) := deref s <$> m s.

(** A key [Put] accepts: no empty component. *)
Definition valid_key (sep : ascii) (key : string) : bool := nonempty_parts (Split sep key).

(** The rest of [l] after the prefix [p]. *)
Fixpoint strip {A} `{EqDecision A} (p l : list A) : option (list A) :=
  match p, l with
  | [], _ => Some l
  | x :: p', y :: l' => if decide (x = y) then strip p' l' else None
  | _ :: _, [] => None
  end.

(** Every edge label is non-empty and free of the separator. *)
Inductive node_wf (sep : ascii) : PrefixTreeNode -> Prop :=
| node_wf_intro meta ch :
    (forall k c, ch !! k = Some c -> k <> "" /\ contains_char sep k = false) ->
    (forall k c, ch !! k = Some c -> node_wf sep c) ->
    node_wf sep (Node meta ch).

(** The object invariant. *)
Record wf (s : PrefixTree) : Prop := {
  wf_root : node_wf (separator s) (root s);
  wf_cache : forall k p, prefixCache s !! k = Some p -> p = Split (separator s) k;
  wf_ptr : forall k ptr, m s !! k = Some ptr ->
    ptr = Split (separator s) k /\ is_Some (node_at ptr (root s));
  wf_meta : forall k v, (node_at (Split (separator s) k) (root s) ≫= nmeta) = Some v ->
    is_Some (m s !! k)
}.

(** ** Operation sequences and their specification *)

Inductive op :=
| OPut (key : string) (meta : option V)
| ODel (key : string)
| OClear
| OSearch (pre : string).

Definition exec (s : PrefixTree) (o : op) : PrefixTree :=
  match o with
  | OPut k v => Put s k v
  | ODel k => Del s k
  | OClear => Clear s
  | OSearch p => (SearchByPrefix s p).2
  end.

Definition spec_exec (sep : ascii) (c : gmap string (option V)) (o : op) : gmap string (option V) :=
  match o with
  | OPut k v => if valid_key sep k then <[k:=v]> c else c
  | ODel k => delete k c
  | OClear => ∅
  | OSearch _ => c
  end.

(** [x] lies at or below [pre] in the name space ([pre = ""] is the whole of it). *)
Definition under (sep : ascii) (pre x : string) : bool :=
  if bool_decide (pre = "") then true
  else bool_decide (is_Some (strip (Split sep pre) (Split sep x))).

End defs.

Arguments PrefixTreeNode : clear implicits.
Arguments PrefixTree : clear implicits.
Arguments op : clear implicits.

Section proofs.
Context {V : Type}.
Implicit Types (n : PrefixTreeNode V) (s : PrefixTree V) (ps qs : list string).

(** ** Paths *)

Lemma node_at_newNode qs : (node_at qs (newNode (V:=V)) ≫= nmeta) = None.
Proof. destruct qs; simpl; [done|]. case_bool_decide; [done|]. by rewrite lookup_empty. Qed.

Lemma put_at_reached ps meta n : (put_at ps meta n).2 = nonempty_parts ps.
Proof.
  revert n; induction ps as [|p ps IH]; intros n; simpl; [done|].
  case_bool_decide; [done|]. specialize (IH (default newNode (nchildren n !! p))).
  by destruct (put_at _ _ _).
Qed.

Lemma node_at_child q qs n :
  node_at (q :: qs) n = if bool_decide (q = "") then None else nchildren n !! q ≫= node_at qs.
Proof. simpl. case_bool_decide; [done|]. by destruct (nchildren n !! q). Qed.

(** The metas seen along paths after [put_at]. *)
Lemma node_at_put ps meta n qs :
  (node_at qs (put_at ps meta n).1 ≫= nmeta) =
  if bool_decide (qs = ps) && nonempty_parts ps then meta else node_at qs n ≫= nmeta.
Proof.
  revert n qs; induction ps as [|p ps IH]; intros n qs; simpl.
  { destruct qs as [|q qs]; [done|]. by rewrite !node_at_child. }
  case_bool_decide as Hp; simpl; [by rewrite andb_false_r|].
  specialize (IH (default newNode (nchildren n !! p))). destruct (put_at ps meta _) as [c r].
  destruct qs as [|q qs]; simpl in *; [done|].
  case_bd (q = "") as Hq; [by rewrite bool_decide_eq_false_2 by congruence|].
  rewrite lookup_insert_case. destruct (decide (p = q)) as [->|Hpq].
  - rewrite IH. rewrite (bool_decide_ext (q :: qs = q :: ps) (qs = ps)) by (split; congruence).
    destruct (nchildren n !! q); simpl; [done|]. by rewrite node_at_newNode.
  - by rewrite bool_decide_eq_false_2 by congruence.
Qed.

Lemma put_at_exists ps meta n qs :
  is_Some (node_at qs n) -> is_Some (node_at qs (put_at ps meta n).1).
Proof.
  revert n qs; induction ps as [|p ps IH]; intros n qs; simpl; [by destruct qs|].
  case_bool_decide; [done|]. specialize (IH (default newNode (nchildren n !! p))).
  destruct (put_at ps meta _) as [c r]. destruct qs as [|q qs]; simpl in *; [by eauto|].
  case_bool_decide; [done|]. rewrite lookup_insert_case.
  destruct (decide (p = q)) as [->|]; [|done].
  intros Hq. destruct (nchildren n !! q); simpl in *; [by apply IH|by destruct Hq].
Qed.

Lemma put_at_self ps meta n :
  nonempty_parts ps = true -> is_Some (node_at ps (put_at ps meta n).1).
Proof.
  revert n; induction ps as [|p ps IH]; intros n; simpl; [by eauto|].
  case_bd (p = "") as Hp; simpl; [done|]. intros Hps%(IH (default newNode (nchildren n !! p))).
  destruct (put_at ps meta _) as [c r]. simpl in *. by rewrite lookup_insert_eq.
Qed.

Lemma put_at_wf sep ps meta n :
  Forall (fun p => contains_char sep p = false) ps -> node_wf sep n ->
  node_wf sep (put_at ps meta n).1.
Proof.
  intros Hps. revert n; induction Hps as [|p ps Hp Hps IH]; intros n Hn; simpl.
  { inversion Hn; subst; by constructor. }
  case_bool_decide; [done|].
  assert (Hc : node_wf sep (default newNode (nchildren n !! p))).
  { destruct (nchildren n !! p) as [c|] eqn:E; simpl; [|by constructor; intros ??; rewrite lookup_empty].
    inversion Hn; subst; simpl in *; eauto. }
  apply IH in Hc. destruct (put_at ps meta _) as [c r]; simpl in *.
  inversion Hn; subst; simpl in *.
  constructor; intros k c'; rewrite lookup_insert_case; case_decide; naive_solver.
Qed.

Lemma node_at_clear ps n qs :
  (node_at qs (clear_at ps n) ≫= nmeta) = if bool_decide (qs = ps) then None else node_at qs n ≫= nmeta.
Proof.
  revert n qs; induction ps as [|p ps IH]; intros n qs.
  { destruct qs as [|q qs]; [done|]. by rewrite !node_at_child. }
  destruct qs as [|q qs].
  { simpl. case_bool_decide; [done|]. by destruct (nchildren n !! p). }
  simpl. case_bd (p = "") as Hp; simpl.
  { case_bd (q = "") as Hq; [by case_bool_decide|]. by rewrite bool_decide_eq_false_2 by congruence. }
  destruct (nchildren n !! p) as [c|] eqn:E; simpl; case_bd (q = "") as Hq; simpl.
  - by case_bool_decide.
  - rewrite lookup_insert_case. destruct (decide (p = q)) as [->|].
    + by rewrite IH, E, (bool_decide_ext (q :: qs = q :: ps) (qs = ps)) by (split; congruence).
    + by rewrite bool_decide_eq_false_2 by congruence.
  - by case_bool_decide.
  - case_bool_decide; simplify_eq; [by rewrite E|done].
Qed.

Lemma clear_at_exists ps n qs : is_Some (node_at qs n) -> is_Some (node_at qs (clear_at ps n)).
Proof.
  revert n qs; induction ps as [|p ps IH]; intros n qs; simpl; [by destruct qs|].
  case_bool_decide; [done|]. destruct (nchildren n !! p) as [c|] eqn:E; [|done].
  destruct qs as [|q qs]; simpl; [by eauto|]. case_bool_decide; [done|].
  rewrite lookup_insert_case. destruct (decide (p = q)) as [->|]; [rewrite E; apply IH|done].
Qed.

Lemma clear_at_wf sep ps n : node_wf sep n -> node_wf sep (clear_at ps n).
Proof.
  revert n; induction ps as [|p ps IH]; intros n Hn; simpl.
  { inversion Hn; subst; by constructor. }
  case_bool_decide; [done|]. destruct (nchildren n !! p) as [c|] eqn:E; [|done].
  inversion Hn; subst; simpl in *.
  constructor; intros k c'; rewrite lookup_insert_case; case_decide; naive_solver.
Qed.

(** ** Names and paths *)

Lemma strip_spec {A} `{EqDecision A} (p l r : list A) : strip p l = Some r <-> l = p ++ r.
Proof.
  revert l; induction p as [|x p IH]; intros l; simpl; [split; congruence|].
  destruct l as [|y l]; [done|]. case_decide; subst; rewrite ?IH; naive_solver.
Qed.

Lemma strip_snoc {A} `{EqDecision A} (p l : list A) (k : A) :
  strip (p ++ [k]) l =
  match strip p l with
  | Some (y :: r) => if decide (k = y) then Some r else None
  | _ => None
  end.
Proof.
  revert l; induction p as [|x p IH]; intros l; simpl; [by destruct l|].
  destruct l as [|y l]; [done|]. case_decide; [apply IH|done].
Qed.

(** Paths made of non-empty, separator-free labels. *)
Definition good_path (sep : ascii) (ps : list string) : Prop :=
  Forall (fun p => p <> "" /\ contains_char sep p = false) ps.

Lemma Join_snoc sep ps k :
  ps <> [] -> Join (ps ++ [k]) (String sep "") = Join ps (String sep "") +:+ String sep k.
Proof.
  induction ps as [|p ps IH]; intros Hne; [done|]. destruct ps as [|q ps]; [done|].
  cbn [app]. rewrite !Join_cons_cons. cbn [app] in IH. rewrite IH by done.
  by rewrite !string_app_assoc.
Qed.

Lemma good_path_name sep ps : good_path sep ps -> Join ps (String sep "") = "" <-> ps = [].
Proof.
  intros Hps. split; [|by intros ->]. destruct Hps as [|p ps [Hp _] _]; [done|].
  destruct p as [|a p]; [done|]. by destruct ps.
Qed.

Lemma good_path_split sep ps :
  good_path sep ps -> ps <> [] -> Split sep (Join ps (String sep "")) = ps.
Proof. intros Hps Hne. apply Split_Join; [done|]. eapply Forall_impl; [done|]. naive_solver. Qed.

Lemma split_name_inj sep ps x :
  good_path sep ps -> ps <> [] -> Split sep x = ps <-> x = Join ps (String sep "").
Proof.
  intros Hps Hne. split; [intros <-; by rewrite Join_Split|]. intros ->. by apply good_path_split.
Qed.

Lemma note_lookup sep path (meta : option V) (result : gmap string V) x :
  good_path sep path ->
  note (Join path (String sep "")) meta result !! x =
  match strip path (Split sep x) with
  | Some [] => match meta with Some v => Some v | None => result !! x end
  | _ => result !! x
  end.
Proof.
  intros Hpath. unfold note. case_bool_decide as Hn; rewrite good_path_name in Hn by done.
  { subst path. simpl. pose proof (Split_not_nil sep x). by destruct (Split sep x). }
  destruct meta as [v|]; [|by destruct (strip _ _) as [[]|]].
  rewrite lookup_insert_case. case_decide as Hx.
  - subst x. rewrite good_path_split by done.
    rewrite (proj2 (strip_spec path path [])) by (by rewrite app_nil_r). done.
  - destruct (strip _ _) as [[|]|] eqn:E; [|done..]. apply strip_spec in E.
    rewrite app_nil_r in E. by apply split_name_inj in E.
Qed.

(** Folding over the children, in any order, adds each child's entries. *)
Lemma travel_children sep path (ch : gmap string (PrefixTreeNode V)) (result : gmap string V)
    (f : string -> PrefixTreeNode V -> gmap string V -> gmap string V) :
  (forall k c, ch !! k = Some c -> forall r y, f k c r !! y =
    match strip (path ++ [k]) (Split sep y) ≫= (fun ps => node_at ps c ≫= nmeta) with
    | Some v => Some v | None => r !! y end) ->
  forall y, map_fold f result ch !! y =
    match strip path (Split sep y) with
    | Some (k :: ps) =>
        match (ch !! k ≫= node_at ps) ≫= nmeta with Some v => Some v | None => result !! y end
    | _ => result !! y
    end.
Proof.
  intros Hf.
  refine (map_fold_weak_ind (fun (r : gmap string V) (ch' : gmap string (PrefixTreeNode V)) =>
    ch' ⊆ ch -> forall y, r !! y =
    match strip path (Split sep y) with
    | Some (k :: ps) =>
        match (ch' !! k ≫= node_at ps) ≫= nmeta with Some v => Some v | None => result !! y end
    | _ => result !! y
    end) f result _ _ ch (reflexivity _)).
  - intros _ y. destruct (strip _ _) as [[|k ps]|]; [done| |done]. by rewrite lookup_empty.
  - intros k c ch' r Hnone IHr Hsub y.
    assert (Hck : ch !! k = Some c) by (eapply lookup_weaken; [apply lookup_insert_eq|done]).
    assert (Hr : ch' ⊆ ch) by (etrans; [by apply insert_subseteq|done]).
    rewrite (Hf k c Hck), strip_snoc, (IHr Hr).
    destruct (strip path (Split sep y)) as [[|k' ps]|]; simpl; [done| |done].
    rewrite lookup_insert_case. destruct (decide (k = k')) as [<-|]; simpl; [|done].
    rewrite Hnone. by destruct (node_at ps c).
Qed.

(** What [travel] adds to [result]: the metas of the paths below the node. *)
Lemma travel_lookup sep n : node_wf sep n -> forall path result x,
  good_path sep path ->
  travel sep (Join path (String sep "")) n result !! x =
  match strip path (Split sep x) ≫= (fun ps => node_at ps n ≫= nmeta) with
  | Some v => Some v
  | None => result !! x
  end.
Proof.
  induction 1 as [meta ch Hk Hc IH]; intros path result x Hpath. simpl.
  rewrite (travel_children sep path).
  - rewrite note_lookup by done. destruct (strip path (Split sep x)) as [[|k ps]|]; simpl; [done| |done].
    case_bool_decide as Hn; [|by destruct (ch !! k)].
    destruct (ch !! k) eqn:Ek; simpl; [|done]. exfalso. by destruct (Hk _ _ Ek).
  - intros k c Hck r y. destruct (Hk _ _ Hck) as [Hk1 Hk2].
    rewrite <-(IH k c Hck) by (apply Forall_app; split; [done|]; by repeat constructor).
    do 2 f_equal. case_bool_decide as Hn; rewrite good_path_name in Hn by done.
    + by subst path.
    + by rewrite Join_snoc.
Qed.

(** ** The invariant and the abstract map under each operation *)

Lemma prefix_spec s key : wf s -> exists c,
  prefix s key = (Split (separator s) key, mkPrefixTree (root s) (separator s) c (m s)) /\
  wf (mkPrefixTree (root s) (separator s) c (m s)).
Proof.
  intros [Hr Hc Hp Hm]. unfold prefix. destruct (prefixCache s !! key) as [p|] eqn:E.
  - exists (prefixCache s). split; [|by constructor]. rewrite (Hc _ _ E). by destruct s.
  - eexists. split; [done|]. constructor; try done; simpl.
    intros k p. rewrite lookup_insert_case. case_decide; naive_solver.
Qed.

Lemma contents_lookup s k : contents s !! k = deref s <$> m s !! k.
Proof. apply lookup_fmap. Qed.

Lemma Get_contents s k : Get s k = mjoin (contents s !! k).
Proof. rewrite contents_lookup. unfold Get. by destruct (m s !! k). Qed.

(** On a well-formed object a key's meta is read at its split path. *)
Lemma Get_path s k : wf s -> Get s k = node_at (Split (separator s) k) (root s) ≫= nmeta.
Proof.
  intros [_ _ Hp Hm]. unfold Get, deref. destruct (m s !! k) as [ptr|] eqn:E.
  - by destruct (Hp _ _ E) as [-> _].
  - destruct (node_at _ _ ≫= nmeta) eqn:E'; [|done]. apply Hm in E' as [? ?]. congruence.
Qed.

Lemma new_wf sep : wf (NewPrefixTree (V:=V) sep).
Proof.
  constructor; simpl.
  - constructor; intros k c; by rewrite lookup_empty.
  - intros k p. by rewrite lookup_empty.
  - intros k p. by rewrite lookup_empty.
  - intros k v. by rewrite node_at_newNode.
Qed.

Lemma Put_wf s key meta : wf s -> wf (Put s key meta).
Proof.
  intros Hs. unfold Put. destruct (prefix_spec s key Hs) as (c & -> & [Hr Hc Hp Hm]); simpl in *.
  pose proof (put_at_reached (Split (separator s) key) meta (root s)) as Hre.
  pose proof (node_at_put (Split (separator s) key) meta (root s)) as Hn.
  pose proof (put_at_exists (Split (separator s) key) meta (root s)) as He.
  pose proof (put_at_self (Split (separator s) key) meta (root s)) as Hself.
  pose proof (put_at_wf (separator s) _ meta (root s) (Split_parts_free _ key) Hr) as Hw.
  destruct (put_at _ _ _) as [r reached]; simpl in *. rewrite <-Hre in Hn, Hself.
  destruct reached; constructor; simpl; try done.
  - intros k ptr. rewrite lookup_insert_case. case_decide; [|by intros [-> ?]%Hp; auto].
    intros [= <-]; subst; auto.
  - intros k v. rewrite Hn, andb_true_r, lookup_insert_case.
    case_decide as Hk; [by eauto|]. case_bool_decide as Hsp; [by apply Split_inj in Hsp|apply Hm].
  - intros k ptr [-> ?]%Hp. auto.
  - intros k v. rewrite Hn, andb_false_r. apply Hm.
Qed.

Lemma Put_contents s key meta : wf s ->
  contents (Put s key meta) =
  if valid_key (separator s) key then <[key:=meta]> (contents s) else contents s.
Proof.
  intros Hs. unfold Put. destruct (prefix_spec s key Hs) as (c & -> & [Hr Hc Hp Hm]); simpl in *.
  pose proof (put_at_reached (Split (separator s) key) meta (root s)) as Hre.
  pose proof (node_at_put (Split (separator s) key) meta (root s)) as Hn.
  destruct (put_at _ _ _) as [r reached]; simpl in *. rewrite <-Hre in Hn.
  unfold valid_key. rewrite <-Hre. apply map_eq. intros k.
  destruct reached; rewrite ?lookup_insert_case, !contents_lookup; simpl; rewrite ?lookup_insert_case.
  - case_decide as Hk; simpl; unfold deref; simpl.
    + subst. by rewrite Hn, andb_true_r, bool_decide_eq_true_2.
    + destruct (m s !! k) as [ptr|] eqn:E; simpl; [|done]. apply Hp in E as [-> _].
      rewrite Hn, andb_true_r, bool_decide_eq_false_2; [done|]. by intros ?%Split_inj.
  - destruct (m s !! k); simpl; [|done]. unfold deref; simpl. by rewrite Hn, andb_false_r.
Qed.

Lemma Del_wf s key : wf s -> wf (Del s key).
Proof.
  intros Hs. unfold Del. destruct (prefix_spec s key Hs) as (c & -> & [Hr Hc Hp Hm]); simpl in *.
  constructor; simpl; try done.
  - by apply clear_at_wf.
  - intros k ptr. rewrite lookup_delete_case. case_decide; [done|].
    intros [-> ?]%Hp. split; [done|]. by apply clear_at_exists.
  - intros k v. rewrite node_at_clear, lookup_delete_case.
    case_bool_decide as Hk; [done|]. case_decide; [subst; done|]. apply Hm.
Qed.

Lemma Del_contents s key : wf s -> contents (Del s key) = delete key (contents s).
Proof.
  intros Hs. unfold Del. destruct (prefix_spec s key Hs) as (c & -> & [Hr Hc Hp Hm]); simpl in *.
  apply map_eq. intros k. rewrite lookup_delete_case, !contents_lookup; simpl.
  rewrite lookup_delete_case. case_decide as Hk; [done|].
  destruct (m s !! k) as [ptr|] eqn:E; simpl; [|done]. apply Hp in E as [-> _].
  unfold deref; simpl. rewrite node_at_clear, bool_decide_eq_false_2; [done|].
  by intros ?%Split_inj.
Qed.

Lemma Clear_contents s : contents (Clear s) = ∅.
Proof. apply fmap_empty. Qed.

Lemma Search_state s pre : wf s ->
  wf (SearchByPrefix s pre).2 /\ contents (SearchByPrefix s pre).2 = contents s.
Proof.
  intros Hs. unfold SearchByPrefix, node. case_bool_decide; [done|].
  destruct (prefix_spec s pre Hs) as (c & -> & Hs'). by case_match.
Qed.

Lemma exec_separator s o : separator (exec s o) = separator s.
Proof.
  destruct o as [k v|k| |p]; simpl; unfold Put, Del, SearchByPrefix, node, prefix; split_cases; done.
Qed.

Lemma exec_spec s o : wf s ->
  wf (exec s o) /\ contents (exec s o) = spec_exec (separator s) (contents s) o.
Proof.
  intros Hs. destruct o as [k v|k| |p]; simpl.
  - auto using Put_wf, Put_contents.
  - auto using Del_wf, Del_contents.
  - split; [apply (new_wf (separator s))|apply Clear_contents].
  - by apply Search_state.
Qed.

Lemma run_spec sep ops s : wf s -> separator s = sep ->
  wf (foldl exec s ops) /\ separator (foldl exec s ops) = sep /\
  contents (foldl exec s ops) = foldl (spec_exec sep) (contents s) ops.
Proof.
  revert s; induction ops as [|o ops IH]; intros s Hs <-; simpl; [done|].
  destruct (exec_spec s o Hs) as [Hw Hc]. rewrite <-Hc.
  apply (IH _ Hw). apply exec_separator.
Qed.

Lemma node_at_app ps qs n : node_at (ps ++ qs) n = node_at ps n ≫= node_at qs.
Proof.
  revert n; induction ps as [|p ps IH]; intros n; [done|]. simpl.
  case_bool_decide; [done|]. destruct (nchildren n !! p); [apply IH|done].
Qed.

Lemma node_at_wf sep ps n c : node_wf sep n -> node_at ps n = Some c ->
  node_wf sep c /\ Forall (fun p => p <> "") ps.
Proof.
  revert n; induction ps as [|p ps IH]; intros n Hn; simpl; [naive_solver|].
  case_bool_decide; [done|]. destruct (nchildren n !! p) as [c'|] eqn:E; [|done].
  intros Hc. destruct (IH c') as [? ?]; [|done|by auto].
  inversion Hn; subst; simpl in *; eauto.
Qed.

(** [SearchByPrefix] on a well-formed object. *)
Lemma Search_lookup s pre x : wf s ->
  (SearchByPrefix s pre).1 !! x = if under (separator s) pre x then Get s x else None.
Proof.
  intros Hs. rewrite Get_path by done. unfold SearchByPrefix, node, under.
  case_bool_decide as Hpre; simpl.
  { subst. rewrite (travel_lookup _ _ (wf_root _ Hs) [] ∅ x) by constructor. simpl.
    rewrite lookup_empty. by destruct (node_at _ _ ≫= nmeta). }
  destruct (prefix_spec s pre Hs) as (c & -> & Hs'); simpl.
  destruct (node_at (Split (separator s) pre) (root s)) as [n|] eqn:En; simpl.
  - destruct (node_at_wf _ _ _ _ (wf_root _ Hs) En) as [Hn Hne].
    rewrite <-(Join_Split (separator s) pre) at 1. rewrite travel_lookup; [|done|].
    + destruct (strip _ _) as [ps|] eqn:E; simpl; [|done].
      apply strip_spec in E. rewrite E, node_at_app, En; simpl. rewrite lookup_empty.
      by destruct (node_at ps n ≫= nmeta).
    + apply Forall_and. auto with gofw.
  - rewrite lookup_empty. case_bool_decide as Hu; [|done]. destruct Hu as [ps E%strip_spec].
    by rewrite E, node_at_app, En.
Qed.

Lemma Get_Put s k v k' : wf s ->
  Get (Put s k v) k' = if decide (k = k') then if valid_key (separator s) k then v else Get s k'
                       else Get s k'.
Proof.
  intros Hs. rewrite !Get_contents, Put_contents by done.
  destruct (valid_key _ _); [|by case_decide]. rewrite lookup_insert_case. by case_decide.
Qed.

Lemma Get_Del s k k' : wf s -> Get (Del s k) k' = if decide (k = k') then None else Get s k'.
Proof.
  intros Hs. rewrite !Get_contents, Del_contents, lookup_delete_case by done. by case_decide.
Qed.

Lemma Put_separator s k v : separator (Put s k v) = separator s.
Proof. apply (exec_separator s (OPut k v)). Qed.

Lemma Del_separator s k : separator (Del s k) = separator s.
Proof. apply (exec_separator s (ODel k)). Qed.

(** ** Properties *)

(** C1: the prefix tree refines a finite map.  After any sequence of [Put], [Del],
    [Clear] and [SearchByPrefix] on a new tree, [Get] and [Keys] answer exactly as the
    map obtained by inserting (keys with an empty component are ignored) and deleting;
    in particular the trie and the pointer map [m] never disagree. *)
Theorem prefix_tree_refines (sep : ascii) (ops : list (op V)) :
  let s := foldl exec (NewPrefixTree sep) ops in
  let spec := foldl (spec_exec sep) ∅ ops in
  contents s = spec /\
  (forall k, Get s k = mjoin (spec !! k)) /\
  (forall k, k ∈ Keys s <-> is_Some (spec !! k)) /\ NoDup (Keys s).
Proof.
  intros s spec. destruct (run_spec sep ops _ (new_wf sep) eq_refl) as (Hw & Hsep & Hc).
  fold s in Hw, Hsep, Hc. change (contents (NewPrefixTree sep)) with (∅ : gmap string (option V)) in Hc.
  split_and!; [done| | |].
  - intros k. by rewrite Get_contents, Hc.
  - intros k. unfold spec. rewrite <-Hc, contents_lookup, fmap_is_Some. unfold Keys.
    rewrite list_elem_of_fmap. split.
    + intros ([k' ptr] & -> & Hin%elem_of_map_to_list). eauto.
    + intros [ptr Hk%elem_of_map_to_list]. by exists (k, ptr).
  - apply NoDup_fst_map_to_list.
Qed.

(** [SearchByPrefix] returns exactly the entries at or below the prefix in the
    separated name space, with the metas the abstract map holds (nil metas are left
    out), in every state reachable by operations. *)
Theorem search_by_prefix_exact (sep : ascii) (ops : list (op V)) (pre x : string) :
  let s := foldl exec (NewPrefixTree sep) ops in
  let spec := foldl (spec_exec sep) ∅ ops in
  (SearchByPrefix s pre).1 !! x = if under sep pre x then mjoin (spec !! x) else None.
Proof.
  intros s spec. destruct (run_spec sep ops _ (new_wf sep) eq_refl) as (Hw & Hsep & Hc).
  fold s in Hw, Hsep, Hc. change (contents (NewPrefixTree sep)) with (∅ : gmap string (option V)) in Hc.
  rewrite Search_lookup by done. by rewrite Get_contents, Hc, Hsep.
Qed.

End proofs.

#[export] Hint Resolve new_wf Put_wf Del_wf : gofw.
#[export] Hint Rewrite @Put_separator @Del_separator : gofw.

End PrefixTree.
