(* ===== verification/Watcher.v ===== *)
(** * Notifiers of the configuration ([config/watcher/notifier.go], [config/watcher/watcher.go]).

    A [Notifier] is a list of watchers, compared by identity ([W] with decidable
    equality).  Delivering a notification is modelled by the list of calls made, in
    order: each watcher with the event it receives. *)

From S2P Require Import Prelude GoStrings.

Open Scope string_scope.
Open Scope list_scope.

Module Watcher.

(** What a watcher's methods receive. *)
Inductive event :=
| EUpdate (val : gmap string string)
| EDelete (val : list string)
| ESync (val : gmap string string).

Section notifier.
Context {W : Type} `{EqDecision W}.

Record Notifier := mkNotifier { watchers : list W }.

Definition NewNotifier (ws : list W) : Notifier := mkNotifier ws.

(** The function [Watch] returns: remove every entry equal to the watcher. *)
Definition cancelWatch (w : W) (s : Notifier) : Notifier :=
  mkNotifier (filter (fun w' => w' <> w) (watchers s)).

Definition Watch (s : Notifier) (w : W) : Notifier * (Notifier -> Notifier) :=
  (mkNotifier (watchers s ++ [w]), cancelWatch w).

Definition OnUpdate (s : Notifier) (notify : gmap string string) : list (W * event) :=
  if bool_decide (notify = ∅) then [] else (fun w => (w, EUpdate notify)) <$> watchers s.

Definition OnDelete (s : Notifier) (notify : list string) : list (W * event) :=
  if bool_decide (notify = []) then [] else (fun w => (w, EDelete notify)) <$> watchers s.

(** Only watchers that are also [SourceWatcher]s get the sync event. *)
Definition OnSync (isSourceWatcher : W -> bool) (s : Notifier) (notify : gmap string string)
  : list (W * event) :=
  if bool_decide (notify = ∅) then []
  else (fun w => (w, ESync notify)) <$> filter (fun w => isSourceWatcher w = true) (watchers s).

Definition Size (s : Notifier) : nat := length (watchers s).

End notifier.
Arguments Notifier : clear implicits.

(** [watcher.Helper]: watch one key; the calls of [watcherFunc] are returned. *)
Record Helper := mkHelper { keyToWatch : string }.

Definition NewHelper (key : string) : Helper := mkHelper (ToLower key).

Definition Helper_OnUpdate (s : Helper) (val : gmap string string) : list (string * bool) :=
  match val !! ToLower (keyToWatch s) with
  | Some v => [(v, false)]
  | None => []
  end.

Fixpoint Helper_OnDelete (s : Helper) (val : list string) : list (string * bool) :=
  match val with
  | [] => []
  | k :: val' =>
      if bool_decide (ToLower k = keyToWatch s) then [("", true)] else Helper_OnDelete s val'
  end.

Section notifier_lemmas.
Context {W : Type} `{EqDecision W}.

(** Once canceled, a watcher is not called any more, whatever is notified. *)
Lemma cancelWatch_silent (s : Notifier W) (w : W) n l isS :
  w ∉ (OnUpdate (cancelWatch w s) n).*1 /\
  w ∉ (OnDelete (cancelWatch w s) l).*1 /\
  w ∉ (OnSync isS (cancelWatch w s) n).*1.
Proof.
  assert (Hw : w ∉ watchers (cancelWatch w s)) by (simpl; rewrite list_elem_of_filter; naive_solver).
  unfold OnUpdate, OnDelete, OnSync. split_and!; case_bool_decide;
    rewrite ?list_elem_of_fmap; try set_solver;
    intros ([w' e] & -> & Hin); apply list_elem_of_fmap in Hin as (w'' & [= -> ->] & Hin); simpl in *;
    try apply list_elem_of_filter in Hin as [_ Hin]; by apply Hw.
Qed.

(** The other watchers are called as before, in the same order. *)
Lemma cancelWatch_others (s : Notifier W) (w : W) n :
  OnUpdate (cancelWatch w s) n = filter (fun p => p.1 <> w) (OnUpdate s n).
Proof.
  unfold OnUpdate. case_bool_decide; [done|]. simpl.
  induction (watchers s) as [|w' ws IH]; [done|]. simpl. rewrite !filter_cons. simpl.
  case_decide; [|done]. simpl. by f_equal.
Qed.

End notifier_lemmas.

End Watcher.
