(* ===== verification/ConfigImpl.v ===== *)
(** * Layered configuration ([config/internal/source.go], [config/internal/config_impl.go]).

    A [ConfigImpl] merges several sources: source [i] has level [i], the cache holds
    for each key the value of the highest level that supplies it, and events of a
    source (update, delete, sync) change its own cache first and the merged cache
    after.  A Go map that is ranged over is a list of pairs, in the order of the
    iteration; the sources' back ends (plugins) are inputs: what [Sync] and
    [AppendPrefix] of the wrapped source answer is an argument. *)

From S2P Require Import Prelude GoStrings PrefixTree Watcher.
From Stdlib Require Import Ascii.

Open Scope string_scope.
Open Scope list_scope.

Module SourceWrapper.

Record SourceWrapper := mkSource {
  cache : gmap string string;
  sprefix : list string;
  synchronized : bool;
  ignoreNamespace : bool
}.

(** [NewSourceWrapper]; [ignoreNs]: whether the source has method [IgnoreNamespace]. *)
Definition NewSourceWrapper (ignoreNs : bool) : SourceWrapper := mkSource ∅ [] false ignoreNs.

Definition set_cache (s : SourceWrapper) (c : gmap string string) : SourceWrapper :=
  mkSource c (sprefix s) (synchronized s) (ignoreNamespace s).

(** [s.cache.Store(k, v)] for each pair. *)
Definition store_all (c : gmap string string) (val : list (string * string)) : gmap string string :=
  foldl (fun c '(k, v) => <[k:=v]> c) c val.

(** [Sync]: [answer] is what the wrapped source returns ([None]: an error). *)
Definition Sync (s : SourceWrapper) (answer : option (list (string * string)))
  : SourceWrapper * option (gmap string string) :=
  if synchronized s then (s, Some (cache s))
  else match answer with
       | None => (s, None)
       | Some val =>
           let low := (fun '(k, v) => (ToLower k, v)) <$> val in
           (set_cache s (store_all (cache s) low), Some (store_all ∅ low))
       end.

(** [AppendPrefix]: [accepts] is whether the wrapped source takes the new prefixes. *)
Definition AppendPrefix (s : SourceWrapper) (accepts : list string -> bool) (prefix : list string)
  : SourceWrapper * bool :=
  let filtered := filter (fun p => Forall (fun c => HasPrefix p c = false) (sprefix s)) (TrimSpace <$> prefix) in
  if bool_decide (filtered = []) then (s, true)
  else if accepts filtered
       then (mkSource (cache s) (sprefix s ++ filtered) (synchronized s) (ignoreNamespace s), true)
       else (s, false).

Definition Get (s : SourceWrapper) (key : string) : option string := cache s !! key.

Definition OnUpdate (s : SourceWrapper) (val : list (string * string)) : SourceWrapper :=
  set_cache s (store_all (cache s) val).

Definition OnDelete (s : SourceWrapper) (val : list string) : SourceWrapper :=
  set_cache s (foldl (fun c k => delete k c) (cache s) val).

(** [OnSync] only stores: keys missing from [val] stay in the cache. *)
Definition OnSync (s : SourceWrapper) (val : list (string * string)) : SourceWrapper :=
  set_cache s (store_all (cache s) val).

#[global] Arguments store_all : simpl never.

End SourceWrapper.

Module ConfigImpl.
Import PrefixTree (PrefixTree, NewPrefixTree, valid_key).
Import SourceWrapper (SourceWrapper).

Record ValueNode := mkValue { level : nat; value : string }.

#[export] Instance ValueNode_eq_dec : EqDecision ValueNode.
Proof. solve_decision. Defined.

Definition dot : ascii := "."%char.

Record ConfigImpl := mkConfig {
  source : list SourceWrapper;
  notifier : Watcher.Notifier nat;
  cache : PrefixTree ValueNode;
  closed : bool
}.

(** A configuration before its first [sync]: one wrapper per source. *)
Definition newConfigImpl (ignoreNs : list bool) : ConfigImpl :=
  mkConfig (SourceWrapper.NewSourceWrapper <$> ignoreNs) (Watcher.NewNotifier []) (NewPrefixTree dot) false.

Definition set_cache (c : ConfigImpl) (t : PrefixTree ValueNode) : ConfigImpl :=
  mkConfig (source c) (notifier c) t (closed c).

Definition withPrefix (key prefix : string) : string := prefix +:+ key.

(** [Get(key, prefix, raw)]: the value and the level it comes from.  Levels stored in
    the cache are indices of [source], so the last [None] case is not reached. *)
Definition Get (c : ConfigImpl) (key prefix : string) (raw : bool) : string * Z :=
  let key := ToLower key in
  if raw then
    match PrefixTree.Get (cache c) key with
    | None => ("", 1%Z)
    | Some vn =>
        match source c !! level vn with
        | Some src => if SourceWrapper.ignoreNamespace src
                      then (value vn, Z.of_nat (level vn)) else ("", 1%Z)
        | None => ("", 1%Z)
        end
    end
  else match PrefixTree.Get (cache c) (withPrefix key prefix) with
       | None => ("", (-1)%Z)
       | Some vn => (value vn, Z.of_nat (level vn))
       end.

(** The highest level below [lv] whose source has the key. *)
Fixpoint fallback (srcs : list SourceWrapper) (lv : nat) (k : string) : option ValueNode :=
  match lv with
  | O => None
  | S i =>
      match srcs !! i ≫= (fun s => SourceWrapper.Get s k) with
      | Some v => Some (mkValue i v)
      | None => fallback srcs i k
      end
  end.

(** One round of the loop of [onUpdate] (and the first loop of [onSync]). *)
Definition update_step (lv : nat) (acc : PrefixTree ValueNode * gmap string string)
    (kv : string * string) : PrefixTree ValueNode * gmap string string :=
  let '(t, notify) := acc in
  let '(k, v) := kv in
  let k := ToLower k in
  match PrefixTree.Get t k with
  | None => (PrefixTree.Put t k (Some (mkValue lv v)), <[k:=v]> notify)
  | Some vn =>
      if (level vn <=? lv)%nat
      then (PrefixTree.Put t k (Some (mkValue lv v)),
            if bool_decide (value vn <> v) then <[k:=v]> notify else notify)
      else (t, notify)
  end.

Definition onUpdate (c : ConfigImpl) (lv : nat) (val : list (string * string))
  : ConfigImpl * list (nat * Watcher.event) :=
  let '(t, notify) := foldl (update_step lv) (cache c, ∅) val in
  (set_cache c t, Watcher.OnUpdate (notifier c) notify).

(** Replace a key of level [lv] by the next lower source's value, or drop it. *)
Definition demote (srcs : list SourceWrapper) (lv : nat)
    (acc : PrefixTree ValueNode * gmap string string * list string) (k : string) (vn : ValueNode)
  : PrefixTree ValueNode * gmap string string * list string :=
  let '(t, updateNotify, deleteNotify) := acc in
  match fallback srcs lv k with
  | Some vn' =>
      (PrefixTree.Put t k (Some vn'),
       if bool_decide (value vn' <> value vn) then <[k:=value vn']> updateNotify else updateNotify,
       deleteNotify)
  | None => (PrefixTree.Del t k, updateNotify, deleteNotify ++ [k])
  end.

Definition delete_step (srcs : list SourceWrapper) (lv : nat)
    (acc : PrefixTree ValueNode * gmap string string * list string) (k : string)
  : PrefixTree ValueNode * gmap string string * list string :=
  let '(t, _, _) := acc in
  let k := ToLower k in
  match PrefixTree.Get t k with
  | Some vn => if (level vn =? lv)%nat then demote srcs lv acc k vn else acc
  | None => acc
  end.

Definition onDelete (c : ConfigImpl) (lv : nat) (val : list string)
  : ConfigImpl * list (nat * Watcher.event) :=
  let '(t, upd, del) := foldl (delete_step (source c) lv) (cache c, ∅, []) val in
  (set_cache c t, Watcher.OnUpdate (notifier c) upd ++ Watcher.OnDelete (notifier c) del).

(** The second loop of [onSync]; a missing node reads as the zero [ValueNode]. *)
Definition sync_drop_step (srcs : list SourceWrapper) (lv : nat) (lowerVal : gmap string string)
    (acc : PrefixTree ValueNode * gmap string string * list string) (k : string)
  : PrefixTree ValueNode * gmap string string * list string :=
  let '(t, _, _) := acc in
  let k := ToLower k in
  let vn := default (mkValue 0 "") (PrefixTree.Get t k) in
  match lowerVal !! k with
  | None => if (level vn =? lv)%nat then demote srcs lv acc k vn else acc
  | Some _ => acc
  end.

Definition lower_vals (val : list (string * string)) : gmap string string :=
  SourceWrapper.store_all ∅ ((fun '(k, v) => (ToLower k, v)) <$> val).

Definition onSync (c : ConfigImpl) (lv : nat) (val : list (string * string))
  : ConfigImpl * list (nat * Watcher.event) :=
  let lowerVal := lower_vals val in
  let '(t, upd) := foldl (update_step lv) (cache c, ∅) (map_to_list lowerVal) in
  let '(t, upd, del) :=
    foldl (sync_drop_step (source c) lv lowerVal) (t, upd, []) (PrefixTree.Keys t) in
  (set_cache c t, Watcher.OnUpdate (notifier c) upd ++ Watcher.OnDelete (notifier c) del).

(** One round of the loop of [sync] over a source's answer. *)
Definition sync_step (lv : nat) (acc : PrefixTree ValueNode * gmap string string)
    (kv : string * string) : PrefixTree ValueNode * gmap string string :=
  let '(t, notify) := acc in
  let '(k, v) := kv in
  let k := ToLower k in
  let notify :=
    match PrefixTree.Get t k with
    | Some vn => if bool_decide (value vn <> v) then <[k:=v]> notify else notify
    | None => <[k:=v]> notify
    end in
  (PrefixTree.Put t k (Some (mkValue lv v)), notify).

(** [sync] from level [lv] on; [answers] are the sources' answers, in level order.
    [false] is the error return, which leaves the later levels unread. *)
Fixpoint sync_from (c : ConfigImpl) (lv : nat) (answers : list (option (list (string * string))))
  : ConfigImpl * list (nat * Watcher.event) * bool :=
  match answers with
  | [] => (c, [], true)
  | answer :: answers' =>
      match source c !! lv with
      | None => (c, [], true)
      | Some s =>
          match SourceWrapper.Sync s answer with
          | (_, None) => (c, [], false)
          | (s', Some val) =>
              let '(t, notify) := foldl (sync_step lv) (cache c, ∅) (map_to_list val) in
              let c' := mkConfig (<[lv:=s']> (source c)) (notifier c) t (closed c) in
              let '(c'', evs, ok) := sync_from c' (S lv) answers' in
              (c'', Watcher.OnUpdate (notifier c) notify ++ evs, ok)
          end
      end
  end.

Definition sync (c : ConfigImpl) (answers : list (option (list (string * string)))) :=
  sync_from c 0 answers.

Definition GetByPrefix (c : ConfigImpl) (prefix : string) : gmap string string :=
  value <$> (PrefixTree.SearchByPrefix (cache c) (ToLower prefix)).1.

(** [AppendPrefix]: every source is asked; the last error is kept. *)
Definition AppendPrefix (c : ConfigImpl) (accepts : nat -> list string -> bool) (prefix : list string)
  : ConfigImpl * bool :=
  let rs := imap (fun i s => SourceWrapper.AppendPrefix s (accepts i) prefix) (source c) in
  (mkConfig rs.*1 (notifier c) (cache c) (closed c), forallb snd rs).

(** [Close]: [None] when it was closed before; otherwise whether every source closed. *)
Definition Close (c : ConfigImpl) (closes : list bool) : ConfigImpl * option bool :=
  if closed c then (c, None)
  else (mkConfig (source c) (notifier c) (cache c) true, Some (forallb id closes)).

(** ** Events of the sources: the wrapper's cache first, then the merged cache. *)

Inductive source_event :=
| SUpdate (lv : nat) (val : list (string * string))
| SDelete (lv : nat) (val : list string)
| SSync (lv : nat) (val : list (string * string)).

Definition alter_source (c : ConfigImpl) (lv : nat) (f : SourceWrapper -> SourceWrapper) : ConfigImpl :=
  mkConfig (alter f lv (source c)) (notifier c) (cache c) (closed c).

(** The wrapper's notifier drops empty notifications before they reach the closure.
    A delivery is one step: callbacks come one after the other.  The code does not see to that
    itself ([onUpdate] takes no lock and [onDelete] a read lock only), so that this holds of
    sources that do not notify at the same time; the interleaving of two callbacks is not
    modelled. *)
Definition deliver (c : ConfigImpl) (e : source_event) : ConfigImpl * list (nat * Watcher.event) :=
  match e with
  | SUpdate lv val =>
      let c := alter_source c lv (fun s => SourceWrapper.OnUpdate s val) in
      if bool_decide (val = []) then (c, []) else onUpdate c lv val
  | SDelete lv val =>
      let c := alter_source c lv (fun s => SourceWrapper.OnDelete s val) in
      if bool_decide (val = []) then (c, []) else onDelete c lv val
  | SSync lv val =>
      let c := alter_source c lv (fun s => SourceWrapper.OnSync s val) in
      if bool_decide (val = []) then (c, []) else onSync c lv val
  end.

(** ** Specification *)

(** The layered value of a key: the highest source that has it. *)
Definition effective (srcs : list SourceWrapper) (k : string) : option ValueNode :=
  fallback srcs (length srcs) k.

(** A key as the cache stores them. *)
Definition good_key (k : string) : Prop := ToLower k = k /\ valid_key dot k = true.

(** The merged cache shows exactly the layered values. *)
Definition consistent (c : ConfigImpl) : Prop :=
  PrefixTree.wf (cache c) /\ PrefixTree.separator (cache c) = dot /\
  forall k, good_key k -> PrefixTree.Get (cache c) k = effective (source c) k.

(** Events a source may send: an existing level and lower-case keys. *)
Definition good_event (n : nat) (e : source_event) : Prop :=
  match e with
  | SUpdate lv val => (lv < n)%nat /\ Forall (fun kv => ToLower kv.1 = kv.1) val
  | SDelete lv val => (lv < n)%nat /\ Forall (fun k => ToLower k = k) val
  | SSync _ _ => False
  end.

(** ** Layering lemmas *)

Lemma store_all_lookup (c : gmap string string) val k :
  SourceWrapper.store_all c val !! k =
  match SourceWrapper.store_all ∅ val !! k with Some v => Some v | None => c !! k end.
Proof.
  unfold SourceWrapper.store_all. revert c. induction val as [|[k0 v0] val IH]; intros c; simpl.
  { by rewrite lookup_empty. }
  rewrite IH, (IH (<[k0:=v0]> ∅)). destruct (foldl _ ∅ val !! k); [done|].
  rewrite !lookup_insert_case, lookup_empty. by case_decide.
Qed.

Lemma store_all_cons k0 v0 val k :
  SourceWrapper.store_all ∅ ((k0, v0) :: val) !! k =
  match SourceWrapper.store_all ∅ val !! k with
  | Some v => Some v | None => if decide (k0 = k) then Some v0 else None end.
Proof.
  change (SourceWrapper.store_all ∅ ((k0, v0) :: val))
    with (SourceWrapper.store_all (<[k0:=v0]> ∅) val).
  rewrite store_all_lookup, lookup_insert_case, lookup_empty. done.
Qed.

(** The value a level supplies. *)
Definition has (srcs : list SourceWrapper) (i : nat) (k : string) : option string :=
  srcs !! i ≫= (fun s => SourceWrapper.Get s k).

Lemma fallback_level srcs n k vn : fallback srcs n k = Some vn -> level vn < n.
Proof.
  induction n as [|n IH]; simpl; [done|]. case_match; [intros [= <-]; simpl; lia|].
  intros ?%IH. lia.
Qed.

Lemma fallback_ext srcs srcs' n k :
  (forall i, i < n -> has srcs' i k = has srcs i k) -> fallback srcs' n k = fallback srcs n k.
Proof.
  induction n as [|n IH]; intros H; simpl; [done|].
  pose proof (H n ltac:(lia)) as Hn. unfold has in Hn. rewrite Hn. case_match; [done|]. auto.
Qed.

Lemma fallback_add srcs srcs' lv v k n :
  (forall i, i <> lv -> has srcs' i k = has srcs i k) -> has srcs' lv k = Some v -> lv < n ->
  fallback srcs' n k =
  match fallback srcs n k with
  | Some vn => if (level vn <=? lv)%nat then Some (mkValue lv v) else Some vn
  | None => Some (mkValue lv v)
  end.
Proof.
  intros Ho Hv. unfold has in Ho, Hv. induction n as [|n IH]; intros Hn; [lia|]. simpl.
  destruct (decide (n = lv)) as [->|Hne].
  - rewrite Hv. destruct (srcs !! lv ≫= _); simpl; [by rewrite Nat.leb_refl|].
    destruct (fallback srcs lv k) as [vn|] eqn:E; [|done]. apply fallback_level in E.
    by rewrite (proj2 (Nat.leb_le _ _)) by lia.
  - rewrite Ho by done. destruct (srcs !! n ≫= _); simpl; [|apply IH; lia].
    by rewrite (proj2 (Nat.leb_gt _ _)) by lia.
Qed.

Lemma fallback_remove srcs srcs' lv k n :
  (forall i, i <> lv -> has srcs' i k = has srcs i k) -> has srcs' lv k = None -> lv < n ->
  fallback srcs' n k =
  match fallback srcs n k with
  | Some vn => if (level vn =? lv)%nat then fallback srcs' lv k else Some vn
  | None => None
  end.
Proof.
  intros Ho Hv. assert (Hlow : fallback srcs' lv k = fallback srcs lv k).
  { apply fallback_ext. intros. apply Ho. lia. }
  unfold has in Ho, Hv. induction n as [|n IH]; intros Hn; [lia|]. simpl.
  destruct (decide (n = lv)) as [->|Hne].
  - rewrite Hv, Hlow. destruct (srcs !! lv ≫= _); simpl; [by rewrite Nat.eqb_refl|].
    destruct (fallback srcs lv k) as [vn|] eqn:E; [|done]. apply fallback_level in E.
    by rewrite (proj2 (Nat.eqb_neq _ _)) by lia.
  - rewrite Ho by done. destruct (srcs !! n ≫= _); simpl; [|apply IH; lia].
    by rewrite (proj2 (Nat.eqb_neq _ _)) by lia.
Qed.

Lemma has_alter srcs lv f i k :
  has (alter f lv srcs) i k =
  if decide (i = lv) then (srcs !! lv) ≫= (fun s => SourceWrapper.Get (f s) k) else has srcs i k.
Proof.
  unfold has. case_decide as Hi; [subst|by rewrite list_lookup_alter_ne].
  rewrite list_lookup_alter_eq. by destruct (srcs !! lv).
Qed.

(** ** The loops *)

(** A tree the configuration can hold. *)
Definition tree_ok (t : PrefixTree ValueNode) : Prop :=
  PrefixTree.wf t /\ PrefixTree.separator t = dot.

Lemma tree_ok_Put t k v : tree_ok t -> tree_ok (PrefixTree.Put t k v).
Proof. intros [??]. split; [by apply PrefixTree.Put_wf|by rewrite PrefixTree.Put_separator]. Qed.

Lemma tree_ok_Del t k : tree_ok t -> tree_ok (PrefixTree.Del t k).
Proof. intros [??]. split; [by apply PrefixTree.Del_wf|by rewrite PrefixTree.Del_separator]. Qed.

Lemma Get_Put_good t k v k' : tree_ok t -> good_key k' ->
  PrefixTree.Get (PrefixTree.Put t k v) k' = if decide (k = k') then v else PrefixTree.Get t k'.
Proof.
  intros [Hw Hs] [_ Hk']. rewrite PrefixTree.Get_Put by done. case_decide; [|done].
  subst. by rewrite Hs, Hk'.
Qed.

Lemma update_step_ok lv acc kv : tree_ok acc.1 -> tree_ok (update_step lv acc kv).1.
Proof.
  destruct acc as [t n], kv as [k v]. intros Ht. simpl in *. split_cases; auto using tree_ok_Put.
Qed.

Lemma demote_ok srcs lv acc k vn : tree_ok acc.1.1 -> tree_ok (demote srcs lv acc k vn).1.1.
Proof.
  destruct acc as [[t u] d]. intros Ht. unfold demote. simpl in *.
  case_match; simpl; auto using tree_ok_Put, tree_ok_Del.
Qed.

Lemma delete_step_ok srcs lv acc k : tree_ok acc.1.1 -> tree_ok (delete_step srcs lv acc k).1.1.
Proof.
  intros Ht. unfold delete_step. destruct acc as [[t u] d].
  repeat case_match; auto using demote_ok.
Qed.

Lemma sync_drop_step_ok srcs lv lowerVal acc k :
  tree_ok acc.1.1 -> tree_ok (sync_drop_step srcs lv lowerVal acc k).1.1.
Proof.
  intros Ht. unfold sync_drop_step. destruct acc as [[t u] d].
  repeat case_match; auto using demote_ok.
Qed.

(** The first loop: levels up to [lv] give way to the new values. *)
Lemma update_loop lv val acc : tree_ok acc.1 -> Forall (fun kv => ToLower kv.1 = kv.1) val ->
  forall k, good_key k ->
  PrefixTree.Get (foldl (update_step lv) acc val).1 k =
  match SourceWrapper.store_all ∅ val !! k with
  | Some v =>
      match PrefixTree.Get acc.1 k with
      | Some vn => if (level vn <=? lv)%nat then Some (mkValue lv v) else Some vn
      | None => Some (mkValue lv v)
      end
  | None => PrefixTree.Get acc.1 k
  end.
Proof.
  intros Hok Hlow k Hk. revert acc Hok. induction Hlow as [|[k0 v0] val Hk0 _ IH]; intros acc Hok.
  { done. }
  cbn [foldl]. simpl in Hk0. rewrite IH by (by apply update_step_ok). rewrite store_all_cons.
  destruct acc as [t n]; simpl in *. rewrite Hk0.
  destruct (decide (k0 = k)) as [->|Hne].
  - destruct (PrefixTree.Get t k) as [vn|] eqn:E; simpl.
    + destruct (level vn <=? lv)%nat eqn:El; simpl.
      * rewrite Get_Put_good, decide_True by done. simpl. rewrite Nat.leb_refl. by case_match.
      * rewrite E, El. by case_match.
    + rewrite Get_Put_good, decide_True by done. simpl. rewrite Nat.leb_refl. by case_match.
  - replace (PrefixTree.Get _ k) with (PrefixTree.Get t k);
      [by destruct (SourceWrapper.store_all ∅ val !! k)|].
    destruct (PrefixTree.Get t k0); [destruct (_ <=? _)%nat|]; simpl; rewrite ?Get_Put_good by done;
      by rewrite ?decide_False by done.
Qed.

Lemma delete_loop srcs lv val acc : tree_ok acc.1.1 -> Forall (fun k => ToLower k = k) val ->
  forall k, good_key k ->
  PrefixTree.Get (foldl (delete_step srcs lv) acc val).1.1 k =
  if decide (k ∈ val) then
    match PrefixTree.Get acc.1.1 k with
    | Some vn => if (level vn =? lv)%nat then fallback srcs lv k else Some vn
    | None => None
    end
  else PrefixTree.Get acc.1.1 k.
Proof.
  intros Hok Hlow k Hk. revert acc Hok. induction Hlow as [|k0 val Hk0 _ IH]; intros acc Hok.
  { by rewrite decide_False by set_solver. }
  cbn [foldl]. rewrite IH by (by apply delete_step_ok). clear IH.
  assert (Hstep : PrefixTree.Get (delete_step srcs lv acc k0).1.1 k =
    if decide (k0 = k) then
      match PrefixTree.Get acc.1.1 k with
      | Some vn => if (level vn =? lv)%nat then fallback srcs lv k else Some vn
      | None => None
      end
    else PrefixTree.Get acc.1.1 k).
  { destruct acc as [[t u] d]; simpl in *. rewrite Hk0.
    destruct (PrefixTree.Get t k0) as [vn|] eqn:E; simpl; [|case_decide; subst; by rewrite ?E].
    destruct (level vn =? lv)%nat eqn:El; simpl; [|case_decide; subst; by rewrite ?E, ?El].
    destruct (fallback srcs lv k0) as [vn'|] eqn:Ef; simpl.
    - rewrite Get_Put_good by done. case_decide; [subst; by rewrite E, El, Ef|done].
    - rewrite PrefixTree.Get_Del by apply Hok. case_decide; [subst; by rewrite E, El, Ef|done]. }
  rewrite Hstep. destruct (decide (k0 = k)) as [->|Hne].
  - rewrite (decide_True (P := k ∈ k :: val)) by set_solver. case_decide; [|done].
    destruct (PrefixTree.Get acc.1.1 k) as [vn|]; [|done].
    destruct (level vn =? lv)%nat eqn:El; [|by rewrite El].
    destruct (fallback srcs lv k) as [vn'|] eqn:Ef; [|done].
    apply fallback_level in Ef. by rewrite (proj2 (Nat.eqb_neq _ _)) by lia.
  - by rewrite (decide_ext (k ∈ k0 :: val) (k ∈ val)) by set_solver.
Qed.

Lemma foldl_tree_ok {A B} (f : A -> B -> A) (tree : A -> PrefixTree ValueNode) l acc :
  (forall a b, tree_ok (tree a) -> tree_ok (tree (f a b))) ->
  tree_ok (tree acc) -> tree_ok (tree (foldl f acc l)).
Proof. intros Hf Ha. apply (foldl_ind (fun a => tree_ok (tree a))); auto. Qed.

Lemma consistent_update c lv val : consistent c -> good_event (length (source c)) (SUpdate lv val) ->
  consistent (deliver c (SUpdate lv val)).1.
Proof.
  intros (Hw & Hs & Hc) [Hlv Hlow]. simpl. unfold onUpdate. simpl.
  case_bool_decide as Hnil.
  { subst val. simpl. split_and!; [done..|]. intros k Hk. rewrite Hc by done. unfold effective. simpl.
    rewrite length_alter. symmetry. apply fallback_ext. intros i _. rewrite has_alter.
    case_decide; [subst|done]. unfold has. by destruct (source c !! lv). }
  assert (Hok := foldl_tree_ok (update_step lv) fst val (cache c, ∅) (update_step_ok lv) (conj Hw Hs)).
  pose proof (update_loop lv val (cache c, ∅) (conj Hw Hs) Hlow) as Hl.
  destruct (foldl _ _ _) as [t n]; simpl in *. destruct Hok as [Hw' Hs'].
  split_and!; [done..|]. intros k Hk. rewrite Hl, Hc by done. unfold effective. simpl.
  rewrite length_alter. destruct (lookup_lt_is_Some_2 (source c) lv Hlv) as [s Hsrc].
  assert (Hhas : has (alter (fun s => SourceWrapper.OnUpdate s val) lv (source c)) lv k =
    match SourceWrapper.store_all ∅ val !! k with Some v => Some v | None => has (source c) lv k end).
  { rewrite has_alter, decide_True by done. unfold has. rewrite Hsrc. simpl.
    unfold SourceWrapper.Get, SourceWrapper.OnUpdate. simpl. apply store_all_lookup. }
  assert (Hoth : forall i, i <> lv ->
    has (alter (fun s => SourceWrapper.OnUpdate s val) lv (source c)) i k = has (source c) i k).
  { intros i Hi. rewrite has_alter. by rewrite decide_False. }
  destruct (SourceWrapper.store_all ∅ val !! k) as [v|].
  - symmetry. by apply fallback_add.
  - symmetry. apply fallback_ext. intros i _. destruct (decide (i = lv)) as [->|]; auto.
Qed.

Lemma foldl_delete_lookup (val : list string) (m : gmap string string) k :
  foldl (fun c k => delete k c) m val !! k = if decide (k ∈ val) then None else m !! k.
Proof.
  revert m; induction val as [|k0 val IH]; intros m; cbn [foldl].
  { by rewrite decide_False by set_solver. }
  rewrite IH, lookup_delete_case. destruct (decide (k0 = k)) as [->|].
  - rewrite (decide_True (P := k ∈ k :: val)) by set_solver. by case_decide.
  - by rewrite (decide_ext (k ∈ k0 :: val) (k ∈ val)) by set_solver.
Qed.

Lemma consistent_delete c lv val : consistent c -> good_event (length (source c)) (SDelete lv val) ->
  consistent (deliver c (SDelete lv val)).1.
Proof.
  intros (Hw & Hs & Hc) [Hlv Hlow]. simpl. unfold onDelete. simpl.
  set (srcs := alter (fun s => SourceWrapper.OnDelete s val) lv (source c)).
  destruct (lookup_lt_is_Some_2 (source c) lv Hlv) as [s Hsrc].
  assert (Hhas : forall k, has srcs lv k = if decide (k ∈ val) then None else has (source c) lv k).
  { intros k. unfold srcs. rewrite has_alter, decide_True by done. unfold has. rewrite Hsrc. simpl.
    unfold SourceWrapper.Get, SourceWrapper.OnDelete. simpl. apply foldl_delete_lookup. }
  assert (Hoth : forall i k, i <> lv -> has srcs i k = has (source c) i k).
  { intros i k Hi. unfold srcs. by rewrite has_alter, decide_False. }
  assert (Hlen : length srcs = length (source c)) by apply length_alter.
  assert (Heff : forall k, k ∉ val -> effective srcs k = effective (source c) k).
  { intros k Hk. unfold effective. rewrite Hlen. apply fallback_ext. intros i _.
    destruct (decide (i = lv)) as [->|]; [by rewrite Hhas, decide_False|auto]. }
  case_bool_decide as Hnil.
  { subst val. split_and!; [done..|]. intros k Hk. simpl. rewrite Hc by done.
    symmetry. apply Heff. set_solver. }
  pose proof (foldl_tree_ok (delete_step srcs lv) (fun a => a.1.1) val (cache c, ∅, [])
    (delete_step_ok srcs lv) (conj Hw Hs)) as Hok.
  pose proof (delete_loop srcs lv val (cache c, ∅, []) (conj Hw Hs) Hlow) as Hl.
  destruct (foldl _ _ _) as [[t u] d]; simpl in *. destruct Hok as [Hw' Hs'].
  split_and!; [done..|]. intros k Hk. simpl. rewrite Hl, Hc by done.
  case_decide as Hin; [|by rewrite Heff].
  symmetry. unfold effective. simpl. fold srcs. rewrite Hlen.
  apply fallback_remove; auto. by rewrite Hhas, decide_True.
Qed.

(** ** Synchronisation *)

Lemma sync_step_ok lv acc kv : tree_ok acc.1 -> tree_ok (sync_step lv acc kv).1.
Proof. destruct acc as [t n], kv as [k v]. intros Ht. simpl in *. by apply tree_ok_Put. Qed.

Lemma sync_loop lv (val : list (string * string)) acc :
  tree_ok acc.1 -> Forall (fun kv => ToLower kv.1 = kv.1) val -> NoDup val.*1 ->
  forall k, good_key k ->
  PrefixTree.Get (foldl (sync_step lv) acc val).1 k =
  match (list_to_map val : gmap string string) !! k with
  | Some v => Some (mkValue lv v) | None => PrefixTree.Get acc.1 k end.
Proof.
  intros Hok Hlow Hnd k Hk. revert acc Hok.
  induction Hlow as [|[k0 v0] val Hk0 _ IH]; intros acc Hok; [done|].
  inversion Hnd; subst. cbn [foldl]. rewrite IH by (done || by apply sync_step_ok).
  destruct acc as [t n]; simpl in *. rewrite Hk0, lookup_insert_case, Get_Put_good by done.
  case_decide; [|done]. subst. by rewrite not_elem_of_list_to_map_1.
Qed.

Lemma store_lower_keys (val : list (string * string)) k v :
  lower_vals val !! k = Some v -> ToLower k = k.
Proof.
  unfold lower_vals. induction val as [|[k0 v0] val IH]; [done|].
  cbn [fmap list_fmap]. rewrite store_all_cons. case_match; [naive_solver|].
  case_decide; [|done]. subst. intros _. apply ToLower_idemp.
Qed.

(** While syncing, the levels below [lv] are merged and the others are still empty. *)
Definition synced_to (lv : nat) (c : ConfigImpl) : Prop :=
  tree_ok (cache c) /\
  (forall i s, lv <= i -> source c !! i = Some s ->
    SourceWrapper.cache s = ∅ /\ SourceWrapper.synchronized s = false) /\
  forall k, good_key k -> PrefixTree.Get (cache c) k = fallback (source c) lv k.

Lemma sync_from_spec answers : forall c lv, synced_to lv c ->
  lv + length answers = length (source c) -> Forall is_Some answers ->
  let c' := (sync_from c lv answers).1.1 in
  synced_to (length (source c)) c' /\ length (source c') = length (source c).
Proof.
  induction answers as [|a answers IH]; intros c lv Hsync Hlen Hall; simpl in *.
  { by replace (length (source c)) with lv in * by lia. }
  inversion Hall as [|? ? [val ->] Hall']; subst.
  destruct (lookup_lt_is_Some_2 (source c) lv ltac:(lia)) as [s Hs]. rewrite Hs.
  destruct Hsync as (Hok & Hempty & Hget). destruct (Hempty lv s ltac:(lia) Hs) as [Hc0 Hs0].
  unfold SourceWrapper.Sync. rewrite Hs0, Hc0. fold (lower_vals val).
  pose proof (foldl_tree_ok (sync_step lv) fst (map_to_list (lower_vals val)) (cache c, ∅) (sync_step_ok lv) Hok) as Hok'.
  assert (Hl := sync_loop lv (map_to_list (lower_vals val)) (cache c, ∅) Hok).
  rewrite list_to_map_to_list in Hl.
  destruct (foldl _ _ _) as [t n]; simpl in *.
  set (s' := SourceWrapper.set_cache s (lower_vals val)).
  destruct (sync_from _ _ _) as [[c'' evs] ok] eqn:E. simpl.
  specialize (IH (mkConfig (<[lv:=s']> (source c)) (notifier c) t (closed c)) (S lv)).
  rewrite E in IH. simpl in IH. rewrite length_insert in IH. apply IH; [|lia|done].
  split_and!; [done| |].
  - intros i si Hi. simpl. rewrite list_lookup_insert_ne by lia. apply Hempty. lia.
  - intros k Hk. simpl. rewrite list_lookup_insert_eq by lia. simpl.
    rewrite Hl; [|apply Forall_forall|apply NoDup_fst_map_to_list|done].
    + unfold SourceWrapper.Get. simpl. destruct (lower_vals val !! k); [done|].
      rewrite Hget by done. symmetry. apply fallback_ext. intros i Hi. unfold has.
      by rewrite list_lookup_insert_ne by lia.
    + intros [k' v'] Hin%elem_of_map_to_list. by eapply store_lower_keys.
Qed.

Lemma newConfigImpl_synced ignoreNs : synced_to 0 (newConfigImpl ignoreNs).
Proof.
  split_and!; simpl; [by split; [apply PrefixTree.new_wf|]| |done].
  intros i s _. rewrite list_lookup_fmap. destruct (ignoreNs !! i); simpl; [|done]. by intros [= <-].
Qed.

Lemma deliver_length c e : length (source (deliver c e).1) = length (source c).
Proof.
  destruct e; simpl; case_bool_decide; simpl; rewrite ?length_alter; try done;
  unfold onUpdate, onDelete, onSync; repeat case_match; simpl; by rewrite length_alter.
Qed.

Lemma consistent_run events : forall c, consistent c -> Forall (good_event (length (source c))) events ->
  consistent (foldl (fun c e => (deliver c e).1) c events).
Proof.
  induction events as [|e events IH]; intros c Hc Hall; cbn [foldl]; [done|].
  inversion Hall as [|? ? He Hall']; subst. apply IH.
  - destruct e as [lv val|lv val|lv val]; [by apply consistent_update|by apply consistent_delete|].
    by simpl in He.
  - by rewrite deliver_length.
Qed.

(** ** Properties *)

(** C2: layering.  After the initial [sync] of any sources and any sequence of update
    and delete events with lower-case keys from existing sources, the merged cache
    holds, for every well-formed key, exactly the value and level of the highest source
    that has the key, and nothing for a key no source has. *)
Theorem config_layering (ignoreNs : list bool) (answers : list (option (list (string * string))))
    (events : list source_event) :
  length answers = length ignoreNs -> Forall is_Some answers ->
  Forall (good_event (length ignoreNs)) events ->
  let c := foldl (fun c e => (deliver c e).1) (sync (newConfigImpl ignoreNs) answers).1.1 events in
  forall k, good_key k -> PrefixTree.Get (cache c) k = effective (source c) k.
Proof.
  intros Hlen Hans Hev c. 
  destruct (sync_from_spec answers (newConfigImpl ignoreNs) 0) as [[[Hw Hs] [_ Hg]] Hl];
    [apply newConfigImpl_synced|simpl; rewrite length_fmap; lia|done|].
  assert (Hc0 : consistent (sync (newConfigImpl ignoreNs) answers).1.1).
  { split_and!; [done..|]. unfold effective. unfold sync. by rewrite Hl. }
  apply (consistent_run events _ Hc0). unfold sync. rewrite Hl. simpl. by rewrite length_fmap.
Qed.

Lemma config_layering_witness :
  let c := foldl (fun c e => (deliver c e).1)
    (sync (newConfigImpl [false; true]) [Some [("a.b", "0")]; Some [("A.B", "1")]]).1.1
    [SDelete 1 ["a.b"]; SUpdate 0 [("a.b", "2")]] in
  PrefixTree.Get (cache c) "a.b" = effective (source c) "a.b" /\
  PrefixTree.Get (cache c) "a.b" = Some (mkValue 0 "2").
Proof.
  split; [|vm_compute; reflexivity].
  apply config_layering; [reflexivity|by repeat constructor| |by split; vm_compute].
  repeat constructor; vm_compute; auto.
Defined.

End ConfigImpl.

(** ** What watchers learn *)

Module ConfigNotify.
Import ConfigImpl.
Import PrefixTree (PrefixTree).

(** A watcher's own copy of the configuration, kept by applying what it is told. *)
Definition apply_event (view : gmap string string) (e : Watcher.event) : gmap string string :=
  match e with
  | Watcher.EUpdate val => val ∪ view
  | Watcher.EDelete val => foldl (fun m k => delete k m) view val
  | Watcher.ESync _ => view
  end.

(** The events one watcher receives, in order. *)
Definition received (w : nat) (evs : list (nat * Watcher.event)) : list Watcher.event :=
  (filter (fun p => p.1 = w) evs).*2.

(** What a reader of the merged cache sees. *)
Definition visible (t : PrefixTree ValueNode) (k : string) : option string :=
  value <$> PrefixTree.Get t k.

Definition mirrors (view : gmap string string) (t : PrefixTree ValueNode) : Prop :=
  forall k, good_key k -> view !! k = visible t k.

(** Deliver a sequence of source events, collecting the notifications. *)
Fixpoint run (c : ConfigImpl) (es : list source_event) : ConfigImpl * list (nat * Watcher.event) :=
  match es with
  | [] => (c, [])
  | e :: es' =>
      let '(c, evs) := deliver c e in
      let '(c, evs') := run c es' in (c, evs ++ evs')
  end.

(** The view after the notifications collected so far by a loop. *)
Definition pending (view u : gmap string string) (d : list string) : gmap string string :=
  foldl (fun m k => delete k m) (u ∪ view) d.

Lemma pending_lookup view u d k :
  pending view u d !! k =
  if decide (k ∈ d) then None else match u !! k with Some v => Some v | None => view !! k end.
Proof.
  unfold pending. rewrite foldl_delete_lookup. case_decide; [done|].
  rewrite lookup_union. by destruct (u !! k), (view !! k).
Qed.

Lemma update_step_mirror lv view acc kv : tree_ok acc.1 ->
  mirrors (pending view acc.2 []) acc.1 ->
  mirrors (pending view (update_step lv acc kv).2 []) (update_step lv acc kv).1.
Proof.
  destruct acc as [t n], kv as [k0 v0]; simpl. intros Hok Hm k Hk. specialize (Hm k Hk).
  rewrite pending_lookup, decide_False in Hm |- * by set_solver. unfold visible in *.
  destruct (PrefixTree.Get t (ToLower k0)) as [vn|] eqn:E; simpl.
  - destruct (level vn <=? lv)%nat; simpl; [|done]. rewrite Get_Put_good by done.
    case_bool_decide as Hv; rewrite ?lookup_insert_case; case_decide; try done; subst; simpl.
    by rewrite Hm, E.
  - rewrite Get_Put_good, lookup_insert_case by done. by case_decide.
Qed.

Lemma demote_mirror srcs lv view acc k0 vn : tree_ok acc.1.1 ->
  PrefixTree.Get acc.1.1 k0 = Some vn \/ (PrefixTree.Get acc.1.1 k0 = None /\ fallback srcs lv k0 = None) ->
  mirrors (pending view acc.1.2 acc.2) acc.1.1 ->
  mirrors (pending view (demote srcs lv acc k0 vn).1.2 (demote srcs lv acc k0 vn).2)
    (demote srcs lv acc k0 vn).1.1.
Proof.
  destruct acc as [[t u] d]; simpl. intros Hok Hvn Hm k Hk. specialize (Hm k Hk).
  rewrite pending_lookup in Hm. unfold visible in *.
  destruct (fallback srcs lv k0) as [vn'|] eqn:Ef; simpl; rewrite pending_lookup.
  - destruct Hvn as [Hvn|[? ?]]; [|done]. rewrite Get_Put_good by done.
    destruct (decide (k0 = k)) as [->|Hne].
    + rewrite Hvn in Hm. simpl in *. destruct (decide (k ∈ d)); [done|].
      case_bool_decide as Hv; rewrite ?lookup_insert_eq; [done|].
      by rewrite Hm, <-Hv.
    + case_bool_decide; rewrite ?lookup_insert_ne by done; done.
  - rewrite PrefixTree.Get_Del by apply Hok. destruct (decide (k0 = k)) as [->|Hne].
    + by rewrite decide_True by set_solver.
    + by rewrite (decide_ext (k ∈ d ++ [k0]) (k ∈ d)) by set_solver.
Qed.

Lemma delete_step_mirror srcs lv view acc k0 : tree_ok acc.1.1 ->
  mirrors (pending view acc.1.2 acc.2) acc.1.1 ->
  mirrors (pending view (delete_step srcs lv acc k0).1.2 (delete_step srcs lv acc k0).2)
    (delete_step srcs lv acc k0).1.1.
Proof.
  intros Hok Hm. unfold delete_step. destruct acc as [[t u] d].
  destruct (PrefixTree.Get t (ToLower k0)) eqn:E; [|done]. case_match; [|done].
  apply demote_mirror; auto.
Qed.

Lemma sync_drop_step_mirror srcs lv lowerVal view acc k0 : tree_ok acc.1.1 ->
  mirrors (pending view acc.1.2 acc.2) acc.1.1 ->
  mirrors (pending view (sync_drop_step srcs lv lowerVal acc k0).1.2
    (sync_drop_step srcs lv lowerVal acc k0).2) (sync_drop_step srcs lv lowerVal acc k0).1.1.
Proof.
  intros Hok Hm. unfold sync_drop_step. destruct acc as [[t u] d].
  destruct (lowerVal !! _); [done|]. case_match eqn:El; [|done]. apply demote_mirror; [done| |done].
  simpl. destruct (PrefixTree.Get t (ToLower k0)) eqn:E; simpl in *; [by left|].
  right. by destruct lv.
Qed.

(** A loop keeps the tree sound and the pending notifications faithful. *)
Lemma update_loop_mirror lv view l acc : tree_ok acc.1 -> mirrors (pending view acc.2 []) acc.1 ->
  let r := foldl (update_step lv) acc l in tree_ok r.1 /\ mirrors (pending view r.2 []) r.1.
Proof.
  intros H1 H2. apply (foldl_ind (fun a => tree_ok a.1 /\ mirrors (pending view a.2 []) a.1)); [done|].
  intros a b _ [??]. auto using update_step_ok, update_step_mirror.
Qed.

Lemma delete_loop_mirror srcs lv view l acc : tree_ok acc.1.1 ->
  mirrors (pending view acc.1.2 acc.2) acc.1.1 ->
  let r := foldl (delete_step srcs lv) acc l in
  tree_ok r.1.1 /\ mirrors (pending view r.1.2 r.2) r.1.1.
Proof.
  intros H1 H2.
  apply (foldl_ind (fun a => tree_ok a.1.1 /\ mirrors (pending view a.1.2 a.2) a.1.1)); [done|].
  intros a b _ [??]. auto using delete_step_ok, delete_step_mirror.
Qed.

Lemma sync_drop_loop_mirror srcs lv lowerVal view l acc : tree_ok acc.1.1 ->
  mirrors (pending view acc.1.2 acc.2) acc.1.1 ->
  let r := foldl (sync_drop_step srcs lv lowerVal) acc l in
  tree_ok r.1.1 /\ mirrors (pending view r.1.2 r.2) r.1.1.
Proof.
  intros H1 H2.
  apply (foldl_ind (fun a => tree_ok a.1.1 /\ mirrors (pending view a.1.2 a.2) a.1.1)); [done|].
  intros a b _ [??]. auto using sync_drop_step_ok, sync_drop_step_mirror.
Qed.

(** Repeated delivery of the same event (a watcher registered twice) changes nothing. *)
Lemma received_broadcast w (ws : list nat) e view : w ∈ ws ->
  (apply_event (apply_event view e) e = apply_event view e) ->
  foldl apply_event view (received w ((fun w => (w, e)) <$> ws)) = apply_event view e.
Proof.
  intros Hin Hid. unfold received.
  assert (Hrest : forall ws', foldl apply_event (apply_event view e)
     (filter (fun p => p.1 = w) ((fun w => (w, e)) <$> ws')).*2 = apply_event view e).
  { induction ws' as [|w' ws' IH]; [done|]. cbn [fmap list_fmap]. rewrite filter_cons. simpl.
    case_decide; cbn [fmap list_fmap foldl snd]; [rewrite Hid|]; apply IH. }
  induction ws as [|w' ws IH]; [set_solver|]. cbn [fmap list_fmap]. rewrite filter_cons. simpl.
  case_decide as Hw; cbn [fmap list_fmap foldl snd]; [apply Hrest|]. apply IH. set_solver.
Qed.

Lemma apply_event_idemp view e : apply_event (apply_event view e) e = apply_event view e.
Proof.
  apply map_eq. intros k. destruct e as [val|val|val]; simpl; [| |done].
  - rewrite !lookup_union. by destruct (val !! k), (view !! k).
  - rewrite !foldl_delete_lookup. by case_decide.
Qed.

Lemma received_app w a b : received w (a ++ b) = received w a ++ received w b.
Proof. unfold received. by rewrite filter_app, fmap_app. Qed.

Lemma broadcast_pending w ntf view u d : w ∈ Watcher.watchers ntf ->
  foldl apply_event view (received w (Watcher.OnUpdate ntf u ++ Watcher.OnDelete ntf d)) =
  pending view u d.
Proof.
  intros Hw. rewrite received_app, foldl_app. unfold Watcher.OnUpdate, Watcher.OnDelete.
  assert (H1 : foldl apply_event view (received w
    (if bool_decide (u = ∅) then [] else (fun w => (w, Watcher.EUpdate u)) <$> Watcher.watchers ntf))
    = u ∪ view).
  { case_bool_decide; [subst; by rewrite (left_id_L ∅ (∪))|].
    rewrite received_broadcast by auto using apply_event_idemp. done. }
  rewrite H1. case_bd (d = []) as Hd; [by rewrite Hd|].
  rewrite received_broadcast by auto using apply_event_idemp. done.
Qed.

Lemma mirrors_pending_nil view t : mirrors view t -> mirrors (pending view ∅ []) t.
Proof.
  intros Hm k Hk. rewrite pending_lookup, decide_False, lookup_empty by set_solver. by apply Hm.
Qed.

Lemma deliver_mirror c e w view : tree_ok (cache c) -> w ∈ Watcher.watchers (notifier c) ->
  mirrors view (cache c) ->
  let '(c', evs) := deliver c e in
  tree_ok (cache c') /\ notifier c' = notifier c /\
  mirrors (foldl apply_event view (received w evs)) (cache c').
Proof.
  intros Hok Hw Hm. apply mirrors_pending_nil in Hm as Hm0.
  destruct e as [lv val|lv val|lv val]; simpl; case_bool_decide; try done.
  - unfold onUpdate. simpl.
    destruct (update_loop_mirror lv view val (cache c, ∅) Hok Hm0) as [Ht Hn].
    destruct (foldl _ _ _) as [t n]; simpl in *. split_and!; [done..|].
    pose proof (broadcast_pending w (notifier c) view n [] Hw) as Hb.
    unfold Watcher.OnDelete in Hb. simpl in Hb. rewrite app_nil_r in Hb. by rewrite Hb.
  - unfold onDelete. simpl.
    destruct (delete_loop_mirror (alter (fun s => SourceWrapper.OnDelete s val) lv (source c))
      lv view val (cache c, ∅, []) Hok Hm0) as [Ht Hn].
    destruct (foldl _ _ _) as [[t u] d]; simpl in *. by rewrite broadcast_pending.
  - unfold onSync. simpl.
    destruct (update_loop_mirror lv view (map_to_list (lower_vals val)) (cache c, ∅) Hok Hm0) as [Ht Hn].
    destruct (foldl (update_step lv) _ _) as [t n]; simpl in *.
    destruct (sync_drop_loop_mirror (alter (fun s => SourceWrapper.OnSync s val) lv (source c))
      lv (lower_vals val) view (PrefixTree.Keys t) (t, n, []) Ht Hn) as [Ht' Hn'].
    destruct (foldl _ _ _) as [[t' u] d]; simpl in *. by rewrite broadcast_pending.
Qed.

(** C3: watchers stay in step.  Whatever updates, deletes and syncs the sources send, a
    registered watcher that starts from the visible configuration and applies the
    notifications it receives, in order, holds exactly the visible configuration
    again, on every well-formed key. *)
Theorem watcher_in_step (c : ConfigImpl) (es : list source_event) (w : nat) (view : gmap string string) :
  tree_ok (cache c) -> w ∈ Watcher.watchers (notifier c) -> mirrors view (cache c) ->
  mirrors (foldl apply_event view (received w (run c es).2)) (cache (run c es).1).
Proof.
  intros Hok Hw Hm. revert c view Hok Hw Hm.
  induction es as [|e es IH]; intros c view Hok Hw Hm; simpl; [done|].
  pose proof (deliver_mirror c e w view Hok Hw Hm) as Hd.
  destruct (deliver c e) as [c1 evs]. destruct Hd as (Hok1 & Hn & Hm1).
  specialize (IH c1 _ Hok1 ltac:(by rewrite Hn) Hm1).
  destruct (run c1 es) as [c2 evs2]; simpl in *. by rewrite received_app, foldl_app.
Qed.

Lemma watcher_in_step_witness :
  let c := mkConfig [SourceWrapper.NewSourceWrapper false] (Watcher.NewNotifier [7])
             (PrefixTree.NewPrefixTree dot) false in
  mirrors (foldl apply_event ∅ (received 7 (run c [SUpdate 0 [("A", "1")]; SSync 0 [("b", "2")]]).2))
    (cache (run c [SUpdate 0 [("A", "1")]; SSync 0 [("b", "2")]]).1) /\
  received 7 (run c [SUpdate 0 [("A", "1")]; SSync 0 [("b", "2")]]).2 =
    [Watcher.EUpdate {["a" := "1"]}; Watcher.EUpdate {["b" := "2"]}; Watcher.EDelete ["a"]].
Proof.
  split; [|vm_compute; reflexivity].
  apply watcher_in_step; [split; [apply PrefixTree.new_wf|reflexivity]|left|by intros k _].
Defined.

(** a sync event leaves stale keys in the source's own cache.  Source 0 sends
    [a = 1] and then a full sync without [a]: the merged cache drops [a].  When source 1
    sets and later deletes [a], the old value 1 of source 0 comes back, although source 0
    had dropped it. *)
Theorem sync_resurrects_dropped_key :
  let c := newConfigImpl [false; false] in
  let c1 := (run c [SUpdate 0 [("a", "1"); ("b", "1")]; SSync 0 [("b", "1")]]).1 in
  let c2 := (run c1 [SUpdate 1 [("a", "2")]; SDelete 1 ["a"]]).1 in
  PrefixTree.Get (cache c1) "a" = None /\
  PrefixTree.Get (cache c2) "a" = Some (mkValue 0 "1").
Proof. vm_compute. auto. Qed.

End ConfigNotify.
