(* ===== verification/Encrypt.v ===== *)
(** * Encrypted configuration values ([lib/encrypt.go]).

    [Encrypt] signs the plain text with HMAC-SHA256, pads it (PKCS#7), encrypts it block
    by block with AES and encodes signature and cipher text in base64 behind the
    prefix [encrypted://].  The AES block functions, HMAC and base64 are parameters;
    everything the file itself does (padding, block loop, signature layout, error
    returns) is modelled.  Byte slices are [list ascii]. *)

From S2P Require Import Prelude GoStrings.
From Stdlib Require Import Ascii.

Open Scope string_scope.
Open Scope list_scope.

Module Encrypt.

Definition EncryptedPrefix : string := "encrypted://".

Definition BlockSize : nat := 16.
Definition bytes := list ascii.

(** Apply a block function to the 16-byte blocks of [data]; [fuel] bounds the number of
    rounds of the loop ([length data] is enough). *)
Fixpoint each_block (f : bytes -> bytes) (fuel : nat) (data : bytes) : bytes :=
  match fuel with
  | O => []
  | S fuel' =>
      match data with
      | [] => []
      | _ => f (take BlockSize data) ++ each_block f fuel' (drop BlockSize data)
      end
  end.

Section crypto.
Context {key : Type}.
Context (block_encrypt block_decrypt : key -> bytes -> bytes).
Context (hmac_sha256 : key -> bytes -> bytes).
Context (base64_encode : bytes -> string) (base64_decode : string -> option bytes).

Definition padding (data : bytes) : bytes :=
  let paddingLen := BlockSize - length data mod BlockSize in
  replicate paddingLen (ascii_of_nat paddingLen).

Definition aesEncrypt (k : key) (data : bytes) : bytes :=
  let data := data ++ padding data in
  each_block (block_encrypt k) (length data) data.

(** [None] covers the error return and the recovered panic of the last slice. *)
Definition aesDecrypt (k : key) (data : bytes) : option bytes :=
  if bool_decide (length data mod BlockSize <> 0) then None
  else
    let data' := each_block (block_decrypt k) (length data) data in
    match last data' with
    | None => Some data'
    | Some b =>
        let paddingLen := nat_of_ascii b in
        if (paddingLen <=? length data')%nat then Some (take (length data' - paddingLen) data') else None
    end.

Definition Encrypt (k : key) (data : string) : string :=
  let d := String.list_ascii_of_string data in
  EncryptedPrefix +:+ base64_encode (hmac_sha256 k d ++ aesEncrypt k d).

(** [reader.Read(sign)]: 32 bytes, zero-filled when fewer are there, an error on none. *)
Definition read_sign (binaryData : bytes) : option (bytes * bytes) :=
  match binaryData with
  | [] => None
  | _ => Some (take 32 binaryData ++ replicate (32 - length binaryData) zero, drop 32 binaryData)
  end.

Definition Decrypt (k : key) (data : string) : option string :=
  if negb (HasPrefix data EncryptedPrefix) then Some data
  else
    match base64_decode (sdrop (String.length EncryptedPrefix) data) with
    | None => None
    | Some binaryData =>
        match read_sign binaryData with
        | None => None
        | Some (sign, encrypted) =>
            match aesDecrypt k encrypted with
            | None => None
            | Some decrypted =>
                if bool_decide (hmac_sha256 k decrypted = sign)
                then Some (String.string_of_list_ascii decrypted) else None
            end
        end
    end.

(** ** Lemmas *)

Context (block_inv : forall k b, length b = BlockSize -> block_decrypt k (block_encrypt k b) = b).
Context (block_len : forall k b, length b = BlockSize -> length (block_encrypt k b) = BlockSize).
Context (hmac_len : forall k d, length (hmac_sha256 k d) = 32).
Context (base64_inv : forall d, base64_decode (base64_encode d) = Some d).

Lemma each_block_length f n : forall fuel data,
  (forall b, length b = BlockSize -> length (f b) = BlockSize) ->
  length data = n * BlockSize -> n <= fuel -> length (each_block f fuel data) = n * BlockSize.
Proof.
  unfold BlockSize. induction n as [|n IH]; intros fuel data Hf Hl Hfuel.
  { apply nil_length_inv in Hl as ->. by destruct fuel. }
  destruct fuel as [|fuel]; [lia|]. simpl. destruct data as [|a data]; [done|].
  rewrite length_app, Hf by (rewrite length_take; unfold BlockSize; lia).
  rewrite IH; [lia|done| |lia]. rewrite length_drop. unfold BlockSize. lia.
Qed.

(** Decrypting the blocks of an encrypted text gives the text back. *)
Lemma each_block_inv k n : forall fuel fuel' data,
  length data = n * BlockSize -> n <= fuel -> n <= fuel' ->
  each_block (block_decrypt k) fuel' (each_block (block_encrypt k) fuel data) = data.
Proof.
  induction n as [|n IH]; intros fuel fuel' data Hl Hf Hf'.
  { apply nil_length_inv in Hl as ->. destruct fuel, fuel'; done. }
  destruct fuel as [|fuel], fuel' as [|fuel']; try lia. cbn [each_block].
  destruct data as [|a data]; [done|].
  assert (Ht : length (take BlockSize (a :: data)) = BlockSize)
    by (rewrite length_take; unfold BlockSize in *; lia).
  pose proof (block_len k _ Ht) as Hb.
  destruct (_ ++ _) as [|c rest] eqn:E.
  { exfalso. apply (f_equal length) in E. rewrite length_app, Hb in E. done. }
  rewrite <-E. rewrite take_app_length' by done. rewrite drop_app_length' by done.
  rewrite block_inv by done. rewrite IH; [apply take_drop| |lia..].
  rewrite length_drop. unfold BlockSize in *. lia.
Qed.

Lemma padded_length (data : bytes) :
  length (data ++ padding data) = (length data / BlockSize + 1) * BlockSize.
Proof.
  unfold padding, BlockSize. rewrite length_app, length_replicate.
  pose proof (Nat.div_mod_eq (length data) 16). pose proof (Nat.mod_upper_bound (length data) 16). lia.
Qed.

Lemma padding_bounds (data : bytes) : 1 <= length (padding data) <= 16.
Proof.
  unfold padding, BlockSize. rewrite length_replicate.
  pose proof (Nat.mod_upper_bound (length data) 16). lia.
Qed.

Lemma padding_last (data : bytes) : last (padding data) = Some (ascii_of_nat (length (padding data))).
Proof.
  pose proof (padding_bounds data) as Hb. unfold padding in *. rewrite length_replicate in *.
  destruct (BlockSize - length data mod BlockSize) as [|n]; [lia|].
  rewrite replicate_S_end. apply last_snoc.
Qed.

Lemma aes_inv k data : aesDecrypt k (aesEncrypt k data) = Some data.
Proof.
  unfold aesDecrypt, aesEncrypt. pose proof (padded_length data) as Hp.
  pose proof (padding_bounds data) as Hb.
  set (p := data ++ padding data) in *. set (n := length data / BlockSize + 1) in *.
  assert (Hn : n <= length p) by (rewrite Hp; unfold BlockSize; lia).
  rewrite (each_block_length _ n) by auto.
  rewrite bool_decide_eq_false_2 by (rewrite Nat.Div0.mod_mul; lia).
  rewrite (each_block_inv k n) by (auto; unfold BlockSize; lia).
  assert (Hlast : last p = Some (ascii_of_nat (length (padding data)))).
  { unfold p. rewrite last_app. by rewrite padding_last. }
  rewrite Hlast, nat_ascii_embedding by lia.
  assert (Hle : length (padding data) <= length p) by (unfold p; rewrite length_app; lia).
  rewrite (proj2 (Nat.leb_le _ _) Hle). f_equal. unfold p.
  rewrite length_app, Nat.add_sub. apply take_app_length.
Qed.

(** ** Properties *)

(** C40: decryption undoes encryption.  With block functions that invert each other on
    16-byte blocks, a 32-byte HMAC and a base64 codec that round-trips, [Decrypt] with
    the same key returns the plain text of every [Encrypt]ed value, of any length. *)
Theorem decrypt_encrypt (k : key) (data : string) : Decrypt k (Encrypt k data) = Some data.
Proof.
  unfold Decrypt, Encrypt. rewrite HasPrefix_app, sdrop_app, base64_inv. simpl.
  set (d := String.list_ascii_of_string data).
  assert (Hr : read_sign (hmac_sha256 k d ++ aesEncrypt k d) = Some (hmac_sha256 k d, aesEncrypt k d)).
  { unfold read_sign. pose proof (hmac_len k d) as Hl.
    destruct (hmac_sha256 k d ++ aesEncrypt k d) as [|a l] eqn:E.
    { apply (f_equal length) in E. rewrite length_app, Hl in E. done. }
    rewrite <-E. rewrite take_app_length', drop_app_length' by done.
    rewrite length_app, Hl. replace (32 - (32 + _)) with 0 by lia. simpl. by rewrite app_nil_r. }
  rewrite Hr, aes_inv, bool_decide_eq_true_2 by done. unfold d.
  by rewrite String.string_of_list_ascii_of_string.
Qed.

(** Only signed text is accepted.  When [Decrypt] turns a value with the encrypted
    prefix into a plain text, the HMAC of that plain text under the key is the (zero
    filled) signature stored in front of the cipher text. *)
Theorem decrypt_authentic (k : key) (data plain : string) :
  HasPrefix data EncryptedPrefix = true -> Decrypt k data = Some plain ->
  exists binaryData sign encrypted,
    base64_decode (sdrop (String.length EncryptedPrefix) data) = Some binaryData /\
    read_sign binaryData = Some (sign, encrypted) /\
    hmac_sha256 k (String.list_ascii_of_string plain) = sign.
Proof.
  unfold Decrypt. intros -> H. simpl in H.
  destruct (base64_decode _) as [bin|] eqn:Eb; [|done].
  destruct (read_sign bin) as [[sign enc]|] eqn:Er; [|done].
  destruct (aesDecrypt k enc) as [dec|]; [|done]. case_bool_decide as Hs; [|done].
  injection H as <-. exists bin, sign, enc. by rewrite String.list_ascii_of_string_of_list_ascii.
Qed.

End crypto.

(** A concrete instance: blocks are reversed, the signature repeats the length byte,
    base64 is the identity. *)
Definition toy_hmac (k : nat) (d : bytes) : bytes := replicate 32 (ascii_of_nat (length d + k)).

Lemma decrypt_encrypt_witness :
  Decrypt (fun _ => reverse) toy_hmac (fun s => Some (String.list_ascii_of_string s)) 3
    (Encrypt (fun _ => reverse) toy_hmac String.string_of_list_ascii 3 "secret") = Some "secret".
Proof.
  apply (decrypt_encrypt (fun _ => reverse) (fun _ => reverse) toy_hmac String.string_of_list_ascii
    (fun s => Some (String.list_ascii_of_string s))).
  - intros k b _. apply reverse_involutive.
  - intros k b H. by rewrite length_reverse.
  - intros k d. apply length_replicate.
  - intros d. by rewrite String.list_ascii_of_string_of_list_ascii.
Defined.

Lemma decrypt_authentic_witness :
  exists binaryData sign encrypted,
    Some (String.list_ascii_of_string (sdrop (String.length EncryptedPrefix)
      (Encrypt (fun _ => reverse) toy_hmac String.string_of_list_ascii 3 "secret"))) = Some binaryData /\
    read_sign binaryData = Some (sign, encrypted) /\
    toy_hmac 3 (String.list_ascii_of_string "secret") = sign.
Proof.
  apply (decrypt_authentic (fun _ => reverse) toy_hmac (fun s => Some (String.list_ascii_of_string s)) 3);
    vm_compute; reflexivity.
Defined.

End Encrypt.
