(* ===== verification/Filter.v ===== *)
(** * Views of the configuration ([config/internal/filter.go], [config/internal/view.go]).

    A [Filter] reads a [DataSource] through a prefix and a list of namespaces and
    decrypts what it finds; a [View] wraps a filter and caches derived views by an
    identifier.  The data source is a type class with what the code calls of it;
    [ConfigImpl] is its instance. *)

From S2P Require Import Prelude GoStrings PrefixTree Watcher ConfigImpl Encrypt.
From Stdlib Require Import Ascii.

Open Scope string_scope.
Open Scope list_scope.

(** [internal.DataSource]: the calls a filter and a view make. *)
Class DataSource (D : Type) := {
  ds_Get : D -> string -> string -> bool -> string * Z;
  ds_GetByPrefix : D -> string -> gmap string string;
  ds_AppendPrefix : D -> list string -> D
}.

(** The configuration as a data source (its sources accept every prefix). *)
#[export] Instance ConfigImpl_DataSource : DataSource ConfigImpl.ConfigImpl := {
  ds_Get := ConfigImpl.Get;
  ds_GetByPrefix := ConfigImpl.GetByPrefix;
  ds_AppendPrefix := fun c p => (ConfigImpl.AppendPrefix c (fun _ _ => true) p).1
}.

Module Filter.

Section filter.
Context {key : Type} (Decrypt : key -> string -> option string) (K : key).

Record Filter := mkFilter {
  prefix : string;
  ns : list string;
  password : list key;
  decrypted : gmap string string;
  prefixMap : gmap string string
}.

(** The key prefix of one namespace. *)
Definition ns_prefix (prefix n : string) : string :=
  let p := if bool_decide (prefix = "") then "" else prefix +:+ "." in
  if bool_decide (n = "") then p else n +:+ "." +:+ p.

Definition NewFilter (prefix : string) (ns : list string) (password : list key) : Filter :=
  let ns' := if bool_decide ("" ∈ ns) then ns else "" :: ns in
  mkFilter prefix ns' password ∅ (foldl (fun m n => <[n:=ns_prefix prefix n]> m) ∅ ns').

Definition getPrefix (f : Filter) (n : string) : string := default "" (prefixMap f !! n).

Definition set_decrypted (f : Filter) (d : gmap string string) : Filter :=
  mkFilter (prefix f) (ns f) (password f) d (prefixMap f).

(** The loop over the passwords: the first key that decrypts. *)
Fixpoint try_keys (ks : list key) (val : string) : option string :=
  match ks with
  | [] => None
  | k :: ks' => match Decrypt k val with Some v => Some v | None => try_keys ks' val end
  end.

(** [decrypt] with its memo table [decrypted]. *)
Definition decrypt (f : Filter) (val : string) : string * Filter :=
  if negb (HasPrefix val Encrypt.EncryptedPrefix) then (val, f)
  else match decrypted f !! val with
       | Some v => (v, f)
       | None =>
           let v := default val (try_keys (password f ++ [K]) val) in
           (v, set_decrypted f (<[val:=v]> (decrypted f)))
       end.

Context {D : Type} `{DataSource D}.

(** [if v1, idx1 := ...; idx1 > idx { v, idx = v1, idx1 }]. *)
Definition better (best cand : string * Z) : string * Z :=
  if (best.2 <? cand.2)%Z then cand else best.

(** The loop of [Get] over the namespaces, last one first. *)
Definition scan_ns (f : Filter) (d : D) (k : string) : string * Z :=
  foldl (fun best n => better best (ds_Get d k (getPrefix f n) false)) ("", (-1)%Z) (reverse (ns f)).

Definition Get (f : Filter) (d : D) (k : string) : string * bool * Filter :=
  let '(rv, rvIdx) := ds_Get d k "" true in
  let '(v, idx) := scan_ns f d k in
  if ((rvIdx =? -1) && (idx =? -1))%Z then ("", false, f)
  else if (idx <? rvIdx)%Z then let '(s, f) := decrypt f rv in (s, true, f)
  else let '(s, f) := decrypt f v in (s, true, f).

Definition GetByPrefix (f : Filter) (d : D) (pre : string) : gmap string string := ds_GetByPrefix d pre.

(** The first namespace, from the last one on, whose prefix the key has: the key without it. *)
Fixpoint match_ns (f : Filter) (nss : list string) (k : string) : option string :=
  match nss with
  | [] => None
  | n :: nss' =>
      if HasPrefix k (getPrefix f n) then Some (TrimPrefix k (getPrefix f n)) else match_ns f nss' k
  end.

Definition FilterUpdate_step (d : D) (acc : gmap string string * Filter) (kv : string * string)
  : gmap string string * Filter :=
  let '(result, f) := acc in
  let '(k, v) := kv in
  match match_ns f (reverse (ns f)) k with
  | None => acc
  | Some k =>
      let '(dec_v, f) := decrypt f v in
      let '(val, ok, f) := Get f d k in
      (if negb ok || bool_decide (val = dec_v) then <[k:=dec_v]> result else result, f)
  end.

Definition FilterUpdate (f : Filter) (d : D) (notify : list (string * string))
  : gmap string string * Filter := foldl (FilterUpdate_step d) (∅, f) notify.

Definition FilterDelete_step (d : D) (acc : gmap string string * list string * Filter) (k : string)
  : gmap string string * list string * Filter :=
  let '(upd, del, f) := acc in
  match match_ns f (reverse (ns f)) k with
  | None => acc
  | Some k =>
      let '(val, ok, f) := Get f d k in
      if ok then (<[k:=val]> upd, del, f) else (upd, del ++ [k], f)
  end.

Definition FilterDelete (f : Filter) (d : D) (notify : list string)
  : gmap string string * list string * Filter := foldl (FilterDelete_step d) (∅, [], f) notify.

(** ** Specification *)

(** [decrypt] without the memo table. *)
Definition decrypt_pure (f : Filter) (val : string) : string :=
  if HasPrefix val Encrypt.EncryptedPrefix then default val (try_keys (password f ++ [K]) val) else val.

Definition memo_ok (f : Filter) : Prop :=
  forall val v, decrypted f !! val = Some v -> v = default val (try_keys (password f ++ [K]) val).

(** The candidates of a read, strongest first on equal levels: the namespaces from the last
    to the first, then the raw key. *)
Definition candidates (f : Filter) (d : D) (k : string) : list (string * Z) :=
  ((fun n => ds_Get d k (getPrefix f n) false) <$> reverse (ns f)) ++ [ds_Get d k "" true].

End filter.
Arguments Filter : clear implicits.

Section proofs.
Context {key : Type} (Decrypt : key -> string -> option string) (K : key).
Context {D : Type} `{DataSource D}.
Implicit Types f : Filter key.

Lemma decrypt_memo f val : memo_ok Decrypt K f ->
  (decrypt Decrypt K f val).1 = decrypt_pure Decrypt K f val /\
  memo_ok Decrypt K (decrypt Decrypt K f val).2 /\
  password (decrypt Decrypt K f val).2 = password f /\ ns (decrypt Decrypt K f val).2 = ns f /\
  prefixMap (decrypt Decrypt K f val).2 = prefixMap f.
Proof.
  intros Hm. unfold decrypt, decrypt_pure. destruct (HasPrefix val _); simpl; [|done].
  destruct (decrypted f !! val) as [v|] eqn:E; simpl; [by rewrite (Hm _ _ E)|].
  split_and!; [done| |done..]. intros val' v'. simpl. rewrite lookup_insert_case.
  case_decide; naive_solver.
Qed.

(** The loop keeps the strongest candidate, the earlier one on a tie. *)
Lemma scan_best (l : list (string * Z)) (b0 : string * Z) :
  let b := foldl better b0 l in
  b ∈ b0 :: l /\ Forall (fun c => (c.2 <= b.2)%Z) (b0 :: l) /\
  (b <> b0 -> (b0.2 < b.2)%Z /\ exists l1 l2, l = l1 ++ b :: l2 /\ Forall (fun c => (c.2 < b.2)%Z) l1).
Proof.
  revert b0; induction l as [|c l IH]; intros b0; cbn [foldl].
  { split_and!; [left|repeat constructor; lia|done]. }
  destruct (IH (better b0 c)) as (Hin & Hall & Hne).
  assert (Hb1 : (better b0 c = c /\ (b0.2 < c.2)%Z) \/ (better b0 c = b0 /\ (c.2 <= b0.2)%Z)).
  { unfold better. destruct (Z.ltb_spec b0.2 c.2); auto. }
  set (b1 := better b0 c) in *. inversion Hall as [|? ? Hle Hall']; subst.
  split_and!.
  - destruct Hb1 as [[-> _]|[-> _]]; set_solver.
  - repeat constructor; [destruct Hb1 as [[-> ?]|[-> ?]]; lia..|done].
  - intros Hb. destruct (decide (foldl better b1 l = b1)) as [E|E].
    + rewrite E in Hb |- *. destruct Hb1 as [[Hc ?]|[Hc ?]]; rewrite Hc in *; [|done].
      split; [done|]. by exists [], l.
    + destruct (Hne E) as (Hlt & l1 & l2 & El & Hl1).
      split; [destruct Hb1 as [[-> ?]|[-> ?]]; lia|].
      exists (c :: l1), l2. split; [by rewrite El at 1|].
      constructor; [destruct Hb1 as [[-> ?]|[-> ?]]; lia|done].
Qed.

(** What [Get] computes before decrypting. *)
Lemma Get_best f (d : D) k :
  let b := foldl better ("", (-1)%Z) (candidates f d k) in
  Forall (fun c => (-1 <= c.2)%Z) (candidates f d k) ->
  (Get Decrypt K f d k).1 =
  if (b.2 =? -1)%Z then ("", false) else ((decrypt Decrypt K f b.1).1, true).
Proof.
  intros b Hge. unfold Get. destruct (ds_Get d k "" true) as [rv rvIdx] eqn:Er.
  assert (Hb : b = better (scan_ns f d k) (rv, rvIdx)).
  { unfold b, candidates, scan_ns. by rewrite foldl_app, Er, foldl_fmap. }
  unfold candidates in Hge. rewrite Er in Hge.
  apply Forall_app in Hge as [Hn Hr]. inversion Hr as [|? ? Hrv _]; subst. simpl in Hrv.
  assert (Hi : (-1 <= (scan_ns f d k).2)%Z).
  { unfold scan_ns. rewrite <-foldl_fmap.
    destruct (scan_best ((fun n => ds_Get d k (getPrefix f n) false) <$> reverse (ns f)) ("", (-1)%Z))
      as (_ & Hall & _). by inversion Hall. }
  destruct (scan_ns f d k) as [v idx]. rewrite Hb. unfold better. simpl in *.
  destruct (Z.ltb_spec idx rvIdx); simpl.
  - destruct (Z.eqb_spec rvIdx (-1)), (Z.eqb_spec idx (-1)); try lia; simpl;
      by destruct (decrypt Decrypt K f rv).
  - destruct (Z.eqb_spec idx (-1)), (Z.eqb_spec rvIdx (-1)); try lia; simpl; try done;
      by destruct (decrypt Decrypt K f v).
Qed.

(** ** Properties *)

(** C39: what a filtered read returns.  For a data source that reports levels of at least
    -1, [Get] fails exactly when every candidate (each namespace and the raw key) is
    missing (level -1); otherwise it returns the decrypted value of the candidate with
    the highest level, a later namespace winning over an earlier one and any namespace
    over the raw key on equal levels. *)
Theorem filter_get_spec f (d : D) (k : string) :
  memo_ok Decrypt K f -> Forall (fun c => (-1 <= c.2)%Z) (candidates f d k) ->
  let '(s, ok, _) := Get Decrypt K f d k in
  (ok = false <-> Forall (fun c => c.2 = (-1)%Z) (candidates f d k)) /\
  (ok = true -> exists w l1 l2, candidates f d k = l1 ++ w :: l2 /\
     Forall (fun c => (c.2 < w.2)%Z) l1 /\ Forall (fun c => (c.2 <= w.2)%Z) l2 /\
     s = decrypt_pure Decrypt K f w.1).
Proof.
  intros Hm Hge. pose proof (Get_best f d k Hge) as HG.
  destruct (scan_best (candidates f d k) ("", (-1)%Z)) as (Hin & Hall & Hne).
  set (b := foldl better _ _) in *. destruct (Get Decrypt K f d k) as [[s ok] f']. simpl in HG.
  inversion Hall as [|? ? Hb0 Hall']; subst. simpl in Hb0.
  destruct (Z.eqb_spec b.2 (-1)) as [Eb|Eb]; injection HG as -> ->.
  - split; [|done]. split; [intros _|done]. rewrite Forall_forall in *. intros c Hc.
    specialize (Hge c Hc). specialize (Hall' c Hc). lia.
  - split; [split; [done|]|].
    + intros Hneg. exfalso. rewrite Forall_forall in Hneg.
      apply elem_of_cons in Hin as [Hin|Hin]; [by rewrite Hin in Eb|]. by apply Eb, Hneg.
    + intros _. destruct Hne as (_ & l1 & l2 & El & Hl1); [intros E; by rewrite E in Eb|].
      exists b, l1, l2. split_and!; [done|done| |by apply decrypt_memo].
      rewrite El in Hall'. apply Forall_app in Hall' as [_ Hall']. by inversion Hall'.
Qed.

End proofs.

(** A data source with two keys, for examples. *)
Definition toy_source : DataSource unit := {|
  ds_Get := fun _ k p raw =>
    if raw then ("", (-1)%Z)
    else if bool_decide (p +:+ k = "a") then ("x", 1%Z)
    else if bool_decide (p +:+ k = "n.a") then ("z", 1%Z) else ("", (-1)%Z);
  ds_GetByPrefix := fun _ _ => ∅;
  ds_AppendPrefix := fun d _ => d |}.

Lemma filter_get_spec_witness :
  let f := NewFilter "" ["n"] ([] : list nat) in
  exists w l1 l2, candidates (H:=toy_source) f tt "a" = l1 ++ w :: l2 /\
    Forall (fun c => (c.2 < w.2)%Z) l1 /\ Forall (fun c => (c.2 <= w.2)%Z) l2 /\
    "z" = decrypt_pure (fun (_ : nat) _ => None) 0 f w.1.
Proof.
  intros f.
  assert (Hg : Get (H:=toy_source) (fun (_ : nat) _ => None) 0 f tt "a" = ("z", true, f))
    by (vm_compute; reflexivity).
  pose proof (filter_get_spec (H:=toy_source) (fun (_ : nat) _ => None) 0 f tt "a") as HG.
  rewrite Hg in HG. apply HG; [by intros ? ?| |reflexivity].
  replace (candidates (H:=toy_source) f tt "a") with [("z", 1%Z); ("x", 1%Z); ("", (-1)%Z)]
    by (vm_compute; reflexivity).
  repeat constructor; simpl; lia.
Defined.

(** ** The configuration as the data source *)

Section config.
Context {key : Type} (Decrypt : key -> string -> option string) (K : key).

(** with a [ConfigImpl] behind it, a filter never reports a key as missing: an absent
    raw key is reported with level 1 instead of -1, so [Get] returns true for every key
    of every configuration (and [Has] is constantly true). *)
Theorem config_get_never_missing (f : Filter key) (c : ConfigImpl.ConfigImpl) (k : string) :
  (Get Decrypt K f c k).1.2 = true.
Proof.
  unfold Get. change (ds_Get c k "" true) with (ConfigImpl.Get c k "" true).
  assert (Hraw : (ConfigImpl.Get c k "" true).2 <> (-1)%Z).
  { unfold ConfigImpl.Get. repeat case_match; simpl; lia. }
  destruct (ConfigImpl.Get c k "" true) as [rv rvIdx]. simpl in Hraw.
  destruct (scan_ns f c k) as [v idx]. rewrite (proj2 (Z.eqb_neq _ _) Hraw), andb_false_l.
  by destruct (idx <? rvIdx)%Z; destruct (decrypt _ _ _ _).
Qed.

(** Every value of the merged cache has level 0. *)
Definition all_level0 (t : PrefixTree.PrefixTree ConfigImpl.ValueNode) : Prop :=
  PrefixTree.wf t /\ forall k vn, PrefixTree.Get t k = Some vn -> ConfigImpl.level vn = 0.

Lemma sync_step_level0 acc kv : all_level0 acc.1 -> all_level0 (ConfigImpl.sync_step 0 acc kv).1.
Proof.
  destruct acc as [t n], kv as [k0 v0]. simpl. intros [Hw Hl]. split; [by apply PrefixTree.Put_wf|].
  intros k vn. rewrite PrefixTree.Get_Put by done. case_decide; [|apply Hl].
  destruct (PrefixTree.valid_key _ _); [by intros [= <-]|apply Hl].
Qed.

Lemma single_source_level0 kvs :
  let c := (ConfigImpl.sync (ConfigImpl.newConfigImpl [false]) [Some kvs]).1.1 in
  all_level0 (ConfigImpl.cache c) /\
  (exists s, ConfigImpl.source c = [s] /\ SourceWrapper.ignoreNamespace s = false).
Proof.
  unfold ConfigImpl.sync. simpl.
  set (l := map_to_list _).
  pose proof (foldl_ind (fun a => all_level0 a.1) (ConfigImpl.sync_step 0) l
    (PrefixTree.NewPrefixTree ConfigImpl.dot, ∅)) as Hf.
  destruct (foldl _ _ _) as [t n]. simpl in *. split; [|by eexists].
  apply Hf; [split; [apply PrefixTree.new_wf|by intros k vn]|]. intros. by apply sync_step_level0.
Qed.

(** a configuration with one source reads as empty.  After the source was
    synchronised with any keys and values, every filtered read of every key returns the
    empty string: the level-0 value loses against the level 1 reported for the missing raw
    key. *)
Theorem single_source_reads_empty (kvs : list (string * string)) (pre : string) (nss : list string)
    (pw : list key) (k : string) :
  let c := (ConfigImpl.sync (ConfigImpl.newConfigImpl [false]) [Some kvs]).1.1 in
  (Get Decrypt K (NewFilter pre nss pw) c k).1 = ("", true).
Proof.
  intros c. destruct (single_source_level0 kvs) as [[_ Hl] (s & Hs & Hi)]. fold c in Hl, Hs.
  unfold Get. change (ds_Get c k "" true) with (ConfigImpl.Get c k "" true).
  assert (Hraw : ConfigImpl.Get c k "" true = ("", 1%Z)).
  { unfold ConfigImpl.Get. destruct (PrefixTree.Get _ _) as [vn|] eqn:E; [|done].
    rewrite (Hl _ _ E), Hs. simpl. by rewrite Hi. }
  rewrite Hraw. assert (Hscan : ((scan_ns (NewFilter pre nss pw) c k).2 < 1)%Z).
  { unfold scan_ns. apply (foldl_ind (fun b => (b.2 < 1)%Z)); [simpl; lia|].
    intros b n _ Hb. unfold better. destruct (Z.ltb_spec b.2 (ds_Get c k (getPrefix (NewFilter pre nss pw) n) false).2); [|done].
    simpl. unfold ConfigImpl.Get. destruct (PrefixTree.Get _ _) as [vn|] eqn:E; simpl; [|lia].
    rewrite (Hl _ _ E). simpl. lia. }
  destruct (scan_ns _ c k) as [v idx]. simpl in *.
  destruct (Z.ltb_spec idx 1); [done|lia].
Qed.

End config.

End Filter.

Module View.
Import Filter.

Section view.
Context {key : Type} (md5_Sum : string -> key) (hex_EncodeToString : key -> string).
Context {D : Type} `{DataSource D}.

Record View := mkView {
  vfilter : Filter key;
  vprefix : string;
  vns : list string;
  vpassword : list key;
  vnotifier : Watcher.Notifier nat;
  viewCache : gmap string nat
}.

(** Views are shared objects: the heap of views (addressed by index) and the source. *)
Record heap := mkHeap { views : list View; src : D }.

Definition viewId (prefix : string) (ns : list string) (password : list key) : string :=
  prefix +:+ ":" +:+ Join ns "|" +:+ String.concat "" (hex_EncodeToString <$> password).

(** The struct literal leaves the field [password] unset. *)
Definition NewConfigView (h : heap) (prefix : string) (ns : list string) (password : list key)
  : nat * heap :=
  let lowerNs := ToLower <$> ns in
  let d := if bool_decide (lowerNs = []) then src h else ds_AppendPrefix (src h) lowerNs in
  let v := mkView (NewFilter prefix lowerNs password) prefix lowerNs [] (Watcher.NewNotifier []) ∅ in
  (length (views h), mkHeap (views h ++ [v]) d).

Definition cache_view (h : heap) (s : nat) (id : string) (v : nat) : heap :=
  mkHeap (alter (fun w => mkView (vfilter w) (vprefix w) (vns w) (vpassword w) (vnotifier w)
                            (<[id:=v]> (viewCache w))) s (views h)) (src h).

(** [None]: no such view. *)
Definition WithNamespace (h : heap) (s : nat) (ns : list string) : option (nat * heap) :=
  this ← views h !! s;
  let lowerNs := ToLower <$> ns in
  let newNs := vns this ++ lowerNs in
  let id := viewId (vprefix this) newNs (vpassword this) in
  match viewCache this !! id with
  | Some v => Some (v, h)
  | None =>
      let h := if bool_decide (lowerNs = []) then h
               else mkHeap (views h) (ds_AppendPrefix (src h) lowerNs) in
      let '(v, h) := NewConfigView h (vprefix this) newNs (vpassword this) in
      Some (v, cache_view h s id v)
  end.

Definition WithPrefix (h : heap) (s : nat) (prefix : string) : option (nat * heap) :=
  this ← views h !! s;
  let prefix := ToLower prefix in
  let id := viewId prefix (vns this) (vpassword this) in
  match viewCache this !! id with
  | Some v => Some (v, h)
  | None =>
      let '(v, h) := NewConfigView h prefix (vns this) (vpassword this) in
      Some (v, cache_view h s id v)
  end.

Definition WithPassword (h : heap) (s : nat) (password : list string) : option (nat * heap) :=
  this ← views h !! s;
  let newPassword := vpassword this ++ (md5_Sum <$> filter (fun p => p <> "") password) in
  let id := viewId (vprefix this) (vns this) newPassword in
  match viewCache this !! id with
  | Some v => Some (v, h)
  | None =>
      let '(v, h) := NewConfigView h (vprefix this) (vns this) newPassword in
      Some (v, cache_view h s id v)
  end.

(** [OnUpdate]: nothing without watchers; otherwise what the filter lets through. *)
Definition OnUpdate (Decrypt : key -> string -> option string) (K : key) (this : View) (d : D)
    (val : list (string * string)) : View * list (nat * Watcher.event) :=
  if bool_decide (Watcher.Size (vnotifier this) = 0) then (this, [])
  else
    let '(result, f) := FilterUpdate Decrypt K (vfilter this) d val in
    (mkView f (vprefix this) (vns this) (vpassword this) (vnotifier this) (viewCache this),
     Watcher.OnUpdate (vnotifier this) result).

Definition OnDelete (Decrypt : key -> string -> option string) (K : key) (this : View) (d : D)
    (val : list string) : View * list (nat * Watcher.event) :=
  if bool_decide (Watcher.Size (vnotifier this) = 0) then (this, [])
  else
    let '(upd, del, f) := FilterDelete Decrypt K (vfilter this) d val in
    (mkView f (vprefix this) (vns this) (vpassword this) (vnotifier this) (viewCache this),
     Watcher.OnUpdate (vnotifier this) upd ++ Watcher.OnDelete (vnotifier this) del).

(** The password list of a view's filter. *)
Definition filter_password (h : heap) (v : nat) : option (list key) :=
  (fun w => password (vfilter w)) <$> views h !! v.

End view.
Arguments View : clear implicits.
Arguments heap : clear implicits.

Section proofs.
Context {key : Type} (md5_Sum : string -> key) (hex_EncodeToString : key -> string).
Context {D : Type} `{DataSource D}.

(** A view just made is the last of the heap. *)
Lemma new_view_lookup (h : heap key D) prefix ns (pw : list key) :
  views (NewConfigView h prefix ns pw).2 !! (NewConfigView h prefix ns pw).1 =
  Some (mkView (NewFilter prefix (ToLower <$> ns) pw) prefix (ToLower <$> ns) []
    (Watcher.NewNotifier []) ∅).
Proof. unfold NewConfigView. simpl. by rewrite lookup_app_r, Nat.sub_diag by lia. Qed.

Lemma cache_view_other (h : heap key D) s id v i :
  i <> s -> views (cache_view h s id v) !! i = views h !! i.
Proof. intros Hi. unfold cache_view. simpl. by rewrite list_lookup_alter_ne. Qed.

(** passwords do not survive a further derivation.  The view [WithPassword] returns
    decrypts with the given passwords, but the view [WithPrefix] makes from it has no
    password at all, because [NewConfigView] never stores the passwords in the view. *)
Theorem with_password_then_prefix (d : D) (pre : string) (nss : list string) (pws : list string)
    (p : string) :
  let h0 := (NewConfigView (mkHeap [] d) pre nss []).2 in
  exists v1 h1 v2 h2,
    WithPassword md5_Sum hex_EncodeToString h0 0 pws = Some (v1, h1) /\
    WithPrefix hex_EncodeToString h1 v1 p = Some (v2, h2) /\
    filter_password h1 v1 = Some (md5_Sum <$> filter (fun p => p <> "") pws) /\
    filter_password h2 v2 = Some [].
Proof.
  intros h0. do 4 eexists. split; [reflexivity|]. split; [reflexivity|]. done.
Qed.

(** Derived views are shared.  Asking a view twice for the same prefix returns the
    same view object, and the second call changes nothing. *)
Lemma with_prefix_shared (h h1 : heap key D) (s v : nat) (p : string) :
  WithPrefix hex_EncodeToString h s p = Some (v, h1) ->
  WithPrefix hex_EncodeToString h1 s p = Some (v, h1).
Proof.
  unfold WithPrefix. destruct (views h !! s) as [this|] eqn:Es; simpl; [|done].
  destruct (viewCache this !! _) as [v'|] eqn:Ec.
  - intros [= <- <-]. by rewrite Es; simpl; rewrite Ec.
  - intros [= <- <-]. simpl.
    rewrite list_lookup_alter_eq, lookup_app_l by (by eapply lookup_lt_Some). rewrite Es. simpl.
    by rewrite lookup_insert_eq.
Qed.

End proofs.

Lemma with_prefix_shared_witness :
  let h := (NewConfigView (key:=nat) (mkHeap [] (ConfigImpl.newConfigImpl [])) "" ["x"] []).2 in
  exists h1, WithPrefix (fun _ => "ff") h 0 "P" = Some (1, h1) /\
    WithPrefix (fun _ => "ff") h1 0 "P" = Some (1, h1).
Proof.
  eexists. split; [vm_compute; reflexivity|].
  apply (with_prefix_shared (fun _ => "ff")
    (NewConfigView (key:=nat) (mkHeap [] (ConfigImpl.newConfigImpl [])) "" ["x"] []).2).
  vm_compute. reflexivity.
Defined.

End View.
