(* ===== verification/TaskQueue.v ===== *)
(** * The task queue of the retry controller ([internal/retry/task_queue.go]).

    Tasks are identified by a number; [cancel] of a task's context is an effect, so every
    operation also returns the identifiers whose [cancel] it calls, in order. *)

From S2P Require Import Prelude.

Module TaskQueue.

Record Task := mkTask { id : nat; valid : bool }.

Record TaskQueue := mkQueue { taskQueue : list Task; closed : bool }.

Definition NewTaskQueue : TaskQueue := mkQueue [] false.

(** Invalidate the oldest valid task, if there is one. *)
Fixpoint evictOldest (q : list Task) : list Task * list nat :=
  match q with
  | [] => ([], [])
  | t :: q' =>
      if valid t then (mkTask (id t) false :: q', [id t])
      else let '(q', c) := evictOldest q' in (t :: q', c)
  end.

Definition AddTask (s : TaskQueue) (i : nat) (evictOldestOne : bool) : TaskQueue * list nat :=
  let '(q, canceled) := if evictOldestOne then evictOldest (taskQueue s) else (taskQueue s, []) in
  (mkQueue (q ++ [mkTask i true]) (closed s), canceled).

(** One round of the loop of [RemoveTask]. *)
Definition invalidate (i : nat) (t : Task) : Task := if (id t =? i)%nat then mkTask (id t) false else t.

Definition RemoveTask (s : TaskQueue) (i : nat) : TaskQueue * list nat :=
  (mkQueue (invalidate i <$> taskQueue s) (closed s),
   id <$> filter (fun t => id t = i) (taskQueue s)).

Definition CloseQueue (s : TaskQueue) : TaskQueue * list nat :=
  (mkQueue [] true, id <$> filter (fun t => valid t = true) (taskQueue s)).

(** The loop of [IsTaskValid]: the first task with the identifier decides. *)
Fixpoint find_valid (q : list Task) (i : nat) : bool :=
  match q with
  | [] => false
  | t :: q' => if (id t =? i)%nat then valid t else find_valid q' i
  end.

Definition IsTaskValid (s : TaskQueue) (i : nat) : bool :=
  if closed s then false else find_valid (taskQueue s) i.

(** The loop of [TaskCount]. *)
Fixpoint count_valid (q : list Task) : nat :=
  match q with
  | [] => 0
  | t :: q' => if valid t then S (count_valid q') else count_valid q'
  end.

Definition TaskCount (s : TaskQueue) : nat := if closed s then 0 else count_valid (taskQueue s).

Definition IsQueueClosed (s : TaskQueue) : bool := closed s.

(** ** Lemmas *)

Lemma count_valid_app q1 q2 : count_valid (q1 ++ q2) = count_valid q1 + count_valid q2.
Proof. induction q1 as [|t q1 IH]; simpl; [done|]. destruct (valid t); simpl; by rewrite IH. Qed.

Lemma count_valid_evict q : count_valid (evictOldest q).1 = pred (count_valid q).
Proof.
  induction q as [|t q IH]; simpl; [done|]. destruct (valid t) eqn:E; simpl; [done|].
  destruct (evictOldest q) as [q' c]; simpl in *. by rewrite E, IH.
Qed.

Lemma evict_ids q : id <$> (evictOldest q).1 = id <$> q.
Proof.
  induction q as [|t q IH]; simpl; [done|]. destruct (valid t); simpl; [done|].
  destruct (evictOldest q) as [q' c]; simpl in *. by f_equal.
Qed.

(** Adding with eviction replaces the oldest task: the number of valid ones stays. *)
Lemma AddTask_count s i e :
  count_valid (taskQueue (AddTask s i e).1) =
  if e then S (pred (count_valid (taskQueue s))) else S (count_valid (taskQueue s)).
Proof.
  unfold AddTask. pose proof (count_valid_evict (taskQueue s)) as He. destruct e.
  - destruct (evictOldest _) as [q c]. simpl in *. rewrite count_valid_app, He. apply Nat.add_1_r.
  - simpl. rewrite count_valid_app. simpl. lia.
Qed.

Lemma AddTask_closed s i e : closed (AddTask s i e).1 = closed s.
Proof. unfold AddTask. destruct e; [destruct (evictOldest _)|]; done. Qed.

Lemma AddTask_ids s i e : id <$> taskQueue (AddTask s i e).1 = (id <$> taskQueue s) ++ [i].
Proof.
  unfold AddTask. pose proof (evict_ids (taskQueue s)) as He. destruct e.
  - destruct (evictOldest _) as [q c]. simpl in *. by rewrite fmap_app, He.
  - simpl. by rewrite fmap_app.
Qed.

Lemma RemoveTask_count s i : count_valid (taskQueue (RemoveTask s i).1) <= count_valid (taskQueue s).
Proof.
  cbn [RemoveTask fst taskQueue]. induction (taskQueue s) as [|t q IH]; [done|].
  rewrite fmap_cons. cbn [count_valid]. unfold invalidate at 1.
  destruct (id t =? i)%nat; cbn [valid]; destruct (valid t); lia.
Qed.

Lemma RemoveTask_ids s i : id <$> taskQueue (RemoveTask s i).1 = id <$> taskQueue s.
Proof.
  cbn [RemoveTask fst taskQueue]. induction (taskQueue s) as [|t q IH]; [done|].
  rewrite !fmap_cons, IH. unfold invalidate. by destruct (id t =? i)%nat.
Qed.

Lemma find_valid_app q1 q2 i : i ∉ id <$> q1 -> find_valid (q1 ++ q2) i = find_valid q2 i.
Proof.
  induction q1 as [|t q1 IH]; simpl; [done|]. intros [Hne Hin]%not_elem_of_cons.
  rewrite (proj2 (Nat.eqb_neq _ _)) by congruence. by apply IH.
Qed.

Lemma find_valid_fresh q i : i ∉ id <$> q -> find_valid q i = false.
Proof. intros Hi. rewrite <-(app_nil_r q). by rewrite find_valid_app. Qed.

(** ** Properties of the queue *)

Lemma find_valid_remove q i j :
  find_valid (invalidate i <$> q) j =
  if (j =? i)%nat then false else find_valid q j.
Proof.
  induction q as [|t q IH]; [simpl; by destruct (_ =? _)%nat|].
  rewrite fmap_cons. cbn [find_valid]. unfold invalidate at 1 2.
  destruct (Nat.eqb_spec (id t) i), (Nat.eqb_spec (id t) j), (Nat.eqb_spec j i); simpl;
    rewrite ?(proj2 (Nat.eqb_eq _ _)), ?(proj2 (Nat.eqb_neq _ _)) by congruence; simplify_eq; try done;
    rewrite IH; by rewrite ?(proj2 (Nat.eqb_eq _ _)), ?(proj2 (Nat.eqb_neq _ _)) by congruence.
Qed.

Lemma evict_find q i : NoDup (id <$> q) ->
  find_valid (evictOldest q).1 i =
  if bool_decide ((evictOldest q).2 = [i]) then false else find_valid q i.
Proof.
  induction q as [|t q IH]; simpl; [done|]. intros [Ht Hq]%NoDup_cons.
  destruct (valid t) eqn:Ev; simpl.
  - destruct (Nat.eqb_spec (id t) i) as [->|Hne].
    + by rewrite bool_decide_eq_true_2.
    + by rewrite bool_decide_eq_false_2 by congruence.
  - specialize (IH Hq). destruct (evictOldest q) as [q' c] eqn:E. simpl in *. rewrite IH, Ev.
    by case_bool_decide; destruct (id t =? i)%nat.
Qed.

Lemma AddTask_find s i e : i ∉ id <$> taskQueue s -> find_valid (taskQueue (AddTask s i e).1) i = true.
Proof.
  intros Hi. unfold AddTask. pose proof (evict_ids (taskQueue s)) as He. destruct e.
  - destruct (evictOldest _) as [q c]. simpl in *. rewrite find_valid_app by (by rewrite He).
    simpl. by rewrite Nat.eqb_refl.
  - simpl. rewrite find_valid_app by done. simpl. by rewrite Nat.eqb_refl.
Qed.

(** the queue's task life cycle.  In an open queue with distinct identifiers: a
    task added under a new identifier is valid; adding with eviction invalidates and
    cancels only the oldest valid task; [RemoveTask] invalidates exactly its task; and
    [CloseQueue] cancels exactly the valid tasks and leaves none valid. *)
Theorem task_queue_lifecycle (s : TaskQueue) (i : nat) (e : bool) :
  closed s = false -> NoDup (id <$> taskQueue s) -> i ∉ id <$> taskQueue s ->
  IsTaskValid (AddTask s i e).1 i = true /\
  (forall j, j <> i -> IsTaskValid (AddTask s i e).1 j =
     if bool_decide ((AddTask s i e).2 = [j]) then false else IsTaskValid s j) /\
  (forall j, IsTaskValid (RemoveTask s i).1 j = if (j =? i)%nat then false else IsTaskValid s j) /\
  (forall j, j ∈ (CloseQueue s).2 <-> IsTaskValid s j = true) /\
  (forall j, IsTaskValid (CloseQueue s).1 j = false) /\ TaskCount (CloseQueue s).1 = 0.
Proof.
  intros Hc Hnd Hi. unfold IsTaskValid. rewrite AddTask_closed. simpl. rewrite Hc.
  split_and!; try done.
  - unfold AddTask. pose proof (evict_ids (taskQueue s)) as He.
    destruct e; [destruct (evictOldest _) as [q c]|]; simpl in *;
      rewrite find_valid_app by congruence; simpl; by rewrite Nat.eqb_refl.
  - intros j Hj. unfold AddTask. pose proof (evict_find (taskQueue s) j Hnd) as Hf.
    assert (Hlast : forall q, find_valid (q ++ [mkTask i true]) j = find_valid q j).
    { induction q as [|t q IH]; simpl; [by rewrite (proj2 (Nat.eqb_neq _ _)) by done|by rewrite IH]. }
    destruct e; [destruct (evictOldest _) as [q c]|]; simpl in *; by rewrite Hlast.
  - intros j. apply find_valid_remove.
  - intros j. rewrite list_elem_of_fmap. setoid_rewrite list_elem_of_filter.
    clear Hi. induction (taskQueue s) as [|t q IH]; simpl.
    { split; [intros (?&_&_&?%elem_of_nil)|]; done. }
    apply NoDup_cons in Hnd as [Ht Hq]. specialize (IH Hq).
    destruct (Nat.eqb_spec (id t) j) as [<-|Hne]; [split|].
    + intros (t' & Heq & Hv & [->|Hin]%elem_of_cons); [done|].
      exfalso. apply Ht. rewrite Heq. by apply list_elem_of_fmap_2.
    + intros Hv. exists t. set_solver.
    + rewrite <-IH. set_solver.
Qed.

Lemma task_queue_lifecycle_witness :
  let s := mkQueue [mkTask 1 true; mkTask 2 true] false in
  IsTaskValid (AddTask s 3 true).1 3 = true /\ (AddTask s 3 true).2 = [1].
Proof.
  split; [|reflexivity].
  refine (proj1 (task_queue_lifecycle (mkQueue [mkTask 1 true; mkTask 2 true] false) 3 true _ _ _));
    [reflexivity| |]; simpl.
  - repeat constructor; set_solver.
  - set_solver.
Defined.

End TaskQueue.
