(* ===== verification/Scheduler.v ===== *)
(** * The retry scheduler and [Invoke] ([internal/retry/task_scheduler.go],
    [internal/retry/retry_controller.go]).

    One call of [Invoke] is a small concurrent program: the caller ("waiter") receives
    signals from a channel of capacity 1, and task routines, timers, the deadline
    goroutine and callers of [Cancel] send signals and finish the scheduler.  Each of them
    is modelled by the list of atomic actions it has still to do (a lock-protected call, a
    channel operation or an atomic add each being one action), and [do_step] lets one of
    them do its next action: every interleaving is a sequence of labels.  Times are not
    modelled: a timer may fire at any moment after it was armed. *)

From S2P Require Import Prelude TaskQueue.

Module Scheduler.
Import TaskQueue.

Inductive Error := TaskError (e : nat) | ErrSchedulerCanceled | ErrDeadline (timeLimit : Z) | ErrRetryTimeout.

Inductive Signal :=
| SignalDone (result : nat)
| SignalError (err : Error)
| SignalRetry (err : Error)
| SignalTimeout (timeout : Z)
| SignalQuit.

#[export] Instance Error_eq_dec : EqDecision Error.
Proof. solve_decision. Defined.
#[export] Instance Signal_eq_dec : EqDecision Signal.
Proof. solve_decision. Defined.

(** [TaskContext] without its two time fields. *)
Record TaskContext := mkContext { RetryNum : nat; ConcurrencyNum : nat; LastError : option Error }.

(** The options of a controller, all of its policies given.  [intervalPolicy] only delays a
    task, which the machine below leaves to the choice of the interleaving. *)
Record Options := mkOptions {
  timeLimit : Z;
  timeoutPolicy : TaskContext -> Z;
  intervalPolicy : TaskContext -> Z;
  retryPolicy : TaskContext -> bool;
  concurrencyPolicy : TaskContext -> bool;
  timeoutErrGenerator : Z -> Error;
  cancelError : Error
}.

(** Atomic actions. *)
Inductive instr :=
| IIfValid (i : nat)            (* if !queue.IsTaskValid(i) { return } *)
| IIfOpen                       (* if queue.IsQueueClosed() { return } *)
| ISend (s : Signal)            (* signalChan <- s *)
| IRemove (i : nat)             (* queue.RemoveTask(i) *)
| IClose                        (* queue.CloseQueue() *)
| IFinishChan                   (* finishChan <- struct{}{} *)
| IAdd (evict : bool) (timeout : Z).  (* id++; queue.AddTask(id, cancel, evict); go invokeRoutine *)

Definition Finish : list instr := [IIfOpen; IClose; IFinishChan; ISend SignalQuit].
Definition Cancel : list instr := [IIfOpen; ISend (SignalError ErrSchedulerCanceled)] ++ Finish.
Definition InvokeTask (evict : bool) (timeout : Z) : list instr := [IIfOpen; IAdd evict timeout].
Definition OnSuccess (i r : nat) : list instr := [IIfValid i; ISend (SignalDone r)] ++ Finish.
Definition OnError (i : nat) (e : Error) : list instr := [IIfValid i; ISend (SignalError e)] ++ Finish.
Definition Retry (i : nat) (e : Error) : list instr := [IIfValid i; ISend (SignalRetry e); IRemove i].
Definition TimeoutRoutine (i : nat) (timeout : Z) : list instr := [IIfValid i; ISend (SignalTimeout timeout)].
Definition LimitRoutine (limit : Z) : list instr := [IIfOpen; ISend (SignalError (ErrDeadline limit))] ++ Finish.

(** The caller: in the receive loop, running the handler of a signal, or returned. *)
Inductive Waiter := Waiting | Handling (code : list instr) | Returned.

Record state := mkState {
  nextId : nat;
  queue : TaskQueue;
  signalChan : list Signal;
  finishChan : nat;
  receiver : bool;        (* the goroutine of [_NewScheduler] is still there *)
  timers : list (nat * Z); (* armed per-try timers: task and timeout *)
  procs : list (list instr);
  waiter : Waiter;
  taskContext : TaskContext;
  result : option nat;
  err : option Error
}.

Definition set_procs (s : state) (ps : list (list instr)) : state :=
  mkState (nextId s) (queue s) (signalChan s) (finishChan s) (receiver s) (timers s) ps (waiter s)
    (taskContext s) (result s) (err s).
Definition set_waiter (s : state) (w : Waiter) : state :=
  mkState (nextId s) (queue s) (signalChan s) (finishChan s) (receiver s) (timers s) (procs s) w
    (taskContext s) (result s) (err s).
Definition set_queue (s : state) (q : TaskQueue) : state :=
  mkState (nextId s) q (signalChan s) (finishChan s) (receiver s) (timers s) (procs s) (waiter s)
    (taskContext s) (result s) (err s).
Definition set_chan (s : state) (c : list Signal) : state :=
  mkState (nextId s) (queue s) c (finishChan s) (receiver s) (timers s) (procs s) (waiter s)
    (taskContext s) (result s) (err s).
Definition set_finish (s : state) (n : nat) : state :=
  mkState (nextId s) (queue s) (signalChan s) n (receiver s) (timers s) (procs s) (waiter s)
    (taskContext s) (result s) (err s).
Definition set_receiver (s : state) (b : bool) : state :=
  mkState (nextId s) (queue s) (signalChan s) (finishChan s) b (timers s) (procs s) (waiter s)
    (taskContext s) (result s) (err s).
Definition set_timers (s : state) (ts : list (nat * Z)) : state :=
  mkState (nextId s) (queue s) (signalChan s) (finishChan s) (receiver s) ts (procs s) (waiter s)
    (taskContext s) (result s) (err s).
Definition set_outcome (s : state) (r : option nat) (e : option Error) : state :=
  mkState (nextId s) (queue s) (signalChan s) (finishChan s) (receiver s) (timers s) (procs s) (waiter s)
    (taskContext s) r e.
Definition set_context (s : state) (c : TaskContext) : state :=
  mkState (nextId s) (queue s) (signalChan s) (finishChan s) (receiver s) (timers s) (procs s) (waiter s)
    c (result s) (err s).
Definition set_nextId (s : state) (n : nat) : state :=
  mkState n (queue s) (signalChan s) (finishChan s) (receiver s) (timers s) (procs s) (waiter s)
    (taskContext s) (result s) (err s).

Definition spawn (s : state) (code : list instr) : state := set_procs s (procs s ++ [code]).

(** One action with the rest of its routine; [None]: the channel is full, it blocks. *)
Definition exec (s : state) (i : instr) (rest : list instr) : option (state * list instr) :=
  match i with
  | IIfValid t => Some (s, if IsTaskValid (queue s) t then rest else [])
  | IIfOpen => Some (s, if IsQueueClosed (queue s) then [] else rest)
  | ISend sg => match signalChan s with [] => Some (set_chan s [sg], rest) | _ => None end
  | IRemove t => Some (set_queue s (RemoveTask (queue s) t).1, rest)
  | IClose => Some (set_queue s (CloseQueue (queue s)).1, rest)
  | IFinishChan => match finishChan s with O => Some (set_finish s 1, rest) | _ => None end
  | IAdd evict timeout =>
      let t := S (nextId s) in
      let s := set_queue (set_nextId s t) (AddTask (queue s) t evict).1 in
      Some (set_timers s (if (timeout =? 0)%Z then timers s else timers s ++ [(t, timeout)]), rest)
  end.

Section controller.
Context (opts : Options).

(** The closure [retry] of [Invoke]. *)
Definition retry (s : state) (e : Error) : state :=
  let c := mkContext (S (RetryNum (taskContext s))) (TaskCount (queue s)) (Some e) in
  let s := set_context s c in
  if retryPolicy opts c
  then set_waiter s (Handling (InvokeTask (negb (concurrencyPolicy opts c)) (timeoutPolicy opts c)))
  else set_waiter (set_outcome s (result s) (Some e)) (Handling Finish).

(** The switch of [Wait] with the handlers [Invoke] passes. *)
Definition on_signal (s : state) (sg : Signal) : state :=
  match sg with
  | SignalDone r => set_outcome s (Some r) (err s)
  | SignalError ErrSchedulerCanceled => set_outcome s (result s) (Some (cancelError opts))
  | SignalError e => set_outcome s (result s) (Some e)
  | SignalRetry e => retry s e
  | SignalTimeout timeout => retry s (timeoutErrGenerator opts timeout)
  | SignalQuit => set_waiter s Returned
  end.

Inductive callback := CSuccess (r : nat) | CError (e : Error) | CRetry (e : Error).

(** Who moves: goroutine [i]; the caller; a task calling back; a timer; the deadline; the
    receiver of [finishChan]; somebody calling [CancelTask]. *)
Inductive label :=
| LProc (i : nat) | LWaiter | LCallback (t : nat) (c : callback) | LTimer (k : nat)
| LLimit | LFinished | LCancel.

Definition callback_code (t : nat) (c : callback) : list instr :=
  match c with
  | CSuccess r => OnSuccess t r
  | CError e => OnError t e
  | CRetry e => Retry t e
  end.

Definition do_step (s : state) (l : label) : option state :=
  match l with
  | LProc i =>
      match procs s !! i with
      | Some (ins :: rest) =>
          match exec s ins rest with
          | Some (s', rest') => Some (set_procs s' (<[i:=rest']> (procs s)))
          | None => None
          end
      | _ => None
      end
  | LWaiter =>
      match waiter s with
      | Waiting =>
          match signalChan s with
          | [] => None
          | sg :: c => Some (on_signal (set_chan s c) sg)
          end
      | Handling [] => Some (set_waiter s Waiting)
      | Handling (ins :: rest) =>
          match exec s ins rest with
          | Some (s', rest') => Some (set_waiter s' (Handling rest'))
          | None => None
          end
      | Returned => None
      end
  | LCallback t c =>
      if ((1 <=? t) && (t <=? nextId s))%nat then Some (spawn s (callback_code t c)) else None
  | LTimer k =>
      match timers s !! k with
      | Some (t, timeout) => Some (spawn (set_timers s (base.delete k (timers s))) (TimeoutRoutine t timeout))
      | None => None
      end
  | LLimit =>
      if receiver s && negb (timeLimit opts =? 0)%Z
      then Some (spawn (set_receiver s false) (LimitRoutine (timeLimit opts))) else None
  | LFinished =>
      match receiver s, finishChan s with
      | true, S n => Some (set_receiver (set_finish s n) false)
      | _, _ => None
      end
  | LCancel => Some (spawn s Cancel)
  end.

Inductive step : state -> state -> Prop :=
| step_label s l s' : do_step s l = Some s' -> step s s'.

(** [Invoke] when the scheduler was just made: the first task is about to be invoked. *)
Definition initial : state :=
  let c := mkContext 0 0 None in
  mkState 0 NewTaskQueue [] 0 true [] [] (Handling (InvokeTask false (timeoutPolicy opts c))) c None None.

Definition reachable (s : state) : Prop := rtc step initial s.

Definition run (s : state) (ls : list label) : option state :=
  foldl (fun o l => o ≫= fun s => do_step s l) (Some s) ls.

End controller.

(** ** Attempts are bounded *)

(** How many tasks a routine will still start. *)
Fixpoint adds (c : list instr) : nat :=
  match c with
  | [] => 0
  | IAdd _ _ :: c' => S (adds c')
  | _ :: c' => adds c'
  end.

Definition waiter_adds (s : state) : nat := match waiter s with Handling c => adds c | _ => 0 end.

Record attempts_inv (n : nat) (s : state) : Prop := {
  ai_procs : Forall (fun c => adds c = 0) (procs s);
  ai_retry : nextId s + waiter_adds s <= S (RetryNum (taskContext s));
  ai_bound : nextId s + waiter_adds s <= Nat.max 1 n
}.

Lemma exec_frame s i rest s' rest' : exec s i rest = Some (s', rest') ->
  procs s' = procs s /\ waiter s' = waiter s /\ taskContext s' = taskContext s /\
  (rest' = rest \/ rest' = []) /\ nextId s' + adds rest' <= nextId s + adds (i :: rest).
Proof.
  destruct i as [t| |sg|t| | |e t]; simpl; intros E; repeat case_match; simplify_eq/=;
    split_and!; auto; lia.
Qed.

Lemma callback_no_add t c : adds (callback_code t c) = 0.
Proof. by destruct c. Qed.

Lemma attempts_proc n s i c rest s' rest' : attempts_inv n s ->
  procs s !! i = Some (c :: rest) -> exec s c rest = Some (s', rest') ->
  attempts_inv n (set_procs s' (<[i:=rest']> (procs s))).
Proof.
  intros [Hp Hr Hb] Hi E. destruct (exec_frame _ _ _ _ _ E) as (H1 & H2 & H3 & H4 & H5).
  pose proof (Forall_lookup_1 _ _ _ _ Hp Hi) as Hc. simpl in Hc.
  assert (Hrest : adds rest = 0) by (destruct c; done). assert (Hcons : adds (c :: rest) = 0) by done.
  constructor; simpl.
  - apply Forall_insert; [done|]. by destruct H4 as [->| ->].
  - rewrite H3. unfold waiter_adds in *. simpl. rewrite H2. lia.
  - unfold waiter_adds in *. simpl. rewrite H2. lia.
Qed.

Lemma attempts_waiter n s c rest s' rest' : attempts_inv n s ->
  waiter s = Handling (c :: rest) -> exec s c rest = Some (s', rest') ->
  attempts_inv n (set_waiter s' (Handling rest')).
Proof.
  intros [Hp Hr Hb] Hw E. destruct (exec_frame _ _ _ _ _ E) as (H1 & H2 & H3 & H4 & H5).
  unfold waiter_adds in *. rewrite Hw in *.
  constructor; unfold waiter_adds; cbn [set_waiter procs nextId waiter taskContext]; rewrite ?H1, ?H3; (done || lia).
Qed.

Lemma attempts_signal n opts s sg c : attempts_inv n s ->
  (forall tc, retryPolicy opts tc = true -> RetryNum tc < n) ->
  waiter s = Waiting -> attempts_inv n (on_signal opts (set_chan s c) sg).
Proof.
  intros [Hp Hr Hb] Hpol Hw. unfold waiter_adds in *. rewrite Hw in *.
  assert (Hret : forall e, attempts_inv n (retry opts (set_chan s c) e)).
  { intros e. unfold retry. cbn [set_chan taskContext queue].
    destruct (retryPolicy opts _) eqn:E; constructor; unfold waiter_adds; simpl; try done; try lia.
    apply Hpol in E. simpl in E. lia. }
  destruct sg as [r|e|e| |]; simpl; auto; try (destruct e); constructor; unfold waiter_adds; simpl;
    rewrite ?Hw; (done || lia).
Qed.

Lemma attempts_spawn n s code : attempts_inv n s -> adds code = 0 -> attempts_inv n (spawn s code).
Proof.
  intros [Hp Hr Hb] Hc. constructor; [|done..]. simpl. apply Forall_app. split; [done|]. by constructor.
Qed.

Lemma attempts_step n opts s s' : (forall tc, retryPolicy opts tc = true -> RetryNum tc < n) ->
  attempts_inv n s -> step opts s s' -> attempts_inv n s'.
Proof.
  intros Hpol Hinv Hst. destruct Hst as [s0 l s1 E]. destruct l as [i| |t c|t| | |]; simpl in E.
  - destruct (procs s0 !! i) as [[|ins rest]|] eqn:Hi; try done.
    destruct (exec _ _ _) as [[s2 rest']|] eqn:He; simplify_eq. by eapply attempts_proc.
  - destruct (waiter s0) as [|[|ins rest]|] eqn:Hw; try done.
    + destruct (signalChan s0); simplify_eq. by apply attempts_signal.
    + simplify_eq. destruct Hinv as [Hp Hr Hb]. unfold waiter_adds in *. rewrite Hw in *.
      by constructor.
    + destruct (exec _ _ _) as [[s2 rest']|] eqn:He; simplify_eq. by eapply attempts_waiter.
  - case_match; simplify_eq. apply attempts_spawn; [done|apply callback_no_add].
  - destruct (timers s0 !! t) as [[? ?]|]; simplify_eq. apply attempts_spawn; [|done]. by destruct Hinv.
  - case_match; simplify_eq. apply attempts_spawn; [|done]. by destruct Hinv.
  - destruct (receiver s0), (finishChan s0); simplify_eq. by destruct Hinv.
  - simplify_eq. by apply attempts_spawn.
Qed.

Lemma attempts_initial n opts : attempts_inv n (initial opts).
Proof. constructor; unfold waiter_adds; simpl; [constructor|lia|lia]. Qed.

Lemma reachable_inv (P : state -> Prop) opts : P (initial opts) ->
  (forall s s', P s -> step opts s s' -> P s') -> forall s, reachable opts s -> P s.
Proof. apply rtc_invariant. Qed.

(** When the retry policy only accepts retry numbers below [n] (the fixed-count policies
    do), no interleaving of task callbacks, timeouts, cancellations and the deadline makes
    one [Invoke] start more than [max 1 n] tasks. *)
Lemma attempts_at_most (opts : Options) (n : nat) (s : state) :
  (forall tc, retryPolicy opts tc = true -> RetryNum tc < n) ->
  reachable opts s -> nextId s <= Nat.max 1 n.
Proof.
  intros Hpol Hr.
  assert (Hinv : attempts_inv n s)
    by (apply (reachable_inv _ opts); [apply attempts_initial|eauto using attempts_step|done]).
  destruct Hinv. lia.
Qed.

(** The retry policies of the two controllers of the repository. *)
Definition FixedRetryCountPolicy (retryTimes : nat) (tc : TaskContext) : bool := (RetryNum tc <? retryTimes)%nat.

Definition example_opts (n : nat) : Options :=
  mkOptions 10%Z (fun _ => 5%Z) (fun _ => 0%Z) (FixedRetryCountPolicy n) (fun _ => false) (fun _ => ErrRetryTimeout)
    ErrSchedulerCanceled.

Lemma run_reachable opts ls s s' : run opts s ls = Some s' -> rtc (step opts) s s'.
Proof.
  unfold run. revert s. induction ls as [|l ls IH]; intros s; simpl; [intros [= ->]; done|].
  destruct (do_step opts s l) as [s1|] eqn:E.
  - intros Hr%IH. eapply rtc_l; [by econstructor|done].
  - assert (Hnone : forall ls', foldl (fun o l => o ≫= fun s => do_step opts s l) None ls' = None)
      by (induction ls'; simpl; auto).
    by rewrite Hnone.
Qed.

(** Two attempts: the first task asks for a retry, the second one is started. *)
Definition example_trace : list label :=
  [LWaiter; LWaiter; LWaiter; LCallback 1 (CRetry (TaskError 7)); LProc 0; LProc 0; LWaiter; LWaiter;
   LWaiter; LWaiter; LProc 0].

(** ** Serial retries *)

(** A code is serial when each task it starts evicts the oldest one, or is the very first. *)
Fixpoint serial_code (fresh : bool) (c : list instr) : bool :=
  match c with
  | [] => true
  | IAdd evict _ :: c' => (evict || fresh) && serial_code false c'
  | _ :: c' => serial_code fresh c'
  end.

Record serial_inv (s : state) : Prop := {
  si_count : count_valid (taskQueue (queue s)) <= 1;
  si_procs : Forall (fun c => adds c = 0) (procs s);
  si_waiter : match waiter s with
              | Handling c => serial_code (bool_decide (taskQueue (queue s) = [])) c = true
              | _ => True end
}.

Lemma serial_code_mono b c : serial_code false c = true -> serial_code b c = true.
Proof.
  destruct b; [|done]. induction c as [|i c IH]; simpl; [done|]. destruct i; auto.
  intros [He Hc]%andb_true_iff. rewrite orb_true_r. done.
Qed.

Lemma adds_serial c b : adds c = 0 -> serial_code b c = true.
Proof. revert b; induction c as [|i c IH]; intros b; simpl; [done|]. destruct i; auto. done. Qed.

Lemma serial_code_weaken b b' c :
  (b = true -> b' = true) -> serial_code b c = true -> serial_code b' c = true.
Proof. destruct b, b'; auto using serial_code_mono. intros H. by specialize (H eq_refl). Qed.

(** Any action keeps at most one task valid, given that it may start one. *)
Lemma exec_serial s i rest s' rest' :
  count_valid (taskQueue (queue s)) <= 1 ->
  serial_code (bool_decide (taskQueue (queue s) = [])) (i :: rest) = true ->
  exec s i rest = Some (s', rest') ->
  count_valid (taskQueue (queue s')) <= 1 /\
  serial_code (bool_decide (taskQueue (queue s') = [])) rest' = true /\
  (adds (i :: rest) = 0 -> taskQueue (queue s) = [] -> taskQueue (queue s') = []) /\
  procs s' = procs s /\ waiter s' = waiter s.
Proof.
  intros Hc Hs E. destruct i as [t| |sg|t| | |e t]; simpl in E.
  - injection E as <- <-. simpl in Hs. by destruct (IsTaskValid _ _).
  - injection E as <- <-. simpl in Hs. by destruct (IsQueueClosed _).
  - destruct (signalChan s); by simplify_eq.
  - injection E as <- <-. pose proof (RemoveTask_count (queue s) t).
    simpl in *. split_and!; [lia| |intros _ ->; done|done..].
    revert Hs. apply serial_code_weaken. intros Hb%bool_decide_eq_true. rewrite Hb. done.
  - injection E as <- <-. simpl in *. split_and!; [lia| |done..].
    revert Hs. by apply serial_code_weaken.
  - destruct (finishChan s); by simplify_eq.
  - pose proof (AddTask_count (queue s) (S (nextId s)) e) as Hadd.
    simpl in Hs. apply andb_true_iff in Hs as [He Hr].
    assert (Hst : queue s' = (AddTask (queue s) (S (nextId s)) e).1 /\ procs s' = procs s /\
      waiter s' = waiter s /\ rest' = rest) by (destruct t; by simplify_eq/=).
    destruct Hst as (-> & -> & -> & ->). rewrite Hadd. split_and!; [|by apply serial_code_mono|done..].
    destruct e; [lia|]. simpl in He. apply bool_decide_eq_true in He. rewrite He. simpl. lia.
Qed.

Lemma serial_spawn s code : serial_inv s -> adds code = 0 -> serial_inv (spawn s code).
Proof.
  intros [Hc Hp Hw] Ha. constructor; [done| |done]. simpl. apply Forall_app. split; [done|]. by constructor.
Qed.

Lemma serial_signal opts s sg c : (forall tc, concurrencyPolicy opts tc = false) ->
  serial_inv s -> waiter s = Waiting -> serial_inv (on_signal opts (set_chan s c) sg).
Proof.
  intros Hpol [Hc Hp Hwi] Hw.
  assert (Hret : forall e, serial_inv (retry opts (set_chan s c) e)).
  { intros e. unfold retry. cbn [set_chan taskContext queue].
    destruct (retryPolicy opts _); constructor; simpl; rewrite ?Hpol; done. }
  destruct sg as [r|e|e| |]; simpl; auto; try (destruct e); constructor; simpl; by rewrite ?Hw.
Qed.

Lemma serial_step opts s s' : (forall tc, concurrencyPolicy opts tc = false) ->
  serial_inv s -> step opts s s' -> serial_inv s'.
Proof.
  intros Hpol Hinv Hst. destruct Hst as [s0 l s1 E]. destruct l as [i| |t c|t| | |]; simpl in E.
  - destruct (procs s0 !! i) as [[|ins rest]|] eqn:Hi; try done.
    destruct (exec _ _ _) as [[s2 rest']|] eqn:He; simplify_eq. destruct Hinv as [Hc Hp Hw].
    pose proof (Forall_lookup_1 _ _ _ _ Hp Hi) as Ha. cbn beta in Ha.
    destruct (exec_frame _ _ _ _ _ He) as (_ & _ & _ & Hrest & _).
    destruct (exec_serial _ _ _ _ _ Hc (adds_serial _ _ Ha) He) as (H1 & H2 & H3 & H4 & H5).
    constructor; simpl; [done| |].
    + apply Forall_insert; [done|]. destruct Hrest as [->| ->]; [by destruct ins|done].
    + rewrite H5. destruct (waiter s0); try done. revert Hw. apply serial_code_weaken.
      intros Hb%bool_decide_eq_true. apply bool_decide_eq_true. auto.
  - destruct (waiter s0) as [|[|ins rest]|] eqn:Hw; try done.
    + destruct (signalChan s0); simplify_eq. by apply serial_signal.
    + simplify_eq. by destruct Hinv.
    + destruct (exec _ _ _) as [[s2 rest']|] eqn:He; simplify_eq.
      destruct Hinv as [Hc Hp Hwi]. rewrite Hw in Hwi.
      destruct (exec_serial _ _ _ _ _ Hc Hwi He) as (H1 & H2 & H3 & H4 & H5).
      constructor; simpl; [done|by rewrite H4|done].
  - case_match; simplify_eq. apply serial_spawn; [done|apply callback_no_add].
  - destruct (timers s0 !! t) as [[? ?]|]; simplify_eq. apply serial_spawn; [|done]. by destruct Hinv.
  - case_match; simplify_eq. apply serial_spawn; [|done]. by destruct Hinv.
  - destruct (receiver s0), (finishChan s0); simplify_eq. by destruct Hinv.
  - simplify_eq. by apply serial_spawn.
Qed.

(** When the concurrency policy never allows overlap, at most one task is valid at any
    moment of any interleaving: a retry always invalidates the task it replaces. *)
Lemma at_most_one_valid (opts : Options) (s : state) :
  (forall tc, concurrencyPolicy opts tc = false) -> reachable opts s -> TaskCount (queue s) <= 1.
Proof.
  intros Hpol Hr.
  assert (Hinv : serial_inv s).
  { apply (reachable_inv _ opts); [|eauto using serial_step|done].
    constructor; simpl; [lia|constructor|done]. }
  destruct Hinv as [Hc _ _]. unfold TaskCount. destruct (closed _); [lia|done].
Qed.

(** ** Returning *)

(** A routine sends the quit signal only after it closed the queue. *)
Fixpoint quit_ok (cl : bool) (c : list instr) : bool :=
  match c with
  | [] => true
  | IClose :: c' => quit_ok true c'
  | ISend SignalQuit :: c' => cl && quit_ok cl c'
  | _ :: c' => quit_ok cl c'
  end.

Record quit_inv (s : state) : Prop := {
  qi_procs : Forall (fun c => quit_ok (closed (queue s)) c = true) (procs s);
  qi_chan : SignalQuit ∈ signalChan s -> closed (queue s) = true;
  qi_waiter : match waiter s with
              | Waiting => True
              | Handling c => quit_ok (closed (queue s)) c = true
              | Returned => closed (queue s) = true
              end
}.

Lemma quit_ok_mono cl cl' c : (cl = true -> cl' = true) -> quit_ok cl c = true -> quit_ok cl' c = true.
Proof.
  intros Hcl. revert cl cl' Hcl. induction c as [|i c IH]; intros cl cl' Hcl; simpl; [done|].
  destruct i as [t| |sg|t| | |e t]; eauto. destruct sg; eauto.
  intros [-> Hq]%andb_true_iff. rewrite Hcl by done. eauto.
Qed.

Lemma exec_quit s i rest s' rest' :
  (SignalQuit ∈ signalChan s -> closed (queue s) = true) ->
  quit_ok (closed (queue s)) (i :: rest) = true -> exec s i rest = Some (s', rest') ->
  quit_ok (closed (queue s')) rest' = true /\
  (SignalQuit ∈ signalChan s' -> closed (queue s') = true) /\
  (closed (queue s) = true -> closed (queue s') = true) /\ waiter s' = waiter s.
Proof.
  intros Hch Hq E. destruct i as [t| |sg|t| | |e t]; simpl in E, Hq.
  - injection E as <- <-. by destruct (IsTaskValid _ _).
  - injection E as <- <-. by destruct (IsQueueClosed _).
  - destruct (signalChan s); simplify_eq/=. destruct sg; split_and!; try done;
      try (intros ?%list_elem_of_singleton; done).
    + by apply andb_true_iff in Hq as [_ Hq].
    + by apply andb_true_iff in Hq as [Hq _].
  - by simplify_eq/=.
  - by simplify_eq/=.
  - destruct (finishChan s); by simplify_eq/=.
  - pose proof (AddTask_closed (queue s) (S (nextId s)) e) as Hadd.
    destruct t; simplify_eq/=; by rewrite Hadd.
Qed.

Lemma quit_spawn s code : quit_inv s -> quit_ok false code = true -> quit_inv (spawn s code).
Proof.
  intros [Hp Hc Hw] Hq. constructor; [|done..]. simpl. apply Forall_app. split; [done|].
  constructor; [|done]. revert Hq. by apply quit_ok_mono.
Qed.

Lemma quit_signal opts s sg c : signalChan s = sg :: c -> quit_inv s ->
  waiter s = Waiting -> quit_inv (on_signal opts (set_chan s c) sg).
Proof.
  intros Hch [Hp Hc Hwi] Hw. rewrite Hch in Hc.
  assert (Hc' : SignalQuit ∈ c -> closed (queue s) = true) by set_solver.
  assert (Hret : forall e, quit_inv (retry opts (set_chan s c) e)).
  { intros e. unfold retry. cbn [set_chan taskContext queue].
    destruct (retryPolicy opts _); by constructor. }
  destruct sg as [r|e|e| |]; simpl; auto; try (destruct e); constructor; simpl; rewrite ?Hw; auto.
  apply Hc. set_solver.
Qed.

Lemma quit_step opts s s' : quit_inv s -> step opts s s' -> quit_inv s'.
Proof.
  intros Hinv Hst. destruct Hst as [s0 l s1 E]. destruct l as [i| |t c|t| | |]; simpl in E.
  - destruct (procs s0 !! i) as [[|ins rest]|] eqn:Hi; try done.
    destruct (exec _ _ _) as [[s2 rest']|] eqn:He; simplify_eq. destruct Hinv as [Hp Hc Hw].
    pose proof (Forall_lookup_1 _ _ _ _ Hp Hi) as Ha. cbn beta in Ha.
    destruct (exec_quit _ _ _ _ _ Hc Ha He) as (H1 & H2 & H3 & H4).
    constructor; simpl; [|done|].
    + apply Forall_insert; [|done]. eapply Forall_impl; [done|]. intros x. by apply quit_ok_mono.
    + rewrite H4. destruct (waiter s0); [done| |auto]. revert Hw. by apply quit_ok_mono.
  - destruct (waiter s0) as [|[|ins rest]|] eqn:Hw; try done.
    + destruct (signalChan s0) eqn:Ech; simplify_eq. by apply quit_signal.
    + simplify_eq. by destruct Hinv.
    + destruct (exec _ _ _) as [[s2 rest']|] eqn:He; simplify_eq.
      destruct Hinv as [Hp Hc Hwi]. rewrite Hw in Hwi.
      destruct (exec_quit _ _ _ _ _ Hc Hwi He) as (H1 & H2 & H3 & H4).
      destruct (exec_frame _ _ _ _ _ He) as (H5 & _).
      constructor; simpl; [|done|done]. rewrite H5.
      eapply Forall_impl; [done|]. intros x. by apply quit_ok_mono.
  - case_match; simplify_eq. apply quit_spawn; [done|by destruct c].
  - destruct (timers s0 !! t) as [[? ?]|]; simplify_eq. apply quit_spawn; [|done]. by destruct Hinv.
  - case_match; simplify_eq. apply quit_spawn; [|done]. by destruct Hinv.
  - destruct (receiver s0), (finishChan s0); simplify_eq. by destruct Hinv.
  - simplify_eq. by apply quit_spawn.
Qed.

(** Nothing runs on after the return.  In any interleaving, when [Invoke] has
    returned, its queue is closed: no task is valid and no later callback or timeout of a
    task can send a signal. *)
Theorem returned_closed (opts : Options) (s : state) :
  reachable opts s -> waiter s = Returned ->
  IsQueueClosed (queue s) = true /\ TaskCount (queue s) = 0 /\
  forall t, IsTaskValid (queue s) t = false.
Proof.
  intros Hr Hw.
  assert (Hinv : quit_inv s).
  { apply (reachable_inv _ opts); [|eauto using quit_step|done].
    constructor; simpl; [constructor|by intros ?%elem_of_nil|done]. }
  destruct Hinv as [_ _ Hwi]. rewrite Hw in Hwi. unfold IsQueueClosed, TaskCount, IsTaskValid.
  by rewrite Hwi.
Qed.

(** The first task succeeds and the caller returns. *)
Definition success_trace : list label :=
  [LWaiter; LWaiter; LWaiter; LCallback 1 (CSuccess 42); LProc 0; LProc 0; LWaiter; LProc 0; LProc 0;
   LProc 0; LProc 0; LWaiter].

Lemma returned_closed_witness :
  exists s, run (example_opts 2) (initial (example_opts 2)) success_trace = Some s /\
    result s = Some 42 /\ IsQueueClosed (queue s) = true.
Proof.
  eexists. split; [vm_compute; reflexivity|]. split; [reflexivity|].
  apply (returned_closed (example_opts 2)); [|reflexivity].
  apply (run_reachable _ success_trace). vm_compute. reflexivity.
Defined.

(** ** A deadlock *)

(** The caller waits for room in the channel only it empties. *)
Definition stuck (s : state) : Prop :=
  (exists rest, waiter s = Handling (ISend SignalQuit :: rest)) /\ signalChan s <> [].

Lemma stuck_step opts s s' : stuck s -> step opts s s' -> stuck s'.
Proof.
  intros [[rest Hw] Hc] Hst. destruct Hst as [s0 l s1 E]. destruct l as [i| |t c|t| | |]; simpl in E.
  - destruct (procs s0 !! i) as [[|ins rest0]|]; try done.
    destruct (exec s0 ins rest0) as [[s2 rest']|] eqn:He; simplify_eq.
    destruct (exec_frame _ _ _ _ _ He) as (_ & H2 & _).
    assert (Hch : signalChan s2 <> []).
    { destruct ins as [t| |sg|t| | |e t]; simpl in He; repeat case_match; simplify_eq/=; done. }
    split; [exists rest; simpl; by rewrite H2|done].
  - rewrite Hw in E. simpl in E. by destruct (signalChan s0).
  - case_match; simplify_eq. split; [by exists rest|done].
  - destruct (timers s0 !! t) as [[? ?]|]; simplify_eq. split; [by exists rest|done].
  - case_match; simplify_eq. split; [by exists rest|done].
  - destruct (receiver s0), (finishChan s0); simplify_eq. split; [by exists rest|done].
  - simplify_eq. split; [by exists rest|done].
Qed.

(** The task asks for a retry that the policy refuses while another goroutine cancels. *)
Definition deadlock_trace : list label :=
  [LWaiter; LWaiter; LWaiter; LCallback 1 (CRetry (TaskError 7)); LProc 0; LProc 0; LWaiter; LCancel;
   LProc 1; LWaiter; LWaiter; LWaiter; LProc 1].

(** [Invoke] can block for ever.  With a policy that allows a single attempt there is
    an interleaving in which the caller, refusing the retry, finishes the scheduler itself
    and then waits to send the quit signal into the channel it alone would empty, because a
    concurrent [CancelTask] filled it first; from there on no continuation of the
    program ever lets [Invoke] return. *)
Theorem invoke_can_deadlock :
  exists s, reachable (example_opts 1) s /\
    forall s', rtc (step (example_opts 1)) s s' -> waiter s' <> Returned.
Proof.
  eexists. split.
  - apply (run_reachable _ deadlock_trace). vm_compute. reflexivity.
  - intros s' Hr.
    assert (Hs : stuck s').
    { assert (Hrtc : forall a b, rtc (step (example_opts 1)) a b -> stuck a -> stuck b)
        by (induction 1; eauto using stuck_step).
      eapply Hrtc; [done|]. split; [by eexists|done]. }
    destruct Hs as [[rest Hw] _]. by rewrite Hw.
Qed.

End Scheduler.
