(* ===== verification/RetryController.v ===== *)
(** * Building and using retry controllers ([internal/retry/]).

    [Controller]: the options and policies of [internal/retry], the checks of
    [NewRetryController], the two ready-made controllers and the map of running tasks.
    [Sequential]: what one [Invoke] does when its attempts answer one after the other, as a
    schedule of the machine of [Scheduler]. *)

From S2P Require Import Prelude GoInt TaskQueue Scheduler.

Open Scope string_scope.
Open Scope list_scope.

Module Controller.
Import TaskQueue Scheduler.

Definition TimePolicy := TaskContext -> Z.
Definition BooleanPolicy := TaskContext -> bool.

(** [Options] while the option functions fill it in: a policy may still be nil. *)
Record Options := mkOpts {
  timeLimit : Z;
  timeoutPolicy : option TimePolicy;
  intervalPolicy : option TimePolicy;
  retryPolicy : option BooleanPolicy;
  concurrencyPolicy : option BooleanPolicy;
  timeoutErrGenerator : Z -> Error;
  cancelError : Error
}.

Definition WithTimeLimit (l : Z) (o : Options) : Options :=
  mkOpts l (timeoutPolicy o) (intervalPolicy o) (retryPolicy o) (concurrencyPolicy o) (timeoutErrGenerator o) (cancelError o).
Definition WithTimeoutPolicy (p : TimePolicy) (o : Options) : Options :=
  mkOpts (timeLimit o) (Some p) (intervalPolicy o) (retryPolicy o) (concurrencyPolicy o) (timeoutErrGenerator o) (cancelError o).
Definition WithRetryIntervalPolicy (p : TimePolicy) (o : Options) : Options :=
  mkOpts (timeLimit o) (timeoutPolicy o) (Some p) (retryPolicy o) (concurrencyPolicy o) (timeoutErrGenerator o) (cancelError o).
Definition WithRetryPolicy (p : BooleanPolicy) (o : Options) : Options :=
  mkOpts (timeLimit o) (timeoutPolicy o) (intervalPolicy o) (Some p) (concurrencyPolicy o) (timeoutErrGenerator o) (cancelError o).
Definition WithConcurrencyPolicy (p : BooleanPolicy) (o : Options) : Options :=
  mkOpts (timeLimit o) (timeoutPolicy o) (intervalPolicy o) (retryPolicy o) (Some p) (timeoutErrGenerator o) (cancelError o).
Definition WithTimeoutError (g : Z -> Error) (o : Options) : Options :=
  mkOpts (timeLimit o) (timeoutPolicy o) (intervalPolicy o) (retryPolicy o) (concurrencyPolicy o) g (cancelError o).
Definition WithCancelError (e : Error) (o : Options) : Options :=
  mkOpts (timeLimit o) (timeoutPolicy o) (intervalPolicy o) (retryPolicy o) (concurrencyPolicy o) (timeoutErrGenerator o) e.

(** A controller, or the message of the panic. *)
Definition NewRetryController (optFuncs : list (Options -> Options)) : string + Scheduler.Options :=
  let o := foldl (fun o f => f o)
             (mkOpts 0 None None None None (fun _ => ErrRetryTimeout) ErrSchedulerCanceled) optFuncs in
  match timeoutPolicy o, intervalPolicy o, retryPolicy o, concurrencyPolicy o with
  | None, _, _, _ => inl "No timeout policy specified."
  | _, None, _, _ => inl "No interval policy specified."
  | _, _, None, _ => inl "No retry policy specified."
  | _, _, _, None => inl "No concurrency policy specified."
  | Some t, Some i, Some r, Some c =>
      inr (mkOptions (timeLimit o) t i r c (timeoutErrGenerator o) (cancelError o))
  end.

Definition FixedTimeoutPolicy (timeout : Z) : TimePolicy := fun _ => timeout.
Definition FixedRetryIntervalPolicy (interval : Z) : TimePolicy :=
  fun tc => if (RetryNum tc =? 0)%nat then 0%Z else interval.
Definition AlwaysConcurrencyPolicy : BooleanPolicy := fun _ => true.
Definition NeverConcurrencyPolicy : BooleanPolicy := fun _ => false.

(** The timeout that spreads the limit over the attempts; dividing by zero panics. *)
Definition simpleTimeOut (retryTimes : nat) (retryInterval timeLimit : Z) : option Z :=
  q ← quot64 (add64 timeLimit retryInterval) (wrapS 64 (Z.of_nat retryTimes)); Some (sub64 q retryInterval).

Definition SimpleRetryController (concurrency : BooleanPolicy) (retryTimes : nat) (retryInterval timeLimit : Z)
  : string + Scheduler.Options :=
  match simpleTimeOut retryTimes retryInterval timeLimit with
  | None => inl "integer divide by zero"
  | Some timeOut =>
      NewRetryController [WithTimeLimit timeLimit; WithTimeoutPolicy (FixedTimeoutPolicy timeOut);
        WithRetryIntervalPolicy (FixedRetryIntervalPolicy retryInterval);
        WithRetryPolicy (FixedRetryCountPolicy retryTimes); WithConcurrencyPolicy concurrency]
  end.
Definition ConcurrencySimpleRetryController := SimpleRetryController AlwaysConcurrencyPolicy.
Definition SerializationSimpleRetryController := SimpleRetryController NeverConcurrencyPolicy.

(** ** The map of running tasks *)

(** Schedulers are numbered in the order of their making. *)
Record RetryController := mkRC { taskMap : gmap string nat; made : nat }.

Inductive enter_result := ErrDuplicateId | Running (scheduler : nat).

(** The start of [Invoke], under its lock, and its deferred end. *)
Definition Invoke_enter (c : RetryController) (taskId : string) : enter_result * RetryController :=
  if bool_decide (taskId = "") then (Running (made c), mkRC (taskMap c) (S (made c)))
  else match taskMap c !! taskId with
       | Some _ => (ErrDuplicateId, c)
       | None => (Running (made c), mkRC (<[taskId := made c]> (taskMap c)) (S (made c)))
       end.
Definition Invoke_exit (c : RetryController) (taskId : string) : RetryController :=
  if bool_decide (taskId = "") then c else mkRC (delete taskId (taskMap c)) (made c).
Definition HasTask (c : RetryController) (id : string) : bool := bool_decide (is_Some (taskMap c !! id)).
(** The scheduler that [CancelTask] cancels. *)
Definition CancelTask (c : RetryController) (id : string) : option nat := taskMap c !! id.

(** The calls of [Invoke] that are under way. *)
Record running := mkRunning { controller : RetryController; active : list (string * nat) }.

Inductive rc_step : running -> running -> Prop :=
| rc_enter c a i k c' : Invoke_enter c i = (Running k, c') -> rc_step (mkRunning c a) (mkRunning c' ((i, k) :: a))
| rc_refused c a i c' : Invoke_enter c i = (ErrDuplicateId, c') -> rc_step (mkRunning c a) (mkRunning c' a)
| rc_exit c a1 i k a2 :
    rc_step (mkRunning c (a1 ++ (i, k) :: a2)) (mkRunning (Invoke_exit c i) (a1 ++ a2)).

Definition rc_initial : running := mkRunning (mkRC ∅ 0) [].

(** Named calls: those with a task identifier. *)
Definition named (a : list (string * nat)) : list (string * nat) := filter (fun p => p.1 <> "") a.

Record rc_inv (s : running) : Prop := {
  rc_nodup : NoDup (named (active s)).*1;
  rc_map : forall i k, taskMap (controller s) !! i = Some k <-> (i, k) ∈ named (active s)
}.

Lemma named_cons i k a : named ((i, k) :: a) = if bool_decide (i = "") then named a else (i, k) :: named a.
Proof.
  unfold named. rewrite filter_cons. simpl. case_bd (i = "") as H.
  - by rewrite decide_False by auto.
  - by rewrite decide_True.
Qed.

Lemma rc_step_inv s s' : rc_inv s -> rc_step s s' -> rc_inv s'.
Proof.
  intros [Hn Hm] Hst. destruct Hst as [c a i k c' E|c a i c' E|c a1 i k a2]; simpl in *.
  - unfold Invoke_enter in E. case_bool_decide as Hi; [|destruct (taskMap c !! i) eqn:El]; simplify_eq.
    + subst. split; simpl; rewrite named_cons, bool_decide_eq_true_2 by done; done.
    + split; simpl; rewrite named_cons, bool_decide_eq_false_2 by done.
      * simpl. constructor; [|done]. intros ([i' k] & -> & Hin)%list_elem_of_fmap.
        apply Hm in Hin. simpl in El. congruence.
      * intros i' k. rewrite lookup_insert_case, elem_of_cons. case_decide as Hc.
        -- subst. split; [intros [= ->]; by left|intros [[= ->]|H%Hm]; congruence].
        -- rewrite Hm. split; [by right|intros [[= -> ->]|H]; [done|done]].
  - unfold Invoke_enter in E. case_bool_decide; [done|]. destruct (taskMap c !! i); by simplify_eq.
  - assert (Hsplit : named (a1 ++ (i, k) :: a2) = named a1 ++ named ((i, k) :: a2)) by apply filter_app.
    assert (Hsplit' : named (a1 ++ a2) = named a1 ++ named a2) by apply filter_app.
    rewrite named_cons in Hsplit. unfold Invoke_exit.
    destruct (decide (i = "")) as [Hi|Hi];
      [rewrite bool_decide_eq_true_2 in Hsplit |- * by done
      |rewrite bool_decide_eq_false_2 in Hsplit |- * by done]; simpl in *.
    + split; simpl; rewrite ?Hsplit'; [by rewrite <- Hsplit|]. intros i' k'. by rewrite Hm, Hsplit.
    + rewrite Hsplit in Hn, Hm. rewrite fmap_app, fmap_cons in Hn. simpl in Hn.
      apply NoDup_app in Hn as (H1 & H2 & H3). apply NoDup_cons in H3 as [H3 H4].
      split; simpl; rewrite Hsplit'.
      * rewrite fmap_app. apply NoDup_app. split_and!; [done| |done]. intros x Hx Hx2.
        apply (H2 x Hx). by right.
      * intros i' k'. rewrite lookup_delete_case, elem_of_app. case_decide as Hc.
        -- subst i'. split; [done|]. intros [Hin|Hin].
           ++ destruct (H2 i); [apply (list_elem_of_fmap_2 fst) in Hin; done|left].
           ++ destruct H3. by apply (list_elem_of_fmap_2 fst) in Hin.
        -- rewrite Hm, elem_of_app, elem_of_cons. naive_solver.
Qed.

(** One call per task identifier.  Whatever calls of [Invoke] start and end, no two
    calls with the same non-empty identifier run at once, the map of the controller holds
    exactly the named calls under way, so that [HasTask] tells whether one is running and
    [CancelTask] reaches its scheduler; a second call is refused without disturbing the
    first. *)
Theorem one_call_per_task_id (s : running) :
  rtc rc_step rc_initial s ->
  NoDup (named (active s)).*1 /\
  (forall i k, CancelTask (controller s) i = Some k <-> i <> "" /\ (i, k) ∈ active s) /\
  (forall i, HasTask (controller s) i = true <-> i <> "" /\ exists k, (i, k) ∈ active s).
Proof.
  intros Hr. assert (Hinv : rc_inv s).
  { apply (rtc_invariant rc_step _ rc_initial); [|apply rc_step_inv|done]. split; simpl; [constructor|].
    intros i k. rewrite lookup_empty. split; [done|by intros ?%elem_of_nil]. }
  destruct Hinv as [Hn Hm]. unfold named in Hm. setoid_rewrite list_elem_of_filter in Hm.
  split_and!; [done|exact Hm|]. intros i. unfold HasTask. rewrite bool_decide_eq_true. unfold is_Some.
  setoid_rewrite Hm. naive_solver.
Qed.

Lemma one_call_per_task_id_witness :
  let s := mkRunning (mkRC {["job" := 0]} 2) [("", 1); ("job", 0)] in
  rtc rc_step rc_initial s /\ HasTask (controller s) "job" = true.
Proof.
  assert (Hr : rtc rc_step rc_initial (mkRunning (mkRC {["job" := 0]} 2) [("", 1); ("job", 0)])).
  { eapply rtc_l; [by apply (rc_enter _ _ "job" 0)|].
    eapply rtc_l; [by apply (rc_refused _ _ "job")|].
    eapply rtc_l; [by apply (rc_enter _ _ "" 1)|]. apply rtc_refl. }
  split; [exact Hr|]. apply (one_call_per_task_id _ Hr). split; [done|]. exists 0. by right; left.
Defined.

(** the ready-made controllers spend their limit.  For at least one attempt and
    durations whose sum does not overflow, both controllers are built without a panic, and
    [n] attempts of the timeout they compute with the interval between two attempts use up
    the time limit to less than [n] nanoseconds; zero attempts panic. *)
Theorem simple_controller_budget (concurrency : BooleanPolicy) (n : nat) (interval limit : Z) :
  (0 <= interval)%Z -> (0 <= limit)%Z -> (limit + interval < 2 ^ 63)%Z -> (Z.of_nat n < 2 ^ 63)%Z ->
  if (n =? 0)%nat then SimpleRetryController concurrency n interval limit = inl "integer divide by zero"
  else exists o timeOut, SimpleRetryController concurrency n interval limit = inr o /\
    (forall tc, Scheduler.timeoutPolicy o tc = timeOut) /\ Scheduler.timeLimit o = limit /\
    (forall tc, Scheduler.intervalPolicy o tc = if (RetryNum tc =? 0)%nat then 0%Z else interval) /\
    (0 <= limit - (Z.of_nat n * timeOut + (Z.of_nat n - 1) * interval) < Z.of_nat n)%Z.
Proof.
  intros Hi Hl Hs Hn. unfold SimpleRetryController, simpleTimeOut, quot64, add64, sub64.
  rewrite (wrapS_id 64 (Z.of_nat n)), (wrapS_id 64 (limit + interval)) by (unfold inS; lia).
  destruct (Nat.eqb_spec n 0) as [->|Hn0]; [done|].
  destruct (Z.eqb_spec (Z.of_nat n) 0) as [|_]; [lia|].
  pose proof (Z.quot_rem' (limit + interval) (Z.of_nat n)) as Hq.
  pose proof (Z.rem_bound_pos (limit + interval) (Z.of_nat n) ltac:(lia) ltac:(lia)) as Hr.
  pose proof (Z.quot_pos (limit + interval) (Z.of_nat n) ltac:(lia) ltac:(lia)) as Hp.
  set (q := Z.quot (limit + interval) (Z.of_nat n)) in *.
  assert (Hqb : (q <= limit + interval)%Z) by nia.
  simpl mbind. rewrite (wrapS_id 64 q) by (unfold inS; lia).
  rewrite (wrapS_id 64 (q - interval)) by (unfold inS; lia).
  eexists _, (q - interval)%Z. split_and!; [reflexivity|done|done|done| |]; nia.
Qed.

Lemma simple_controller_budget_witness :
  exists o timeOut, SimpleRetryController NeverConcurrencyPolicy 3 100 1000 = inr o /\
    Scheduler.timeoutPolicy o (mkContext 0 0 None) = timeOut /\ timeOut = 266%Z.
Proof.
  destruct (simple_controller_budget NeverConcurrencyPolicy 3 100 1000) as (o & t & Ho & Ht & _ & _ & Hb);
    [lia..|].
  exists o, t. split_and!; [exact Ho|apply Ht|]. lia.
Defined.

End Controller.

Module Sequential.
Import TaskQueue Scheduler.

Section sequential.
Context (opts : Options) (pol : nat -> bool) (out : nat -> callback).
Context (Hpol : forall tc, retryPolicy opts tc = pol (RetryNum tc)).

(** What one [Invoke] comes to when attempt [k] calls back with [out k] and nothing else
    happens: the number of attempts, the result and the error.  The fuel bounds the
    attempts. *)
Fixpoint outcome (fuel k : nat) : option (nat * option nat * option Error) :=
  match out k with
  | CSuccess r => Some (S k, Some r, None)
  | CError e => Some (S k, None, Some (if decide (e = ErrSchedulerCanceled) then cancelError opts else e))
  | CRetry e =>
      if pol (S k) then match fuel with O => None | S fuel => outcome fuel (S k) end
      else Some (S k, None, Some e)
  end.

(** The schedule: the caller starts the attempt, the attempt calls back and does all it has
    to do, the caller handles the signal. *)
Definition start : list label := [LWaiter; LWaiter; LWaiter].
Definition attempt (k : nat) : list label :=
  start ++ LCallback (S k) (out k) ::
  match out k with
  | CRetry _ => [LProc k; LProc k; LProc k; LWaiter] ++
      if pol (S k) then [] else [LWaiter; LWaiter; LWaiter; LWaiter; LWaiter; LWaiter]
  | _ => [LProc k; LProc k; LWaiter; LProc k; LProc k; LProc k; LProc k; LWaiter]
  end.
Fixpoint schedule (fuel k : nat) : list label :=
  attempt k ++
  match out k, fuel with
  | CRetry _, S fuel => if pol (S k) then schedule fuel (S k) else []
  | _, _ => []
  end.

(** The caller is about to start attempt [k], all earlier ones being over. *)
Record ready (k : nat) (s : state) : Prop := {
  r_waiter : exists e t, waiter s = Handling (InvokeTask e t);
  r_chan : signalChan s = [];
  r_finish : finishChan s = 0;
  r_open : closed (queue s) = false;
  r_id : nextId s = k;
  r_retry : RetryNum (taskContext s) = k;
  r_procs : procs s = replicate k [];
  r_fresh : Forall (fun i => i <= k) (id <$> taskQueue (queue s));
  r_outcome : result s = None /\ err s = None
}.

Lemma run_app s ls ls' s' : run opts s ls = Some s' -> run opts s (ls ++ ls') = run opts s' ls'.
Proof. unfold run. intros H. by rewrite foldl_app, H. Qed.

(** The attempt is started and valid, the caller waits. *)
Record started (k : nat) (s : state) : Prop := {
  s_waiter : waiter s = Waiting;
  s_chan : signalChan s = [];
  s_finish : finishChan s = 0;
  s_open : closed (queue s) = false;
  s_valid : find_valid (taskQueue (queue s)) (S k) = true;
  s_id : nextId s = S k;
  s_retry : RetryNum (taskContext s) = k;
  s_procs : procs s = replicate k [];
  s_fresh : Forall (fun i => i <= S k) (id <$> taskQueue (queue s));
  s_outcome : result s = None /\ err s = None
}.

Lemma run_start k s : ready k s -> exists s', run opts s start = Some s' /\ started k s'.
Proof.
  intros [[e [t Hw]] Hc Hf Ho Hi Hr Hp Hfr [Hres He]].
  unfold run, start. simpl. rewrite Hw. simpl. unfold IsQueueClosed. rewrite Ho. simpl. rewrite Hi. simpl.
  eexists. split; [reflexivity|]. split; simpl; try done.
  - by rewrite AddTask_closed.
  - apply AddTask_find. intros Hin. rewrite Forall_forall in Hfr. apply Hfr in Hin. lia.
  - rewrite AddTask_ids. apply Forall_app. split; [|by repeat constructor].
    eapply Forall_impl; [exact Hfr|simpl; lia].
Qed.

Lemma run_cons s l ls s1 : do_step opts s l = Some s1 -> run opts s (l :: ls) = run opts s1 ls.
Proof. unfold run. simpl. by intros ->. Qed.

#[local] Arguments run : simpl never.
#[local] Arguments attempt : simpl never.

(** The routine of the last goroutine takes one action. *)
Lemma do_proc k nx q ch fc rc tm w tc res er ins rest s' rest' :
  let s := mkState nx q ch fc rc tm (replicate k [] ++ [ins :: rest]) w tc res er in
  exec s ins rest = Some (s', rest') ->
  do_step opts s (LProc k) = Some (set_procs s' (replicate k [] ++ [rest'])).
Proof.
  intros s E. unfold s. simpl.
  rewrite lookup_app_r, length_replicate, Nat.sub_diag by (rewrite length_replicate; lia). simpl.
  fold s. rewrite E. rewrite insert_app_r_alt by (rewrite length_replicate; lia).
  by rewrite length_replicate, Nat.sub_diag.
Qed.

(** The state of an attempt that asked for a retry, when the caller has handled it. *)
Lemma run_retry k s e : started k s -> out k = CRetry e -> exists s',
  run opts s (LCallback (S k) (out k) :: [LProc k; LProc k; LProc k; LWaiter]) = Some s' /\
  signalChan s' = [] /\ finishChan s' = 0 /\ closed (queue s') = false /\ nextId s' = S k /\
  RetryNum (taskContext s') = S k /\ procs s' = replicate (S k) [] /\
  Forall (fun i => i <= S k) (id <$> taskQueue (queue s')) /\ result s' = None /\
  if pol (S k) then (exists ev t, waiter s' = Handling (InvokeTask ev t)) /\ err s' = None
  else waiter s' = Handling Finish /\ err s' = Some e.
Proof.
  intros [Hw Hc Hf Ho Hv Hi Hr Hp Hfr [Hres He]] Hout. rewrite Hout.
  destruct s as [nx q ch fc rc tm ps w [rn cn le] res er]; simpl in *. subst.
  erewrite run_cons by (simpl; by rewrite Nat.leb_refl). cbn [spawn set_procs procs callback_code Retry].
  repeat (erewrite run_cons; [|apply do_proc; simpl; unfold IsTaskValid; rewrite ?Ho, ?Hv; reflexivity]; cbn).
  erewrite run_cons by reflexivity. eexists. split; [reflexivity|]. cbn. unfold retry. cbn. rewrite Hpol. cbn.
  destruct (pol (S k)); cbn; (split_and!; try done).
  all: try (rewrite <- replicate_S_end; done).
  all: try (pose proof (RemoveTask_ids q (S k)) as Hid; cbn in Hid; by rewrite Hid).
  by eexists _, _.
Qed.

Lemma run_finish k s e : waiter s = Handling Finish -> signalChan s = [] -> finishChan s = 0 ->
  closed (queue s) = false -> nextId s = S k -> result s = None -> err s = Some e -> exists s',
  run opts s [LWaiter; LWaiter; LWaiter; LWaiter; LWaiter; LWaiter] = Some s' /\
  waiter s' = Returned /\ nextId s' = S k /\ result s' = None /\ err s' = Some e.
Proof.
  intros Hw Hc Hf Ho Hi Hres He. destruct s as [nx q ch fc rc tm ps w tc res er]; simpl in *. subst.
  erewrite run_cons by (simpl; unfold IsQueueClosed; rewrite Ho; reflexivity).
  do 5 (erewrite run_cons by reflexivity). by eexists.
Qed.

(** An attempt that succeeded or failed for good: the caller returns. *)
Lemma run_final k s fuel : started k s -> (forall e, out k <> CRetry e) -> exists s',
  run opts s (LCallback (S k) (out k) ::
    [LProc k; LProc k; LWaiter; LProc k; LProc k; LProc k; LProc k; LWaiter]) = Some s' /\
  waiter s' = Returned /\ outcome fuel k = Some (nextId s', result s', err s').
Proof.
  intros [Hw Hc Hf Ho Hv Hi Hr Hp Hfr [Hres He]] Hne.
  destruct s as [nx q ch fc rc tm ps w [rn cn le] res er]; simpl in *. subst.
  erewrite run_cons by (simpl; by rewrite Nat.leb_refl). cbn [spawn set_procs procs].
  destruct (out k) as [r|e|e] eqn:Hout; [| |by destruct (Hne e)]; cbn [callback_code OnSuccess OnError app].
  all: do 2 (erewrite run_cons; [|apply do_proc; simpl; unfold IsTaskValid; rewrite ?Ho, ?Hv; reflexivity]; cbn).
  - erewrite run_cons by reflexivity. cbn.
    do 4 (erewrite run_cons; [|apply do_proc; simpl; unfold IsQueueClosed; rewrite ?Ho; reflexivity]; cbn).
    erewrite run_cons by reflexivity. eexists. split; [reflexivity|]. split; [done|].
    destruct fuel; simpl; by rewrite Hout.
  - erewrite run_cons by reflexivity.
    assert (Hsig : forall s, on_signal opts s (SignalError e) =
      set_outcome s (result s) (Some (if decide (e = ErrSchedulerCanceled) then cancelError opts else e)))
      by (intros s0; by destruct e).
    rewrite Hsig. cbn.
    do 4 (erewrite run_cons; [|apply do_proc; simpl; unfold IsQueueClosed; rewrite ?Ho; reflexivity]; cbn).
    erewrite run_cons by reflexivity. eexists. split; [reflexivity|]. split; [done|].
    destruct fuel; simpl; by rewrite Hout.
Qed.

(** Is there an attempt after attempt [k]? *)
Definition continues (k : nat) : bool := match out k with CRetry _ => pol (S k) | _ => false end.

(** One attempt either leads to the next one or to the return with the outcome. *)
Lemma run_attempt k s : ready k s -> exists s', run opts s (attempt k) = Some s' /\
  if continues k then ready (S k) s'
  else waiter s' = Returned /\ forall fuel, outcome fuel k = Some (nextId s', result s', err s').
Proof.
  intros Hr. destruct (run_start _ _ Hr) as (s1 & H1 & Hst). unfold attempt, continues.
  rewrite (run_app _ _ _ _ H1).
  destruct (out k) as [r|e|e] eqn:Hout; rewrite <- Hout.
  1,2: destruct (run_final k s1 0 Hst) as (s2 & H2 & Hw & Ho2); [by rewrite Hout|]; exists s2;
    split; [done|]; split; [done|]; intros fuel; rewrite <- Ho2; destruct fuel; simpl; by rewrite Hout.
  destruct (run_retry k s1 e Hst Hout) as (s2 & H2 & Hc & Hf & Ho & Hi & Hrn & Hp & Hfr & Hres & Hpo).
  rewrite app_comm_cons, (run_app _ _ _ _ H2). destruct (pol (S k)) eqn:Ep.
  - exists s2. split; [done|]. destruct Hpo. by split.
  - destruct Hpo as [Hw He]. destruct (run_finish k s2 e) as (s3 & H3 & Hw3 & Hi3 & Hr3 & He3); try done.
    exists s3. split; [done|]. split; [done|]. intros fuel.
    destruct fuel; simpl; by rewrite Hout, Ep, Hi3, Hr3, He3.
Qed.

Lemma run_schedule fuel k s o : ready k s -> outcome fuel k = Some o -> exists s',
  run opts s (schedule fuel k) = Some s' /\ waiter s' = Returned /\ o = (nextId s', result s', err s').
Proof.
  revert k s. induction fuel as [|fuel IH]; intros k s Hr Ho;
    destruct (run_attempt k s Hr) as (s1 & H1 & Hat); cbn [schedule]; rewrite (run_app _ _ _ _ H1);
    unfold continues in Hat; simpl in Ho;
    (destruct (out k) as [| |e] eqn:Hout; [| |destruct (pol (S k)) eqn:Hp]); try done; eauto;
    exists s1; destruct Hat as [Hw Hat]; specialize (Hat 0); simpl in Hat; rewrite Hout, ?Hp in Hat;
    (split; [reflexivity|split; [done|congruence]]).
Qed.

Lemma ready_initial : ready 0 (initial opts).
Proof. split; simpl; try done. by eexists _, _. Qed.

(** With the policy refusing retry number [n], [n] attempts are fuel enough. *)
Lemma outcome_some fuel k : pol (S (k + fuel)) = false -> is_Some (outcome fuel k).
Proof.
  revert k. induction fuel as [|fuel IH]; intros k Hp; simpl; (destruct (out k); [done|done|]).
  - rewrite Nat.add_0_r in Hp. by rewrite Hp.
  - destruct (pol (S k)); [|done]. apply IH. rewrite <- Hp. do 2 f_equal. lia.
Qed.

End sequential.

(** When every attempt asks for a retry, the last error the policy refuses is returned. *)
Lemma outcome_all_retry opts n out (e : nat -> Error) fuel k : (forall i, out i = CRetry (e i)) -> k + fuel = n ->
  outcome opts (fun i => i <=? n)%nat out fuel k = Some (S n, None, Some (e n)).
Proof.
  intros Hout. revert k. induction fuel as [|fuel IH]; intros k Hk; simpl; rewrite Hout.
  - rewrite Nat.add_0_r in Hk. subst. destruct n as [|n]; [done|].
    destruct (Nat.leb_spec (S n) n); [lia|done].
  - destruct n as [|n]; [lia|]. rewrite (proj2 (Nat.leb_le k n)) by lia. apply IH. lia.
Qed.

(** C10: the retry loop.  When the retry policy looks at the retry number only and
    refuses number [n + 1], and attempt [k] calls back with [out k], the interleaving in
    which each attempt is handled before the next one starts makes [Invoke] return, with
    the attempts made, the result and the error of the sequential loop [outcome]: the first
    attempt that succeeds or fails for good decides, retries happen in between, and a
    refused retry returns its own error. *)
Theorem invoke_runs_retry_loop (opts : Options) (pol : nat -> bool) (out : nat -> callback) (n : nat) :
  (forall tc, retryPolicy opts tc = pol (RetryNum tc)) -> pol (S n) = false ->
  exists s, reachable opts s /\ run opts (initial opts) (schedule pol out n 0) = Some s /\ waiter s = Returned /\
    outcome opts pol out n 0 = Some (nextId s, result s, err s).
Proof.
  intros Hpol Hn. destruct (outcome_some opts pol out n 0 Hn) as [o Ho].
  destruct (run_schedule opts pol out Hpol n 0 (initial opts) o (ready_initial opts) Ho) as (s & Hr & Hw & ->).
  exists s. split; [by apply (run_reachable _ (schedule pol out n 0))|]. done.
Qed.

Lemma invoke_runs_retry_loop_witness :
  exists s, reachable (example_opts 3) s /\ waiter s = Returned /\ nextId s = 2 /\ result s = Some 42.
Proof.
  destruct (invoke_runs_retry_loop (example_opts 3) (fun n => n <? 3)%nat
    (fun k => if (k =? 1)%nat then CSuccess 42 else CRetry (TaskError k)) 2) as (s & Hr & _ & Hw & Ho);
    [done|done|].
  exists s. split; [exact Hr|]. split; [exact Hw|]. vm_compute in Ho. by simplify_eq.
Defined.

End Sequential.
