(* ===== verification/Control.v ===== *)
(** * Control policies and their caches ([control/], and the managers of [retry/],
    [rate_limit/] and [circuit_breaker/]).

    [Control]: the policies and the wrapper that fills in their defaults.
    [PolicyCache]: the managers keep one wrapper per method name, made from the policy of
    the first request and updated when a request comes with another policy.  The three
    managers share their text, so they share the model: the class [CachedPolicy] states what
    a policy has to offer, and the theorems about the cache are proved against it. *)

From Stdlib Require Import SpecFloat.
From stdpp Require Import sorting.
From S2P Require Import Prelude GoInt.

Open Scope string_scope.
Open Scope list_scope.

(** A [float64]. *)
Notation float64 := spec_float.

Module Control.

Record Policy := mkPolicy { Enabled : bool; Version : Z }.

Record RetryPolicy := mkRetryPolicy {
  RPolicy : Policy; NumOfRetries : nat; PerTryTimeout : Z; RetriableStatusCodes : list Z; Overlap : bool;
  BackoffDuration : Z; BackoffJitter : float64; BackoffExponential : bool
}.
Record TimeoutPolicy := mkTimeoutPolicy { TPolicy : Policy; Timeout : Z }.
Record ClientTimeoutPolicy := mkClientTimeoutPolicy { CTTimeout : TimeoutPolicy; ConnTimeout : Z }.
Record CircuitBreakerPolicy := mkCircuitBreakerPolicy {
  CPolicy : Policy; CTimeout : Z; MaxConcurrentRequests : Z; RequestVolumeThreshold : Z; SleepWindow : Z;
  ErrorPercentThreshold : Z; FailureStatusCode : list Z; RollingDurationInSec : Z
}.
Record RateLimitPolicy := mkRateLimitPolicy {
  LPolicy : Policy; MaxRequestPerUnit : Z; MaxSendMsgPerUnit : Z; MaxRecvMsgPerUnit : Z; Unit_ : Z
}.

(** The zero values. *)
Definition zeroPolicy : Policy := mkPolicy false 0.
Definition zeroRetryPolicy : RetryPolicy := mkRetryPolicy zeroPolicy 0 0 [] false 0 (S754_zero false) false.
Definition zeroTimeoutPolicy : TimeoutPolicy := mkTimeoutPolicy zeroPolicy 0.
Definition zeroClientTimeoutPolicy : ClientTimeoutPolicy := mkClientTimeoutPolicy zeroTimeoutPolicy 0.
Definition zeroCircuitBreakerPolicy : CircuitBreakerPolicy := mkCircuitBreakerPolicy zeroPolicy 0 0 0 0 0 [] 0.
Definition zeroRateLimitPolicy : RateLimitPolicy := mkRateLimitPolicy zeroPolicy 0 0 0 0.

(** What a plugin offers; a policy may be nil. *)
Record ClientControlPlane := mkClientPlane {
  cp_TimeoutPolicy : string -> string -> option ClientTimeoutPolicy;
  cp_RetryPolicy : string -> string -> option RetryPolicy
}.
Record ServerControlPlane := mkServerPlane {
  sp_TimeoutPolicy : string -> string -> option TimeoutPolicy;
  sp_CircuitBreakerPolicy : string -> string -> option CircuitBreakerPolicy;
  sp_RateLimitPolicy : string -> string -> option RateLimitPolicy
}.
Record Factory := mkFactory {
  f_Client : string -> string + option ClientControlPlane;
  f_Server : string -> string + option ServerControlPlane
}.

(** [wrapper]: a nil factory finds no plane. *)
Definition wrapper_ClientControlPlane (f : option Factory) (service : string) : string + option ClientControlPlane :=
  match f with
  | None => inl ("no client control plane of " +:+ service +:+ " found")
  | Some f => f_Client f service
  end.
Definition wrapper_ServerControlPlane (f : option Factory) (service : string) : string + option ServerControlPlane :=
  match f with
  | None => inl ("no server control plane of " +:+ service +:+ " found")
  | Some f => f_Server f service
  end.

Definition client_TimeoutPolicy (cp : option ClientControlPlane) (s m : string) : ClientTimeoutPolicy :=
  match cp with
  | None => zeroClientTimeoutPolicy
  | Some cp => match cp_TimeoutPolicy cp s m with None => zeroClientTimeoutPolicy | Some p => p end
  end.

(** The codes of [google.golang.org/grpc/codes] that the defaults name. *)
Definition Unknown : Z := 2.
Definition DeadlineExceeded : Z := 4.
Definition ResourceExhausted : Z := 8.
Definition Internal : Z := 13.
Definition Unavailable : Z := 14.

Definition Millisecond : Z := 1000000.
Definition Second : Z := 1000 * Millisecond.

(** [if len(l) == 0 { l = d }] *)
Definition or_default (l d : list Z) : list Z := match l with [] => d | _ => l end.

(** The defaults of an enabled retry policy. *)
Definition retry_defaults (p : RetryPolicy) : RetryPolicy :=
  if negb (Enabled (RPolicy p)) then p
  else if (NumOfRetries p <=? 0)%nat then
    mkRetryPolicy (mkPolicy false (Version (RPolicy p))) (NumOfRetries p) (PerTryTimeout p) (RetriableStatusCodes p)
      (Overlap p) (BackoffDuration p) (BackoffJitter p) (BackoffExponential p)
  else
    mkRetryPolicy (RPolicy p) (NumOfRetries p) (PerTryTimeout p)
      (or_default (RetriableStatusCodes p) [DeadlineExceeded]) (Overlap p)
      (if (BackoffDuration p =? 0)%Z then 500 * Millisecond else BackoffDuration p)%Z
      (BackoffJitter p) (BackoffExponential p).
Definition client_RetryPolicy (cp : option ClientControlPlane) (s m : string) : RetryPolicy :=
  match cp with
  | None => zeroRetryPolicy
  | Some cp => match cp_RetryPolicy cp s m with None => zeroRetryPolicy | Some p => retry_defaults p end
  end.

Definition server_TimeoutPolicy (cp : option ServerControlPlane) (s m : string) : TimeoutPolicy :=
  match cp with
  | None => zeroTimeoutPolicy
  | Some cp => match sp_TimeoutPolicy cp s m with None => zeroTimeoutPolicy | Some p => p end
  end.

Definition at_least_one (x default : Z) : Z := if (x <=? 0)%Z then default else x.
Definition non_zero (x default : Z) : Z := if (x =? 0)%Z then default else x.

Definition circuit_defaults (p : CircuitBreakerPolicy) : CircuitBreakerPolicy :=
  if negb (Enabled (CPolicy p)) then p
  else mkCircuitBreakerPolicy (CPolicy p) (CTimeout p) (non_zero (MaxConcurrentRequests p) (-1))
         (at_least_one (RequestVolumeThreshold p) 20) (at_least_one (SleepWindow p) (5 * Second))
         (at_least_one (ErrorPercentThreshold p) 50)
         (merge_sort Z.le (or_default (FailureStatusCode p)
            [Unknown; DeadlineExceeded; ResourceExhausted; Internal; Unavailable]))
         (at_least_one (RollingDurationInSec p) 10).
Definition server_CircuitBreakerPolicy (cp : option ServerControlPlane) (s m : string) : CircuitBreakerPolicy :=
  match cp with
  | None => zeroCircuitBreakerPolicy
  | Some cp => match sp_CircuitBreakerPolicy cp s m with None => zeroCircuitBreakerPolicy | Some p => circuit_defaults p end
  end.

Definition rate_defaults (p : RateLimitPolicy) : RateLimitPolicy :=
  if negb (Enabled (LPolicy p)) then p
  else mkRateLimitPolicy (LPolicy p) (non_zero (MaxRequestPerUnit p) (-1)) (non_zero (MaxSendMsgPerUnit p) (-1))
         (non_zero (MaxRecvMsgPerUnit p) (-1)) (non_zero (Unit_ p) Second).
Definition server_RateLimitPolicy (cp : option ServerControlPlane) (s m : string) : RateLimitPolicy :=
  match cp with
  | None => zeroRateLimitPolicy
  | Some cp => match sp_RateLimitPolicy cp s m with None => zeroRateLimitPolicy | Some p => rate_defaults p end
  end.

(** The [lastStatus] map of the interceptors: whether the policy of a method was enabled the
    last time; it only decides what is logged. *)
Definition note_status (lastStatus : gmap string bool) (key : string) (enabled : bool) : gmap string bool :=
  match lastStatus !! key with
  | Some st => if Bool.eqb st enabled then lastStatus else <[key := enabled]> lastStatus
  | None => <[key := enabled]> lastStatus
  end.

(** ** The defaults *)

Lemma sort_ints_sorted (l : list Z) : Sorted Z.le (merge_sort Z.le l).
Proof. apply Sorted_merge_sort. intros x y. destruct (Z.le_ge_cases x y); auto. Qed.

Lemma sort_ints_twice (l : list Z) : merge_sort Z.le (merge_sort Z.le l) = merge_sort Z.le l.
Proof.
  apply (Sorted_unique Z.le); [apply sort_ints_sorted|apply sort_ints_sorted|apply merge_sort_Permutation].
Qed.

Lemma non_zero_spec x d : d <> 0%Z -> non_zero x d <> 0%Z.
Proof. unfold non_zero. by destruct (Z.eqb_spec x 0). Qed.

Lemma non_zero_id x d : x <> 0%Z -> non_zero x d = x.
Proof. intros H. unfold non_zero. by rewrite (proj2 (Z.eqb_neq x 0)). Qed.

Lemma at_least_one_spec x d : (0 < d)%Z -> (0 < at_least_one x d)%Z.
Proof. unfold at_least_one. by destruct (Z.leb_spec x 0). Qed.

Lemma at_least_one_id x d : (0 < x)%Z -> at_least_one x d = x.
Proof. intros H. unfold at_least_one. by rewrite (proj2 (Z.leb_gt x 0)). Qed.

Lemma merge_sort_nonempty (l : list Z) : l <> [] -> merge_sort Z.le l <> [].
Proof. intros Hl E. apply Hl, Permutation_nil_r. rewrite <- E. symmetry. apply merge_sort_Permutation. Qed.

Lemma default_codes (l d : list Z) : d <> [] -> or_default l d <> [].
Proof. by destruct l. Qed.

Lemma default_codes_id (l d : list Z) : l <> [] -> or_default l d = l.
Proof. by destruct l. Qed.

#[local] Hint Resolve non_zero_spec at_least_one_spec merge_sort_nonempty default_codes : core.
#[local] Hint Extern 1 (_ <> _) => discriminate : core.
#[local] Hint Extern 1 (0 < _)%Z => reflexivity : core.

Lemma retry_defaults_ok (rp : RetryPolicy) (p := retry_defaults rp) :
  retry_defaults p = p /\ (Enabled (RPolicy p) = true ->
    0 < NumOfRetries p /\ RetriableStatusCodes p <> [] /\ BackoffDuration p <> 0%Z).
Proof.
  subst p. destruct rp as [[[] v] n t cs o b j x]; [|done]. unfold retry_defaults at 2 3 4 5 6; cbn.
  destruct (Nat.leb_spec n 0); [done|]. cbn. split.
  - unfold retry_defaults; cbn. rewrite (proj2 (Nat.leb_gt n 0)) by done. f_equal; [by destruct cs|].
    destruct (Z.eqb_spec b 0); [done|]. by rewrite (proj2 (Z.eqb_neq b 0)).
  - intros _. split_and!; [done|by destruct cs|]. by destruct (Z.eqb_spec b 0).
Qed.

Lemma circuit_defaults_ok (cb : CircuitBreakerPolicy) (p := circuit_defaults cb) :
  circuit_defaults p = p /\ (Enabled (CPolicy p) = true ->
    (0 < ErrorPercentThreshold p)%Z /\ (0 < RequestVolumeThreshold p)%Z /\ (0 < SleepWindow p)%Z /\
    (0 < RollingDurationInSec p)%Z /\ MaxConcurrentRequests p <> 0%Z /\ FailureStatusCode p <> [] /\
    Sorted Z.le (FailureStatusCode p)).
Proof.
  subst p. destruct cb as [[[] v] t a b c d cs e]; [|done]. unfold circuit_defaults; cbn. split.
  - f_equal; try (by apply non_zero_id; auto); try (by apply at_least_one_id; auto).
    etrans; [|apply sort_ints_twice]. f_equal. apply default_codes_id; auto.
  - intros _. split_and!; auto using sort_ints_sorted.
Qed.

Lemma rate_defaults_ok (rl : RateLimitPolicy) (p := rate_defaults rl) :
  rate_defaults p = p /\ (Enabled (LPolicy p) = true ->
    MaxRequestPerUnit p <> 0%Z /\ MaxSendMsgPerUnit p <> 0%Z /\ MaxRecvMsgPerUnit p <> 0%Z /\ Unit_ p <> 0%Z).
Proof.
  subst p. destruct rl as [[[] v] a b c u]; [|done]. unfold rate_defaults; cbn. split.
  - f_equal; by apply non_zero_id; auto.
  - intros _. split_and!; auto.
Qed.

(** The defaults of the control plane make every enabled policy usable, and asking
    again does not change it: the policy is mutated in place, so the defaults are applied
    to their own result at every request. *)
Lemma control_defaults (rp : RetryPolicy) (cb : CircuitBreakerPolicy) (rl : RateLimitPolicy) :
  (let p := retry_defaults rp in
   retry_defaults p = p /\ (Enabled (RPolicy p) = true ->
     0 < NumOfRetries p /\ RetriableStatusCodes p <> [] /\ BackoffDuration p <> 0%Z)) /\
  (let p := circuit_defaults cb in
   circuit_defaults p = p /\ (Enabled (CPolicy p) = true ->
     (0 < ErrorPercentThreshold p)%Z /\ (0 < RequestVolumeThreshold p)%Z /\ (0 < SleepWindow p)%Z /\
     (0 < RollingDurationInSec p)%Z /\ MaxConcurrentRequests p <> 0%Z /\ FailureStatusCode p <> [] /\
     Sorted Z.le (FailureStatusCode p))) /\
  (let p := rate_defaults rl in
   rate_defaults p = p /\ (Enabled (LPolicy p) = true ->
     MaxRequestPerUnit p <> 0%Z /\ MaxSendMsgPerUnit p <> 0%Z /\ MaxRecvMsgPerUnit p <> 0%Z /\ Unit_ p <> 0%Z)).
Proof. exact (conj (retry_defaults_ok rp) (conj (circuit_defaults_ok cb) (rate_defaults_ok rl))). Qed.

End Control.

Module PolicyCache.

(** What the cache needs of a policy [P] and of the thing [R] made from it. *)
Class CachedPolicy (P R : Type) := {
  policy_version : P -> Z;
  policy_same : P -> P -> bool;
  build : P -> R;
  update : R -> P -> R
}.

(** [configured r p]: [r] does what [p] asks for. *)
Class CachedPolicyLaws (P R : Type) `{CachedPolicy P R} := {
  configured : R -> P -> Prop;
  build_configured p : configured (build p) p;
  update_configured r q p : configured r q -> configured (update r p) p;
  same_configured p q r : policy_same p q = true -> configured r q -> configured r p
}.

Section cache.
Context {P R : Type} `{CachedPolicy P R}.

Record wrapper := mkWrapper { policy : P; ctl : R }.

Definition UpdatePolicy (w : wrapper) (p : P) : wrapper :=
  if (policy_version p =? policy_version (policy w))%Z then w
  else if policy_same p (policy w) then w
  else mkWrapper p (update (ctl w) p).

(** [RetryControlByPolicy], [RateLimiterWithPolicy] and [CircuitWithPolicy]. *)
Definition WithPolicy (m : gmap string wrapper) (name : string) (p : P) : gmap string wrapper * R :=
  let w := match m !! name with
           | Some b => UpdatePolicy b p
           | None => mkWrapper p (build p)
           end in
  (<[name := w]> m, ctl w).

Context `{!CachedPolicyLaws P R}.

(** Requests and uses; [known] holds the policies that requests ever come with. *)
Inductive cache_step (known : string -> P -> Prop) : gmap string wrapper -> gmap string wrapper -> Prop :=
| cache_request m name p : known name p -> cache_step known m (WithPolicy m name p).1
| cache_use m name w r : m !! name = Some w ->
    (forall p, configured (ctl w) p -> configured r p) -> cache_step known m (<[name := mkWrapper (policy w) r]> m).

Definition cache_inv (known : string -> P -> Prop) (m : gmap string wrapper) : Prop :=
  map_Forall (fun name w => configured (ctl w) (policy w) /\ known name (policy w)) m.

Lemma UpdatePolicy_configured w p : configured (ctl w) (policy w) ->
  configured (ctl (UpdatePolicy w p)) (policy (UpdatePolicy w p)) /\
  (policy (UpdatePolicy w p) = p \/ UpdatePolicy w p = w).
Proof.
  intros Hw. unfold UpdatePolicy. destruct (_ =? _)%Z; [by auto|]. destruct (policy_same _ _); [by auto|].
  split; [|by left]. by apply (update_configured _ (policy w)).
Qed.

Lemma cache_step_inv known m m' : cache_inv known m -> cache_step known m m' -> cache_inv known m'.
Proof.
  intros Hm Hst. destruct Hst as [m name p Hk|m name w r Hw Hr].
  - unfold WithPolicy. simpl. apply map_Forall_insert_2; [|done]. destruct (m !! name) as [w|] eqn:Ew.
    + destruct (Hm _ _ Ew) as [Hc Hkw]. destruct (UpdatePolicy_configured w p Hc) as [H1 [H2|H2]];
        split; try done; congruence.
    + split; [apply build_configured|done].
  - destruct (Hm _ _ Hw) as [Hc Hkw]. apply map_Forall_insert_2; [|done]. split; [by apply Hr|done].
Qed.

(** A request gets what its policy asks for, if a version names one policy. *)
Lemma cache_serves_eq (known : string -> P -> Prop) m name p :
  (forall n p q, known n p -> known n q -> policy_version p = policy_version q -> p = q \/ policy_same p q = true) ->
  rtc (cache_step known) ∅ m -> known name p -> configured (WithPolicy m name p).2 p.
Proof.
  intros Hv Hr Hk. assert (Hm : cache_inv known m).
  { apply (rtc_invariant (cache_step known) _ ∅); [apply map_Forall_empty|apply cache_step_inv|done]. }
  unfold WithPolicy. simpl. destruct (m !! name) as [w|] eqn:Ew; [|apply build_configured].
  destruct (Hm _ _ Ew) as [Hc Hkw]. unfold UpdatePolicy.
  destruct (Z.eqb_spec (policy_version p) (policy_version (policy w))) as [Hve|_].
  - destruct (Hv name p (policy w) Hk Hkw Hve) as [->|]; [done|by apply (same_configured p (policy w))].
  - destruct (policy_same p (policy w)) eqn:Es; [by apply (same_configured p (policy w))|].
    by apply (update_configured _ (policy w)).
Qed.

Lemma cache_serves (known : string -> P -> Prop) m name p :
  (forall n p q, known n p -> known n q -> policy_version p = policy_version q -> policy_same p q = true) ->
  rtc (cache_step known) ∅ m -> known name p -> configured (WithPolicy m name p).2 p.
Proof. intros Hv. apply cache_serves_eq. intros n q q' ? ? ?. right. by apply (Hv n). Qed.

End cache.
Arguments wrapper : clear implicits.

End PolicyCache.
