(* ===== verification/RetryManager.v ===== *)
(** * Client-side retries ([retry/retry.go], [retry/export.go], [retry/option.go]).

    The controllers are kept per method by [PolicyCache]; what one call does is the machine
    of [Scheduler] with the options built here.  [Float64] draws are arguments. *)

From Stdlib Require Import SpecFloat.
From S2P Require Import Prelude GoInt TaskQueue Scheduler RetryController Control.

Open Scope string_scope.
Open Scope list_scope.

Module RetryManager.
Import TaskQueue Scheduler Controller Control PolicyCache.

(** ** Backoff *)

Record backoffPolicy := NewBackoffPolicy {
  backoffDuration : Z; backoffJitter : float64; backoffExponential : bool
}.

Definition exponentBase2 (s : backoffPolicy) (duration : Z) (attempt : nat) : Z :=
  if negb (backoffExponential s) then duration
  else mul64 duration (shr64 (shl64 1 (Z.of_nat attempt)) 1).

(** Conversions between [int64] and [float64]; a [float64] out of the range of [int64]
    converts to the smallest one, as on amd64. *)
Definition float_of_int (z : Z) : float64 := binary_normalize 53 1024 z 0 false.
Definition int_of_float (f : float64) : Z :=
  match f with
  | S754_zero _ => 0
  | S754_finite sg m e =>
      let a := if (0 <=? e)%Z then Z.shiftl (Zpos m) e else Z.shiftr (Zpos m) (- e) in
      let z := if sg then (- a)%Z else a in
      if decide (inS 64 z) then z else (- 2 ^ 63)%Z
  | _ => (- 2 ^ 63)%Z
  end.

Definition one : float64 := float_of_int 1.

(** [rnd] is what [rand.Float64] returns. *)
Definition jitterUp (rnd : float64) (s : backoffPolicy) (duration : Z) : Z :=
  if SFeqb (backoffJitter s) (S754_zero false) then duration
  else
    let multiplier := SFmul 53 1024 (backoffJitter s) (SFsub 53 1024 (SFmul 53 1024 rnd (float_of_int 2)) one) in
    int_of_float (SFmul 53 1024 (float_of_int duration) (SFadd 53 1024 one multiplier)).

Definition backoff_Calc (rnd : float64) (s : backoffPolicy) (tc : TaskContext) : Z :=
  if (RetryNum tc =? 0)%nat then 0%Z
  else jitterUp rnd s (exponentBase2 s (backoffDuration s) (RetryNum tc)).

(** The retry count of this package counts retries, not attempts. *)
Definition FixedRetryCountPolicy (retryTimes : nat) : BooleanPolicy := fun tc => (RetryNum tc <=? retryTimes)%nat.

(** ** Controllers by policy *)

Definition retryOpts (rnd : float64) (perTryTimeout : Z) (numOfRetries : nat) (b : backoffPolicy) (overlap : bool)
  : list (Controller.Options -> Controller.Options) :=
  [WithTimeoutPolicy (FixedTimeoutPolicy perTryTimeout);
   WithRetryPolicy (FixedRetryCountPolicy numOfRetries);
   WithRetryIntervalPolicy (backoff_Calc rnd b)] ++
  [WithConcurrencyPolicy (if overlap then AlwaysConcurrencyPolicy else NeverConcurrencyPolicy)].

Definition newRetryController (rnd : float64) (p : RetryPolicy) : string + Scheduler.Options :=
  NewRetryController (retryOpts rnd (PerTryTimeout p) (NumOfRetries p)
    (NewBackoffPolicy (BackoffDuration p) (BackoffJitter p) (BackoffExponential p)) (Overlap p)).

(** The comparison of [UpdatePolicy]. *)
Definition same_policy (p q : RetryPolicy) : bool :=
  Bool.eqb (Enabled (RPolicy p)) (Enabled (RPolicy q)) && (NumOfRetries p =? NumOfRetries q)%nat &&
  (PerTryTimeout p =? PerTryTimeout q)%Z && Bool.eqb (Overlap p) (Overlap q) &&
  (BackoffDuration p =? BackoffDuration q)%Z && SFeqb (BackoffJitter p) (BackoffJitter q) &&
  Bool.eqb (BackoffExponential p) (BackoffExponential q).

(** ** What an attempt calls back *)

(** [FromError] of grpc: the code of an error, if it is a status error. *)
Section attempt.
Context (FromError : nat -> option Z).

Definition attempt_callback (retriableCodes : list Z) (invoker : nat + nat) : callback :=
  match invoker with
  | inl r => CSuccess r
  | inr e =>
      match FromError e with
      | Some code => if existsb (fun c => wrapU 32 c =? wrapU 32 code)%Z retriableCodes
                     then CRetry (TaskError e) else CError (TaskError e)
      | None => CError (TaskError e)
      end
  end.
End attempt.

(** [retryHandler]: the handler is called directly, or the controller of the method's policy
    takes over with the status codes of the policy. *)
Inductive handling := CallDirectly | Retries (controller : string + Scheduler.Options) (retriableCodes : list Z).

Definition retryHandler `{CachedPolicy RetryPolicy (string + Scheduler.Options)}
    (cp : string + option ClientControlPlane) (service method : string) (lastStatus : gmap string bool)
    (retryControllers : gmap string (wrapper RetryPolicy (string + Scheduler.Options)))
  : handling * gmap string bool * gmap string (wrapper RetryPolicy (string + Scheduler.Options)) :=
  match cp with
  | inl _ => (CallDirectly, lastStatus, retryControllers)
  | inr cp =>
      let policy := client_RetryPolicy cp service method in
      let key := service +:+ "/" +:+ method in
      let lastStatus := note_status lastStatus key (Enabled (RPolicy policy)) in
      if negb (Enabled (RPolicy policy)) then (CallDirectly, lastStatus, retryControllers)
      else let '(m, c) := WithPolicy retryControllers key policy in
           (Retries c (RetriableStatusCodes policy), lastStatus, m)
  end.

(** ** [InvokeWithRetry] *)

Record Options := mkRetryOptions {
  numberOfRetries : nat; perTryTimeout : Z; overlap : bool; o_backoffDuration : Z; o_backoffJitter : float64;
  retriablePredict : option (nat -> bool); invokerName : string; o_backoffExponential : bool
}.
Definition Option := Options -> string + Options.

Definition WithRetry (n : nat) (t : Z) (p : option (nat -> bool)) : Option := fun o =>
  inr (mkRetryOptions n t (overlap o) (o_backoffDuration o) (o_backoffJitter o) p (invokerName o) (o_backoffExponential o)).
Definition WithOverlap (b : bool) : Option := fun o =>
  inr (mkRetryOptions (numberOfRetries o) (perTryTimeout o) b (o_backoffDuration o) (o_backoffJitter o)
    (retriablePredict o) (invokerName o) (o_backoffExponential o)).
Definition WithBackoffDuration (d : Z) : Option := fun o =>
  inr (mkRetryOptions (numberOfRetries o) (perTryTimeout o) (overlap o) d (o_backoffJitter o)
    (retriablePredict o) (invokerName o) (o_backoffExponential o)).
Definition WithBackoffJitter (j : float64) : Option := fun o =>
  inr (mkRetryOptions (numberOfRetries o) (perTryTimeout o) (overlap o) (o_backoffDuration o) j
    (retriablePredict o) (invokerName o) (o_backoffExponential o)).
Definition WithBackoffExponential (b : bool) : Option := fun o =>
  inr (mkRetryOptions (numberOfRetries o) (perTryTimeout o) (overlap o) (o_backoffDuration o) (o_backoffJitter o)
    (retriablePredict o) (invokerName o) b).
Definition WithInvokerName (n : string) : Option := fun o =>
  inr (mkRetryOptions (numberOfRetries o) (perTryTimeout o) (overlap o) (o_backoffDuration o) (o_backoffJitter o)
    (retriablePredict o) n (o_backoffExponential o)).

Definition apply_options (opt : list Option) : string + Options :=
  foldl (fun acc o => match acc with inl e => inl e | inr os => o os end)
    (inr (mkRetryOptions 0 0 false 0 (S754_zero false) None "" false)) opt.

Definition retry_callback (o : Options) (invoker : nat + nat) : callback :=
  match invoker with
  | inl r => CSuccess r
  | inr e =>
      if match retriablePredict o with None => true | Some predict => predict e end
      then CRetry (TaskError e) else CError (TaskError e)
  end.

(** How [InvokeWithRetry] goes on after the first, direct call of the invoker: it returns,
    or a controller with the options of a machine takes over. *)
Inductive after_first := OptionError (e : string) | Panics (msg : string) | FirstResult (r : nat)
| Retrying (os : Options) (machine : Scheduler.Options).

Definition InvokeWithRetry (rnd : float64) (opt : list Option) (first : nat + nat) : after_first :=
  match apply_options opt with
  | inl e => OptionError e
  | inr os =>
      match NewRetryController (retryOpts rnd (perTryTimeout os) (numberOfRetries os)
              (NewBackoffPolicy (o_backoffDuration os) (o_backoffJitter os) (o_backoffExponential os)) (overlap os)) with
      | inl msg => Panics msg
      | inr machine => match first with inl r => FirstResult r | inr _ => Retrying os machine end
      end
  end.

(** ** The cache of controllers *)

Section manager.
Context (rnd : float64).

#[export] Instance RetryPolicy_cached : CachedPolicy RetryPolicy (string + Scheduler.Options) := {
  policy_version p := Version (RPolicy p);
  policy_same := same_policy;
  build := newRetryController rnd;
  update _ p := newRetryController rnd p
}.

(** A controller does what a policy asks for. *)
Definition does (r : string + Scheduler.Options) (p : RetryPolicy) : Prop :=
  match r with
  | inl _ => False
  | inr o => Scheduler.timeLimit o = 0%Z /\ forall tc,
      Scheduler.timeoutPolicy o tc = PerTryTimeout p /\
      Scheduler.retryPolicy o tc = (RetryNum tc <=? NumOfRetries p)%nat /\
      Scheduler.concurrencyPolicy o tc = Overlap p /\
      Scheduler.intervalPolicy o tc =
        backoff_Calc rnd (NewBackoffPolicy (BackoffDuration p) (BackoffJitter p) (BackoffExponential p)) tc
  end.

Lemma newRetryController_does p : does (newRetryController rnd p) p.
Proof. split; [done|]. intros tc. split_and!; try done. by destruct (Overlap p). Qed.

(** Equal as [float64] values: identical, or both a zero. *)
Lemma SFeqb_true (x y : float64) : SFeqb x y = true ->
  x = y \/ exists s s', x = S754_zero s /\ y = S754_zero s'.
Proof.
  unfold SFeqb, SFcompare. destruct x as [s|s| |s m e], y as [s'|s'| |s' m' e']; try done; eauto.
  all: try (destruct s; done). all: try (destruct s'; done). all: try (destruct s, s'; by left || done).
  destruct s, s'; try done; destruct (Z.compare_spec e e') as [->| |]; try done;
    change (Pcompare m m' Eq) with (Pos.compare m m');
    destruct (Pos.compare_spec m m') as [->| |]; try done; by left.
Qed.

Lemma jitter_same d x x' e tc : SFeqb x x' = true ->
  backoff_Calc rnd (NewBackoffPolicy d x e) tc = backoff_Calc rnd (NewBackoffPolicy d x' e) tc.
Proof. intros [->|(s & s' & -> & ->)]%SFeqb_true; done. Qed.

Lemma same_does p q r : same_policy p q = true -> does r q -> does r p.
Proof.
  unfold same_policy. rewrite !andb_true_iff, !eqb_true_iff, !Z.eqb_eq, Nat.eqb_eq.
  intros ((((((_ & Hn) & Ht) & Ho) & Hd) & Hj) & He). unfold does. destruct r as [|o]; [done|].
  intros [Hl H]. split; [done|]. intros tc. destruct (H tc) as (H1 & H2 & H3 & H4).
  rewrite Hn, Ht, Ho, Hd, He. split_and!; try done. rewrite H4. symmetry. by apply jitter_same.
Qed.

#[export] Instance RetryPolicy_laws : CachedPolicyLaws RetryPolicy (string + Scheduler.Options) := {
  configured := does;
  build_configured := newRetryController_does;
  update_configured _ _ p _ := newRetryController_does p;
  same_configured := same_does
}.

(** ** Properties *)

Lemma does_attempts o p s : does (inr o) p -> reachable o s -> nextId s <= S (NumOfRetries p).
Proof.
  intros [_ Hd] Hr. assert (H : nextId s <= Nat.max 1 (S (NumOfRetries p))); [|lia].
  apply (attempts_at_most o); [|done]. intros tc Hp. destruct (Hd tc) as (_ & H2 & _). rewrite Hp in H2. symmetry in H2. apply Nat.leb_le in H2. lia.
Qed.

Lemma does_serial o p s : does (inr o) p -> Overlap p = false -> reachable o s -> TaskCount (queue s) <= 1.
Proof.
  intros [_ Hd] Ho Hr. apply (at_most_one_valid o); [|done]. intros tc. destruct (Hd tc) as (_ & _ & H3 & _).
  by rewrite H3.
Qed.

(** Retries follow the policy of the request.  If the version of a policy identifies
    it (up to the fields the cache compares) among the policies the requests of a method
    come with, then after any history of requests and uses the controller a request with
    policy [p] gets exists (no panic), and in every interleaving of the call it makes at
    most [NumOfRetries p + 1] attempts, of which at most one at a time is valid unless the
    policy allows overlap. *)
Theorem retry_follows_policy (known : string -> RetryPolicy -> Prop)
  (m : gmap string (wrapper RetryPolicy (string + Scheduler.Options))) (name : string) (p : RetryPolicy) :
  (forall n p q, known n p -> known n q -> Version (RPolicy p) = Version (RPolicy q) -> same_policy p q = true) ->
  rtc (cache_step known) ∅ m -> known name p ->
  exists o, (WithPolicy m name p).2 = inr o /\
    forall s, reachable o s -> nextId s <= S (NumOfRetries p) /\ (Overlap p = false -> TaskCount (queue s) <= 1).
Proof.
  intros Hv Hr Hk. pose proof (cache_serves known m name p Hv Hr Hk) as Hc. cbn [configured RetryPolicy_laws] in Hc.
  destruct ((WithPolicy m name p).2) as [e|o]; [done|]. exists o. split; [done|].
  intros s Hs. split; [by eapply does_attempts|]. intros Ho. by eapply does_serial.
Qed.

End manager.

Definition example_policy (v : Z) (n : nat) : RetryPolicy :=
  mkRetryPolicy (mkPolicy true v) n 0 [4%Z] false (500 * Millisecond) (S754_zero false) true.

(** The controller of version 1 is replaced when version 2 allows more retries. *)
Lemma retry_follows_policy_witness :
  let C := RetryPolicy_cached (S754_zero false) in
  let m := (WithPolicy (R := string + Scheduler.Options) ∅ "svc/m" (example_policy 1 1)).1 in
  exists o, (WithPolicy m "svc/m" (example_policy 2 3)).2 = inr o /\
    forall s, reachable o s -> nextId s <= 4 /\ (false = false -> TaskCount (queue s) <= 1).
Proof.
  intros C m. apply (retry_follows_policy (S754_zero false)
    (fun _ p => p = example_policy 1 1 \/ p = example_policy 2 3) m "svc/m" (example_policy 2 3)).
  - intros n p q [->| ->] [->| ->]; vm_compute; done.
  - apply rtc_once. constructor. by left.
  - by right.
Defined.

(** [InvokeWithRetry] makes one call too many.  Asked for [n] retries (with any other
    options), it first calls the invoker itself and then hands over to a controller that
    makes up to [n + 1] attempts of its own: no interleaving starts more, and when every
    call fails with a retriable error the controller returns after exactly [n + 1] of
    them, so that the invoker was called [n + 2] times. *)
Theorem invoke_with_retry_calls (rnd : float64) (opt : list Option) (os : Options) (e0 : nat) (errs : nat -> nat) :
  apply_options opt = inr os ->
  (forall e, match retriablePredict os with None => True | Some predict => predict e = true end) ->
  exists o, InvokeWithRetry rnd opt (inr e0) = Retrying os o /\
    (forall s, reachable o s -> nextId s <= S (numberOfRetries os)) /\
    exists s, reachable o s /\ waiter s = Returned /\ nextId s = S (numberOfRetries os) /\
      err s = Some (TaskError (errs (numberOfRetries os))) /\
      run o (initial o) (Sequential.schedule (fun i => i <=? numberOfRetries os)%nat
        (fun k => retry_callback os (inr (errs k))) (numberOfRetries os) 0) = Some s.
Proof.
  intros Ho Hp. unfold InvokeWithRetry. rewrite Ho. eexists. split; [reflexivity|]. set (o := mkOptions _ _ _ _ _ _ _).
  set (n := numberOfRetries os). split.
  - intros s Hr. assert (H : nextId s <= Nat.max 1 (S n)); [|lia]. apply (attempts_at_most o); [|done].
    intros tc Hle%Nat.leb_le. unfold n. lia.
  - assert (Hcb : forall k, retry_callback os (inr (errs k)) = CRetry (TaskError (errs k))).
    { intros k. unfold retry_callback. specialize (Hp (errs k)). destruct (retriablePredict os); [by rewrite Hp|done]. }
    destruct (Sequential.run_schedule o (fun i => i <=? n)%nat (fun k => retry_callback os (inr (errs k)))
      ltac:(done) n 0 (initial o) (S n, None, Some (TaskError (errs n)))) as (s & Hr & Hw & Hs).
    + apply Sequential.ready_initial.
    + by apply (Sequential.outcome_all_retry o n _ (fun k => TaskError (errs k))).
    + simplify_eq. exists s. split_and!; try done. by eapply run_reachable.
Qed.

(** One retry asked for, three calls made. *)
Lemma invoke_with_retry_calls_witness :
  exists o s, reachable o s /\ waiter s = Returned /\ S (nextId s) = 3 /\ err s = Some (TaskError 11).
Proof.
  destruct (invoke_with_retry_calls (S754_zero false) [WithRetry 1 0 None; WithOverlap false]
    (mkRetryOptions 1 0 false 0 (S754_zero false) None "" false) 9 (fun k => 10 + k)) as (o & _ & _ & s & H).
  - reflexivity.
  - done.
  - exists o, s. destruct H as (Hr & Hw & Hn & He & _). split; [exact Hr|]. split; [exact Hw|].
    split; [by rewrite Hn|exact He].
Defined.

(** exponential backoff.  Without jitter the delay before retry [a] is the base times
    [2 ^ (a - 1)] as long as that is representable; the first attempt is not delayed; but
    the factor is computed at 64 bits, and from retry 64 on the delay is zero. *)
Theorem backoff_doubles (rnd : float64) (d : Z) (tc : TaskContext) :
  let delay := backoff_Calc rnd (NewBackoffPolicy d (S754_zero false) true) tc in
  (RetryNum tc = 0 -> delay = 0%Z) /\
  (0 < RetryNum tc -> (0 <= d)%Z -> (d * 2 ^ (Z.of_nat (RetryNum tc) - 1) < 2 ^ 63)%Z -> RetryNum tc < 63 ->
    delay = (d * 2 ^ (Z.of_nat (RetryNum tc) - 1))%Z) /\
  (64 <= RetryNum tc -> delay = 0%Z).
Proof.
  intros delay. subst delay. unfold backoff_Calc, jitterUp, exponentBase2. simpl.
  rewrite shl64_one by lia. unfold shr64, mul64. split_and!.
  - by intros ->.
  - intros Hn Hd Hlt Hsm. rewrite (proj2 (Nat.eqb_neq _ _)) by lia. rewrite (proj2 (Z.ltb_lt _ _)) by lia.
    rewrite Z.shiftr_div_pow2 by lia.
    assert (E : (2 ^ Z.of_nat (RetryNum tc) / 2 ^ 1 = 2 ^ (Z.of_nat (RetryNum tc) - 1))%Z)
      by (rewrite <- Z.pow_sub_r by lia; done).
    rewrite E. apply wrapS_id; [lia|]. pose proof (Z.pow_pos_nonneg 2 (Z.of_nat (RetryNum tc) - 1)). split; nia.
  - intros Hn. rewrite (proj2 (Nat.eqb_neq _ _)), (proj2 (Z.ltb_ge _ _)), (proj2 (Z.eqb_neq _ _)) by lia.
    by rewrite Z.mul_0_r.
Qed.

End RetryManager.
