(* ===== verification/RateLimit.v ===== *)
(** * Server-side rate limiting ([rate_limit/rate_limit.go], [rate_limit/export.go]).

    The token buckets are those of [github.com/juju/ratelimit]: a parameter, with its
    documented behaviour as hypotheses ([TokenBucket]).  A handler is a function on a state
    of its own, so that a theorem can say whether it ran. *)

From S2P Require Import Prelude GoInt Control.

Open Scope string_scope.
Open Scope list_scope.

Module RateLimit.
Import Control PolicyCache.

(** [NewBucket] panics unless its arguments are positive; [TakeAvailable] takes what is
    there; [elapse b k] is [b] after [k] ticks of its fill interval. *)
Class BucketOps (Bucket : Type) := {
  NewBucket : Z -> Z -> Bucket;
  TakeAvailable : Bucket -> Z -> Z * Bucket;
  elapse : Bucket -> Z -> Bucket
}.
Class TokenBucket (Bucket : Type) `{BucketOps Bucket} := {
  available : Bucket -> Z;
  capacity : Bucket -> Z;
  NewBucket_spec i c : (0 < i)%Z -> (0 < c)%Z -> available (NewBucket i c) = c /\ capacity (NewBucket i c) = c;
  TakeAvailable_spec b n : (0 <= n)%Z -> let '(k, b') := TakeAvailable b n in
    k = Z.max 0 (Z.min n (available b)) /\ available b' = (available b - k)%Z /\ capacity b' = capacity b;
  elapse_spec b k : (0 <= k)%Z ->
    available (elapse b k) = Z.min (capacity b) (available b + k) /\ capacity (elapse b k) = capacity b
}.

Inductive rateLimiterType := requestRateLimiter | sendMsgRateLimiter | recvMsgRateLimiter.

(** The selector function that each call site passes. *)
Definition requestPerUnit (typ : rateLimiterType) (p : RateLimitPolicy) : Z :=
  match typ with
  | requestRateLimiter => MaxRequestPerUnit p
  | sendMsgRateLimiter => MaxSendMsgPerUnit p
  | recvMsgRateLimiter => MaxRecvMsgPerUnit p
  end.

(** [name + strconv.Itoa(int(typ))] *)
Definition limiter_key (typ : rateLimiterType) (name : string) : string :=
  name +:+ match typ with requestRateLimiter => "0" | sendMsgRateLimiter => "1" | recvMsgRateLimiter => "2" end.

Definition same_policy (p q : RateLimitPolicy) : bool :=
  Bool.eqb (Enabled (LPolicy p)) (Enabled (LPolicy q)) && (MaxRequestPerUnit p =? MaxRequestPerUnit q)%Z &&
  (MaxSendMsgPerUnit p =? MaxSendMsgPerUnit q)%Z && (MaxRecvMsgPerUnit p =? MaxRecvMsgPerUnit q)%Z &&
  (Unit_ p =? Unit_ q)%Z.

(** [policy.Unit / time.Duration(n)], for a divisor that is not zero. *)
Definition fillInterval (typ : rateLimiterType) (p : RateLimitPolicy) : Z :=
  wrapS 64 (Z.quot (Unit_ p) (requestPerUnit typ p)).

(** Does making the bucket of a policy panic? *)
Definition bucket_panics (typ : rateLimiterType) (p : RateLimitPolicy) : bool :=
  (requestPerUnit typ p =? 0)%Z || (fillInterval typ p <=? 0)%Z || (requestPerUnit typ p <=? 0)%Z.

Section limiter.
Context {Bucket : Type} `{BucketOps Bucket}.

Definition limiter_cached (typ : rateLimiterType) : CachedPolicy RateLimitPolicy Bucket := {|
  policy_version p := Version (LPolicy p);
  policy_same := same_policy;
  build p := NewBucket (fillInterval typ p) (requestPerUnit typ p);
  update _ p := NewBucket (fillInterval typ p) (requestPerUnit typ p)
|}.

Notation limiters := (gmap string (wrapper RateLimitPolicy Bucket)).

(** Would [RateLimiterWithPolicy] make a bucket? *)
Definition needs_bucket (m : limiters) (key : string) (p : RateLimitPolicy) : bool :=
  match m !! key with
  | None => true
  | Some w => negb (Version (LPolicy p) =? Version (LPolicy (policy w)))%Z && negb (same_policy p (policy w))
  end.

(** [None]: it panicked; an update stores the policy before it panics. *)
Definition RateLimiterWithPolicy (m : limiters) (typ : rateLimiterType) (name : string) (p : RateLimitPolicy)
  : limiters * option Bucket :=
  let key := limiter_key typ name in
  if needs_bucket m key p && bucket_panics typ p
  then (match m !! key with Some w => <[key := mkWrapper p (ctl w)]> m | None => m end, None)
  else let '(m, b) := @WithPolicy _ _ (limiter_cached typ) m key p in (m, Some b).

Record St := mkSt { lastStatus : gmap string bool; rateLimiters : limiters }.

(** What a limited call comes to; a rejection is the status [ResourceExhausted]. *)
Inductive outcome (A : Type) := Ran (a : A) | Rejected (key : string) (perUnit unit : Z) | Panicked.
Arguments Ran {_}. Arguments Rejected {_}. Arguments Panicked {_}.

Section call.
Context {S A : Type}.

(** The text that [requestRateLimitHandler], [SendMsg] and [RecvMsg] share. *)
Definition limited (typ : rateLimiterType) (cp : string + option ServerControlPlane) (service method : string)
    (handler : S -> A * S) (s : St) (w : S) : outcome A * St * S :=
  let run (s : St) := let '(a, w) := handler w in (Ran a, s, w) in
  match cp with
  | inl _ => run s
  | inr cp =>
      let p := server_RateLimitPolicy cp service method in
      let key := service +:+ "/" +:+ method in
      let s := mkSt (note_status (lastStatus s) key (Enabled (LPolicy p))) (rateLimiters s) in
      if negb (Enabled (LPolicy p)) || (requestPerUnit typ p <=? 0)%Z then run s
      else
        match RateLimiterWithPolicy (rateLimiters s) typ key p with
        | (m, None) => (Panicked, mkSt (lastStatus s) m, w)
        | (m, Some b) =>
            let '(taken, b) := TakeAvailable b 1 in
            let k := limiter_key typ key in
            let m := alter (fun x => mkWrapper (policy x) b) k m in
            let s := mkSt (lastStatus s) m in
            if (0 <? taken)%Z then run s else (Rejected key (requestPerUnit typ p) (Unit_ p), s, w)
        end
  end.

Definition requestRateLimitHandler := limited requestRateLimiter.
Definition SendMsg := limited sendMsgRateLimiter.
Definition RecvMsg := limited recvMsgRateLimiter.

End call.
End limiter.

Arguments outcome : clear implicits.
Arguments Ran {_}. Arguments Rejected {_}. Arguments Panicked {_}.
Arguments St : clear implicits.
#[export] Instance outcome_eq_dec {A} `{EqDecision A} : EqDecision (outcome A).
Proof. solve_decision. Defined.

(** ** Properties *)

Section admission.
Context {Bucket : Type} `{TokenBucket Bucket}.
Context (typ : rateLimiterType) (cp : option ServerControlPlane) (service method : string).

Let p : RateLimitPolicy := server_RateLimitPolicy cp service method.
Let k : string := limiter_key typ (service +:+ "/" +:+ method).

(** A request, or [d] fill intervals going by. *)
Inductive event := Request | Elapse (d : nat).

Definition elapsed (es : list event) : nat := sum_list_with (fun e => match e with Elapse d => d | _ => 0 end) es.
Definition requests (es : list event) : nat := sum_list_with (fun e => match e with Request => 1 | _ => 0 end) es.

(** The handler counts its runs; the outcomes of the requests are kept in order. *)
Notation trial := (St Bucket * nat * list (outcome unit))%type.
Definition event_step (x : trial) (e : event) : trial :=
  let '(s, n, log) := x in
  match e with
  | Request => let '(o, s, n) := limited typ (inr cp) service method (fun n => (tt, S n)) s n in (s, n, log ++ [o])
  | Elapse d => (mkSt (lastStatus s)
                   (alter (fun w => mkWrapper (policy w) (elapse (ctl w) (Z.of_nat d))) k (rateLimiters s)), n, log)
  end.

(** The status that a rejected request is answered with. *)
Definition refusal : outcome unit := Rejected (service +:+ "/" +:+ method) (requestPerUnit typ p) (Unit_ p).
(** What the log says: [n] requests ran and all others were rejected; without a refill the
    first ones ran. *)
Record logged (log : list (outcome unit)) (n refill reqs : nat) : Prop := {
  lg_length : length log = reqs;
  lg_either : Forall (fun o => o = Ran tt \/ o = refusal) log;
  lg_runs : length (filter (fun o => o = Ran tt) log) = n;
  lg_first : refill = 0 -> log = replicate n (Ran tt) ++ replicate (reqs - n) refusal
}.
Record admitted (x : trial) (refill reqs : nat) (b : Bucket) : Prop := {
  ad_cap : capacity b = requestPerUnit typ p;
  ad_pos : (0 <= available b)%Z;
  ad_bound : (available b + Z.of_nat x.1.2 <= requestPerUnit typ p + Z.of_nat refill)%Z;
  ad_exact : refill = 0 -> (available b + Z.of_nat x.1.2 = requestPerUnit typ p)%Z /\
    Z.of_nat x.1.2 = Z.min (Z.of_nat reqs) (requestPerUnit typ p);
  ad_logged : logged x.2 x.1.2 refill reqs
}.

Definition admission_inv (refill reqs : nat) (x : trial) : Prop :=
  match rateLimiters x.1.1 !! k with
  | None => x.1.2 = 0 /\ reqs = 0 /\ x.2 = []
  | Some w => policy w = p /\ admitted x refill reqs (ctl w)
  end.

Context (Hon : Enabled (LPolicy p) = true) (Hper : (0 < requestPerUnit typ p)%Z).
Context (Hok : bucket_panics typ p = false).

(** A request finds the bucket [b] and either takes a token and runs, or is rejected. *)
Lemma request_step s n log b : rateLimiters s !! k = None /\ b = NewBucket (fillInterval typ p) (requestPerUnit typ p) \/
    rateLimiters s !! k = Some (mkWrapper p b) ->
  exists ls m b', TakeAvailable b 1 = (if (0 <? available b)%Z then 1 else 0, b')%Z /\
    m !! k = Some (mkWrapper p b') /\
    event_step (s, n, log) Request =
      (mkSt ls m, if (0 <? available b)%Z then S n else n, log ++ [if (0 <? available b)%Z then Ran tt else refusal]).
Proof.
  intros Hb. pose proof (TakeAvailable_spec b 1 ltac:(lia)) as Ht. destruct (TakeAvailable b 1) as [tk b'] eqn:Et.
  destruct Ht as (Htk & _ & _).
  assert (Htk' : tk = if (0 <? available b)%Z then 1%Z else 0%Z) by (destruct (Z.ltb_spec 0 (available b)); lia).
  assert (Hw : exists m, RateLimiterWithPolicy (rateLimiters s) typ (service +:+ "/" +:+ method) p = (m, Some b) /\
    m !! k = Some (mkWrapper p b)).
  { unfold RateLimiterWithPolicy. rewrite Hok, andb_false_r. unfold WithPolicy. fold k.
    destruct Hb as [[-> ->]| ->]; cbn.
    - eexists. split; [reflexivity|]. by rewrite lookup_insert_eq.
    - unfold UpdatePolicy. cbn. rewrite Z.eqb_refl. cbn. eexists. split; [reflexivity|]. by rewrite lookup_insert_eq. }
  destruct Hw as (m & Hw & Hm). unfold event_step, limited. cbn [fst snd rateLimiters]. fold p. rewrite Hon. cbn [negb orb].
  rewrite (proj2 (Z.leb_gt _ _)) by done. rewrite Hw, Et. fold k.
  eexists _, _, b'. split; [by rewrite <- Htk'|]. rewrite Htk'.
  assert (Ha : alter (fun x => mkWrapper (policy x) b') k m !! k = Some (mkWrapper p b'))
    by (rewrite lookup_alter_eq, Hm; done).
  destruct (0 <? available b)%Z; cbn; (split; [exact Ha|reflexivity]).
Qed.

Lemma log_step log n refill reqs (more : bool) : logged log n refill reqs ->
  (refill = 0 -> if more then reqs = n else True) -> n <= reqs ->
  logged (log ++ [if more then Ran tt else refusal]) (if more then S n else n) refill (reqs + 1).
Proof.
  intros [Hl He Hr Hf] Hm Hn. split.
  - rewrite length_app, Hl. done.
  - apply Forall_app. split; [done|]. constructor; [|constructor]. destruct more; [by left|by right].
  - rewrite filter_app, length_app, Hr. destruct more; [rewrite filter_cons_True by done|rewrite filter_cons_False by done]; rewrite filter_nil; cbn; lia.
  - intros Hz. rewrite (Hf Hz). specialize (Hm Hz). destruct more.
    + rewrite Hm, Nat.sub_diag. replace (n + 1 - S n) with 0 by lia. by rewrite replicate_S_end, !app_nil_r.
    + rewrite <- app_assoc. f_equal. replace (reqs + 1 - n) with (S (reqs - n)) by lia. by rewrite replicate_S_end.
Qed.
Lemma runs_le log n refill reqs : logged log n refill reqs -> n <= reqs.
Proof. intros [Hl _ Hr _]. rewrite <- Hl, <- Hr. apply length_filter. Qed.

Lemma admission_step refill reqs x e : admission_inv refill reqs x ->
  admission_inv (refill + elapsed [e]) (reqs + requests [e]) (event_step x e).
Proof.
  destruct x as [[s n] log]. intros Hinv. destruct e as [|d]; cbn [elapsed requests sum_list_with].
  - assert (Hb : exists b, admitted (s, n, log) refill reqs b /\
      (rateLimiters s !! k = None /\ b = NewBucket (fillInterval typ p) (requestPerUnit typ p) \/
       rateLimiters s !! k = Some (mkWrapper p b))).
    { unfold admission_inv in Hinv. cbn in Hinv. destruct (rateLimiters s !! k) as [[q b]|] eqn:Ek.
      - destruct Hinv as [Hq Hinv]. cbn in *. subst q. eauto.
      - destruct Hinv as (-> & -> & ->). eexists. split; [|by left]. unfold bucket_panics in Hok.
        apply orb_false_iff in Hok as [[_ Hf]%orb_false_iff _]. apply Z.leb_gt in Hf.
        destruct (NewBucket_spec (fillInterval typ p) (requestPerUnit typ p)) as [Ha Hc]; [done..|].
        split; cbn; try lia. by split. }
    destruct Hb as (b & Had & Hb). destruct (request_step s n log b Hb) as (ls & m & b' & Ht & Hm & ->).
    pose proof (TakeAvailable_spec b 1 ltac:(lia)) as Hts. rewrite Ht in Hts. destruct Hts as (_ & Hav & Hcap).
    unfold admission_inv. cbn. rewrite Hm. split; [done|]. destruct Had as [Hc Hp Hbd Hex Hlog]. cbn in *.
    pose proof (runs_le _ _ _ _ Hlog) as Hle. rewrite Nat.add_0_r.
    pose proof (log_step log n refill reqs (0 <? available b)%Z Hlog) as Hlog'.
    destruct (Z.ltb_spec 0 (available b)); split; cbn; try lia; (apply Hlog'; [|done]); intros Hz; [destruct (Hex Hz); lia|done].
  - unfold admission_inv in *. cbn in *. rewrite lookup_alter_eq.
    destruct (rateLimiters s !! k) as [[q b]|]; cbn in *; [|by destruct Hinv as (-> & -> & ->)].
    destruct Hinv as [-> [Hc Hp Hbd Hex Hlog]]. split; [done|]. cbn in *.
    destruct (elapse_spec b (Z.of_nat d) ltac:(lia)) as [Ha Hc']. rewrite !Nat.add_0_r. split; cbn; try lia.
    destruct Hlog as [Hl He Hr Hf]. split; [done|done|done|]. intros Hz. apply Hf. lia.
Qed.

Lemma admission_run es x refill reqs : admission_inv refill reqs x ->
  admission_inv (refill + elapsed es) (reqs + requests es) (foldl event_step x es).
Proof.
  revert x refill reqs. induction es as [|e es IH]; intros x refill reqs Hi; simpl foldl.
  - by rewrite !Nat.add_0_r.
  - apply (admission_step _ _ _ e) in Hi. apply IH in Hi. unfold elapsed, requests in *. simpl in *.
    by rewrite !Nat.add_0_r, <- !Nat.add_assoc in Hi.
Qed.

End admission.

Lemma bucket_panics_iff typ p : inS 64 (Unit_ p) -> (0 < requestPerUnit typ p)%Z -> (0 < Unit_ p)%Z ->
  bucket_panics typ p = bool_decide (Unit_ p < requestPerUnit typ p)%Z.
Proof.
  intros Hu Hp Hpos. unfold bucket_panics, fillInterval.
  rewrite (proj2 (Z.eqb_neq _ 0)), (proj2 (Z.leb_gt (requestPerUnit typ p) 0)) by lia. cbn. rewrite orb_false_r.
  pose proof (Z.quot_pos (Unit_ p) (requestPerUnit typ p) ltac:(lia) ltac:(lia)) as Hq.
  pose proof (Z.quot_le_upper_bound (Unit_ p) (requestPerUnit typ p) (Unit_ p) ltac:(lia) ltac:(nia)) as Hle.
  rewrite wrapS_id by (unfold inS in *; lia). case_bool_decide as Hlt.
  - rewrite Z.quot_small by lia. done.
  - apply Z.leb_gt. apply Z.lt_le_trans with 1%Z; [lia|]. apply Z.quot_le_lower_bound; lia.
Qed.

(** A policy that allows more than one request per nanosecond of its unit makes the first
    request panic: the fill interval of its bucket rounds to zero. *)
Lemma rate_limit_panics {Bucket} `{BucketOps Bucket} {S A} typ cp service method (handler : S -> A * S) (s : St Bucket) w :
  let p := server_RateLimitPolicy cp service method in
  Enabled (LPolicy p) = true -> (0 < Unit_ p < requestPerUnit typ p)%Z -> inS 64 (Unit_ p) ->
  rateLimiters s !! limiter_key typ (service +:+ "/" +:+ method) = None ->
  (limited typ (inr cp) service method handler s w).1.1 = Panicked.
Proof.
  intros p Hon [Hu Hlt] Hs Hn. unfold limited. fold p. rewrite Hon, (proj2 (Z.leb_gt _ _)) by lia. cbn [negb orb].
  unfold RateLimiterWithPolicy, needs_bucket. cbn [rateLimiters]. rewrite Hn.
  rewrite bucket_panics_iff by lia || done. by rewrite bool_decide_eq_true_2.
Qed.

(** C15: the limiter limits.  For an enabled policy that allows [n] calls per unit ([n] not
    above the nanoseconds of the unit), starting without a limiter for the method: whatever
    requests come and however many fill intervals go by in between, every request either reaches
    the handler, once, or is rejected with the name of the method, [n] and the unit; at most [n]
    plus the number of intervals reach it; and with no time going by exactly the first [n] do. *)
Theorem rate_limit_admission {Bucket : Type} `{TokenBucket Bucket} (typ : rateLimiterType)
  (cp : option ServerControlPlane) (service method : string) (s : St Bucket) (es : list event) :
  let p := server_RateLimitPolicy cp service method in
  Enabled (LPolicy p) = true -> inS 64 (Unit_ p) -> (0 < requestPerUnit typ p <= Unit_ p)%Z ->
  rateLimiters s !! limiter_key typ (service +:+ "/" +:+ method) = None ->
  let '(_, runs, log) := foldl (event_step typ cp service method) (s, 0, []) es in
  let rejected := Rejected (service +:+ "/" +:+ method) (requestPerUnit typ p) (Unit_ p) in
  length log = requests es /\ Forall (fun o => o = Ran tt \/ o = rejected) log /\
  length (filter (fun o => o = Ran tt) log) = runs /\
  (Z.of_nat runs <= requestPerUnit typ p + Z.of_nat (elapsed es))%Z /\
  (elapsed es = 0 ->
   let n := requests es `min` Z.to_nat (requestPerUnit typ p) in
   log = replicate n (Ran tt) ++ replicate (requests es - n) rejected).
Proof.
  intros p Hon Hs Hper Hn. cbv zeta.
  assert (Hok : bucket_panics typ p = false).
  { rewrite bucket_panics_iff by lia || done. apply bool_decide_eq_false_2. lia. }
  assert (Hinv : admission_inv typ cp service method 0 0 (s, 0, [])) by (unfold admission_inv; cbn; by rewrite Hn).
  apply (admission_run typ cp service method Hon ltac:(fold p; lia) Hok es) in Hinv. unfold admission_inv in Hinv.
  fold p in Hinv. clear Hn. cbn [Nat.add] in Hinv. destruct (foldl _ _ es) as [[s' n] log]. cbn [fst snd] in Hinv.
  destruct (rateLimiters _ !! _) as [w|].
  - destruct Hinv as [_ [_ Hp Hb He [Hl Hei Hr Hf]]]. cbn [fst snd] in *. fold p in Hb, He. split_and!; [done|exact Hei|done|lia|].
    intros E. destruct (He E) as [_ Hn]. replace (requests es `min` Z.to_nat (requestPerUnit typ p)) with n by lia. exact (Hf E).
  - destruct Hinv as (-> & -> & ->). split_and!; [done..|cbn; lia|done].
Qed.

(** A bucket as a pair of tokens and capacity. *)
#[local] Instance pair_bucket : BucketOps (Z * Z) := {|
  NewBucket _ c := (c, c);
  TakeAvailable b n := let k := Z.max 0 (Z.min n b.1) in (k, (b.1 - k, b.2))%Z;
  elapse b k := (Z.min b.2 (b.1 + k), b.2)%Z
|}.
#[local] Instance pair_token_bucket : TokenBucket (Z * Z).
Proof. refine {| available b := b.1; capacity b := b.2 |}; intros; cbn; auto. Defined.

Lemma rate_limit_admission_witness :
  let cp := Some (mkServerPlane (fun _ _ => None) (fun _ _ => None)
    (fun _ _ => Some (mkRateLimitPolicy (mkPolicy true 1) 2 0 0 Second))) in
  (foldl (event_step requestRateLimiter cp "svc" "m") (mkSt (Bucket := Z * Z) ∅ ∅, 0, []) [Request; Request; Request; Request]).2 =
    [Ran tt; Ran tt; Rejected "svc/m" 2 Second; Rejected "svc/m" 2 Second].
Proof.
  intros cp. pose proof (rate_limit_admission requestRateLimiter cp "svc" "m" (mkSt (Bucket := Z * Z) ∅ ∅)
    [Request; Request; Request; Request]) as H.
  destruct (foldl _ _ _) as [[s n] log]. apply H.
  - reflexivity.
  - vm_compute. split; [discriminate|reflexivity].
  - vm_compute. split; [reflexivity|discriminate].
  - reflexivity.
  - reflexivity.
Defined.

End RateLimit.
