(* ===== verification/CircuitBreaker.v ===== *)
(** * Server-side circuit breaking ([circuit_breaker/circuit_breaker.go],
    [circuit_breaker/export.go]).

    The circuits are those of [github.com/cep21/circuit]: a parameter, with its documented
    behaviour as hypotheses ([CircuitLaws]). *)

From S2P Require Import Prelude GoInt Control.

Open Scope string_scope.
Open Scope list_scope.

Module CircuitBreaker.
Import Control PolicyCache.

(** What a circuit is configured with. *)
Record Config := mkConfig {
  RequestVolume : Z; ErrorThresholdPercentage : Z; RollingDuration : Z; NumBuckets : Z; Sleep : Z;
  ExecTimeout : Z; ExecMaxConcurrent : Z; FallbackMaxConcurrent : Z
}.

Definition config_of (p : CircuitBreakerPolicy) : Config :=
  mkConfig (RequestVolumeThreshold p) (ErrorPercentThreshold p) (mul64 (RollingDurationInSec p) Second)
    (RollingDurationInSec p) (SleepWindow p) (CTimeout p) (MaxConcurrentRequests p) (-1).

(** Errors: a status error, any other error of a handler, the errors of the library and its
    wrapper for errors that shall not count, and the rejection of the interceptor. *)
Inductive Err :=
| StatusError (code : Z) (msg : nat)
| PlainError (msg : nat)
| CircuitError (msg : nat)
| SimpleBadRequest (e : Err)
| Triggered (key : string).

(** [status.FromError] *)
Definition FromError (e : Err) : option Z :=
  match e with StatusError code _ => Some code | Triggered _ => Some ResourceExhausted | _ => None end.

(** [Execute] runs a function on a world [W]; [None] is the nil error. *)
Class CircuitOps (Circuit : Type) := {
  NewCircuit : Config -> Circuit;
  SetConfig : Circuit -> Config -> Circuit;
  Execute {W} : Circuit -> (W -> option Err * W) -> (Err -> option Err) -> W -> option Err * Circuit * W
}.
Class CircuitLaws (Circuit : Type) `{CircuitOps Circuit} := {
  circuit_config : Circuit -> Config;
  allows : Circuit -> bool;
  NewCircuit_config c : circuit_config (NewCircuit c) = c;
  SetConfig_config x c : circuit_config (SetConfig x c) = c;
  Execute_config {W} x run fb (w : W) : circuit_config (Execute x run fb w).1.2 = circuit_config x;
  Execute_runs {W} x run fb (w : W) : allows x = true ->
    let '(e, _, w') := Execute x run fb w in
    w' = (run w).2 /\
    e = match (run w).1 with
        | None => None
        | Some (SimpleBadRequest e) => Some (SimpleBadRequest e)
        | Some e => fb e
        end;
  Execute_open {W} x run fb (w : W) : allows x = false ->
    let '(e, _, w') := Execute x run fb w in w' = w /\ exists msg, e = fb (CircuitError msg)
}.

Definition same_policy (p q : CircuitBreakerPolicy) : bool :=
  Bool.eqb (Enabled (CPolicy p)) (Enabled (CPolicy q)) && (CTimeout p =? CTimeout q)%Z &&
  (MaxConcurrentRequests p =? MaxConcurrentRequests q)%Z && (RequestVolumeThreshold p =? RequestVolumeThreshold q)%Z &&
  (SleepWindow p =? SleepWindow q)%Z && (ErrorPercentThreshold p =? ErrorPercentThreshold q)%Z &&
  (RollingDurationInSec p =? RollingDurationInSec q)%Z.

Section breaker.
Context {Circuit : Type} `{CircuitOps Circuit}.

(** [newCircuitBreakerWrapper] and [UpdatePolicy]; the name given to a circuit only shows in
    its logs. *)
#[export] Instance circuit_cached : CachedPolicy CircuitBreakerPolicy Circuit := {|
  policy_version p := Version (CPolicy p);
  policy_same := same_policy;
  build p := NewCircuit (config_of p);
  update c p := SetConfig c (config_of p)
|}.

Notation circuits := (gmap string (wrapper CircuitBreakerPolicy Circuit)).
Record St := mkSt { lastStatus : gmap string bool; circuitBreakers : circuits }.

Definition CircuitWithPolicy (m : circuits) (name : string) (p : CircuitBreakerPolicy) : circuits * Circuit :=
  WithPolicy m name p.

(** What the circuit is told about the error of the handler. *)
Definition classify (codes : list Z) (e : Err) : Err :=
  match FromError e with
  | Some c => if existsb (fun code => wrapU 32 code =? wrapU 32 c)%Z codes then e else SimpleBadRequest e
  | None => e
  end.

Definition fallback (key : string) (e : Err) : option Err :=
  match e with CircuitError _ => Some (Triggered key) | _ => Some e end.

Definition circuitBreakerHandler {W} (cp : string + option ServerControlPlane) (service method : string)
    (handler : W -> option Err * W) (s : St) (w : W) : option Err * St * W :=
  let plain (s : St) := let '(e, w) := handler w in (e, s, w) in
  match cp with
  | inl _ => plain s
  | inr cp =>
      let p := server_CircuitBreakerPolicy cp service method in
      let key := service +:+ "/" +:+ method in
      let ls := note_status (lastStatus s) key (Enabled (CPolicy p)) in
      if negb (Enabled (CPolicy p)) then plain (mkSt ls (circuitBreakers s))
      else
        let '(m, c) := CircuitWithPolicy (circuitBreakers s) key p in
        let run w := let '(e, w) := handler w in (classify (FailureStatusCode p) <$> e, w) in
        let '(e, c, w) := Execute c run (fallback key) w in
        let s := mkSt ls (alter (fun x => mkWrapper (policy x) c) key m) in
        (match e with Some (SimpleBadRequest e) => Some e | e => e end, s, w)
  end.

End breaker.
Arguments St : clear implicits.

Section properties.
Context {Circuit : Type} `{CircuitLaws Circuit}.

Lemma same_config p q : same_policy p q = true -> config_of p = config_of q.
Proof.
  unfold same_policy. rewrite !andb_true_iff, !Z.eqb_eq.
  intros ((((((_ & H1) & H2) & H3) & H4) & H5) & H6). unfold config_of. by rewrite H1, H2, H3, H4, H5, H6.
Qed.

#[export] Instance circuit_laws : CachedPolicyLaws CircuitBreakerPolicy Circuit.
Proof.
  refine (Build_CachedPolicyLaws _ _ circuit_cached (fun c p => circuit_config c = config_of p) _ _ _).
  - intros p. apply NewCircuit_config.
  - intros r q p _. apply SetConfig_config.
  - intros p q r Hs Hc. by rewrite (same_config _ _ Hs).
Defined.

(** Circuits follow the policy of the request.  If the version of a policy identifies
    it (up to the fields the cache compares), then after any history of requests and calls
    the circuit that a request with policy [p] goes through is configured as [p] says. *)
Lemma circuit_follows_policy (known : string -> CircuitBreakerPolicy -> Prop)
  (m : gmap string (wrapper CircuitBreakerPolicy Circuit)) (name : string) (p : CircuitBreakerPolicy) :
  (forall n p q, known n p -> known n q -> Version (CPolicy p) = Version (CPolicy q) -> same_policy p q = true) ->
  rtc (cache_step known) ∅ m -> known name p ->
  circuit_config (CircuitWithPolicy m name p).2 = config_of p.
Proof. intros Hv Hr Hk. exact (cache_serves known m name p Hv Hr Hk). Qed.

(** An error that the interceptor could take for one of its own. *)
Definition internal_error (e : Err) : Prop := match e with CircuitError _ | SimpleBadRequest _ => True | _ => False end.

(** The breaker is transparent while its circuit allows calls and cuts them off
    otherwise.  With no control plane or a disabled policy the handler is called directly;
    when the circuit of the method allows the call, the handler runs exactly once and the
    caller gets its error unchanged, whether or not the circuit counts it as a failure
    (provided it is not an error of the circuit library itself); when it does not allow
    it, the handler does not run and the caller gets [ResourceExhausted]. *)
Theorem breaker_transparent {W : Type} (cp : string + option ServerControlPlane) (service method : string)
  (handler : W -> option Err * W) (s : St Circuit) (w : W) (key := service +:+ "/" +:+ method) :
  (forall e, (handler w).1 = Some e -> ~ internal_error e) ->
  let '(e, _, w') := circuitBreakerHandler cp service method handler s w in
  match cp with
  | inl _ => (e, w') = handler w
  | inr cp =>
      let p := server_CircuitBreakerPolicy cp service method in
      if Enabled (CPolicy p) && negb (allows (CircuitWithPolicy (circuitBreakers s) key p).2)
      then w' = w /\ e = Some (Triggered key) else (e, w') = handler w
  end.
Proof.
  intros He. unfold circuitBreakerHandler. destruct cp as [er|cp]; [by destruct (handler w)|].
  set (p := server_CircuitBreakerPolicy cp service method). fold key.
  destruct (Enabled (CPolicy p)); cbn [negb andb]; [|by destruct (handler w)].
  destruct (CircuitWithPolicy _ key p) as [m c]. cbn [snd].
  set (run := fun w0 => let '(e, w1) := handler w0 in (classify (FailureStatusCode p) <$> e, w1)).
  destruct (allows c) eqn:Ea; cbn [negb].
  - pose proof (Execute_runs c run (fallback key) w Ea) as Hr.
    destruct (Execute c run (fallback key) w) as [[e c'] w']. destruct Hr as [-> ->]. unfold run.
    destruct (handler w) as [[e|] w1]; cbn in *; [|done]. specialize (He e eq_refl). f_equal.
    unfold classify. destruct (FromError e) eqn:Ef; [destruct (existsb _ _)|]; destruct e; try done; by destruct He.
  - pose proof (Execute_open c run (fallback key) w Ea) as Hr.
    destruct (Execute c run (fallback key) w) as [[e c'] w']. destruct Hr as [-> [msg ->]]. done.
Qed.

End properties.

(** A circuit that is its configuration and a switch. *)
#[local] Instance toy_circuit : CircuitOps (Config * bool) := {|
  NewCircuit c := (c, true);
  SetConfig x c := (c, x.2);
  Execute W x run fb w :=
    if x.2 then let '(e, w) := run w in
                (match e with None => None | Some (SimpleBadRequest e) => Some (SimpleBadRequest e) | Some e => fb e end, x, w)
    else (fb (CircuitError 0), x, w)
|}.
#[local] Instance toy_laws : CircuitLaws (Config * bool).
Proof.
  refine (Build_CircuitLaws _ toy_circuit (fun x => x.1) (fun x => x.2) _ _ _ _ _); cbn; try done.
  - intros W x run fb w. destruct x as [c []]; cbn; [by destruct (run w)|done].
  - intros W x run fb w ->. by destruct (run w).
  - intros W x run fb w ->. split; [done|]. by exists 0.
Defined.

Lemma circuit_follows_policy_witness :
  let p v := mkCircuitBreakerPolicy (mkPolicy true v) 0 (10 * v) 0 0 0 [] 0 in
  let m := (CircuitWithPolicy (Circuit := Config * bool) ∅ "svc/m" (p 1)%Z).1 in
  ExecMaxConcurrent (circuit_config (CircuitWithPolicy m "svc/m" (p 2)%Z).2) = 20%Z.
Proof.
  intros p m. rewrite (circuit_follows_policy (fun _ q => q = p 1%Z \/ q = p 2%Z) m "svc/m" (p 2%Z)).
  - reflexivity.
  - intros n q q' [->| ->] [->| ->]; vm_compute; done.
  - apply rtc_once. constructor. by left.
  - by right.
Defined.

Lemma breaker_transparent_witness :
  let cp := inr (Some (mkServerPlane (fun _ _ => None)
    (fun _ _ => Some (mkCircuitBreakerPolicy (mkPolicy true 1) 0 0 0 0 0 [] 0)) (fun _ _ => None))) in
  let '(e, _, w') := circuitBreakerHandler cp "svc" "m" (fun n => (Some (StatusError 5 7), S n))
    (mkSt (Circuit := Config * bool) ∅ ∅) 0 in
  (e, w') = (Some (StatusError 5 7), 1).
Proof.
  intros cp. pose proof (breaker_transparent cp "svc" "m" (fun n => (Some (StatusError 5 7), S n))
    (mkSt (Circuit := Config * bool) ∅ ∅) 0) as Hb.
  destruct (circuitBreakerHandler cp "svc" "m" (fun n => (Some (StatusError 5 7), S n)) _ 0) as [[e s] w'].
  apply Hb. intros e' [= <-] [].
Defined.

End CircuitBreaker.
