(* ===== verification/Timeout.v ===== *)
(** * Request timeouts ([timeout/timeout.go]).

    A call with a timeout is two goroutines: the caller, which selects between the deadline
    of the context and an unbuffered channel, and one that runs the handler and sends its
    error into that channel.  They are modelled by their positions; a receive and the send
    it meets are one step, as the channel has no buffer. *)

From S2P Require Import Prelude Control.

Open Scope string_scope.
Open Scope list_scope.

Module Timeout.
Import Control.

(** An error of the handler ([None]: nil), or the status [DeadlineExceeded]. *)
Inductive Result := HandlerResult (e : option nat) | Deadline (key : string) (timeout : Z).

(** How the call goes on after the policy was looked up. *)
Inductive plan := Direct | WithTimeout (key : string) (timeout : Z).

Definition timeoutHandler (typ service method : string) (controlPlane : string + TimeoutPolicy)
    (lastStatus : gmap string bool) : gmap string bool * plan :=
  match controlPlane with
  | inl _ => (lastStatus, Direct)
  | inr policy =>
      let key := typ +:+ ":" +:+ service +:+ "/" +:+ method in
      let lastStatus := note_status lastStatus key (Enabled (TPolicy policy)) in
      (lastStatus,
       if negb (Enabled (TPolicy policy)) || (Timeout policy =? 0)%Z then Direct
       else WithTimeout key (Timeout policy))
  end.

(** The control planes of the client and server interceptors. *)
Definition client_plane (f : option Factory) (service method : string) : string + TimeoutPolicy :=
  match wrapper_ClientControlPlane f service with
  | inl e => inl e
  | inr cp => inr (CTTimeout (client_TimeoutPolicy cp service method))
  end.
Definition server_plane (f : option Factory) (service method : string) : string + TimeoutPolicy :=
  match wrapper_ServerControlPlane f service with
  | inl e => inl e
  | inr cp => inr (server_TimeoutPolicy cp service method)
  end.

Inductive caller := Calling | Selecting | Returned (r : Result).
Inductive worker := NotStarted | Running | Sending (e : option nat) | Finished.

Record state := mkState { main : caller; goroutine : worker; expired : bool }.

Inductive step (p : plan) : state -> state -> Prop :=
| step_direct g x e : p = Direct -> step p (mkState Calling g x) (mkState (Returned (HandlerResult e)) g x)
| step_spawn k t x : p = WithTimeout k t -> step p (mkState Calling NotStarted x) (mkState Selecting Running x)
| step_handler m x e : step p (mkState m Running x) (mkState m (Sending e) x)
| step_expire m g x : step p (mkState m g x) (mkState m g true)
| step_deadline k t g : p = WithTimeout k t ->
    step p (mkState Selecting g true) (mkState (Returned (Deadline k t)) g true)
| step_receive e x : step p (mkState Selecting (Sending e) x) (mkState (Returned (HandlerResult e)) Finished x).

Definition initial : state := mkState Calling NotStarted false.

(** A timed call returns the handler's error or the deadline error of its key and
    timeout, the latter only when the context has expired; an unlimited call (no control
    plane, disabled policy, zero timeout) never returns the deadline error. *)
Theorem timeout_result (typ service method : string) (cp : string + TimeoutPolicy) (ls : gmap string bool)
  (s : state) (r : Result) :
  rtc (step (timeoutHandler typ service method cp ls).2) initial s -> main s = Returned r ->
  match r with
  | HandlerResult _ => True
  | Deadline k t => expired s = true /\ k = typ +:+ ":" +:+ service +:+ "/" +:+ method /\ t <> 0%Z /\
      exists p, cp = inr p /\ Enabled (TPolicy p) = true /\ Timeout p = t
  end.
Proof.
  intros Hr Hm.
  set (P s := match main s with
    | Returned (Deadline k t) => expired s = true /\ (timeoutHandler typ service method cp ls).2 = WithTimeout k t
    | _ => True end).
  assert (Hinv : P s).
  { apply (rtc_invariant (step (timeoutHandler typ service method cp ls).2) P initial I); [|done]. unfold P.
    intros s1 s2 Hs Hst. destruct Hst; cbn in *; try done. destruct m as [| |[|]]; try done. by destruct Hs. }
  unfold P in Hinv. rewrite Hm in Hinv. destruct r as [|k t]; [done|]. destruct Hinv as [He Hp]. split; [done|].
  destruct cp as [|p]; [done|]. cbn in Hp.
  destruct (Enabled (TPolicy p)) eqn:Een; cbn in Hp; [|done].
  destruct (Z.eqb_spec (Timeout p) 0); [done|]. simplify_eq. eauto 10.
Qed.

Lemma timeout_result_witness :
  let cp := inr (mkTimeoutPolicy (mkPolicy true 1) 5) in
  let s := mkState (Returned (Deadline "server:svc/m" 5)) Running true in
  rtc (step (timeoutHandler "server" "svc" "m" cp ∅).2) initial s /\ expired s = true.
Proof.
  intros cp s.
  assert (Hr : rtc (step (timeoutHandler "server" "svc" "m" cp ∅).2) initial s).
  { eapply rtc_l; [by eapply step_spawn|]. eapply rtc_l; [by apply step_expire|].
    eapply rtc_l; [by eapply step_deadline|]. apply rtc_refl. }
  split; [exact Hr|].
  destruct (timeout_result "server" "svc" "m" cp ∅ s (Deadline "server:svc/m" 5) Hr eq_refl) as [He _]. exact He.
Defined.

(** a call that times out leaks its goroutine.  When the deadline was chosen, the
    goroutine that runs the handler never finishes: nothing receives from its unbuffered
    channel any more, so its send blocks for ever. *)
Theorem timeout_leaks_goroutine (p : plan) (s s' : state) (k : string) (t : Z) :
  rtc (step p) initial s -> main s = Returned (Deadline k t) -> rtc (step p) s s' -> goroutine s' <> Finished.
Proof.
  intros Hr Hm Hr'.
  assert (Hinv : goroutine s = Finished -> exists e, main s = Returned (HandlerResult e)).
  { clear Hm Hr'. revert s Hr.
    apply (rtc_invariant (step p) (fun s => goroutine s = Finished -> exists e, main s = Returned (HandlerResult e)) initial);
      [done|]. intros s1 s2 Hs Hst.
    destruct Hst; cbn in *; try done; intros Hg; try destruct (Hs Hg); (done || eauto). }
  assert (Hleak : main s' = Returned (Deadline k t) /\ goroutine s' <> Finished).
  { revert s' Hr'. apply (rtc_invariant (step p) (fun s' => main s' = Returned (Deadline k t) /\ goroutine s' <> Finished) s).
    - split; [done|]. intros Hg. destruct (Hinv Hg) as [e He]. congruence.
    - intros s1 s2 [Hm1 Hg] Hst. destruct Hst; cbn in *; try done; eauto. }
  apply Hleak.
Qed.

Lemma timeout_leaks_goroutine_witness :
  let p := WithTimeout "server:svc/m" 5 in
  let s := mkState (Returned (Deadline "server:svc/m" 5)) Running true in
  let s' := mkState (Returned (Deadline "server:svc/m" 5)) (Sending None) true in
  rtc (step p) s s' /\ goroutine s' <> Finished.
Proof.
  intros p s s'. assert (Hr : rtc (step p) s s') by apply rtc_once, step_handler.
  split; [exact Hr|]. apply (timeout_leaks_goroutine p s s' "server:svc/m" 5); [|reflexivity|exact Hr].
  eapply rtc_l; [by eapply step_spawn|]. eapply rtc_l; [by apply step_expire|].
  eapply rtc_l; [by eapply step_deadline|]. apply rtc_refl.
Defined.

End Timeout.
