(* ===== verification/PathMatcher.v ===== *)
(** * HTTP path matching ([http/matcher.go], [http/header.go], [http/registry.go]).

    Patterns are kept in a trie of path components in which ["*"] stands for one component
    and ["**"] for any number of them.  The recursion of [matchInternal] goes down the trie
    at every call, so the height of the trie is the fuel of its model. *)

From S2P Require Import Prelude GoStrings.
From Stdlib Require Import Ascii.

Open Scope string_scope.
Open Scope list_scope.

Module PathMatcher.

(** ** Components and templates *)

(** The components of a method and a path, the verb after the last colon being one of its
    own; a standalone verb is an error, and [path[1:]] panics on an empty path. *)
Definition components (method path : string) : gores (list string) :=
  if bool_decide (path = "") then Panic "slice bounds out of range" else
  let cs := (if bool_decide (method = "") then [] else [ToLower method]) ++ Split "/" (ToLower (sdrop 1 path)) in
  match last cs with
  | None => Ok cs
  | Some c =>
      match LastIndex c ":" with
      | None => Ok cs
      | Some O => Err "invalide path format, found standalone verb segment"
      | Some idx =>
          let init := take (length cs - 1) cs ++ [stake idx c] in
          let verb := sdrop (S idx) c in
          Ok (if bool_decide (verb = "") then init else init ++ [":" +:+ verb])
      end
  end.

(** A match of the pattern [(?U){(.+)}] after an opening brace: the shortest non-empty
    content without a line feed up to a closing brace, and what follows it. *)
Fixpoint close_brace (first : bool) (s : string) : option (string * string) :=
  match s with
  | EmptyString => None
  | String a s' =>
      if negb first && bool_decide (a = "}"%char) then Some ("", s')
      else if bool_decide (a = "010"%char) then None
      else match close_brace false s' with
           | Some (content, rest) => Some (String a content, rest)
           | None => None
           end
  end.

(** The leftmost match: the text before it, the content of the braces, the text after. *)
Fixpoint find_variable (s : string) : option (string * string * string) :=
  match s with
  | EmptyString => None
  | String a s' =>
      let later := match find_variable s' with
                   | Some (pre, content, rest) => Some (String a pre, content, rest)
                   | None => None
                   end in
      if bool_decide (a = "{"%char) then
        match close_brace true s' with
        | Some (content, rest) => Some ("", content, rest)
        | None => later
        end
      else later
  end.

(** Every match is shorter than what it is found in, so the length of the template is fuel
    enough. *)
Fixpoint convert (fuel : nat) (patterns : string) : gores string :=
  match fuel with
  | O => Ok patterns
  | S fuel =>
      match find_variable patterns with
      | None => Ok patterns
      | Some (pre, content, rest) =>
          match Split "=" content with
          | [_; v] => tail ← convert fuel rest; Ok (pre +:+ v +:+ tail)
          | [_] => tail ← convert fuel rest; Ok (pre +:+ "*" +:+ tail)
          | _ => Err "invalid variable template format"
          end
      end
  end.
Definition TemplateConvert (patterns : string) : gores string := convert (S (String.length patterns)) patterns.

Definition RegistryWithGrpcPattern (pattern : string) : gores string :=
  p ← TemplateConvert pattern; Ok ("/" +:+ p).

(** [strings.TrimRight(s, c)] *)
Fixpoint trim_right_char (c : ascii) (s : string) : string :=
  match s with
  | EmptyString => EmptyString
  | String a s' =>
      match trim_right_char c s' with
      | EmptyString => if bool_decide (a = c) then EmptyString else String a EmptyString
      | t => String a t
      end
  end.

Definition RegistryWithPath (methods : list string) (servicePath : string) : list string :=
  match methods with
  | [] => ["/" +:+ "*" +:+ trim_right_char "/" servicePath]
  | _ => foldl (fun _ method => ["/" +:+ method +:+ trim_right_char "/" servicePath]) [] methods
  end.

Lemma find_variable_none (s : string) : contains_char "{" s = false -> find_variable s = None.
Proof. induction s as [|a s IH]; cbn; [done|]. case_decide; [done|]. intros Hs. rewrite (IH Hs). by rewrite bool_decide_eq_false_2. Qed.

(** A template without variables stays as it is. *)
Lemma TemplateConvert_plain (s : string) : contains_char "{" s = false -> TemplateConvert s = Ok s.
Proof. intros Hs. unfold TemplateConvert. cbn. by rewrite find_variable_none. Qed.

Section matcher.
Context {M : Type}.

(** ** The trie *)

Inductive PathSegment : Type := Segment (meta : list M) (children : gmap string PathSegment).

Definition smeta (n : PathSegment) : list M := let 'Segment m _ := n in m.
Definition schildren (n : PathSegment) : gmap string PathSegment := let 'Segment _ ch := n in ch.
Definition newPathSegment : PathSegment := Segment [] ∅.

(** The loop of [AddPattern]: an empty component is an error, with the segments made so far
    left in the trie. *)
Fixpoint add_at (cs : list string) (meta : M) (n : PathSegment) : PathSegment * gores unit :=
  match cs with
  | [] => (Segment (smeta n ++ [meta]) (schildren n), Ok tt)
  | p :: cs' =>
      if bool_decide (p = "") then (n, Err "invalid pattern, component is empty string")
      else
        let child := default newPathSegment (schildren n !! p) in
        let '(child', r) := add_at cs' meta child in
        (Segment (smeta n) (<[p:=child']> (schildren n)), r)
  end.

(** The matcher is its root. *)
Definition PathMatcher := PathSegment.
Definition NewPathMatcher : PathMatcher := newPathSegment.
Definition ClearMatcher (_ : PathMatcher) : PathMatcher := newPathSegment.

Definition AddPattern (s : PathMatcher) (method pattern : string) (meta : M) : PathMatcher * gores unit :=
  match (pattern ← TemplateConvert pattern; components method pattern) with
  | Ok cs => add_at cs meta s
  | Err m => (s, Err m)
  | Panic m => (s, Panic m)
  end.

(** The metas of a segment, [None] standing for nil. *)
Definition meta_of (n : PathSegment) : option (list M) :=
  match smeta n with [] => None | ms => Some ms end.

Definition or_else (a b : option (list M)) : option (list M) := match a with Some _ => a | None => b end.

(** The loop over the tails below a ["**"] segment; [go] is the recursive call. *)
Fixpoint tails (go : list string -> option (list M)) (children : gmap string PathSegment) (cs : list string)
  : option (list M) :=
  match cs with
  | [] => None
  | c :: cs' =>
      or_else (if bool_decide (is_Some (children !! c)) then go cs
               else if bool_decide (is_Some (children !! "*")) then go cs' else None)
              (tails go children cs')
  end.

Fixpoint match_fuel (fuel : nat) (cs : list string) (seg : PathSegment) : option (list M) :=
  match fuel with
  | O => None
  | S fuel =>
      match cs with
      | [] => meta_of seg
      | c :: rest =>
          if bool_decide (c = "") then None
          else
            or_else (schildren seg !! c ≫= match_fuel fuel rest)
              (or_else (schildren seg !! "*" ≫= match_fuel fuel rest)
                (schildren seg !! "**" ≫= fun node =>
                   or_else (tails (fun t => match_fuel fuel t node) (schildren node) cs) (meta_of node)))
      end
  end.

(** The height of a segment. *)
Fixpoint height (n : PathSegment) : nat :=
  match n with Segment _ ch => S (map_fold (fun _ c acc => Nat.max (height c) acc) 0 ch) end.

Definition matchInternal (cs : list string) (seg : PathSegment) : option (list M) := match_fuel (height seg) cs seg.

Definition Match (s : PathMatcher) (method path : string) : gores (list M) :=
  match components method path with
  | Panic m => Panic m
  | Err m => Err m
  | Ok cs => match matchInternal cs s with Some ms => Ok ms | None => Err "not matched" end
  end.

(** ** Metas *)

(** What the interfaces [EstimatableMetaPriority] and [EstimatableHeaderMeta] give of a
    meta, [None] if it does not implement them; a regular expression is its source. *)
Context (Priority : M -> option Z).
Context (HeaderMaps : M -> option (list (gmap string string) * list (gmap string string))).

(** [sort.SliceStable]: insertion keeps the order of what [less] does not separate. *)
Fixpoint insert_stable {A} (less : A -> A -> bool) (x : A) (l : list A) : list A :=
  match l with
  | [] => [x]
  | y :: l' => if less y x then y :: insert_stable less x l' else x :: l
  end.
Definition SliceStable {A} (less : A -> A -> bool) (l : list A) : list A := foldr (insert_stable less) [] l.

(** The comparison of [MatchWithMeta]: both operands are [result[i]]. *)
Definition meta_less (mi _ : M) : bool :=
  let okI := bool_decide (is_Some (Priority mi)) in
  let okJ := bool_decide (is_Some (Priority mi)) in
  if negb (Bool.eqb okI okJ) then okI
  else if negb okI then false
  else match Priority mi, Priority mi with Some a, Some b => (a <? b)%Z | _, _ => false end.

(** The pairs of a list of maps, sorted by key, written out one after the other. *)
Definition header_key (hs : list (gmap string string)) : string :=
  String.concat "" ((fun p => p.1 +:+ "," +:+ p.2 +:+ ",") <$>
    SliceStable (fun p q : string * string => match String.compare p.1 q.1 with Lt => true | _ => false end)
      (mjoin (map_to_list <$> hs))).

(** The number of different header rules.  A meta without header rules is counted and then
    used all the same: a nil dereference. *)
Fixpoint header_keys (metas : list M) : gores (gset string) :=
  match metas with
  | [] => Ok ∅
  | meta :: metas =>
      match HeaderMaps meta with
      | None => Panic "invalid memory address or nil pointer dereference"
      | Some (hs, rs) => keys ← header_keys metas; Ok ({[header_key hs +:+ "|" +:+ header_key rs]} ∪ keys)
      end
  end.
Definition adjustHeaderRuleCount (metas : list M) : gores nat := keys ← header_keys metas; Ok (size keys).

(** [estimateMeta] gives [None] for a nil error. *)
Definition MatchWithMeta (s : PathMatcher) (method path : string) (estimateMeta : M -> nat -> option string)
  : gores (list M) :=
  cs ← components method path;
  match matchInternal cs s with
  | None => Err ("no path pattern matched for " +:+ method +:+ path)
  | Some metas =>
      headerRuleCount ← (if (1 <? length metas)%nat then adjustHeaderRuleCount metas else Ok (length metas));
      match filter (fun m => estimateMeta m headerRuleCount = None) metas with
      | [] => Err (String.concat " " (omap (fun m => estimateMeta m headerRuleCount) metas))
      | result => Ok (SliceStable meta_less result)
      end
  end.

Fixpoint EstimateMetaChain (estimates : list (M -> nat -> option string)) (meta : M) (count : nat) : option string :=
  match estimates with
  | [] => None
  | e :: es => match e meta count with Some err => Some err | None => EstimateMetaChain es meta count end
  end.

(** [EstimateHeader], with the two matchers of [utils] as arguments. *)
Definition EstimateHeader (MatchString MatchRegex : gmap string string -> bool) (meta : M) (count : nat) : option string :=
  match HeaderMaps meta with
  | None => Some "meta not implement EstimatableHeaderMeta interface"
  | Some (hs, rs) =>
      if (count =? 1)%nat then None
      else match hs, rs with
           | [], [] => None
           | _, _ => if existsb MatchString hs || existsb MatchRegex rs then None else Some "estimate header failed"
           end
  end.

(** ** What a match means *)

(** A pattern against a path: a literal or a ["*"] for one non-empty component, a ["**"]
    for any number of components of a rest that does not start with an empty one. *)
Inductive pm : list string -> list string -> Prop :=
| pm_nil : pm [] []
| pm_lit c p q : c <> "" -> pm p q -> pm (c :: p) (c :: q)
| pm_star c p q : c <> "" -> pm p q -> pm ("*" :: p) (c :: q)
| pm_dstar c cs pre p q : c <> "" -> c :: cs = pre ++ q -> pm p q -> pm ("**" :: p) (c :: cs).

(** The metas at a path of the trie. *)
Fixpoint metas_at (p : list string) (n : PathSegment) : list M :=
  match p with
  | [] => smeta n
  | c :: p' => match schildren n !! c with Some ch => metas_at p' ch | None => [] end
  end.

Lemma metas_at_new p : metas_at p newPathSegment = [].
Proof. by destruct p. Qed.

Lemma metas_at_child p c n : metas_at p (default newPathSegment (schildren n !! c)) = metas_at (c :: p) n.
Proof. simpl. destruct (schildren n !! c); [done|apply metas_at_new]. Qed.

Lemma metas_at_add cs x n p : metas_at p (add_at cs x n).1 =
  metas_at p n ++ (if bool_decide (p = cs) && nonempty_parts cs then [x] else []).
Proof.
  revert p n. induction cs as [|c cs IH]; intros p n; cbn [add_at].
  - destruct p as [|c p]; [done|]. rewrite bool_decide_eq_false_2 by done. cbn. by rewrite app_nil_r.
  - cbn [nonempty_parts forallb]. case_bd (c = "") as Hc; cbn [negb andb].
    + by rewrite andb_false_r, app_nil_r.
    + specialize (IH (tail p) (default newPathSegment (schildren n !! c))).
      destruct (add_at cs x _) as [child' r]. cbn [fst] in *. destruct p as [|c' p]; cbn [metas_at schildren smeta].
      * rewrite bool_decide_eq_false_2 by done. by rewrite app_nil_r.
      * cbn [tail] in IH. rewrite lookup_insert_case. destruct (decide (c = c')) as [<-|Hcc].
        -- rewrite IH, metas_at_child. unfold nonempty_parts. f_equal.
           case_bd (p = cs) as Hp; [rewrite bool_decide_eq_true_2 by congruence|
             rewrite bool_decide_eq_false_2 by congruence]; done.
        -- rewrite bool_decide_eq_false_2 by congruence. by rewrite app_nil_r.
Qed.

Lemma meta_of_some n ms : meta_of n = Some ms <-> smeta n = ms /\ ms <> [].
Proof. unfold meta_of. destruct (smeta n); (split; [intros E|intros [E Hne]]); by subst || congruence || (split; congruence). Qed.

Lemma or_else_some a b ms : or_else a b = Some ms -> a = Some ms \/ b = Some ms.
Proof. destruct a; naive_solver. Qed.

Lemma tails_some go ch cs ms : tails go ch cs = Some ms -> exists pre t, cs = pre ++ t /\ go t = Some ms.
Proof.
  induction cs as [|c cs IH]; [done|]. cbn [tails]. intros [H|H]%or_else_some.
  - destruct (bool_decide (is_Some (ch !! c))); [by exists [], (c :: cs)|].
    destruct (bool_decide _); [by exists [c], cs|done].
  - destruct (IH H) as (pre & t & -> & Ht). by exists (c :: pre), t.
Qed.

(** What [matchInternal] returns are the metas of one pattern that matches. *)
Lemma match_fuel_sound fuel cs seg ms : match_fuel fuel cs seg = Some ms ->
  exists p, pm p cs /\ metas_at p seg = ms /\ ms <> [].
Proof.
  revert cs seg. induction fuel as [|fuel IH]; intros cs seg; [done|]. cbn [match_fuel].
  destruct cs as [|c cs]; [intros [? ?]%meta_of_some; by exists []; eauto using pm|].
  case_bool_decide as Hc; [done|].
  assert (Hrec : forall k, schildren seg !! k ≫= match_fuel fuel cs = Some ms ->
    exists p, pm p cs /\ metas_at (k :: p) seg = ms /\ ms <> []).
  { intros k. destruct (schildren seg !! k) as [n|] eqn:E; [|done]. cbn. intros (p & H1 & H2 & H3)%IH.
    exists p. split; [done|]. cbn. by rewrite E. }
  intros [H|[H|H]%or_else_some]%or_else_some.
  - destruct (Hrec _ H) as (p & Hp & ?). exists (c :: p). eauto using pm.
  - destruct (Hrec _ H) as (p & Hp & ?). exists ("*" :: p). eauto using pm.
  - destruct (schildren seg !! "**") as [n|] eqn:E; [|done]. cbn [mbind option_bind] in H.
    apply or_else_some in H as [H|H].
    + apply tails_some in H as (pre & t & Et & (p & Hp & Hms)%IH). exists ("**" :: p).
      split; [by eapply pm_dstar|]. cbn. by rewrite E.
    + apply meta_of_some in H. exists ["**"]. split; [|cbn; by rewrite E].
      apply (pm_dstar c cs (c :: cs) [] []); [done|by rewrite app_nil_r|constructor].
Qed.

Lemma height_child n c ch : schildren n !! c = Some ch -> height ch < height n.
Proof.
  destruct n as [ms children]. cbn [schildren height]. intros H. apply Nat.lt_succ_r. revert c ch H.
  apply (map_fold_weak_ind (fun acc m => forall c ch, m !! c = Some ch -> height ch <= acc)).
  - intros c ch. by rewrite lookup_empty.
  - intros i x m acc _ IH c ch. rewrite lookup_insert_case. case_decide; [intros [= ->]; lia|].
    intros Hle%IH. lia.
Qed.

(** A pattern with ["**"] at most as its last component. *)
Fixpoint dstar_last (p : list string) : Prop :=
  match p with [] => True | c :: p' => (c = "**" -> p' = []) /\ dstar_last p' end.

Lemma or_else_is_some a b : is_Some a \/ is_Some b -> is_Some (or_else a b).
Proof. destruct a; cbn; [by eauto|]. by intros [[? ?]|?]. Qed.

Lemma match_fuel_complete fuel p cs seg : dstar_last p -> pm p cs -> metas_at p seg <> [] -> height seg <= fuel ->
  is_Some (match_fuel fuel cs seg).
Proof.
  intros Hd Hp. revert fuel seg Hd. induction Hp as [|c p q Hc Hp IH|c p q Hc Hp IH|c cs pre p q Hc E Hp IH];
    intros fuel seg Hd Hm Hf; (destruct fuel as [|fuel]; [destruct seg; cbn in Hf; lia|]); cbn [match_fuel];
    try rewrite bool_decide_eq_false_2 by done; cbn [metas_at] in Hm; try destruct Hd as [Hl Hd].
  - unfold meta_of. destruct (smeta seg); [done|]. by eexists.
  - destruct (schildren seg !! c) as [ch|] eqn:Ech; [|done]. pose proof (height_child _ _ _ Ech).
    apply or_else_is_some. left. apply IH; [done|done|lia].
  - destruct (schildren seg !! "*") as [ch|] eqn:Ech; [|done]. pose proof (height_child _ _ _ Ech).
    apply or_else_is_some. right. apply or_else_is_some. left. apply IH; [done|done|lia].
  - rewrite (Hl eq_refl) in Hm. destruct (schildren seg !! "**") as [ch|] eqn:Ech; [|done].
    do 2 (apply or_else_is_some; right). cbn [mbind option_bind metas_at] in *.
    apply or_else_is_some. right. unfold meta_of. destruct (smeta ch); [done|]. by eexists.
Qed.

(** A series of registrations, errors ignored, and the metas it puts under a pattern. *)
Definition register (adds : list (string * string * M)) : PathMatcher :=
  foldl (fun s '(method, pattern, meta) => (AddPattern s method pattern meta).1) NewPathMatcher adds.

Definition pattern_of (method pattern : string) : option (list string) :=
  match (pattern ← TemplateConvert pattern; components method pattern) with
  | Ok cs => if nonempty_parts cs then Some cs else None
  | _ => None
  end.

Definition registered (adds : list (string * string * M)) (p : list string) : list M :=
  omap (fun '(method, pattern, meta) => if decide (pattern_of method pattern = Some p) then Some meta else None) adds.

Lemma metas_at_AddPattern s method pattern meta p : metas_at p (AddPattern s method pattern meta).1 =
  metas_at p s ++ registered [(method, pattern, meta)] p.
Proof.
  unfold AddPattern, registered, pattern_of. cbn [omap list_omap].
  destruct (pattern ← TemplateConvert pattern; components method pattern) as [cs|m|m]; cbn [fst];
    [|by rewrite app_nil_r..].
  rewrite metas_at_add. f_equal. destruct (nonempty_parts cs); cbn; [|by rewrite andb_false_r].
  rewrite andb_true_r. destruct (decide (p = cs)) as [->|Hne].
  - by rewrite bool_decide_eq_true_2, decide_True.
  - by rewrite bool_decide_eq_false_2, decide_False by congruence.
Qed.

Lemma metas_at_register adds p : metas_at p (register adds) = registered adds p.
Proof.
  unfold register. rewrite <- (app_nil_l (registered adds p)), <- (metas_at_new p).
  change newPathSegment with NewPathMatcher. generalize NewPathMatcher.
  induction adds as [|[[m pt] x] adds IH]; intros s; cbn [foldl]; [by rewrite app_nil_r|].
  rewrite IH, metas_at_AddPattern, <- app_assoc. f_equal. unfold registered. cbn. by destruct (decide _).
Qed.

(** C16: the matcher is sound.  After any series of registrations (failed ones included),
    if [Match] accepts a request, the metas it returns are all metas registered for one
    pattern, in the order of registration, and that pattern matches the components of the
    request; if the request has an error or a panic in its own path, so has [Match]. *)
Theorem match_sound (adds : list (string * string * M)) (method path : string) :
  match components method path with
  | Ok cs => forall ms, Match (register adds) method path = Ok ms ->
      exists p, pm p cs /\ ms = registered adds p /\ ms <> []
  | Err m => Match (register adds) method path = Err m
  | Panic m => Match (register adds) method path = Panic m
  end.
Proof.
  unfold Match. destruct (components method path) as [cs|m|m]; [|done..]. intros ms.
  destruct (matchInternal cs (register adds)) as [ms'|] eqn:E; [|done]. intros [= ->].
  destruct (match_fuel_sound _ _ _ _ E) as (p & Hp & Hm & Hne). exists p.
  split_and!; [done| |done]. by rewrite <- metas_at_register.
Qed.

(** C17: the matcher is complete for patterns without ["**"] before their end.  A request
    that such a registered pattern matches is accepted, whatever other patterns are
    registered beside it. *)
Theorem match_complete (adds : list (string * string * M)) (method path : string) (cs p : list string) :
  components method path = Ok cs -> registered adds p <> [] -> dstar_last p -> pm p cs ->
  exists ms, Match (register adds) method path = Ok ms.
Proof.
  intros Hc Hr Hd Hp. unfold Match. rewrite Hc. rewrite <- metas_at_register in Hr.
  destruct (match_fuel_complete _ p cs (register adds) Hd Hp Hr (le_n _)) as [ms E].
  exists ms. unfold matchInternal. by rewrite E.
Qed.

Lemma SliceStable_none {A} (less : A -> A -> bool) (l : list A) : (forall x y, less x y = false) -> SliceStable less l = l.
Proof.
  intros Hl. induction l as [|x l IH]; [done|]. cbn. fold (SliceStable less l). rewrite IH.
  destruct l; cbn; [done|]. by rewrite Hl.
Qed.

(** The accepted metas, in the order of registration. *)
Lemma MatchWithMeta_accepts (s : PathMatcher) (method path : string) (estimate : M -> nat -> option string) (ms : list M) :
  MatchWithMeta s method path estimate = Ok ms ->
  exists cs metas n, components method path = Ok cs /\ matchInternal cs s = Some metas /\
    ms = filter (fun m => estimate m n = None) metas.
Proof.
  unfold MatchWithMeta. intros (cs & Hc & H)%gores_bind_ok. destruct (matchInternal cs s) as [metas|] eqn:Em; [|done].
  apply gores_bind_ok in H as (n & Hn & H). exists cs, metas, n. split_and!; [done|done|].
  destruct (filter _ metas) as [|m ms'] eqn:Ef; [done|]. rewrite SliceStable_none in H by
    (intros x y; unfold meta_less; rewrite eqb_reflx; cbn; destruct (Priority x); cbn; [apply Z.ltb_irrefl|done]).
  by simplify_eq.
Qed.

(** What [MatchWithMeta] accepts was registered for a pattern that matches. *)
Lemma MatchWithMeta_sound (adds : list (string * string * M)) (method path : string) (estimate : M -> nat -> option string) (ms : list M) :
  MatchWithMeta (register adds) method path estimate = Ok ms ->
  exists cs p, components method path = Ok cs /\ pm p cs /\ forall x, x ∈ ms -> x ∈ registered adds p.
Proof.
  intros (cs & metas & n & Hc & Hm & ->)%MatchWithMeta_accepts. destruct (match_fuel_sound _ _ _ _ Hm) as (p & Hp & Hat & _).
  exists cs, p. split_and!; [done|done|]. intros x [_ Hx]%list_elem_of_filter. by rewrite <- metas_at_register, Hat.
Qed.

(** priorities are ignored.  The comparison by which [MatchWithMeta] sorts compares a
    meta with itself, so the accepted metas come back in the order of registration whatever
    their priorities are. *)
Theorem priority_ignored (s : PathMatcher) (method path : string) (estimate : M -> nat -> option string) (ms : list M) :
  MatchWithMeta s method path estimate = Ok ms ->
  exists cs metas n, components method path = Ok cs /\ matchInternal cs s = Some metas /\
    ms = filter (fun m => estimate m n = None) metas.
Proof. apply MatchWithMeta_accepts. Qed.

(** ** Patterns without variables and stars *)

Definition literal (p : list string) : Prop := Forall (fun c => c <> "" /\ c <> "*" /\ c <> "**") p.

Lemma pm_literal (p cs : list string) : literal p -> pm p cs <-> p = cs.
Proof.
  intros Hp. split.
  - intros Hm. induction Hm as [|c p q Hc Hm IH|c p q Hc Hm IH|]; apply Forall_cons in Hp as [(? & ? & ?) Hp] || done; [|done..].
    f_equal. by apply IH.
  - intros <-. induction Hp as [|c p (Hc & _) Hp IH]; by constructor.
Qed.

Lemma literal_dstar_last (p : list string) : literal p -> dstar_last p.
Proof. induction 1 as [|c p (_ & _ & Hc) Hp IH]; [done|]. by split. Qed.

(** In a matcher of literal patterns a request finds exactly what is registered for its own
    components. *)
Lemma match_literal (adds : list (string * string * M)) (cs : list string) :
  (forall m pat x p, (m, pat, x) ∈ adds -> pattern_of m pat = Some p -> literal p) -> literal cs -> registered adds cs <> [] ->
  matchInternal cs (register adds) = Some (registered adds cs).
Proof.
  intros Hl Hcs Hr. destruct (match_fuel_complete (height (register adds)) cs cs (register adds)) as [ms Hms].
  - by apply literal_dstar_last.
  - by apply pm_literal.
  - by rewrite metas_at_register.
  - done.
  - unfold matchInternal. rewrite Hms. destruct (match_fuel_sound _ _ _ _ Hms) as (p & Hp & Hat & Hne).
    rewrite metas_at_register in Hat. subst ms. destruct (registered adds p) as [|x xs] eqn:Ex; [done|].
    assert (Hx : x ∈ registered adds p) by (rewrite Ex; by left). apply list_elem_of_omap in Hx as ([[m pat] x'] & Hin & Hd).
    destruct (decide (pattern_of m pat = Some p)) as [Hpat|]; [|done]. apply (Hl _ _ _ _ Hin) in Hpat. apply pm_literal in Hp as <-; [|done].
    by rewrite Ex.
Qed.

End matcher.
Arguments PathSegment : clear implicits.
Arguments PathMatcher : clear implicits.

Definition example_adds : list (string * string * nat) :=
  [("GET", "/lanxin/{id}/staff", 1); ("*", "/lanxin/www/**", 2); ("GET", "/lanxin/v1/*:meta", 3)].

Lemma match_complete_witness :
  exists ms, Match (register example_adds) "GET" "/Lanxin/v1/info:meta" = Ok ms.
Proof.
  apply (match_complete example_adds "GET" "/Lanxin/v1/info:meta"
    ["get"; "lanxin"; "v1"; "info"; ":meta"] ["get"; "lanxin"; "v1"; "*"; ":meta"]).
  - vm_compute. reflexivity.
  - vm_compute. discriminate.
  - repeat split; discriminate.
  - repeat (apply pm_lit; [discriminate|]). apply pm_star; [discriminate|].
    apply pm_lit; [discriminate|]. apply pm_nil.
Defined.

(** Two metas with priorities 9 and 1 come back in the order of registration. *)
Lemma priority_ignored_witness :
  let s := register [("GET", "/a", 9); ("GET", "/a", 1)] in
  exists cs metas (n : nat), components "GET" "/a" = Ok cs /\ matchInternal cs s = Some metas /\
    [9; 1] = filter (fun m => @None string = None) metas.
Proof.
  intros s. apply (priority_ignored (fun m => Some (Z.of_nat m)) (fun _ => Some ([], [])) s "GET" "/a" (fun _ _ => None)).
  vm_compute. reflexivity.
Defined.

(** a registered pattern can hide a match of another.  Alone, [/**/*/y] accepts the
    path [/q/a/z/y]; with [/**/a/x] registered beside it, the path is rejected, although
    the first pattern still matches it: below ["**"] the search skips the tails that follow
    a component for which there is a literal child. *)
Theorem double_star_hides_match :
  let path := "/q/a/z/y" in
  Match (register [("GET", "/**/*/y", 1)]) "GET" path = Ok [1] /\
  (exists m, Match (register [("GET", "/**/*/y", 1); ("GET", "/**/a/x", 2)]) "GET" path = Err m) /\
  (exists cs, components "GET" path = Ok cs /\ pm ["get"; "**"; "*"; "y"] cs).
Proof.
  split; [vm_compute; reflexivity|]. split; [eexists; vm_compute; reflexivity|].
  eexists. split; [vm_compute; reflexivity|]. apply pm_lit; [done|].
  apply (pm_dstar "q" ["a"; "z"; "y"] ["q"; "a"] _ ["z"; "y"]); [done|done|].
  apply pm_star; [done|]. apply pm_lit; [done|]. apply pm_nil.
Qed.

(** A service with several methods is registered under the last one only. *)
Lemma registry_keeps_last_method ms m path :
  RegistryWithPath (ms ++ [m]) path = ["/" +:+ m +:+ trim_right_char "/" path].
Proof. unfold RegistryWithPath. destruct ms; [done|]. cbn [app]. by rewrite app_comm_cons, foldl_snoc. Qed.

End PathMatcher.
