(* ===== verification/Balancer.v ===== *)
(** * Client-side load balancing ([balancer/internal/], [balancer/picker/],
    [balancer/roundrobin/]).

    [RoundRobin]: the round-robin picker with its optional address filter.
    [Balancer]: the balancer with any picker (the class [Picker]) as a state machine: address
    updates from the resolver, connections going up and down, and callers of [Get], some of
    them blocked on the balancer's wait channel.  The addresses of the balancer and of its
    picker are the same objects; a picker hands out their positions. *)

From S2P Require Import Prelude.

Open Scope string_scope.
Open Scope list_scope.

(** [grpc.Address], compared with its metadata, and the balancer's record of it. *)
Record Address := mkAddress { Addr : string; Metadata : string }.
#[export] Instance Address_eq_dec : EqDecision Address.
Proof. solve_decision. Defined.

Record AddressInfo := mkInfo { addr : Address; connected : bool }.
#[export] Instance AddressInfo_eq_dec : EqDecision AddressInfo.
Proof. solve_decision. Defined.

(** The interfaces [picker.Builder] and [picker.Picker]: [Pick] is given the addresses the
    picker was built with and gives a position, or none and an error. *)
Class Picker (P : Type) := {
  BuildPicker : list AddressInfo -> P;
  Pick : P -> list AddressInfo -> option nat * P;
  StateChanged : P -> AddressInfo -> P
}.

Module RoundRobin.

(** The picker is its field [next]; [n] is the number of addresses.  The loop runs at most
    [n] times before it is back at [cur]. *)
Fixpoint pick_loop (fuel : nat) (available : nat -> bool) (n cur next : nat) : option nat * nat :=
  match fuel with
  | O => (None, next)
  | S fuel =>
      let next' := (next + 1) mod n in
      if available next then (Some next, next')
      else if (next' =? cur)%nat then (None, next')
      else pick_loop fuel available n cur next'
  end.

(** [isAddressAvailable]: [None] when no filter is given. *)
Definition RoundRobin_Pick (filter : option (AddressInfo -> bool)) (next : nat) (addrs : list AddressInfo)
  : option nat * nat :=
  if (length addrs =? 0)%nat then (None, next)
  else match filter with
       | Some f => pick_loop (length addrs) (fun i => from_option f false (addrs !! i)) (length addrs) next next
       | None => (Some next, (next + 1) mod length addrs)
       end.

Definition round_robin (filter : option (AddressInfo -> bool)) : Picker nat := {|
  BuildPicker _ := 0;
  Pick next addrs := RoundRobin_Pick filter next addrs;
  StateChanged next _ := next
|}.

(** The positions given by [k] picks in a row. *)
Fixpoint picks (filter : option (AddressInfo -> bool)) (addrs : list AddressInfo) (next k : nat) : list (option nat) :=
  match k with
  | O => []
  | S k => let '(r, next') := RoundRobin_Pick filter next addrs in r :: picks filter addrs next' k
  end.

Lemma pick_loop_spec available n cur : 0 < n -> cur < n ->
  forall fuel j, fuel + j = n -> 
  (forall i, i < j -> available ((cur + i) mod n) = false) ->
  0 < fuel ->
  match pick_loop fuel available n cur ((cur + j) mod n) with
  | (Some p, next') => exists i, j <= i < n /\ p = (cur + i) mod n /\ available p = true /\ next' = (p + 1) mod n /\
      forall i', i' < i -> available ((cur + i') mod n) = false
  | (None, next') => next' = cur /\ forall i, i < n -> available ((cur + i) mod n) = false
  end.
Proof.
  intros Hn Hcur. induction fuel as [|fuel IH]; intros j Hj Hno Hf; [lia|]. cbn [pick_loop].
  assert (Hs : ((cur + j) mod n + 1) mod n = (cur + S j) mod n)
    by (rewrite Nat.Div0.add_mod_idemp_l; f_equal; lia).
  destruct (available ((cur + j) mod n)) eqn:Ea.
  { exists j. split_and!; [lia|lia|done|done|done|done]. }
  rewrite Hs. destruct (Nat.eqb_spec ((cur + S j) mod n) cur) as [E|E].
  - split; [done|]. assert (S j = n) as Hsj.
    { destruct (decide (S j = n)); [done|]. exfalso.
      destruct (decide (cur + S j < n)); [rewrite Nat.mod_small in E by lia; lia|].
      replace (cur + S j) with (cur + S j - n + 1 * n) in E by lia.
      rewrite Nat.Div0.mod_add, Nat.mod_small in E by lia. lia. }
    intros i Hi. destruct (decide (i = j)) as [->|]; [done|]. apply Hno. lia.
  - assert (0 < fuel) as Hf'.
    { destruct fuel; [|lia]. exfalso. apply E. replace (cur + S j) with (cur + 1 * n) by lia.
      rewrite Nat.Div0.mod_add. by apply Nat.mod_small. }
    assert (Hno' : forall i, i < S j -> available ((cur + i) mod n) = false).
    { intros i Hi. destruct (decide (i = j)) as [->|]; [done|]. apply Hno. lia. }
    specialize (IH (S j) ltac:(lia) Hno' Hf').
    destruct (pick_loop fuel available n cur ((cur + S j) mod n)) as [[p|] next']; [|done].
    destruct IH as (i & Hi & Hrest). exists i. split; [lia|done].
Qed.

(** A pick with a filter. *)
Lemma RoundRobin_Pick_spec (f : AddressInfo -> bool) (addrs : list AddressInfo) (next : nat) :
  next < length addrs ->
  let ok i := from_option f false (addrs !! ((next + i) mod length addrs)) in
  match RoundRobin_Pick (Some f) next addrs with
  | (Some p, next') => exists i, i < length addrs /\ p = (next + i) mod length addrs /\ ok i = true /\
      next' = (p + 1) mod length addrs /\ forall i', i' < i -> ok i' = false
  | (None, next') => next' = next /\ forall i, i < length addrs -> ok i = false
  end.
Proof.
  intros Hn ok. unfold RoundRobin_Pick. rewrite (proj2 (Nat.eqb_neq _ _)) by lia.
  pose proof (pick_loop_spec (fun i => from_option f false (addrs !! i)) (length addrs) next ltac:(lia) Hn
    (length addrs) 0 ltac:(lia) ltac:(lia) ltac:(lia)) as H.
  rewrite Nat.add_0_r, Nat.mod_small in H by done.
  destruct (pick_loop _ _ _ _ _) as [[p|] next']; [|done].
  destruct H as (i & Hi & -> & Ha & Hn' & Hno). exists i. split_and!; [lia|done|done|done|done].
Qed.

(** round robin with a filter.  Whatever the filter accepts, [Pick] returns after at
    most one turn: the first acceptable address at or after the current position in cyclic
    order, moving the position behind it, or an error, with the position unchanged, exactly
    when no address is acceptable. *)
Theorem round_robin_filtered (f : AddressInfo -> bool) (addrs : list AddressInfo) (next : nat) :
  next < length addrs ->
  let ok i := from_option f false (addrs !! ((next + i) mod length addrs)) in
  match RoundRobin_Pick (Some f) next addrs with
  | (Some p, next') => exists i, i < length addrs /\ p = (next + i) mod length addrs /\ ok i = true /\
      next' = (p + 1) mod length addrs /\ forall i', i' < i -> ok i' = false
  | (None, next') => next' = next /\ forall i, i < length addrs -> ok i = false
  end.
Proof. apply RoundRobin_Pick_spec. Qed.

Lemma picks_cyclic addrs next k : next < length addrs ->
  picks None addrs next k = (fun i => Some ((next + i) mod length addrs)) <$> seq 0 k.
Proof.
  intros Hn. revert next Hn. induction k as [|k IH]; intros next Hn; [done|]. cbn [picks RoundRobin_Pick].
  unfold RoundRobin_Pick. rewrite (proj2 (Nat.eqb_neq _ _)) by lia.
  rewrite IH by (apply Nat.mod_upper_bound; lia). cbn [seq]. rewrite fmap_cons. f_equal.
  - by rewrite Nat.add_0_r, Nat.mod_small.
  - rewrite <- fmap_S_seq, <- list_fmap_compose. apply list_fmap_ext. intros i x _. cbn. f_equal.
    rewrite Nat.Div0.add_mod_idemp_l. f_equal. lia.
Qed.

Lemma map_seq_ext (f : nat -> nat) a b n : (forall i, i < n -> f (a + i) = b + i) -> f <$> seq a n = seq b n.
Proof.
  revert a b. induction n as [|n IH]; intros a b Hf; [done|]. cbn [seq]. rewrite fmap_cons. f_equal.
  - rewrite <- (Nat.add_0_r a), <- (Nat.add_0_r b). apply Hf. lia.
  - apply IH. intros i Hi. rewrite !Nat.add_succ_comm. apply Hf. lia.
Qed.

(** Round robin is fair.  Without a filter, [k] picks in a row give the positions after
    the current one in cyclic order; in particular any turn of as many picks as there are
    addresses gives every address exactly once. *)
Theorem round_robin_fair (addrs : list AddressInfo) (next k : nat) :
  next < length addrs ->
  picks None addrs next k = (fun i => Some ((next + i) mod length addrs)) <$> seq 0 k /\
  picks None addrs next (length addrs) ≡ₚ Some <$> seq 0 (length addrs).
Proof.
  intros Hn. split; [by apply picks_cyclic|]. rewrite picks_cyclic by done.
  rewrite (list_fmap_compose (fun i => (next + i) mod length addrs) Some). apply fmap_Permutation.
  set (n := length addrs) in *.
  assert (E : (fun i => (next + i) mod n) <$> seq 0 n = seq next (n - next) ++ seq 0 next).
  { replace (seq 0 n) with (seq 0 (n - next) ++ seq (n - next) next)
      by (rewrite <- (Nat.add_0_l (n - next)) at 2; rewrite <- seq_app; f_equal; lia).
    rewrite fmap_app. f_equal; apply map_seq_ext; intros i Hi.
    - rewrite Nat.mod_small; lia.
    - replace (next + (n - next + i)) with (i + 1 * n) by lia. rewrite Nat.Div0.mod_add, Nat.mod_small; lia. }
  rewrite E, Permutation_app_comm, <- seq_app. f_equiv. f_equal. lia.
Qed.

Definition example_addrs : list AddressInfo :=
  [mkInfo (mkAddress "a" "") true; mkInfo (mkAddress "b" "") false; mkInfo (mkAddress "c" "") true].

Lemma round_robin_filtered_witness :
  exists i, i < 3 /\ 2 = (1 + i) mod 3 /\ from_option connected false (example_addrs !! ((1 + i) mod 3)) = true /\
    0 = (2 + 1) mod 3 /\ forall i', i' < i -> from_option connected false (example_addrs !! ((1 + i') mod 3)) = false.
Proof. exact (round_robin_filtered connected example_addrs 1 ltac:(cbn; lia)). Defined.

Lemma round_robin_fair_witness :
  picks None example_addrs 2 3 = [Some 2; Some 0; Some 1] /\
  picks None example_addrs 2 3 ≡ₚ Some <$> seq 0 3.
Proof. exact (round_robin_fair example_addrs 2 3 ltac:(cbn; lia)). Defined.

End RoundRobin.

#[export] Instance Address_countable : Countable Address.
Proof.
  refine (inj_countable' (fun a => (Addr a, Metadata a)) (fun p => mkAddress p.1 p.2) _). by intros [].
Defined.

Module Balancer.

Inductive Op := Add | Delete | OtherOp.
Record Update := mkUpdate { op : Op; uaddr : Address }.

Inductive Error := ErrClientConnClosing | ErrNoAddressAvailable | ErrBalancerClosed | ErrContext.

Section balancer.
Context {P : Type} `{Picker P}.

(** [addrCh]: [None] while nil, then what its one slot holds.  Wait channels are numbered;
    [closedChs] are the closed ones. *)
Record Balancer := mkBalancer {
  addrs : list AddressInfo; addrCh : option (option (list Address)); waitCh : option nat; done : bool; picker : P;
  nextCh : nat; closedChs : gset nat
}.

(** [NewBalancerWithPicker]; the picker is nil until the start. *)
Definition NewBalancerWithPicker (nilPicker : P) : Balancer := mkBalancer [] None None false nilPicker 0 ∅.

(** The cases of the switch in [watchAddrUpdates]. *)
Fixpoint remove_addr (a : Address) (l : list AddressInfo) : list AddressInfo :=
  match l with
  | [] => []
  | v :: l' => if decide (a = addr v) then l' else v :: remove_addr a l'
  end.
Definition apply_update (l : list AddressInfo) (u : Update) : list AddressInfo :=
  match op u with
  | Add => if existsb (fun v => bool_decide (uaddr u = addr v)) l then l else l ++ [mkInfo (uaddr u) false]
  | Delete => remove_addr (uaddr u) l
  | OtherOp => l
  end.

Definition watchAddrUpdates (s : Balancer) (updates : list Update) : Balancer * option Error :=
  let l := foldl apply_update (addrs s) updates in
  if done s then (mkBalancer l (addrCh s) (waitCh s) true (picker s) (nextCh s) (closedChs s), Some ErrClientConnClosing)
  else (mkBalancer l (Some (Some (addr <$> l))) (waitCh s) false (BuildPicker l) (nextCh s) (closedChs s), None).

(** [StartInternal]; [resolver]: is there one. *)
Definition StartInternal (s : Balancer) (resolver : bool) (target : string) : Balancer * option Error :=
  if done s then (s, Some ErrClientConnClosing)
  else if resolver then
    (mkBalancer (addrs s) (Some None) (waitCh s) (done s) (BuildPicker []) (nextCh s) (closedChs s), None)
  else
    let l := addrs s ++ [mkInfo (mkAddress target "") false] in
    (mkBalancer l (addrCh s) (waitCh s) (done s) (BuildPicker l) (nextCh s) (closedChs s), None).

(** The loop of [Up]: [None] when it returns early, the address being up already; else the
    new list, the picker, and the number of connected addresses. *)
Fixpoint up_loop (a : Address) (l : list AddressInfo) (p : P) : option (list AddressInfo * P * nat) :=
  match l with
  | [] => Some ([], p, 0)
  | v :: l' =>
      if decide (addr v = a) then
        if connected v then None
        else
          let v := mkInfo (addr v) true in
          '(l', p, cnt) ← up_loop a l' (StateChanged p v); Some (v :: l', p, S cnt)
      else '(l', p, cnt) ← up_loop a l' p; Some (v :: l', p, if connected v then S cnt else cnt)
  end.

Definition closeWait (s : Balancer) : Balancer :=
  match waitCh s with
  | Some ch => mkBalancer (addrs s) (addrCh s) None (done s) (picker s) (nextCh s) ({[ch]} ∪ closedChs s)
  | None => s
  end.

Definition Up (s : Balancer) (a : Address) : Balancer :=
  match up_loop a (addrs s) (picker s) with
  | None => s
  | Some (l, p, cnt) =>
      let s := mkBalancer l (addrCh s) (waitCh s) (done s) p (nextCh s) (closedChs s) in
      if (cnt =? 1)%nat then closeWait s else s
  end.

Fixpoint down_loop (a : Address) (l : list AddressInfo) (p : P) : list AddressInfo * P :=
  match l with
  | [] => ([], p)
  | v :: l' =>
      if decide (a = addr v) then let v := mkInfo (addr v) false in (v :: l', StateChanged p v)
      else let '(l', p) := down_loop a l' p in (v :: l', p)
  end.
Definition down (s : Balancer) (a : Address) : Balancer :=
  let '(l, p) := down_loop a (addrs s) (picker s) in
  mkBalancer l (addrCh s) (waitCh s) (done s) p (nextCh s) (closedChs s).

(** One round of [Get]: the result, or the channel to wait on. *)
Inductive Getting := Got (a : Address) | Failed (e : Error) | Wait (ch : nat).

Definition Get (s : Balancer) (blockingWait : bool) : Getting * Balancer :=
  if done s then (Failed ErrClientConnClosing, s)
  else
    let '(i, p) := Pick (picker s) (addrs s) in
    let s := mkBalancer (addrs s) (addrCh s) (waitCh s) (done s) p (nextCh s) (closedChs s) in
    match i ≫= fun i => addrs s !! i with
    | None => (Failed ErrNoAddressAvailable, s)
    | Some info =>
        if connected info then (Got (addr info), s)
        else if negb blockingWait then
          (if (length (addrs s) =? 0)%nat then Failed ErrNoAddressAvailable else Got (addr info), s)
        else match waitCh s with
             | Some ch => (Wait ch, s)
             | None => (Wait (nextCh s),
                 mkBalancer (addrs s) (addrCh s) (Some (nextCh s)) (done s) (picker s) (S (nextCh s)) (closedChs s))
             end
    end.

Definition Close (s : Balancer) : Balancer * option Error :=
  if done s then (s, Some ErrBalancerClosed)
  else (closeWait (mkBalancer (addrs s) (addrCh s) (waitCh s) true (picker s) (nextCh s) (closedChs s)), None).

(** ** The balancer and its callers *)

Record world := mkWorld { balancer : Balancer; callers : gmap nat Getting }.

Inductive label :=
| LUpdates (us : list Update) | LUp (a : Address) | LDown (a : Address) | LClose
| LGet (i : nat) (blockingWait : bool) | LWake (i : nat) | LCancel (i : nat).

(** A blocked caller goes on when its channel is closed, or when its context is done. *)
Definition do_step (w : world) (l : label) : option world :=
  let s := balancer w in
  match l with
  | LUpdates us => Some (mkWorld (watchAddrUpdates s us).1 (callers w))
  | LUp a => Some (mkWorld (Up s a) (callers w))
  | LDown a => Some (mkWorld (down s a) (callers w))
  | LClose => Some (mkWorld (Close s).1 (callers w))
  | LGet i b =>
      match callers w !! i with
      | Some _ => None
      | None => let '(g, s) := Get s b in Some (mkWorld s (<[i := g]> (callers w)))
      end
  | LWake i =>
      match callers w !! i with
      | Some (Wait ch) =>
          if bool_decide (ch ∈ closedChs s)
          then let '(g, s) := Get s true in Some (mkWorld s (<[i := g]> (callers w))) else None
      | _ => None
      end
  | LCancel i =>
      match callers w !! i with
      | Some (Wait _) => Some (mkWorld s (<[i := Failed ErrContext]> (callers w)))
      | _ => None
      end
  end.

Definition run (w : world) (ls : list label) : option world := foldl (fun o l => o ≫= fun w => do_step w l) (Some w) ls.

End balancer.
Arguments Balancer : clear implicits.
Arguments world : clear implicits.

(** ** The address list *)

(** What a series of updates makes of a set of addresses. *)
Definition set_update (x : gset Address) (u : Update) : gset Address :=
  match op u with Add => {[uaddr u]} ∪ x | Delete => x ∖ {[uaddr u]} | OtherOp => x end.

Definition addresses (l : list AddressInfo) : gset Address := list_to_set (addr <$> l).

Lemma elem_addresses a l : a ∈ addresses l <-> exists v, v ∈ l /\ addr v = a.
Proof. unfold addresses. rewrite elem_of_list_to_set, list_elem_of_fmap. naive_solver. Qed.

Lemma remove_addr_sublist a l : sublist (remove_addr a l) l.
Proof. induction l as [|v l IH]; [constructor|]. cbn. destruct (decide _); by constructor. Qed.

Lemma remove_addr_elem a l v : NoDup (addr <$> l) -> v ∈ remove_addr a l <-> v ∈ l /\ addr v <> a.
Proof.
  induction l as [|w l IH]; cbn [remove_addr fmap list_fmap].
  - intros _. split; [by intros ?%elem_of_nil|by intros [?%elem_of_nil _]].
  - intros [Hw Hl]%NoDup_cons. destruct (decide (a = addr w)) as [->|Hne].
    + rewrite elem_of_cons. split; [|naive_solver]. intros Hv. split; [by right|]. intros Hvw. apply Hw.
      rewrite <- Hvw. by apply list_elem_of_fmap_2.
    + rewrite !elem_of_cons, IH by done. naive_solver.
Qed.

Lemma existsb_addr a l : existsb (fun v => bool_decide (a = addr v)) l = bool_decide (a ∈ addresses l).
Proof.
  apply Bool.eq_true_iff_eq. rewrite existsb_exists, bool_decide_eq_true, elem_addresses.
  setoid_rewrite bool_decide_eq_true. setoid_rewrite list_elem_of_In. naive_solver.
Qed.

(** One update: no address twice, the set follows, and an address that stays is not touched. *)
Lemma apply_update_spec l u : NoDup (addr <$> l) ->
  NoDup (addr <$> apply_update l u) /\ addresses (apply_update l u) = set_update (addresses l) u /\
  forall v, v ∈ l -> (op u = Delete -> addr v <> uaddr u) -> v ∈ apply_update l u.
Proof.
  intros Hl. unfold apply_update, set_update. destruct (op u); [| |done].
  - rewrite existsb_addr. case_bool_decide as Ha; [split_and!; [done|set_solver|done]|]. split_and!.
    + rewrite fmap_app. cbn. apply NoDup_app. split_and!; [done| |apply NoDup_singleton].
      intros x Hx ->%list_elem_of_singleton. apply Ha. by apply elem_of_list_to_set.
    + unfold addresses. rewrite fmap_app, list_to_set_app_L. cbn. set_solver.
    + intros v Hv _. apply elem_of_app. by left.
  - split_and!.
    + eapply sublist_NoDup; [exact Hl|]. apply fmap_sublist, remove_addr_sublist.
    + apply set_eq. intros a. rewrite elem_of_difference, !elem_addresses, elem_of_singleton.
      setoid_rewrite (remove_addr_elem (uaddr u) l); [|done]. naive_solver.
    + intros v Hv Hne. apply remove_addr_elem; [done|]. auto.
Qed.

Lemma apply_updates_spec us l : NoDup (addr <$> l) ->
  NoDup (addr <$> foldl apply_update l us) /\ addresses (foldl apply_update l us) = foldl set_update (addresses l) us /\
  forall v, v ∈ l -> (forall u, u ∈ us -> op u = Delete -> addr v <> uaddr u) -> v ∈ foldl apply_update l us.
Proof.
  revert l. induction us as [|u us IH]; intros l Hl; cbn [foldl]; [done|].
  destruct (apply_update_spec l u Hl) as (H1 & H2 & H3). destruct (IH _ H1) as (H4 & H5 & H6).
  split_and!; [done|by rewrite H5, H2|]. intros v Hv Hu. apply H6.
  - apply H3; [done|]. apply Hu. by left.
  - intros u' Hu'. apply Hu. by right.
Qed.

(** The balancer follows the resolver.  From a balancer without duplicate addresses, a
    batch of updates leaves one without duplicates whose addresses are those the additions
    and removals of the batch make of the old set, an address that is not removed keeping
    its connection; and unless the balancer is closed, the channel to the connection pool
    then holds the current list, whether or not the previous one was received. *)
Theorem balancer_follows_updates {P} `{Picker P} (s : Balancer P) (us : list Update) :
  NoDup (addr <$> addrs s) ->
  let '(s', e) := watchAddrUpdates s us in
  NoDup (addr <$> addrs s') /\ addresses (addrs s') = foldl set_update (addresses (addrs s)) us /\
  (forall v, v ∈ addrs s -> (forall u, u ∈ us -> op u = Delete -> addr v <> uaddr u) -> v ∈ addrs s') /\
  if done s then e = Some ErrClientConnClosing else e = None /\ addrCh s' = Some (Some (addr <$> addrs s')).
Proof.
  intros Hl. destruct (apply_updates_spec us (addrs s) Hl) as (H1 & H2 & H3). unfold watchAddrUpdates.
  by destruct (done s).
Qed.

Definition rr : Picker nat := RoundRobin.round_robin None.
#[local] Existing Instance rr.

Definition addr_a : Address := mkAddress "a" "".
Definition addr_b : Address := mkAddress "b" "".

Lemma balancer_follows_updates_witness :
  let s := mkBalancer (P := nat) [mkInfo addr_a true] (Some None) None false 0 0 ∅ in
  let '(s', e) := watchAddrUpdates s [mkUpdate Add addr_b; mkUpdate Delete addr_a; mkUpdate Add addr_b] in
  addresses (addrs s') = {[addr_b]}.
Proof.
  intros s. pose proof (balancer_follows_updates s
    [mkUpdate Add addr_b; mkUpdate Delete addr_a; mkUpdate Add addr_b] (NoDup_singleton _)) as Hb.
  destruct (watchAddrUpdates s _) as [s' e]. destruct Hb as (_ & -> & _). vm_compute. reflexivity.
Defined.

(** ** A caller left waiting *)

(** A connection coming up, a call starting, a call going on. *)
Definition progress (l : label) : Prop := match l with LUp _ | LGet _ _ | LWake _ => True | _ => False end.

(** [a] is up, a caller gets [a], the next caller gets [b] and waits, [b] comes up. *)
Definition starving_trace : list label :=
  [LUpdates [mkUpdate Add addr_a; mkUpdate Add addr_b]; LUp addr_a; LGet 0 true; LGet 1 true; LUp addr_b].

Record starving (w : world nat) : Prop := {
  st_addrs : addrs (balancer w) = [mkInfo addr_a true; mkInfo addr_b true];
  st_done : done (balancer w) = false;
  st_wait : waitCh (balancer w) = Some 0;
  st_closed : closedChs (balancer w) = ∅;
  st_caller : callers w !! 1 = Some (Wait 0)
}.

Lemma up_starving s a : addrs s = [mkInfo addr_a true; mkInfo addr_b true] ->
  addrs (Up s a) = addrs s /\ done (Up s a) = done s /\ waitCh (Up s a) = waitCh s /\ closedChs (Up s a) = closedChs s.
Proof.
  intros Ha. unfold Up. rewrite Ha. cbn. destruct (decide (addr_a = a)); cbn; [by rewrite Ha|].
  destruct (decide (addr_b = a)); cbn; by rewrite ?Ha.
Qed.

Lemma get_starving s b : addrs s = [mkInfo addr_a true; mkInfo addr_b true] -> waitCh s <> None ->
  let s' := (Get s b).2 in
  addrs s' = addrs s /\ done s' = done s /\ waitCh s' = waitCh s /\ closedChs s' = closedChs s.
Proof.
  intros Ha Hw. unfold Get. destruct (done s) eqn:Ed; [by split_and!|].
  destruct (Pick (picker s) (addrs s)) as [i p]. cbn. rewrite Ha.
  destruct (i ≫= _) as [info|]; [|done]. destruct (connected info); [done|]. destruct b; [|done]. cbn.
  by destruct (waitCh s).
Qed.

Lemma progress_starving w l w' : starving w -> progress l -> do_step w l = Some w' -> starving w'.
Proof.
  intros [Ha Hd Hw Hc Hcl] Hl Hs. destruct l as [us|a|a| |i b|i|i]; try done; cbn in Hs.
  - simplify_eq. destruct (up_starving (balancer w) a Ha) as (H1 & H2 & H3 & H4). constructor; cbn; congruence.
  - destruct (callers w !! i) eqn:Ei; [done|].
    pose proof (get_starving (balancer w) b Ha ltac:(congruence)) as Hg.
    destruct (Get (balancer w) b) as [g s']. cbn in Hg. destruct Hg as (H1 & H2 & H3 & H4). simplify_eq.
    constructor; cbn; try congruence. rewrite lookup_insert_ne by congruence. done.
  - destruct (callers w !! i) as [[| |ch]|]; try done. rewrite Hc in Hs.
    rewrite bool_decide_eq_false_2 in Hs by set_solver. done.
Qed.

(** a blocked caller can wait for ever.  A call that finds its picked address down
    waits for the wait channel, which is closed only when the number of connected
    addresses becomes exactly one.  With one address up and the picker giving the other, a
    blocking [Get] waits; when the second address comes up, the channel stays open, and
    from then on, with every address connected, no connection coming up and no call that
    starts or goes on ever wakes the caller. *)
Theorem blocked_get_starves :
  exists w, run (mkWorld (StartInternal (NewBalancerWithPicker 0) true "t").1 ∅) starving_trace = Some w /\
    Forall (fun v => connected v = true) (addrs (balancer w)) /\ callers w !! 1 = Some (Wait 0) /\
    forall ls w', Forall progress ls -> run w ls = Some w' -> callers w' !! 1 = Some (Wait 0).
Proof.
  eexists. split; [vm_compute; reflexivity|]. split; [by repeat constructor|]. split; [vm_compute; reflexivity|].
  intros ls. set (w0 := mkWorld _ _). assert (Hw : starving w0) by (constructor; vm_compute; reflexivity).
  revert Hw. generalize w0. clear w0. induction ls as [|l ls IH]; intros w0 Hw w' Hl.
  - intros [= <-]. apply Hw.
  - apply Forall_cons in Hl as [Hl Hls]. unfold run. cbn [foldl mbind option_bind].
    destruct (do_step w0 l) as [w1|] eqn:E.
    + intros Hr. exact (IH w1 (progress_starving _ _ _ Hw Hl E) w' Hls Hr).
    + intros Hr. exfalso. clear -Hr. induction ls; [done|]. by apply IHls.
Qed.

End Balancer.
