(* ===== verification/MemoryRegistry.v ===== *)
(** * The in-memory service registry ([registry/memory.go], [registry/notifier.go],
    [registry/watcher.go]).

    The registry maps service names to instances (address and metadata) and tells its
    watchers about changes; a resolver's watcher turns the changes of one service into
    naming updates, which a balancer ([Balancer]) applies to its addresses.  The theorems say
    when the two ends agree, and how they come apart. *)

From S2P Require Import Prelude GoStrings Balancer.

Open Scope string_scope.
Open Scope list_scope.

Module MemoryRegistry.
Import Balancer.

(** [entries]: service, then address, then metadata.  An instance is an [Address]. *)
Notation registry := (gmap string (gmap string string)).

Inductive event := OnUpdate (serviceName : string) (instances : list Address)
| OnDelete (serviceName : string) (instances : list Address).

Definition instance_list (m : gmap string string) : list Address := (fun p => mkAddress p.1 p.2) <$> map_to_list m.

(** The instances of a service are dropped with the last of them. *)
Definition store (r : registry) (serviceName : string) (m : gmap string string) : registry :=
  if bool_decide (m = ∅) then delete serviceName r else <[serviceName := m]> r.

(** ** Operations, with the notifications they send *)

Definition RegisterService (r : registry) (serviceName addr meta : string) : registry * list event :=
  (<[serviceName := <[addr := meta]> (default ∅ (r !! serviceName))]> r, [OnUpdate serviceName [mkAddress addr meta]]).

Definition UnregisterService (r : registry) (serviceName addr : string) : registry * list event :=
  match r !! serviceName with
  | None => (r, [OnDelete serviceName []])
  | Some m =>
      if bool_decide (addr = "") then (delete serviceName r, [OnDelete serviceName (instance_list m)])
      else
        let dels := match m !! addr with Some meta => [mkAddress addr meta] | None => [] end in
        let m' := delete addr m in
        (store r serviceName m', [OnDelete serviceName dels])
  end.

(** The loop over the entries for one service: the new instances, those of the previous
    ones not seen again, and the additions to notify. *)
Definition entry_step (acc : gmap string string * gmap string string * list Address) (entry : Address)
  : gmap string string * gmap string string * list Address :=
  let '(instanceMap, prev, newInsts) := acc in
  let instanceMap := <[Addr entry := Metadata entry]> instanceMap in
  match prev !! Addr entry with
  | None => (instanceMap, prev, newInsts ++ [entry])
  | Some _ => (instanceMap, delete (Addr entry) prev, newInsts)
  end.

(** [notifyMap] is an association list in which a later entry for a service replaces an
    earlier one. *)
Definition service_step (entries : list Address) (acc : registry * list (string * (list Address * list Address)))
    (serviceName : string) : registry * list (string * (list Address * list Address)) :=
  let '(r, notifyMap) := acc in
  let '(instanceMap, prev, newInsts) := foldl entry_step (∅, default ∅ (r !! serviceName), []) entries in
  (store r serviceName instanceMap,
   filter (fun p => p.1 <> serviceName) notifyMap ++ [(serviceName, (newInsts, instance_list prev))]).

Definition notify_events (n : string * (list Address * list Address)) : list event :=
  let '(serviceName, (newInsts, delInsts)) := n in
  (match newInsts with [] => [] | _ => [OnUpdate serviceName newInsts] end) ++
  (match delInsts with [] => [] | _ => [OnDelete serviceName delInsts] end).

Definition RegisterServiceWithEntries (r : registry) (serviceNames : list string) (entries : list Address)
  : registry * list event :=
  let '(r, notifyMap) := foldl (service_step entries) (r, []) serviceNames in
  (r, notifyMap ≫= notify_events).

(** ** Queries *)

Definition ServiceInstances (r : registry) (serviceName : string) : list Address :=
  match r !! serviceName with None => [] | Some m => instance_list m end.
Definition HasService (r : registry) (serviceName : string) : bool :=
  (0 <? size (default ∅ (r !! serviceName)))%nat.
Definition HasInstance (r : registry) (serviceName addr : string) : bool :=
  if (size (default ∅ (r !! serviceName)) =? 0)%nat then false
  else bool_decide (is_Some (default ∅ (r !! serviceName) !! addr)).
Definition ListServiceAddresses (r : registry) (serviceName : string) : list string :=
  match r !! serviceName with None => [] | Some m => (map_to_list m).*1 end.
Definition ListServiceByPrefix (r : registry) (prefix : string) : gmap string (list string) :=
  (fun m => (map_to_list m).*1) <$>
    filter (fun '(s, m) => m <> ∅ /\ (prefix = "" \/ HasPrefix s prefix = true)) r.
Definition ListAllService (r : registry) : list (string * list Address) :=
  omap (fun '(s, m) => if bool_decide (m = ∅) then None else Some (s, instance_list m)) (map_to_list r).

(** ** A resolver's watcher *)

(** [notifyServiceUpdate] and [notifyServiceDelete] *)
Definition notified (target : string) (e : event) : list Update :=
  match e with
  | OnUpdate s l => if bool_decide (s = target) then mkUpdate Add <$> l else []
  | OnDelete s l => if bool_decide (s = target) then mkUpdate Delete <$> l else []
  end.

Inductive op :=
| Register (serviceName addr meta : string)
| Unregister (serviceName addr : string)
| RegisterEntries (serviceNames : list string) (entries : list Address).

Definition apply_op (r : registry) (o : op) : registry * list event :=
  match o with
  | Register s a m => RegisterService r s a m
  | Unregister s a => UnregisterService r s a
  | RegisterEntries ss es => RegisterServiceWithEntries r ss es
  end.

(** The watcher's first [Next] reads the instances, and then subscribes; the two do not
    happen under one lock.  [stream]: the updates its [Next] calls return, in order. *)
Inductive phase := Idle | HasRead | Subscribed.
Record world := mkWorld { reg : registry; watcher : phase; stream : list Update }.
Inductive label := LOp (o : op) | LRead | LSubscribe.

(** An operation is one step with the notification that it sends after it gave the lock back:
    operations of the registry come one after the other.  [Discovery.process] takes the two
    apart. *)
Definition do_step (target : string) (w : world) (l : label) : world :=
  match l with
  | LOp o =>
      let '(r, es) := apply_op (reg w) o in
      mkWorld r (watcher w)
        (match watcher w with Subscribed => stream w ++ (es ≫= notified target) | _ => stream w end)
  | LRead => match watcher w with
             | Idle => mkWorld (reg w) HasRead (mkUpdate Add <$> ServiceInstances (reg w) target)
             | _ => w
             end
  | LSubscribe => match watcher w with HasRead => mkWorld (reg w) Subscribed (stream w) | _ => w end
  end.

Definition run (target : string) (ls : list label) : world := foldl (do_step target) (mkWorld ∅ Idle []) ls.

(** The addresses of a balancer that applied the whole stream. *)
Definition balancer_view (w : world) : gset Address := addresses (foldl apply_update [] (stream w)).

(** The instances of a service, as a set. *)
Definition instances (r : registry) (s : string) : gset Address := list_to_set (ServiceInstances r s).

(** ** Agreement of registry and balancer *)

Lemma elem_instance_list a m : a ∈ instance_list m <-> m !! Addr a = Some (Metadata a).
Proof.
  unfold instance_list. rewrite list_elem_of_fmap. split.
  - intros ([k v] & -> & H%elem_of_map_to_list). done.
  - intros H. exists (Addr a, Metadata a). split; [by destruct a|]. by apply elem_of_map_to_list.
Qed.

Lemma elem_instances a r s : a ∈ instances r s <-> default ∅ (r !! s) !! Addr a = Some (Metadata a).
Proof.
  unfold instances, ServiceInstances. rewrite elem_of_list_to_set. destruct (r !! s) as [m|]; cbn.
  - apply elem_instance_list.
  - rewrite lookup_empty. split; [by intros ?%elem_of_nil|done].
Qed.

Lemma set_update_adds X l : foldl set_update X (mkUpdate Add <$> l) = X ∪ list_to_set l.
Proof. revert X. induction l as [|a l IH]; intros X; cbn; [set_solver|]. rewrite IH. cbn. set_solver. Qed.

Lemma set_update_deletes X l : foldl set_update X (mkUpdate Delete <$> l) = X ∖ list_to_set l.
Proof. revert X. induction l as [|a l IH]; intros X; cbn; [set_solver|]. rewrite IH. cbn. set_solver. Qed.

(** Registrations keep to one metadata per address of a service. *)
Section agreement.
Context (meta : string -> string -> string).

Definition op_ok (o : op) : Prop :=
  match o with
  | Register s a m => m = meta s a
  | Unregister _ _ => True
  | RegisterEntries ss es => NoDup ss /\ forall s e, s ∈ ss -> e ∈ es -> Metadata e = meta s (Addr e)
  end.

Definition consistent (r : registry) : Prop :=
  forall s m, r !! s = Some m -> m <> ∅ /\ forall a x, m !! a = Some x -> x = meta s a.

(** What an operation notifies for a service turns its old instances into its new ones. *)
Definition in_step (target : string) (r r' : registry) (es : list event) : Prop :=
  foldl set_update (instances r target) ((es ≫= notified target)) = instances r' target.

Lemma store_lookup r s m s' : default ∅ (store r s m !! s') = if decide (s = s') then m else default ∅ (r !! s').
Proof.
  unfold store. case_bool_decide as Hm.
  - rewrite lookup_delete_case. by case_decide.
  - rewrite lookup_insert_case. by case_decide.
Qed.

Lemma store_consistent r s m : consistent r -> (forall a x, m !! a = Some x -> x = meta s a) -> consistent (store r s m).
Proof.
  intros Hr Hm s' m'. unfold store. case_bool_decide as He.
  - rewrite lookup_delete_case. case_decide; [done|apply Hr].
  - rewrite lookup_insert_case. case_decide; [intros; by simplify_eq|apply Hr].
Qed.

Lemma cur_consistent r s a x : consistent r -> default ∅ (r !! s) !! a = Some x -> x = meta s a.
Proof.
  intros Hr. destruct (r !! s) as [m|] eqn:E; cbn; [|by rewrite lookup_empty]. apply (Hr s m E).
Qed.

Definition event_service (e : event) : string := match e with OnUpdate s _ | OnDelete s _ => s end.

Lemma notified_other target es : Forall (fun e => event_service e <> target) es -> (es ≫= notified target) = [].
Proof.
  induction 1 as [|e es He _ IH]; [done|]. rewrite bind_cons, IH, app_nil_r.
  destruct e; cbn in *; by rewrite bool_decide_eq_false_2.
Qed.

Lemma in_step_other target r r' es : default ∅ (r' !! target) = default ∅ (r !! target) ->
  Forall (fun e => event_service e <> target) es -> in_step target r r' es.
Proof.
  intros Hr He. unfold in_step. rewrite notified_other by done. cbn. apply set_eq. intros a.
  by rewrite !elem_instances, Hr.
Qed.

Lemma register_in_step target r s a : consistent r ->
  let '(r', es) := RegisterService r s a (meta s a) in consistent r' /\ in_step target r r' es.
Proof.
  intros Hr. cbn. set (m := <[a:=meta s a]> (default ∅ (r !! s))).
  assert (E : <[s:=m]> r = store r s m) by (unfold store; rewrite bool_decide_eq_false_2 by apply insert_non_empty; done).
  rewrite E. split.
  - apply store_consistent; [done|]. intros a' x. unfold m. rewrite lookup_insert_case.
    case_decide; [intros; by simplify_eq|by apply cur_consistent].
  - destruct (decide (s = target)) as [->|Hne].
    + unfold in_step. cbn. rewrite bool_decide_eq_true_2 by done. cbn. apply set_eq. intros [xa xm].
      rewrite elem_of_union, elem_of_singleton, !elem_instances, store_lookup, decide_True by done. cbn.
      unfold m. rewrite lookup_insert_case. case_decide as Ha; [subst|naive_solver].
      split; [|by intros [= <-]; left].
      intros [Hx|Hx]; [by simplify_eq|]. by rewrite (cur_consistent _ _ _ _ Hr Hx).
    + apply in_step_other; [by rewrite store_lookup, decide_False|by repeat constructor].
Qed.

(** Removing instances and saying so. *)
Lemma store_deletes target r s m dels : consistent r ->
  (forall a x, m !! a = Some x <-> default ∅ (r !! s) !! a = Some x /\ mkAddress a x ∉ dels) ->
  consistent (store r s m) /\ in_step target r (store r s m) [OnDelete s dels].
Proof.
  intros Hr Hm. split.
  - apply store_consistent; [done|]. intros a x [Hx _]%Hm. by eapply cur_consistent.
  - destruct (decide (s = target)) as [->|Hne].
    + unfold in_step. cbn. rewrite bool_decide_eq_true_2, app_nil_r, set_update_deletes by done.
      apply set_eq. intros [a x]. rewrite elem_of_difference, elem_of_list_to_set, !elem_instances, store_lookup,
        decide_True by done. cbn. by rewrite Hm.
    + apply in_step_other; [by rewrite store_lookup, decide_False|by repeat constructor].
Qed.

Lemma unregister_in_step target r s a : consistent r ->
  let '(r', es) := UnregisterService r s a in consistent r' /\ in_step target r r' es.
Proof.
  intros Hr. unfold UnregisterService. destruct (r !! s) as [m|] eqn:E.
  - assert (Hd : delete s r = store r s ∅) by (unfold store; by rewrite bool_decide_eq_true_2).
    case_bool_decide as Ha; [rewrite Hd|]; apply store_deletes; try done; rewrite E; cbn; intros a' x.
    + rewrite lookup_empty, elem_instance_list. cbn. naive_solver.
    + rewrite lookup_delete_case. case_decide as Haa; [subst a'|].
      * split; [done|]. intros [Hx Hn]. rewrite Hx in Hn. destruct Hn. by left.
      * destruct (m !! a); [rewrite list_elem_of_singleton; naive_solver|]. pose proof (not_elem_of_nil (mkAddress a' x)).
        naive_solver.
  - split; [done|]. unfold in_step. cbn. by case_bool_decide.
Qed.

(** The loop over the entries, its three accumulators apart. *)
Lemma entry_step_eq im prev new e : entry_step (im, prev, new) e =
  (<[Addr e := Metadata e]> im, delete (Addr e) prev, new ++ if decide (prev !! Addr e = None) then [e] else []).
Proof.
  unfold entry_step. destruct (prev !! Addr e) eqn:E.
  - by rewrite app_nil_r.
  - by rewrite delete_id.
Qed.

Lemma entry_loop_map s es : (forall e, e ∈ es -> Metadata e = meta s (Addr e)) -> forall im prev new a x,
  (foldl entry_step (im, prev, new) es).1.1 !! a = Some x <->
  mkAddress a x ∈ es \/ im !! a = Some x /\ a ∉ Addr <$> es.
Proof.
  induction es as [|e es IH]; intros Hes im prev new a x; cbn [foldl].
  - cbn. split; [intros H; right; split; [done|apply not_elem_of_nil]|by intros [?%elem_of_nil|[? _]]].
  - rewrite entry_step_eq, IH by (intros; apply Hes; by right). rewrite elem_of_cons, fmap_cons, not_elem_of_cons.
    rewrite lookup_insert_case. destruct e as [ea em]. cbn. case_decide as Hea; [subst ea|naive_solver].
    split; [naive_solver|]. intros [[[= Hx]|H]|[_ [Hne _]]]; [subst em|by left|done].
    destruct (decide (a ∈ Addr <$> es)) as [Hin|Hin]; [|by right]. left.
    apply list_elem_of_fmap in Hin as ([a' x'] & -> & He'). cbn.
    assert (E : x = x') by (etrans; [apply (Hes (mkAddress a' x)); by left|symmetry; apply (Hes (mkAddress a' x')); by right]).
    by rewrite E.
Qed.

Lemma entry_loop_prev es im prev new a :
  (foldl entry_step (im, prev, new) es).1.2 !! a = if decide (a ∈ Addr <$> es) then None else prev !! a.
Proof.
  revert im prev new. induction es as [|e es IH]; intros im prev new; cbn [foldl].
  - by rewrite decide_False by apply not_elem_of_nil.
  - rewrite entry_step_eq, IH, lookup_delete_case, fmap_cons. repeat case_decide; set_solver.
Qed.

Lemma entry_loop_new es im prev new e :
  (e ∈ (foldl entry_step (im, prev, new) es).2 -> e ∈ new \/ e ∈ es) /\
  (e ∈ new \/ e ∈ es /\ prev !! Addr e = None -> e ∈ (foldl entry_step (im, prev, new) es).2).
Proof.
  revert im prev new. induction es as [|e' es IH]; intros im prev new; cbn [foldl].
  - cbn. split; [by left|]. intros [?|[?%elem_of_nil _]]; done.
  - rewrite entry_step_eq. destruct (IH (<[Addr e' := Metadata e']> im) (delete (Addr e') prev)
      (new ++ if decide (prev !! Addr e' = None) then [e'] else [])) as [H1 H2]. split.
    + intros [H|H]%H1; [|set_solver]. apply elem_of_app in H as [H|H]; [by left|].
      case_decide; set_solver.
    + intros H. apply H2. rewrite elem_of_app, lookup_delete_case, elem_of_cons in *.
      destruct H as [H|[[->|H] Hp]]; [by auto| |].
      * left. right. rewrite decide_True by done. by left.
      * right. split; [done|]. by destruct (decide (Addr e' = Addr e)).
Qed.

Lemma notify_events_sets X s new dels :
  foldl set_update X (notify_events (s, (new, dels)) ≫= notified s) = (X ∪ list_to_set new) ∖ list_to_set dels.
Proof.
  assert (Ha : forall X, foldl set_update X ((match new with [] => [] | _ => [OnUpdate s new] end) ≫= notified s) = X ∪ list_to_set new).
  { intros Y. rewrite <- set_update_adds. destruct new; [done|]. cbn [mbind list_bind notified].
    by rewrite bool_decide_eq_true_2, app_nil_r. }
  assert (Hd : forall X, foldl set_update X ((match dels with [] => [] | _ => [OnDelete s dels] end) ≫= notified s) = X ∖ list_to_set dels).
  { intros Y. rewrite <- set_update_deletes. destruct dels; [done|]. cbn [mbind list_bind notified].
    by rewrite bool_decide_eq_true_2, app_nil_r. }
  cbn [notify_events]. by rewrite bind_app, foldl_app, Ha, Hd.
Qed.

(** One service: its new instances are the entries, and the notifications say how. *)
Lemma service_in_step target r nm s es : consistent r -> (forall e, e ∈ es -> Metadata e = meta s (Addr e)) ->
  let '(r', nm') := service_step es (r, nm) s in
  consistent r' /\ (forall s', s' <> s -> default ∅ (r' !! s') = default ∅ (r !! s')) /\
  exists n, nm' = filter (fun p => p.1 <> s) nm ++ [(s, n)] /\ in_step target r r' (notify_events (s, n)).
Proof.
  intros Hr Hes. unfold service_step.
  pose proof (entry_loop_map s es Hes ∅ (default ∅ (r !! s)) []) as Hm.
  pose proof (entry_loop_prev es ∅ (default ∅ (r !! s)) []) as Hp.
  pose proof (entry_loop_new es ∅ (default ∅ (r !! s)) []) as Hn.
  destruct (foldl entry_step (∅, default ∅ (r !! s), []) es) as [[im prev] new]. cbn [fst snd] in *.
  assert (Him : forall a x, im !! a = Some x <-> mkAddress a x ∈ es).
  { intros a x. rewrite Hm, lookup_empty. naive_solver. }
  split_and!.
  - apply store_consistent; [done|]. intros a x He%Him. by apply (Hes (mkAddress a x)).
  - intros s' Hs'. rewrite store_lookup. by rewrite decide_False by congruence.
  - eexists. split; [reflexivity|]. destruct (decide (s = target)) as [->|Hne].
    + unfold in_step. rewrite notify_events_sets. apply set_eq. intros [a x].
      rewrite elem_of_difference, elem_of_union, !elem_of_list_to_set, elem_instance_list, !elem_instances, store_lookup,
        decide_True by done. cbn. rewrite Him, Hp. destruct (Hn (mkAddress a x)) as [Hn1 Hn2]. cbn in Hn2.
      assert (Hx : mkAddress a x ∈ es -> a ∈ Addr <$> es /\ x = meta target a).
      { intros He. split; [by apply (list_elem_of_fmap_2 Addr) in He|by apply (Hes (mkAddress a x))]. }
      split.
      * intros [[Hc|Hin] Hno]; [|destruct (Hn1 Hin) as [?%elem_of_nil|]; done].
        destruct (decide (a ∈ Addr <$> es)) as [Ha|]; [|done].
        apply list_elem_of_fmap in Ha as ([a' x'] & -> & He'). cbn in *.
        rewrite (cur_consistent _ _ _ _ Hr Hc). by rewrite <- (Hes _ He') at 1.
      * intros He. destruct (Hx He) as [Ha ->]. rewrite decide_True by done. split; [|done].
        destruct (default ∅ (r !! target) !! a) as [y|] eqn:Ey; [|right; auto].
        left. by rewrite (cur_consistent _ _ _ _ Hr Ey).
    + apply in_step_other; [by rewrite store_lookup, decide_False by congruence|].
      cbn. destruct new, (instance_list prev); by repeat constructor.
Qed.

Lemma in_step_app target r r' r'' es es' : in_step target r r' es -> in_step target r' r'' es' ->
  in_step target r r'' (es ++ es').
Proof. unfold in_step. intros H1 H2. by rewrite bind_app, foldl_app, H1, H2. Qed.

Lemma services_in_step target es r0 : forall ss r nm, NoDup ss -> (forall s, s ∈ ss -> s ∉ nm.*1) -> consistent r ->
  (forall s e, s ∈ ss -> e ∈ es -> Metadata e = meta s (Addr e)) ->
  in_step target r0 r (nm ≫= notify_events) ->
  let '(r', nm') := foldl (service_step es) (r, nm) ss in
  consistent r' /\ in_step target r0 r' (nm' ≫= notify_events).
Proof.
  induction ss as [|s ss IH]; intros r nm Hnd Hdis Hr Hes Hin; cbn [foldl]; [done|].
  apply NoDup_cons in Hnd as [Hs Hnd].
  pose proof (service_in_step target r nm s es Hr ltac:(intros e; apply Hes; by left)) as Hst.
  destruct (service_step es (r, nm) s) as [r' nm']. destruct Hst as (Hr' & _ & n & -> & Hn).
  assert (Hf : filter (fun p => p.1 <> s) nm = nm).
  { apply list_filter_all. intros p Hp E. apply (Hdis s); [by left|]. rewrite <- E. by apply list_elem_of_fmap_2. }
  rewrite Hf. apply IH; try done.
  - intros s' Hs'. rewrite fmap_app, not_elem_of_app. split; [apply Hdis; by right|]. cbn.
    rewrite list_elem_of_singleton. by intros ->.
  - intros s' e Hs'. apply Hes. by right.
  - rewrite bind_app. eapply in_step_app; [done|]. cbn. by rewrite app_nil_r.
Qed.

(** The instances that an event names. *)
Definition event_instances (e : event) : list Address := match e with OnUpdate _ l | OnDelete _ l => l end.

Definition event_ok (e : event) : Prop := Forall (fun a => Metadata a = meta (event_service e) (Addr a)) (event_instances e).

Lemma instances_ok r s a : consistent r -> a ∈ instances r s -> Metadata a = meta s (Addr a).
Proof. intros Hr Ha%elem_instances. by eapply cur_consistent. Qed.

Lemma instance_list_ok r s a : consistent r -> a ∈ instance_list (default ∅ (r !! s)) -> Metadata a = meta s (Addr a).
Proof. intros Hr Ha%elem_instance_list. by eapply cur_consistent. Qed.

Lemma services_events_ok es : forall ss r nm, NoDup ss -> consistent r ->
  (forall s e, s ∈ ss -> e ∈ es -> Metadata e = meta s (Addr e)) ->
  Forall event_ok (nm ≫= notify_events) -> Forall event_ok ((foldl (service_step es) (r, nm) ss).2 ≫= notify_events).
Proof.
  induction ss as [|s ss IH]; intros r nm Hnd Hr Hes Hnm; cbn [foldl]; [done|].
  apply NoDup_cons in Hnd as [_ Hnd].
  pose proof (service_in_step s r nm s es Hr ltac:(intros e; apply Hes; by left)) as Hst.
  pose proof (entry_loop_prev es ∅ (default ∅ (r !! s)) []) as Hp. pose proof (entry_loop_new es ∅ (default ∅ (r !! s)) []) as Hn.
  unfold service_step in Hst |- *. destruct (foldl entry_step (∅, default ∅ (r !! s), []) es) as [[im prev] new].
  cbn [fst snd] in *. destruct Hst as (Hr' & _). apply IH; [done|done|intros; apply Hes; [by right|done]|].
  rewrite bind_app. apply Forall_app. split.
  - apply Forall_forall. intros e He. rewrite Forall_forall in Hnm. apply Hnm.
    apply list_elem_of_bind in He as (n & He & Hf%list_elem_of_filter). apply list_elem_of_bind. exists n. tauto.
  - cbn. rewrite app_nil_r. apply Forall_app. split.
    + assert (Hnew : event_ok (OnUpdate s new)); [|destruct new; [constructor|by apply Forall_singleton]].
      apply Forall_forall. intros a Ha. destruct (Hn a) as [Hn1 _]. destruct (Hn1 Ha) as [?%elem_of_nil|He]; [done|].
      apply (Hes s); [by left|done].
    + assert (Hdel : event_ok (OnDelete s (instance_list prev))); [|destruct (instance_list prev); [constructor|by apply Forall_singleton]].
      apply Forall_forall. intros a Ha%elem_instance_list. rewrite Hp in Ha. destruct (decide _); [done|].
      exact (cur_consistent r s _ _ Hr Ha).
Qed.

(** Events name instances with the metadata of their address. *)
Lemma op_events_ok r o : consistent r -> op_ok o -> Forall event_ok (apply_op r o).2.
Proof.
  intros Hr Ho. destruct o as [s a m|s a|ss es]; cbn [apply_op op_ok] in *.
  - subst m. by repeat constructor.
  - unfold UnregisterService. pose proof (fun x => instance_list_ok r s x Hr) as Hm. pose proof (cur_consistent r s) as Hc.
    destruct (r !! s) as [m|]; cbn in Hm, Hc; [|by repeat constructor].
    case_bool_decide; cbn; (constructor; [|done]); apply Forall_forall; cbn; [done|].
    intros x Hx. destruct (m !! a) as [y|] eqn:Ey; [|by apply elem_of_nil in Hx].
    apply list_elem_of_singleton in Hx as ->. cbn. by apply Hc.
  - destruct Ho as [Hnd Hes]. unfold RegisterServiceWithEntries.
    pose proof (services_events_ok es ss r [] Hnd Hr Hes (Forall_nil_2 _)) as H.
    by destruct (foldl (service_step es) (r, []) ss).
Qed.

Lemma op_in_step target r o : consistent r -> op_ok o ->
  let '(r', es) := apply_op r o in consistent r' /\ in_step target r r' es.
Proof.
  intros Hr Ho. destruct o as [s a m|s a|ss es]; cbn [apply_op op_ok] in *.
  - subst m. by apply register_in_step.
  - by apply unregister_in_step.
  - destruct Ho as [Hnd Hes]. unfold RegisterServiceWithEntries.
    pose proof (services_in_step target es r ss r [] Hnd ltac:(intros; apply not_elem_of_nil) Hr Hes eq_refl) as H.
    by destruct (foldl (service_step es) (r, []) ss).
Qed.

Definition ops (l : list op) : list label := LOp <$> l.

Lemma ops_before target l w : watcher w = Idle -> consistent (reg w) -> Forall op_ok l ->
  let w' := foldl (do_step target) w (ops l) in watcher w' = Idle /\ consistent (reg w').
Proof.
  intros Hw Hr Hl. revert w Hw Hr. induction Hl as [|o l Ho _ IH]; intros w Hw Hr; [done|]. cbn.
  pose proof (op_in_step target (reg w) o Hr Ho) as H. destruct (apply_op (reg w) o) as [r es].
  apply IH; [by rewrite Hw|]. by destruct H.
Qed.

Lemma ops_after target l w : watcher w = Subscribed -> consistent (reg w) -> Forall op_ok l ->
  foldl set_update ∅ (stream w) = instances (reg w) target ->
  let w' := foldl (do_step target) w (ops l) in
  foldl set_update ∅ (stream w') = instances (reg w') target.
Proof.
  intros Hw Hr Hl. revert w Hw Hr. induction Hl as [|o l Ho _ IH]; intros w Hw Hr Hs; [done|]. cbn.
  pose proof (op_in_step target (reg w) o Hr Ho) as H. destruct (apply_op (reg w) o) as [r es].
  destruct H as [Hr' Hin]. rewrite Hw. apply IH; [done|done|]. cbn. by rewrite foldl_app, Hs.
Qed.

(** C23: the balancer sees the registry.  If registrations never change the metadata of an
    address of a service (and a bulk registration names no service twice), then for any
    operations before and after a watcher reads the instances of its service and
    subscribes, with nothing in between, a balancer that applied the updates of the
    watcher has exactly the instances that the registry has. *)
Theorem registry_balancer_in_step (target : string) (before after : list op) :
  Forall op_ok before -> Forall op_ok after ->
  let w := run target (ops before ++ [LRead; LSubscribe] ++ ops after) in
  balancer_view w = instances (reg w) target.
Proof.
  intros Hb Ha. unfold run, balancer_view. rewrite !foldl_app.
  destruct (ops_before target before (mkWorld ∅ Idle []) eq_refl ltac:(done) Hb) as [Hw Hr].
  set (w0 := foldl (do_step target) (mkWorld ∅ Idle []) (ops before)) in *. cbn [foldl do_step]. rewrite Hw. cbn.
  destruct (apply_updates_spec (stream (foldl (do_step target)
    (mkWorld (reg w0) Subscribed (mkUpdate Add <$> ServiceInstances (reg w0) target)) (ops after))) []
    (NoDup_nil_2)) as (_ & -> & _).
  apply ops_after; [done|done|done|]. cbn. rewrite set_update_adds. unfold instances. set_solver.
Qed.

End agreement.

Lemma registry_balancer_in_step_witness :
  let meta := fun _ a => "meta of " +:+ a in
  let w := run "svc" (ops [Register "svc" "a" (meta "svc" "a"); Register "other" "x" (meta "other" "x")] ++
    [LRead; LSubscribe] ++
    ops [RegisterEntries ["svc"; "other"] [mkAddress "b" (meta "svc" "b"); mkAddress "c" (meta "svc" "c")];
         Unregister "svc" "c"]) in
  balancer_view w = instances (reg w) "svc" /\ ServiceInstances (reg w) "svc" = [mkAddress "b" "meta of b"].
Proof.
  intros meta w. split; [|vm_compute; reflexivity].
  apply (registry_balancer_in_step meta "svc"); repeat constructor; cbn.
  - rewrite list_elem_of_singleton. discriminate.
  - apply not_elem_of_nil.
  - intros s e _ He. rewrite !elem_of_cons in He. destruct He as [->|[->|He]]; [done|done|by apply elem_of_nil in He].
Defined.

(** changed metadata leaves a stale address behind.  When an address is registered
    again with other metadata and then unregistered, the registry has no instance left, but
    a balancer that saw all of it keeps the address with its first metadata: the
    registration is announced as an addition only, and the removal names the metadata of
    the second registration. *)
Theorem metadata_change_leaves_stale_address (a m1 m2 : string) :
  a <> "" -> m1 <> m2 ->
  let w := run "svc" ([LRead; LSubscribe] ++ ops [Register "svc" a m1; Register "svc" a m2; Unregister "svc" a]) in
  instances (reg w) "svc" = ∅ /\ balancer_view w = {[mkAddress a m1]}.
Proof.
  intros Ha Hm. unfold run, ops. cbn [app fmap list_fmap foldl do_step watcher reg apply_op].
  unfold RegisterService. cbn [reg watcher stream]. unfold UnregisterService. rewrite lookup_insert_eq. cbn [reg].
  rewrite bool_decide_eq_false_2 by done. rewrite !lookup_insert_eq. cbn [default]. 
  cbn.
  rewrite ?lookup_insert_eq. unfold store, instances, balancer_view. cbn.
  assert (Hd : delete a (<[a:=m2]> (<[a:=m1]> (∅ : gmap string string))) = ∅)
    by (rewrite !delete_insert_eq; apply delete_empty).
  rewrite (lookup_empty (M := gmap string)). cbn [default]. rewrite (bool_decide_eq_true_2 _ Hd).
  rewrite !(bool_decide_eq_true_2 ("svc" = "svc")) by done. unfold ServiceInstances at 1. rewrite lookup_delete_eq.
  split; [done|]. unfold ServiceInstances. rewrite (lookup_empty (M := gmap string)).
  cbn [app fmap list_fmap foldl apply_update Balancer.op uaddr existsb orb addr].
  unfold apply_update. cbn [Balancer.op uaddr existsb app addr].
  rewrite bool_decide_eq_false_2 by congruence. cbn [orb app remove_addr addr].
  rewrite decide_False by congruence. rewrite decide_True by done. cbn. set_solver.
Qed.

Lemma metadata_change_leaves_stale_address_witness :
  let w := run "svc" ([LRead; LSubscribe] ++
    ops [Register "svc" "10.0.0.1" "v1"; Register "svc" "10.0.0.1" "v2"; Unregister "svc" "10.0.0.1"]) in
  instances (reg w) "svc" = ∅ /\ balancer_view w = {[mkAddress "10.0.0.1" "v1"]}.
Proof. apply (metadata_change_leaves_stale_address "10.0.0.1" "v1" "v2"); discriminate. Defined.

(** a registration between the two halves of a watcher's start is lost.  A watcher
    that reads the instances, then misses a registration, then subscribes, gives its
    balancer no address although the registry has one, and no further update comes. *)
Theorem registration_lost_at_start (a m : string) :
  let w := run "svc" [LRead; LOp (Register "svc" a m); LSubscribe] in
  instances (reg w) "svc" = {[mkAddress a m]} /\ balancer_view w = ∅.
Proof.
  cbn. split; [|done]. unfold run. cbn. apply set_eq. intros [x y]. rewrite elem_instances. cbn [reg].
  rewrite lookup_insert_eq. cbn. rewrite lookup_insert_case, elem_of_singleton. case_decide; [naive_solver|].
  rewrite lookup_empty. naive_solver.
Qed.

End MemoryRegistry.
