(* ===== verification/Value.v ===== *)
(** * Typed configuration values ([config/internal/value.go]).

    [ValueImpl] reads strings through a getter and converts them; [strconv.ParseInt] and
    [strconv.ParseUint] for base 10 are modelled at their width, with the formatting that
    configuration writers use ([FormatInt]) as their inverse. *)

From Stdlib Require Import Ascii SpecFloat.
From S2P Require Import Prelude GoInt GoStrings.

Open Scope string_scope.
Open Scope list_scope.

Module Value.

(** ** Decimal numerals *)

Definition digit_value (a : ascii) : option Z :=
  let n := Z.of_nat (nat_of_ascii a) in
  if (48 <=? n)%Z && (n <=? 57)%Z then Some (n - 48)%Z else None.

Fixpoint parse_digits (acc : Z) (s : string) : option Z :=
  match s with
  | EmptyString => Some acc
  | String a s' => d ← digit_value a; parse_digits (acc * 10 + d) s'
  end.

(** [strconv.ParseUint(s, 10, w)]: [None] for a syntax or range error. *)
Definition ParseUint (w : Z) (s : string) : option Z :=
  match s with
  | EmptyString => None
  | _ => n ← parse_digits 0 s; if (n <? 2 ^ w)%Z then Some n else None
  end.

(** [strconv.ParseInt(s, 10, w)]: an optional sign, then the digits. *)
Definition parse_signed (w : Z) (neg : bool) (digits : string) : option Z :=
  match digits with
  | EmptyString => None
  | _ =>
      n ← parse_digits 0 digits;
      if neg then if (n <=? 2 ^ (w - 1))%Z then Some (- n)%Z else None
      else if (n <? 2 ^ (w - 1))%Z then Some n else None
  end.
Definition ParseInt (w : Z) (s : string) : option Z :=
  match s with
  | EmptyString => None
  | String a s' =>
      if decide (a = "-"%char) then parse_signed w true s'
      else if decide (a = "+"%char) then parse_signed w false s' else parse_signed w false s
  end.

(** The decimal numeral of a number; every round divides it by ten, so its bit length is
    fuel enough. *)
Definition digit_char (d : Z) : ascii := ascii_of_nat (Z.to_nat (d + 48)).

Fixpoint format_digits (fuel : nat) (n : Z) (acc : string) : string :=
  match fuel with
  | O => acc
  | S fuel =>
      let acc := String (digit_char (n mod 10)) acc in
      if (n <? 10)%Z then acc else format_digits fuel (n / 10) acc
  end.
Definition FormatUint (n : Z) : string := format_digits (S (Z.to_nat (Z.log2 n))) n "".
Definition FormatInt (n : Z) : string := if (n <? 0)%Z then String "-" (FormatUint (- n)) else FormatUint n.

(** ** Getters *)

Section getters.
Context (Get : string -> option string).

Definition GetString (key : string) : string := match Get key with Some v => v | None => "" end.
Definition Bytes (key : string) : list ascii := String.list_ascii_of_string (GetString key).
Definition Has (key : string) : bool := bool_decide (is_Some (Get key)).
Definition Bool (key : string) : bool :=
  let v := ToLower (GetString key) in bool_decide (v = "true") || bool_decide (v = "1").

(** [int] and [uint] are 64 bits wide. *)
Definition Int (key : string) : Z := default 0%Z (ParseInt 64 (GetString key)).
Definition Uint (key : string) : Z := default 0%Z (ParseUint 64 (GetString key)).
Definition Int64 (key : string) : Z := default 0%Z (ParseInt 64 (GetString key)).
Definition Uint64 (key : string) : Z := default 0%Z (ParseUint 64 (GetString key)).

Definition StringList (key : string) : list string :=
  filter (fun sv => sv <> "") (TrimSpace <$> Split "," (GetString key)).
Definition IntList (key : string) : list Z := omap (ParseInt 64) (StringList key).
Definition UintList (key : string) : list Z := omap (ParseUint 64) (StringList key).
Definition Int64List (key : string) : list Z := omap (ParseInt 64) (StringList key).
Definition Uint64List (key : string) : list Z := omap (ParseUint 64) (StringList key).

(** [strconv.ParseFloat] at 64 bits, [str2duration.ParseDuration] and [json.Unmarshal] into a
    map of strings; [None] is an error. *)
Context (ParseFloat : string -> option spec_float) (ParseDuration : string -> option Z)
  (Unmarshal : string -> option (gmap string string)).

Definition Float64 (key : string) : spec_float := default (S754_zero false) (ParseFloat (GetString key)).
Definition Duration (key : string) : Z :=
  let v := GetString key in if bool_decide (v = "") then 0%Z else default 0%Z (ParseDuration v).
Definition StringMap (key : string) : gmap string string := default ∅ (Unmarshal (GetString key)).

End getters.

(** ** Round trips *)

Lemma digit_char_value d : (0 <= d < 10)%Z -> digit_value (digit_char d) = Some d.
Proof.
  intros Hd. unfold digit_value, digit_char. rewrite nat_ascii_embedding by lia. rewrite Z2Nat.id by lia.
  rewrite (proj2 (Z.leb_le _ _)), (proj2 (Z.leb_le _ _)) by lia. cbn. f_equal. lia.
Qed.

Lemma parse_format fuel n acc : (0 <= n)%Z -> (n < 10 ^ Z.of_nat fuel)%Z -> fuel <> 0 ->
  parse_digits 0 (format_digits fuel n acc) = parse_digits n acc.
Proof.
  revert n acc. induction fuel as [|fuel IH]; intros n acc Hn Hf H0; [done|]. cbn [format_digits].
  pose proof (Z.mod_pos_bound n 10 ltac:(lia)) as Hm. pose proof (Z.div_mod n 10 ltac:(lia)) as Hdm.
  destruct (Z.ltb_spec n 10).
  - cbn [parse_digits]. rewrite digit_char_value by lia. cbn. f_equal. rewrite Z.mod_small; lia.
  - rewrite IH.
    + cbn [parse_digits]. rewrite digit_char_value by lia. cbn. f_equal. lia.
    + apply Z.div_pos; lia.
    + apply Z.div_lt_upper_bound; [lia|]. rewrite Nat2Z.inj_succ, Z.pow_succ_r in Hf by lia. lia.
    + intros ->. cbn in Hf. lia.
Qed.

Lemma parse_FormatUint n : (0 <= n)%Z -> parse_digits 0 (FormatUint n) = Some n.
Proof.
  intros Hn. unfold FormatUint. rewrite parse_format; [done|done| |done].
  destruct (decide (n = 0%Z)) as [->|]; [done|]. rewrite Nat2Z.inj_succ, Z2Nat.id by apply Z.log2_nonneg.
  eapply Z.lt_le_trans; [apply Z.log2_spec; lia|]. apply Z.pow_le_mono_l. lia.
Qed.

Lemma FormatUint_nonempty n : (0 <= n)%Z -> FormatUint n <> "".
Proof.
  intros Hn. unfold FormatUint. cbn [format_digits]. generalize (Z.to_nat (Z.log2 n)). intros fuel.
  assert (H : forall fuel n a acc, format_digits fuel n (String a acc) <> "").
  { clear. induction fuel as [|fuel IH]; intros n a acc; [done|]. cbn. by destruct (_ <? _)%Z. }
  destruct (_ <? _)%Z; [done|apply H].
Qed.

(** The characters of a numeral. *)
Definition numeral_char (a : ascii) : bool := bool_decide (is_Some (digit_value a)) || bool_decide (a = "-"%char).
Fixpoint all_chars (P : ascii -> bool) (s : string) : bool :=
  match s with EmptyString => true | String a s' => P a && all_chars P s' end.

Lemma parse_digits_chars acc s n : parse_digits acc s = Some n -> all_chars numeral_char s = true.
Proof.
  revert acc. induction s as [|a s IH]; intros acc; cbn [parse_digits all_chars]; [done|].
  unfold numeral_char at 1. destruct (digit_value a) as [d|]; [|done]. cbn. apply IH.
Qed.

Lemma FormatInt_chars n : all_chars numeral_char (FormatInt n) = true.
Proof.
  unfold FormatInt. destruct (Z.ltb_spec n 0).
  - change (all_chars numeral_char (FormatUint (- n)) = true).
    eapply parse_digits_chars, parse_FormatUint. lia.
  - eapply parse_digits_chars, parse_FormatUint. lia.
Qed.

Lemma numeral_char_plain a : numeral_char a = true -> a <> ","%char /\ is_space a = false /\ a <> "+"%char.
Proof.
  intros Ha. split_and!; [intros ->; discriminate Ha| |intros ->; discriminate Ha]. revert Ha.
  unfold numeral_char. rewrite orb_true_iff, !bool_decide_eq_true. intros [[d Hd]| ->]; [|done].
  unfold digit_value in Hd. unfold is_space.
  destruct (Z.leb_spec 48 (Z.of_nat (nat_of_ascii a))), (Z.leb_spec (Z.of_nat (nat_of_ascii a)) 57); try done.
  apply orb_false_iff. rewrite andb_false_iff, !Nat.leb_gt, Nat.eqb_neq. lia.
Qed.

Lemma numeral_no_comma s : all_chars numeral_char s = true -> contains_char "," s = false.
Proof.
  induction s as [|a s IH]; cbn; [done|]. intros [Ha Hs]%andb_true_iff.
  destruct (numeral_char_plain a Ha) as [Hc _]. destruct (decide (a = ","%char)); [done|]. by apply IH.
Qed.

Lemma trim_right_plain s : all_chars numeral_char s = true -> trim_right s = s.
Proof.
  induction s as [|a s IH]; cbn; [done|]. intros [Ha Hs]%andb_true_iff. rewrite IH by done.
  destruct (numeral_char_plain a Ha) as (_ & Hsp & _). rewrite Hsp. by destruct s.
Qed.

Lemma TrimSpace_numeral s : all_chars numeral_char s = true -> TrimSpace s = s.
Proof.
  intros H. unfold TrimSpace. destruct s as [|a s]; [done|]. cbn [trim_left].
  destruct (numeral_char_plain a) as (_ & -> & _); [by apply andb_true_iff in H as [? _]|]. by apply trim_right_plain.
Qed.

(** [ParseInt] undoes [FormatInt] at its width. *)
Lemma ParseInt_FormatInt w n : (0 < w)%Z -> inS w n -> ParseInt w (FormatInt n) = Some n.
Proof.
  intros Hw [H1 H2]. unfold FormatInt. destruct (Z.ltb_spec n 0).
  - unfold ParseInt. rewrite decide_True by done. pose proof (FormatUint_nonempty (- n) ltac:(lia)).
    unfold parse_signed. destruct (FormatUint (- n)) eqn:E; [done|]. rewrite <- E, parse_FormatUint by lia. cbn.
    rewrite (proj2 (Z.leb_le _ _)) by lia. f_equal. lia.
  - unfold ParseInt. pose proof (FormatUint_nonempty n ltac:(lia)) as Hne.
    pose proof (parse_FormatUint n ltac:(lia)) as Hp. destruct (FormatUint n) as [|a s] eqn:E; [done|].
    cbn [parse_digits] in Hp. destruct (digit_value a) as [d|] eqn:Ed; [|done].
    rewrite decide_False by (intros ->; discriminate Ed). rewrite decide_False by (intros ->; discriminate Ed).
    unfold parse_signed. cbn [parse_digits]. rewrite Ed. cbn in Hp |- *. rewrite Hp. cbn. by rewrite (proj2 (Z.ltb_lt _ _)) by lia.
Qed.

Lemma digit_value_nonneg a d : digit_value a = Some d -> (0 <= d)%Z.
Proof.
  unfold digit_value. destruct (Z.leb_spec 48 (Z.of_nat (nat_of_ascii a))); [|done]. cbn.
  destruct (_ <=? _)%Z; [|done]. intros [= <-]. lia.
Qed.

Lemma parse_digits_nonneg acc s n : (0 <= acc)%Z -> parse_digits acc s = Some n -> (0 <= n)%Z.
Proof.
  revert acc. induction s as [|a s IH]; intros acc Ha; cbn; [intros [= <-]; done|].
  destruct (digit_value a) as [d|] eqn:E; [|done]. cbn. apply IH. pose proof (digit_value_nonneg _ _ E). lia.
Qed.

Lemma ParseInt_range w s n : (0 < w)%Z -> ParseInt w s = Some n -> inS w n.
Proof.
  intros Hw. pose proof (Z.pow_pos_nonneg 2 (w - 1)) as Hp. unfold ParseInt, inS. destruct s as [|a s]; [done|].
  assert (Hs : forall neg digits, parse_signed w neg digits = Some n -> (- 2 ^ (w - 1) <= n < 2 ^ (w - 1))%Z).
  { intros neg digits. unfold parse_signed. destruct digits as [|b ds]; [done|].
    destruct (parse_digits 0 (String b ds)) as [m|] eqn:E; [|done]. apply parse_digits_nonneg in E; [|done]. cbn.
    destruct neg; [destruct (Z.leb_spec m (2 ^ (w - 1)))|destruct (Z.ltb_spec m (2 ^ (w - 1)))]; intros [= <-]; lia. }
  destruct (decide _); [apply (Hs true)|]. destruct (decide _); apply (Hs false).
Qed.

Lemma FormatInt_nonempty n : FormatInt n <> "".
Proof. unfold FormatInt. destruct (Z.ltb_spec n 0); [done|]. apply FormatUint_nonempty. lia. Qed.

(** A list of numerals, trimmed and without the empty ones, is itself. *)
Lemma StringList_numerals Get key ns : GetString Get key = Join (FormatInt <$> ns) "," ->
  StringList Get key = FormatInt <$> ns.
Proof.
  intros E. unfold StringList. rewrite E. destruct ns as [|n ns]; [done|].
  rewrite Split_Join; [|done|].
  - rewrite <- list_fmap_compose. rewrite (list_fmap_ext _ FormatInt) by
      (intros i x _; cbn; apply TrimSpace_numeral, FormatInt_chars).
    apply list_filter_all. intros s (x & -> & _)%list_elem_of_fmap. apply FormatInt_nonempty.
  - apply Forall_fmap, Forall_true. intros x. cbn. apply numeral_no_comma, FormatInt_chars.
Qed.

Lemma omap_ParseInt ns : Forall (inS 64) ns -> omap (ParseInt 64) (FormatInt <$> ns) = ns.
Proof. induction 1 as [|n ns Hn _ IH]; [done|]. cbn. rewrite ParseInt_FormatInt by done. cbn. by f_equal. Qed.

(** typed values round-trip.  A key whose configured string is the comma-separated list
    of the decimal numerals of 64-bit integers is read back as exactly that list, the empty
    list included; a single numeral is read back as its number; and whatever the string is,
    a number that is read is within 64 bits. *)
Theorem int64_roundtrip (Get : string -> option string) (key : string) (ns : list Z) :
  Forall (inS 64) ns -> GetString Get key = Join (FormatInt <$> ns) "," ->
  Int64List Get key = ns /\ (forall n, ns = [n] -> Int64 Get key = n) /\ forall k, inS 64 (Int64 Get k).
Proof.
  intros Hn E. unfold Int64List. rewrite (StringList_numerals Get key ns E), omap_ParseInt by done.
  split_and!; [done| |].
  - intros n ->. unfold Int64. rewrite E. cbn. inversion Hn; subst. by rewrite ParseInt_FormatInt.
  - intros k. unfold Int64. destruct (ParseInt 64 (GetString Get k)) as [z|] eqn:Ez; [|by vm_compute].
    by eapply ParseInt_range.
Qed.

Lemma int64_roundtrip_witness :
  let Get := fun k => if decide (k = "limits") then Some "-9223372036854775808,0,42" else None in
  Int64List Get "limits" = [- 2 ^ 63; 0; 42]%Z.
Proof.
  intros Get. apply (int64_roundtrip Get "limits" [- 2 ^ 63; 0; 42]%Z).
  - repeat constructor; vm_compute; discriminate.
  - vm_compute. reflexivity.
Defined.

End Value.
