(* ===== verification/ConfigSources.v ===== *)
(** * Sources of the configuration ([config_plugins/]).

    Structured content (a parsed file, or the map given to a memory source) is flattened to
    keys joined with dots; a memory source tells its watchers about changes; the type of a
    file decides its reader.  A Go map is the list of its entries in the order of the
    iteration. *)

From S2P Require Import Prelude GoInt GoStrings PrefixTree Watcher ConfigImpl Value.
From Stdlib Require Import Ascii SpecFloat.

Open Scope string_scope.
Open Scope list_scope.

Module ConfigSources.

(** ** Flattening ([internal/walker.go], [Stringify]) *)

Inductive value :=
| VString (s : string) | VBool (b : bool) | VInt (n : Z) | VUint (n : Z) | VFloat (f : spec_float) | VDuration (d : Z)
| VMap (content : list (string * value)) | VSlice (vs : list value)
| VOther.    (* nil and all other types *)

Section walk.
(** [strconv.FormatFloat] and [time.Duration.String]. *)
Context (FormatFloat : spec_float -> string) (DurationString : Z -> string).

Definition Stringify (v : value) : string :=
  match v with
  | VString s => s
  | VBool b => if b then "true" else "false"
  | VInt n => Value.FormatInt n
  | VUint n => Value.FormatUint n
  | VFloat f => FormatFloat f
  | VDuration d => DurationString d
  | VMap _ | VSlice _ | VOther => ""
  end.
Definition withSlice (vs : list value) : option string :=
  match vs with [] => None | _ => Some (Join (Stringify <$> vs) ",") end.

Definition withPrefix (prefix k : string) : string := if bool_decide (prefix = "") then k else prefix +:+ "." +:+ k.

(** [Walk]: one value under its key; the entries of a map in turn. *)
Fixpoint walk_value (key : string) (v : value) (config : gmap string string) : gmap string string :=
  match v with
  | VMap content => foldl (fun config kv => walk_value (withPrefix key kv.1) kv.2 config) config content
  | VSlice vs => match withSlice vs with Some s => <[key := s]> config | None => config end
  | VOther => config
  | v => <[key := Stringify v]> config
  end.
Definition Walk (prefix : string) (content : list (string * value)) (config : gmap string string) : gmap string string :=
  foldl (fun config kv => walk_value (withPrefix prefix kv.1) kv.2 config) config content.

(** The entries that a walk makes, in order. *)
Fixpoint leaves_of (key : string) (v : value) : list (string * string) :=
  match v with
  | VMap content => content ≫= (fun kv => leaves_of (withPrefix key kv.1) kv.2)
  | VSlice vs => option_list ((key,.) <$> withSlice vs)
  | VOther => []
  | v => [(key, Stringify v)]
  end.
Definition leaves (prefix : string) (content : list (string * value)) : list (string * string) :=
  content ≫= (fun kv => leaves_of (withPrefix prefix kv.1) kv.2).

(** ** A memory source ([memory.go]) *)

Record MemoryConfigSource := mkMemory { val : list (string * value) }.
(** Entries of a map: the value of a key, and its replacement at its place. *)
Definition entry (content : list (string * value)) (k : string) : option value :=
  snd ∘ snd <$> list_find (fun kv => kv.1 = k) content.
Fixpoint set_entry (content : list (string * value)) (k : string) (v : value) : list (string * value) :=
  match content with
  | [] => [(k, v)]
  | kv :: content => if bool_decide (kv.1 = k) then (k, v) :: content else kv :: set_entry content k v
  end.

Definition memory_Sync (s : MemoryConfigSource) : gmap string string := Walk "" (val s) ∅.
Definition memory_Get (s : MemoryConfigSource) (k : string) : option value := entry (val s) (ToLower k).
(** The operations, with what the notifier is given. *)
Definition memory_Put (s : MemoryConfigSource) (k : string) (v : value) : MemoryConfigSource * Watcher.event :=
  let k := ToLower k in
  (mkMemory (set_entry (val s) k v), Watcher.EUpdate (Walk "" [(k, v)] ∅)).
Definition memory_Del (s : MemoryConfigSource) (k : string) : MemoryConfigSource * Watcher.event :=
  let k := ToLower k in
  (mkMemory (filter (fun kv => kv.1 <> k) (val s)), Watcher.EDelete [k]).
Definition memory_Replace (s : MemoryConfigSource) (content : list (string * value)) : MemoryConfigSource * Watcher.event :=
  (mkMemory content, Watcher.ESync (Walk "" content ∅)).

Inductive memory_op := MPut (k : string) (v : value) | MDel (k : string) | MReplace (content : list (string * value)).
Definition memory_do (s : MemoryConfigSource) (o : memory_op) : MemoryConfigSource * Watcher.event :=
  match o with MPut k v => memory_Put s k v | MDel k => memory_Del s k | MReplace c => memory_Replace s c end.

(** What the notifier passes on: nothing that is empty. *)
Definition passed (e : Watcher.event) : bool :=
  match e with
  | Watcher.EUpdate m | Watcher.ESync m => negb (bool_decide (m = ∅))
  | Watcher.EDelete l => negb (bool_decide (l = []))
  end.
(** A watcher that keeps a copy of the source. *)
Definition follow (view : gmap string string) (e : Watcher.event) : gmap string string :=
  if passed e then
    match e with
    | Watcher.EUpdate m => m ∪ view
    | Watcher.EDelete l => foldl (fun m k => delete k m) view l
    | Watcher.ESync m => m
    end
  else view.
Definition memory_run (s : MemoryConfigSource) (view : gmap string string) (os : list memory_op) : MemoryConfigSource * gmap string string :=
  foldl (fun acc o => let '(s, e) := memory_do acc.1 o in (s, follow acc.2 e)) (s, view) os.

(** ** Files ([file.go], [internal/ini.go]) *)

Inductive reader := IniReader | YamlReader | JsonReader | TomlReader | HoconReader.
Definition readerFactory (fileType : string) : option reader :=
  snd ∘ snd <$> list_find (fun p => p.1 = fileType)
    [("ini", IniReader); ("yaml", YamlReader); ("json", JsonReader); ("toml", TomlReader); ("hocon", HoconReader); ("conf", HoconReader)].
(** [filepath.Ext]: from the last dot of the last element of the path. *)
Definition Ext (path : string) : string :=
  let base := match LastIndex path "/"%char with Some i => sdrop (S i) path | None => path end in
  match LastIndex base "."%char with Some i => sdrop i base | None => "" end.
Definition file_type (filePath fileType : string) : string :=
  if bool_decide (fileType = "auto") then
    match Ext filePath with String "."%char rest => rest | e => e end
  else fileType.
Definition createReader (filePath fileType : string) : gores reader :=
  match readerFactory (file_type filePath fileType) with
  | Some r => Ok r
  | None => Err ("unknown file type, type = " +:+ file_type filePath fileType)
  end.
Record FileConfigSource := mkFile { path : string; file_reader : reader; reload : bool }.
Definition NewFileConfigSource (path typ : string) (autoReload : bool) : gores FileConfigSource :=
  r ← createReader path (if bool_decide (typ = "") then "auto" else typ);
  Ok (mkFile path r autoReload).

(** The sections of an ini file with their keys; the default section has no prefix. *)
Definition ini_Read (DefaultSection : string) (sections : list (string * list (string * string))) : gmap string string :=
  foldl (fun config sec =>
    let prefix := if bool_decide (sec.1 = DefaultSection) then "" else sec.1 +:+ "." in
    foldl (fun config kv => <[prefix +:+ kv.1 := kv.2]> config) config sec.2) ∅ sections.

(** ** Flattening: what is found *)

Lemma value_ind' (P : value -> Prop) : (forall c, Forall (fun kv => P kv.2) c -> P (VMap c)) -> (forall v, (forall c, v <> VMap c) -> P v) ->
  forall v, P v.
Proof.
  intros Hmap Hrest. fix IH 1. intros [s|b|n|n|f|d|c|vs|]; try (apply Hrest; by intros c' [=]). apply Hmap.
  revert c. fix go 1. intros [|[k v] c]; constructor; [apply IH|apply go].
Qed.

Definition insert_all (config : gmap string string) (l : list (string * string)) : gmap string string :=
  foldl (fun m kv => <[kv.1 := kv.2]> m) config l.
Lemma insert_all_app config l l' : insert_all config (l ++ l') = insert_all (insert_all config l) l'.
Proof. apply foldl_app. Qed.
Lemma walk_value_leaves v : forall key config, walk_value key v config = insert_all config (leaves_of key v).
Proof.
  induction v as [c IH|v Hv] using value_ind'; intros key config.
  - cbn. revert config. induction IH as [|[k v] c Hv _ IHc]; intros config; cbn; [done|].
    rewrite insert_all_app, <- Hv. apply IHc.
  - destruct v; try done; [by destruct (Hv content)|]. cbn. by destruct (withSlice vs).
Qed.
Lemma Walk_leaves prefix c config : Walk prefix c config = insert_all config (leaves prefix c).
Proof.
  unfold Walk, leaves. revert config. induction c as [|[k v] c IH]; intros config; cbn; [done|].
  by rewrite insert_all_app, <- walk_value_leaves.
Qed.
Lemma insert_all_lookup config l k s : NoDup l.*1 -> insert_all config l !! k = Some s <-> (k, s) ∈ l \/ (k ∉ l.*1 /\ config !! k = Some s).
Proof.
  revert config. induction l as [|[k0 s0] l IH]; intros config; cbn; [set_solver|].
  intros [Hn Hnd]%NoDup_cons. rewrite IH by done. rewrite lookup_insert_case, elem_of_cons, not_elem_of_cons.
  assert (forall s, (k, s) ∈ l -> k ∈ l.*1) by (intros s' Hin; by apply (list_elem_of_fmap_2 fst _ (k, s'))).
  case_decide; naive_solver.
Qed.

(** Flattening.  When no two values of the content come to the same key, the flat
    configuration has exactly the leaves, under the names of the maps around them joined with
    dots; so it does not depend on the order in which the maps are iterated. *)
Theorem walk_order_irrelevant prefix c c' : NoDup (leaves prefix c).*1 -> leaves prefix c' ≡ₚ leaves prefix c ->
  (forall k s, Walk prefix c ∅ !! k = Some s <-> (k, s) ∈ leaves prefix c) /\ Walk prefix c' ∅ = Walk prefix c ∅.
Proof.
  intros Hnd Hp. rewrite !Walk_leaves.
  assert (forall l k s, NoDup l.*1 -> insert_all ∅ l !! k = Some s <-> (k, s) ∈ l) as Hl.
  { intros l k s Hl. rewrite insert_all_lookup, lookup_empty by done. naive_solver. }
  split; [intros; by apply Hl|]. apply map_eq. intros k. apply option_eq. intros s. rewrite !Hl; [by rewrite Hp|done|by rewrite Hp].
Qed.

(** ** A memory source and its watchers *)

(** A value that is one entry of the configuration. *)
Definition flat_value (v : value) : option string :=
  match v with VMap _ | VOther => None | VSlice vs => withSlice vs | v => Some (Stringify v) end.
Definition flat_entry (kv : string * value) : Prop := ToLower kv.1 = kv.1 /\ is_Some (flat_value kv.2).
Definition flat (c : list (string * value)) : Prop := NoDup c.*1 /\ Forall flat_entry c.
Definition flat_op (o : memory_op) : Prop :=
  match o with MPut k v => is_Some (flat_value v) | MDel k => True | MReplace c => flat c /\ c <> [] end.

Lemma flat_leaves key v s : flat_value v = Some s -> leaves_of key v = [(key, s)].
Proof. destruct v; cbn; try done; intros Hs; simplify_eq; try done. by rewrite Hs. Qed.
Lemma flat_leaves_all c : Forall flat_entry c -> leaves "" c = omap (fun kv => (kv.1,.) <$> flat_value kv.2) c.
Proof.
  unfold leaves. induction 1 as [|[k v] c [_ [s Hs]] _ IH]; [done|]. cbn. cbn in Hs.
  change (withPrefix "" k) with k. rewrite IH, (flat_leaves k v s) by done. by rewrite Hs.
Qed.
(** The entry of a key in flat content. *)
Lemma flat_lookup c k : flat c -> Walk "" c ∅ !! k = entry c k ≫= flat_value.
Proof.
  intros [Hnd Hf]. rewrite Walk_leaves, flat_leaves_all by done. unfold entry.
  assert (forall m : gmap string string, insert_all m (omap (fun kv => (kv.1,.) <$> flat_value kv.2) c) !! k =
    match snd ∘ snd <$> list_find (fun kv => kv.1 = k) c with Some v => flat_value v | None => m !! k end) as H.
  { induction Hf as [|[k0 v0] c [_ [s Hs]] Hf IH]; intros m; [done|]. cbn in *. apply NoDup_cons in Hnd as [Hn Hnd].
    rewrite Hs. cbn. rewrite (IH Hnd). case_decide as Hk; cbn.
    - subst. destruct (list_find (fun kv => kv.1 = k) c) as [[i kv]|] eqn:Hl; cbn; [|by rewrite lookup_insert_eq, Hs].
      apply list_find_Some in Hl as (Hl & <- & _). exfalso. apply Hn. by eapply list_elem_of_fmap_2, list_elem_of_lookup_2.
    - destruct (list_find _ c) as [[i kv]|]; cbn; [done|]. by rewrite lookup_insert_ne. }
  rewrite H. by destruct (list_find _ c) as [[i kv]|].
Qed.
Lemma entry_cons k0 v0 c k : entry ((k0, v0) :: c) k = if decide (k0 = k) then Some v0 else entry c k.
Proof. unfold entry. cbn. case_decide; [done|]. by destruct (list_find _ c) as [[i kv]|]. Qed.
Lemma entry_set c k v k' : entry (set_entry c k v) k' = if decide (k = k') then Some v else entry c k'.
Proof.
  induction c as [|[k0 v0] c IH]; cbn [set_entry]; [rewrite entry_cons; by case_decide|].
  case_bool_decide as Hk; cbn in Hk; rewrite !entry_cons.
  - subst. by case_decide.
  - rewrite IH. repeat case_decide; congruence.
Qed.
Lemma entry_filter c k k' : entry (filter (fun kv => kv.1 <> k) c) k' = if decide (k = k') then None else entry c k'.
Proof.
  induction c as [|[k0 v0] c IH]; [by case_decide|]. destruct (decide (k0 = k)) as [->|Hk].
  - rewrite filter_cons_False by (cbn; tauto). rewrite IH, entry_cons. by case_decide.
  - rewrite filter_cons_True by done. rewrite !entry_cons, IH. repeat case_decide; congruence.
Qed.

(** Put and Del keep flat content flat. *)
Lemma keys_set c k v x : x ∈ (set_entry c k v).*1 -> x = k \/ x ∈ c.*1.
Proof. induction c as [|[k0 v0] c IH]; cbn; [set_solver|]. case_bool_decide; cbn; set_solver. Qed.
Lemma flat_set c k v : ToLower k = k -> is_Some (flat_value v) -> flat c -> flat (set_entry c k v).
Proof.
  intros Hk Hv [Hnd Hf]. split.
  - clear Hf. induction c as [|[k0 v0] c IH]; cbn; [apply NoDup_singleton|]. cbn in Hnd. apply NoDup_cons in Hnd as [Hn Hnd].
    case_bool_decide as H0; cbn; [cbn in H0; subst; by constructor|]. constructor; [|by apply IH]. by intros [?|?]%keys_set.
  - clear Hnd. induction Hf as [|[k0 v0] c Hkv Hf IH]; cbn; [by repeat constructor|].
    case_bool_decide; by constructor.
Qed.
Lemma flat_filter c k : flat c -> flat (filter (fun kv => kv.1 <> k) c).
Proof.
  intros [Hnd Hf]. split; [|rewrite Forall_forall in *; intros kv [_ Hin]%list_elem_of_filter; by apply Hf].
  induction c as [|[k0 v0] c IH]; [done|]. cbn in Hnd. apply NoDup_cons in Hnd as [Hn Hnd]. inversion_clear Hf.
  rewrite filter_cons. case_decide; [|by apply IH]. cbn. constructor; [|by apply IH].
  intros (kv & -> & [_ Hin]%list_elem_of_filter)%list_elem_of_fmap. apply Hn. by apply list_elem_of_fmap_2.
Qed.
Lemma walk_put k v s : flat_value v = Some s -> Walk "" [(k, v)] ∅ = {[k := s]}.
Proof. intros Hv. rewrite Walk_leaves. unfold leaves. cbn. change (withPrefix "" k) with k. by rewrite (flat_leaves k v s). Qed.

Lemma memory_step s o : flat (val s) -> flat_op o ->
  let '(s', e) := memory_do s o in flat (val s') /\ follow (memory_Sync s) e = memory_Sync s'.
Proof.
  intros Hf Ho. destruct o as [k v|k|c]; unfold memory_do, memory_Put, memory_Del, memory_Replace; cbn [val].
  - destruct Ho as [x Hx]. pose proof (flat_set (val s) (ToLower k) v (ToLower_idemp k) ltac:(eauto) Hf) as Hf'.
    split; [done|]. unfold follow. rewrite (walk_put _ _ x) by done. cbn [passed].
    rewrite bool_decide_eq_false_2 by apply map_non_empty_singleton. cbn [negb].
    apply map_eq. intros k'. unfold memory_Sync. cbn [val]. rewrite lookup_union, (flat_lookup _ k' Hf'), (flat_lookup _ k' Hf), entry_set. case_decide as Hk; [subst; rewrite lookup_singleton_eq; cbn; rewrite Hx; by destruct (_ ≫= _)|].
    rewrite lookup_singleton_ne by done. by rewrite (left_id_L None _).
  - pose proof (flat_filter (val s) (ToLower k) Hf) as Hf'. split; [done|]. unfold follow. cbn [passed].
    rewrite bool_decide_eq_false_2 by done. cbn [negb]. apply map_eq. intros k'. unfold memory_Sync. cbn [val foldl]. rewrite lookup_delete_case, (flat_lookup _ k' Hf'), (flat_lookup _ k' Hf).
    rewrite entry_filter. by case_decide.
  - destruct Ho as [Hc Hne]. split; [done|]. unfold follow. cbn [passed]. rewrite bool_decide_eq_false_2; [done|].
    destruct c as [|[k v] c]; [done|]. intros He. pose proof (flat_lookup _ k Hc) as Hk. rewrite He, lookup_empty in Hk.
    rewrite entry_cons, decide_True in Hk by done. destruct Hc as [_ Hc]. inversion_clear Hc as [|? ? [_ [x Hx]] _]. cbn in *. congruence.
Qed.

(** A watcher of a memory source stays in step with it: after any writes, deletions and
    replacements of plain values, a copy that started from the content and followed the
    notifications is the content. *)
Theorem memory_watcher_in_step s os : flat (val s) -> Forall flat_op os ->
  let '(s', view) := memory_run s (memory_Sync s) os in view = memory_Sync s'.
Proof.
  intros Hf Hos. cut (flat (val (memory_run s (memory_Sync s) os).1) /\
    (memory_run s (memory_Sync s) os).2 = memory_Sync (memory_run s (memory_Sync s) os).1).
  { destruct (memory_run _ _ _). by intros [_ H]. }
  unfold memory_run. apply (foldl_ind (fun acc => flat (val acc.1) /\ acc.2 = memory_Sync acc.1)); [done|].
  intros [s1 view] o Hin [Hf1 Hv]. cbn in *. subst. pose proof (memory_step s1 o Hf1) as Hs.
  rewrite Forall_forall in Hos. specialize (Hs (Hos o Hin)). destruct (memory_do s1 o) as [s2 e]. by destruct Hs as [? ->].
Qed.

(** ** A memory source under a configuration *)

Import ConfigImpl.
Implicit Types (c : ConfigImpl).

(** What reaches the configuration for the source of level [lv]. *)
Definition source_event_of (lv : nat) (e : Watcher.event) : source_event :=
  match e with
  | Watcher.EUpdate m => SUpdate lv (map_to_list m)
  | Watcher.EDelete l => SDelete lv l
  | Watcher.ESync m => SSync lv (map_to_list m)
  end.
Definition write (lv : nat) (acc : MemoryConfigSource * ConfigImpl) (o : memory_op) : MemoryConfigSource * ConfigImpl :=
  let '(s, e) := memory_do acc.1 o in (s, (deliver acc.2 (source_event_of lv e)).1).
Definition write_op (o : memory_op) : Prop := match o with MReplace _ => False | _ => flat_op o end.

(** The source of level [lv] is the memory source [s]. *)
Definition backed (lv : nat) (s : MemoryConfigSource) c : Prop :=
  consistent c /\ flat (val s) /\ exists src, source c !! lv = Some src /\ SourceWrapper.cache src = memory_Sync s.

Lemma deliver_source c e : source (deliver c e).1 =
  match e with
  | SUpdate lv l => alter (fun s => SourceWrapper.OnUpdate s l) lv (source c)
  | SDelete lv l => alter (fun s => SourceWrapper.OnDelete s l) lv (source c)
  | SSync lv l => alter (fun s => SourceWrapper.OnSync s l) lv (source c)
  end.
Proof.
  destruct e; cbn; case_bool_decide; try done; unfold onUpdate, onDelete, onSync; by repeat case_match.
Qed.

Lemma write_backed lv s c o : backed lv s c -> write_op o ->
  let '(s', c') := write lv (s, c) o in
  backed lv s' c' /\ length (source c') = length (source c) /\ forall i k, i <> lv -> has (source c') i k = has (source c) i k.
Proof.
  intros (Hc & Hf & src & Hsrc & Hcache) Ho. unfold write. cbn [fst snd].
  assert (flat_op o) as Hfo by by destruct o.
  pose proof (memory_step s o Hf Hfo) as Hstep. pose proof (lookup_lt_Some _ _ _ Hsrc) as Hlv.
  destruct o as [k v|k|cs]; [| |done]; unfold memory_do, memory_Put, memory_Del in *; destruct Hstep as [Hf' Hv].
  - destruct Ho as [x Hx]. cbn [flat_op] in Hfo. rewrite (walk_put _ _ x Hx) in *. cbn [source_event_of]. rewrite map_to_list_singleton in *.
    assert (good_event (length (source c)) (SUpdate lv [(ToLower k, x)])) as Hg by (split; [done|]; repeat constructor; apply ToLower_idemp).
    split_and!; [| |].
    + split_and!; [by apply consistent_update|done|]. exists (SourceWrapper.OnUpdate src [(ToLower k, x)]).
      rewrite deliver_source, list_lookup_alter_eq, Hsrc. split; [done|]. rewrite <- Hv. cbn. rewrite Hcache. unfold follow. cbn [passed].
      rewrite bool_decide_eq_false_2 by apply map_non_empty_singleton. cbn. unfold SourceWrapper.store_all. cbn.
      by rewrite <- insert_union_singleton_l.
    + by rewrite deliver_length.
    + intros i k' Hi. by rewrite deliver_source, has_alter, decide_False.
  - cbn [source_event_of].
    assert (good_event (length (source c)) (SDelete lv [ToLower k])) as Hg by (split; [done|]; repeat constructor; apply ToLower_idemp).
    split_and!; [| |].
    + split_and!; [by apply consistent_delete|done|]. exists (SourceWrapper.OnDelete src [ToLower k]).
      rewrite deliver_source, list_lookup_alter_eq, Hsrc. split; [done|]. rewrite <- Hv. cbn. by rewrite Hcache.
    + by rewrite deliver_length.
    + intros i k' Hi. by rewrite deliver_source, has_alter, decide_False.
Qed.

(** What the configuration shows. *)
Definition shows c (k : string) : option string := ConfigImpl.value <$> PrefixTree.PrefixTree.Get (cache c) (ToLower k).

Lemma writes_backed lv os s c : backed lv s c -> Forall write_op os ->
  let '(s', c') := foldl (write lv) (s, c) os in
  backed lv s' c' /\ length (source c') = length (source c) /\ forall i k, i <> lv -> has (source c') i k = has (source c) i k.
Proof.
  intros Hb Hos. revert s c Hb. induction Hos as [|o os Ho _ IH]; intros s c Hb; [done|]. cbn [foldl].
  pose proof (write_backed lv s c o Hb Ho) as Hw. destruct (write lv (s, c) o) as [s1 c1]. destruct Hw as (Hb1 & Hl1 & Hh1).
  specialize (IH s1 c1 Hb1). destruct (foldl _ _ _) as [s2 c2]. destruct IH as (Hb2 & Hl2 & Hh2).
  split_and!; [done|congruence|]. intros i k Hi. by rewrite Hh2, Hh1.
Qed.
Lemma backed_shows lv s c k : backed lv s c -> good_key k -> (forall i, lv < i -> has (source c) i k = None) ->
  shows c k = match entry (val s) k ≫= flat_value with Some x => Some x | None => ConfigImpl.value <$> fallback (source c) lv k end.
Proof.
  intros ((_ & _ & Hc) & Hf & src & Hsrc & Hcache) Hk Hhigh. unfold shows. rewrite (proj1 Hk), Hc by done.
  assert (forall n, lv < n -> n <= length (source c) -> ConfigImpl.value <$> fallback (source c) n k =
    match entry (val s) k ≫= flat_value with Some x => Some x | None => ConfigImpl.value <$> fallback (source c) lv k end) as H.
  { induction n as [|n IH]; intros Hn Hl; [lia|]. cbn [fallback]. fold (has (source c) n k). destruct (decide (n = lv)) as [->|Hne].
    - unfold has. rewrite Hsrc. cbn. unfold SourceWrapper.Get. rewrite Hcache. unfold memory_Sync. rewrite flat_lookup by done.
      by destruct (_ ≫= _).
    - rewrite Hhigh by lia. apply IH; lia. }
  apply H; [by apply lookup_lt_Some in Hsrc|done].
Qed.

(** Writes to a memory source are read through the configuration: after any writes and
    deletions of plain values, under a key that no source above has, the configuration shows
    the value in the source, and without one the value of the sources below. *)
Theorem memory_writes_read lv s c os k : backed lv s c -> Forall write_op os -> good_key k ->
  (forall i, lv < i -> has (source c) i k = None) ->
  let '(s', c') := foldl (write lv) (s, c) os in
  shows c' k = match entry (val s') k ≫= flat_value with Some x => Some x | None => ConfigImpl.value <$> fallback (source c) lv k end.
Proof.
  intros Hb Hos Hk Hhigh. pose proof (writes_backed lv os s c Hb Hos) as Hw. destruct (foldl _ _ _) as [s' c'].
  destruct Hw as (Hb' & _ & Hh). rewrite (backed_shows lv s' c') by (try done; intros i Hi; rewrite Hh by lia; by apply Hhigh).
  by rewrite (fallback_ext (source c) (source c')) by (intros i Hi; apply Hh; lia).
Qed.

(** Typed values come back.  A value that is put into a memory source is read back by the
    getter of its type: strings, booleans, 64-bit integers and lists of them. *)
Theorem put_read_back lv s c os k v : backed lv s c -> Forall write_op os -> good_key k ->
  (forall i, lv < i -> has (source c) i k = None) -> is_Some (flat_value v) ->
  let c' := (foldl (write lv) (s, c) (os ++ [MPut k v])).2 in
  match v with
  | VString x => Value.GetString (shows c') k = x
  | VBool b => Value.Bool (shows c') k = b
  | VInt n => inS 64 n -> Value.Int (shows c') k = n
  | VSlice vs => forall ns, vs = VInt <$> ns -> Forall (inS 64) ns -> Value.Int64List (shows c') k = ns
  | _ => True
  end.
Proof.
  intros Hb Hos Hk Hhigh [x Hx] c'.
  assert (shows c' k = Some x) as Hs.
  { unfold c'. assert (Forall write_op (os ++ [MPut k v])) as Hos' by (apply Forall_app; split; [done|]; apply Forall_singleton; by exists x).
    pose proof (writes_backed lv (os ++ [MPut k v]) s c Hb Hos') as Hw.
    destruct (foldl (write lv) (s, c) (os ++ [MPut k v])) as [s2 c2] eqn:Hfold. destruct Hw as (Hb2 & _ & Hh).
    rewrite (backed_shows lv s2 c2) by (try done; intros i Hi; rewrite Hh by lia; by apply Hhigh).
    rewrite foldl_snoc in Hfold. destruct (foldl (write lv) (s, c) os) as [s1 c1]. unfold write, memory_do, memory_Put in Hfold. cbn [fst snd] in Hfold.
    injection Hfold as <- _. cbn [val]. rewrite entry_set, (proj1 Hk), decide_True by done. cbn. by rewrite Hx. }
  assert (Value.GetString (shows c') k = x) as Hg by (unfold Value.GetString; by rewrite Hs).
  clearbody c'. clear Hs. destruct v as [y|b|n|n|f|d|cs|vs|]; cbn in Hx; try done; try (injection Hx as <-); try done.
  - unfold Value.Bool. rewrite Hg. by destruct b.
  - intros Hn. unfold Value.Int. by rewrite Hg, Value.ParseInt_FormatInt.
  - intros ns -> Hns. unfold Value.Int64List. rewrite (Value.StringList_numerals _ _ ns), Value.omap_ParseInt; [done..|].
    rewrite Hg. destruct ns as [|n ns]; [done|]. cbn in Hx. injection Hx as <-. cbn. by rewrite <- list_fmap_compose.
Qed.

End walk.

(** ** Files *)

Lemma LastIndex_last c a b : contains_char c b = false -> LastIndex (a +:+ String c b) c = Some (String.length a).
Proof.
  intros Hb. induction a as [|x a IH].
  - change ("" +:+ String c b) with (String c b). cbn [LastIndex]. rewrite LastIndex_free by done. by rewrite decide_True.
  - change (String x a +:+ String c b) with (String x (a +:+ String c b)). cbn [LastIndex]. by rewrite IH.
Qed.
Lemma sdrop_S a x b : sdrop (S (String.length a)) (a +:+ String x b) = b.
Proof. induction a as [|y a IH]; [done|]. apply IH. Qed.
Lemma Ext_of dir name ext : contains_char "/" (name +:+ "." +:+ ext) = false -> contains_char "." ext = false ->
  Ext (dir +:+ "/" +:+ name +:+ "." +:+ ext) = "." +:+ ext.
Proof.
  intros Hs Hd. unfold Ext. change ("/" +:+ name +:+ "." +:+ ext) with (String "/" (name +:+ "." +:+ ext)).
  rewrite LastIndex_last, sdrop_S by done. change ("." +:+ ext) with (String "." ext).
  rewrite LastIndex_last by done. apply sdrop_app.
Qed.

(** The reader of a file goes by the type that was asked for or, without one, by the
    extension of the file alone; any other type is an error. *)
Theorem file_reader_chosen dir name ext typ r reload : contains_char "/" (name +:+ "." +:+ ext) = false -> contains_char "." ext = false ->
  readerFactory ext = Some r -> typ = "" \/ typ = "auto" \/ typ = ext ->
  NewFileConfigSource (dir +:+ "/" +:+ name +:+ "." +:+ ext) typ reload = Ok (mkFile (dir +:+ "/" +:+ name +:+ "." +:+ ext) r reload).
Proof.
  intros Hs Hd Hr Ht. set (p := dir +:+ "/" +:+ name +:+ "." +:+ ext).
  assert (forall t, t = "auto" \/ t = ext -> file_type p t = ext) as Hft.
  { intros t Ht'. unfold file_type. case_bool_decide as Ha; [unfold p; by rewrite Ext_of|]. by destruct Ht'. }
  assert ((if bool_decide (typ = "") then "auto" else typ) = "auto" \/ (if bool_decide (typ = "") then "auto" else typ) = ext) as H.
  { case_bool_decide; naive_solver. }
  unfold NewFileConfigSource, createReader. rewrite Hft by done. by rewrite Hr.
Qed.
Lemma file_reader_chosen_witness : NewFileConfigSource "conf/app.yml.toml" "" true = Ok (mkFile "conf/app.yml.toml" TomlReader true).
Proof. apply (file_reader_chosen "conf" "app.yml" "toml" "" TomlReader true); [reflexivity..|by left]. Defined.

(** ** Examples *)

Definition no_float (_ : spec_float) : string := "".
Definition no_duration (_ : Z) : string := "".
Notation Sync := (memory_Sync no_float no_duration).
Notation run := (memory_run no_float no_duration).

(** Replacing a nested map leaves the keys that are gone with the watchers; so does deleting it. *)
Example nested_put_leaves_keys :
  let '(s, view) := run (mkMemory [("a", VMap [("x", VInt 1)])]) {["a.x" := "1"]} [MPut "a" (VMap [("y", VInt 2)])] in
  Sync s = {["a.y" := "2"]} /\ view = {["a.y" := "2"; "a.x" := "1"]}.
Proof. by vm_compute. Qed.
Example nested_del_leaves_keys :
  let '(s, view) := run (mkMemory [("a", VMap [("x", VInt 1)])]) {["a.x" := "1"]} [MDel "a"] in Sync s = ∅ /\ view = {["a.x" := "1"]}.
Proof. by vm_compute. Qed.
(** Watchers do not learn that everything is gone, nor that a value became nil. *)
Example empty_replace_silent :
  let '(s, view) := run (mkMemory [("a", VInt 1)]) {["a" := "1"]} [MReplace []] in Sync s = ∅ /\ view = {["a" := "1"]}.
Proof. by vm_compute. Qed.
Example nil_put_silent :
  let '(s, view) := run (mkMemory [("a", VInt 1)]) {["a" := "1"]} [MPut "a" VOther] in Sync s = ∅ /\ view = {["a" := "1"]}.
Proof. by vm_compute. Qed.
(** A key with capitals in the initial content cannot be read or replaced. *)
Example capital_key_shadowed :
  let s := mkMemory [("Key", VInt 1)] in memory_Get s "Key" = None /\
  val (memory_Put no_float no_duration s "Key" (VInt 2)).1 = [("Key", VInt 1); ("key", VInt 2)].
Proof. by vm_compute. Qed.

Lemma walk_order_irrelevant_witness :
  Walk no_float no_duration "" [("b", VInt 2); ("a", VMap [("x", VBool true)])] ∅ = {["a.x" := "true"; "b" := "2"]}.
Proof.
  destruct (walk_order_irrelevant no_float no_duration "" [("a", VMap [("x", VBool true)]); ("b", VInt 2)] [("b", VInt 2); ("a", VMap [("x", VBool true)])])
    as [_ ->]; [apply (bool_decide_eq_true_1 _); by vm_compute|apply Permutation_swap|by vm_compute].
Defined.

Definition example_memory : MemoryConfigSource := mkMemory [("a", VString "1"); ("b", VBool false)].
Lemma example_flat : flat no_float no_duration (val example_memory).
Proof. split; [apply (bool_decide_eq_true_1 _); by vm_compute|]. repeat constructor; eexists; reflexivity. Qed.
Lemma memory_watcher_in_step_witness :
  let '(s, view) := run example_memory (Sync example_memory) [MPut "A" (VInt 3); MDel "b"] in view = Sync s.
Proof. apply memory_watcher_in_step; [exact example_flat|]. repeat constructor. by eexists. Defined.

(** A configuration of a file and the memory source above it. *)
Definition example_config : ConfigImpl.ConfigImpl :=
  (ConfigImpl.sync (ConfigImpl.newConfigImpl [true; false]) [Some [("a", "file"); ("limit", "1")]; Some [("a", "1"); ("b", "false")]]).1.1.
Lemma example_backed : backed no_float no_duration 1 example_memory example_config.
Proof.
  split_and!; [|exact example_flat|by eexists; split; vm_compute].
  destruct (ConfigImpl.sync_from_spec [Some [("a", "file"); ("limit", "1")]; Some [("a", "1"); ("b", "false")]]
    (ConfigImpl.newConfigImpl [true; false]) 0) as [[[Hw Hs] [_ Hg]] Hl]; [apply ConfigImpl.newConfigImpl_synced|done|by repeat constructor|].
  split_and!; [done..|]. unfold ConfigImpl.effective. exact Hg.
Qed.
Lemma example_above k i : 1 < i -> ConfigImpl.has (ConfigImpl.source example_config) i k = None.
Proof.
  intros Hi. unfold ConfigImpl.has. rewrite lookup_ge_None_2; [done|].
  assert (length (ConfigImpl.source example_config) = 2) as -> by (by vm_compute). lia.
Qed.
Lemma memory_writes_read_witness :
  shows (foldl (write no_float no_duration 1) (example_memory, example_config) [MDel "a"]).2 "a" = Some "file".
Proof.
  pose proof (memory_writes_read no_float no_duration 1 example_memory example_config [MDel "a"] "a" example_backed) as H.
  destruct (foldl _ _ [MDel "a"]) as [s' c'] eqn:Hf. cbn [snd]. rewrite H; [|by repeat constructor|by split; vm_compute|apply example_above].
  assert (s' = mkMemory [("b", VBool false)]) as -> by (change s' with (s', c').1; rewrite <- Hf; reflexivity). by vm_compute.
Defined.
Lemma put_read_back_witness :
  Value.Int (shows (foldl (write no_float no_duration 1) (example_memory, example_config) ([] ++ [MPut "limit" (VInt (-7))])).2) "limit" = (-7)%Z.
Proof.
  apply (put_read_back no_float no_duration 1 example_memory example_config [] "limit" (VInt (-7)));
    [exact example_backed|constructor|by split; vm_compute|apply example_above|by eexists|by split; vm_compute].
Defined.

End ConfigSources.
