(* ===== verification/FileWatch.v ===== *)
(** * Reloading files ([Watch], [Sync] and [Close] of [config_plugins/file.go]).

    The first watcher of a file source starts a goroutine that waits for events of the file
    system; every event that writes or renames the file starts another goroutine, which reads
    the file, takes the list of the watchers and tells them the snapshot one after the other.
    The goroutines, the callers of [Watch] and of the functions it returns, and the file system
    take steps in any order.  The files that a reader adds to the list of watched ones only add
    events, and are left out. *)

From S2P Require Import Prelude Watcher ConfigSources.

Open Scope string_scope.
Open Scope list_scope.

Module FileWatch.
Import Watcher.
Notation snapshot := (gmap string string).

Section watching.
Context {W : Type} `{EqDecision W} (isSourceWatcher : W -> bool).

(** The goroutine of the source; it keeps the context of the call that started it. *)
Inductive loop := NoLoop | Starting (ctx : nat) | Running (ctx : nat) | Over.

(** [calls] are the calls of [Watch] with their watchers and whether their contexts were
    cancelled.  Of the goroutines that events start, [pending] are about to read the file,
    [ready] hold what they have read, and [telling] have calls of watchers before them. *)
Record source := mkSource {
  file : ConfigSources.FileConfigSource; notifier : Notifier W; calls : list (W * bool); main : loop; watchDone : bool;
  pending : nat; ready : list snapshot; telling : list (list (W * event)); delivered : list (W * event)
}.

Definition new_source (f : ConfigSources.FileConfigSource) : source := mkSource f (NewNotifier []) [] NoLoop false 0 [] [] [].

Definition set_main (s : source) (l : loop) : source :=
  mkSource (file s) (notifier s) (calls s) l (watchDone s) (pending s) (ready s) (telling s) (delivered s).
Definition set_watching (s : source) (n : Notifier W) (cs : list (W * bool)) : source :=
  mkSource (file s) n cs (main s) (watchDone s) (pending s) (ready s) (telling s) (delivered s).

(** [Watch] up to [once.Do]: the number of the call stands for the function that cancels it;
    without reloading there is none. *)
Definition file_Watch (s : source) (w : W) : source * option nat :=
  if negb (ConfigSources.reload (file s)) then (s, None)
  else (set_watching s (Watch (notifier s) w).1 (calls s ++ [(w, false)]), Some (length (calls s))).
(** [once.Do] of a call. *)
Definition start_once (s : source) (i : nat) : source :=
  match calls s !! i, main s with Some _, NoLoop => set_main s (Starting i) | _, _ => s end.

(** The two halves of the function that cancels: [cancelFunc] and [cancelWatch]. *)
Definition cancel (s : source) (i : nat) : source :=
  match calls s !! i with
  | Some (w, _) => set_watching s (notifier s) (<[i := (w, true)]> (calls s))
  | None => s
  end.
Definition unwatch (s : source) (i : nat) : source :=
  match calls s !! i with
  | Some (w, _) => set_watching s ((Watch (notifier s) w).2 (notifier s)) (calls s)
  | None => s
  end.

(** Closing the channel a second time panics. *)
Definition file_Close (s : source) : gores source :=
  if watchDone s then Panic "close of closed channel"
  else Ok (mkSource (file s) (notifier s) (calls s) (main s) true (pending s) (ready s) (telling s) (delivered s)).

(** Callers, the goroutine with its channels, and the goroutines that read.  [LStart]: whether
    the watcher of the file system could be made and the path be added; [LEvent]: the operation
    and, for a rename, whether the path could be added again; [LClosed]: a channel of the watcher
    was closed; [LRead]: what the reader returns; [LNotify]: the copy of the list of watchers;
    [LTell]: the call of the next watcher. *)
Inductive label :=
| LWatch (w : W) | LOnce (i : nat) | LCancel (i : nat) | LUnwatch (i : nat) | LClose
| LStart (ok : bool) | LEvent (write rename add_ok : bool) | LClosed | LStop
| LRead (val : option snapshot) | LNotify (j : nat) | LTell (k : nat).

Definition stopped (s : source) (ctx : nat) : bool := watchDone s || match calls s !! ctx with Some (_, c) => c | None => false end.

Definition do_step (s : source) (l : label) : source :=
  match l with
  | LWatch w => (file_Watch s w).1
  | LOnce i => start_once s i
  | LCancel i => cancel s i
  | LUnwatch i => unwatch s i
  | LClose => match file_Close s with Ok s => s | _ => s end
  | LStart ok => match main s with Starting ctx => set_main s (if ok then Running ctx else Over) | _ => s end
  | LEvent write rename add_ok =>
      match main s with
      | Running ctx =>
          if rename && negb add_ok then set_main s Over
          else if write || rename
               then mkSource (file s) (notifier s) (calls s) (main s) (watchDone s) (S (pending s)) (ready s) (telling s) (delivered s)
               else s
      | _ => s
      end
  | LClosed => match main s with Running _ => set_main s Over | _ => s end
  | LStop => match main s with Running ctx => if stopped s ctx then set_main s Over else s | _ => s end
  | LRead val =>
      match pending s with
      | 0 => s
      | S n => mkSource (file s) (notifier s) (calls s) (main s) (watchDone s) n (ready s ++ option_list val) (telling s) (delivered s)
      end
  | LNotify j =>
      match ready s !! j with
      | None => s
      | Some v => mkSource (file s) (notifier s) (calls s) (main s) (watchDone s) (pending s) (delete j (ready s))
                    (telling s ++ [OnSync isSourceWatcher (notifier s) v]) (delivered s)
      end
  | LTell k =>
      match telling s !! k with
      | Some (c :: cs) => mkSource (file s) (notifier s) (calls s) (main s) (watchDone s) (pending s) (ready s)
                            (<[k := cs]> (telling s)) (delivered s ++ [c])
      | _ => s
      end
  end.
Definition run (s : source) (ls : list label) : source := foldl do_step s ls.

(** ** Once the goroutine has ended *)

Lemma foldl_monotone {A B} (P : A -> Prop) (f : A -> B -> A) l a : P a -> (forall a b, P a -> P (f a b)) -> P (foldl f a l).
Proof. intros Ha Hf. apply foldl_ind; [done|]. intros a' b _. apply Hf. Qed.

(** It does not come back, and the goroutines that have not told their snapshot yet are the last. *)
Lemma silent s ls : main s = Over -> pending s = 0 -> ready s = [] -> Forall (fun cs => cs = []) (telling s) -> delivered (run s ls) = delivered s.
Proof.
  intros Hm Hp Hr Ht. unfold run.
  cut (let s' := foldl do_step s ls in
    main s' = Over /\ pending s' = 0 /\ ready s' = [] /\ Forall (fun cs => cs = []) (telling s') /\ delivered s' = delivered s); [by intros (_ & _ & _ & _ & ?)|].
  apply (foldl_monotone (fun s' => main s' = Over /\ pending s' = 0 /\ ready s' = [] /\ Forall (fun cs => cs = []) (telling s') /\ delivered s' = delivered s)); [done|].
  intros s' l (Hm' & Hp' & Hr' & Ht' & Hd). unfold do_step. destruct l as [w|i|i|i| |ok|wr rn ok| | |val|j|k]; rewrite ?Hm', ?Hp', ?Hr'; try done.
  - unfold file_Watch. by destruct (negb _).
  - unfold start_once. rewrite Hm'. by destruct (calls s' !! i).
  - unfold cancel. by destruct (calls s' !! i) as [[w c]|].
  - unfold unwatch. by destruct (calls s' !! i) as [[w c]|].
  - unfold file_Close. by destruct (watchDone s').
  - destruct (telling s' !! k) as [[|c cs]|] eqn:E; [done| |done]. rewrite Forall_forall in Ht'.
    by apply list_elem_of_lookup_2, Ht' in E.
Qed.

(** ** Who watches *)

(** The watchers of the calls, read off the steps. *)
Definition calls_of (ls : list label) : list W := omap (fun l => match l with LWatch w => Some w | _ => None end) ls.
(** A watcher was added, and not taken off since, neither by the function of that call nor by
    that of another call with the same watcher. *)
Definition registered (ls : list label) (w : W) : Prop :=
  exists l1 l2, ls = l1 ++ LWatch w :: l2 /\
    forall la i lb, l2 = la ++ LUnwatch i :: lb -> calls_of (l1 ++ LWatch w :: la) !! i <> Some w.

Lemma registered_snoc ls l w : registered (ls ++ [l]) w <->
  l = LWatch w \/ (registered ls w /\ forall i, l = LUnwatch i -> calls_of ls !! i <> Some w).
Proof.
  split.
  - intros (l1 & l2 & E & Hun). destruct l2 as [|x l2 _] using rev_ind.
    + apply app_inj_tail in E as [-> ->]. by left.
    + right. rewrite app_comm_cons, app_assoc in E. apply app_inj_tail in E as [-> ->]. split.
      * exists l1, l2. split; [done|]. intros la i lb ->. apply (Hun la i (lb ++ [x])). by rewrite <- app_assoc.
      * intros i ->. by apply (Hun l2 i []).
  - intros [->|[(l1 & l2 & -> & Hun) Hl]].
    + exists ls, []. split; [done|]. intros la i lb E. by destruct la.
    + exists l1, (l2 ++ [l]). split; [by rewrite <- app_assoc|]. intros la i lb E.
      destruct lb as [|x lb _] using rev_ind.
      * apply app_inj_tail in E as [-> ->]. by apply Hl.
      * rewrite app_comm_cons, app_assoc in E. apply app_inj_tail in E as [-> _]. by apply (Hun la i lb).
Qed.

Lemma calls_of_snoc ls l : calls_of (ls ++ [l]) = calls_of ls ++ match l with LWatch w => [w] | _ => [] end.
Proof. unfold calls_of. rewrite omap_app. by destruct l. Qed.

(** What the state keeps of the calls: the watchers of the calls made so far, and in the
    notifier those that are registered. *)
Definition tracks (f : ConfigSources.FileConfigSource) (ls : list label) (s : source) : Prop :=
  file s = f /\ (ConfigSources.reload f = true -> (calls s).*1 = calls_of ls) /\
  (forall w, w ∈ watchers (notifier s) <-> ConfigSources.reload f = true /\ registered ls w).

Lemma tracks_other f ls l s s' : tracks f ls s -> file s' = file s -> (calls s').*1 = (calls s).*1 -> notifier s' = notifier s ->
  (forall w, l <> LWatch w) -> (forall i, l <> LUnwatch i) -> tracks f (ls ++ [l]) s'.
Proof.
  intros (Hf & Hc & Hn) Ef Ec En H1 H2. unfold tracks. rewrite Ef, Ec, En, calls_of_snoc. split_and!; [done|..].
  - intros Hr. rewrite Hc by done. destruct l; try (by rewrite app_nil_r). by exfalso; eapply H1.
  - intros w. rewrite Hn, registered_snoc. naive_solver.
Qed.

Lemma fst_insert (l : list (W * bool)) i w c b : l !! i = Some (w, c) -> (<[i := (w, b)]> l).*1 = l.*1.
Proof. intros Hi. rewrite list_fmap_insert. apply list_insert_id. by rewrite list_lookup_fmap, Hi. Qed.

Lemma tracks_step f ls s l : tracks f ls s -> tracks f (ls ++ [l]) (do_step s l).
Proof.
  intros Hs. pose proof Hs as (Hf & Hc & Hn). unfold do_step.
  destruct l as [w|i|i|i| |ok|wr rn ok| | |val|j|k]; try (apply (tracks_other _ _ _ s); by repeat case_match).
  - unfold file_Watch. rewrite Hf. destruct (ConfigSources.reload f) eqn:Er; cbn [negb fst].
    + split_and!; [done|intros _; cbn [calls set_watching]; by rewrite fmap_app, Hc, calls_of_snoc by done|].
      intros w'. cbn. rewrite elem_of_app, list_elem_of_singleton, registered_snoc. rewrite Hn. naive_solver.
    + split_and!; [done|congruence|]. intros w'. rewrite Hn. split; intros [? _]; congruence.
  - unfold start_once. apply (tracks_other _ _ _ s); by repeat case_match.
  - unfold cancel. destruct (calls s !! i) as [[w c]|] eqn:E; [|by apply (tracks_other _ _ _ s)].
    apply (tracks_other _ _ _ s); try done. by eapply fst_insert.
  - unfold unwatch. destruct (ConfigSources.reload f) eqn:Er.
    + assert (calls_of ls !! i = fst <$> calls s !! i) as Hi by (rewrite <- Hc by done; apply list_lookup_fmap).
      destruct (calls s !! i) as [[w c]|] eqn:E; cbn in Hi.
      * split_and!; [done|intros _; cbn [calls set_watching]; by rewrite calls_of_snoc, app_nil_r, Hc|].
        intros w'. cbn. rewrite list_elem_of_filter, Hn, registered_snoc. split.
        -- intros (Hne & _ & Hr). split; [done|right]. split; [done|]. intros i' [= <-]. rewrite Hi. congruence.
        -- intros (_ & [?|[Hr Hl]]); [done|]. split_and!; [|done|done]. intros ->. by apply (Hl i).
      * split_and!; [done|intros _; by rewrite calls_of_snoc, app_nil_r, Hc|]. intros w'. rewrite Hn, registered_snoc.
        split; [|naive_solver]. intros [_ Hr]. split; [done|right]. split; [done|]. intros i' [= <-]. by rewrite Hi.
    + assert (watchers (notifier s) = []) as Hw.
      { destruct (watchers (notifier s)) as [|w ws] eqn:E; [done|]. assert (w ∈ w :: ws) as Hin by left.
        rewrite Hn in Hin. destruct Hin. congruence. }
      assert (forall ls' s', file s' = f -> watchers (notifier s') = [] -> tracks f ls' s') as Hno.
      { intros ls' s' Hf' Hw'. split_and!; [done|congruence|]. intros w. rewrite Hw'. split; [by intros ?%elem_of_nil|by intros [? _]; congruence]. }
      destruct (calls s !! i) as [[w c]|]; [|by apply Hno]. apply Hno; [done|]. cbn. by rewrite Hw.
  - unfold file_Close. apply (tracks_other _ _ _ s); by destruct (watchDone s).
Qed.

Lemma tracks_run f ls : tracks f ls (run (new_source f) ls).
Proof.
  induction ls as [|l ls IH] using rev_ind.
  - split_and!; [done..|]. intros w. split; [by intros ?%elem_of_nil|]. intros [_ (l1 & l2 & E & _)]. by destruct l1.
  - unfold run in *. rewrite foldl_snoc. by apply tracks_step.
Qed.

(** ** What is told *)

(** A snapshot was read after an event that wrote or renamed the file; a watcher that was
    registered when the list of watchers was taken was noted for it; and it was told then. *)
Definition read_in (ls : list label) (v : snapshot) : Prop :=
  exists l1 l2, ls = l1 ++ LRead (Some v) :: l2 /\ exists write rename ok, LEvent write rename ok ∈ l1 /\ write || rename = true.
Definition noted_in (f : ConfigSources.FileConfigSource) (ls : list label) (w : W) (v : snapshot) : Prop :=
  exists l1 j l2, ls = l1 ++ LNotify j :: l2 /\ ready (run (new_source f) l1) !! j = Some v /\ read_in l1 v /\ registered l1 w.
Definition told_in (f : ConfigSources.FileConfigSource) (ls : list label) (w : W) (v : snapshot) : Prop :=
  exists l1 k l2, ls = l1 ++ LTell k :: l2 /\ noted_in f l1 w v.
(** A call before a goroutine, and a call that was made. *)
Definition to_tell f ls (p : W * event) : Prop :=
  exists v, p.2 = ESync v /\ v <> ∅ /\ isSourceWatcher p.1 = true /\ ConfigSources.reload f = true /\ noted_in f ls p.1 v.
Definition was_told f ls (p : W * event) : Prop :=
  exists v, p.2 = ESync v /\ v <> ∅ /\ isSourceWatcher p.1 = true /\ ConfigSources.reload f = true /\ told_in f ls p.1 v.

Lemma read_in_snoc ls l v : read_in ls v -> read_in (ls ++ [l]) v.
Proof. intros (l1 & l2 & -> & H). exists l1, (l2 ++ [l]). split; [by rewrite <- app_assoc|done]. Qed.
Lemma to_tell_snoc f ls l p : to_tell f ls p -> to_tell f (ls ++ [l]) p.
Proof.
  intros (v & ? & ? & ? & ? & l1 & j & l2 & -> & H). exists v. split_and!; [done..|]. exists l1, j, (l2 ++ [l]). split; [by rewrite <- app_assoc|done].
Qed.
Lemma was_told_snoc f ls l p : was_told f ls p -> was_told f (ls ++ [l]) p.
Proof.
  intros (v & ? & ? & ? & ? & l1 & j & l2 & -> & H). exists v. split_and!; [done..|]. exists l1, j, (l2 ++ [l]). split; [by rewrite <- app_assoc|done].
Qed.

Record sound (f : ConfigSources.FileConfigSource) (ls : list label) (s : source) : Prop := {
  sound_pending : 0 < pending s -> exists write rename ok, LEvent write rename ok ∈ ls /\ write || rename = true;
  sound_ready : Forall (read_in ls) (ready s);
  sound_telling : Forall (Forall (to_tell f ls)) (telling s);
  sound_delivered : Forall (was_told f ls) (delivered s)
}.

Lemma sound_other f ls s l s' : sound f ls s -> pending s' = pending s -> ready s' = ready s -> telling s' = telling s -> delivered s' = delivered s ->
  sound f (ls ++ [l]) s'.
Proof.
  intros [Hp Hr Ht Hd] Ep Er Et Ed. constructor; rewrite ?Ep, ?Er, ?Et, ?Ed.
  - intros (wr & rn & ok & Hin & ?)%Hp. exists wr, rn, ok. split; [apply elem_of_app; by left|done].
  - eapply Forall_impl; [exact Hr|]. intros. by apply read_in_snoc.
  - eapply Forall_impl; [exact Ht|]. intros cs Hcs. eapply Forall_impl; [exact Hcs|]. intros. by apply to_tell_snoc.
  - eapply Forall_impl; [exact Hd|]. intros. by apply was_told_snoc.
Qed.

Lemma sound_step f ls l : let s := run (new_source f) ls in sound f ls s -> sound f (ls ++ [l]) (do_step s l).
Proof.
  intros s Hs. pose proof (sound_other f ls s l s Hs eq_refl eq_refl eq_refl eq_refl) as [Hp Hr Ht Hd]. unfold do_step.
  destruct l as [w|i|i|i| |ok|wr rn ok| | |val|j|k]; try (apply (sound_other f ls s); by repeat case_match).
  - unfold file_Watch. apply (sound_other f ls s); by repeat case_match.
  - unfold start_once. apply (sound_other f ls s); by repeat case_match.
  - unfold cancel. apply (sound_other f ls s); by repeat case_match.
  - unfold unwatch. apply (sound_other f ls s); by repeat case_match.
  - unfold file_Close. apply (sound_other f ls s); by destruct (watchDone s).
  - destruct (main s); try by constructor. destruct (rn && negb ok); [by constructor|]. destruct (wr || rn) eqn:Ewr; [|by constructor].
    constructor; [|done..]. intros _. exists wr, rn, ok. split; [apply elem_of_app; right; by left|done].
  - destruct (pending s) as [|n] eqn:Epend; [by constructor; rewrite ?Epend|]. destruct (sound_pending _ _ _ Hs) as (wr & rn & ok & Hin & Hop); [lia|].
    constructor; cbn; [|apply Forall_app; split; [done|]|done|done].
    + intros _. exists wr, rn, ok. split; [apply elem_of_app; by left|done].
    + destruct val as [v|]; [|constructor]. cbn. constructor; [|constructor]. exists ls, []. split; [done|]. eauto.
  - destruct (ready s !! j) as [v|] eqn:Hj; [|by constructor]. constructor; cbn; [done|by apply Forall_delete| |done].
    apply Forall_app. split; [done|]. constructor; [|constructor]. apply Forall_forall. intros [w e]. unfold OnSync.
    case_bool_decide as Hv; [by intros ?%elem_of_nil|]. intros (w' & [= -> ->] & (Hsw & Hw)%list_elem_of_filter)%list_elem_of_fmap.
    destruct (tracks_run f ls) as (_ & _ & Hn). apply Hn in Hw as [Hrel Hw]. exists v. split_and!; [done..|]. exists ls, j, [].
    split_and!; [done|done| |done]. pose proof (sound_ready _ _ _ Hs) as Hall. rewrite Forall_forall in Hall. by eapply Hall, list_elem_of_lookup_2.
  - destruct (telling s !! k) as [[|c cs]|] eqn:Hk; try by constructor.
    assert (Forall (to_tell f (ls ++ [LTell k])) (c :: cs)) as Hcs by (rewrite Forall_forall in Ht; by eapply Ht, list_elem_of_lookup_2).
    inversion Hcs; subst. constructor; cbn; [done|done|by apply Forall_insert|]. apply Forall_app. split; [done|]. constructor; [|constructor].
    pose proof (sound_telling _ _ _ Hs) as Hall. rewrite Forall_forall in Hall. apply list_elem_of_lookup_2 in Hk. apply Hall in Hk. inversion Hk as [|? ? Hc _]; subst.
    destruct Hc as (v & ? & ? & ? & ? & Hnot). exists v. split_and!; [done..|]. by exists ls, k, [].
Qed.

Lemma sound_run f ls : sound f ls (run (new_source f) ls).
Proof.
  induction ls as [|l ls IH] using rev_ind; [by constructor; [cbn; lia|..]|]. unfold run in *. rewrite foldl_snoc. by apply (sound_step f ls l).
Qed.

(** C8: reloading a file.  In whatever order callers, goroutines and events of the file system
    take their steps: a watcher is only told a snapshot that is not empty, on a source that
    reloads, that was read after the file had been written or renamed, and it was registered,
    by a call of [Watch] and no cancellation since, when the list of those to be told was taken;
    so not before it called [Watch], but the snapshot may have been read before.  And nothing
    is lost: while the goroutine runs, a write makes one goroutine that reads; what that reads is
    kept until it takes the list, in which then every registration of a source watcher is once
    and nobody else is; and the watchers of a list are told one after the other.  No other step
    of anybody takes a goroutine, a snapshot or a list away. *)
Theorem reload_notifies (f : ConfigSources.FileConfigSource) (ls : list label) :
  let s := run (new_source f) ls in
  (forall w e, (w, e) ∈ delivered s ->
     exists v, e = ESync v /\ v <> ∅ /\ isSourceWatcher w = true /\ ConfigSources.reload f = true /\ told_in f ls w v) /\
  (forall ctx ok, main s = Running ctx -> pending (do_step s (LEvent true false ok)) = S (pending s)) /\
  (forall v, 0 < pending s -> pending (do_step s (LRead (Some v))) = pending s - 1 /\ ready (do_step s (LRead (Some v))) = ready s ++ [v]) /\
  (forall j v, ready s !! j = Some v -> v <> ∅ -> ConfigSources.reload f = true ->
     ready (do_step s (LNotify j)) = delete j (ready s) /\
     exists ws, telling (do_step s (LNotify j)) = telling s ++ [(fun w => (w, ESync v)) <$> ws] /\
       ws = filter (fun w => isSourceWatcher w = true) (watchers (notifier s)) /\
       forall w, w ∈ ws <-> registered ls w /\ isSourceWatcher w = true) /\
  (forall k c cs, telling s !! k = Some (c :: cs) ->
     delivered (do_step s (LTell k)) = delivered s ++ [c] /\ telling (do_step s (LTell k)) = <[k := cs]> (telling s)) /\
  (forall l, ((forall v, l <> LRead v) -> pending s <= pending (do_step s l)) /\
     ((forall j, l <> LNotify j) -> ready s `prefix_of` ready (do_step s l)) /\
     ((forall k, l <> LTell k) -> telling s `prefix_of` telling (do_step s l) /\ delivered (do_step s l) = delivered s)).
Proof.
  intros s. split_and!.
  - intros w e Hin. pose proof (sound_delivered _ _ _ (sound_run f ls)) as Hd. rewrite Forall_forall in Hd. exact (Hd _ Hin).
  - intros ctx ok Hm. cbn [do_step]. by rewrite Hm.
  - intros v Hp. cbn [do_step]. destruct (pending s); [lia|]. cbn. split; [lia|done].
  - intros j v Hj Hv Hrel. cbn [do_step]. rewrite Hj. split; [done|]. cbn [telling]. unfold OnSync. rewrite bool_decide_eq_false_2 by done.
    eexists. split_and!; [done..|]. intros w. rewrite list_elem_of_filter. destruct (tracks_run f ls) as (_ & _ & Hn). fold s in Hn. rewrite Hn. naive_solver.
  - intros k c cs Hk. cbn [do_step]. by rewrite Hk.
  - intros l. unfold do_step. split_and!; intros Hl; destruct l as [w|i|i|i| |ok|wr rn ok| | |val|j|k];
      unfold file_Watch, start_once, cancel, unwatch, file_Close; try (by exfalso; eapply Hl);
      repeat case_match; simplify_eq/=; try split; try done; try lia; by apply prefix_app_r.
Qed.

End watching.

(** ** The first watcher *)

(** The goroutine has the context of the first call: when that is cancelled, nobody is told
    anything any more, and a watcher that comes later is not either. *)
Definition example_file : ConfigSources.FileConfigSource := ConfigSources.mkFile "app.ini" ConfigSources.IniReader true.
Notation example_run := (run (W := nat) (fun _ => true) (new_source example_file)).

Lemma first_cancel_silences ls :
  delivered (run (fun _ => true) (example_run [LWatch 1; LOnce 0; LStart true; LWatch 2; LOnce 1; LCancel 0; LUnwatch 0; LStop]) ls) = [].
Proof. by rewrite silent. Qed.

(** Two writes in short succession: the goroutine that has read the older text may be the last
    to tell the watchers. *)
Definition older : snapshot := {["a" := "1"]}.
Definition newer : snapshot := {["a" := "2"]}.
Example older_told_last :
  delivered (example_run [LWatch 1; LOnce 0; LStart true; LEvent true false true; LRead (Some older); LEvent true false true; LRead (Some newer);
    LNotify 1; LTell 0; LNotify 0; LTell 1]) = [(1, ESync newer); (1, ESync older)].
Proof. reflexivity. Qed.
(** A watcher is told what was read before it called [Watch]. *)
Example read_before_watch :
  delivered (example_run [LWatch 1; LOnce 0; LStart true; LEvent true false true; LRead (Some older); LWatch 2; LNotify 0; LTell 0; LTell 0]) =
  [(1, ESync older); (2, ESync older)].
Proof. reflexivity. Qed.

Lemma older_not_empty : older <> ∅.
Proof. intros E. assert ((∅ : snapshot) !! "a" = Some "1") as H by (rewrite <- E; reflexivity). discriminate H. Qed.
Lemma reload_notifies_witness :
  let s := example_run [LWatch 1; LOnce 0; LStart true; LWatch 2; LEvent true false true; LRead (Some older)] in
  registered (W := nat) [LWatch 1; LOnce 0; LStart true; LWatch 2; LEvent true false true; LRead (Some older)] 2 /\
  exists ws, telling (do_step (fun _ => true) s (LNotify 0)) = [(fun w => (w, ESync older)) <$> ws] /\ ws = [1; 2].
Proof.
  set (ls := [LWatch 1; LOnce 0; LStart true; LWatch 2; LEvent true false true; LRead (Some older)]).
  destruct (reload_notifies (W := nat) (fun _ => true) example_file ls) as (_ & _ & _ & H & _).
  destruct (H 0 older eq_refl older_not_empty eq_refl) as (_ & ws & Ht & Hw & Hr).
  assert (ws = [1; 2]) as -> by exact Hw.
  split; [apply Hr; right; left|]. exists [1; 2]. split; [exact Ht|reflexivity].
Defined.

End FileWatch.
