(* ===== verification/GoScanner.v ===== *)
(** * The scanner of Go's [text/scanner] with its default mode ([GoTokens]), as the parser of HOCON
    files uses it.

    The source is a string of bytes; [next] decodes one character of UTF-8.  The scanner keeps one
    character of look-ahead ([ch]); [buf] collects the bytes of the characters it has left behind
    since the token began, which is the text of the token when it ends.  Errors of the scanner are
    only counted, and nothing reads the count: what a bad literal is follows from the characters
    that are skipped.  White space is the set of new lines and carriage returns, since the parser
    takes blanks and tabs out of it. *)

From Stdlib Require Import Ascii.
From S2P Require Import Prelude GoStrings.

Open Scope string_scope.
Open Scope list_scope.

Module GoScanner.

(** ** Characters *)

Definition EOF : Z := -1.
Definition TIdent : Z := -2.
Definition TInt : Z := -3.
Definition TFloat : Z := -4.
Definition TChar : Z := -5.
Definition TString : Z := -6.
Definition TRawString : Z := -7.

Definition byte (a : ascii) : Z := Z.of_N (N_of_ascii a).
Definition between (l h z : Z) : bool := (l <=? z)%Z && (z <=? h)%Z.
Definition RuneError : Z := 65533.

(** [utf8.DecodeRune]: the character and the number of its bytes.  The first byte decides how many
    bytes follow and which values the second may have. *)
Definition second (b0 : Z) : option (nat * Z * Z) :=
  if between 194 223 b0 then Some (1%nat, 128%Z, 191%Z)
  else if (b0 =? 224)%Z then Some (2%nat, 160%Z, 191%Z)
  else if (b0 =? 237)%Z then Some (2%nat, 128%Z, 159%Z)
  else if between 225 239 b0 then Some (2%nat, 128%Z, 191%Z)
  else if (b0 =? 240)%Z then Some (3%nat, 144%Z, 191%Z)
  else if between 241 243 b0 then Some (3%nat, 128%Z, 191%Z)
  else if (b0 =? 244)%Z then Some (3%nat, 128%Z, 143%Z)
  else None.
Definition lead (n : nat) (b0 : Z) : Z := match n with 1 => Z.land b0 31 | 2 => Z.land b0 15 | _ => Z.land b0 7 end.
Fixpoint continued (n : nat) (acc : Z) (s : string) : option Z :=
  match n, s with
  | O, _ => Some acc
  | S n', String a s' => if between 128 191 (byte a) then continued n' (Z.lor (Z.shiftl acc 6) (Z.land (byte a) 63)) s' else None
  | S _, EmptyString => None
  end.
Definition DecodeRune (a : ascii) (s : string) : Z * nat :=
  let b0 := byte a in
  if (b0 <? 128)%Z then (b0, 1)
  else match second b0 with
       | Some (n, lo, hi) =>
           match s with
           | String b _ =>
               if between lo hi (byte b) then match continued n (lead n b0) s with Some r => (r, S n) | None => (RuneError, 1) end
               else (RuneError, 1)
           | EmptyString => (RuneError, 1)
           end
       | None => (RuneError, 1)
       end.

(** ** The scanner *)

Record scanner := mkScanner {
  rest : string;       (* what has not been read *)
  ch : Z;              (* the look-ahead, [EOF] at the end *)
  lastChar : string;   (* its bytes, none at the end *)
  line : Z; column : Z; lastLineLen : Z;
  buf : string;        (* the bytes left behind since the token began *)
  TokenText : string; Line : Z; Column : Z
}.

Definition next (s : scanner) : scanner :=
  match rest s with
  | EmptyString =>
      mkScanner "" EOF "" (line s) (if bool_decide (lastChar s = "") then column s else column s + 1) (lastLineLen s)
                (buf s +:+ lastChar s) (TokenText s) (Line s) (Column s)
  | String a r =>
      let (c, w) := DecodeRune a r in
      let s' := fun line column lastLineLen =>
        mkScanner (sdrop w (rest s)) c (stake w (rest s)) line column lastLineLen (buf s +:+ lastChar s) (TokenText s) (Line s) (Column s) in
      if (c =? 10)%Z then s' (line s + 1)%Z 0%Z (column s + 1)%Z else s' (line s) (column s + 1)%Z (lastLineLen s)
  end.

(** The first character is read when it is first asked for, which is before anything else. *)
Definition Init (src : string) : scanner :=
  let s := next (mkScanner src (-2) "" 1 0 0 "" "" 0 0) in
  if (ch s =? 65279)%Z then next s else s.

Definition Peek (s : scanner) : Z := ch s.
Definition no_token (s : scanner) : scanner :=
  mkScanner (rest s) (ch s) (lastChar s) (line s) (column s) (lastLineLen s) (buf s) "" 0 (Column s).
Definition Next (s : scanner) : Z * scanner :=
  (ch s, if (ch s =? EOF)%Z then no_token s else next (no_token s)).

(** The line of [Pos]. *)
Definition PosLine (s : scanner) : Z :=
  if (0 <? column s)%Z then line s else if (0 <? lastLineLen s)%Z then line s - 1 else 1.

(** ** Tokens *)

Section tokens.
(** [unicode.IsLetter] and [unicode.IsDigit] beyond Latin-1. *)
Context (Letter Digit : Z -> bool).

Definition isDecimal (c : Z) : bool := between 48 57 c.
Definition IsLetter (c : Z) : bool :=
  if (c <? 256)%Z then between 65 90 c || between 97 122 c || (c =? 170)%Z || (c =? 181)%Z || (c =? 186)%Z ||
    (between 192 255 c && negb (c =? 215)%Z && negb (c =? 247)%Z)
  else Letter c.
Definition IsDigit (c : Z) : bool := if (c <? 256)%Z then isDecimal c else Digit c.
Definition isIdentRune (c : Z) (first : bool) : bool := (c =? 95)%Z || IsLetter c || (IsDigit c && negb first).
Definition lower (c : Z) : Z := Z.lor 32 c.
Definition isHex (c : Z) : bool := isDecimal c || between 97 102 (lower c).

(** Characters are skipped while a predicate holds that does not hold of [EOF]. *)
Fixpoint skip_while (fuel : nat) (p : Z -> bool) (s : scanner) : scanner :=
  match fuel with
  | O => s
  | S n => if p (ch s) && negb (ch s =? EOF)%Z then skip_while n p (next s) else s
  end.
Definition skip (p : Z -> bool) (s : scanner) : scanner := skip_while (S (S (String.length (rest s)))) p s.

Definition scanIdentifier (s : scanner) : scanner := skip (fun c => isIdentRune c false) (next s).

Definition digits (hex : bool) (s : scanner) : scanner := skip (fun c => (if hex then isHex c else isDecimal c) || (c =? 95)%Z) s.
Definition fraction (hex : bool) (s : scanner) : Z * scanner :=
  if (ch s =? 46)%Z then (TFloat, digits hex (next s)) else (TInt, s).
Definition exponent (ts : Z * scanner) : Z * scanner :=
  let '(tok, s) := ts in
  let e := lower (ch s) in
  if (e =? 101)%Z || (e =? 112)%Z then
    let s := next s in
    let s := if (ch s =? 43)%Z || (ch s =? 45)%Z then next s else s in
    (TFloat, digits false s)
  else (tok, s).
Definition scanNumber (seenDot : bool) (s : scanner) : Z * scanner :=
  if seenDot then exponent (TFloat, digits false s)
  else if (ch s =? 48)%Z then
    let s := next s in
    let c := lower (ch s) in
    if (c =? 120)%Z then exponent (fraction true (digits true (next s)))
    else if (c =? 111)%Z || (c =? 98)%Z then exponent (fraction false (digits false (next s)))
    else exponent (fraction false (digits false s))
  else exponent (fraction false (digits false s)).

Definition digitVal (c : Z) : Z :=
  if isDecimal c then c - 48 else if between 97 102 (lower c) then lower c - 97 + 10 else 16.
Fixpoint scanDigits (n : nat) (base : Z) (s : scanner) : scanner :=
  match n with
  | O => s
  | S n => if (digitVal (ch s) <? base)%Z then scanDigits n base (next s) else s
  end.
Definition scanEscape (quote : Z) (s : scanner) : scanner :=
  let s := next s in
  let c := ch s in
  if bool_decide (c ∈ [97; 98; 102; 110; 114; 116; 118; 92; quote]%Z) then next s
  else if between 48 55 c then scanDigits 3 8 s
  else if (c =? 120)%Z then scanDigits 2 16 (next s)
  else if (c =? 117)%Z then scanDigits 4 16 (next s)
  else if (c =? 85)%Z then scanDigits 8 16 (next s)
  else s.
(** The look-ahead ends on the closing quote, on a new line or at the end. *)
Fixpoint string_loop (fuel : nat) (quote : Z) (s : scanner) : scanner :=
  match fuel with
  | O => s
  | S n => if (ch s =? quote)%Z || (ch s =? 10)%Z || (ch s <? 0)%Z then s
           else if (ch s =? 92)%Z then string_loop n quote (scanEscape quote s) else string_loop n quote (next s)
  end.
Definition scanString (quote : Z) (s : scanner) : scanner := string_loop (S (S (String.length (rest s)))) quote (next s).
Definition scanRawString (s : scanner) : scanner := skip (fun c => negb (c =? 96)%Z) (next s).

(** [scanComment], whose first character is a slash or a star. *)
Fixpoint comment_loop (fuel : nat) (s : scanner) : scanner :=
  match fuel with
  | O => s
  | S n => if (ch s <? 0)%Z then s
           else let s' := next s in if (ch s =? 42)%Z && (ch s' =? 47)%Z then next s' else comment_loop n s'
  end.
Definition scanComment (s : scanner) : scanner :=
  if (ch s =? 47)%Z then skip (fun c => negb (c =? 10)%Z) (next s)
  else comment_loop (S (S (String.length (rest s)))) (next s).

Definition start_token (s : scanner) : scanner :=
  let '(l, c) := if (0 <? column s)%Z then (line s, column s) else ((line s - 1)%Z, lastLineLen s) in
  mkScanner (rest s) (ch s) (lastChar s) (line s) (column s) (lastLineLen s) "" (TokenText s) l c.
Definition end_token (ts : Z * scanner) : Z * scanner :=
  let '(tok, s) := ts in
  (tok, mkScanner (rest s) (ch s) (lastChar s) (line s) (column s) (lastLineLen s) (buf s) (buf s) (Line s) (Column s)).

Definition whitespace (c : Z) : bool := (c =? 10)%Z || (c =? 13)%Z.

(** The token at the look-ahead; after a comment the scanner looks for one again. *)
Definition token_at (again : scanner -> Z * scanner) (s : scanner) : Z * scanner :=
  let c := ch s in
  if isIdentRune c true then end_token (TIdent, scanIdentifier s)
  else if isDecimal c then end_token (scanNumber false s)
  else if (c =? EOF)%Z then end_token (EOF, s)
  else if (c =? 34)%Z then end_token (TString, next (scanString 34 s))
  else if (c =? 39)%Z then end_token (TChar, next (scanString 39 s))
  else if (c =? 46)%Z then
    let s := next s in end_token (if isDecimal (ch s) then scanNumber true s else (c, s))
  else if (c =? 47)%Z then
    let s := next s in
    if (ch s =? 47)%Z || (ch s =? 42)%Z then again (scanComment s) else end_token (c, s)
  else if (c =? 96)%Z then end_token (TRawString, next (scanRawString s))
  else end_token (c, next s).
(** [Scan]; the fuel bounds the number of comments before a token. *)
Fixpoint scan_from (fuel : nat) (s : scanner) : Z * scanner :=
  match fuel with
  | O => (EOF, s)
  | S n => token_at (scan_from n) (start_token (skip whitespace s))
  end.
Definition Scan (s : scanner) : Z * scanner := scan_from (S (S (String.length (rest s)))) s.

End tokens.
End GoScanner.
