(* ===== verification/Hocon.v ===== *)
(** * Parsing HOCON files ([config_plugins/internal/3rdparty/hocon/parser.go], [errors.go] and the
    values of [config.go]).

    The parser asks the scanner ([GoScanner]) for one token after the other.  An object is the list
    of its entries; while a file is parsed no value is shared, so a tree stands for what the Go
    maps and slices hold.  An error keeps its operands and its position.  Calls between the
    functions of the parser take fuel ([parser_of]); loops over the source have fuel of their own. *)

From Stdlib Require Import Ascii SpecFloat.
From S2P Require Import Prelude GoInt GoStrings Value GoScanner.

Open Scope string_scope.
Open Scope list_scope.

Module Hocon.
Import GoScanner.

(** ** Values *)

Inductive Leaf :=
| String_ (s : string) | Int (n : Z) | Float32 (f : spec_float) | Float64 (f : spec_float) | Boolean (b : bool)
| Substitution (path : string) (optional : bool) | Null | Duration (d : Z).
Inductive Value := leaf (l : Leaf) | Object (o : list (string * Value)) | Array (l : list Value) | concatenation (l : list Value).
Definition object := list (string * Value).

Definition object_get (o : object) (key : string) : option Value := snd ∘ snd <$> list_find (fun kv => kv.1 = key) o.
Fixpoint object_set (o : object) (key : string) (v : Value) : object :=
  match o with
  | [] => [(key, v)]
  | kv :: o => if bool_decide (kv.1 = key) then (key, v) :: o else kv :: object_set o key v
  end.

Definition isConcatenable (v : Value) : bool :=
  match v with
  | leaf (String_ _ | Boolean _ | Substitution _ _ | Null) | concatenation _ => true
  | leaf (Int _ | Float32 _ | Float64 _ | Duration _) | Object _ | Array _ => false
  end.

Definition quote_char : ascii := "034"%char.
Fixpoint trim_left_quotes (s : string) : string :=
  match s with String a s' => if decide (a = quote_char) then trim_left_quotes s' else s | "" => "" end.
Fixpoint trim_right_quotes (s : string) : string :=
  match s with
  | "" => ""
  | String a s' =>
      match trim_right_quotes s' with
      | "" => if decide (a = quote_char) then "" else String a ""
      | r => String a r
      end
  end.
(** [strings.Trim] of quotation marks. *)
Definition Trim (s : string) : string := trim_right_quotes (trim_left_quotes s).

Section strings.
(** [strconv.FormatFloat] with the format [e] at 32 and 64 bits, and [time.Duration.String]. *)
Context (FormatFloat32 FormatFloat64 : spec_float -> string) (DurationString : Z -> string).

Definition Leaf_String (l : Leaf) : string :=
  match l with
  | String_ s => Trim s
  | Int n => Value.FormatInt n
  | Float32 f => FormatFloat32 f
  | Float64 f => FormatFloat64 f
  | Boolean b => if b then "true" else "false"
  | Substitution path optional => "${" +:+ (if optional then "?" else "") +:+ path +:+ "}"
  | Null => "null"
  | Duration d => DurationString d
  end.
(** [String]; the entries of a map in the order of its list. *)
Fixpoint Value_String (v : Value) : string :=
  match v with
  | leaf l => Leaf_String l
  | Object o => "{" +:+ Join ((fun kv => kv.1 +:+ ":" +:+ Value_String kv.2) <$> o) ", " +:+ "}"
  | Array [] => "[]"
  | Array l => "[" +:+ Join (Value_String <$> l) "," +:+ "]"
  | concatenation l => String.concat "" (Value_String <$> l)
  end.
End strings.

(** [mergeObjects]: [v] is the new object. *)
Fixpoint merge (v : Value) (existing : object) : object :=
  match v with
  | Object o =>
      foldl (fun existing kv =>
        object_set existing kv.1
          (match object_get existing kv.1, kv.2 with
           | Some (Object e), Object _ => Object (merge kv.2 e)
           | _, w => w
           end)) existing o
  | _ => existing
  end.
Definition mergeObjects (existing new : object) : object := merge (Object new) existing.

(** ** Errors *)

Inductive error :=
| ParseError (errType message : string) (operands : list string) (line column : Z)
| StdError (what : string) (operands : list string).

(** ** The parser *)

Record parser := mkParser { scan : scanner; currentRune : Z; lastConsumedWhitespaces : string }.
(** [PHangs]: the parser never comes back; [PFuel]: the fuel was not enough. *)
Inductive result (A : Type) := POk (a : A) (p : parser) | PErr (e : error) | PHangs | PFuel.
Arguments POk {A}. Arguments PErr {A}. Arguments PHangs {A}. Arguments PFuel {A}.
Definition M (A : Type) := parser -> result A.
#[export] Instance M_ret : MRet M := fun _ a p => POk a p.
#[export] Instance M_bind : MBind M := fun _ _ f m p =>
  match m p with POk a p => f a p | PErr e => PErr e | PHangs => PHangs | PFuel => PFuel end.

Definition token (p : parser) : string := TokenText (scan p).
Definition peek (p : parser) : Z := Peek (scan p).
Definition parse_error {A} (errType message : string) (operands : list string) : M A := fun p =>
  PErr (ParseError errType message operands (Line (scan p)) (Column (scan p))).
Definition std_error {A} (what : string) (operands : list string) : M A := fun _ => PErr (StdError what operands).
Definition invalidValueError {A} (message : string) (operands : list string) : M A := parse_error "invalid value!" message operands.
Definition invalidObjectError {A} (message : string) : M A := parse_error "invalid config object!" message [].
Definition invalidArrayError {A} (message : string) (operands : list string) : M A := parse_error "invalid config array!" message operands.
Definition invalidSubstitutionError {A} (message : string) : M A := parse_error "invalid substitution!" message [].
Definition invalidKeyError {A} (key : string) : M A := parse_error "invalid key!" "%q is a forbidden character in keys" [key].
Definition leadingPeriodError {A} : M A := parse_error "leading period '.'" "" [].
Definition adjacentPeriodsError {A} : M A := parse_error "two adjacent periods '.'" "" [].
(** The position is one column to the left. *)
Definition trailingPeriodError {A} : M A := fun p => PErr (ParseError "trailing period '.'" "" [] (Line (scan p)) (Column (scan p) - 1)).
Definition missingCommaError {A} : M A := parse_error "missing comma!" "" [].
Definition adjacentCommasError {A} : M A := parse_error "two adjacent commas" "" [].
Definition leadingCommaError {A} : M A := parse_error "leading comma" "" [].

(** One character of its own, or a quotation mark. *)
Definition forbiddenCharacters (s : string) : bool :=
  match s with
  | String a "" => bool_decide (a = quote_char) || contains_char a "${}[]:=,+#`^?!@*&\()"
  | _ => false
  end.
Fixpoint isUnquotedString (s : string) : bool :=
  match s with "" => true | String a s => negb (forbiddenCharacters (String a "")) && isUnquotedString s end.
Definition isBooleanString (s : string) : bool := bool_decide (s ∈ ["true"; "yes"; "on"; "false"; "no"; "off"]).
Definition newBooleanFromString (s : string) : bool := bool_decide (s ∈ ["true"; "yes"; "on"]).
Definition isSubstitution (s : string) (peeked : Z) : bool := bool_decide (s = "$") && (peeked =? 123)%Z.
Definition isSeparator (s : string) (peeked : Z) : bool :=
  bool_decide (s = "=") || bool_decide (s = ":") || (bool_decide (s = "+") && (peeked =? 61)%Z).
Definition empty_literal : string := String quote_char (String quote_char "").
Definition isMultiLineString (s : string) (peeked : Z) : bool := bool_decide (s = empty_literal) && (peeked =? 34)%Z.

Section parser.
Context (Letter Digit : Z -> bool).
Context (ParseFloat : string -> option spec_float) (truncate : spec_float -> Z).

(** [scanner.TokenString] of a blank or a tab: the character in quotation marks. *)
Definition TokenString (c : Z) : string :=
  String quote_char ((if (c =? 9)%Z then "\t" else " ") +:+ String quote_char "").
Fixpoint blanks (fuel : nat) (s : scanner) (tok : Z) (builder : string) : parser :=
  match fuel with
  | O => mkParser s tok builder
  | S n =>
      if (tok =? 9)%Z || (tok =? 32)%Z then let '(tok', s) := Scan Letter Digit s in blanks n s tok' (builder +:+ TokenString tok)
      else mkParser s tok builder
  end.
Definition advance (p : parser) : parser :=
  let '(tok, s) := Scan Letter Digit (scan p) in blanks (S (S (String.length (rest s)))) s tok "".
Definition step : M unit := fun p => POk () (advance p).
Definition tok : M string := fun p => POk (token p) p.
Definition look : M Z := fun p => POk (peek p) p.

Fixpoint comment_tokens (fuel : nat) (p : parser) : parser :=
  match fuel with
  | O => p
  | S n => if (peek p =? 10)%Z || (peek p =? EOF)%Z then p else comment_tokens n (advance p)
  end.
Definition consumeComment (p : parser) : parser := advance (comment_tokens (S (S (String.length (rest (scan p))))) p).
Definition skip_comment : M unit := fun p => POk () (if bool_decide (token p = "#") then consumeComment p else p).

Definition extractDurationUnit : M Z := fun p =>
  let nextCharacter := peek p in
  let p := advance p in
  let t := token p in
  let second := 1000000000%Z in
  POk (if negb (nextCharacter =? 10)%Z && (Line (scan p) =? PosLine (scan p))%Z then
         if bool_decide (t ∈ ["ns"; "nano"; "nanos"; "nanosecond"; "nanoseconds"]) then 1%Z
         else if bool_decide (t ∈ ["us"; "micro"; "micros"; "microsecond"; "microseconds"]) then 1000%Z
         else if bool_decide (t ∈ ["ms"; "milli"; "millis"; "millisecond"; "milliseconds"]) then 1000000%Z
         else if bool_decide (t ∈ ["s"; "second"; "seconds"]) then second
         else if bool_decide (t ∈ ["m"; "minute"; "minutes"]) then (60 * second)%Z
         else if bool_decide (t ∈ ["h"; "hour"; "hours"]) then (3600 * second)%Z
         else if bool_decide (t ∈ ["d"; "day"; "days"]) then (86400 * second)%Z
         else 0%Z
       else 0%Z) p.
(** What a number becomes, a duration if a unit follows. *)
Definition with_unit (number : Leaf) (value : Z) : M Leaf :=
  unit ← extractDurationUnit;
  if (unit =? 0)%Z then mret number else _ ← step; mret (Duration (mul64 value unit)).

(** The condition of the loop looks at the character that followed the path's first token, and
    never again: at the end of the source the loop goes on for ever. *)
Fixpoint substitution_loop (fuel : nat) (builder previousToken current : string) : M string :=
  match fuel with
  | O => fun _ => PHangs
  | S n =>
      if bool_decide (current = "#") then invalidSubstitutionError "comments are not allowed inside substitutions"
      else
        let builder := builder +:+ current in
        _ ← step; t ← tok;
        if bool_decide (previousToken = ".") && bool_decide (t = ".") then adjacentPeriodsError
        else if bool_decide (t = "}") then
          if bool_decide (previousToken = ".") then trailingPeriodError else _ ← step; mret builder
        else if forbiddenCharacters t then invalidKeyError t
        else substitution_loop n builder t t
  end.
Definition extractSubstitution : M Leaf :=
  _ ← step; _ ← step; t ← tok;
  optional ← (if bool_decide (t = "?") then _ ← step; mret true else mret false);
  t ← tok;
  if bool_decide (t = "}") then invalidSubstitutionError "path expression cannot be empty"
  else if bool_decide (t = ".") then leadingPeriodError
  else c ← look;
    if (c =? EOF)%Z then invalidSubstitutionError "missing closing parenthesis"
    else path ← (fun p => substitution_loop (S (S (String.length (rest (scan p))))) "" "" t p); mret (Substitution path optional).

(** The text of a multi-line string and whether three quotation marks end it. *)
Fixpoint multi_line (fuel : nat) (quotes : nat) (builder : string) (s : scanner) : option string * scanner :=
  match fuel with
  | O => (None, s)
  | S n =>
      let bytes := if (ch s =? RuneError)%Z then String "239" (String "191" (String "189" "")) else lastChar s in
      let '(c, s) := Next s in
      if (c =? EOF)%Z then (if (3 <=? quotes)%nat then Some builder else None, s)
      else
        let builder := builder +:+ bytes in
        let quotes := if (c =? 34)%Z then S quotes else 0 in
        if (3 <=? quotes)%nat && negb (Peek s =? 34)%Z then (Some builder, s) else multi_line n quotes builder s
  end.
Definition extractMultiLineString : M Leaf := fun p =>
  let s := (Next (scan p)).2 in
  match multi_line (S (S (String.length (rest s)))) 0 "" s with
  | (Some b, s) => POk (String_ (stake (String.length b - 3) b)) (mkParser s (currentRune p) (lastConsumedWhitespaces p))
  | (None, _) => PErr (ParseError "unclosed multi-line string!" "" [] 0 0)
  end.

Definition isTokenConcatenable (p : parser) : bool :=
  isSubstitution (token p) (peek p) || isUnquotedString (token p) ||
  ((currentRune p =? TString)%Z && negb (isMultiLineString (token p) (peek p))).

(** [os.Open] and the reads of a file, with what [Close] returns. *)
Record file := mkFile { content : string; closing : option string }.
Context (Open : string -> string + file).

Record include := mkInclude { path : string; required : bool }.
Definition expect (t message : string) : M unit := x ← tok; if bool_decide (x = t) then mret () else invalidValueError message [].
Definition validateIncludeValue : M include :=
  t ← tok;
  required ← (if bool_decide (t = "required") then _ ← step; _ ← expect "(" "missing opening parenthesis"; _ ← step; mret true else mret false);
  t ← tok;
  t ← (if bool_decide (t = "file") || bool_decide (t = "classpath") then
         _ ← step; _ ← expect "(" "missing opening parenthesis"; _ ← step; path ← tok; _ ← step;
         _ ← expect ")" "missing closing parenthesis"; mret path
       else mret t);
  _ ← (if required : bool then _ ← step; expect ")" "missing closing parenthesis" else mret ());
  if negb (HasPrefix t (String quote_char "")) || negb (HasSuffix t (String quote_char "")) || (String.length t <? 2)%nat
  then invalidValueError "expected quoted string, optionally wrapped in 'file(...)' or 'classpath(...)'" []
  else mret (mkInclude (stake (String.length t - 2) (sdrop 1 t)) required).

Definition newParser (src : string) : parser := mkParser (Init src) 0 "".

(** A parser of its own for an included file, which is closed whatever happens. *)
Definition included {A} (f : file) (m : M A) : M A := fun p =>
  let closed r := match closing f with None => r | Some e => PErr (StdError e []) end in
  match m (advance (newParser (content f))) with
  | POk r _ => closed (POk r p)
  | PErr e => closed (PErr e)
  | PHangs => PHangs
  | PFuel => PFuel
  end.


(** The set of included files is shared by the calls that get one. *)
Definition includes := option (gset string).

(** The functions call one another; each is written against the functions it calls, for which
    [calls] stands, and [parser_of] ties the knot with fuel. *)
Record calls := mkCalls {
  call_object : includes -> bool -> M (object * includes);
  call_loop : includes -> bool -> bool -> object -> Z -> M (object * includes);
  call_sub : includes -> object -> string -> string -> M (object * includes * Z);
  call_field : object -> string -> string -> Z -> M (object * Z);
  call_plus : object -> string -> M object;
  call_concat : object -> string -> Z -> M object;
  call_include : includes -> M (object * includes);
  call_array : M (list Value);
  call_array_loop : list Value -> M (list Value);
  call_value : M Value
}.

Section functions.
Context (rec : calls).

Definition extractObject (incl : includes) (isSubObject : bool) : M (object * includes) :=
  t ← tok;
  if bool_decide (t = "{") then
    _ ← step; t ← tok;
    if bool_decide (t = "}") then _ ← step; mret ([], incl)
    else call_loop rec incl isSubObject false [] 0
  else call_loop rec incl isSubObject true [] 0.
Definition object_loop (incl : includes) (isSubObject balanced : bool) (o : object) (lastRow : Z) : M (object * includes) :=
  c ← look;
  if (c =? EOF)%Z then if balanced then mret (o, incl) else invalidObjectError "parenthesis do not match"
  else
    _ ← skip_comment;
    t ← tok;
    '(o, incl) ← (if bool_decide (t = "include") then
        _ ← step; '(new, incl) ← call_include rec incl; _ ← step; mret (mergeObjects o new, incl)
      else mret (o, incl));
    t ← tok;
    let key := Trim t in
    if forbiddenCharacters key then invalidKeyError key
    else if bool_decide (key = ".") then leadingPeriodError
    else
      _ ← step; text ← tok;
      '(o, incl, lastRow) ← (if bool_decide (text = ".") || bool_decide (text = "{") then call_sub rec incl o key text
                             else mret (o, incl, lastRow));
      '(o, lastRow) ← call_field rec o key text lastRow;
      if balanced && isSubObject then mret (o, incl)
      else
        o ← call_concat rec o key lastRow;
        t ← tok; c ← look; line ← (fun p => POk (Line (scan p)) p);
        if (line =? lastRow)%Z && negb (bool_decide (t = ",")) && negb (bool_decide (t = "}")) && negb (c =? EOF)%Z then missingCommaError
        else
          _ ← (if bool_decide (t = ",") then
                 _ ← step; t ← tok; if bool_decide (t = ",") then adjacentCommasError else mret ()
               else mret ());
          t ← tok;
          if negb balanced && bool_decide (t = "}") then _ ← step; mret (o, incl)
          else call_loop rec incl isSubObject balanced o lastRow.
(** A dot or an opening brace after a key. *)
Definition sub_object (incl : includes) (o : object) (key text : string) : M (object * includes * Z) :=
  _ ← (if bool_decide (text = ".") then
         _ ← step; t ← tok; c ← look;
         if bool_decide (t = ".") then adjacentPeriodsError
         else if isSeparator t c then trailingPeriodError else mret ()
       else mret ());
  row ← (fun p => POk (Line (scan p)) p);
  '(new, incl) ← call_object rec incl true;
  mret (object_set o key (match object_get o key with Some (Object e) => Object (mergeObjects e new) | _ => Object new end), incl, row).
(** What follows the key: a separator and a value, or [+=]. *)
Definition field (o : object) (key text : string) (lastRow : Z) : M (object * Z) :=
  if bool_decide (text = "=") || bool_decide (text = ":") then
    _ ← step;
    row ← (fun p => POk (Line (scan p)) p);
    value ← call_value rec;
    mret (object_set o key (match value, object_get o key with Object new, Some (Object e) => Object (mergeObjects e new) | _, _ => value end), row)
  else if bool_decide (text = "+") then
    c ← look;
    if (c =? 61)%Z then _ ← step; _ ← step; o ← call_plus rec o key; mret (o, lastRow) else mret (o, lastRow)
  else mret (o, lastRow).
Definition parsePlusEqualsValue (o : object) (key : string) : M object :=
  match object_get o key with
  | None => value ← call_value rec; mret (object_set o key (Array [value]))
  | Some (Array l) => value ← call_value rec; mret (object_set o key (Array (l ++ [value])))
  | Some _ => invalidValueError "value of the key: %q is not an array" [key]
  end.
(** The values that follow one on its line: the loop around [checkAndConcatenate]. *)
Definition concat_loop (o : object) (key : string) (lastRow : Z) : M object :=
  t ← tok; line ← (fun p => POk (Line (scan p)) p);
  if negb (line =? lastRow)%Z || bool_decide (t = "") then mret o
  else
    concatenable ← (fun p => POk (isTokenConcatenable p) p);
    match object_get o key with
    | Some lastValue =>
        if isConcatenable lastValue && concatenable then
          ws ← (fun p => POk (lastConsumedWhitespaces p) p);
          value ← call_value rec;
          call_concat rec (object_set o key (match lastValue with
            | concatenation l => concatenation (l ++ [leaf (String_ ws); value])
            | v => concatenation [v; leaf (String_ ws); value] end)) key lastRow
        else mret o
    | None => mret o
    end.
Definition parseIncludedResource (incl : includes) : M (object * includes) :=
  i ← validateIncludeValue;
  if (match incl with Some s => bool_decide (path i ∈ s) | None => false end) then std_error "recursive include of resource" [path i]
  else match Open (path i) with
       | inl e => if required i then std_error "could not parse resource" [e] else mret ([], incl)
       | inr f =>
           included f
             (t ← tok;
              if bool_decide (t = "[") then invalidValueError "included file cannot contain an array as the root value" []
              else call_object rec ((fun s => {[path i]} ∪ s) <$> incl) false)
       end.
Definition extractArray : M (list Value) :=
  t ← tok;
  if negb (bool_decide (t = "[")) then invalidArrayError "%q is not an array start token" [t]
  else
    _ ← step; t ← tok;
    if bool_decide (t = ",") then leadingCommaError
    else if bool_decide (t = "]") then _ ← step; mret []
    else call_array_loop rec [].
Definition array_loop (array : list Value) : M (list Value) :=
  c ← look;
  if (c =? EOF)%Z then invalidArrayError "parenthesis do not match" []
  else
    lastRow ← (fun p => POk (Line (scan p)) p);
    value ← call_value rec;
    let array := array ++ [value] in
    t ← tok; line ← (fun p => POk (Line (scan p)) p);
    if (line =? lastRow)%Z && negb (bool_decide (t = ",")) && negb (bool_decide (t = "]")) then missingCommaError
    else
      _ ← (if bool_decide (t = ",") then
             _ ← step; t ← tok; if bool_decide (t = ",") then adjacentCommasError else mret ()
           else mret ());
      t ← tok;
      if bool_decide (t = "]") then _ ← step; mret array else call_array_loop rec array.
Definition extractValue : M Value :=
  _ ← skip_comment;
  t ← tok; c ← look; r ← (fun p => POk (currentRune p) p);
  let unknown := invalidValueError "unknown value: %q" [t] in
  if (r =? TInt)%Z then
    match Value.ParseInt 64 t with
    | None => std_error "strconv.Atoi" [t]
    | Some value => l ← with_unit (Int value) value; mret (leaf l)
    end
  else if (r =? TFloat)%Z then
    match ParseFloat t with
    | None => std_error "strconv.ParseFloat" [t]
    | Some value => l ← with_unit (Float64 value) (truncate value); mret (leaf l)
    end
  else if (r =? TString)%Z then
    if isMultiLineString t c then l ← extractMultiLineString; mret (leaf l) else _ ← step; mret (leaf (String_ (Trim t)))
  else if (r =? TIdent)%Z then
    if bool_decide (t = "null") then _ ← step; mret (leaf Null)
    else if isBooleanString t then _ ← step; mret (leaf (Boolean (newBooleanFromString t)))
    else if isUnquotedString t then _ ← step; mret (leaf (String_ t))
    else unknown
  else if bool_decide (t = "{") then '(o, _) ← call_object rec None false; mret (Object o)
  else if bool_decide (t = "[") then l ← call_array rec; mret (Array l)
  else if isSubstitution t c then l ← extractSubstitution; mret (leaf l)
  else unknown.
End functions.

Definition no_fuel {A} : M A := fun _ => PFuel.
Fixpoint parser_of (fuel : nat) : calls :=
  match fuel with
  | O => mkCalls (fun _ _ => no_fuel) (fun _ _ _ _ _ => no_fuel) (fun _ _ _ _ => no_fuel) (fun _ _ _ _ => no_fuel) (fun _ _ => no_fuel)
           (fun _ _ _ => no_fuel) (fun _ => no_fuel) no_fuel (fun _ => no_fuel) no_fuel
  | S n =>
      let rec := parser_of n in
      mkCalls (extractObject rec) (object_loop rec) (sub_object rec) (field rec) (parsePlusEqualsValue rec) (concat_loop rec)
        (parseIncludedResource rec) (extractArray rec) (array_loop rec) (extractValue rec)
  end.

End parser.

(** One round of the knot, and the definition [f] it calls. *)
Ltac enter f :=
  cbn [parser_of call_object call_loop call_sub call_field call_plus call_concat call_include call_array call_array_loop call_value]; unfold f.
End Hocon.
