(* ===== verification/HoconTree.v ===== *)
(** * HOCON configurations ([parse] and the substitutions of
    [config_plugins/internal/3rdparty/hocon/parser.go], [find] and [Walk] of [config.go], and the
    reader of [config_plugins/internal/hocon.go]).

    A substitution that names an object, an array or a concatenation shares it, and what is later
    resolved in it is resolved in both places.  So the values of a parsed file are put into a store:
    a container is a node of it, and a value refers to the number of its node.  The entries of an
    object are in the order in which its map is walked, which the parameter [order] chooses. *)

From Stdlib Require Import Ascii SpecFloat.
From S2P Require Import Prelude GoInt GoStrings Value GoScanner Hocon.

Open Scope string_scope.
Open Scope list_scope.

Module HoconTree.
Import Hocon.

(** ** The store *)

Inductive val := VLeaf (l : Leaf) | VRef (i : nat).
Inductive node := NObject (o : list (string * val)) | NArray (l : list val) | NConcatenation (l : list val).
Definition heap := list node.

Section load.
Context (order : list (string * Value) -> list (string * Value)).

(** The nodes of a value are numbered from the inside; the last is its own. *)
Fixpoint load (v : Value) (h : heap) : val * heap :=
  match v with
  | leaf l => (VLeaf l, h)
  | Object o =>
      let '(o, h) := foldl (fun acc kv => let '(v, h) := load kv.2 acc.2 in (acc.1 ++ [(kv.1, v)], h)) ([], h) o in
      (VRef (length h), h ++ [NObject o])
  | Array l =>
      let '(l, h) := foldl (fun acc v => let '(v, h) := load v acc.2 in (acc.1 ++ [v], h)) ([], h) l in
      (VRef (length h), h ++ [NArray l])
  | concatenation l =>
      let '(l, h) := foldl (fun acc v => let '(v, h) := load v acc.2 in (acc.1 ++ [v], h)) ([], h) l in
      (VRef (length h), h ++ [NConcatenation l])
  end.
(** The order in which the maps of a value are walked. *)
Fixpoint shuffle (v : Value) : Value :=
  match v with
  | leaf l => leaf l
  | Object o => Object (order ((fun kv => (kv.1, shuffle kv.2)) <$> o))
  | Array l => Array (shuffle <$> l)
  | concatenation l => concatenation (shuffle <$> l)
  end.
End load.

(** ** Substitutions *)

Definition panic_object : string := "interface conversion: hocon.Value is not hocon.Object".
Definition val_get (o : list (string * val)) (key : string) : option val := snd ∘ snd <$> list_find (fun kv => kv.1 = key) o.
(** [find] from the object [root]. *)
Fixpoint find (h : heap) (keys : list string) (lastKey : string) (root : nat) : gores (option val) :=
  match h !! root with
  | Some (NObject o) =>
      match keys with
      | [] => Ok (val_get o lastKey)
      | key :: keys =>
          match val_get o key with
          | None => Ok None
          | Some (VRef i) => find h keys lastKey i
          | Some (VLeaf _) => Panic panic_object
          end
      end
  | _ => Panic panic_object
  end.
Definition find_path (h : heap) (root : nat) (path : string) : gores (option val) :=
  let keys := Split "." path in find h (removelast keys) (List.last keys "") root.

Definition children (n : node) : list val := match n with NObject o => o.*2 | NArray l | NConcatenation l => l end.
Definition set_child (n : node) (i : nat) (v : val) : node :=
  match n with
  | NObject o => NObject (alter (fun kv => (kv.1, v)) i o)
  | NArray l => NArray (<[i := v]> l)
  | NConcatenation l => NConcatenation (<[i := v]> l)
  end.

Section resolve.
Context (LookupEnv : string -> option string).

(** [resolveSubstitutions] of one container: its children one after the other, each as it is when
    its turn comes.  The fuel bounds the depth. *)
Fixpoint resolve (fuel root target : nat) (h : heap) : gores heap :=
  match fuel with
  | O => Panic "out of fuel"
  | S n =>
      foldl (fun r i =>
        h ← r;
        match h !! target ≫= (fun nd => children nd !! i) with
        | Some (VRef j) => resolve n root j h
        | Some (VLeaf (Substitution path optional)) =>
            found ← find_path h root path;
            match found, LookupEnv path with
            | Some v, _ => Ok (alter (fun nd => set_child nd i v) target h)
            | None, Some env => Ok (alter (fun nd => set_child nd i (VLeaf (String_ env))) target h)
            | None, None => if optional then Ok h else Err ("could not resolve substitution: " +:+ path)
            end
        | _ => Ok h
        end) (Ok h) (seq 0 (from_option (fun nd => length (children nd)) 0 (h !! target)))
  end.
End resolve.

(** ** Configurations *)

Record Config := mkConfig { store : heap; root : val; includes : list string }.

(** [Walk]: what the visitor is called with, in order, for a visitor that never stops.  A value
    that contains itself is walked for ever, here until the fuel ends. *)
Section walk.
Context (FormatFloat32 FormatFloat64 : spec_float -> string) (DurationString : Z -> string).

(** The text of an element of an array; [Stringify] does not know the types of numbers. *)
Definition element_text (v : val) : option string :=
  match v with
  | VLeaf ((String_ _ | Boolean _ | Duration _) as l) => Some (Leaf_String FormatFloat32 FormatFloat64 DurationString l)
  | VLeaf (Int _ | Float32 _ | Float64 _) => Some ""
  | _ => None
  end.
Definition under (parent key : string) : string := if bool_decide (parent = "") then key else parent +:+ "." +:+ key.
Fixpoint Walk (fuel : nat) (h : heap) (parent : string) (v : val) : option (list (string * Leaf)) :=
  match fuel with
  | O => None
  | S n =>
      match v with
      | VLeaf (Substitution _ _ | Null) => Some []
      | VLeaf l => Some [(parent, l)]
      | VRef i =>
          match h !! i with
          | Some (NObject o) =>
              foldl (fun r kv => l ← r; l' ← Walk n h (under parent kv.1) kv.2; Some (l ++ l')) (Some []) o
          | Some (NArray l) => Some [(parent, String_ (Join (omap element_text l) ","))]
          | _ => Some []
          end
      end
  end.

(** [HoconReader.Read]'s visitor. *)
Context (Format32 Format64 : spec_float -> string).
Definition visit (config : gmap string string) (e : string * Leaf) : gmap string string :=
  match e.2 with
  | String_ _ | Boolean _ | Duration _ | Int _ => <[e.1 := Leaf_String FormatFloat32 FormatFloat64 DurationString e.2]> config
  | Float32 f => <[e.1 := Format32 f]> config
  | Float64 f => <[e.1 := Format64 f]> config
  | Substitution _ _ | Null => config
  end.
End walk.

(** ** Parsing and reading a file *)

Section read.
Context (Letter Digit : Z -> bool) (ParseFloat : string -> option spec_float) (truncate : spec_float -> Z).
Context (Open : string -> string + file) (LookupEnv : string -> option string) (order : list (string * Value) -> list (string * Value)).

(** The outcome of a parse that has come to an end. *)
Inductive outcome := Parsed (c : Config) | Failed (e : error) | Panicked (msg : string) | Hangs | NoFuel.

Definition new_config (v : Value) (incl : list string) : Config := let '(r, h) := load (shuffle order v) [] in mkConfig h r incl.
Definition resolved (c : Config) : outcome :=
  match root c with
  | VRef i => match resolve LookupEnv (S (length (store c))) i i (store c) with
              | Ok h => Parsed (mkConfig h (root c) (includes c))
              | Err e => Failed (StdError e [])
              | Panic e => Panicked e
              end
  | VLeaf _ => Parsed c
  end.
Definition parse (fuel : nat) (p : parser) : outcome :=
  let p := advance Letter Digit p in
  if bool_decide (token p = "[") then
    match call_array (parser_of Letter Digit ParseFloat truncate Open fuel) p with
    | POk l _ => Parsed (new_config (Array l) [])
    | PErr e => Failed e | PHangs => Hangs | PFuel => NoFuel
    end
  else
    match call_object (parser_of Letter Digit ParseFloat truncate Open fuel) (Some ∅) false p with
    | POk (o, incl) p =>
        if bool_decide (token p = "") then resolved (new_config (Object o) (elements (default ∅ incl)))
        else Failed (ParseError "invalid config object!" "invalid token" [token p] (GoScanner.GoScanner.Line (scan p)) (GoScanner.GoScanner.Column (scan p)))
    | PErr e => Failed e | PHangs => Hangs | PFuel => NoFuel
    end.
(** Sixteen calls for each character and two at the end are enough ([HoconEnd.file_is_read]). *)
Definition fuel_for (src : string) : nat := 16 * (String.length src + 2).
Definition ParseString (src : string) : outcome := parse (fuel_for src) (newParser src).

(** [HoconReader.Read]: the configuration and the included files that are announced, in some
    order.  A walk deeper than there are nodes goes round in a circle, until the stack is full. *)
Context (FormatFloat32 FormatFloat64 : spec_float -> string) (DurationString : Z -> string) (Format32 Format64 : spec_float -> string).
Inductive read_result := ReadOk (config : gmap string string) (announced : list string) | ReadErr (e : error) | ReadPanics (msg : string) | ReadHangs | StackOverflow | ReadNoFuel.
Definition Walk_all (c : Config) : option (list (string * Leaf)) :=
  match root c with
  | VRef i => match store c !! i with
              | Some (NObject _) => Walk FormatFloat32 FormatFloat64 DurationString (S (S (length (store c)))) (store c) "" (root c)
              | _ => Some []
              end
  | VLeaf _ => Some []
  end.
Definition Read (content : string) : read_result :=
  match ParseString content with
  | Parsed c => match Walk_all c with
                | Some l => ReadOk (foldl (visit FormatFloat32 FormatFloat64 DurationString Format32 Format64) ∅ l) (includes c)
                | None => StackOverflow
                end
  | Failed e => ReadErr e
  | Panicked e => ReadPanics e
  | Hangs => ReadHangs
  | NoFuel => ReadNoFuel
  end.
End read.

(** ** Trees in the store *)

(** Two lists of entries whose values are related, under the same keys. *)
Inductive holds (h : heap) : val -> Value -> Prop :=
| holds_leaf l : holds h (VLeaf l) (leaf l)
| holds_object i o o' : h !! i = Some (NObject o) -> o.*1 = o'.*1 -> Forall2 (holds h) o.*2 o'.*2 -> holds h (VRef i) (Object o')
| holds_array i l l' : h !! i = Some (NArray l) -> Forall2 (holds h) l l' -> holds h (VRef i) (Array l')
| holds_concatenation i l l' : h !! i = Some (NConcatenation l) -> Forall2 (holds h) l l' -> holds h (VRef i) (concatenation l').

Lemma Value_induction (P : Value -> Prop) :
  (forall l, P (leaf l)) -> (forall o, Forall (fun kv => P kv.2) o -> P (Object o)) ->
  (forall l, Forall P l -> P (Array l)) -> (forall l, Forall P l -> P (concatenation l)) -> forall v, P v.
Proof.
  intros Hl Ho Ha Hc. fix IH 1. intros [l|o|l|l]; [apply Hl|apply Ho|apply Ha|apply Hc].
  - induction o as [|[k v] o IHo]; constructor; [apply IH|exact IHo].
  - induction l as [|v l IHl]; constructor; [apply IH|exact IHl].
  - induction l as [|v l IHl]; constructor; [apply IH|exact IHl].
Qed.

Lemma Forall2_from {A B} (R R' : A -> B -> Prop) (l : list B) :
  Forall (fun b => forall a, R a b -> R' a b) l -> forall k, Forall2 R k l -> Forall2 R' k l.
Proof. induction 1 as [|b l Hb Hl IH]; intros k Hk; inversion Hk; subst; constructor; auto. Qed.
Lemma holds_mono h h' r v : h `prefix_of` h' -> holds h r v -> holds h' r v.
Proof.
  intros Hh. revert r. induction v as [l|o IH|l IH|l IH] using Value_induction; intros r Hr; inversion Hr; subst.
  - constructor.
  - econstructor; [by eapply prefix_lookup_Some|done|]. eapply Forall2_from; [|done]. by apply Forall_fmap.
  - econstructor; [by eapply prefix_lookup_Some|]. by eapply Forall2_from.
  - econstructor; [by eapply prefix_lookup_Some|]. by eapply Forall2_from.
Qed.

(** The containers of a value. *)
Fixpoint nodes (v : Value) : nat :=
  match v with
  | leaf _ => 0
  | Object o => S (sum_list ((fun kv => nodes kv.2) <$> o))
  | Array l | concatenation l => S (sum_list (nodes <$> l))
  end.

Definition loads (v : Value) : Prop := forall h, let '(r, h') := load v h in
  h `prefix_of` h' /\ holds h' r v /\ length h' = length h + nodes v.
Lemma load_values l : Forall loads l -> forall h acc done_, Forall2 (holds h) acc done_ ->
  let '(l', h') := foldl (fun acc v => let '(v, h) := load v acc.2 in (acc.1 ++ [v], h)) (acc, h) l in
  h `prefix_of` h' /\ Forall2 (holds h') l' (done_ ++ l) /\ length h' = length h + sum_list (nodes <$> l).
Proof.
  induction 1 as [|v l Hv Hl IH]; intros h acc dn Hacc; cbn.
  - rewrite app_nil_r. split_and!; [done..|lia].
  - specialize (Hv h). destruct (load v h) as [r h1]. destruct Hv as (H1 & H2 & H3). cbn.
    specialize (IH h1 (acc ++ [r]) (dn ++ [v])). destruct (foldl _ _ l) as [l' h'].
    destruct IH as (H4 & H5 & H6).
    { apply Forall2_app; [|by repeat constructor]. eapply Forall2_impl; [exact Hacc|]. intros. by eapply holds_mono. }
    rewrite <- app_assoc in H5. split_and!; [by etrans|done|lia].
Qed.
Lemma load_entries o : Forall (fun kv => loads kv.2) o -> forall h (acc : list (string * val)) (done_ : list (string * Value)), acc.*1 = done_.*1 -> Forall2 (holds h) acc.*2 done_.*2 ->
  let '(o', h') := foldl (fun acc kv => let '(v, h) := load kv.2 acc.2 in (acc.1 ++ [(kv.1, v)], h)) (acc, h) o in
  h `prefix_of` h' /\ o'.*1 = (done_ ++ o).*1 /\ Forall2 (holds h') o'.*2 (done_ ++ o).*2 /\ length h' = length h + sum_list ((fun kv => nodes kv.2) <$> o).
Proof.
  induction 1 as [|[k v] o Hv Ho IH]; intros h acc dn Hk Hacc; cbn.
  - rewrite app_nil_r. split_and!; [done..|lia].
  - specialize (Hv h). cbn in Hv. destruct (load v h) as [r h1]. destruct Hv as (H1 & H2 & H3). cbn.
    specialize (IH h1 (acc ++ [(k, r)]) (dn ++ [(k, v)])). destruct (foldl _ _ o) as [l' h'].
    destruct IH as (H4 & H5 & H6 & H7).
    { by rewrite !fmap_app, Hk. }
    { rewrite !fmap_app. apply Forall2_app; [|by repeat constructor]. eapply Forall2_impl; [exact Hacc|]. intros. by eapply holds_mono. }
    rewrite <- app_assoc in H5, H6. split_and!; [by etrans|done|done|lia].
Qed.
Lemma load_holds v : loads v.
Proof.
  induction v as [l|o IH|l IH|l IH] using Value_induction; intros h; cbn.
  - split_and!; [done|constructor|lia].
  - pose proof (load_entries o IH h [] [] eq_refl ltac:(constructor)) as H. destruct (foldl _ _ o) as [o' h']. destruct H as (H1 & H2 & H3 & H4).
    split_and!; [by apply prefix_app_r|econstructor; [by apply list_lookup_middle|done|]|rewrite length_app; cbn; lia].
    eapply Forall2_impl; [exact H3|]. intros. eapply holds_mono; [|done]. by apply prefix_app_r.
  - pose proof (load_values l IH h [] [] ltac:(constructor)) as H. destruct (foldl _ _ l) as [l' h']. destruct H as (H1 & H2 & H3).
    split_and!; [by apply prefix_app_r|econstructor; [by apply list_lookup_middle|]|rewrite length_app; cbn; lia].
    eapply Forall2_impl; [exact H2|]. intros. eapply holds_mono; [|done]. by apply prefix_app_r.
  - pose proof (load_values l IH h [] [] ltac:(constructor)) as H. destruct (foldl _ _ l) as [l' h']. destruct H as (H1 & H2 & H3).
    split_and!; [by apply prefix_app_r|econstructor; [by apply list_lookup_middle|]|rewrite length_app; cbn; lia].
    eapply Forall2_impl; [exact H2|]. intros. eapply holds_mono; [|done]. by apply prefix_app_r.
Qed.

(** *** Without substitutions nothing is resolved *)

Definition values (v : Value) : list Value := match v with leaf _ => [] | Object o => o.*2 | Array l | concatenation l => l end.
Fixpoint settled (v : Value) : bool :=
  match v with
  | leaf (Substitution _ _) => false
  | leaf _ => true
  | Object o => forallb (fun kv => settled kv.2) o
  | Array l | concatenation l => forallb settled l
  end.
Lemma nodes_values v : nodes v = match v with leaf _ => 0 | _ => S (sum_list (nodes <$> values v)) end.
Proof. destruct v as [l|o|l|l]; [done| |done|done]. cbn. by rewrite <- list_fmap_compose. Qed.
Lemma settled_values v w : settled v = true -> w ∈ values v -> settled w = true.
Proof.
  intros Hv Hw. destruct v as [l|o|l|l]; cbn in *; [by apply not_elem_of_nil in Hw|..].
  - apply list_elem_of_fmap in Hw as (kv & -> & Hkv). rewrite forallb_forall in Hv. by apply Hv, list_elem_of_In.
  - rewrite forallb_forall in Hv. by apply Hv, list_elem_of_In.
  - rewrite forallb_forall in Hv. by apply Hv, list_elem_of_In.
Qed.
Lemma sum_list_member (l : list nat) n : n ∈ l -> n <= sum_list l.
Proof. induction 1; cbn; lia. Qed.
Lemma nodes_value v w : w ∈ values v -> nodes w < nodes v.
Proof.
  intros Hw. rewrite (nodes_values v). destruct v; [by apply not_elem_of_nil in Hw|..];
    (apply Nat.lt_succ_r, sum_list_member, list_elem_of_fmap; eauto).
Qed.
Lemma holds_children h i v : holds h (VRef i) v -> exists nd, h !! i = Some nd /\ Forall2 (holds h) (children nd) (values v).
Proof. intros Hv. inversion Hv; subst; eauto. Qed.
Lemma resolve_settled env root n : forall v i h, holds h (VRef i) v -> settled v = true -> nodes v <= n -> resolve env n root i h = Ok h.
Proof.
  induction n as [|n IH]; intros v i h Hh Hv Hn; [rewrite nodes_values in Hn; inversion Hh; subst; lia|].
  cbn [resolve]. destruct (holds_children h i v Hh) as (nd & Hnd & Hc). rewrite Hnd. apply (foldl_ind (fun r => r = Ok h)); [done|].
  intros r j _ ->. cbn. rewrite Hnd. cbn. destruct (children nd !! j) as [c|] eqn:Hj; [|done].
  destruct (Forall2_lookup_l _ _ _ _ _ Hc Hj) as (w & Hw%list_elem_of_lookup_2 & Hcw). pose proof (settled_values v w Hv Hw) as Hsw.
  destruct c as [l|k].
  - inversion Hcw; subst. by destruct l.
  - apply (IH w); [done..|]. pose proof (nodes_value v w Hw). lia.
Qed.

(** *** What a walk visits *)

Section visits.
Context (FormatFloat32 FormatFloat64 : spec_float -> string) (DurationString : Z -> string).
Definition tree_element (v : Value) : option string := match v with leaf l => element_text FormatFloat32 FormatFloat64 DurationString (VLeaf l) | _ => None end.
Fixpoint visits (parent : string) (v : Value) : list (string * Leaf) :=
  match v with
  | leaf (Substitution _ _ | Null) => []
  | leaf l => [(parent, l)]
  | Object o => o ≫= (fun kv => visits (under parent kv.1) kv.2)
  | Array l => [(parent, String_ (Join (omap tree_element l) ","))]
  | concatenation _ => []
  end.
Notation Walk := (Walk FormatFloat32 FormatFloat64 DurationString).
Lemma elements_held h l l' : Forall2 (holds h) l l' -> omap (element_text FormatFloat32 FormatFloat64 DurationString) l = omap tree_element l'.
Proof. induction 1 as [|r v l l' Hr Hl IH]; [done|]. cbn. rewrite IH. by inversion Hr; subst. Qed.
Lemma Walk_visits h n : forall v r parent, holds h r v -> nodes v < n -> Walk n h parent r = Some (visits parent v).
Proof.
  induction n as [|n IH]; intros v r parent Hh Hn; [lia|]. cbn [HoconTree.Walk]. inversion Hh; subst.
  - by destruct l.
  - rewrite H. assert (forall v, v ∈ o'.*2 -> nodes v < n) as Hb.
    { intros w Hw. pose proof (nodes_value (Object o') w Hw). lia. }
    cbn [visits]. clear Hh H Hn.
    assert (forall acc, foldl (fun r kv => l ← r; l' ← Walk n h (under parent kv.1) kv.2; Some (l ++ l')) (Some acc) o
            = Some (acc ++ (o' ≫= (fun kv => visits (under parent kv.1) kv.2)))) as Hgo; [|by rewrite Hgo].
    revert o' H0 H1 Hb. induction o as [|[k c] o IHo]; intros [|[k' v'] o'] Hk Hv Hb acc; try discriminate; [by cbn; rewrite app_nil_r|].
    cbn in Hk, Hv. injection Hk as -> Hk. apply Forall2_cons in Hv as [Hcv Hv]. cbn. rewrite (IH v') by (done || apply Hb; by left).
    cbn. rewrite (IHo o') by (done || intros; apply Hb; by right). by rewrite <- app_assoc.
  - rewrite H. by rewrite (elements_held _ _ _ H0).
  - by rewrite H.
Qed.

Lemma shuffle_settled order v : (forall l, order l ≡ₚ l) -> settled (shuffle order v) = settled v.
Proof.
  intros Ho. assert (forall l, Forall (fun v => settled (shuffle order v) = settled v) l -> forallb settled (shuffle order <$> l) = forallb settled l) as Hl.
  { induction 1 as [|v' l Hv Hl IH]; [done|]. cbn. by rewrite Hv, IH. }
  induction v as [l|o IH|l IH|l IH] using Value_induction; cbn; [done| |by apply Hl..].
  assert (forall l l', l ≡ₚ l' -> forallb (fun kv : string * Value => settled kv.2) l = forallb (fun kv => settled kv.2) l') as Hp.
  { induction 1 as [| |x y l|]; cbn; [done|congruence|by rewrite !andb_assoc, (andb_comm (settled y.2))|congruence]. }
  rewrite (Hp _ _ (Ho _)). induction IH as [|kv o Hkv Hrest IHo]; [done|]. cbn. by rewrite Hkv, IHo.
Qed.
Lemma shuffle_visits order v : (forall l, order l ≡ₚ l) -> forall parent, visits parent (shuffle order v) ≡ₚ visits parent v.
Proof.
  intros Ho. induction v as [l|o IH|l IH|l IH] using Value_induction; intros parent; cbn; [done| | |done].
  - rewrite (Ho _). induction IH as [|kv o Hkv Hrest IHo]; [done|]. cbn. by rewrite Hkv, IHo.
  - assert (omap tree_element (shuffle order <$> l) = omap tree_element l) as ->; [|done].
    clear IH. induction l as [|v l IH]; [done|]. cbn. rewrite IH. by destruct v.
Qed.
End visits.
End HoconTree.
