(* ===== verification/HoconEnd.v ===== *)
(** * Every file without a dollar sign is read or refused.

    The parser takes every token out of the source at most once, and its calls that take none are
    never nested deeper than eight; so the fuel it is given is enough, and without substitutions
    it cannot hang, resolving cannot fail, and the walk of the result ends. *)

From Stdlib Require Import Ascii SpecFloat.
From S2P Require Import Prelude GoInt GoStrings Value GoScanner Hocon HoconTree.

Open Scope string_scope.
Open Scope list_scope.

Module HoconEnd.
Import GoScanner Hocon HoconTree.

(** ** The scanner goes forward *)

Definition free (t : string) : bool := negb (contains_char "$" t).
(** What is left of the source, the look-ahead included. *)
Definition left (s : scanner) : nat := String.length (rest s) + (if (ch s =? EOF)%Z then 0 else 1).
Definition clean (s : scanner) : Prop := free (rest s) = true /\ free (lastChar s) = true /\ free (buf s) = true /\ free (TokenText s) = true.
Definition ended (s : scanner) : Prop := ch s = EOF -> rest s = "".
Record calm (s s' : scanner) : Prop := { calm_clean : clean s -> clean s'; calm_ended : ended s -> ended s'; calm_left : left s' <= left s }.

#[local] Instance calm_preorder : PreOrder calm.
Proof.
  split; [by split|]. intros s1 s2 s3 [H1 H2 H3] [H4 H5 H6]. split; [auto|auto|lia].
Qed.

Lemma free_app s t : free (s +:+ t) = free s && free t.
Proof. unfold free. by rewrite contains_char_app, negb_orb. Qed.
Lemma free_split n s : free s = true -> free (stake n s) = true /\ free (sdrop n s) = true.
Proof. intros Hs. rewrite <- (stake_sdrop n s), free_app in Hs. by apply andb_true_iff in Hs. Qed.

Lemma continued_nonneg n : forall acc s r, (0 <= acc)%Z -> continued n acc s = Some r -> (0 <= r)%Z.
Proof.
  induction n as [|n IH]; intros acc s r Ha; cbn; [by intros [= <-]|]. destruct s as [|a s]; [done|]. case_match; [|done].
  apply IH. apply Z.lor_nonneg. split; [by apply Z.shiftl_nonneg|]. apply Z.land_nonneg. by right.
Qed.
Lemma byte_nonneg a : (0 <= byte a)%Z.
Proof. unfold byte. apply N2Z.is_nonneg. Qed.
Lemma DecodeRune_spec a s : (0 <= (DecodeRune a s).1)%Z /\ 1 <= (DecodeRune a s).2.
Proof.
  unfold DecodeRune. pose proof (byte_nonneg a). case_match; [done|].
  destruct (second (byte a)) as [[[n lo] hi]|]; [|done]. destruct s as [|b s]; [done|]. case_match; [|done].
  destruct (continued n (lead n (byte a)) (String b s)) as [r|] eqn:E; cbn; [|done]. split; [|lia].
  eapply continued_nonneg; [|exact E]. unfold lead. repeat case_match; apply Z.land_nonneg; by left.
Qed.
Lemma length_sdrop n s : String.length (sdrop n s) = String.length s - n.
Proof. revert s. induction n as [|n IH]; intros [|a s]; cbn; [done..|]. by rewrite IH. Qed.

Lemma next_left s : left (next s) <= String.length (rest s) /\ (ch (next s) = EOF -> rest (next s) = "").
Proof.
  unfold next, left. destruct (rest s) as [|a r] eqn:E; cbn; [split; [lia|done]|].
  pose proof (DecodeRune_spec a r) as [Hc Hw]. destruct (DecodeRune a r) as [c w]. cbn in *.
  assert (c <> EOF) as Hne by (unfold EOF; lia).
  assert (String.length (sdrop w (String a r)) <= String.length r) by (rewrite length_sdrop; cbn; lia).
  case_match; cbn; (split; [case_match; lia|done]).
Qed.
Lemma calm_next s : calm s (next s).
Proof.
  pose proof (next_left s) as [Hl He]. split; [|by intros _|unfold left at 2; lia].
  intros (H1 & H2 & H3 & H4). unfold next. destruct (rest s) as [|a r] eqn:E.
  - repeat split; cbn; [done..| |done]. by rewrite free_app, H3, H2.
  - destruct (DecodeRune a r) as [c w]. destruct (free_split w _ H1) as [Hs Hd].
    case_match; (repeat split; cbn -[sdrop stake]; [done..| |done]); by rewrite free_app, H3, H2.
Qed.
Lemma next_strict s : ch s <> EOF -> left (next s) < left s.
Proof. intros Hs. pose proof (next_left s) as [Hl _]. unfold left at 2. destruct (Z.eqb_spec (ch s) EOF); [done|lia]. Qed.

(** One step forward, then further. *)
Lemma calm_then s s' : calm (next s) s' -> calm s s'.
Proof. intros H. etrans; [apply calm_next|done]. Qed.
Lemma strict_then s s' : ch s <> EOF -> calm (next s) s' -> left s' < left s.
Proof. intros Hs H. pose proof (next_strict s Hs). pose proof (calm_left _ _ H). lia. Qed.

Section scanner.
Context (Letter Digit : Z -> bool).

Lemma calm_skip_while p fuel : forall s, calm s (skip_while fuel p s).
Proof. induction fuel as [|n IH]; intros s; cbn; [done|]. case_match; [|done]. by apply calm_then. Qed.
Lemma calm_skip p s : calm s (skip p s).
Proof. apply calm_skip_while. Qed.
Lemma calm_digits hex s : calm s (digits hex s).
Proof. apply calm_skip. Qed.
Lemma calm_fraction hex s : calm s (fraction hex s).2.
Proof. unfold fraction. case_match; [|done]. apply calm_then, calm_digits. Qed.
Lemma calm_exponent k s : calm s (exponent (k, s)).2.
Proof.
  unfold exponent. cbv zeta. destruct (_ || _); [|done]. cbn [snd]. etrans; [|apply calm_digits]. apply calm_then.
  destruct (_ || _); [apply calm_next|done].
Qed.
Lemma calm_fe hex s : calm s (exponent (fraction hex s)).2.
Proof. pose proof (calm_fraction hex s). destruct (fraction hex s). etrans; [done|apply calm_exponent]. Qed.
Lemma calm_number_tail s : calm s (let c := lower (ch s) in
    if (c =? 120)%Z then exponent (fraction true (digits true (next s)))
    else if (c =? 111)%Z || (c =? 98)%Z then exponent (fraction false (digits false (next s)))
    else exponent (fraction false (digits false s))).2.
Proof.
  cbv zeta. destruct (_ =? 120)%Z; [apply calm_then|destruct (_ || _); [apply calm_then|]]; (etrans; [apply calm_digits|apply calm_fe]).
Qed.
Lemma calm_scanNumber dot s : calm s (scanNumber dot s).2.
Proof.
  unfold scanNumber. destruct dot; [etrans; [apply calm_digits|apply calm_exponent]|]. destruct (ch s =? 48)%Z.
  - apply calm_then. apply calm_number_tail.
  - etrans; [apply calm_digits|apply calm_fe].
Qed.
Lemma calm_scanDigits n base : forall s, calm s (scanDigits n base s).
Proof. induction n as [|n IH]; intros s; cbn; [done|]. case_match; [|done]. by apply calm_then. Qed.
Lemma calm_scanEscape q s : calm s (scanEscape q s).
Proof. unfold scanEscape. apply calm_then. repeat case_match; try apply calm_scanDigits; try (apply calm_then, calm_scanDigits); [apply calm_next|done]. Qed.
Lemma calm_string_loop q fuel : forall s, calm s (string_loop fuel q s).
Proof.
  induction fuel as [|n IH]; intros s; cbn; [done|]. repeat case_match; [done| |by apply calm_then].
  etrans; [apply calm_scanEscape|apply IH].
Qed.
Lemma calm_comment_loop fuel : forall s, calm s (comment_loop fuel s).
Proof. induction fuel as [|n IH]; intros s; cbn; [done|]. repeat case_match; [done| |]; apply calm_then; [apply calm_next|apply IH]. Qed.
Lemma calm_scanComment s : calm s (scanComment s).
Proof. unfold scanComment. case_match; apply calm_then; [apply calm_skip|apply calm_comment_loop]. Qed.
Lemma calm_start s : calm s (start_token s).
Proof. unfold start_token. case_match; (split; [by intros (H1 & H2 & H3 & H4)|done|done]). Qed.
Lemma calm_end k s : calm s (end_token (k, s)).2.
Proof. split; [by intros (H1 & H2 & H3 & H4)|done|done]. Qed.
Lemma calm_ended_by s s' k : calm s s' -> calm s (end_token (k, s')).2.
Proof. intros H. etrans; [done|apply calm_end]. Qed.

Lemma calm_token again s : (forall s, calm s (again s).2) -> calm s (token_at Letter Digit again s).2.
Proof.
  intros IH. unfold token_at. cbv zeta.
  destruct (isIdentRune _ _ _ _); [apply calm_ended_by, calm_then, calm_skip|].
  destruct (isDecimal _).
  { pose proof (calm_scanNumber false s). destruct (scanNumber false s). by apply calm_ended_by. }
  destruct (_ =? EOF)%Z; [by apply calm_ended_by|].
  destruct (_ =? 34)%Z; [apply calm_ended_by; etrans; [|apply calm_next]; apply calm_then, calm_string_loop|].
  destruct (_ =? 39)%Z; [apply calm_ended_by; etrans; [|apply calm_next]; apply calm_then, calm_string_loop|].
  destruct (_ =? 46)%Z.
  { destruct (isDecimal _); [|apply calm_ended_by, calm_next].
    pose proof (calm_scanNumber true (next s)). destruct (scanNumber true (next s)). by apply calm_ended_by, calm_then. }
  destruct (_ =? 47)%Z.
  { apply calm_then. destruct (_ || _); [etrans; [apply calm_scanComment|apply IH]|by apply calm_ended_by]. }
  destruct (_ =? 96)%Z; [apply calm_ended_by; etrans; [|apply calm_next]; apply calm_then, calm_skip|].
  apply calm_ended_by, calm_next.
Qed.
Lemma calm_scan_from fuel : forall s, calm s (scan_from Letter Digit fuel s).2.
Proof.
  induction fuel as [|n IH]; intros s; [done|]. cbn [scan_from].
  etrans; [apply (calm_skip whitespace)|]. etrans; [apply calm_start|]. by apply calm_token.
Qed.
Lemma calm_Scan s : calm s (Scan Letter Digit s).2.
Proof. apply calm_scan_from. Qed.

(** A token takes at least one character, if there is one. *)
Lemma skip_some p s : p (ch s) = true -> ch s <> EOF -> left (skip p s) < left s.
Proof.
  intros Hp Hs. unfold skip. generalize (S (String.length (rest s))). intros n. cbn [skip_while]. rewrite Hp. destruct (Z.eqb_spec (ch s) EOF); [done|]. cbn [andb negb].
  apply strict_then; [done|apply calm_skip_while].
Qed.
Lemma end_left k s : left (end_token (k, s)).2 = left s.
Proof. done. Qed.
Lemma scanNumber_strict s : isDecimal (ch s) = true -> ch s <> EOF -> left (scanNumber false s).2 < left s.
Proof.
  intros Hd Hs. unfold scanNumber. destruct (ch s =? 48)%Z.
  - apply strict_then; [done|]. apply calm_number_tail.
  - eapply Nat.le_lt_trans; [apply calm_left, calm_fe|]. apply skip_some; [|done]. cbv beta. by rewrite Hd.
Qed.
Lemma token_strict again s : (forall s, calm s (again s).2) -> ch s <> EOF -> left (token_at Letter Digit again s).2 < left s.
Proof.
  intros IH Hs. unfold token_at. cbv zeta.
  destruct (isIdentRune _ _ _ _); [rewrite end_left; apply strict_then, calm_skip; done|].
  destruct (isDecimal _) eqn:Hd.
  { pose proof (scanNumber_strict s Hd Hs). destruct (scanNumber false s). by rewrite end_left. }
  destruct (Z.eqb_spec (ch s) EOF); [done|].
  destruct (_ =? 34)%Z; [rewrite end_left; apply strict_then; [done|]; etrans; [|apply calm_next]; apply calm_string_loop|].
  destruct (_ =? 39)%Z; [rewrite end_left; apply strict_then; [done|]; etrans; [|apply calm_next]; apply calm_string_loop|].
  destruct (_ =? 46)%Z.
  { destruct (isDecimal (ch (next s))); [|by apply next_strict].
    pose proof (calm_scanNumber true (next s)). destruct (scanNumber true (next s)). rewrite end_left. by apply strict_then. }
  destruct (_ =? 47)%Z.
  { destruct (_ || _); [|by apply next_strict]. apply strict_then; [done|]. etrans; [apply calm_scanComment|apply IH]. }
  destruct (_ =? 96)%Z; [rewrite end_left; apply strict_then; [done|]; etrans; [|apply calm_next]; apply calm_skip|].
  by apply next_strict.
Qed.
Lemma Scan_strict s : ch s <> EOF -> left (Scan Letter Digit s).2 < left s.
Proof.
  intros Hs. unfold Scan. generalize (S (String.length (rest s))). intros n. cbn [scan_from]. destruct (whitespace (ch s)) eqn:Hw.
  - eapply Nat.le_lt_trans; [|by apply (skip_some whitespace)]. apply calm_left. etrans; [apply calm_start|].
    apply calm_token, calm_scan_from.
  - assert (skip whitespace s = s) as -> by (unfold skip; cbn [skip_while]; by rewrite Hw).
    assert (left (start_token s) = left s) as <- by (unfold start_token; by case_match).
    apply token_strict; [apply calm_scan_from|]. unfold start_token. by case_match.
Qed.
(** At the end there is no token. *)
Lemma Scan_end s : ch s = EOF -> exists s', Scan Letter Digit s = (EOF, s') /\ ch s' = EOF /\ TokenText s' = "".
Proof.
  intros Hs. unfold Scan. generalize (S (String.length (rest s))). intros n. cbn [scan_from].
  assert (skip whitespace s = s) as -> by (unfold skip; cbn [skip_while]; by rewrite Hs).
  unfold token_at. assert (ch (start_token s) = EOF) as -> by (unfold start_token; by case_match).
  cbn -[start_token]. eexists. split; [done|]. unfold start_token. by case_match.
Qed.
End scanner.

(** ** The parser comes to an end *)

Section parser.
Context (Letter Digit : Z -> bool) (ParseFloat : string -> option spec_float) (truncate : spec_float -> Z) (Open : string -> string + file).
Notation advance := (advance Letter Digit).

(** What a parser has before it: its token, and twice the characters behind it. *)
Definition size (p : parser) : nat := 2 * left (scan p) + (if bool_decide (token p = "") then 0 else 1).
Definition sound (p : parser) : Prop := clean (scan p) /\ ended (scan p).

Lemma calm_blanks fuel : forall s k builder, calm s (scan (blanks Letter Digit fuel s k builder)).
Proof.
  induction fuel as [|n IH]; intros s k builder; [done|]. cbn [blanks]. destruct (_ || _); [|done].
  pose proof (calm_Scan Letter Digit s). destruct (Scan Letter Digit s) as [k' s']. etrans; [done|apply IH].
Qed.
Lemma calm_advance p : calm (scan p) (scan (advance p)).
Proof.
  unfold Hocon.advance. pose proof (calm_Scan Letter Digit (scan p)). destruct (Scan Letter Digit (scan p)) as [k s].
  etrans; [done|apply calm_blanks].
Qed.
Lemma sound_calm p p' : calm (scan p) (scan p') -> sound p -> sound p'.
Proof. intros [H1 H2 _] [H3 H4]. split; auto. Qed.
Lemma size_peek p : peek p <> EOF -> 2 <= size p.
Proof. unfold peek, Peek, size, left. intros Hp. destruct (Z.eqb_spec (ch (scan p)) EOF); [done|lia]. Qed.
Lemma size_token p : token p <> "" -> 1 <= size p.
Proof. unfold size. intros Hp. rewrite bool_decide_eq_false_2 by done. lia. Qed.
Lemma size_left p : size p <= 2 * left (scan p) + 1.
Proof. unfold size. case_match; lia. Qed.
Lemma advance_end p : peek p = EOF -> token (advance p) = "" /\ peek (advance p) = EOF.
Proof.
  intros Hp. destruct (Scan_end Letter Digit (scan p) Hp) as (s' & E & Hc & Ht). unfold Hocon.advance. rewrite E. by destruct (String.length (rest s')).
Qed.
Lemma advance_strict p : peek p <> EOF -> left (scan (advance p)) < left (scan p).
Proof.
  intros He. unfold Hocon.advance. pose proof (Scan_strict Letter Digit (scan p) He) as Hs. destruct (Scan Letter Digit (scan p)) as [k s]; cbn in Hs.
  pose proof (calm_left _ _ (calm_blanks (S (S (String.length (rest s)))) s k "")). lia.
Qed.
Lemma advance_sound p : sound p -> sound (advance p) /\ size (advance p) <= size p - 1.
Proof.
  intros Hp. split; [eapply sound_calm; [apply calm_advance|done]|]. destruct (decide (peek p = EOF)) as [He|He].
  - destruct (advance_end p He) as [Ht Hc]. destruct Hp as [_ Hp]. specialize (Hp He).
    assert (left (scan p) = 0) as H0 by (unfold left; unfold peek, Peek in He; by rewrite Hp, He).
    pose proof (calm_left _ _ (calm_advance p)). unfold size at 1. rewrite bool_decide_eq_true_2 by done. lia.
  - pose proof (advance_strict p He).
    pose proof (size_left (advance p)). unfold size at 2. lia.
Qed.
Lemma comment_sound p : sound p -> sound (consumeComment Letter Digit p) /\ size (consumeComment Letter Digit p) <= size p - 1.
Proof.
  unfold consumeComment. generalize (S (S (String.length (rest (scan p))))). intros fuel Hp.
  assert (sound (comment_tokens Letter Digit fuel p) /\ size (comment_tokens Letter Digit fuel p) <= size p) as [H1 H2].
  { revert p Hp. induction fuel as [|n IH]; intros p Hp; cbn [comment_tokens]; [done|]. destruct (_ || _); [done|].
    destruct (advance_sound p Hp) as [Ha Hs]. destruct (IH _ Ha). split; [done|lia]. }
  destruct (advance_sound _ H1). split; [done|lia].
Qed.

(** A result that is a value or an error, with what is known of the value and what is left. *)
Definition good {A} (b : nat) (Q : A -> Prop) (r : result A) : Prop :=
  match r with POk a p => sound p /\ size p <= b /\ Q a | PErr _ => True | PHangs | PFuel => False end.
Definition any {A} : A -> Prop := fun _ => True.
Lemma good_bind {A B} (b b' : nat) (Q : A -> Prop) (Q' : B -> Prop) (m : M A) (f : A -> M B) p :
  good b Q (m p) -> (forall a p', sound p' -> size p' <= b -> Q a -> good b' Q' (f a p')) -> good b' Q' ((m ≫= f) p).
Proof. unfold mbind, M_bind. destruct (m p) as [a p'|e| |]; cbn; [|done..]. intros (H1 & H2 & H3) Hf. by apply Hf. Qed.
Lemma good_weaken {A} (b b' : nat) (Q : A -> Prop) r : b <= b' -> good b Q r -> good b' Q r.
Proof. destruct r; cbn; [|done..]. intros Hb (H1 & H2 & H3). split_and!; [done|lia|done]. Qed.
Lemma good_mret {A} (b : nat) (Q : A -> Prop) a p : sound p -> size p <= b -> Q a -> good b Q ((mret a : M A) p).
Proof. by split. Qed.
Lemma good_error {A} (b : nat) (Q : A -> Prop) t m l p : good b Q (parse_error t m l p).
Proof. exact I. Qed.
Lemma good_step p : sound p -> good (size p - 1) any (step Letter Digit p).
Proof. intros Hp. destruct (advance_sound p Hp). by split. Qed.
Lemma bind_tok {A} (f : string -> M A) p : (tok ≫= f) p = f (token p) p.
Proof. done. Qed.
Lemma bind_look {A} (f : Z -> M A) p : (look ≫= f) p = f (peek p) p.
Proof. done. Qed.
Lemma bind_get {A B} (g : parser -> A) (f : A -> M B) p : (((fun p => POk (g p) p) : M A) ≫= f) p = f (g p) p.
Proof. done. Qed.
(** A comment is taken out; what was no comment is as it was. *)
Lemma good_skip_comment p : sound p -> good (size p) any (skip_comment Letter Digit p).
Proof. intros Hp. unfold skip_comment. case_match; [|by split]. destruct (comment_sound p Hp). split_and!; [done|lia|done]. Qed.

(** One step of a proof that a program is good. *)
Ltac go_on := first
  [ rewrite bind_tok | rewrite bind_look | rewrite bind_get
  | eapply good_bind; [by apply good_step|intros [] ?q ?Hq ?Hsq _]
  | apply good_mret; [done|lia|try done]
  | exact I ].

Lemma no_dollar p : sound p -> token p <> "$".
Proof. intros [(_ & _ & _ & Ht) _] E. unfold token in E. by rewrite E in Ht. Qed.
Lemma no_substitution p c : sound p -> isSubstitution (token p) c = false.
Proof. intros Hp. unfold isSubstitution. rewrite bool_decide_eq_false_2; [done|by apply no_dollar]. Qed.

Notation settled_leaf l := (settled (leaf l) = true).
Lemma good_with_unit l n p : sound p -> settled_leaf l -> good (size p - 1) (fun l => settled_leaf l) (with_unit Letter Digit l n p).
Proof.
  intros Hp Hl. unfold with_unit. eapply (good_bind (size p - 1) _ any).
  { destruct (advance_sound p Hp). by split. }
  intros u q Hq Hsq _. destruct (u =? 0)%Z; repeat go_on.
Qed.
Lemma calm_no_token s : calm s (no_token s).
Proof. split; [by intros (H1 & H2 & H3 & H4)|done|done]. Qed.
Lemma calm_Next s : calm s (Next s).2.
Proof. unfold Next. cbn. case_match; [apply calm_no_token|]. etrans; [apply calm_no_token|apply calm_next]. Qed.
Lemma calm_multi_line fuel : forall q b s, calm s (multi_line fuel q b s).2.
Proof.
  induction fuel as [|n IH]; intros q b s; [done|]. cbn [multi_line]. pose proof (calm_Next s) as Hn. destruct (Next s) as [c s'].
  destruct (c =? EOF)%Z; [done|]. destruct (_ && _); [done|]. etrans; [done|apply IH].
Qed.
Lemma Next_text s : TokenText (Next s).2 = "".
Proof. unfold Next. cbn. case_match; [done|]. unfold next, no_token. cbn. destruct (rest s) as [|a r]; [done|]. destruct (DecodeRune a r). by case_match. Qed.
Lemma multi_line_text fuel : forall q b s, TokenText s = "" -> TokenText (multi_line fuel q b s).2 = "".
Proof.
  induction fuel as [|n IH]; intros q b s Hs; [done|]. cbn [multi_line]. pose proof (Next_text s) as Hn. destruct (Next s) as [c s'].
  destruct (c =? EOF)%Z; [done|]. destruct (_ && _); [done|]. by apply IH.
Qed.
Lemma good_multi_line p : sound p -> peek p <> EOF -> good (size p - 1) (fun l => settled_leaf l) (extractMultiLineString p).
Proof.
  intros Hp He. unfold extractMultiLineString. cbv zeta. set (s := (Next (scan p)).2).
  pose proof (calm_Next (scan p)) as Hc. pose proof (Next_text (scan p)) as Hx. fold s in Hc, Hx.
  assert (left s < left (scan p)) as Hl.
  { unfold s, Next. unfold peek, Peek in He. destruct (Z.eqb_spec (ch (scan p)) EOF); [done|]. apply (next_strict (no_token (scan p))). done. }
  clearbody s. generalize (S (S (String.length (rest s)))). intros fuel.
  pose proof (calm_multi_line fuel 0 "" s) as Hm. pose proof (multi_line_text fuel 0 "" s Hx) as Ht.
  destruct (multi_line fuel 0 "" s) as [[b|] s']; cbn in Hm, Ht; [|done]. split_and!; [eapply sound_calm; [|exact Hp]; cbn; by etrans| |done].
  pose proof (calm_left _ _ Hm). unfold size, token. cbn [scan]. rewrite Ht, bool_decide_eq_true_2 by done. lia.
Qed.
Lemma good_expect t m p : sound p -> good (size p) any (expect t m p).
Proof. intros Hp. unfold expect. go_on. case_match; go_on. Qed.
Lemma good_include p : sound p -> good (size p) any (validateIncludeValue Letter Digit p).
Proof.
  intros Hp. unfold validateIncludeValue. go_on. eapply (good_bind (size p) _ any).
  { destruct (bool_decide _); [|go_on]. go_on. eapply good_bind; [by apply good_expect|]. intros [] r Hr Hsr _. repeat go_on. }
  intros req q Hq Hsq _. go_on. eapply (good_bind (size p) _ any).
  { destruct (_ || _); [|go_on]. go_on. eapply good_bind; [by apply good_expect|]. intros [] r Hr Hsr _. repeat go_on.
    eapply good_bind; [by apply good_expect|]. intros [] r' Hr' Hsr' _. repeat go_on. }
  intros t r Hr Hsr _. eapply (good_bind (size p) _ any).
  { destruct req; [|go_on]. go_on. eapply good_weaken; [|by apply good_expect]. lia. }
  intros _ r' Hr' Hsr' _. case_match; go_on.
Qed.

(** *** Values without substitutions *)

Notation settled_object o := (settled (Object o) = true).
Lemma settled_get o k v : settled_object o -> object_get o k = Some v -> settled v = true.
Proof.
  unfold object_get. intros Ho Hk. destruct (list_find _ o) as [[j kv]|] eqn:E; [|done]. injection Hk as <-.
  apply list_find_Some in E as (Hj & _). apply (settled_values _ _ Ho). apply list_elem_of_fmap. exists kv. split; [done|]. by eapply list_elem_of_lookup_2.
Qed.
Lemma settled_set o k v : settled_object o -> settled v = true -> settled_object (object_set o k v).
Proof.
  induction o as [|kv o IH]; cbn; intros Ho Hv; [by rewrite Hv|]. apply andb_true_iff in Ho as [Hkv Ho]. case_match; cbn.
  - by rewrite Hv.
  - rewrite Hkv. by apply IH.
Qed.
Lemma settled_merge v : forall e, settled v = true -> settled_object e -> settled_object (merge v e).
Proof.
  induction v as [l|o IH|l IH|l IH] using Value_induction; intros e Hv He; [done| |done..]. cbn [merge].
  rewrite Forall_forall in IH. apply (foldl_ind (fun e => settled_object e)); [done|]. intros e' kv Hkv He'.
  assert (settled kv.2 = true) as Hs by (apply (settled_values _ _ Hv), list_elem_of_fmap; eauto).
  apply settled_set; [done|]. destruct (object_get e' kv.1) as [[l|e2|l|l]|] eqn:E; [done| |done..].
  destruct kv.2 as [l|o2|l|l] eqn:E2; [done| |done..]. rewrite <- E2. apply (IH kv Hkv); [by rewrite E2|]. by apply (settled_get e' kv.1).
Qed.
Lemma settled_app l v : forallb settled l = true -> settled v = true -> forallb settled (l ++ [v]) = true.
Proof. intros Hl Hv. rewrite forallb_app, Hl. cbn. by rewrite Hv. Qed.

Hypothesis no_file : forall path, exists e, Open path = inl e.

Notation at_fuel n := (parser_of Letter Digit ParseFloat truncate Open n).
(** What the functions of the parser do with fuel for their rank, eight for every unit of size. *)
Record parses (n : nat) : Prop := {
  p_object : forall p incl sub, sound p -> 8 * size p + 2 <= n ->
    good (if bool_decide (token p = "{") then size p - 1 else size p) (fun r => settled_object r.1) (call_object (at_fuel n) incl sub p);
  p_loop : forall p incl sub bal o row, sound p -> settled_object o -> 8 * size p + 1 <= n ->
    good (size p) (fun r => settled_object r.1) (call_loop (at_fuel n) incl sub bal o row p);
  p_sub : forall p incl o key text, sound p -> settled_object o -> 8 * size p + 3 <= n ->
    good (size p) (fun r => settled_object r.1.1) (call_sub (at_fuel n) incl o key text p);
  p_field : forall p o key text row, sound p -> settled_object o -> 8 * size p + 5 <= n ->
    good (size p) (fun r => settled_object r.1) (call_field (at_fuel n) o key text row p);
  p_plus : forall p o key, sound p -> settled_object o -> 8 * size p + 4 <= n -> good (size p) (fun o => settled_object o) (call_plus (at_fuel n) o key p);
  p_concat : forall p o key row, sound p -> settled_object o -> 8 * size p + 4 <= n -> good (size p) (fun o => settled_object o) (call_concat (at_fuel n) o key row p);
  p_include : forall p incl, sound p -> 8 * size p + 1 <= n -> good (size p) (fun r => settled_object r.1) (call_include (at_fuel n) incl p);
  p_array : forall p, sound p -> 8 * size p + 1 <= n -> good (size p - 1) (fun l => forallb settled l = true) (call_array (at_fuel n) p);
  p_array_loop : forall p l, sound p -> forallb settled l = true -> 8 * size p + 4 <= n -> good (size p) (fun l => forallb settled l = true) (call_array_loop (at_fuel n) l p);
  p_value : forall p, sound p -> 8 * size p + 3 <= n -> good (size p - 1) (fun v => settled v = true) (call_value (at_fuel n) p)
}.
Lemma parses_O : parses 0.
Proof. split; intros; lia. Qed.

Section step.
Context (n : nat) (IH : parses n).

Lemma object_step p incl sub : sound p -> 8 * size p + 2 <= S n ->
  good (if bool_decide (token p = "{") then size p - 1 else size p) (fun r => settled_object r.1) (extractObject Letter Digit (at_fuel n) incl sub p).
Proof.
  intros Hp Hn. unfold extractObject. go_on. case_match eqn:E.
  - apply bool_decide_eq_true in E. pose proof (size_token p) as H1. rewrite E in H1. specialize (H1 ltac:(done)).
    repeat go_on. case_match; [repeat go_on|]. eapply good_weaken; [|apply (p_loop _ IH); [done..|lia]]. lia.
  - apply (p_loop _ IH); [done..|lia].
Qed.
Lemma include_step p incl : sound p -> 8 * size p + 1 <= S n -> good (size p) (fun r => settled_object r.1) (parseIncludedResource Letter Digit Open (at_fuel n) incl p).
Proof.
  intros Hp Hn. unfold parseIncludedResource. eapply good_bind; [by apply good_include|]. intros i q Hq Hsq _.
  destruct (match incl with Some _ => _ | None => _ end); [exact I|]. destruct (no_file (path i)) as [e ->]. destruct (required i); go_on.
Qed.
Lemma plus_step p o key : sound p -> settled_object o -> 8 * size p + 4 <= S n -> good (size p) (fun o => settled_object o) (parsePlusEqualsValue (at_fuel n) o key p).
Proof.
  intros Hp Ho Hn. unfold parsePlusEqualsValue. destruct (object_get o key) as [[l|o'|l|l]|] eqn:E; try go_on.
  all: (eapply good_bind; [apply (p_value _ IH); [done|lia]|]; intros v q Hq Hsq Hv; apply good_mret; [done|lia|apply settled_set; [done|]]).
  - pose proof (settled_get o key _ Ho E) as Hl. by apply settled_app.
  - cbn. by rewrite Hv.
Qed.
Lemma field_step p o key text row : sound p -> settled_object o -> 8 * size p + 5 <= S n ->
  good (size p) (fun r => settled_object r.1) (Hocon.field Letter Digit (at_fuel n) o key text row p).
Proof.
  intros Hp Ho Hn. unfold Hocon.field. destruct (_ || _); [|destruct (bool_decide _)]; [| |go_on].
  - repeat go_on. eapply good_bind; [apply (p_value _ IH); [done|lia]|]. intros v r Hr Hsr Hv. apply good_mret; [done|lia|].
    apply settled_set; [done|]. destruct v as [l|new|l|l]; try done. destruct (object_get o key) as [[l|e|l|l]|] eqn:E; try done.
    pose proof (settled_get o key _ Ho E). by apply settled_merge.
  - go_on. case_match; [|go_on]. repeat go_on. eapply good_bind; [apply (p_plus _ IH); [done..|lia]|]. intros o' r Hr Hsr Ho'. go_on.
Qed.
Lemma sub_step p incl o key text : sound p -> settled_object o -> 8 * size p + 3 <= S n ->
  good (size p) (fun r => settled_object r.1.1) (sub_object Letter Digit (at_fuel n) incl o key text p).
Proof.
  intros Hp Ho Hn. unfold sub_object. eapply (good_bind (size p) _ any).
  { case_match; [|go_on]. repeat go_on. case_match; [go_on|]. case_match; go_on. }
  intros _ q Hq Hsq _. go_on. eapply (good_bind (size q)).
  { eapply good_weaken; [|apply (p_object _ IH); [done|lia]]. case_match; lia. }
  intros [new incl'] r Hr Hsr Hnew. cbn in Hnew. apply good_mret; [done|lia|]. apply settled_set; [done|].
  destruct (object_get o key) as [[l|e|l|l]|] eqn:E; try done. pose proof (settled_get o key _ Ho E). by apply settled_merge.
Qed.
Lemma concat_step p o key row : sound p -> settled_object o -> 8 * size p + 4 <= S n -> good (size p) (fun o => settled_object o) (concat_loop (at_fuel n) o key row p).
Proof.
  intros Hp Ho Hn. unfold concat_loop. repeat go_on. destruct (_ || _) eqn:E; [go_on|]. apply orb_false_iff in E as [_ E%bool_decide_eq_false].
  pose proof (size_token p E). go_on. destruct (object_get o key) as [v|] eqn:Ev; [|go_on]. case_match; [|go_on]. go_on.
  eapply good_bind; [apply (p_value _ IH); [done|lia]|]. intros w q Hq Hsq Hw. eapply good_weaken; [|apply (p_concat _ IH); [done| |lia]]; [lia|].
  apply settled_set; [done|]. pose proof (settled_get o key v Ho Ev) as Hv. destruct v as [l|o'|l|l]; cbn in *; rewrite ?Hv, ?Hw; try done.
  rewrite forallb_app, Hv. cbn. by rewrite Hw.
Qed.
Lemma array_step p : sound p -> 8 * size p + 1 <= S n -> good (size p - 1) (fun l => forallb settled l = true) (extractArray Letter Digit (at_fuel n) p).
Proof.
  intros Hp Hn. unfold extractArray. go_on. destruct (negb _) eqn:E; [go_on|]. apply negb_false_iff, bool_decide_eq_true in E.
  pose proof (size_token p) as H1. rewrite E in H1. specialize (H1 ltac:(done)). repeat go_on. case_match; [go_on|]. case_match; [repeat go_on|].
  eapply good_weaken; [|apply (p_array_loop _ IH); [done..|lia]]. lia.
Qed.
Lemma array_loop_step p l : sound p -> forallb settled l = true -> 8 * size p + 4 <= S n ->
  good (size p) (fun l => forallb settled l = true) (array_loop Letter Digit (at_fuel n) l p).
Proof.
  intros Hp Hl Hn. unfold array_loop. go_on. destruct (Z.eqb_spec (peek p) EOF) as [|He]; [go_on|]. pose proof (size_peek p He). go_on.
  eapply good_bind; [apply (p_value _ IH); [done|lia]|]. intros v q Hq Hsq Hv. cbv zeta. repeat go_on. destruct (_ && _); [go_on|].
  eapply (good_bind (size q) _ any); [case_match; [|go_on]; repeat go_on; case_match; go_on|]. intros _ r Hr Hsr _. go_on.
  pose proof (settled_app l v Hl Hv). case_match; [repeat go_on|]. eapply good_weaken; [|apply (p_array_loop _ IH); [done..|lia]]. lia.
Qed.
Lemma value_step p : sound p -> 8 * size p + 3 <= S n -> good (size p - 1) (fun v => settled v = true) (extractValue Letter Digit ParseFloat truncate (at_fuel n) p).
Proof.
  intros Hp0 Hn0. unfold extractValue. unfold mbind at 1, M_bind at 1. unfold skip_comment.
  assert (exists q, (if bool_decide (token p = "#") then consumeComment Letter Digit p else p) = q /\ sound q /\ size q <= size p) as (q & -> & Hq & Hs).
  { case_match; [|eauto]. destruct (comment_sound p Hp0). eexists. split; [done|]. split; [done|lia]. }
  cbn beta iota. rewrite bind_tok, bind_look, bind_get. cbv zeta.
  eapply good_weaken; [|instantiate (1 := size q - 1)]; [lia|]. assert (8 * size q + 3 <= S n) as Hn by lia. clear Hp0 Hn0 Hs p.
  destruct (_ =? TInt)%Z.
  { destruct (Value.ParseInt 64 (token q)); [|exact I]. eapply good_bind; [by apply good_with_unit|]. intros l r Hr Hsr Hl. go_on. }
  destruct (_ =? TFloat)%Z.
  { destruct (ParseFloat (token q)); [|exact I]. eapply good_bind; [by apply good_with_unit|]. intros l r Hr Hsr Hl. go_on. }
  destruct (_ =? TString)%Z.
  { destruct (isMultiLineString _ _) eqn:E; [|repeat go_on]. apply andb_true_iff in E as [_ E%Z.eqb_eq].
    eapply good_bind; [apply good_multi_line; [done|by rewrite E]|]. intros l r Hr Hsr Hl. go_on. }
  destruct (_ =? TIdent)%Z; [do 3 (case_match; [repeat go_on|]); exact I|].
  destruct (bool_decide (token q = "{")) eqn:E.
  { pose proof (p_object _ IH q None false Hq ltac:(lia)) as Ho. rewrite E in Ho. eapply good_bind; [exact Ho|].
    intros [o incl] r Hr Hsr Hso. go_on. }
  destruct (bool_decide (token q = "[")).
  { eapply good_bind; [apply (p_array _ IH); [done|lia]|]. intros l r Hr Hsr Hl. go_on. }
  rewrite no_substitution by done. exact I.
Qed.
Lemma entries_step p incl sub bal o row : sound p -> settled_object o -> 8 * size p + 1 <= S n ->
  good (size p) (fun r => settled_object r.1) (object_loop Letter Digit (at_fuel n) incl sub bal o row p).
Proof.
  intros Hp Ho Hn. unfold object_loop. go_on. destruct (Z.eqb_spec (peek p) EOF) as [|He]; [destruct bal; go_on|].
  pose proof (size_peek p He) as H2.
  eapply good_bind; [by apply good_skip_comment|]. intros _ q Hq Hsq _. go_on.
  eapply (good_bind (size p) _ (fun r : object * Hocon.includes => settled_object r.1)).
  { destruct (bool_decide _); [|go_on]. go_on. eapply good_bind; [apply (p_include _ IH); [done|lia]|]. intros [new incl'] r Hr Hsr Hnew. go_on.
    apply good_mret; [done|lia|]. by apply (settled_merge (Object new)). }
  intros [o1 incl1] r Hr Hsr Ho1. cbn in Ho1. go_on. cbv zeta. set (key := Trim (token r)). case_match; [go_on|]. case_match; [go_on|].
  repeat go_on.
  eapply (good_bind (size p - 1) _ (fun r : object * Hocon.includes * Z => settled_object r.1.1)).
  { destruct (_ || _); [|go_on]. eapply good_weaken; [|apply (p_sub _ IH); [done..|lia]]. lia. }
  intros [[o2 incl2] row2] q2 Hq2 Hsq2 Ho2. cbn in Ho2.
  eapply (good_bind (size p - 1)); [eapply good_weaken; [|apply (p_field _ IH); [done..|lia]]; lia|].
  intros [o3 row3] q3 Hq3 Hsq3 Ho3. cbn in Ho3. case_match; [go_on|].
  eapply (good_bind (size p - 1)); [eapply good_weaken; [|apply (p_concat _ IH); [done..|lia]]; lia|].
  intros o4 q4 Hq4 Hsq4 Ho4. repeat go_on. case_match; [go_on|].
  eapply (good_bind (size p - 1) _ any); [destruct (bool_decide (token q4 = ",")); [|go_on]; repeat go_on; case_match; go_on|]. intros _ q5 Hq5 Hsq5 _. go_on.
  case_match; [repeat go_on|]. eapply good_weaken; [|apply (p_loop _ IH); [done..|lia]]. lia.
Qed.
Lemma parses_S : parses (S n).
Proof.
  split; [apply object_step|apply entries_step|apply sub_step|apply field_step|apply plus_step|apply concat_step|apply include_step|apply array_step
    |apply array_loop_step|apply value_step].
Qed.
End step.
Lemma parses_all n : parses n.
Proof. induction n as [|n IH]; [apply parses_O|by apply parses_S]. Qed.

(** ** Files *)

Lemma sound_init src : free src = true -> sound (newParser src) /\ size (newParser src) <= 2 * String.length src + 3.
Proof.
  intros Hf. set (s0 := mkScanner src (-2) "" 1 0 0 "" "" 0 0).
  assert (calm s0 (Init src)) as Hc by (unfold Init; fold s0; apply calm_then; case_match; [apply calm_next|done]).
  split; [split; [by apply Hc|by apply (calm_ended _ _ Hc)]|].
  pose proof (size_left (newParser src)). pose proof (calm_left _ _ Hc) as Hl. change (left s0) with (String.length src + 1) in Hl.
  cbn [newParser scan] in *. lia.
Qed.
Context (LookupEnv : string -> option string) (order : list (string * Value) -> list (string * Value)).
Context (FormatFloat32 FormatFloat64 : spec_float -> string) (DurationString : Z -> string) (Format32 Format64 : spec_float -> string).
Notation Walk_all := (Walk_all FormatFloat32 FormatFloat64 DurationString).

Lemma walk_array l incl : Walk_all (new_config order (Array l) incl) = Some [].
Proof.
  unfold new_config. pose proof (load_holds (shuffle order (Array l)) []) as H. destruct (load _ _) as [r h]. destruct H as (_ & Hh & _).
  cbn [shuffle] in Hh. inversion Hh; subst. unfold HoconTree.Walk_all. cbn [root store]. by rewrite H0.
Qed.
(** Without substitutions nothing is resolved, and the walk comes to an end. *)
Lemma walk_object o incl : settled_object o -> (forall l, order l ≡ₚ l) ->
  exists c l, resolved LookupEnv (new_config order (Object o) incl) = Parsed c /\ Walk_all c = Some l.
Proof.
  intros Hs Ho. unfold new_config. pose proof (load_holds (shuffle order (Object o)) []) as H.
  pose proof (shuffle_settled order (Object o) Ho) as Hss. rewrite Hs in Hss.
  destruct (load _ _) as [r h]. destruct H as (_ & Hh & Hlen). pose proof Hh as Hh'. cbn [shuffle] in Hh'. inversion Hh' as [|i nd o' Hi| |]; subst.
  unfold resolved. cbn [root store]. rewrite (resolve_settled _ _ _ (shuffle order (Object o)) i h) by (done || rewrite Hlen; cbn; lia).
  eexists _, _. split; [done|]. unfold HoconTree.Walk_all. cbn [root store]. rewrite Hi. apply Walk_visits; [done|]. rewrite Hlen. cbn. lia.
Qed.

Lemma parse_ends content n : contains_char "$" content = false -> (forall l, order l ≡ₚ l) -> 16 * (String.length content + 2) <= n ->
  (exists c l, parse Letter Digit ParseFloat truncate Open LookupEnv order n (newParser content) = Parsed c /\
     HoconTree.Walk_all FormatFloat32 FormatFloat64 DurationString c = Some l) \/
  exists e, parse Letter Digit ParseFloat truncate Open LookupEnv order n (newParser content) = Failed e.
Proof.
  intros Hc Ho Hn. destruct (sound_init content) as [Hp Hs]; [unfold free; by rewrite Hc|].
  destruct (advance_sound _ Hp) as [Hp' Hs']. unfold parse. set (p := advance (newParser content)) in *.
  assert (8 * size p + 2 <= n) as Hf by lia. pose proof (parses_all n) as Hall.
  destruct (bool_decide (token p = "[")).
  - pose proof (p_array _ Hall p Hp' ltac:(lia)) as H. destruct (call_array _ p) as [l q|e| |]; [|by right; eexists|done..].
    left. eexists _, _. split; [done|apply walk_array].
  - pose proof (p_object _ Hall p (Some ∅) false Hp' Hf) as H. destruct (call_object _ _ _ p) as [[o incl] q|e| |]; [|by right; eexists|done..].
    destruct H as (_ & _ & Hset). destruct (bool_decide _); [|by right; eexists].
    destruct (walk_object o (elements (default ∅ incl)) Hset Ho) as (c & l & -> & Hl). left. by exists c, l.
Qed.

(** C7: every HOCON file is read or refused.  If the text has no dollar sign, and names no file
    that can be opened, the reader returns: with a configuration or with an error.  It does not
    hang, does not panic, and does not walk in a circle, whatever the text is and however maps
    are walked.  The parser makes a bounded effort: a call, or a further round of a loop, has one
    unit of fuel less than the one that makes it, and with any number of units from sixteen for
    each character and 32 more on the parser comes to its end.  (So its calls are not nested
    deeper than that; how much stack there is for them is not modelled.) *)
Theorem file_is_read content : contains_char "$" content = false -> (forall l, order l ≡ₚ l) ->
  (forall n, 16 * (String.length content + 2) <= n ->
     (exists c, parse Letter Digit ParseFloat truncate Open LookupEnv order n (newParser content) = Parsed c) \/
     exists e, parse Letter Digit ParseFloat truncate Open LookupEnv order n (newParser content) = Failed e) /\
  let r := Read Letter Digit ParseFloat truncate Open LookupEnv order FormatFloat32 FormatFloat64 DurationString Format32 Format64 content in
  (exists config announced, r = ReadOk config announced) \/ exists e, r = ReadErr e.
Proof.
  intros Hc Ho. split.
  - intros n Hn. destruct (parse_ends content n Hc Ho Hn) as [(c & _ & E & _)|[e E]]; eauto.
  - unfold Read, ParseString. destruct (parse_ends content (fuel_for content) Hc Ho ltac:(done)) as [(c & l & -> & ->)|[e ->]]; eauto.
Qed.

(** *** An unclosed substitution *)

Lemma loop_hangs n : forall p builder previous current, peek p = EOF -> current <> "#" ->
  substitution_loop Letter Digit n builder previous current p = PHangs.
Proof.
  induction n as [|n IHn]; intros p b prev cur Hp Hc; cbn [substitution_loop]; [done|].
  rewrite bool_decide_eq_false_2 by done. destruct (advance_end p Hp) as [Ht Hp'].
  unfold mbind, M_bind, step, tok. rewrite Ht. rewrite andb_false_r. by apply IHn.
Qed.
(** The fuel of the loop tells that the parser hangs: with any other it would not return either. *)
Lemma hangs_for_ever n : forall p builder previous current, left (scan p) < n ->
  substitution_loop Letter Digit n builder previous current p = PHangs -> forall m, substitution_loop Letter Digit m builder previous current p = PHangs.
Proof.
  induction n as [|n IHn]; intros p b prev cur Hl Hh m; [lia|]. destruct (decide (peek p = EOF)) as [He|He].
  - apply loop_hangs; [done|]. intros ->. done.
  - assert (left (scan (advance p)) < left (scan p)) as Hadv by (by apply advance_strict).
    destruct m as [|m]; [done|]. cbn [substitution_loop] in *. case_match; [done|]. unfold mbind, M_bind, step, tok in *.
    case_match; [done|]. case_match; [case_match; done|]. case_match; [done|]. apply (IHn (advance p)); [lia|done].
Qed.
End parser.

(** ** What the reader makes of some files *)

Definition example_read (Open : string -> string + file) (order : list (string * Value) -> list (string * Value)) (content : string) : read_result :=
  Read (fun _ => false) (fun _ => false) (fun _ => None) (fun _ => 0%Z) Open (fun _ => None) order (fun _ => "") (fun _ => "") (fun _ => "") (fun _ => "") (fun _ => "") content.
Definition no_files : string -> string + file := fun _ => inl "no such file".
Definition reads_as (content : string) (config : list (string * string)) : Prop :=
  example_read no_files (fun l => l) content = ReadOk (list_to_map config) [].
Definition refused (content what : string) : Prop :=
  match example_read no_files (fun l => l) content with ReadErr (ParseError t _ _ _ _) => t = what | _ => False end.
Definition nl : string := String "010" "".
Definition quoted (s : string) : string := String quote_char (s +:+ String quote_char "").

Example reads_nested : reads_as ("a.b = x" +:+ nl +:+ "a { c = true }" +:+ nl +:+ "t = 5 m" +:+ nl) [("a.b", "x"); ("a.c", "true"); ("t", "")].
Proof. unfold reads_as. vm_compute. reflexivity. Qed.
(** There are no negative numbers. *)
Example negative_number : refused "a = -1" "invalid value!".
Proof. by vm_compute. Qed.
(** Of a key with a dash only what follows the dash is left, on a line of its own; after a comma the
    file is refused. *)
Example dashed_key : reads_as "foo-bar = 1" [("bar", "1")] /\ refused "a = 0, foo-bar = 1" "missing comma!".
Proof. split; [unfold reads_as; vm_compute; reflexivity|by vm_compute]. Qed.
(** A comment may not follow a value on its line, and an address in a comment takes the next line
    with it. *)
Example comments : refused ("a = 1 # one" +:+ nl +:+ "b = 2" +:+ nl) "missing comma!" /\
  reads_as ("# see http://x" +:+ nl +:+ "a = 1" +:+ nl +:+ "b = 2" +:+ nl) [("b", "2")].
Proof. split; [by vm_compute|unfold reads_as; vm_compute; reflexivity]. Qed.
(** Values that are put together are not visited, and numbers in arrays have no text. *)
Example words_lost : reads_as "a = hello world, b = 1" [("b", "1")].
Proof. unfold reads_as. vm_compute. reflexivity. Qed.
Example numbers_lost : reads_as "l = [1, 2]" [("l", ",")].
Proof. unfold reads_as. vm_compute. reflexivity. Qed.
(** What a substitution finds may itself not be resolved yet: it depends on the order in which the
    map is walked whether the value is read, and a path through it may panic. *)
Example chain_by_order : let content := "x = ${y}, y = ${z}, z = 1" in
  example_read no_files (fun l => l) content = ReadOk (list_to_map [("y", "1"); ("z", "1")]) [] /\
  example_read no_files (@rev _) content = ReadOk (list_to_map [("x", "1"); ("y", "1"); ("z", "1")]) [].
Proof. split; vm_compute; reflexivity. Qed.
Example path_through_number : exists e, example_read no_files (fun l => l) "x = ${y.z}, y = 1" = ReadPanics e.
Proof. eexists. vm_compute. reflexivity. Qed.
(** An object may contain itself. *)
Example object_in_itself : example_read no_files (fun l => l) "a { b = ${a} }" = StackOverflow.
Proof. vm_compute. reflexivity. Qed.
(** A substitution that is not closed; [hangs_for_ever] is about the loop it is in. *)
Example unclosed_substitution : example_read no_files (fun l => l) ("a = ${b" +:+ nl) = ReadHangs.
Proof. vm_compute. reflexivity. Qed.
(** Of two includes that follow one another the second is skipped; with an entry between them, a
    file that is included twice is refused as if it included itself; and a file that is included
    in a value is not announced, so its changes are not watched. *)
Example included_twice : let files p := inr (mkFile (if bool_decide (p = "x") then "k = 1" else "l = 2") None) in
  let line f := "include " +:+ quoted f +:+ nl in
  example_read files (fun l => l) (line "x" +:+ line "y" +:+ "a = 1" +:+ nl) = ReadOk (list_to_map [("k", "1"); ("a", "1")]) ["x"] /\
  example_read files (fun l => l) (line "x" +:+ "a = 1" +:+ nl +:+ line "x" +:+ "b = 1" +:+ nl) = ReadErr (StdError "recursive include of resource" ["x"]).
Proof. split; vm_compute; reflexivity. Qed.
Example included_in_value : let files := fun _ => inr (mkFile "k = 1" None) in
  example_read files (fun l => l) ("v = { include " +:+ quoted "x" +:+ nl +:+ "a = 1 }" +:+ nl) = ReadOk (list_to_map [("v.k", "1"); ("v.a", "1")]) [].
Proof. vm_compute. reflexivity. Qed.

(** After an include something has to follow before the brace. *)
Example included_alone : let files := fun _ => inr (mkFile "k = 1" None) in
  match example_read files (fun l => l) ("foo { include " +:+ quoted "bar.json" +:+ " }") with ReadErr (ParseError t _ ops _ _) => t = "invalid key!" /\ ops = ["}"] | _ => False end.
Proof. by vm_compute. Qed.
(** A number is cut off before its unit is applied: half a second is none. *)
Example half_second : let half := S754_finite false 1 (-1) in
  let truncated f := match f with S754_finite s m e => (if s then -1 else 1) * (Z.pos m * 2 ^ Z.max 0 e / 2 ^ Z.max 0 (- e)) | _ => 0 end%Z in
  match extractValue (fun _ => false) (fun _ => false) (fun _ => Some half) truncated (parser_of (fun _ => false) (fun _ => false) (fun _ => Some half) truncated no_files 0)
          (advance (fun _ => false) (fun _ => false) (newParser "0.5 second")) with
  | POk v _ => v = leaf (Duration 0) | _ => False end.
Proof. by vm_compute. Qed.

Lemma file_is_read_witness : contains_char "$" "a = [1, -" = false /\
  ((exists config announced, example_read no_files (fun l => l) "a = [1, -" = ReadOk config announced) \/
   exists e, example_read no_files (fun l => l) "a = [1, -" = ReadErr e).
Proof.
  split; [reflexivity|].
  refine (proj2 (file_is_read (fun _ => false) (fun _ => false) (fun _ => None) (fun _ => 0%Z) no_files _ _ _ _ _ _ _ _ "a = [1, -" _ _)).
  - intros path. exists "no such file". reflexivity.
  - reflexivity.
  - reflexivity.
Defined.
End HoconEnd.
