(* ===== verification/HoconRead.v ===== *)
(** * Reading back what was written: HOCON files of plain values.

    [Object.String] prints an object; for objects whose keys and strings are words, and whose
    numbers are not negative, the parser reads the same object back, and the reader of the
    configuration gets the texts of its leaves under their paths.  The scanner is compared with a
    lexer for the characters such a text has. *)

From Stdlib Require Import Ascii SpecFloat.
From S2P Require Import Prelude GoInt GoStrings Value GoScanner Hocon HoconTree.

Open Scope string_scope.
Open Scope list_scope.

Module HoconRead.
Import GoScanner Hocon HoconTree.

(** ** Plain text *)

Definition digit (a : ascii) : bool := isDecimal (byte a).
Definition letter (a : ascii) : bool := between 65 90 (byte a) || between 97 122 (byte a) || (byte a =? 95)%Z.
Definition word_char (a : ascii) : bool := letter a || digit a.
Definition mark (a : ascii) : bool := contains_char a "{}[],:".
Definition plain_char (a : ascii) : bool := word_char a || mark a || bool_decide (a = " "%char).
Definition plain (t : string) : bool := Value.all_chars plain_char t.
Definition word (w : string) : bool := match w with String a w => letter a && Value.all_chars word_char w | "" => false end.
Definition numeral (w : string) : bool := match w with "" => false | w => Value.all_chars digit w end.

Fixpoint span (p : ascii -> bool) (t : string) : string * string :=
  match t with
  | String a t' => if p a then let '(w, r) := span p t' in (String a w, r) else ("", t)
  | "" => ("", "")
  end.
Definition stops (t : string) : bool := match t with String a _ => negb (word_char a) | "" => true end.

(** The next token of a plain text: its kind, its text and what follows. *)
Fixpoint lex (t : string) : Z * string * string :=
  match t with
  | "" => (EOF, "", "")
  | String a t' =>
      if bool_decide (a = " "%char) then lex t'
      else if letter a then let '(w, r) := span word_char t' in (TIdent, String a w, r)
      else if digit a then let '(w, r) := span digit t' in (TInt, String a w, r)
      else (byte a, String a "", t')
  end.
(** No letter follows a number. *)
Definition lexable (t : string) : bool := let '(k, _, r) := lex t in negb (k =? TInt)%Z || stops r.

(** ** The scanner on plain text *)

Section scanner.
Context (Letter Digit : Z -> bool).

Record at_text (s : scanner) (t : string) : Prop := {
  at_ch : ch s = match t with String a _ => byte a | "" => EOF end;
  at_last : lastChar s = match t with String a _ => String a "" | "" => "" end;
  at_rest : rest s = match t with String _ t => t | "" => "" end;
  at_line : line s = 1%Z;
  at_column : (0 < column s)%Z;
  at_plain : plain t = true
}.
Definition same_token (s s' : scanner) : Prop := TokenText s' = TokenText s /\ Line s' = Line s.

Ltac on_byte a := destruct a as [[] [] [] [] [] [] [] []]; try discriminate; try reflexivity; try (vm_compute; congruence).

Lemma byte_plain a : plain_char a = true -> (32 <= byte a < 128)%Z.
Proof. on_byte a; vm_compute; split; congruence. Qed.
Lemma letter_ident a : plain_char a = true -> isIdentRune Letter Digit (byte a) true = letter a.
Proof. on_byte a. Qed.
Lemma word_ident a : plain_char a = true -> isIdentRune Letter Digit (byte a) false = word_char a.
Proof. on_byte a. Qed.
Lemma decode_plain a t : plain_char a = true -> DecodeRune a t = (byte a, 1).
Proof. intros Ha%byte_plain. unfold DecodeRune. destruct (Z.ltb_spec (byte a) 128); [done|lia]. Qed.
Lemma plain_cons a t : plain (String a t) = plain_char a && plain t.
Proof. done. Qed.

Lemma at_next s a t : at_text s (String a t) ->
  at_text (next s) t /\ buf (next s) = buf s +:+ String a "" /\ same_token s (next s).
Proof.
  intros [Hch Hl Hr Hli Hc Hp]. rewrite plain_cons in Hp. apply andb_true_iff in Hp as [Ha Ht].
  unfold next. rewrite Hr. destruct t as [|b t]; cbn.
  - rewrite Hl, bool_decide_eq_false_2 by done. repeat split; cbn; try done. lia.
  - rewrite plain_cons in Ht. pose proof Ht as [Hb Ht']%andb_true_iff. rewrite decode_plain by done.
    pose proof (byte_plain b Hb) as Hbb. destruct (Z.eqb_spec (byte b) 10); [lia|]. rewrite Hl. repeat split; cbn; try done. lia.
Qed.

Lemma same_token_trans s s' s'' : same_token s s' -> same_token s' s'' -> same_token s s''.
Proof. unfold same_token. intros [-> ->] [-> ->]. done. Qed.

(** Skipping what a predicate on characters says. *)
Lemma at_skip_while (p : Z -> bool) (q : ascii -> bool) : (forall a, plain_char a = true -> p (byte a) = q a) -> forall t fuel s,
  (String.length t < fuel)%nat -> at_text s t -> let s' := skip_while fuel p s in
  at_text s' (span q t).2 /\ buf s' = buf s +:+ (span q t).1 /\ same_token s s'.
Proof.
  intros Hpq. induction t as [|a t IH]; intros [|fuel] s Hf Hs; cbn in Hf; try lia; cbn [skip_while].
  - rewrite (at_ch _ _ Hs). cbn. rewrite andb_false_r, string_app_nil_r. done.
  - pose proof (at_plain _ _ Hs) as Hp. rewrite plain_cons in Hp. apply andb_true_iff in Hp as [Ha _].
    rewrite (at_ch _ _ Hs), Hpq by done. cbn [span]. pose proof (byte_plain a Ha).
    assert (byte a =? EOF = false)%Z as -> by (unfold EOF; lia). destruct (q a); cbn.
    + destruct (at_next s a t Hs) as (Hn & Hb & Hst). destruct (IH fuel (next s)) as (H1 & H2 & H3); [lia|done|].
      destruct (span q t) as [w r]; cbn in *. rewrite H2, Hb, string_app_assoc. split_and!; [done..|]. by eapply same_token_trans.
    + rewrite string_app_nil_r. done.
Qed.
Lemma at_skip (p : Z -> bool) (q : ascii -> bool) s t : (forall a, plain_char a = true -> p (byte a) = q a) ->
  at_text s t -> let s' := skip p s in at_text s' (span q t).2 /\ buf s' = buf s +:+ (span q t).1 /\ same_token s s'.
Proof.
  intros Hpq Hs. apply at_skip_while; [done| |done]. rewrite (at_rest _ _ Hs). destruct t; cbn; lia.
Qed.

Lemma span_none q t : match t with String a _ => q a = false | "" => True end -> span q t = ("", t).
Proof. destruct t as [|a t]; [done|]. cbn. intros ->. done. Qed.
Lemma span_app q w t : Value.all_chars q w = true -> span q (w +:+ t) = (w +:+ (span q t).1, (span q t).2).
Proof.
  induction w as [|a w IH]; intros Hw.
  { change (span q t = ((span q t).1, (span q t).2)). apply surjective_pairing. }
  cbn in Hw. apply andb_true_iff in Hw as [Ha Hw].
  change (String a w +:+ t) with (String a (w +:+ t)). cbn [span]. rewrite Ha, (IH Hw). done.
Qed.

(** *** Tokens *)

Lemma at_start s t : at_text s t -> at_text (start_token s) t /\ buf (start_token s) = "" /\ Line (start_token s) = 1%Z.
Proof.
  intros [Hch Hl Hr Hli Hc Hp]. unfold start_token. destruct (Z.ltb_spec 0 (column s)); [|lia]. by repeat split.
Qed.
Lemma at_end k s r w : at_text s r -> buf s = w -> Line s = 1%Z -> exists s', end_token (k, s) = (k, s') /\ at_text s' r /\ TokenText s' = w /\ Line s' = 1%Z.
Proof. intros [Hch Hl Hr Hli Hc Hp] Hb HL. eexists. split; [done|]. by repeat split. Qed.

(** The character after the digits of a number neither continues nor changes it. *)
Lemma number_ends a : plain_char a = true -> word_char a = false ->
  lower (byte a) <> 101%Z /\ lower (byte a) <> 112%Z /\ lower (byte a) <> 120%Z /\ lower (byte a) <> 111%Z /\ lower (byte a) <> 98%Z.
Proof. on_byte a; intros _ _; repeat split; vm_compute; congruence. Qed.
Lemma number_goes_on a : digit a = true -> lower (byte a) <> 120%Z /\ lower (byte a) <> 111%Z /\ lower (byte a) <> 98%Z.
Proof. on_byte a; intros _; repeat split; vm_compute; congruence. Qed.
Lemma plain_no_dot a : plain_char a = true -> (byte a <> 46)%Z.
Proof. on_byte a. Qed.
Lemma digits_word a : plain_char a = true -> (isDecimal (byte a) || (byte a =? 95)%Z) = (digit a || bool_decide (a = "_"%char)).
Proof. on_byte a. Qed.

Lemma at_head s t : at_text s t -> match t with String a _ => plain_char a = true /\ ch s = byte a | "" => ch s = EOF end.
Proof.
  intros Hs. pose proof (at_plain _ _ Hs) as Hp. pose proof (at_ch _ _ Hs). destruct t as [|a t]; [done|].
  rewrite plain_cons in Hp. by apply andb_true_iff in Hp as [? _].
Qed.
Lemma exponent_none k s t : at_text s t -> stops t = true -> exponent (k, s) = (k, s).
Proof.
  intros Hs Ht. unfold exponent. pose proof (at_head s t Hs) as Hh. destruct t as [|a t]; [by rewrite Hh|].
  destruct Hh as [Ha ->]. apply negb_true_iff in Ht. destruct (number_ends a Ha Ht) as (H1 & H2 & _).
  apply Z.eqb_neq in H1, H2. by rewrite H1, H2.
Qed.
Lemma fraction_none hex s t : at_text s t -> fraction hex s = (TInt, s).
Proof.
  intros Hs. unfold fraction. pose proof (at_head s t Hs) as Hh. destruct t as [|a t]; [by rewrite Hh|].
  destruct Hh as [Ha%plain_no_dot ->]. apply Z.eqb_neq in Ha. by rewrite Ha.
Qed.
Lemma span_stops t : stops (span digit t).2 = true ->
  span (fun a => digit a || bool_decide (a = "_"%char)) t = span digit t.
Proof.
  induction t as [|a t IH]; [done|]. cbn [span]. destruct (digit a) eqn:Ha; cbn [orb].
  - destruct (span digit t) as [w r]; cbn. intros Hst. by rewrite IH.
  - cbn [snd]. intros Hst. rewrite bool_decide_eq_false_2; [done|]. intros ->. done.
Qed.
Lemma at_digits s t : at_text s t -> stops (span digit t).2 = true ->
  at_text (digits false s) (span digit t).2 /\ buf (digits false s) = buf s +:+ (span digit t).1 /\ same_token s (digits false s).
Proof.
  intros Hs Ht. rewrite <- (span_stops t Ht). apply at_skip; [|done]. intros a Ha. by apply digits_word.
Qed.
Lemma at_number s a t : at_text s (String a t) -> digit a = true -> stops (span digit t).2 = true ->
  exists s', scanNumber false s = (TInt, s') /\ at_text s' (span digit t).2 /\ buf s' = buf s +:+ String a (span digit t).1 /\ same_token s s'.
Proof.
  intros Hs Ha Hst. unfold scanNumber. destruct (at_head _ _ Hs) as [_ Hch].
  destruct (Z.eqb_spec (ch s) 48) as [H48|H48].
  - destruct (at_next s a t Hs) as (Hn & Hb & Hsame). set (s1 := next s) in *.
    assert (lower (ch s1) <> 120 /\ lower (ch s1) <> 111 /\ lower (ch s1) <> 98)%Z as (H1 & H2 & H3).
    { pose proof (at_head s1 t Hn) as Hh. destruct t as [|b t]; [rewrite Hh; vm_compute; repeat split; congruence|].
      destruct Hh as [Hb' ->]. cbn [span] in Hst. destruct (digit b) eqn:Hd; [by apply number_goes_on|].
      apply negb_true_iff in Hst. by destruct (number_ends b Hb' Hst) as (_ & _ & ?). }
    apply Z.eqb_neq in H1, H2, H3. rewrite H1, H2, H3. cbn [orb].
    destruct (at_digits s1 t Hn Hst) as (Hd1 & Hd2 & Hd3). rewrite (fraction_none _ _ _ Hd1), (exponent_none _ _ _ Hd1 Hst).
    eexists. split; [done|]. split; [done|]. split; [rewrite Hd2, Hb, string_app_assoc; done|]. by eapply same_token_trans.
  - assert (Hst' : stops (span digit (String a t)).2 = true) by (cbn [span]; rewrite Ha; by destruct (span digit t)).
    destruct (at_digits s (String a t) Hs Hst') as (Hd1 & Hd2 & Hd3).
    rewrite (fraction_none _ _ _ Hd1), (exponent_none _ _ _ Hd1 Hst').
    cbn [span] in Hd1, Hd2. rewrite Ha in Hd1, Hd2. destruct (span digit t) as [w r]; cbn in *. by eexists.
Qed.

(** The other characters of a plain text are tokens of their own. *)
Lemma mark_alone a : plain_char a = true -> letter a = false -> digit a = false ->
  isIdentRune Letter Digit (byte a) true = false /\ isDecimal (byte a) = false /\ (byte a =? EOF = false)%Z /\ (byte a =? 34 = false)%Z /\
  (byte a =? 39 = false)%Z /\ (byte a =? 46 = false)%Z /\ (byte a =? 47 = false)%Z /\ (byte a =? 96 = false)%Z.
Proof. on_byte a; intros _ _ _; repeat split. Qed.

(** Without leading blanks the scanner and the lexer agree. *)
Definition scanned (s : Z * scanner) (t : Z * string * string) : Prop :=
  let '(k, w, r) := t in s.1 = k /\ at_text s.2 r /\ TokenText s.2 = w /\ Line s.2 = 1%Z.
Lemma skip_white s t : at_text s t -> at_text (skip whitespace s) t.
Proof.
  intros Hs. pose proof (at_skip whitespace (fun _ => false) s t) as H. rewrite span_none in H by (by destruct t).
  apply H; [|done]. intros a Ha. on_byte a.
Qed.
Lemma scan_blank s t : at_text s (String " " t) -> scanned (Scan Letter Digit s) (32%Z, " ", t).
Proof.
  intros Hs%skip_white. unfold Scan. cbn [scan_from]. unfold token_at.
  destruct (at_start _ _ Hs) as (Hst & Hb & HL). set (s1 := start_token _) in *.
  rewrite (at_ch _ _ Hst). change (byte " ") with 32%Z. cbn -[end_token next]. destruct (at_next s1 _ _ Hst) as (Hn & Hbn & Hsame).
  destruct (at_end 32 (next s1) t " " Hn) as (s' & -> & ?); [by rewrite Hbn, Hb|destruct Hsame; congruence|]. by split.
Qed.
Lemma scan_lex s t : at_text s t -> lexable t = true -> match t with String a _ => a <> " "%char | "" => True end ->
  scanned (Scan Letter Digit s) (lex t).
Proof.
  intros Hs%skip_white Hl Hb. unfold Scan. cbn [scan_from]. unfold token_at.
  destruct (at_start _ _ Hs) as (Hst & Hbuf & HL). set (s1 := start_token _) in *.
  pose proof (at_head _ _ Hst) as Hh. unfold lexable in Hl. destruct t as [|a t].
  - rewrite Hh. cbn -[end_token]. destruct (at_end EOF s1 "" "" Hst Hbuf HL) as (s' & -> & ?). by split.
  - destruct Hh as [Ha Hch]. rewrite Hch, letter_ident by done. cbn [lex] in *. rewrite bool_decide_eq_false_2 in * by done.
    destruct (letter a) eqn:Hlet; [|destruct (digit a) eqn:Hdig].
    + unfold scanIdentifier. destruct (at_next s1 a t Hst) as (Hn & Hbn & Hsame).
      destruct (at_skip (fun c => isIdentRune Letter Digit c false) word_char _ _ (word_ident) Hn) as (H1 & H2 & H3).
      destruct (span word_char t) as [w r]; cbn [fst snd] in *.
      edestruct at_end as (s' & -> & ?); [exact H1|rewrite H2, Hbn, Hbuf; reflexivity|destruct Hsame, H3; congruence|]. by split.
    + change (isDecimal (byte a)) with (digit a). rewrite Hdig.
      destruct (at_number s1 a t Hst Hdig) as (s' & -> & H1 & H2 & H3); [by destruct (span digit t)|].
      destruct (span digit t) as [w r]; cbn [fst snd] in *.
      edestruct at_end as (s'' & -> & ?); [exact H1|rewrite H2, Hbuf; reflexivity|destruct H3; congruence|]. by split.
    + destruct (mark_alone a Ha Hlet Hdig) as (_ & -> & -> & -> & -> & -> & -> & ->).
      destruct (at_next s1 a t Hst) as (Hn & Hbn & Hsame).
      destruct (at_end (byte a) (next s1) t (String a "") Hn) as (s' & -> & ?); [by rewrite Hbn, Hbuf|destruct Hsame; congruence|]. by split.
Qed.

(** What a parser has before it: its token is the first of the text, its scanner behind it. *)
Definition seen (p : parser) (t : string) : Prop := scanned (currentRune p, scan p) (lex t).
Lemma lex_kind t : let '(k, _, _) := lex t in (k =? 9)%Z || (k =? 32)%Z = false \/ plain t = false.
Proof.
  induction t as [|a t IH]; [by left|]. cbn [lex]. case_bd (a = " "%char) as H.
  - destruct (lex t) as [[k w] r]. destruct IH as [?|Hp]; [by left|right]. rewrite plain_cons, Hp. apply andb_false_r.
  - destruct (letter a); [destruct (span word_char t); by left|]. destruct (digit a); [destruct (span digit t); by left|].
    destruct (plain_char a) eqn:Ha; [left|right; by rewrite plain_cons, Ha]. revert H Ha. on_byte a; done.
Qed.
Fixpoint leading (t : string) : nat :=
  match t with String a t => if bool_decide (a = " "%char) then S (leading t) else 0 | "" => 0 end.
Lemma leading_length t : (leading t <= String.length t)%nat.
Proof. induction t as [|a t IH]; cbn; [lia|]. case_match; lia. Qed.
Lemma blanks_seen t : forall fuel s builder, (leading t <= fuel)%nat -> at_text s t -> lexable t = true ->
  seen (blanks Letter Digit fuel (Scan Letter Digit s).2 (Scan Letter Digit s).1 builder) t.
Proof.
  induction t as [|a t IH]; intros fuel s builder Hf Hs Hl.
  - pose proof (scan_lex s "" Hs Hl I) as (H1 & H2 & H3 & H4). destruct (Scan Letter Digit s) as [k s']; cbn in *; subst k.
    unfold seen. destruct fuel; by split_and!.
  - destruct (decide (a = " "%char)) as [->|Hb].
    + destruct (scan_blank s t Hs) as (H1 & H2 & H3 & H4). destruct (Scan Letter Digit s) as [k s']; cbn [fst snd] in *; subst k.
      change (S (leading t) <= fuel)%nat in Hf. destruct fuel as [|fuel]; [lia|]. cbn [blanks Z.eqb Pos.eqb orb].
      pose proof (IH fuel s' (builder +:+ TokenString 32) ltac:(lia) H2 Hl) as Hi. destruct (Scan Letter Digit s'). exact Hi.
    + pose proof (scan_lex s _ Hs Hl Hb) as Hsc. pose proof (lex_kind (String a t)) as Hk. unfold seen.
      destruct (lex (String a t)) as [[k w] r] eqn:El. rewrite (at_plain _ _ Hs) in Hk. destruct Hk as [Hk|]; [|done].
      destruct Hsc as (H1 & H2 & H3 & H4). destruct (Scan Letter Digit s) as [k' s']; cbn [fst snd] in *; subst k'.
      destruct fuel; cbn [blanks]; [|rewrite Hk]; by split_and!.
Qed.
Lemma advance_seen p t : at_text (scan p) t -> lexable t = true -> seen (advance Letter Digit p) t.
Proof.
  intros Hs Hl. unfold advance.
  assert (leading t <= S (S (String.length (rest (Scan Letter Digit (scan p)).2))))%nat as Hf.
  { destruct t as [|a t]; cbn [leading]; [lia|]. case_bd (a = " "%char) as Hb; [subst a|lia].
    destruct (scan_blank _ _ Hs) as (_ & H2 & _). rewrite (at_rest _ _ H2). pose proof (leading_length t). destruct t; cbn in *; lia. }
  pose proof (blanks_seen t _ (scan p) "" Hf Hs Hl) as H. destruct (Scan Letter Digit (scan p)). exact H.
Qed.
End scanner.

(** ** Plain values *)

Definition plain_leaf (l : Leaf) : bool :=
  match l with
  | String_ s => word s && negb (isBooleanString s) && negb (bool_decide (s = "null"))
  | Int n => (0 <=? n)%Z && (n <? 2 ^ 63)%Z
  | Boolean _ | Null => true
  | Float32 _ | Float64 _ | Substitution _ _ | Duration _ => false
  end.
Fixpoint plain_value (v : Value) : bool :=
  match v with
  | leaf l => plain_leaf l
  | Object o => forallb (fun kv => word kv.1 && negb (bool_decide (kv.1 = "include")) && plain_value kv.2) o && bool_decide (NoDup o.*1)
  | Array l => forallb plain_value l
  | concatenation _ => false
  end.

Section reading.
Context (Letter Digit : Z -> bool) (ParseFloat : string -> option spec_float) (truncate : spec_float -> Z) (Open : string -> string + file).
Context (FormatFloat32 FormatFloat64 : spec_float -> string) (DurationString : Z -> string).

Notation text := (Value_String FormatFloat32 FormatFloat64 DurationString).
Notation leaf_text := (Leaf_String FormatFloat32 FormatFloat64 DurationString).
Notation advance := (advance Letter Digit).
Notation at_fuel n := (parser_of Letter Digit ParseFloat truncate Open n).
Notation extractValue n := (call_value (at_fuel n)).
Notation extractObject n := (call_object (at_fuel n)).
Notation object_loop n := (call_loop (at_fuel n)).
Notation field n := (call_field (at_fuel n)).
Notation concat_loop n := (call_concat (at_fuel n)).
Notation extractArray n := (call_array (at_fuel n)).
Notation array_loop n := (call_array_loop (at_fuel n)).
Definition fields (o : object) : string := Join ((fun kv => kv.1 +:+ ":" +:+ text kv.2) <$> o) ", ".

(** What may follow a value. *)
Definition closes (t : string) : Prop := plain t = true /\ match t with String a _ => a ∈ [","; "]"; "}"]%char | "" => True end.
Lemma closes_stops t : closes t -> stops t = true.
Proof. intros [_ H]. destruct t as [|a t]; [done|].
  rewrite !elem_of_cons in H. destruct H as [->|[->|[->|H]]]; [done..|]. by apply not_elem_of_nil in H. Qed.
Lemma closes_lexable t : closes t -> lexable t = true.
Proof. intros [_ H]. destruct t as [|a t]; [done|].
  rewrite !elem_of_cons in H. destruct H as [->|[->|[->|H]]]; [done..|]. by apply not_elem_of_nil in H. Qed.

(** *** Texts and their first tokens *)

Lemma all_chars_mono (q q' : ascii -> bool) t : (forall a, q a = true -> q' a = true) -> Value.all_chars q t = true -> Value.all_chars q' t = true.
Proof. intros Hq. induction t as [|a t IH]; cbn; [done|]. intros [Ha Ht]%andb_true_iff. by rewrite Hq, IH. Qed.
Lemma all_chars_app (q : ascii -> bool) t u : Value.all_chars q (t +:+ u) = Value.all_chars q t && Value.all_chars q u.
Proof. induction t as [|a t IH]; [done|]. change (String a t +:+ u) with (String a (t +:+ u)). cbn. by rewrite IH, andb_assoc. Qed.
Lemma plain_app t u : plain (t +:+ u) = plain t && plain u.
Proof. apply all_chars_app. Qed.
Lemma word_plain w : word w = true -> plain w = true.
Proof.
  destruct w as [|a w]; [done|]. cbn. intros [Ha Hw]%andb_true_iff. apply andb_true_iff. split.
  - unfold plain_char, word_char. by rewrite Ha.
  - revert Hw. apply all_chars_mono. intros b Hb. unfold plain_char. by rewrite Hb.
Qed.
Lemma span_stop (q : ascii -> bool) w t : Value.all_chars q w = true -> (forall a, q a = true -> word_char a = true) -> stops t = true ->
  span q (w +:+ t) = (w, t).
Proof.
  intros Hw Hq Ht. rewrite span_app by done. rewrite (span_none q t); [cbn; by rewrite string_app_nil_r|].
  destruct t as [|a t]; [done|]. destruct (q a) eqn:E; [|done]. cbn in Ht. by rewrite Hq in Ht.
Qed.
Lemma lex_word w t : word w = true -> stops t = true -> lex (w +:+ t) = (TIdent, w, t).
Proof.
  destruct w as [|a w]; [done|]. cbn [word]. intros [Ha Hw]%andb_true_iff Ht.
  change (String a w +:+ t) with (String a (w +:+ t)). cbn [lex]. rewrite bool_decide_eq_false_2 by (by intros ->). rewrite Ha.
  by rewrite span_stop.
Qed.
Lemma digit_letter a : digit a = true -> letter a = false /\ a <> " "%char.
Proof. destruct a as [[] [] [] [] [] [] [] []]; by vm_compute. Qed.
Lemma lex_numeral w t : numeral w = true -> stops t = true -> lex (w +:+ t) = (TInt, w, t).
Proof.
  destruct w as [|a w]; [done|]. cbn [numeral Value.all_chars]. intros [Ha Hw]%andb_true_iff Ht.
  change (String a w +:+ t) with (String a (w +:+ t)). cbn [lex]. destruct (digit_letter a Ha) as [-> Hb].
  rewrite bool_decide_eq_false_2, Ha by done. rewrite span_stop; [done..| |done]. intros b Hb'. unfold word_char. rewrite Hb'. apply orb_true_r.
Qed.
Lemma numeral_plain w : numeral w = true -> plain w = true.
Proof.
  destruct w as [|a w]; [done|]. unfold numeral, plain. apply all_chars_mono. intros b Hb. unfold plain_char, word_char.
  rewrite Hb, orb_true_r. done.
Qed.
Lemma digit_value_digit a d : Value.digit_value a = Some d -> digit a = true.
Proof. destruct a as [[] [] [] [] [] [] [] []]; by vm_compute. Qed.
Lemma FormatUint_numeral n : (0 <= n)%Z -> numeral (Value.FormatUint n) = true.
Proof.
  intros Hn. pose proof (Value.FormatUint_nonempty n Hn) as Hne. pose proof (Value.parse_FormatUint n Hn) as Hp.
  assert (Hc : forall s acc m, Value.parse_digits acc s = Some m -> Value.all_chars digit s = true).
  { induction s as [|a s IH]; intros acc m; cbn; [done|]. destruct (Value.digit_value a) as [d|] eqn:Ed; [|done]. cbn. intros Hm.
    rewrite (digit_value_digit _ _ Ed). by eapply IH. }
  destruct (Value.FormatUint n) eqn:E; [done|]. cbn [numeral]. by eapply Hc.
Qed.
Lemma Trim_word w : word w = true -> Trim w = w.
Proof.
  intros Hw. assert (H : forall s, Value.all_chars word_char s = true -> trim_right_quotes s = s).
  { induction s as [|a s IH]; [done|]. cbn. intros [Ha Hs]%andb_true_iff. rewrite IH by done. destruct s; [|done].
    rewrite decide_False; [done|]. by intros ->. }
  destruct w as [|a w]; [done|]. unfold word in Hw. apply andb_true_iff in Hw as [Ha Hw]. unfold Trim. cbn [trim_left_quotes].
  rewrite decide_False by (by intros ->). apply H. cbn. unfold word_char at 1. by rewrite Ha, Hw.
Qed.
Lemma leaf_lex l t : plain_leaf l = true -> closes t -> plain (leaf_text l) = true /\
  lex (leaf_text l +:+ t) = (match l with Int _ => TInt | _ => TIdent end, leaf_text l, t).
Proof.
  intros Hl Ht%closes_stops. destruct l as [s|n| | |b| | |]; try done; cbn [Leaf_String].
  - cbn in Hl. apply andb_true_iff in Hl as [[Hw _]%andb_true_iff _]. rewrite Trim_word by done.
    split; [by apply word_plain|by apply lex_word].
  - cbn in Hl. apply andb_true_iff in Hl as [Hn%Z.leb_le _]. unfold Value.FormatInt. destruct (Z.ltb_spec n 0); [lia|].
    pose proof (FormatUint_numeral n Hn). split; [by apply numeral_plain|by apply lex_numeral].
  - destruct b; (split; [done|by apply lex_word]).
  - split; [done|by apply (lex_word "null")].
Qed.

(** *** The parser on them *)

Lemma seen_advance p t k w r : seen p t -> lex t = (k, w, r) -> lexable r = true -> seen (advance p) r.
Proof. unfold seen at 1. intros Hs E Hl. rewrite E in Hs. destruct Hs as (_ & Hs & _). by apply advance_seen. Qed.
Lemma seen_token p t k w r : seen p t -> lex t = (k, w, r) ->
  token p = w /\ currentRune p = k /\ Line (scan p) = 1%Z /\ peek p = match r with String a _ => byte a | "" => EOF end.
Proof. unfold seen. intros Hs E. rewrite E in Hs. destruct Hs as (H1 & H2 & H3 & H4). split_and!; [done..|]. apply (at_ch _ _ H2). Qed.

(** What a value may be followed by is no unit. *)
Lemma closes_token p t : seen p t -> closes t ->
  (token p = "" /\ t = "" \/ exists a t', t = String a t' /\ token p = String a "" /\ a ∈ [","; "]"; "}"]%char /\ currentRune p = byte a /\ lex t = (byte a, String a "", t')) .
Proof.
  intros Hs [Hp Hc]. destruct t as [|a t]; [left|right].
  - by destruct (seen_token _ _ _ _ _ Hs eq_refl) as [-> _].
  - assert (lex (String a t) = (byte a, String a "", t)) as E.
    { rewrite !elem_of_cons in Hc. destruct Hc as [->|[->|[->|H]]]; [done..|]. by apply not_elem_of_nil in H. }
    destruct (seen_token _ _ _ _ _ Hs E) as (-> & -> & _). eauto 8.
Qed.
Ltac run := unfold mbind, M_bind, mret, M_ret, tok, look, step, skip_comment; cbn beta iota zeta.
Lemma unit_none p t : lexable t = true -> closes t -> forall k w r, seen p r -> lex r = (k, w, t) ->
  exists p', extractDurationUnit Letter Digit p = POk 0%Z p' /\ seen p' t.
Proof.
  intros Hl Hc k w r Hs E. pose proof (seen_advance _ _ _ _ _ Hs E Hl) as Hs'. exists (advance p). split; [|done].
  unfold extractDurationUnit. destruct (closes_token _ _ Hs' Hc) as [[-> _]|(a & t' & _ & -> & Ha & _)].
  - by case_match.
  - rewrite !elem_of_cons in Ha. destruct Ha as [->|[->|[->|H]]]; [by case_match..|]. by apply not_elem_of_nil in H.
Qed.
Lemma word_unquoted w : word w = true -> isUnquotedString w = true.
Proof.
  intros Hw. assert (Value.all_chars word_char w = true) as H.
  { destruct w as [|a w]; [done|]. cbn in Hw |- *. unfold word_char at 1. apply andb_true_iff in Hw as [-> ->]. done. }
  clear Hw. induction w as [|a w IH]; [done|]. cbn [Value.all_chars isUnquotedString] in *. apply andb_true_iff in H as [Ha Hw].
  rewrite IH by done. rewrite andb_true_r. revert Ha. clear. destruct a as [[] [] [] [] [] [] [] []]; by vm_compute.
Qed.
Lemma word_keyword w k : word w = true -> word k = false -> bool_decide (w = k) = false.
Proof. intros Hw Hk. apply bool_decide_eq_false_2. intros ->. congruence. Qed.
Lemma numeral_keyword w k : numeral w = true -> numeral k = false -> bool_decide (w = k) = false.
Proof. intros Hw Hk. apply bool_decide_eq_false_2. intros ->. congruence. Qed.
Lemma read_leaf l t n p : plain_leaf l = true -> closes t -> seen p (leaf_text l +:+ t) ->
  exists p', extractValue (S n) p = POk (leaf l) p' /\ seen p' t.
Proof.
  intros Hl Hc Hs. pose proof (closes_lexable _ Hc) as Hlx. destruct (leaf_lex l t Hl Hc) as [_ E].
  destruct (seen_token _ _ _ _ _ Hs E) as (Ht & Hr & _ & _). pose proof (seen_advance _ _ _ _ _ Hs E Hlx) as Ha.
  enter Hocon.extractValue. run. rewrite Ht. destruct l as [s|z| | |b| | |]; try done; cbn [Leaf_String] in *.
  - cbn in Hl. apply andb_true_iff in Hl as [[Hw Hb%negb_true_iff]%andb_true_iff Hn%negb_true_iff]. rewrite Trim_word in * by done.
    rewrite (word_keyword s "#"), Hr, Ht by done. cbn [Z.eqb TIdent TInt TFloat TString Pos.eqb]. rewrite Hn, Hb, word_unquoted by done. eauto.
  - cbn in Hl. apply andb_true_iff in Hl as [Hz%Z.leb_le Hz'%Z.ltb_lt].
    assert (numeral (Value.FormatInt z) = true) as Hnum.
    { unfold Value.FormatInt. destruct (Z.ltb_spec z 0); [lia|]. by apply FormatUint_numeral. }
    rewrite (numeral_keyword _ "#"), Hr, Ht by done. cbn [Z.eqb TIdent TInt TFloat TString Pos.eqb].
    rewrite Value.ParseInt_FormatInt by (unfold inS; lia). unfold with_unit. run.
    destruct (unit_none p t Hlx Hc _ _ _ Hs E) as (p' & -> & Hp'). cbn. eauto.
  - rewrite (word_keyword _ "#"), Hr, Ht by (by destruct b). destruct b; cbn; eauto.
  - rewrite (word_keyword _ "#"), Hr, Ht by done. cbn. eauto.
Qed.

Lemma object_set_new o k v : object_get o k = None -> object_set o k v = o ++ [(k, v)].
Proof.
  unfold object_get. induction o as [|[k' v'] o IH]; [done|]. cbn. case_decide as Hk; [done|]. cbn in Hk.
  rewrite bool_decide_eq_false_2 by done. destruct (list_find _ o) as [[j kv]|]; [done|]. intros _. by rewrite IH.
Qed.
Lemma array_text l : text (Array l) = "[" +:+ Join (text <$> l) "," +:+ "]".
Proof. by destruct l. Qed.
Lemma object_text o : text (Object o) = "{" +:+ fields o +:+ "}".
Proof. done. Qed.
Lemma plain_Join l sep : plain sep = true -> Forall (fun s => plain s = true) l -> plain (Join l sep) = true.
Proof.
  intros Hsep. induction 1 as [|s [|s' l] Hs Hl IH]; [done|done|].
  change (plain (s +:+ sep +:+ Join (s' :: l) sep) = true). by rewrite !plain_app, Hs, Hsep, IH.
Qed.
Lemma plain_object o : plain_value (Object o) = true ->
  NoDup o.*1 /\ Forall (fun kv => word kv.1 = true /\ kv.1 <> "include" /\ plain_value kv.2 = true) o.
Proof.
  cbn [plain_value]. intros [Ho Hd%bool_decide_eq_true]%andb_true_iff. split; [done|].
  apply Is_true_eq_left, forallb_True in Ho. eapply Forall_impl; [exact Ho|]. intros [k v] H%Is_true_eq_true. cbn in *.
  apply andb_true_iff in H as [[Hk Hi%negb_true_iff%bool_decide_eq_false]%andb_true_iff Hv]. done.
Qed.
Lemma plain_array l : plain_value (Array l) = true -> Forall (fun v => plain_value v = true) l.
Proof. cbn [plain_value]. intros Ha%Is_true_eq_left%forallb_True. eapply Forall_impl; [exact Ha|]. by intros v ?%Is_true_eq_true. Qed.
Lemma text_plain v : plain_value v = true -> plain (text v) = true.
Proof.
  induction v as [l|o IH|l IH|l IH] using Value_induction; intros Hv; [..|done].
  - by apply (leaf_lex l "").
  - apply plain_object in Hv as [_ Hv]. rewrite object_text, !plain_app. unfold fields. rewrite plain_Join; [done..|].
    rewrite Forall_fmap. rewrite Forall_forall in *. intros kv Hkv. destruct (Hv kv Hkv) as (Hk & _ & Hp). cbn.
    by rewrite !plain_app, (word_plain _ Hk), (IH kv Hkv Hp).
  - apply plain_array in Hv. rewrite array_text, !plain_app, plain_Join; [done..|].
    rewrite Forall_fmap. rewrite Forall_forall in *. intros v Hin. by apply IH, Hv.
Qed.
(** The first token of a value: more follows it, and it is no number that a letter follows. *)
Lemma text_first v t : plain_value v = true -> closes t -> t <> "" -> exists k w b r,
  lex (text v +:+ t) = (k, w, String b r) /\ lexable (text v +:+ t) = true /\ w <> "]" /\ w <> "," /\ w <> "#" /\ w <> "}".
Proof.
  intros Hv Hc Ht. unfold lexable. destruct v as [l|o|l|l]; [|..|done].
  - change (text (leaf l)) with (leaf_text l). destruct (leaf_lex l t Hv Hc) as [Hp ->]. destruct t as [|b t]; [done|]. rewrite (closes_stops _ Hc), orb_true_r.
    do 4 eexists. split; [done|]. split; [done|]. clear Ht Hc.
    assert (word (leaf_text l) = true \/ numeral (leaf_text l) = true) as [Hw|Hw].
    { destruct l as [s|n| | |x| | |]; try done; cbn [Leaf_String].
      - left. cbn in Hv. apply andb_true_iff in Hv as [[Hw _]%andb_true_iff _]. by rewrite Trim_word.
      - right. cbn in Hv. apply andb_true_iff in Hv as [Hn%Z.leb_le _]. unfold Value.FormatInt.
        destruct (Z.ltb_spec n 0); [lia|]. by apply FormatUint_numeral.
      - left. by destruct x.
      - by left. }
    all: split_and!; intros E; rewrite E in Hw; done.
  - rewrite object_text. destruct (fields o +:+ "}" +:+ t) as [|b r] eqn:E.
    { apply (f_equal String.length) in E. rewrite !length_string_app in E. cbn in E. lia. }
    exists 123%Z, "{", b, r. rewrite !string_app_assoc, E. by split_and!.
  - rewrite array_text. destruct (Join (text <$> l) "," +:+ "]" +:+ t) as [|b r] eqn:E.
    { apply (f_equal String.length) in E. rewrite !length_string_app in E. cbn in E. lia. }
    exists 91%Z, "[", b, r. rewrite !string_app_assoc, E. by split_and!.
Qed.

Definition reads (v : Value) : Prop := forall t n p,
  closes t -> t <> "" -> seen p (text v +:+ t) -> (4 * String.length (text v) + 4 <= n)%nat -> exists p', extractValue n p = POk v p' /\ seen p' t.

Lemma word_not_forbidden w : word w = true -> forbiddenCharacters w = false /\ w <> "." /\ w <> "#" /\ w <> "," /\ w <> "}" /\ w <> "{".
Proof.
  intros Hw. split; [|by split_and!; intros ->]. pose proof (word_unquoted w Hw) as Hu. destruct w as [|a [|b w]]; [done| |done].
  cbn [isUnquotedString] in Hu. rewrite andb_true_r in Hu. by apply negb_true_iff in Hu.
Qed.
(** A comma or a brace after a value is no value that follows on the line. *)
Lemma no_concatenation n o k row p a : token p = String a "" -> a ∈ [","; "}"]%char -> currentRune p = byte a ->
  concat_loop (S n) o k row p = POk o p.
Proof.
  intros Ht Ha Hr. assert (isTokenConcatenable p = false) as Hno.
  { unfold isTokenConcatenable, isSubstitution, isMultiLineString. rewrite Ht, Hr. rewrite !elem_of_cons in Ha.
    destruct Ha as [->|[->|H]]; [done..|]. by apply not_elem_of_nil in H. }
  enter Hocon.concat_loop. run. rewrite Ht. case_match; [done|]. rewrite Hno. destruct (object_get o k); [|done]. by rewrite andb_false_r.
Qed.
(** One entry of an object, up to what follows its value. *)
Lemma entry_reads k v rest n incl o lastRow p a rest' :
  word k = true -> k <> "include" -> object_get o k = None -> reads v -> plain_value v = true ->
  closes rest -> rest = String a rest' -> a ∈ [","; "}"]%char ->
  seen p (k +:+ ":" +:+ text v +:+ rest) -> (4 * String.length (text v) + 6 <= n)%nat -> exists p', seen p' rest /\
  object_loop (S n) incl false false o lastRow p =
    mbind (fun _ => t ← tok; if bool_decide (t = "}") then _ ← step Letter Digit; mret (o ++ [(k, v)], incl)
                             else object_loop n incl false false (o ++ [(k, v)]) 1)
      (if bool_decide (a = ","%char) then _ ← step Letter Digit; t ← tok; if bool_decide (t = ",") then adjacentCommasError else mret () else mret ()) p'.
Proof.
  intros Hk Hi Ho Hv Hp Hc Hr Ha Hs Hn.
  destruct (word_not_forbidden k Hk) as (Hf & Hdot & Hhash & _ & _ & _).
  assert (Hne : rest <> "") by (by rewrite Hr).
  destruct (text_first v rest Hp Hc Hne) as (kd & w & b & r & Ev & Hlv & _).
  pose proof (lex_word k (":" +:+ text v +:+ rest) Hk eq_refl) as E.
  destruct (seen_token _ _ _ _ _ Hs E) as (Ht & _ & _ & Hpk).
  pose proof (seen_advance _ _ _ _ _ Hs E eq_refl) as Hs1. set (p1 := advance p) in *.
  destruct (seen_token _ _ _ _ _ Hs1 eq_refl) as (Ht1 & _ & _ & _).
  pose proof (seen_advance _ _ _ _ _ Hs1 eq_refl Hlv) as Hs2. set (p2 := advance p1) in *.
  destruct (seen_token _ _ _ _ _ Hs2 Ev) as (_ & _ & HL2 & _).
  assert (exists p3, seen p3 rest /\ field n o k ":" lastRow p1 = POk (o ++ [(k, v)], 1%Z) p3) as (p3 & Hs3 & Hfield).
  { destruct n as [|n]; [lia|]. destruct (Hv rest n p2 Hc Hne Hs2 ltac:(lia)) as (p3 & E3 & Hs3). exists p3. split; [done|].
    enter Hocon.field. run. change (bool_decide (":" = "=") || bool_decide (":" = ":")) with true. cbn beta iota zeta. fold p2. rewrite HL2, E3, Ho, object_set_new by (by destruct v). by destruct v. }
  exists p3. split; [done|].
  destruct (closes_token _ _ Hs3 Hc) as [[_ ?]|(a3 & t3 & E4 & Ht3 & _ & Hr3 & E5)]; [done|]. rewrite Hr in E4. injection E4 as <- <-.
  destruct (seen_token _ _ _ _ _ Hs3 E5) as (_ & _ & HL3 & _).
  assert (concat_loop n (o ++ [(k, v)]) k 1 p3 = POk (o ++ [(k, v)]) p3) as Hcat.
  { destruct n as [|n]; [lia|]. by eapply no_concatenation. }
  assert (bool_decide (k = "include") = false) as Hinc by (by apply bool_decide_eq_false_2).
  assert (bool_decide (k = ".") = false) as Hdot' by (by apply bool_decide_eq_false_2).
  enter Hocon.object_loop. run. change (peek p = 58%Z) in Hpk. rewrite Hpk. change (58 =? EOF)%Z with false. cbn beta iota zeta.
  rewrite Ht, (word_keyword k "#") by done. cbn beta iota zeta. rewrite Ht, Hinc. cbn beta iota zeta. rewrite Ht, Trim_word, Hf, Hdot' by done.
  cbn beta iota zeta. fold p1. rewrite Ht1. change (bool_decide (":" = ".") || bool_decide (":" = "{")) with false. cbn beta iota zeta. rewrite Hfield. change (false && false) with false.
  cbn beta iota zeta. rewrite Hcat. cbn beta iota zeta. rewrite HL3, Ht3. clear Hcat Hfield Ht3 Hr3 E5.
  rewrite !elem_of_cons in Ha. destruct Ha as [->|[->|Ha]]; [..|by apply not_elem_of_nil in Ha]; reflexivity.
Qed.

Lemma object_get_none o k : k ∉ o.*1 -> object_get o k = None.
Proof.
  unfold object_get. intros Hk. destruct (list_find _ o) as [[j kv]|] eqn:E; [|done].
  apply list_find_Some in E as (Hj & Hkv & _). destruct Hk. apply list_elem_of_fmap. exists kv. split; [done|]. by eapply list_elem_of_lookup_2.
Qed.
Definition readable (kv : string * Value) : Prop := word kv.1 = true /\ kv.1 <> "include" /\ plain_value kv.2 = true /\ reads kv.2.
Lemma fields_cons k v kv es : fields ((k, v) :: kv :: es) = k +:+ ":" +:+ text v +:+ ", " +:+ fields (kv :: es).
Proof. unfold fields. change (Join _ ", ") with ((k +:+ ":" +:+ text v) +:+ ", " +:+ fields (kv :: es)) at 1. by rewrite !string_app_assoc. Qed.
Lemma fields_plain es : Forall readable es -> plain (fields es) = true.
Proof.
  intros Hes. unfold fields. apply plain_Join; [done|]. rewrite Forall_fmap. eapply Forall_impl; [exact Hes|].
  intros kv (Hk & _ & Hp & _). cbn. by rewrite !plain_app, (word_plain _ Hk), (text_plain _ Hp).
Qed.
(** What follows a comma: a key, which is no mark. *)
Lemma key_first kv es t : readable kv -> exists r, lex (fields (kv :: es) +:+ t) = (TIdent, kv.1, r) /\ lexable (fields (kv :: es) +:+ t) = true.
Proof.
  intros (Hk & _). destruct kv as [k v]; cbn [fst] in *. unfold lexable.
  destruct es as [|kv' es]; [change (fields [(k, v)]) with (k +:+ ":" +:+ text v)|rewrite fields_cons]; rewrite !string_app_assoc, lex_word by done; eauto.
Qed.
Lemma object_loop_reads kv es : forall n incl o lastRow p t, Forall readable (kv :: es) -> NoDup (o.*1 ++ (kv :: es).*1) ->
  plain t = true -> lexable t = true -> seen p (fields (kv :: es) +:+ "}" +:+ t) -> (4 * String.length (fields (kv :: es)) + 8 <= n)%nat ->
  exists p', object_loop n incl false false o lastRow p = POk (o ++ kv :: es, incl) p' /\ seen p' t.
Proof.
  revert kv. induction es as [|kv' es IH]; intros [k v] n incl o lastRow p t Hes Hd Ht Hlt Hs Hn.
  all: pose proof Hes as [(Hk & Hi & Hp & Hv) Hes']%Forall_cons; cbn [fst snd] in *.
  all: assert (object_get o k = None) as Ho by (apply object_get_none; apply NoDup_app in Hd as (_ & Hd & _); intros Hin; by apply (Hd k Hin); left).
  all: destruct n as [|n]; [lia|].
  - change (fields [(k, v)]) with (k +:+ ":" +:+ text v) in *. rewrite !string_app_assoc in Hs.
    rewrite !length_string_app in Hn. cbn [String.length] in Hn.
    edestruct (entry_reads k v ("}" +:+ t) n incl o lastRow p "}" t) as (p' & Hs' & ->); try done; [|set_solver|lia|].
    { split; [by rewrite plain_app, Ht|]. set_solver. }
    destruct (seen_token _ _ _ _ _ Hs' eq_refl) as (Ht' & _). exists (advance p'). split; [|by eapply seen_advance].
    run. change (bool_decide ("}"%char = ","%char)) with false. cbn beta iota. by rewrite Ht'.
  - rewrite fields_cons in Hs, Hn. rewrite !string_app_assoc in Hs. rewrite !length_string_app in Hn. cbn [String.length] in Hn.
    set (X := fields (kv' :: es) +:+ "}" +:+ t) in *. apply Forall_cons in Hes' as Hkv'. destruct Hkv' as [Hkv' _].
    destruct (key_first kv' es ("}" +:+ t) Hkv') as (r & Er & Hlr). fold X in Er, Hlr.
    assert (plain X = true) as HX by (unfold X; by rewrite !plain_app, (fields_plain _ Hes'), Ht).
    edestruct (entry_reads k v (", " +:+ X) n incl o lastRow p "," (" " +:+ X)) as (p' & Hs' & ->); try done; [|set_solver|lia|].
    { split; [by rewrite plain_app, HX|]. set_solver. }
    pose proof (seen_advance _ _ _ _ _ Hs' eq_refl Hlr) as Hs''. change (seen (advance p') X) in Hs''.
    destruct (seen_token _ _ _ _ _ Hs'' Er) as (Ht'' & _). destruct Hkv' as (Hk' & _). destruct (word_not_forbidden _ Hk') as (_ & _ & _ & Hc & Hb & _).
    destruct (IH kv' n incl (o ++ [(k, v)]) 1%Z (advance p') t) as (q & Hq & Hsq); [done|..|done|done|done|lia|].
    { rewrite fmap_app, <- app_assoc. done. }
    exists q. split; [|done]. rewrite <- app_assoc in Hq. cbn [app] in Hq. rewrite <- Hq. run.
    change (bool_decide (","%char = ","%char)) with true. cbn beta iota. rewrite Ht''. rewrite bool_decide_eq_false_2 by done. cbn beta iota.
    rewrite Ht''. by rewrite bool_decide_eq_false_2.
Qed.

Lemma byte_not_EOF b : (byte b =? EOF)%Z = false.
Proof. apply Z.eqb_neq. unfold byte, EOF. pose proof (N2Z.is_nonneg (N_of_ascii b)). lia. Qed.
Lemma element_reads v rest n acc p a rest' : plain_value v = true -> reads v -> closes rest -> rest = String a rest' -> a ∈ [","; "]"]%char ->
  seen p (text v +:+ rest) -> (4 * String.length (text v) + 4 <= n)%nat -> exists p', seen p' rest /\
  array_loop (S n) acc p =
    mbind (fun _ => t ← tok; if bool_decide (t = "]") then _ ← step Letter Digit; mret (acc ++ [v]) else array_loop n (acc ++ [v]))
      (if bool_decide (a = ","%char) then _ ← step Letter Digit; t ← tok; if bool_decide (t = ",") then adjacentCommasError else mret () else mret ()) p'.
Proof.
  intros Hp Hv Hc Hr Ha Hs Hn. assert (Hne : rest <> "") by (by rewrite Hr).
  destruct (text_first v rest Hp Hc Hne) as (k & w & b & r & E & _).
  destruct (seen_token _ _ _ _ _ Hs E) as (_ & _ & HL & Hpk).
  destruct (Hv rest n p Hc Hne Hs Hn) as (p' & E' & Hs'). exists p'. split; [done|].
  destruct (closes_token _ _ Hs' Hc) as [[_ ?]|(a' & t' & E4 & Ht' & _ & _ & E5)]; [done|]. rewrite Hr in E4. injection E4 as <- <-.
  destruct (seen_token _ _ _ _ _ Hs' E5) as (_ & _ & HL' & _).
  enter Hocon.array_loop. run. rewrite Hpk, byte_not_EOF, HL. cbn beta iota. rewrite E'. cbn beta iota zeta. rewrite HL', Ht'.
  clear Hs' Ht' E5. rewrite !elem_of_cons in Ha. destruct Ha as [->|[->|Ha]]; [..|by apply not_elem_of_nil in Ha]; reflexivity.
Qed.
Notation elements l := (Join (text <$> l) ",").
Lemma elements_cons v u l : elements (v :: u :: l) = text v +:+ "," +:+ elements (u :: l).
Proof. done. Qed.
(** The text from an element on, and its first token. *)
Lemma elements_first v l t : Forall (fun v => plain_value v = true) (v :: l) -> plain t = true -> let X := elements (v :: l) +:+ "]" +:+ t in
  plain X = true /\ exists k w r, lex X = (k, w, r) /\ lexable X = true /\ bool_decide (w = "]") = false /\ bool_decide (w = ",") = false.
Proof.
  intros Hl Ht X.
  assert (plain X = true) as HX.
  { unfold X. rewrite !plain_app, Ht, plain_Join; [done..|]. rewrite Forall_fmap. eapply Forall_impl; [exact Hl|]. apply text_plain. }
  split; [done|]. apply Forall_cons in Hl as [Hp _].
  assert (exists a rest, X = text v +:+ String a rest /\ a ∈ [","; "]"; "}"]%char) as (a & rest & EX & Ha).
  { destruct l as [|u l]; [by exists "]"%char, t; (split; [|set_solver])|].
    exists ","%char, (elements (u :: l) +:+ "]" +:+ t). split; [|set_solver]. unfold X. by rewrite elements_cons, !string_app_assoc. }
  assert (closes (String a rest)) as Hcr.
  { split; [|done]. rewrite EX, plain_app in HX. by apply andb_true_iff in HX as [_ ?]. }
  destruct (text_first v (String a rest) Hp Hcr ltac:(done)) as (k & w & b & r & E & Hlx & Hw1 & Hw2 & _). rewrite <- EX in E, Hlx.
  exists k, w, (String b r). split_and!; [done..| |]; by apply bool_decide_eq_false_2.
Qed.
Lemma array_loop_reads v l : forall n acc p t, Forall (fun v => plain_value v = true /\ reads v) (v :: l) ->
  plain t = true -> lexable t = true -> seen p (Join (text <$> v :: l) "," +:+ "]" +:+ t) -> (4 * String.length (Join (text <$> v :: l) ",") + 8 <= n)%nat ->
  exists p', array_loop n acc p = POk (acc ++ v :: l) p' /\ seen p' t.
Proof.
  revert v. induction l as [|v' l IH]; intros v n acc p t Hl Ht Hlt Hs Hn.
  all: pose proof Hl as [(Hp & Hv) Hl']%Forall_cons.
  all: destruct n as [|n]; [lia|].
  - change (Join (text <$> [v]) ",") with (text v) in *.
    edestruct (element_reads v ("]" +:+ t) n acc p "]" t) as (p' & Hs' & ->); try done; [|set_solver|lia|].
    { split; [by rewrite plain_app, Ht|]. set_solver. }
    destruct (seen_token _ _ _ _ _ Hs' eq_refl) as (Ht' & _). exists (advance p'). split; [|by eapply seen_advance].
    run. change (bool_decide ("]"%char = ","%char)) with false. cbn beta iota. by rewrite Ht'.
  - change (Join (text <$> v :: v' :: l) ",") with (text v +:+ "," +:+ Join (text <$> v' :: l) ",") in *.
    rewrite !string_app_assoc in Hs. rewrite !length_string_app in Hn. cbn [String.length] in Hn.
    set (X := elements (v' :: l) +:+ "]" +:+ t) in *.
    destruct (elements_first v' l t) as (HX & k & w & r & E & Hlx & Hw1 & Hw2); [by eapply Forall_impl; [exact Hl'|]; intros u [? _]|done|].
    fold X in HX, E, Hlx.
    edestruct (element_reads v ("," +:+ X) n acc p "," X) as (p' & Hs' & ->); try done; [|set_solver|lia|].
    { split; [by rewrite plain_app, HX|]. set_solver. }
    pose proof (seen_advance _ _ _ _ _ Hs' eq_refl Hlx) as Hs''.
    destruct (seen_token _ _ _ _ _ Hs'' E) as (Ht'' & _).
    destruct (IH v' n (acc ++ [v]) (advance p') t) as (q & Hq & Hsq); [done..|lia|].
    exists q. split; [|done]. rewrite <- app_assoc in Hq. cbn [app] in Hq. rewrite <- Hq. run.
    change (bool_decide (","%char = ","%char)) with true. cbn beta iota. rewrite Ht'', Hw2. cbn beta iota. by rewrite Ht'', Hw1.
Qed.

Lemma object_reads o incl n p t : NoDup o.*1 -> Forall readable o -> plain t = true -> lexable t = true ->
  seen p (text (Object o) +:+ t) -> (4 * String.length (text (Object o)) + 2 <= n)%nat ->
  exists p', extractObject n incl false p = POk (o, incl) p' /\ seen p' t.
Proof.
  intros Hd Hr Ht Hlt Hs Hn. rewrite object_text in Hs, Hn. rewrite !length_string_app in Hn. cbn [String.length] in Hn.
  rewrite !string_app_assoc in Hs. set (X := fields o +:+ "}" +:+ t) in *.
  destruct n as [|n]; [lia|].
  destruct (seen_token _ _ _ _ _ Hs eq_refl) as (Ht1 & _).
  enter Hocon.extractObject. run. rewrite Ht1. change (bool_decide ("{" = "{")) with true. cbn beta iota.
  destruct o as [|kv o].
  - pose proof (seen_advance _ _ _ _ _ Hs eq_refl eq_refl) as Hs1. destruct (seen_token _ _ _ _ _ Hs1 eq_refl) as (Ht2 & _).
    rewrite Ht2. eexists. split; [reflexivity|]. by eapply seen_advance.
  - assert (Hkv := Hr). apply Forall_cons in Hkv as [Hkv _]. destruct (key_first kv o ("}" +:+ t) Hkv) as (r & E & Hlx).
    pose proof (seen_advance _ _ _ _ _ Hs eq_refl Hlx) as Hs1. destruct (seen_token _ _ _ _ _ Hs1 E) as (Ht2 & _).
    rewrite Ht2. destruct Hkv as (Hk & _). rewrite (word_keyword _ "}") by done. cbn beta iota.
    apply (object_loop_reads kv o n incl [] 0%Z (advance p) t); [done..|lia].
Qed.

(** A mark is no kind of token. *)
Ltac no_kind c :=
  change (c =? TInt)%Z with false; change (c =? TFloat)%Z with false; change (c =? TString)%Z with false; change (c =? TIdent)%Z with false;
  cbn beta iota zeta.
(** A plain value is read as it was written. *)
Lemma reads_plain v : plain_value v = true -> reads v.
Proof.
  induction v as [l|o IH|l IH|l IH] using Value_induction; intros Hp t n p Hc Ht Hs Hn; [..|done].
  all: destruct n as [|n]; [lia|].
  - by apply read_leaf.
  - pose proof (plain_object o Hp) as [Hd Ho].
    assert (Forall readable o) as Hr by (rewrite Forall_forall in *; intros kv Hkv; destruct (Ho kv Hkv) as (? & ? & ?); split_and!; eauto).
    destruct (object_reads o None n p t) as (p' & E & Hs'); [done|done|apply Hc|by apply closes_lexable|done|lia|].
    exists p'. split; [|done]. rewrite object_text, !string_app_assoc in Hs.
    destruct (seen_token _ _ _ _ _ Hs eq_refl) as (Ht1 & Hr1 & _). enter Hocon.extractValue. run. rewrite Ht1.
    change (bool_decide ("{" = "#")) with false. cbn beta iota zeta. rewrite Ht1, Hr1.
    no_kind (byte "{"). change (bool_decide ("{" = "{")) with true. cbn beta iota. by rewrite E.
  - pose proof (plain_array l Hp) as Hl. rewrite array_text in Hs, Hn. rewrite !length_string_app in Hn. cbn [String.length] in Hn.
    assert (Forall (fun v => plain_value v = true /\ reads v) l) as Hr by (rewrite Forall_forall in *; intros v Hv; split; eauto).
    rewrite !string_app_assoc in Hs. destruct (seen_token _ _ _ _ _ Hs eq_refl) as (Ht1 & Hr1 & _).
    assert (exists p', extractArray n p = POk l p' /\ seen p' t) as (p' & E & Hs').
    { destruct n as [|n]; [lia|]. enter Hocon.extractArray. run. rewrite Ht1. change (negb (bool_decide ("[" = "["))) with false. cbn beta iota zeta.
      destruct l as [|v l].
      - pose proof (seen_advance _ _ _ _ _ Hs eq_refl eq_refl) as Hs1. destruct (seen_token _ _ _ _ _ Hs1 eq_refl) as (Ht2 & _).
        rewrite Ht2. eexists. split; [reflexivity|]. eapply seen_advance; [exact Hs1|done|by apply closes_lexable].
      - destruct (elements_first v l t) as (HX & k & w & r & E & Hlx & Hw1 & Hw2); [done|apply Hc|].
        pose proof (seen_advance _ _ _ _ _ Hs eq_refl Hlx) as Hs1. destruct (seen_token _ _ _ _ _ Hs1 E) as (Ht2 & _).
        rewrite Ht2, Hw1, Hw2. cbn beta iota.
        destruct (array_loop_reads v l n [] (advance p) t) as (p' & E' & Hs'); [done|apply Hc|by apply closes_lexable|done|lia|].
        exists p'. split; [|done]. exact E'. }
    exists p'. split; [|done]. enter Hocon.extractValue. run. rewrite Ht1.
    change (bool_decide ("[" = "#")) with false. cbn beta iota zeta. rewrite Ht1, Hr1. 
    no_kind (byte "["). change (bool_decide ("[" = "{")) with false. change (bool_decide ("[" = "[")) with true. cbn beta iota. by rewrite E.
Qed.

(** *** The whole file *)

Lemma at_init src : plain src = true -> src <> "" -> at_text (Init src) src.
Proof.
  intros Hp Hne. destruct src as [|a t]; [done|]. pose proof Hp as Hp'. rewrite plain_cons in Hp'. apply andb_true_iff in Hp' as [Ha _].
  unfold Init, next. cbn [rest]. rewrite decode_plain by done. pose proof (byte_plain a Ha).
  destruct (Z.eqb_spec (byte a) 10); [lia|]. cbn [ch]. destruct (Z.eqb_spec (byte a) 65279); [lia|].
  constructor; cbn; done || lia.
Qed.
Context (LookupEnv : string -> option string) (order : list (string * Value) -> list (string * Value)).
Notation ParseString := (ParseString Letter Digit ParseFloat truncate Open LookupEnv order).

Lemma plain_settled v : plain_value v = true -> settled v = true.
Proof.
  induction v as [l|o IH|l IH|l IH] using Value_induction; intros Hv; [by destruct l|..|done].
  - apply plain_object in Hv as [_ Hv]. cbn. apply forallb_forall. intros kv Hkv%list_elem_of_In. rewrite Forall_forall in IH, Hv.
    apply IH; [done|]. by apply Hv.
  - apply plain_array in Hv. cbn. apply forallb_forall. intros v Hin%list_elem_of_In. rewrite Forall_forall in IH, Hv. by apply IH, Hv.
Qed.
Lemma parse_plain o : plain_value (Object o) = true -> (forall l, order l ≡ₚ l) ->
  exists h i nd, ParseString (text (Object o)) = Parsed (mkConfig h (VRef i) []) /\ h !! i = Some (NObject nd) /\
    holds h (VRef i) (shuffle order (Object o)) /\ length h = nodes (shuffle order (Object o)).
Proof.
  intros Hp Ho. pose proof (plain_object o Hp) as [Hd Hf]. pose proof (text_plain _ Hp) as Ht.
  assert (Forall readable o) as Hr.
  { eapply Forall_impl; [exact Hf|]. intros kv (? & ? & ?). split_and!; [done..|by apply reads_plain]. }
  assert (lexable (text (Object o)) = true) as Hl by (by rewrite object_text).
  assert (at_text (Init (text (Object o))) (text (Object o))) as Hat by (by apply at_init; [|rewrite object_text]).
  pose proof (advance_seen Letter Digit (newParser (text (Object o))) _ Hat Hl) as Hs. set (p := advance (newParser (text (Object o)))) in *.
  assert (token p = "{") as Htok by (rewrite object_text in Hs; by apply (seen_token _ _ _ _ _ Hs eq_refl)).
  destruct (object_reads o (Some ∅) (fuel_for (text (Object o))) p "") as (p' & E & Hs'); [done..| |unfold fuel_for; lia|].
  { by rewrite string_app_nil_r. }
  destruct (seen_token _ _ _ _ _ Hs' eq_refl) as (Ht' & _).
  unfold HoconTree.ParseString, parse. fold p. rewrite Htok. change (bool_decide ("{" = "[")) with false. cbn beta iota.
  rewrite E, Ht'. change (bool_decide ("" = "")) with true. cbn beta iota.
  unfold new_config. change (elements (default ∅ (Some ∅))) with (@nil string).
  pose proof (load_holds (shuffle order (Object o)) []) as H. destruct (load (shuffle order (Object o)) []) as [r h]. destruct H as (_ & Hh & Hlen).
  pose proof Hh as Hh'. cbn [shuffle] in Hh'. inversion Hh' as [|i nd o' Hi Hk Hv| |]; subst.
  unfold resolved. cbn [root store]. rewrite (resolve_settled _ _ _ (shuffle order (Object o)) i h).
  - exists h, i, nd. by split_and!.
  - done.
  - rewrite shuffle_settled by done. by apply plain_settled.
  - rewrite Hlen. cbn. lia.
Qed.

(** Paths are distinct. *)
Notation visits := (visits FormatFloat32 FormatFloat64 DurationString).
Definition tail_of (s : string) : Prop := s = "" \/ exists s', s = String "." s'.
Lemma word_prefix k k' s s' : word k = true -> word k' = true -> tail_of s -> tail_of s' -> k +:+ s = k' +:+ s' -> k = k'.
Proof.
  assert (Hc : forall w w', Value.all_chars word_char w = true -> Value.all_chars word_char w' = true -> tail_of s -> tail_of s' ->
    w +:+ s = w' +:+ s' -> w = w').
  { induction w as [|a w IH]; intros [|b w'] Hw Hw' Hs Hs' E; [done|..].
    - change (s = String b (w' +:+ s')) in E. cbn in Hw'. apply andb_true_iff in Hw' as [Hb _].
      destruct Hs as [->|[t ->]]; [done|]. injection E as <- _. done.
    - change (String a (w +:+ s) = s') in E. cbn in Hw. apply andb_true_iff in Hw as [Ha _].
      destruct Hs' as [->|[t ->]]; [done|]. injection E as -> _. done.
    - change (String a (w +:+ s) = String b (w' +:+ s')) in E. injection E as <- E. cbn in Hw, Hw'.
      apply andb_true_iff in Hw as [_ Hw]. apply andb_true_iff in Hw' as [_ Hw']. f_equal. by apply IH. }
  intros Hk Hk'. apply Hc.
  - destruct k as [|a k]; [done|]. cbn in Hk |- *. apply andb_true_iff in Hk as [Ha ->]. unfold word_char. by rewrite Ha.
  - destruct k' as [|a k']; [done|]. cbn in Hk' |- *. apply andb_true_iff in Hk' as [Ha ->]. unfold word_char. by rewrite Ha.
Qed.
Lemma under_tail P k : word k = true -> exists Q, under P k = Q +:+ k /\ (forall k', under P k' = Q +:+ k') /\ under P k <> "" /\ (P <> "" -> exists s, Q = P +:+ String "." s).
Proof.
  intros Hk. unfold under. destruct (decide (P = "")) as [->|HP].
  - rewrite bool_decide_eq_true_2 by done. exists "". split_and!; [done|by intros|by intros ->|done].
  - exists (P +:+ "."). rewrite bool_decide_eq_false_2 by done. split_and!; [by rewrite string_app_assoc|intros k'; by rewrite string_app_assoc| |intros _; by exists ""].
    destruct P; done.
Qed.
Lemma visits_under v : forall P p l, plain_value v = true -> P <> "" -> (p, l) ∈ visits P v -> exists s, p = P +:+ s /\ tail_of s.
Proof.
  induction v as [l|o IH|l IH|l IH] using Value_induction; intros P p lf Hv HP Hin; [..|done].
  - destruct l; cbn in Hin; try (by apply not_elem_of_nil in Hin); apply list_elem_of_singleton in Hin; injection Hin as -> _;
      (exists ""; split; [by rewrite string_app_nil_r|by left]).
  - apply plain_object in Hv as [_ Hv]. cbn in Hin. apply list_elem_of_bind in Hin as ([k v] & Hin & Hkv). rewrite Forall_forall in IH, Hv.
    destruct (Hv _ Hkv) as (Hk & _ & Hp). cbn in Hk, Hp, Hin. destruct (under_tail P k Hk) as (Q & HQ & _ & Hne & HQP). destruct (HQP HP) as [s ->].
    destruct (IH _ Hkv (under P k) p lf Hp Hne Hin) as (s' & -> & _). exists (String "." (s +:+ k +:+ s')). split; [|by right; eexists].
    rewrite HQ, !string_app_assoc. done.
  - cbn in Hin. apply list_elem_of_singleton in Hin. injection Hin as -> _. exists "". split; [by rewrite string_app_nil_r|by left].
Qed.
Lemma visits_unique v : forall P, plain_value v = true -> NoDup (visits P v).*1.
Proof.
  induction v as [l|o IH|l IH|l IH] using Value_induction; intros P Hv; [..|done].
  - destruct l; cbn; try apply NoDup_nil_2; apply NoDup_singleton.
  - apply plain_object in Hv as [Hd Hv]. cbn [HoconTree.visits]. induction o as [|[k v] o IHo]; [apply NoDup_nil_2|].
    apply Forall_cons in IH as [IHv IH]. apply Forall_cons in Hv as [(Hk & _ & Hp) Hv]. cbn in Hd. apply NoDup_cons in Hd as [Hkd Hd].
    cbn. rewrite fmap_app. apply NoDup_app. split; [by apply IHv|]. split; [|by apply IHo].
    intros p ([p1 l1] & -> & H1)%list_elem_of_fmap ([p2 l2] & E & H2)%list_elem_of_fmap. cbn in E. subst p2.
    apply list_elem_of_bind in H2 as ([k' v'] & H2 & Hkv'). cbn in H2. rewrite Forall_forall in Hv. destruct (Hv _ Hkv') as (Hk' & _ & Hp').
    destruct (under_tail P k Hk) as (Q & HQ & HQ' & Hne & _). destruct (under_tail P k' Hk') as (_ & _ & _ & Hne' & _).
    destruct (visits_under _ _ _ _ Hp Hne H1) as (s & -> & Hs). destruct (visits_under _ _ _ _ Hp' Hne' H2) as (s' & E & Hs').
    rewrite HQ, HQ', !string_app_assoc in E. apply string_app_inj_l in E. apply word_prefix in E; [|done..]. subst k'.
    apply Hkd. apply list_elem_of_fmap. by exists (k, v').
  - apply NoDup_singleton.
Qed.
Lemma foldl_insert {A} (f : A -> string) (l : list (string * A)) : forall (m : gmap string string) p s, NoDup l.*1 ->
  foldl (fun m e => <[e.1 := f e.2]> m) m l !! p = Some s <->
  (exists a, (p, a) ∈ l /\ s = f a) \/ (p ∉ l.*1 /\ m !! p = Some s).
Proof.
  induction l as [|[k a] l IH]; intros m p s Hd; cbn.
  - split; [intros H; right; split; [apply not_elem_of_nil|done]|]. intros [(a & Ha & _)|[_ H]]; [by apply not_elem_of_nil in Ha|done].
  - cbn in Hd. apply NoDup_cons in Hd as [Hk Hd]. rewrite IH by done. rewrite lookup_insert_case. split.
    + intros [(b & Hb & ->)|[Hp Hm]]; [left; exists b; split; [by right|done]|]. case_decide as Hkp.
      * subst p. injection Hm as <-. left. exists a. split; [by left|done].
      * right. split; [|done]. intros [?|?]%elem_of_cons; [by apply Hkp|done].
    + intros [(b & [E|Hb]%elem_of_cons & ->)|[Hp Hm]].
      * injection E as -> ->. right. split; [done|]. by rewrite decide_True.
      * left. by exists b.
      * apply not_elem_of_cons in Hp as [Hpk Hp]. right. split; [done|]. by rewrite decide_False.
Qed.
Lemma visit_plain v : forall P p l, plain_value v = true -> (p, l) ∈ visits P v -> match l with String_ _ | Int _ | Boolean _ => True | _ => False end.
Proof.
  induction v as [l|o IH|l IH|l IH] using Value_induction; intros P p lf Hv Hin; [..|done].
  - destruct l; try done; cbn in Hin; try (by apply not_elem_of_nil in Hin); apply list_elem_of_singleton in Hin; by injection Hin as _ ->.
  - apply plain_object in Hv as [_ Hv]. cbn in Hin. apply list_elem_of_bind in Hin as ([k v] & Hin & Hkv). rewrite Forall_forall in IH, Hv.
    destruct (Hv _ Hkv) as (_ & _ & Hp). by eapply (IH _ Hkv).
  - cbn in Hin. apply list_elem_of_singleton in Hin. by injection Hin as _ ->.
Qed.

(** *** What an object says *)

(** The value under a path of keys, and the text it stands for: a word, the decimal numeral of a
    number, the name of a truth value, and for a list of words and truth values these with commas
    between them. *)
Inductive found_at : Value -> list string -> Value -> Prop :=
| here v : found_at v [] v
| below o k v ks w : (k, v) ∈ o -> found_at v ks w -> found_at (Object o) (k :: ks) w.
Inductive item_text : Value -> string -> Prop :=
| item_word s : item_text (leaf (String_ s)) s
| item_true : item_text (leaf (Boolean true)) "true"
| item_false : item_text (leaf (Boolean false)) "false".
Inductive says : Value -> string -> Prop :=
| says_item v s : item_text v s -> says v s
| says_number n : says (leaf (Int n)) (Value.FormatInt n)
| says_list l ts : Forall2 item_text l ts -> says (Array l) (Join ts ",").

(** Lists have words and truth values only: of a number in a list the reader sees no text. *)
Definition listable (v : Value) : bool := match v with leaf (String_ _ | Boolean _) => true | _ => false end.
Fixpoint legible (v : Value) : bool :=
  match v with
  | leaf _ | concatenation _ => true
  | Object o => forallb (fun kv => legible kv.2) o
  | Array l => forallb listable l
  end.

Definition unquoted : string -> bool := Value.all_chars (fun a => negb (bool_decide (a = quote_char))).
Lemma Trim_unquoted t : unquoted t = true -> Trim t = t.
Proof.
  intros Ht. assert (H : forall t, unquoted t = true -> trim_right_quotes t = t).
  { clear t Ht. induction t as [|a t IH]; [done|]. cbn. intros [Ha Ht]%andb_true_iff. rewrite (IH Ht).
    destruct t; [|done]. apply negb_true_iff, bool_decide_eq_false in Ha. by rewrite decide_False. }
  destruct t as [|a t]; [done|]. pose proof Ht as Ht'. unfold unquoted in Ht'. cbn [Value.all_chars] in Ht'.
  apply andb_true_iff in Ht' as [Ha%negb_true_iff%bool_decide_eq_false _].
  unfold Trim. cbn [trim_left_quotes]. rewrite decide_False by done. by apply H.
Qed.
Lemma unquoted_app s t : unquoted (s +:+ t) = unquoted s && unquoted t.
Proof.
  induction s as [|a s IH]; [done|]. change (String a s +:+ t) with (String a (s +:+ t)). unfold unquoted in *. cbn [Value.all_chars].
  by rewrite IH, andb_assoc.
Qed.
Lemma unquoted_join ts : Forall (fun t => unquoted t = true) ts -> unquoted (Join ts ",") = true.
Proof.
  induction 1 as [|t ts Ht Hts IH]; [done|]. destruct ts as [|t' ts]; [done|].
  change (Join (t :: t' :: ts) ",") with (t +:+ "," +:+ Join (t' :: ts) ","). by rewrite !unquoted_app, Ht, IH.
Qed.
Lemma word_no_quote w : word w = true -> unquoted w = true.
Proof.
  assert (H : forall s, Value.all_chars word_char s = true -> unquoted s = true).
  { intros s. apply all_chars_mono. intros a Ha. rewrite bool_decide_eq_false_2; [done|]. by intros ->. }
  intros Hw. apply H. destruct w as [|a w]; [done|]. cbn in Hw |- *. apply andb_true_iff in Hw as [Ha ->]. unfold word_char. by rewrite Ha.
Qed.
Lemma word_text s : word s = true -> leaf_text (String_ s) = s.
Proof. apply Trim_word. Qed.
Lemma item_unquoted v s : plain_value v = true -> item_text v s -> unquoted s = true.
Proof.
  intros Hp Hi. inversion Hi; subst; [|done..]. cbn in Hp. apply andb_true_iff in Hp as [[Hw _]%andb_true_iff _]. by apply word_no_quote.
Qed.
Lemma item_leaf_text v : plain_value v = true -> listable v = true ->
  exists t, tree_element FormatFloat32 FormatFloat64 DurationString v = Some t /\ forall s, item_text v s <-> s = t.
Proof.
  destruct v as [[s|?|?|?|b|? ?| |?]|?|?|?]; try done; intros Hp _.
  - cbn in Hp. apply andb_true_iff in Hp as [[Hw _]%andb_true_iff _]. exists s. cbn -[Leaf_String]. rewrite (word_text s Hw).
    split; [done|]. intros t. split; [by inversion 1|intros ->; constructor].
  - eexists. split; [done|]. intros t. destruct b; (split; [by inversion 1|intros ->; constructor]).
Qed.
Lemma list_text l : Forall (fun v => plain_value v = true) l -> forallb listable l = true ->
  forall ts, Forall2 item_text l ts <-> ts = omap (tree_element FormatFloat32 FormatFloat64 DurationString) l.
Proof.
  induction 1 as [|v l Hv Hl IH]; intros Hx ts.
  - split; [by inversion 1|intros ->; constructor].
  - cbn in Hx. apply andb_true_iff in Hx as [Hlv Hx]. destruct (item_leaf_text v Hv Hlv) as (t & Ht & Hs). cbn. rewrite Ht. split.
    + inversion 1; subst. f_equal; [by apply Hs|by apply IH].
    + intros ->. constructor; [by apply Hs|by apply IH].
Qed.
Lemma visits_says v : forall P, plain_value v = true -> legible v = true -> forall p s,
  (exists l, (p, l) ∈ visits P v /\ s = leaf_text l) <-> exists keys w, found_at v keys w /\ p = foldl under P keys /\ says w s.
Proof.
  induction v as [l|o IH|l IH|l IH] using Value_induction; intros P Hp Hl p s; [..|done].
  - split.
    + intros (lf & Hin & ->). exists [], (leaf l). split; [constructor|].
      assert (p = P /\ lf = l /\ match l with String_ _ | Int _ | Boolean _ => True | _ => False end) as (-> & -> & Hkind)
        by (destruct l; try done; cbn in Hin; try (by apply not_elem_of_nil in Hin); by apply list_elem_of_singleton in Hin as [= -> ->]).
      split; [done|]. destruct l as [w|n|?|?|b|? ?| |?]; try done.
      * cbn in Hp. apply andb_true_iff in Hp as [[Hw _]%andb_true_iff _]. rewrite (word_text w Hw). apply says_item, item_word.
      * apply says_number.
      * apply says_item. destruct b; constructor.
    + intros (keys & w & Hf & -> & Hw). inversion Hf; subst. cbn [foldl]. exists l. inversion Hw as [v' ? Hi| |]; subst.
      * inversion Hi; subst; (split; [by left|]); [|done..].
        cbn in Hp. apply andb_true_iff in Hp as [[Hww _]%andb_true_iff _]. by rewrite (word_text s Hww).
      * split; [by left|done].
  - apply plain_object in Hp as [_ Hp]. cbn [legible] in Hl. rewrite forallb_forall in Hl. cbn [HoconTree.visits].
    rewrite Forall_forall in IH, Hp. split.
    + intros (lf & ([k v] & Hin & Hkv)%list_elem_of_bind & ->). destruct (Hp _ Hkv) as (_ & _ & Hpv). cbn in Hin, Hpv.
      destruct (proj1 (IH _ Hkv (under P k) Hpv (Hl _ (proj1 (list_elem_of_In _ _) Hkv)) p (leaf_text lf))) as (keys & w & Hf & -> & Hw); [by eauto|].
      exists (k :: keys), w. split; [by eapply below|done].
    + intros (keys & w & Hf & -> & Hw). inversion Hf as [|? k v ks ? Hkv Hfv]; subst.
      { inversion Hw as [? ? Hi| |]; subst. inversion Hi. }
      destruct (Hp _ Hkv) as (_ & _ & Hpv). cbn [foldl].
      destruct (proj2 (IH _ Hkv (under P k) Hpv (Hl _ (proj1 (list_elem_of_In _ _) Hkv)) (foldl under (under P k) ks) s)) as (lf & Hin & ->); [by eauto|].
      exists lf. split; [|done]. apply list_elem_of_bind. by exists (k, v).
  - apply plain_array in Hp. cbn in Hl. cbn [HoconTree.visits]. pose proof (list_text l Hp Hl) as Ht. split.
    + intros (lf & [= -> ->]%list_elem_of_singleton & ->). exists [], (Array l). split_and!; [constructor|done|].
      pose proof (proj2 (Ht _) eq_refl) as Hi. cbn [Leaf_String]. rewrite Trim_unquoted; [by apply says_list|].
      apply unquoted_join. clear -Hi Hp. induction Hi; [constructor|]. inversion Hp; subst. constructor; [by eapply item_unquoted|auto].
    + intros (keys & w & Hf & -> & Hw). inversion Hf; subst. cbn [foldl]. inversion Hw as [? ? Hi| |? ts Hi]; subst; [inversion Hi|].
      eexists. split; [by left|]. cbn [Leaf_String]. rewrite Trim_unquoted; [by rewrite <- (proj1 (Ht _) Hi)|].
      rewrite <- (proj1 (Ht _) Hi). apply unquoted_join. clear -Hi Hp. induction Hi; [constructor|]. inversion Hp; subst. constructor; [by eapply item_unquoted|auto].
Qed.
Lemma path_keys keys : Forall (fun k => k <> "") keys -> foldl under "" keys = Join keys ".".
Proof.
  assert (H : forall ks P, P <> "" -> foldl under P ks = Join (P :: ks) ".").
  { induction ks as [|k ks IH]; intros P HP; [done|]. cbn [foldl]. unfold under at 2. rewrite bool_decide_eq_false_2 by done.
    rewrite IH by (by destruct P). destruct ks as [|k' ks]; [done|].
    change (Join ((P +:+ "." +:+ k) :: k' :: ks) ".") with ((P +:+ "." +:+ k) +:+ "." +:+ Join (k' :: ks) ".").
    change (Join (P :: k :: k' :: ks) ".") with (P +:+ "." +:+ k +:+ "." +:+ Join (k' :: ks) "."). by rewrite !string_app_assoc. }
  destruct 1 as [|k ks Hk Hks]; [done|]. cbn [foldl]. change (under "" k) with k. by apply H.
Qed.
Lemma found_words v keys w : found_at v keys w -> plain_value v = true -> Forall (fun k => k <> "") keys.
Proof.
  induction 1 as [|o k v ks w Hk Hf IH]; intros Hp; [constructor|]. apply plain_object in Hp as [_ Hp]. rewrite Forall_forall in Hp.
  destruct (Hp _ Hk) as (Hw & _ & Hv). constructor; [by intros ->|by apply IH].
Qed.

Context (Format32 Format64 : spec_float -> string).
(** C6: a HOCON file is read back.  An object whose keys and strings are words, whose numbers are
    not negative, and which has no substitutions, printed by [String] with its entries in any
    order, is parsed to the same object, however its maps are walked.  If its lists are of words
    and truth values, the reader of the configuration gets for each path to a word, a number, a
    truth value or a list, the keys joined with dots, its text: the word, the decimal numeral,
    true or false, the items joined with commas; it gets no other key, and announces no included
    file. *)
Theorem hocon_reads_back o : plain_value (Object o) = true -> (forall l, order l ≡ₚ l) ->
  (exists h r, ParseString (text (Object o)) = Parsed (mkConfig h r []) /\ holds h r (shuffle order (Object o))) /\
  (legible (Object o) = true ->
   exists config, Read Letter Digit ParseFloat truncate Open LookupEnv order FormatFloat32 FormatFloat64 DurationString Format32 Format64 (text (Object o)) = ReadOk config [] /\
    forall path s, config !! path = Some s <-> exists keys v, found_at (Object o) keys v /\ path = Join keys "." /\ says v s).
Proof.
  intros Hp Ho. destruct (parse_plain o Hp Ho) as (h & i & nd & E & Hi & Hh & Hlen). split; [by eauto|]. intros Hleg.
  unfold Read. rewrite E. unfold Walk_all. cbn [root store includes]. rewrite Hi.
  rewrite (Walk_visits _ _ _ _ _ _ _ _ Hh) by lia. eexists. split; [done|]. intros path s.
  pose proof (shuffle_visits FormatFloat32 FormatFloat64 DurationString order (Object o) Ho "") as Hperm. set (es := visits "" (shuffle order (Object o))) in *.
  assert (forall m, foldl (visit FormatFloat32 FormatFloat64 DurationString Format32 Format64) m es = foldl (fun m e => <[e.1 := leaf_text e.2]> m) m es) as Hv.
  { assert (forall p l, (p, l) ∈ es -> match l with String_ _ | Int _ | Boolean _ => True | _ => False end) as Hes.
    { intros p l Hin. rewrite Hperm in Hin. by eapply visit_plain. }
    clear Hperm. induction es as [|[p l] es IH]; intros m; [done|]. cbn. rewrite <- IH by (intros p' l' Hin; apply (Hes p' l'); by right).
    pose proof (Hes p l ltac:(by left)). by destruct l. }
  rewrite Hv, foldl_insert by (rewrite Hperm; by apply visits_unique).
  rewrite lookup_empty. setoid_rewrite Hperm. transitivity (exists l, (path, l) ∈ visits "" (Object o) /\ s = leaf_text l); [naive_solver|].
  rewrite (visits_says (Object o) "" Hp Hleg path s). split; intros (keys & w & Hf & -> & Hw); exists keys, w; (split_and!; [done| |done]);
    [|symmetry]; apply path_keys; by eapply found_words.
Qed.
End reading.

Definition example_object : object :=
  [("name", leaf (String_ "gateway")); ("server", Object [("port", leaf (Int 8080)); ("tls", leaf (Boolean true))]); ("tags", Array [leaf (String_ "a"); leaf (String_ "b")])].
Lemma hocon_reads_back_witness : plain_value (Object example_object) = true /\
  exists config, Read (fun _ => false) (fun _ => false) (fun _ => None) (fun _ => 0%Z) (fun _ => inl "") (fun _ => None) (@rev _)
    (fun _ => "") (fun _ => "") (fun _ => "") (fun _ => "") (fun _ => "") "{name:gateway, server:{port:8080, tls:true}, tags:[a,b]}" = ReadOk config [] /\
    config !! "server.port" = Some "8080" /\ config !! "tags" = Some "a,b".
Proof.
  split; [reflexivity|].
  destruct (hocon_reads_back (fun _ => false) (fun _ => false) (fun _ => None) (fun _ => 0%Z) (fun _ => inl "")
    (fun _ => "") (fun _ => "") (fun _ => "") (fun _ => None) (@rev _) (fun _ => "") (fun _ => "") example_object)
    as (_ & config & E & Hc); [reflexivity|intros l; symmetry; apply Permutation_rev|reflexivity|].
  exists config. split; [exact E|]. split; apply Hc.
  - exists ["server"; "port"], (leaf (Int 8080)). split_and!; [|reflexivity|exact (says_number 8080)].
    eapply below; [right; left|]. eapply below; [left|]. constructor.
  - exists ["tags"], (Array [leaf (String_ "a"); leaf (String_ "b")]). split_and!; [|reflexivity|].
    + eapply below; [right; right; left|]. constructor.
    + apply (says_list _ ["a"; "b"]). repeat constructor.
Defined.
End HoconRead.
