(* ===== verification/Interceptor.v ===== *)
(** * Interceptor chains ([interceptor/chain.go]).

    An interceptor gets the rest of the call as a function and the arguments of the call.
    [X] are the arguments, [R] what a call comes to (for an effectful call a function of the
    world). *)

From S2P Require Import Prelude.

Open Scope list_scope.

Module Interceptor.

Section chain.
Context {X R : Type}.

(** The loop from the last interceptor to the first: each wraps the invoker built so far. *)
Definition wrap (interceptors : list ((X -> R) -> X -> R)) (invoker : X -> R) : X -> R :=
  foldl (fun invoker int => int invoker) invoker (reverse interceptors).

End chain.

(** The four chains of the file differ in the arguments of their calls; the ones of a server
    pass [info] on to every interceptor. *)
Definition ChainUnaryClient {Ctx Method Req Reply Conn Opts R}
    (interceptors : list ((Ctx * Method * Req * Reply * Conn * Opts -> R) -> Ctx * Method * Req * Reply * Conn * Opts -> R)) :=
  wrap interceptors.
Definition ChainStreamClient {Ctx Desc Conn Method Opts R}
    (interceptors : list ((Ctx * Desc * Conn * Method * Opts -> R) -> Ctx * Desc * Conn * Method * Opts -> R)) :=
  wrap interceptors.
Definition ChainUnaryServer {Ctx Req Info R} (interceptors : list (Info -> (Ctx * Req -> R) -> Ctx * Req -> R)) (info : Info) :=
  wrap ((fun int => int info) <$> interceptors).
Definition ChainStreamServer {Srv Stream Info R} (interceptors : list (Info -> (Srv * Stream -> R) -> Srv * Stream -> R)) (info : Info) :=
  wrap ((fun int => int info) <$> interceptors).

Section laws.
Context {X R : Type}.
Implicit Types ints : list ((X -> R) -> X -> R).

Lemma wrap_cons int ints invoker : wrap (int :: ints) invoker = int (wrap ints invoker).
Proof. unfold wrap. by rewrite reverse_cons, foldl_snoc. Qed.

Lemma wrap_app ints1 ints2 invoker : wrap (ints1 ++ ints2) invoker = wrap ints1 (wrap ints2 invoker).
Proof. induction ints1 as [|int ints1 IH]; [done|]. cbn [app]. by rewrite !wrap_cons, IH. Qed.

End laws.

(** An interceptor that does something before and after the rest of the call, on a trace. *)
Inductive mark := Enter (i : nat) | Leave (i : nat) | Call.
Definition around {X} (i : nat) : (X -> list mark -> list mark) -> X -> list mark -> list mark :=
  fun next x t => next x (t ++ [Enter i]) ++ [Leave i].

(** Chains nest.  Chaining two lists of interceptors after one another is chaining the
    first around the chain of the second, the empty chain being the plain call; so in a
    chain of interceptors that each call on once, the first interceptor is entered first
    and left last, and the call itself happens once, in the middle. *)
Theorem chain_nests {X R : Type} (ints1 ints2 : list ((X -> R) -> X -> R)) (invoker : X -> R) (x : X) (n : nat) :
  wrap (ints1 ++ ints2) invoker = wrap ints1 (wrap ints2 invoker) /\ wrap [] invoker = invoker /\
  wrap (around <$> seq 0 n) (fun _ t => t ++ [Call]) x [] = (Enter <$> seq 0 n) ++ [Call] ++ (Leave <$> reverse (seq 0 n)).
Proof.
  split_and!; [apply wrap_app|done|].
  assert (H : forall k m t, wrap (around <$> seq k m) (fun (_ : X) t => t ++ [Call]) x t =
    t ++ (Enter <$> seq k m) ++ [Call] ++ (Leave <$> reverse (seq k m))).
  { intros k m. revert k. induction m as [|m IH]; intros k t; cbn [seq]; [done|].
    rewrite !fmap_cons, wrap_cons, reverse_cons, fmap_app. unfold around at 1. rewrite IH.
    cbn. by rewrite <- !app_assoc. }
  by rewrite H.
Qed.

End Interceptor.
