(* ===== verification/Hooks.v ===== *)
(** * Hooks of a gRPC server ([hooks/server.go], and their list in
    [server/internal/grpc_server/grpc_server.go]).

    [HookServer] replaces the handlers in the method descriptions of a server.  The
    descriptions are reached through pointers, so they are kept in a store: two servers that
    register the same service share them. *)

From S2P Require Import Prelude Interceptor.

Open Scope string_scope.
Open Scope list_scope.

Module Hooks.
Import Interceptor.

Section hooks.
(** The implementation of a service, contexts, streams, results, and what else a unary handler
    is called with (the decoder and the interceptor of the server). *)
Context {Srv Ctx Stream Rest R : Type}.

Definition UnaryHookHandler : Type := Srv * Ctx -> R.
Definition UnaryHookInterceptor : Type := Srv -> Ctx -> string -> string -> UnaryHookHandler -> R.
Definition StreamHookHandler : Type := Srv * Stream -> R.
Definition StreamHookInterceptor : Type := Srv -> string -> string -> Stream -> StreamHookHandler -> R.

(** The loops wrap the handler from the last interceptor to the first. *)
Definition ChainUnaryHook (interceptors : list UnaryHookInterceptor) : UnaryHookInterceptor :=
  fun srv ctx service method handler =>
    wrap ((fun (unaryInt : UnaryHookInterceptor) prevHandler '(srv, ctx) => unaryInt srv ctx service method prevHandler) <$> interceptors)
      handler (srv, ctx).
Definition ChainStreamHook (interceptors : list StreamHookInterceptor) : StreamHookInterceptor :=
  fun srv service method stream handler =>
    wrap ((fun (streamInt : StreamHookInterceptor) prevHandler '(srv, stream) => streamInt srv service method stream prevHandler) <$> interceptors)
      handler (srv, stream).

Record hookOptions := mkHookOptions { unaryInt : list UnaryHookInterceptor; streamInt : list StreamHookInterceptor }.
Definition HookOption : Type := hookOptions -> gores hookOptions.

Definition HookWithUnaryInterceptors (ints : list UnaryHookInterceptor) : HookOption := fun opts =>
  Ok (mkHookOptions (unaryInt opts ++ ints) (streamInt opts)).
Definition HookWithStreamInterceptors (ints : list StreamHookInterceptor) : HookOption := fun opts =>
  Ok (mkHookOptions (unaryInt opts) (streamInt opts ++ ints)).

(** The handlers of [grpc.MethodDesc] and [grpc.StreamDesc]. *)
Definition UnaryHandler : Type := Srv -> Ctx -> Rest -> R.
Definition StreamHandler : Type := Srv -> Stream -> R.

(** What [HookServer] puts in the place of a handler. *)
Definition hook_unary (int : option UnaryHookInterceptor) (service method : string) (handler : UnaryHandler) : UnaryHandler :=
  fun srv ctx rest =>
    match int with
    | Some int => int srv ctx service method (fun '(srv, ctx) => handler srv ctx rest)
    | None => handler srv ctx rest
    end.
Definition hook_stream (int : option StreamHookInterceptor) (service method : string) (handler : StreamHandler) : StreamHandler :=
  fun srv stream =>
    match int with
    | Some int => int srv service method stream (fun '(srv, stream) => handler srv stream)
    | None => handler srv stream
    end.

(** Pointers to descriptions, and the maps of a server in the order in which they are walked. *)
Notation ptr := nat.
Record service := mkService { md : list (string * ptr); sd : list (string * ptr) }.
Definition server : Type := list (string * service).

Record store := mkStore { unary : gmap ptr UnaryHandler; streaming : gmap ptr StreamHandler }.

Definition chain_unary (ints : list UnaryHookInterceptor) : option UnaryHookInterceptor :=
  match ints with [] => None | _ => Some (ChainUnaryHook ints) end.
Definition chain_stream (ints : list StreamHookInterceptor) : option StreamHookInterceptor :=
  match ints with [] => None | _ => Some (ChainStreamHook ints) end.

Definition hook_service (opts : hookOptions) (s : store) (kv : string * service) : store :=
  let (k, v) := kv in
  mkStore (foldl (fun m '(method, p) => alter (hook_unary (chain_unary (unaryInt opts)) k method) p m) (unary s) (md v))
          (foldl (fun m '(method, p) => alter (hook_stream (chain_stream (streamInt opts)) k method) p m) (streaming s) (sd v)).

Definition HookServer (srv : server) (opt : list HookOption) (s : store) : gores store :=
  opts ← foldl (fun r o => r ≫= o) (Ok (mkHookOptions [] [])) opt;
  Ok (foldl (hook_service opts) s srv).

(** The hooks of a server ([Server.Prepare]): those of its options, then the framework's. *)
Definition server_hooks (user : hookOptions) (rateUnary breakerUnary timeoutUnary : UnaryHookInterceptor)
    (rateStream breakerStream timeoutStream : StreamHookInterceptor) : list HookOption :=
  [HookWithUnaryInterceptors (unaryInt user ++ [rateUnary; breakerUnary; timeoutUnary]);
   HookWithStreamInterceptors (streamInt user ++ [rateStream; breakerStream; timeoutStream])].

(** ** Chains *)

(** A chain of hooks is a nest: the first is around the second, and so on to the handler. *)
Definition nest_unary (ints : list UnaryHookInterceptor) (service method : string) (handler : UnaryHookHandler) : UnaryHookHandler :=
  foldr (fun (int : UnaryHookInterceptor) next '(srv, ctx) => int srv ctx service method next) handler ints.
Definition nest_stream (ints : list StreamHookInterceptor) (service method : string) (handler : StreamHookHandler) : StreamHookHandler :=
  foldr (fun (int : StreamHookInterceptor) next '(srv, stream) => int srv service method stream next) handler ints.

Lemma wrap_nest {A X : Type} (f : A -> (X -> R) -> X -> R) (l : list A) (handler : X -> R) :
  wrap (f <$> l) handler = foldr f handler l.
Proof. induction l as [|a l IH]; [done|]. rewrite fmap_cons, wrap_cons. cbn. by rewrite IH. Qed.

Lemma ChainUnaryHook_nest ints srv ctx service method handler :
  ChainUnaryHook ints srv ctx service method handler = nest_unary ints service method handler (srv, ctx).
Proof. exact (f_equal (fun g => g (srv, ctx)) (wrap_nest _ ints handler)). Qed.

Lemma ChainStreamHook_nest ints srv service method stream handler :
  ChainStreamHook ints srv service method stream handler = nest_stream ints service method handler (srv, stream).
Proof. exact (f_equal (fun g => g (srv, stream)) (wrap_nest _ ints handler)). Qed.

(** ** Hooked servers *)

(** The pointers a server holds, with the names under which it holds them. *)
Definition unary_entries (srv : server) : list (string * string * ptr) :=
  srv ≫= fun '(k, v) => (fun '(method, p) => (k, method, p)) <$> md v.
Definition stream_entries (srv : server) : list (string * string * ptr) :=
  srv ≫= fun '(k, v) => (fun '(method, p) => (k, method, p)) <$> sd v.

Definition alter_all {H : Type} (f : string -> string -> H -> H) (es : list (string * string * ptr)) (m : gmap ptr H) : gmap ptr H :=
  foldl (fun m '(k, method, p) => alter (f k method) p m) m es.

Lemma alter_all_app {H : Type} (f : string -> string -> H -> H) es es' (m : gmap ptr H) :
  alter_all f (es ++ es') m = alter_all f es' (alter_all f es m).
Proof. unfold alter_all. by rewrite foldl_app. Qed.

Lemma alter_service {H : Type} (f : string -> string -> H -> H) k (l : list (string * ptr)) (m : gmap ptr H) :
  foldl (fun m '(method, p) => alter (f k method) p m) m l = alter_all f ((fun '(method, p) => (k, method, p)) <$> l) m.
Proof. unfold alter_all. revert m. by induction l as [|[method p] l IH]; intros m; cbn. Qed.

Lemma hook_server_maps opts srv s : foldl (hook_service opts) s srv =
  mkStore (alter_all (hook_unary (chain_unary (unaryInt opts))) (unary_entries srv) (unary s))
          (alter_all (hook_stream (chain_stream (streamInt opts))) (stream_entries srv) (streaming s)).
Proof.
  revert s. induction srv as [|[k v] srv IH]; intros s; [by destruct s|]. cbn [foldl]. rewrite IH. cbn [hook_service unary streaming].
  rewrite !alter_service. unfold unary_entries, stream_entries. cbn [mbind list_bind]. by rewrite !alter_all_app.
Qed.

Lemma alter_all_lookup {H : Type} (f : string -> string -> H -> H) es (m : gmap ptr H) p :
  NoDup es.*2 -> alter_all f es m !! p =
    match list_find (fun e => e.2 = p) es with Some (_, (k, method, _)) => f k method <$> m !! p | None => m !! p end.
Proof.
  unfold alter_all. revert m. induction es as [|[[k method] q] es IH]; intros m Hn; [done|]. cbn [fmap list_fmap snd] in Hn.
  inversion Hn as [|? ? Hq Hn']; subst. cbn [foldl]. rewrite (IH _ Hn'). cbn [list_find snd].
  destruct (decide (q = p)) as [->|Hne].
  - rewrite lookup_alter_eq. destruct (list_find (fun e => e.2 = p) es) as [[i [[k' m'] p']]|] eqn:Ef; [|done].
    exfalso. apply list_find_Some in Ef as (Hl & Hp & _). cbn in Hp. subst p'. apply Hq. apply list_elem_of_fmap.
    exists (k', m', p). split; [done|]. by eapply list_elem_of_lookup_2.
  - rewrite lookup_alter_ne by done. by destruct (list_find (fun e => e.2 = p) es) as [[i [[k' m'] p']]|].
Qed.

Lemma list_find_only (es : list (string * string * ptr)) k method p : NoDup es.*2 -> (k, method, p) ∈ es ->
  exists i, list_find (fun e => e.2 = p) es = Some (i, (k, method, p)).
Proof.
  induction es as [|[[k' method'] q] es IH]; [by intros _ H%not_elem_of_nil|]. intros Hn Hin. cbn in Hn. inversion Hn as [|? ? Hq Hn']; subst.
  cbn [list_find snd]. apply elem_of_cons in Hin as [[= -> -> ->]|Hin]; [rewrite decide_True by done; by exists 0|].
  destruct (decide (q = p)) as [->|Hne].
  - exfalso. apply Hq. apply list_elem_of_fmap. by exists (k, method, p).
  - destruct (IH Hn' Hin) as [i ->]. by exists (S i).
Qed.

Lemma list_find_none (es : list (string * string * ptr)) p : p ∉ es.*2 -> list_find (fun e => e.2 = p) es = None.
Proof.
  intros Hp. apply list_find_None. apply Forall_forall. intros [[k method] q] Hin E. cbn in E. subst q. apply Hp.
  apply list_elem_of_fmap. by exists (k, method, p).
Qed.

(** Hooks of a server.  When no description of a server is reached under two names, then
    after [HookServer] the handler of every method runs the hooks around the handler it had,
    the first hook outermost, each with the service and method under which the server has the
    description; nothing else changes.  The order in which the maps are walked does not
    matter. *)
Theorem hooks_around_handlers (srv : server) (unaryHooks : list UnaryHookInterceptor) (streamHooks : list StreamHookInterceptor) (s : store) :
  NoDup (unary_entries srv).*2 -> NoDup (stream_entries srv).*2 ->
  exists s', HookServer srv [HookWithUnaryInterceptors unaryHooks; HookWithStreamInterceptors streamHooks] s = Ok s' /\
    (forall k method p h, (k, method, p) ∈ unary_entries srv -> unary s !! p = Some h -> exists h', unary s' !! p = Some h' /\
      forall srv ctx rest, h' srv ctx rest = nest_unary unaryHooks k method (fun '(srv, ctx) => h srv ctx rest) (srv, ctx)) /\
    (forall k method p h, (k, method, p) ∈ stream_entries srv -> streaming s !! p = Some h -> exists h', streaming s' !! p = Some h' /\
      forall srv stream, h' srv stream = nest_stream streamHooks k method (fun '(srv, stream) => h srv stream) (srv, stream)) /\
    (forall p, p ∉ (unary_entries srv).*2 -> unary s' !! p = unary s !! p) /\
    (forall p, p ∉ (stream_entries srv).*2 -> streaming s' !! p = streaming s !! p).
Proof.
  intros Hu Hs. eexists. split; [reflexivity|]. rewrite hook_server_maps. cbn [unary streaming unaryInt streamInt app].
  split_and!.
  - intros k method p h Hin Hp. destruct (list_find_only _ _ _ _ Hu Hin) as [i Hf].
    eexists. split; [rewrite (alter_all_lookup _ _ _ _ Hu), Hf; exact (f_equal (fmap (hook_unary (chain_unary unaryHooks) k method)) Hp)|]. intros x ctx rest.
    destruct unaryHooks as [|int ints]; [done|]. cbn [chain_unary hook_unary]. apply ChainUnaryHook_nest.
  - intros k method p h Hin Hp. destruct (list_find_only _ _ _ _ Hs Hin) as [i Hf].
    eexists. split; [rewrite (alter_all_lookup _ _ _ _ Hs), Hf; exact (f_equal (fmap (hook_stream (chain_stream streamHooks) k method)) Hp)|]. intros x stream.
    destruct streamHooks as [|int ints]; [done|]. cbn [chain_stream hook_stream]. apply ChainStreamHook_nest.
  - intros p Hp. by rewrite (alter_all_lookup _ _ _ _ Hu), list_find_none.
  - intros p Hp. by rewrite (alter_all_lookup _ _ _ _ Hs), list_find_none.
Qed.

End hooks.

(** ** Shared descriptions *)

(** Hooks that leave a mark, on a trace of marks. *)
Definition mark (i : nat) : UnaryHookInterceptor (Srv := unit) (Ctx := unit) (R := list nat) :=
  fun srv ctx _ _ next => i :: next (srv, ctx).
Definition plain : store (Srv := unit) (Ctx := unit) (Stream := unit) (Rest := unit) (R := list nat) := mkStore {[7 := fun _ _ _ => []]} ∅.
Definition one_method : server := [("pkg.Greeter", mkService [("Hello", 7)] [])].
Definition hooked (times : nat) : gores (store (Srv := unit) (Ctx := unit) (Stream := unit) (Rest := unit) (R := list nat)) :=
  foldl (fun r _ => r ≫= HookServer one_method [HookWithUnaryInterceptors [mark 1; mark 2]]) (Ok plain) (seq 0 times).
Definition marks (s : gores (store (Srv := unit) (Ctx := unit) (Stream := unit) (Rest := unit) (R := list nat))) : option (list nat) :=
  match s with Ok s => (fun h => h tt tt tt) <$> unary s !! 7 | _ => None end.

(** Two servers of one process with the same service hook its description twice, so that a
    call of either runs every hook twice: a rate limit of the framework is charged twice. *)
Example hooked_twice : marks (hooked 1) = Some [1; 2] /\ marks (hooked 2) = Some [1; 2; 1; 2].
Proof. split; vm_compute; reflexivity. Qed.

Lemma hooks_around_handlers_witness : exists s', HookServer one_method [HookWithUnaryInterceptors [mark 1; mark 2]; HookWithStreamInterceptors []] plain = Ok s' /\
  exists h', unary s' !! 7 = Some h' /\ h' tt tt tt = [1; 2].
Proof.
  destruct (hooks_around_handlers one_method [mark 1; mark 2] [] plain) as (s' & E & H & _).
  - apply NoDup_singleton.
  - apply NoDup_nil_2.
  - exists s'. split; [exact E|]. destruct (H "pkg.Greeter" "Hello" 7 (fun _ _ _ => [])) as (h' & Hh & Ht).
    + apply elem_of_cons. by left.
    + apply lookup_singleton_eq.
    + exists h'. split; [exact Hh|]. rewrite Ht. reflexivity.
Defined.

End Hooks.
