(* ===== verification/Lifecycle.v ===== *)
(** * Start and end of the process ([lifecycle/lifecycle.go], [lifecycle/option.go]).

    Hooks run in groups of equal priority, the groups one after the other, the hooks of a
    group as goroutines.  Sorting and grouping are those of [github.com/ahmetb/go-linq]: a
    parameter ([LinqOps]), with its documented behaviour as hypotheses ([LinqLaws]).  Whether
    the context of a hook expires before the hook is done is an input. *)

From stdpp Require Import sorting.
From S2P Require Import Prelude.

Open Scope list_scope.

Module Lifecycle.

Record Options := mkOptions { name : string; priority : Z; timeout : Z }.
Record hookFunc := mkHook { opts : Options; is_func : bool; fn : nat }.

Definition generateOptions (opt : list (Options -> Options)) : Options :=
  foldl (fun o f => f o) (mkOptions "" 0 10000000000) opt.
Definition WithName (n : string) (o : Options) : Options := mkOptions n (priority o) (timeout o).

(** What hooks and the process do.  [Started h ctx]: the goroutine of [h] runs under contexts
    with the timeouts [ctx], the outermost first. *)
Inductive effect :=
| Started (h : hookFunc) (ctx : list Z)
| CallHook (fn : nat)
| LogInvalid
| Finished (h : hookFunc)
| LogTimeout (h : hookFunc)
| OsExit (code : Z).

(** ** Sorting and grouping *)

Class LinqOps := {
  OrderByDescending : forall A : Type, (A -> Z) -> list A -> list A;
  GroupBy : forall A : Type, (A -> Z) -> list A -> list (Z * list A)
}.
#[global] Arguments OrderByDescending {_ _}.
#[global] Arguments GroupBy {_ _}.

(** [OrderByDescending] sorts; [GroupBy] gives one group per key that occurs, with the elements
    of that key in their order. *)
Class LinqLaws (L : LinqOps) : Prop := {
  order_perm {A} (key : A -> Z) (l : list A) : OrderByDescending key l ≡ₚ l;
  order_sorted {A} (key : A -> Z) (l : list A) : StronglySorted (fun a b => (key b <= key a)%Z) (OrderByDescending key l);
  group_keys {A} (key : A -> Z) (l : list A) : NoDup (GroupBy key l).*1;
  group_members {A} (key : A -> Z) (l : list A) k g : (k, g) ∈ GroupBy key l -> g = filter (fun x => key x = k) l;
  group_exists {A} (key : A -> Z) (l : list A) k : k ∈ (GroupBy key l).*1 <-> exists x, x ∈ l /\ key x = k
}.

Definition hook_priority (h : hookFunc) : Z := priority (opts h).

(** [int64(timeout) / 1e6]: milliseconds. *)
Definition hook_millis (h : hookFunc) : Z := Z.quot (timeout (opts h)) 1000000.

(** ** Running hooks *)

(** [hookFunc.run], the goroutine that should call the hook: it looks at the type of the
    function and is done. *)
Definition invoker (h : hookFunc) : list effect := if is_func h then [] else [LogInvalid].

(** One group: all its hooks start; those whose context does not expire finish; one whose
    context expires exits the process (of the schedules, the one in which this comes last).
    [None]: [group.Group[0]] is out of range. *)
Definition run_group (rootTimeout : Z) (expired : hookFunc -> bool) (g : Z * list hookFunc) : option (list effect * bool) :=
  match g.2 with
  | [] => None
  | first :: _ =>
      Some (((fun h => Started h [rootTimeout; timeout (opts first); timeout (opts h)]) <$> g.2) ++
            (g.2 ≫= invoker) ++ (Finished <$> filter (fun h => expired h = false) g.2) ++
            match filter (fun h => expired h = true) g.2 with [] => [] | h :: _ => [LogTimeout h; OsExit 0] end,
            existsb expired g.2)
  end.

(** The groups in turn, unless the process has exited. *)
Fixpoint run_groups (rootTimeout : Z) (expired : hookFunc -> bool) (gs : list (Z * list hookFunc)) : option (list effect * bool) :=
  match gs with
  | [] => Some ([], false)
  | g :: gs' =>
      '(es, ex) ← run_group rootTimeout expired g;
      if (ex : bool) then Some (es, true)
      else '(es', ex') ← run_groups rootTimeout expired gs'; Some (es ++ es', ex')
  end.

Section run.
Context `{L : LinqOps}.

Definition hook_groups (hooks : list hookFunc) : list (Z * list hookFunc) :=
  OrderByDescending fst (GroupBy hook_priority (OrderByDescending hook_millis hooks)).
Definition runHooks (rootTimeout : Z) (expired : hookFunc -> bool) (hooks : list hookFunc) : option (list effect * bool) :=
  run_groups rootTimeout expired (hook_groups hooks).

(** ** The life cycle *)

(** [onceInitialize] and [onceFinalize]: whether the function of the [sync.Once] ran;
    [hooksTimeout] and [finalizing] are variables of the package. *)
Record lifeCycle := mkLife {
  onceInitialize : bool; onceFinalize : bool; initializeHooks : list hookFunc; finalizeHooks : list hookFunc;
  initialized : bool; hooksTimeout : Z; finalizing : bool
}.

Definition newLifeCycle : lifeCycle := mkLife false false [] [] false 30000000000 false.

Definition IsInitialized (l : lifeCycle) : bool := initialized l.

Definition HookFinalize (l : lifeCycle) (hook : nat) (opt : list (Options -> Options)) : lifeCycle :=
  mkLife (onceInitialize l) (onceFinalize l) (initializeHooks l)
    (finalizeHooks l ++ [mkHook (generateOptions opt) true hook]) (initialized l) (hooksTimeout l) (finalizing l).

Definition Initialize (expired : hookFunc -> bool) (l : lifeCycle) (t : Z) : lifeCycle * option (list effect * bool) :=
  if onceInitialize l then (l, Some ([], false))
  else
    let ht := if (t =? 0)%Z then hooksTimeout l else t in
    (mkLife true (onceFinalize l) (initializeHooks l) (finalizeHooks l) (initialized l) ht (finalizing l),
     runHooks ht expired (initializeHooks l)).

Definition Finalize (expired : hookFunc -> bool) (l : lifeCycle) : lifeCycle * option (list effect * bool) :=
  if onceFinalize l then (l, Some ([], false))
  else
    (mkLife (onceInitialize l) true (initializeHooks l) (finalizeHooks l) (initialized l) (hooksTimeout l) true,
     runHooks (hooksTimeout l) expired (finalizeHooks l)).

Definition Exit (expired : hookFunc -> bool) (l : lifeCycle) (code : Z) : lifeCycle * option (list effect * bool) :=
  let '(l', r) := Finalize expired l in
  (l', '(es, ex) ← r; if (ex : bool) then Some (es, true) else Some (es ++ [OsExit code], true)).

End run.

(** ** Properties *)

Lemma filter_split {A} (P : A -> Prop) `{forall x, Decision (P x)} l : filter P l ++ filter (fun x => ~ P x) l ≡ₚ l.
Proof.
  induction l as [|x l IH]; [done|]. rewrite !filter_cons. destruct (decide (P x)), (decide (~ P x)); try done.
  - cbn. by f_equiv.
  - rewrite <- Permutation_middle. by f_equiv.
Qed.

Lemma filter_filter_ne (l : list hookFunc) k k' : k <> k' ->
  filter (fun h => hook_priority h = k') (filter (fun h => ~ hook_priority h = k) l) =
  filter (fun h => hook_priority h = k') l.
Proof.
  intros Hne. induction l as [|x l IH]; [done|]. rewrite !filter_cons.
  destruct (decide (hook_priority x = k)), (decide (~ hook_priority x = k)), (decide (hook_priority x = k')) eqn:E;
    rewrite ?filter_cons, ?E, ?IH; done || (exfalso; congruence).
Qed.

Lemma groups_perm ks : forall l, NoDup ks -> (forall h, h ∈ l -> hook_priority h ∈ ks) ->
  (ks ≫= fun k => filter (fun h => hook_priority h = k) l) ≡ₚ l.
Proof.
  induction ks as [|k ks IH]; intros l Hnd Hl.
  - destruct l as [|h l]; [done|]. specialize (Hl h ltac:(by left)). by apply elem_of_nil in Hl.
  - apply NoDup_cons in Hnd as [Hk Hnd]. rewrite bind_cons.
    etrans; [|apply (filter_split (fun h => hook_priority h = k) l)]. f_equiv.
    etrans; [|apply (IH (filter (fun h => ~ hook_priority h = k) l)); [done|]].
    + match goal with |- ?a ≡ₚ ?b => assert (E : a = b); [|by rewrite E] end.
      apply Forall_bind_ext, Forall_forall. intros k' Hk'. symmetry. apply filter_filter_ne. by intros ->.
    + intros h [Hne Hin]%list_elem_of_filter. specialize (Hl h Hin). apply elem_of_cons in Hl as [?|?]; done.
Qed.

Lemma strict_sorted (gs : list (Z * list hookFunc)) : NoDup gs.*1 -> StronglySorted (fun a b => (b.1 <= a.1)%Z) gs ->
  StronglySorted (fun a b => (b.1 < a.1)%Z) gs.
Proof.
  intros Hnd Hs. induction Hs as [|g gs Hs IH Hg]; [constructor|]. apply NoDup_cons in Hnd as [Hn Hnd].
  constructor; [by apply IH|]. rewrite Forall_forall in Hg |- *. intros g' Hg'. specialize (Hg g' Hg'). cbn in Hg.
  assert (g'.1 <> g.1); [|lia]. intros E. apply Hn. rewrite <- E. by apply list_elem_of_fmap_2.
Qed.

Lemma sorted_filter {A} (R : A -> A -> Prop) (P : A -> Prop) `{forall x, Decision (P x)} l :
  StronglySorted R l -> StronglySorted R (filter P l).
Proof.
  induction 1 as [|x l Hl IH Hx]; [constructor|]. rewrite filter_cons. destruct (decide (P x)); [|done].
  constructor; [done|]. rewrite Forall_forall in Hx |- *. intros y [_ Hy]%list_elem_of_filter. by apply Hx.
Qed.

(** The hooks an effect list starts, in order. *)
Definition started (es : list effect) : list hookFunc :=
  omap (fun e => match e with Started h _ => Some h | _ => None end) es.

Lemma omap_none {A B} (f : A -> option B) (l : list A) : (forall x, x ∈ l -> f x = None) -> omap f l = [].
Proof.
  induction l as [|x l IH]; intros Hl; [done|]. cbn. rewrite (Hl x) by (by left). apply IH. intros y Hy. apply Hl. by right.
Qed.

Lemma existsb_expired (expired : hookFunc -> bool) l : existsb expired l = false -> filter (fun h => expired h = false) l = l.
Proof.
  intros He. apply list_filter_all. intros h Hh. destruct (expired h) eqn:E; [|done].
  rewrite <- He. symmetry. apply existsb_exists. exists h. split; [by apply list_elem_of_In|done].
Qed.

(** What a group's run does beside starting its hooks. *)
Definition group_tail (expired : hookFunc -> bool) (g : Z * list hookFunc) : list effect :=
  (g.2 ≫= invoker) ++ (Finished <$> filter (fun h => expired h = false) g.2) ++
  match filter (fun h => expired h = true) g.2 with [] => [] | h :: _ => [LogTimeout h; OsExit 0] end.

Lemma group_tail_starts_none expired g h ctx : Started h ctx ∉ group_tail expired g.
Proof.
  unfold group_tail. rewrite !elem_of_app. intros [Hi|[Hi|Hi]].
  - apply list_elem_of_bind in Hi as (x & Hx & _). unfold invoker in Hx. destruct (is_func x); set_solver.
  - by apply list_elem_of_fmap in Hi as (x & ? & _).
  - destruct (filter _ g.2); set_solver.
Qed.

Lemma run_group_some t expired g first rest : g.2 = first :: rest ->
  run_group t expired g =
    Some (((fun h => Started h [t; timeout (opts first); timeout (opts h)]) <$> g.2) ++ group_tail expired g, existsb expired g.2).
Proof. intros E. unfold run_group, group_tail. by rewrite E. Qed.

Lemma started_app es es' : started (es ++ es') = started es ++ started es'.
Proof. apply omap_app. Qed.

Lemma started_tail expired g : started (group_tail expired g) = [].
Proof.
  apply omap_none. intros [h ctx|?| |?|?|?] Hin; try done. by apply group_tail_starts_none in Hin.
Qed.

Lemma started_starts t u l : started ((fun h => Started h [t; u; timeout (opts h)]) <$> l) = l.
Proof. induction l as [|h l IH]; [done|]. cbn. f_equal. exact IH. Qed.

Lemma existsb_app_false {A} (f : A -> bool) l l' : existsb f l = false -> existsb f (l ++ l') = existsb f l'.
Proof. intros E. by rewrite existsb_app, E. Qed.

(** One group after the other. *)
Lemma run_groups_spec t expired gs :
  StronglySorted (fun a b => (b.1 < a.1)%Z) gs ->
  Forall (fun g => g.2 <> [] /\ Forall (fun h => hook_priority h = g.1) g.2) gs ->
  exists es ex, run_groups t expired gs = Some (es, ex) /\ ex = existsb expired (gs ≫= snd) /\
    (ex = false -> started es = gs ≫= snd) /\
    (forall j h' ctx h, es !! j = Some (Started h' ctx) -> h ∈ (gs ≫= snd) -> (hook_priority h' < hook_priority h)%Z ->
       Finished h ∈ take j es) /\
    (forall h ctx, Started h ctx ∈ es -> exists g first rest, g ∈ gs /\ g.2 = first :: rest /\ h ∈ g.2 /\
       ctx = [t; timeout (opts first); timeout (opts h)]).
Proof.
  induction 1 as [|g gs Hs IH Hg]; intros Hgs.
  { exists [], false. split_and!; try done. intros h ctx Hin. by apply elem_of_nil in Hin. }
  apply Forall_cons in Hgs as [[Hne Hp] Hgs]. specialize (IH Hgs). destruct (g.2) as [|first rest] eqn:Eg; [done|].
  cbn [run_groups]. rewrite (run_group_some t expired g first rest Eg), Eg. cbn [mbind option_bind].
  set (starts := (fun h => Started h [t; timeout (opts first); timeout (opts h)]) <$> first :: rest).
  rewrite bind_cons, Eg.
  assert (Hin : forall h ctx, Started h ctx ∈ starts ++ group_tail expired g ->
    h ∈ first :: rest /\ ctx = [t; timeout (opts first); timeout (opts h)]).
  { intros h ctx [Hin|Hin]%elem_of_app; [|by apply group_tail_starts_none in Hin].
    apply list_elem_of_fmap in Hin as (x & [= -> ->] & Hx). done. }
  assert (Hhd : forall j h' ctx h, (starts ++ group_tail expired g) !! j = Some (Started h' ctx) ->
    h ∈ (first :: rest) ++ (gs ≫= snd) -> (hook_priority h' < hook_priority h)%Z -> False).
  { intros j h' ctx h Hj Hh Hlt. apply list_elem_of_lookup_2 in Hj. apply Hin in Hj as [Hj _].
    rewrite Forall_forall in Hp. pose proof (Hp h' Hj) as Hp'. apply elem_of_app in Hh as [Hh|Hh].
    - specialize (Hp h Hh). lia.
    - apply list_elem_of_bind in Hh as (g' & Hh & Hg'). rewrite Forall_forall in Hg, Hgs.
      specialize (Hg g' Hg'). destruct (Hgs g' Hg') as [_ Hp'']. rewrite Forall_forall in Hp''. specialize (Hp'' h Hh). cbn in Hg. lia. }
  destruct (existsb expired (first :: rest)) eqn:Ex.
  - exists (starts ++ group_tail expired g), true. split_and!; [done| |done| |].
    + by rewrite existsb_app, Ex.
    + intros j h' ctx h Hj Hh Hlt. exfalso. by eapply Hhd.
    + intros h ctx Hst. apply Hin in Hst as [? ?]. exists g, first, rest. rewrite Eg. split_and!; [by left|done..].
  - destruct IH as (es & ex & -> & -> & Hst & Hbar & Hctx). cbn [mbind option_bind].
    exists ((starts ++ group_tail expired g) ++ es), (existsb expired (gs ≫= snd)). split_and!; [done| | | |].
    + by rewrite existsb_app_false.
    + intros He. rewrite !started_app, started_tail, app_nil_r, Hst by done. unfold starts. by rewrite started_starts.
    + intros j h' ctx h Hj Hh Hlt. apply lookup_app_Some in Hj as [Hj|[Hlen Hj]]; [exfalso; by eapply Hhd|].
      rewrite take_app_ge by done. apply elem_of_app. apply elem_of_app in Hh as [Hh|Hh]; [left|right; by eapply Hbar].
      apply elem_of_app. right. unfold group_tail. rewrite Eg, existsb_expired by done. apply elem_of_app. right.
      apply elem_of_app. left. by apply list_elem_of_fmap_2.
    + intros h ctx [Hi|Hi]%elem_of_app.
      * apply Hin in Hi as [? ?]. exists g, first, rest. rewrite Eg. split_and!; [by left|done..].
      * destruct (Hctx h ctx Hi) as (g' & f & r & ? & ? & ? & ?). exists g', f, r. split_and!; [by right|done..].
Qed.

Section order.
Context `{L : LinqOps} {Laws : LinqLaws L}.

Lemma hook_group_in hooks g : g ∈ hook_groups hooks -> g ∈ GroupBy hook_priority (OrderByDescending hook_millis hooks).
Proof. unfold hook_groups. by rewrite (order_perm fst). Qed.

Lemma hook_group_members hooks g : g ∈ hook_groups hooks ->
  g.2 = filter (fun h => hook_priority h = g.1) (OrderByDescending hook_millis hooks).
Proof. intros Hg%hook_group_in. destruct g as [k g]. by apply (group_members hook_priority). Qed.

Lemma hook_groups_sorted hooks : StronglySorted (fun a b => (b.1 < a.1)%Z) (hook_groups hooks).
Proof.
  apply strict_sorted; [|apply order_sorted]. unfold hook_groups. rewrite (order_perm fst). apply group_keys.
Qed.

Lemma hook_groups_ok hooks :
  Forall (fun g => g.2 <> [] /\ Forall (fun h => hook_priority h = g.1) g.2) (hook_groups hooks).
Proof.
  apply Forall_forall. intros g Hg. rewrite (hook_group_members hooks g Hg). split.
  - assert (Hk : g.1 ∈ (GroupBy hook_priority (OrderByDescending hook_millis hooks)).*1)
      by (apply list_elem_of_fmap_2, hook_group_in, Hg).
    apply group_exists in Hk as (h & Hh & Ep). intros E.
    assert (Hin : h ∈ filter (fun h => hook_priority h = g.1) (OrderByDescending hook_millis hooks)) by (by apply list_elem_of_filter).
    rewrite E in Hin. by apply elem_of_nil in Hin.
  - apply Forall_forall. by intros h [? _]%list_elem_of_filter.
Qed.

Lemma hook_groups_perm hooks : (hook_groups hooks ≫= snd) ≡ₚ hooks.
Proof.
  set (l := OrderByDescending hook_millis hooks).
  assert (E : hook_groups hooks ≫= snd = (hook_groups hooks).*1 ≫= fun k => filter (fun h => hook_priority h = k) l).
  { rewrite list_fmap_bind. apply Forall_bind_ext, Forall_forall. intros g Hg. apply (hook_group_members hooks g Hg). }
  rewrite E. etrans; [apply groups_perm|apply order_perm].
  - unfold hook_groups. rewrite (order_perm fst). apply group_keys.
  - intros h Hh. unfold hook_groups. rewrite (order_perm fst). apply group_exists. by exists h.
Qed.

(** The first hook of a group has the longest timeout of its priority. *)
Lemma hook_group_first hooks g first rest h : g ∈ hook_groups hooks -> g.2 = first :: rest ->
  h ∈ hooks -> hook_priority h = g.1 -> (hook_millis h <= hook_millis first)%Z.
Proof.
  intros Hg Ef Hh Hp.
  assert (Hin : h ∈ g.2).
  { rewrite (hook_group_members hooks g Hg). apply list_elem_of_filter. split; [done|]. by rewrite (order_perm hook_millis). }
  assert (Hs : StronglySorted (fun a b => (hook_millis b <= hook_millis a)%Z) g.2).
  { rewrite (hook_group_members hooks g Hg). apply sorted_filter, order_sorted. }
  rewrite Ef in Hin, Hs. apply StronglySorted_inv in Hs as [_ Hs]. rewrite Forall_forall in Hs.
  apply elem_of_cons in Hin as [->|Hin]; [lia|by apply Hs].
Qed.

Lemma existsb_perm {A} (f : A -> bool) l l' : l ≡ₚ l' -> existsb f l = existsb f l'.
Proof.
  intros Hl. apply eq_true_iff_eq. rewrite !existsb_exists. setoid_rewrite <- list_elem_of_In.
  split; intros (x & Hx & E); exists x; (split; [|done]); [by rewrite <- Hl|by rewrite Hl].
Qed.

(** The order of hooks.  [runHooks] never panics.  The process exits exactly when the
    context of some hook expires, and otherwise every hook is started once.  A hook starts
    only after all hooks of higher priority have finished, so none of lower priority starts
    when one forces the exit.  Each hook runs under the timeout of the whole run, its own,
    and that of a hook of its priority with the longest timeout (in milliseconds). *)
Theorem hooks_in_order (rootTimeout : Z) (expired : hookFunc -> bool) (hooks : list hookFunc) :
  exists es ex, runHooks rootTimeout expired hooks = Some (es, ex) /\ ex = existsb expired hooks /\
    (ex = false -> started es ≡ₚ hooks) /\
    (forall j h' ctx h, es !! j = Some (Started h' ctx) -> h ∈ hooks -> (hook_priority h' < hook_priority h)%Z ->
       Finished h ∈ take j es) /\
    (forall h ctx, Started h ctx ∈ es -> h ∈ hooks /\ exists first, first ∈ hooks /\ hook_priority first = hook_priority h /\
       ctx = [rootTimeout; timeout (opts first); timeout (opts h)] /\
       forall h', h' ∈ hooks -> hook_priority h' = hook_priority h -> (hook_millis h' <= hook_millis first)%Z).
Proof.
  pose proof (hook_groups_perm hooks) as Hperm.
  destruct (run_groups_spec rootTimeout expired (hook_groups hooks) (hook_groups_sorted hooks) (hook_groups_ok hooks))
    as (es & ex & Hrun & Hex & Hst & Hbar & Hctx).
  exists es, ex. split_and!; [done| | | |].
  - by rewrite Hex, (existsb_perm _ _ _ Hperm).
  - intros He. by rewrite (Hst He).
  - intros j h' ctx h Hj Hh. apply (Hbar j h' ctx h Hj). by rewrite Hperm.
  - intros h ctx Hs. destruct (Hctx h ctx Hs) as (g & first & rest & Hg & Ef & Hh & ->).
    assert (Hof : forall x, x ∈ g.2 -> x ∈ hooks /\ hook_priority x = g.1).
    { intros x Hx. rewrite (hook_group_members hooks g Hg) in Hx. apply list_elem_of_filter in Hx as [Hp Hx].
      split; [by rewrite (order_perm hook_millis) in Hx|done]. }
    destruct (Hof h Hh) as [Hin Hp]. split; [done|]. exists first.
    destruct (Hof first ltac:(rewrite Ef; by left)) as [Hf Hpf]. split_and!; [done|congruence|done|].
    intros h' Hh' Hp'. apply (hook_group_first hooks g first rest); [done..|congruence].
Qed.

End order.

(** ** A concrete [linq] *)

Fixpoint insert_desc {A} (key : A -> Z) (x : A) (l : list A) : list A :=
  match l with
  | [] => [x]
  | y :: l' => if (key x <? key y)%Z then y :: insert_desc key x l' else x :: l
  end.
#[export] Instance list_linq : LinqOps := {|
  OrderByDescending A key l := foldr (insert_desc key) [] l;
  GroupBy A key l := (fun k => (k, filter (fun x => key x = k) l)) <$> remove_dups (key <$> l)
|}.

Lemma insert_desc_perm {A} (key : A -> Z) x l : insert_desc key x l ≡ₚ x :: l.
Proof.
  induction l as [|y l IH]; cbn; [done|]. destruct (_ <? _)%Z; [|done]. rewrite IH. apply Permutation_swap.
Qed.

Lemma insert_desc_sorted {A} (key : A -> Z) x l :
  StronglySorted (fun a b => (key b <= key a)%Z) l -> StronglySorted (fun a b => (key b <= key a)%Z) (insert_desc key x l).
Proof.
  induction 1 as [|y l Hl IH Hy]; cbn; [repeat constructor|]. destruct (Z.ltb_spec (key x) (key y)).
  - constructor; [done|]. rewrite insert_desc_perm. constructor; [lia|done].
  - constructor; [by constructor|]. constructor; [lia|]. eapply Forall_impl; [exact Hy|]. cbn. lia.
Qed.

Lemma list_group_keys {A} (key : A -> Z) l : (GroupBy key l).*1 = remove_dups (key <$> l).
Proof. cbn. rewrite <- list_fmap_compose. rewrite (list_fmap_ext _ id) by done. apply list_fmap_id. Qed.

#[export] Instance list_linq_laws : LinqLaws list_linq.
Proof.
  split.
  - intros A key l. cbn. induction l as [|x l IH]; cbn; [done|]. rewrite insert_desc_perm. by f_equiv.
  - intros A key l. cbn. induction l as [|x l IH]; cbn; [constructor|]. by apply insert_desc_sorted.
  - intros A key l. rewrite list_group_keys. apply NoDup_remove_dups.
  - intros A key l k g Hin. cbn in Hin. by apply list_elem_of_fmap in Hin as (k' & [= -> ->] & _).
  - intros A key l k. rewrite list_group_keys, elem_of_remove_dups, list_elem_of_fmap. naive_solver.
Qed.

Definition example_hook (p t : Z) (f : nat) : hookFunc := mkHook (mkOptions "" p t) true f.

Lemma hooks_in_order_witness :
  exists es, runHooks 30 (fun h => bool_decide (fn h = 2))
      [example_hook 0 5000000 1; example_hook 1 5000000 2; example_hook 2 1000000 3; example_hook 2 9000000 4] = Some (es, true).
Proof.
  destruct (hooks_in_order 30 (fun h => bool_decide (fn h = 2))
    [example_hook 0 5000000 1; example_hook 1 5000000 2; example_hook 2 1000000 3; example_hook 2 9000000 4])
    as (es & ex & Hr & Hex & _).
  exists es. rewrite Hr, Hex. reflexivity.
Defined.

(** Hooks of different priorities, one of which does not finish in time. *)
Example hooks_run : runHooks 30 (fun h => bool_decide (fn h = 2))
    [example_hook 0 5000000 1; example_hook 1 5000000 2; example_hook 2 1000000 3; example_hook 2 9000000 4] =
  Some ([Started (example_hook 2 9000000 4) [30; 9000000; 9000000]%Z; Started (example_hook 2 1000000 3) [30; 9000000; 1000000]%Z;
         Finished (example_hook 2 9000000 4); Finished (example_hook 2 1000000 3);
         Started (example_hook 1 5000000 2) [30; 5000000; 5000000]%Z; LogTimeout (example_hook 1 5000000 2); OsExit 0], true).
Proof. vm_compute. reflexivity. Qed.

Lemma run_groups_no_call t expired f gs : forall es ex, run_groups t expired gs = Some (es, ex) -> CallHook f ∉ es.
Proof.
  induction gs as [|g gs IH]; intros es ex Hr; cbn [run_groups] in Hr; [injection Hr as <- <-; apply not_elem_of_nil|].
  destruct (g.2) as [|first rest] eqn:Eg; [unfold run_group in Hr; by rewrite Eg in Hr|].
  rewrite (run_group_some t expired g first rest Eg) in Hr. cbn [mbind option_bind] in Hr.
  assert (Hg : CallHook f ∉ ((fun h => Started h [t; timeout (opts first); timeout (opts h)]) <$> g.2) ++ group_tail expired g).
  { unfold group_tail. rewrite !elem_of_app, !list_elem_of_fmap, list_elem_of_bind. unfold invoker.
    intros [(? & ? & _)|[(x & Hx & _)|[(? & ? & _)|Hx]]]; try done; [destruct (is_func x); set_solver|].
    destruct (filter _ g.2); set_solver. }
  destruct (existsb expired g.2); [by injection Hr as <- <-|].
  destruct (run_groups t expired gs) as [[es' ex']|]; [|done]. cbn in Hr. injection Hr as <- <-.
  apply not_elem_of_app. split; [exact Hg|by eapply IH].
Qed.

(** hooks are never called.  Neither initializing nor finalizing calls any hook
    function, whatever hooks are registered and however they are ordered: the goroutine that
    should call a hook only looks at its type. *)
Theorem hooks_never_called `{L : LinqOps} (expired : hookFunc -> bool) (l : lifeCycle) (t : Z) (f : nat) :
  let calls r := match r with Some (es, _) => CallHook f ∈ es | None => False end in
  ~ calls (Initialize expired l t).2 /\ ~ calls (Finalize expired l).2.
Proof.
  intros calls. assert (Hn : forall ht hooks, ~ calls (runHooks ht expired hooks)).
  { intros ht hooks. unfold calls. destruct (runHooks ht expired hooks) as [[es ex]|] eqn:Er; [|by intros []].
    by eapply run_groups_no_call. }
  unfold Initialize, Finalize. destruct (onceInitialize l), (onceFinalize l); cbn [snd]; split; try apply Hn; apply not_elem_of_nil.
Qed.

End Lifecycle.
