(* ===== verification/Logging.v ===== *)
(** * Logging ([log/]).

    Levels, entries derived from one another, the text encoder, the search for the caller of a
    log function, and the loggers of the package.  What a log call does to the outside world is
    a list of events; calls of [fmt.Sprintf] and the format of times are parameters, values in
    fields carry their text. *)

From Stdlib Require Import Ascii.
From S2P Require Import Prelude GoInt GoStrings Value.

Open Scope string_scope.
Open Scope list_scope.

(** ** Levels ([log/level/level.go]); [Level] is a [uint32] *)

Module Level.

Notation Level := Z.

Definition TraceLevel : Level := 0.
Definition DebugLevel : Level := 1.
Definition InfoLevel : Level := 2.
Definition WarnLevel : Level := 3.
Definition ErrorLevel : Level := 4.
Definition FatalLevel : Level := 5.
Definition LevelNone : Level := 6.

Definition String (level : Level) : string :=
  if (level =? DebugLevel)%Z then "DEBUG" else
  if (level =? InfoLevel)%Z then "INFO" else
  if (level =? WarnLevel)%Z then "WARN" else
  if (level =? ErrorLevel)%Z then "ERROR" else
  if (level =? FatalLevel)%Z then "FATAL" else
  if (level =? TraceLevel)%Z then "TRACE" else
  if (level =? LevelNone)%Z then "NONE" else "UNKNOWN".

(** The level comes with the error. *)
Definition ParseLevel (level : string) : Level * option string :=
  let l := ToLower level in
  if decide (l = "info") then (InfoLevel, None) else
  if decide (l = "warn") then (WarnLevel, None) else
  if decide (l = "error") then (ErrorLevel, None) else
  if decide (l = "trace") then (TraceLevel, None) else
  if decide (l = "none") then (LevelNone, None) else
  if decide (l = "debug") then (DebugLevel, None) else
  (LevelNone, Some ("unknown error level " +:+ level)).

(** The name of every level but [FATAL] is parsed as that level. *)
Lemma parse_name (l : Level) : (0 <= l <= 6)%Z ->
  ParseLevel (String l) = if (l =? FatalLevel)%Z then (LevelNone, Some "unknown error level FATAL") else (l, None).
Proof.
  intros Hl. assert (l = 0 \/ l = 1 \/ l = 2 \/ l = 3 \/ l = 4 \/ l = 5 \/ l = 6)%Z as Hc by lia.
  destruct Hc as [->|[->|[->|[->|[->|[->| ->]]]]]]; vm_compute; reflexivity.
Qed.

(** A number that is no level has a name of its own, which is not parsed. *)
Lemma parse_unknown (l : Level) : (6 < l)%Z -> String l = "UNKNOWN" /\ (ParseLevel (String l)).2 = Some "unknown error level UNKNOWN".
Proof.
  intros Hl. unfold String, TraceLevel, DebugLevel, InfoLevel, WarnLevel, ErrorLevel, FatalLevel, LevelNone.
  do 7 (match goal with |- context [(?a =? ?b)%Z] => destruct (Z.eqb_spec a b); [lia|] end). done.
Qed.

End Level.

(** ** Callers ([log/caller.go]) *)

Module Caller.

Record Frame := mkFrame { Function : string; File : string; Line : Z }.

(** What [runtime.Callers] and [runtime.FuncForPC] find: the name of the first function, and
    the frames. *)
Record Stack := mkStack { top_name : string; frames : list Frame }.

Definition funcSkips : list string :=
  ["Trace"; "Debug"; "Info"; "Warn"; "Error"; "Fatal"; "Tracef"; "Debugf"; "Infof"; "Warnf"; "Errorf"; "Fatalf";
   "Infoln"; "Warningln"; "Warningf"; "Errorln"; "Fatalln"].

(** The comparison of two results of [LastIndex], -1 being the smallest. *)
Definition index_gt (a b : option nat) : bool :=
  match a, b with
  | Some i, Some j => (j <? i)%nat
  | Some _, None => true
  | None, _ => false
  end.

(** Every round makes the string shorter, so its length is fuel enough. *)
Fixpoint package_loop (fuel : nat) (p : string) : string :=
  match fuel with
  | O => p
  | S fuel =>
      let lastPeriod := LastIndex p "." in
      if index_gt lastPeriod (LastIndex p "/") then package_loop fuel (stake (default 0 lastPeriod) p) else p
  end.
Definition GetPackageName (p : string) : string := package_loop (S (String.length p)) p.

Definition compactFunctionName (funcName : string) : string :=
  match LastIndex funcName "." with
  | None => funcName
  | Some lastPeriod => if (String.length funcName <=? lastPeriod + 1)%nat then funcName else sdrop (lastPeriod + 1) funcName
  end.

Definition skipped (packageName : string) (skipLogFunc : bool) (f : Frame) : bool :=
  bool_decide (GetPackageName (Function f) = packageName) ||
  (skipLogFunc && bool_decide (compactFunctionName (Function f) ∈ funcSkips)).

(** [frames.Next] says with a frame whether another one follows, and the loop ends when none does. *)
Fixpoint search (packageName : string) (skipLogFunc : bool) (fs : list Frame) : option Frame :=
  match fs with
  | [] | [_] => None
  | f :: fs => if skipped packageName skipLogFunc f then search packageName skipLogFunc fs else Some f
  end.

(** The name of the package is found once, by the first call. *)
Definition GetCaller (packageName : option string) (st : Stack) (skipLogFunc : bool) : option string * option Frame :=
  let name := default (GetPackageName (top_name st)) packageName in
  (Some name, search name skipLogFunc (take 10 (frames st))).

(** The caller is the first frame that is not skipped and has a frame after it. *)
Lemma search_spec name b fs f : search name b fs = Some f <->
  exists before after, fs = before ++ f :: after /\ after <> [] /\ skipped name b f = false /\ Forall (fun g => skipped name b g = true) before.
Proof.
  split.
  - induction fs as [|g [|g' fs] IH]; [done..|]. cbn -[skipped]. destruct (skipped name b g) eqn:Es.
    + intros H. destruct (IH H) as (before & after & E & Ha & Hs & Hb). exists (g :: before), after. rewrite E. split_and!; [done..|]. by constructor.
    + intros [= ->]. by exists [], (g' :: fs).
  - intros (before & after & -> & Ha & Hs & Hb). induction Hb as [|g before Hg Hb IH].
    + destruct after as [|g' after]; [done|]. cbn -[skipped]. by rewrite Hs.
    + destruct (before ++ f :: after) as [|g' rest] eqn:E; [by destruct before|]. cbn -[skipped search app] in *.
      change ((g :: before) ++ f :: after) with (g :: (before ++ f :: after)). rewrite E. cbn -[skipped]. by rewrite Hg.
Qed.

(** *** The name of a package *)

Lemma LastIndex_bound s c i : LastIndex s c = Some i -> i < String.length s.
Proof.
  revert i. induction s as [|a s IH]; intros i; simpl; [done|]. destruct (LastIndex s c) as [j|] eqn:E.
  - intros [= <-]. specialize (IH _ eq_refl). lia.
  - case_decide; [|done]. intros [= <-]. lia.
Qed.

Lemma stake_length n s : n <= String.length s -> String.length (stake n s) = n.
Proof. revert s. induction n as [|n IH]; intros [|a s] Hn; simpl in *; [done..|lia|]. rewrite IH; lia. Qed.

Lemma package_loop_enough fuel fuel' p : String.length p < fuel -> String.length p < fuel' -> package_loop fuel p = package_loop fuel' p.
Proof.
  revert fuel' p. induction fuel as [|fuel IH]; intros [|fuel'] p H1 H2; [lia..|]. cbn [package_loop].
  destruct (index_gt _ _) eqn:E; [|done]. destruct (LastIndex p ".") as [i|] eqn:Hi; [|done].
  apply LastIndex_bound in Hi. cbn. apply IH; rewrite stake_length; lia.
Qed.

(** The loop of the code, as an equation. *)
Lemma GetPackageName_eq p : GetPackageName p =
  if index_gt (LastIndex p ".") (LastIndex p "/") then GetPackageName (stake (default 0 (LastIndex p ".")) p) else p.
Proof.
  unfold GetPackageName at 1. cbn [package_loop]. destruct (index_gt _ _) eqn:E; [|done].
  destruct (LastIndex p ".") as [i|] eqn:Hi; [|done]. apply LastIndex_bound in Hi. change (default 0 (Some i)) with i.
  unfold GetPackageName. apply package_loop_enough; rewrite stake_length; lia.
Qed.

(** The result has no period after its last slash. *)
Lemma package_loop_done fuel p : String.length p < fuel ->
  index_gt (LastIndex (package_loop fuel p) ".") (LastIndex (package_loop fuel p) "/") = false.
Proof.
  revert p. induction fuel as [|fuel IH]; intros p Hp; [lia|]. cbn [package_loop].
  destruct (index_gt (LastIndex p ".") (LastIndex p "/")) eqn:E; [|done]. destruct (LastIndex p ".") as [i|] eqn:Hi; [|done].
  apply LastIndex_bound in Hi. cbn. apply IH. rewrite stake_length; lia.
Qed.

Lemma GetPackageName_idemp p : GetPackageName (GetPackageName p) = GetPackageName p.
Proof.
  assert (Hd := package_loop_done (S (String.length p)) p ltac:(lia)).
  rewrite (GetPackageName_eq (GetPackageName p)). unfold GetPackageName at 1 2. by rewrite Hd.
Qed.

Lemma LastIndex_app s s' c : LastIndex (s +:+ s') c =
  match LastIndex s' c with Some i => Some (String.length s + i) | None => LastIndex s c end.
Proof.
  induction s as [|a s IH].
  - change ("" +:+ s') with s'. change (LastIndex "" c) with (@None nat). destruct (LastIndex s' c); done.
  - change (String a s +:+ s') with (String a (s +:+ s')). cbn [LastIndex String.length]. rewrite IH. by destruct (LastIndex s' c).
Qed.

Lemma last_after dir rest c : contains_char c rest = false -> LastIndex (dir +:+ String c rest) c = Some (String.length dir).
Proof.
  intros Hc. rewrite LastIndex_app. cbn [LastIndex]. rewrite (LastIndex_free _ _ Hc), decide_True by done. f_equal. lia.
Qed.

Lemma last_before dir rest c : contains_char c rest = false -> LastIndex (dir +:+ rest) c = LastIndex dir c.
Proof. intros Hc. by rewrite LastIndex_app, (LastIndex_free _ _ Hc). Qed.

Lemma package_stop dir pkg : contains_char "." pkg = false -> contains_char "/" pkg = false ->
  GetPackageName (dir +:+ String "/" pkg) = dir +:+ String "/" pkg.
Proof.
  intros Hp Hs. rewrite GetPackageName_eq, (last_after _ _ _ Hs), last_before by done.
  destruct (LastIndex dir ".") as [i|] eqn:Hi; [|done]. apply LastIndex_bound in Hi. cbn [index_gt].
  by destruct (Nat.ltb_spec (String.length dir) i); [lia|].
Qed.

(** The package of a function is what stands before the first period after the last slash. *)
Lemma package_of_function dir pkg rest : contains_char "." pkg = false -> contains_char "/" pkg = false -> contains_char "/" rest = false ->
  GetPackageName ((dir +:+ String "/" pkg) +:+ String "." rest) = dir +:+ String "/" pkg.
Proof.
  intros Hp Hs. remember (String.length rest) as n eqn:Hn. revert rest Hn.
  induction (lt_wf n) as [n _ IH]. intros rest -> Hr. set (base := dir +:+ String "/" pkg) in *.
  assert (Hslash : LastIndex (base +:+ String "." rest) "/" = Some (String.length dir)).
  { unfold base. rewrite last_before by (cbn; exact Hr). by apply last_after. }
  assert (Hlen : String.length dir < String.length base) by (unfold base; rewrite length_string_app; simpl; lia).
  rewrite GetPackageName_eq, Hslash. destruct (LastIndex rest ".") as [i|] eqn:Hi.
  - pose proof (LastIndex_bound _ _ _ Hi) as Hb. rewrite (LastIndex_app base). cbn [LastIndex]. rewrite Hi.
    cbn [index_gt]. destruct (Nat.ltb_spec (String.length dir) (String.length base + S i)); [|lia].
    change (default 0 (Some ?x)) with x. assert (E : rest = stake i rest +:+ sdrop i rest) by (symmetry; apply stake_sdrop).
    assert (Hcut : stake (String.length base + S i) (base +:+ String "." rest) = base +:+ String "." (stake i rest)).
    { rewrite E at 1. change (String "." (stake i rest +:+ sdrop i rest)) with (String "." (stake i rest) +:+ sdrop i rest).
      rewrite <- string_app_assoc. replace (String.length base + S i) with (String.length (base +:+ String "." (stake i rest))).
      - apply stake_app.
      - rewrite length_string_app. cbn [String.length]. rewrite stake_length by lia. done. }
    rewrite Hcut. apply (IH i); [done|by rewrite stake_length by lia|].
    rewrite E, contains_char_app in Hr. by destruct (contains_char "/" (stake i rest)).
  - assert (Hper : LastIndex (base +:+ String "." rest) "." = Some (String.length base)).
    { rewrite LastIndex_app. cbn [LastIndex]. rewrite Hi, decide_True by done. f_equal. lia. }
    rewrite Hper. cbn [index_gt]. destruct (Nat.ltb_spec (String.length dir) (String.length base)); [|lia].
    change (default 0 (Some ?x)) with x. rewrite stake_app. by apply package_stop.
Qed.

End Caller.

(** ** Entries and loggers *)

Module Logging.
Import Level Caller.

(** Operands and values of fields; a value that is neither a string nor an integer carries
    what [%v] makes of it. *)
Inductive value := VString (s : string) | VInt (n : Z) | VOther (text : string).
Definition is_string (v : value) : bool := match v with VString _ => true | _ => false end.
Definition text (v : value) : string :=
  match v with VString s => s | VInt n => Value.FormatInt n | VOther t => t end.

(** [fmt.Sprint]: a space between operands when neither is a string. *)
Fixpoint Sprint_from (prevString : bool) (args : list value) : string :=
  match args with
  | [] => ""
  | v :: args => (if prevString || is_string v then "" else " ") +:+ text v +:+ Sprint_from (is_string v) args
  end.
Definition Sprint (args : list value) : string :=
  match args with [] => "" | v :: args => text v +:+ Sprint_from (is_string v) args end.

(** [fields.Field], [entry.Entry] *)
Record Field := mkField { K : string; V : value }.
Record Entry (Time : Type) := mkLogEntry {
  Fields : list Field; entry_Time : Time; entry_Level : Level; entry_Caller : option Frame; Msg : string
}.
Arguments mkLogEntry {_}. Arguments Fields {_}. Arguments entry_Time {_}. Arguments entry_Level {_}.
Arguments entry_Caller {_}. Arguments Msg {_}.

(** What happens outside: output, closed writers, cancelled watches, the end of the process. *)
Inductive file := Stdout | Stderr.
Inductive event := Printed (f : file) (line : string) | Wrote (id : nat) (line : string) | Closed (id : nat) | Cancelled (id : nat) | Exits (code : Z).

(** [writer.Writer]; the errors of both methods are dropped by their callers. *)
Record Writer := mkWriter { Write : string -> list event; CloseWriter : list event }.

(** [writer.ConsoleWriter]: both branches take standard output. *)
Definition NewConsoleWriter (stdout : bool) : file := if stdout then Stdout else Stdout.
Definition console (f : file) : Writer := mkWriter (fun bytes => [Printed f bytes]) [].

Definition nil_dereference {A} : gores A := Panic "runtime error: invalid memory address or nil pointer dereference".

Section logging.
Context {Ctx Conf Time : Type} (Sprintf : string -> list value -> string) (Format : Time -> string)
  (ctxFieldProviders : list (Ctx -> list Field)).

Definition Encoder : Type := Entry Time -> gores string.

(** *** [encoder/simaple_text_encoder.go] *)

(** The second result of [filepath.Split]. *)
Definition file_name (path : string) : string :=
  match LastIndex path "/" with Some i => sdrop (i + 1) path | None => path end.

Definition field_text (f : Field) : string := K f +:+ ":" +:+ text (V f).

Definition Encode (sep : string) (withFixedParts : bool) : Encoder := fun e =>
  fixed ← (if withFixedParts then
             match entry_Caller e with
             | None => nil_dereference
             | Some c => Ok [Format (entry_Time e); "[" +:+ Level.String (entry_Level e) +:+ "]";
                             "<" +:+ file_name (File c) +:+ ":" +:+ Value.FormatInt (Line c) +:+ ">"]
             end
           else Ok []);
  Ok (Join (fixed ++ (field_text <$> Fields e) ++ ["msg:" +:+ Msg e]) sep).

(** *** [option.go], [logger.go] *)

(** [minLevelOp] is the level its closure sets. *)
Record Options := mkOptions { opt_encoder : option Encoder; opt_writer : option Writer; minLevelOp : option Level }.
Definition Option : Type := Options -> gores Options.

Definition WithEncoder (e : option Encoder) : Option := fun opts => Ok (mkOptions e (opt_writer opts) (minLevelOp opts)).
Definition WithWriter (w : option Writer) : Option := fun opts => Ok (mkOptions (opt_encoder opts) w (minLevelOp opts)).
Definition WithMinLevel (minLevel : Level) : Option := fun opts => Ok (mkOptions (opt_encoder opts) (opt_writer opts) (Some minLevel)).

(** *** [entry.go]; nobody writes through [minLevel] and [interval], so their values are kept *)

Record LEntry := mkEntry {
  logger : Options; ctx : option Ctx; config : option Conf; minLevel : Level; interval : Z; cancel : list nat; fields : list Field
}.

Definition newEntry (logger : Options) : LEntry := mkEntry logger None None TraceLevel 0 [] [].

Definition isLevelEnabled (s : LEntry) (l : Level) : bool := (l =? FatalLevel)%Z || (minLevel s <=? l)%Z.

(** A logger is an interface, [None] for nil. *)
Definition WithConfig (s : LEntry) (c : option Conf) : option LEntry := match c with None => Some s | Some _ => None end.
Definition WithRateLimit (s : LEntry) (i : Z) : LEntry := mkEntry (logger s) (ctx s) (config s) (minLevel s) i [] ([] ++ fields s).
Definition WithLevel (c : LEntry) (l : Level) : LEntry := mkEntry (logger c) (ctx c) (config c) (wrapU 32 l) (interval c) [] ([] ++ fields c).
Definition WithFields (c : LEntry) (fs : list Field) : LEntry :=
  mkEntry (logger c) (ctx c) (config c) (minLevel c) (interval c) [] (([] ++ fields c) ++ fs).
Definition WithField (c : LEntry) (key : string) (v : value) : LEntry := WithFields c [mkField key v].
Definition WithContext (c : LEntry) (x : option Ctx) : LEntry :=
  mkEntry (logger c) x (config c) (minLevel c) (interval c) [] ([] ++ fields c).

Definition LogLevel (c : LEntry) : Level := minLevel c.
Definition isRateLimited (s : LEntry) : bool := if (interval s =? 0)%Z then false else false.

(** [_Logger.Close], [_Entry.Close] *)
Definition logger_Close (o : Options) : list event := match opt_writer o with Some w => CloseWriter w | None => [] end.
Definition Close (c : LEntry) : list event := (Cancelled <$> cancel c) ++ logger_Close (logger c).

(** What a log call finds: the name of the package as far as it is known, the stack, the time.
    It leaves the name of the package. *)
Record world := mkWorld { packageName : option string; stack : Stack; now : Time }.
Definition outcome : Type := option string * gores (list event).

Definition log_message (s : LEntry) (l : Level) (msg : string) (w : world) : outcome :=
  let (name, caller) := GetCaller (packageName w) (stack w) true in
  (name,
   if isRateLimited s then Ok []
   else
     let fs := match ctx s with Some c => foldl (fun fs p => fs ++ p c) (fields s) ctxFieldProviders | None => fields s end in
     match opt_encoder (logger s) with
     | None => nil_dereference
     | Some encode =>
         match encode (mkLogEntry fs (now w) l caller msg) with
         | Ok marshaled =>
             if (0 <? String.length marshaled)%nat then
               match opt_writer (logger s) with Some wr => Ok (Write wr marshaled) | None => nil_dereference end
             else Ok []
         | Err _ => Ok []
         | Panic m => Panic m
         end
     end).
Definition logF (s : LEntry) (l : Level) (format : string) (args : list value) : world -> outcome := log_message s l (Sprintf format args).
Definition log (s : LEntry) (l : Level) (args : list value) : world -> outcome := log_message s l (Sprint args).

(** A call that is not logged looks for no caller. *)
Definition unlogged (w : world) : outcome := (packageName w, Ok []).
Definition exit_after (o : outcome) : outcome := (o.1, es ← o.2; Ok (es ++ [Exits 1])).

Definition Fatal (s : LEntry) (args : list value) (w : world) : outcome :=
  exit_after (if isLevelEnabled s FatalLevel then log s FatalLevel args w else unlogged w).
Definition Info (s : LEntry) (args : list value) (w : world) : outcome :=
  if negb (isLevelEnabled s InfoLevel) then unlogged w else log s InfoLevel args w.
Definition Trace (s : LEntry) (args : list value) (w : world) : outcome :=
  if negb (isLevelEnabled s TraceLevel) then unlogged w else log s TraceLevel args w.
Definition Warn (s : LEntry) (args : list value) (w : world) : outcome :=
  if negb (isLevelEnabled s WarnLevel) then unlogged w else log s WarnLevel args w.
Definition Debug (s : LEntry) (args : list value) (w : world) : outcome :=
  if negb (isLevelEnabled s DebugLevel) then unlogged w else log s DebugLevel args w.
Definition Error (s : LEntry) (args : list value) (w : world) : outcome :=
  if negb (isLevelEnabled s ErrorLevel) then unlogged w else log s ErrorLevel args w.
Definition Errorf (s : LEntry) (format : string) (args : list value) (w : world) : outcome :=
  if negb (isLevelEnabled s ErrorLevel) then unlogged w else logF s ErrorLevel format args w.
Definition Warnf (s : LEntry) (format : string) (args : list value) (w : world) : outcome :=
  if negb (isLevelEnabled s WarnLevel) then unlogged w else logF s WarnLevel format args w.
Definition Fatalf (s : LEntry) (format : string) (args : list value) (w : world) : outcome :=
  exit_after (if isLevelEnabled s FatalLevel then logF s FatalLevel format args w else unlogged w).
Definition Infof (s : LEntry) (format : string) (args : list value) (w : world) : outcome :=
  if negb (isLevelEnabled s InfoLevel) then unlogged w else logF s InfoLevel format args w.
Definition Tracef (s : LEntry) (format : string) (args : list value) (w : world) : outcome :=
  if negb (isLevelEnabled s TraceLevel) then unlogged w else logF s TraceLevel format args w.
Definition Debugf (s : LEntry) (format : string) (args : list value) (w : world) : outcome :=
  if negb (isLevelEnabled s DebugLevel) then unlogged w else logF s DebugLevel format args w.

Definition logger_WithConfig (o : Options) (c : option Conf) : option LEntry := WithConfig (newEntry o) c.
Definition logger_WithField (o : Options) (key : string) (v : value) : LEntry := WithField (newEntry o) key v.
Definition logger_Debugf (o : Options) (format : string) (args : list value) : world -> outcome := Debugf (newEntry o) format args.

(** [global] is [config.GlobalConfig()]. *)
Definition NewLogger (global : option Conf) (opts : list Option) : gores (option LEntry) :=
  o ← foldl (fun r opt => r ≫= opt) (Ok (mkOptions None None None)) opts;
  match opt_encoder o, opt_writer o with
  | None, _ => Err "no log encoder available"
  | _, None => Err "no log writer available"
  | _, _ =>
      let l := logger_WithConfig o global in
      match minLevelOp o with
      | None => Ok l
      | Some m => match l with Some e => Ok (Some (WithLevel e m)) | None => nil_dereference end
      end
  end.

(** *** [console_logger.go], [log.go], [export.go] *)

Definition NewConsoleLogger (global : option Conf) (stdout : bool) : gores (option LEntry) :=
  NewLogger global [WithEncoder (Some (Encode " " true)); WithWriter (Some (console (NewConsoleWriter stdout)))].

(** [initialized] is the flag of the life cycle. *)
Definition DefaultLogger (initialized : bool) (global : option Conf) : gores (option LEntry) :=
  if initialized then Ok None
  else match NewConsoleLogger global true with Err _ => Ok None | r => r end.

(** The functions of the package call a method of the default logger. *)
Definition with_default {A} (initialized : bool) (global : option Conf) (f : LEntry -> A) : gores A :=
  l ← DefaultLogger initialized global; match l with Some e => Ok (f e) | None => nil_dereference end.

Definition package_call (initialized : bool) (global : option Conf) (method : LEntry -> world -> outcome) (w : world) : outcome :=
  match with_default initialized global (fun e => method e w) with
  | Ok o => o | Err m => (packageName w, Err m) | Panic m => (packageName w, Panic m)
  end.

(** [export.go]: every function is a method of the default logger. *)
Section export.
Context (initialized : bool) (global : option Conf).

Definition pkg_WithContext (x : option Ctx) : gores LEntry := with_default initialized global (fun e => WithContext e x).
Definition pkg_WithConfig (c : option Conf) : gores (option LEntry) := with_default initialized global (fun e => WithConfig e c).
Definition pkg_LogLevel : gores Level := with_default initialized global LogLevel.
Definition pkg_WithField (key : string) (v : value) : gores LEntry := with_default initialized global (fun e => WithField e key v).
Definition pkg_WithFields (fs : list Field) : gores LEntry := with_default initialized global (fun e => WithFields e fs).
Definition pkg_WithLevel (l : Level) : gores LEntry := with_default initialized global (fun e => WithLevel e l).
Definition pkg_WithRateLimit (i : Z) : gores LEntry := with_default initialized global (fun e => WithRateLimit e i).
Definition pkg_Debug (args : list value) : world -> outcome := package_call initialized global (fun e => Debug e args).
Definition pkg_Warn (args : list value) : world -> outcome := package_call initialized global (fun e => Warn e args).
Definition pkg_Info (args : list value) : world -> outcome := package_call initialized global (fun e => Info e args).
Definition pkg_Fatal (args : list value) : world -> outcome := package_call initialized global (fun e => Fatal e args).
Definition pkg_Error (args : list value) : world -> outcome := package_call initialized global (fun e => Error e args).
Definition pkg_Fatalf (format : string) (args : list value) : world -> outcome := package_call initialized global (fun e => Fatalf e format args).
Definition pkg_Warnf (format : string) (args : list value) : world -> outcome := package_call initialized global (fun e => Warnf e format args).
Definition pkg_Errorf (format : string) (args : list value) : world -> outcome := package_call initialized global (fun e => Errorf e format args).
Definition pkg_Infof (format : string) (args : list value) : world -> outcome := package_call initialized global (fun e => Infof e format args).
Definition pkg_Debugf (format : string) (args : list value) : world -> outcome := package_call initialized global (fun e => Debugf e format args).

End export.

(** ** What a derived logger writes *)

(** The ways to derive a logger, and what they come to. *)
Inductive derivation := ByContext (x : option Ctx) | ByFields (fs : list Field) | ByField (key : string) (v : value) | ByLevel (l : Level) | ByRateLimit (i : Z).
Definition derive (e : LEntry) (d : derivation) : LEntry :=
  match d with
  | ByContext x => WithContext e x
  | ByFields fs => WithFields e fs
  | ByField key v => WithField e key v
  | ByLevel l => WithLevel e l
  | ByRateLimit i => WithRateLimit e i
  end.
Definition derived (e : LEntry) (ds : list derivation) : LEntry := foldl derive e ds.

Definition added_fields (d : derivation) : list Field :=
  match d with ByFields fs => fs | ByField key v => [mkField key v] | _ => [] end.
Definition set_level (d : derivation) : option Level := match d with ByLevel l => Some (wrapU 32 l) | _ => None end.
Definition set_context (d : derivation) : option (option Ctx) := match d with ByContext x => Some x | _ => None end.

Lemma derived_fields e ds : fields (derived e ds) = fields e ++ (ds ≫= added_fields).
Proof.
  revert e. induction ds as [|d ds IH]; intros e; [cbn; by rewrite app_nil_r|]. cbn [derived foldl mbind list_bind].
  unfold derived in IH. rewrite IH, app_assoc. f_equal. by destruct d; cbn; rewrite ?app_nil_r.
Qed.

Lemma derived_minLevel e ds : minLevel (derived e ds) = default (minLevel e) (last (omap set_level ds)).
Proof.
  revert e. induction ds as [|d ds IH] using rev_ind; intros e; [done|]. unfold derived in *. rewrite foldl_snoc, omap_app.
  destruct d; cbn; rewrite ?app_nil_r, ?last_snoc; first [done|apply IH].
Qed.

Lemma derived_ctx e ds : ctx (derived e ds) = default (ctx e) (last (omap set_context ds)).
Proof.
  revert e. induction ds as [|d ds IH] using rev_ind; intros e; [done|]. unfold derived in *. rewrite foldl_snoc, omap_app.
  destruct d; cbn; rewrite ?app_nil_r, ?last_snoc; first [done|apply IH].
Qed.

Lemma derived_logger e ds : logger (derived e ds) = logger e.
Proof. revert e. induction ds as [|d ds IH]; intros e; [done|]. cbn. unfold derived in IH. rewrite IH. by destruct d. Qed.

(** The methods that print their operands, with their levels. *)
Definition printers : list (Level * (LEntry -> list value -> world -> outcome)) :=
  [(TraceLevel, Trace); (DebugLevel, Debug); (InfoLevel, Info); (WarnLevel, Warn); (ErrorLevel, Error)].

Lemma printer_spec l m e args w : (l, m) ∈ printers -> m e args w = if (minLevel e <=? l)%Z then log e l args w else unlogged w.
Proof.
  intros Hm. unfold printers in Hm. rewrite !elem_of_cons in Hm.
  destruct Hm as [[= -> ->]|[[= -> ->]|[[= -> ->]|[[= -> ->]|[[= -> ->]|[]%not_elem_of_nil]]]]];
    unfold Trace, Debug, Info, Warn, Error, isLevelEnabled; cbn [Z.eqb FatalLevel orb];
    by destruct (_ <=? _)%Z.
Qed.

Lemma not_rate_limited e : isRateLimited e = false.
Proof. unfold isRateLimited. by case_match. Qed.

Definition context_fields (x : option Ctx) : list Field := match x with Some c => ctxFieldProviders ≫= (fun p => p c) | None => [] end.

Lemma providers_append (c : Ctx) fs : foldl (fun fs p => fs ++ p c) fs ctxFieldProviders = fs ++ context_fields (Some c).
Proof.
  cbn. revert fs. induction ctxFieldProviders as [|p ps IH]; intros fs; cbn; [by rewrite app_nil_r|]. rewrite IH. by rewrite app_assoc.
Qed.

Definition line (sep : string) (fixed : bool) (l : Level) (caller : Frame) (t : Time) (fs : list Field) (msg : string) : string :=
  Join ((if fixed then [Format t; "[" +:+ Level.String l +:+ "]"; "<" +:+ file_name (File caller) +:+ ":" +:+ Value.FormatInt (Line caller) +:+ ">"] else []) ++
        (field_text <$> fs) ++ ["msg:" +:+ msg]) sep.

Lemma line_nonempty sep fixed l caller t fs msg : (0 <? String.length (line sep fixed l caller t fs msg))%nat = true.
Proof.
  apply Nat.ltb_lt. unfold line. assert (Hj : forall parts p, p ≠ "" -> 0 < String.length (Join (parts ++ [p]) sep)).
  { intros parts p Hp. induction parts as [|x parts IH]; [destruct p; [done|simpl; lia]|]. cbn [app].
    destruct (parts ++ [p]) as [|y rest] eqn:E; [by destruct parts|]. rewrite Join_cons_cons, !length_string_app. lia. }
  rewrite app_assoc. by apply Hj.
Qed.

Lemma log_message_text o sep fixed wr e l msg w caller :
  logger e = o -> opt_encoder o = Some (Encode sep fixed) -> opt_writer o = Some wr ->
  (GetCaller (packageName w) (stack w) true).2 = Some caller ->
  (log_message e l msg w).2 = Ok (Write wr (line sep fixed l caller (now w) (fields e ++ context_fields (ctx e)) msg)).
Proof.
  intros Ho Henc Hwr Hc. unfold log_message. destruct (GetCaller _ _ _) as [name c] eqn:E. cbn in Hc. subst c. cbn [snd].
  rewrite not_rate_limited, Ho, Henc. 
  replace (match ctx e with Some c => _ | None => _ end) with (fields e ++ context_fields (ctx e))
    by (destruct (ctx e) as [c|]; [by rewrite providers_append|cbn; by rewrite app_nil_r]).
  unfold Encode. cbn [Fields entry_Caller entry_Level entry_Time Msg].
  assert (Hl := line_nonempty sep fixed l caller (now w) (fields e ++ context_fields (ctx e)) msg). unfold line in *.
  destruct fixed; cbn [mbind gores_bind]; by rewrite Hl, Hwr.
Qed.

(** What a logger writes.  A logger made without a configuration and derived in any number
    of steps prints, at every level from [Trace] to [Error], one line if the level set last
    allows it and nothing otherwise; the line has the fields in the order in which they were
    added, then those of the context set last, then the operands.  [Fatal] writes its line at
    every level before it ends the process. *)
Theorem derived_logger_writes (sep : string) (fixed : bool) (wr : Writer) (lv : option Level) (ds : list derivation)
    (args : list value) (w : world) (caller : Frame) :
  (GetCaller (packageName w) (stack w) true).2 = Some caller ->
  exists e0, NewLogger None ([WithEncoder (Some (Encode sep fixed)); WithWriter (Some wr)] ++ (WithMinLevel <$> option_list lv)) = Ok (Some e0) /\
    let e := derived e0 ds in
    let written l := Write wr (line sep fixed l caller (now w)
      ((ds ≫= added_fields) ++ context_fields (default None (last (omap set_context ds)))) (Sprint args)) in
    let least := default (from_option (wrapU 32) TraceLevel lv) (last (omap set_level ds)) in
    (forall l m, (l, m) ∈ printers -> (m e args w).2 = Ok (if (least <=? l)%Z then written l else [])) /\
    (Fatal e args w).2 = Ok (written FatalLevel ++ [Exits 1]).
Proof.
  intros Hc. set (o := mkOptions (Some (Encode sep fixed)) (Some wr) lv).
  set (e0 := match lv with Some m => WithLevel (newEntry o) m | None => newEntry o end). exists e0.
  assert (Hlog : forall l, (log (derived e0 ds) l args w).2 = Ok (Write wr (line sep fixed l caller (now w)
      ((ds ≫= added_fields) ++ context_fields (default None (last (omap set_context ds)))) (Sprint args)))).
  { intros l. unfold log. erewrite (log_message_text o); [|rewrite derived_logger; by destruct lv|done..|exact Hc].
    rewrite derived_fields, derived_ctx. by destruct lv. }
  split; [by destruct lv|]. intros e written least. split.
  - intros l m Hm. unfold e, written, least. rewrite (printer_spec _ _ _ _ _ Hm), derived_minLevel.
    replace (minLevel e0) with (from_option (wrapU 32) TraceLevel lv) by (by destruct lv).
    destruct (_ <=? _)%Z; [apply Hlog|done].
  - unfold e, written, Fatal, exit_after, isLevelEnabled. cbn [Z.eqb FatalLevel Pos.eqb orb snd]. by rewrite Hlog.
Qed.

(** ** Where the default logger fails *)

(** Once the process has a configuration, [WithConfig] gives no logger, and every function of
    the package that logs panics; so it does when no frame is found for the caller. *)
Lemma configured_log_panics (c : Conf) (method : LEntry -> world -> outcome) w :
  (package_call false (Some c) method w).2 = nil_dereference.
Proof. done. Qed.

Lemma initialized_log_panics (global : option Conf) (method : LEntry -> world -> outcome) w :
  (package_call true global method w).2 = nil_dereference.
Proof. done. Qed.

Lemma log_message_nil e sep l msg w : opt_encoder (logger e) = Some (Encode sep true) ->
  (GetCaller (packageName w) (stack w) true).2 = None -> (log_message e l msg w).2 = nil_dereference.
Proof.
  intros He Hc. unfold log_message. destruct (GetCaller _ _ _) as [name c]. cbn in Hc. subst c.
  by rewrite not_rate_limited, He.
Qed.

Lemma missing_caller_panics args w : (GetCaller (packageName w) (stack w) true).2 = None ->
  (pkg_Info false None args w).2 = nil_dereference.
Proof. intros Hc. exact (log_message_nil (newEntry (mkOptions (Some (Encode " " true)) (Some (console Stdout)) None)) " " InfoLevel (Sprint args) w eq_refl Hc). Qed.

(** Without a configuration, the functions of the package print to the console. *)
Lemma unconfigured_error args w caller : (GetCaller (packageName w) (stack w) true).2 = Some caller ->
  (pkg_Error false None args w).2 = Ok [Printed Stdout (line " " true ErrorLevel caller (now w) [] (Sprint args))].
Proof.
  intros Hc. exact (log_message_text (mkOptions (Some (Encode " " true)) (Some (console Stdout)) None) " " true (console Stdout)
    (newEntry _) ErrorLevel (Sprint args) w caller eq_refl eq_refl eq_refl Hc).
Qed.

(** An interval for the rate changes nothing. *)
Lemma rate_limit_ignored e i l msg w : log_message (WithRateLimit e i) l msg w = log_message e l msg w.
Proof. unfold log_message. by rewrite !not_rate_limited. Qed.

End logging.

(** ** Examples *)

Definition example_stack : Stack :=
  let f n := mkFrame n "/src/a/main.go" 7 in
  mkStack "github.com/zhangel/go-framework.git/log.(*_Entry).Info"
    [f "github.com/zhangel/go-framework.git/log.(*_Entry).Info"; f "github.com/zhangel/go-framework.git/log.Info"; f "main.main"; f "runtime.main"; f "runtime.goexit"].
Definition example_world : world (Time := string) := mkWorld None example_stack "noon".

(** A function that a goroutine starts with is the last frame, and is not looked at. *)
Example goroutine_without_caller :
  (GetCaller None (mkStack "github.com/zhangel/go-framework.git/log.(*_Entry).Info"
     [mkFrame "github.com/zhangel/go-framework.git/log.(*_Entry).Info" "" 0; mkFrame "github.com/zhangel/go-framework.git/log.Info" "" 0;
      mkFrame "runtime.goexit" "" 0]) true).2 = None.
Proof. vm_compute. reflexivity. Qed.

(** The console logger for standard error writes to standard output. *)
Example console_stderr : NewConsoleWriter false = Stdout.
Proof. reflexivity. Qed.

Lemma derived_logger_writes_witness :
  let e0 := newEntry (Ctx := unit) (Conf := unit) (mkOptions (Some (Encode (fun t => t) " " true)) (Some (console Stdout)) None) in
  (Warn [] (derived e0 [ByField "a" (VInt 1); ByLevel 3; ByField "b" (VString "x")]) [VString "n ="; VInt 3; VInt 4] example_world).2 =
  Ok [Printed Stdout "noon [WARN] <main.go:7> a:1 b:x msg:n =3 4"].
Proof.
  intros e0. destruct (derived_logger_writes (Ctx := unit) (Conf := unit) (fun t => t) [] " " true (console Stdout) None
    [ByField "a" (VInt 1); ByLevel 3; ByField "b" (VString "x")] [VString "n ="; VInt 3; VInt 4] example_world
    (mkFrame "main.main" "/src/a/main.go" 7)) as (e & He & H & _); [vm_compute; reflexivity|].
  assert (e = e0) as -> by (vm_compute in He; vm_compute; congruence).
  rewrite (H WarnLevel (Warn [])); [vm_compute; reflexivity|]. unfold printers. rewrite !elem_of_cons. tauto.
Defined.

End Logging.
