(* ===== verification/Uri.v ===== *)
(** * Configuration URIs ([uri/uri.go]).

    A URI given for a configuration key is taken apart by [net/url] (a parameter, its result
    a record) and turned into configuration entries by the parser registered for the key. *)

From S2P Require Import Prelude GoStrings.
From Stdlib Require Import Ascii.

Open Scope string_scope.
Open Scope list_scope.

Module Uri.

Inductive UriFieldType :=
| UriFieldNone | UriFieldScheme | UriFieldUsername | UriFieldPassword | UriFieldHost | UriFieldHostname | UriFieldPort
| UriFieldPath | UriFieldQuery.
#[export] Instance UriFieldType_eq_dec : EqDecision UriFieldType.
Proof. solve_decision. Defined.

Record UriField := mkField { typ : UriFieldType; v : string; q : list (string * list string) }.

Definition Query (f : UriField) : list (string * list string) := if decide (typ f = UriFieldQuery) then q f else [].

(** The interface [UriParser]; [ParseField] writes into the result map. *)
Record UriParser := mkParser {
  Key : string;
  ParseField : UriField -> gmap string string -> gores (gmap string string)
}.

Notation registered := (gmap string UriParser).

Definition RegisterUri (m : registered) (p : UriParser) : gores registered :=
  match m !! Key p with
  | Some _ => Err ("registerURI: parser of URI " +:+ Key p +:+ " has been registered")
  | None => Ok (<[Key p := p]> m)
  end.
Definition IsUriRegistered (m : registered) (k : string) : bool := bool_decide (is_Some (m !! k)).

(** What the source uses of [url.URL]. *)
Record URL := mkURL {
  Scheme : string; User : option (string * option string); Host : string; Hostname : string; Port : string;
  Path : string; UrlQuery : list (string * list string)
}.

(** The fields in the order in which they are parsed, those that are absent left out. *)
Definition present (t : UriFieldType) (s : string) : list UriField :=
  if bool_decide (s = "") then [] else [mkField t s []].
Definition url_fields (u : URL) : list UriField :=
  [mkField UriFieldScheme (Scheme u) []] ++
  match User u with
  | None => []
  | Some (name, password) =>
      mkField UriFieldUsername name [] ::
      match password with Some p => [mkField UriFieldPassword p []] | None => [] end
  end ++
  present UriFieldHost (Host u) ++ present UriFieldHostname (Hostname u) ++ present UriFieldPort (Port u) ++
  present UriFieldPath (Path u) ++
  match UrlQuery u with [] => [] | qs => [mkField UriFieldQuery "" qs] end.

(** The closure [parseField]: an error of the parser is reported with the URI [s]. *)
Definition parse_field (p : UriParser) (s : string) (f : UriField) (m : gmap string string) : gores (gmap string string) :=
  match ParseField p f m with
  | Err e => Err ("parseURIField: parse " +:+ s +:+ " failed, err = " +:+ e)
  | r => r
  end.
Definition parse_fields (p : UriParser) (s : string) (fs : list UriField) : gores (gmap string string) :=
  foldl (fun r f => m ← r; parse_field p s f m) (Ok ∅) fs.

Definition ParseUri (ParseRequestURI : string -> option URL) (m : registered) (k s : string)
  : gores (gmap string string) :=
  match m !! k with
  | None => Err ("parseURI: no parser for URI " +:+ k +:+ " found")
  | Some p =>
      let s := if contains_char ":" s then s else s +:+ ":" in
      match ParseRequestURI s with
      | None => Err ("parseURI: parse uri " +:+ s +:+ " failed")
      | Some u => parse_fields p s (url_fields u)
      end
  end.

(** ** The simple parser *)

Record fieldInfo := mkInfo { name : string; valueHandler : string -> string }.

Record SimpleUriParser := mkSimple {
  key : string; selector : string; schemes : gset string;
  mapping : string -> UriFieldType -> option fieldInfo;
  query : gmap string (gset string)
}.

Definition NewSimpleUriParser (key selector : string) : SimpleUriParser :=
  mkSimple key selector ∅ (fun _ _ => None) ∅.

Definition FilePathHandler (path : string) : string :=
  match path with
  | EmptyString => ""
  | String a rest => if decide (a = "/"%char) then rest else path
  end.

Definition WithScheme (s : SimpleUriParser) (scheme : string) : SimpleUriParser :=
  mkSimple (key s) (selector s) ({[scheme]} ∪ schemes s) (mapping s) (query s).
Definition WithField (s : SimpleUriParser) (scheme : string) (t : UriFieldType) (to : string)
    (handler : option (string -> string)) : SimpleUriParser :=
  let h := match handler with
           | Some h => h
           | None => if decide (t = UriFieldPath) then FilePathHandler else fun v => v
           end in
  mkSimple (key s) (selector s) (schemes s)
    (fun sc t' => if decide (sc = scheme /\ t' = t) then Some (mkInfo to h) else mapping s sc t') (query s).
Definition WithQuery (s : SimpleUriParser) (scheme n : string) : SimpleUriParser :=
  mkSimple (key s) (selector s) (schemes s) (mapping s) (<[scheme := {[n]} ∪ default ∅ (query s !! scheme)]> (query s)).

Definition simple_ParseField (s : SimpleUriParser) (f : UriField) (result : gmap string string)
  : gores (gmap string string) :=
  let selectorKey := key s +:+ "." +:+ selector s in
  match typ f with
  | UriFieldScheme =>
      if bool_decide (v f ∈ schemes s) then Ok (<[selectorKey := v f]> result)
      else Err ("no scheme " +:+ v f +:+ " registered")
  | UriFieldQuery =>
      let scheme := default "" (result !! selectorKey) in
      Ok (foldl (fun r '(k, vs) => <[key s +:+ "." +:+ scheme +:+ "." +:+ ToLower k := Join vs ","]> r) result (q f))
  | t =>
      let scheme := default "" (result !! selectorKey) in
      Ok (match mapping s scheme t with
          | Some i => <[key s +:+ "." +:+ scheme +:+ "." +:+ name i := valueHandler i (v f)]> result
          | None => result
          end)
  end.
Definition simple_parser (s : SimpleUriParser) : UriParser := mkParser (key s) (simple_ParseField s).

(** ** Properties *)

Section simple.
Context (s : SimpleUriParser).
Context (Hsel : contains_char "." (selector s) = false).

Let selectorKey : string := key s +:+ "." +:+ selector s.

(** The entries lie under the key, and the selector names the registered scheme. *)
Definition in_space (scheme : string) (m : gmap string string) : Prop :=
  m !! selectorKey = Some scheme /\ scheme ∈ schemes s /\
  forall k x, m !! k = Some x -> HasPrefix k (key s +:+ ".") = true.

Lemma contains_app_sep (a b : string) (c : ascii) : contains_char c (a +:+ String c b) = true.
Proof.
  induction a as [|x a IH].
  - change (contains_char c (String c b) = true). cbn [contains_char]. by rewrite decide_True.
  - change (contains_char c (String x (a +:+ String c b)) = true). cbn [contains_char]. by case_decide.
Qed.

Lemma insert_in_space scheme m n x : in_space scheme m -> in_space scheme (<[key s +:+ "." +:+ scheme +:+ "." +:+ n := x]> m).
Proof.
  intros (H1 & H2 & H3). split_and!; [|done|].
  - rewrite lookup_insert_ne; [done|]. unfold selectorKey. intros E%string_app_inj_l%string_app_inj_l. revert Hsel.
    rewrite <- E. change ("." +:+ n) with (String "." n). by rewrite contains_app_sep.
  - intros k y. rewrite lookup_insert_case. case_decide as Hk; [|apply H3]. intros _. subst k.
    rewrite <- string_app_assoc. apply HasPrefix_app.
Qed.

Lemma field_in_space str f scheme m m' : typ f <> UriFieldScheme -> in_space scheme m ->
  parse_field (simple_parser s) str f m = Ok m' -> in_space scheme m'.
Proof.
  intros Ht Hm. unfold parse_field. cbn [ParseField simple_parser]. assert (Hsc : default "" (m !! (key s +:+ "." +:+ selector s)) = scheme)
    by (destruct Hm as (H1 & _); fold selectorKey; by rewrite H1).
  unfold simple_ParseField. rewrite Hsc. destruct (typ f) eqn:Et; try done;
    try (destruct (mapping s scheme _); intros [= <-]; [by apply insert_in_space|done]).
  intros [= <-]. apply foldl_ind; [done|]. intros m1 [k vs] _ Hm1. by apply insert_in_space.
Qed.

Lemma fields_in_space str fs scheme m m' : Forall (fun f => typ f <> UriFieldScheme) fs -> in_space scheme m ->
  foldl (fun r f => m ← r; parse_field (simple_parser s) str f m) (Ok m) fs = Ok m' -> in_space scheme m'.
Proof.
  intros Hfs. revert m. induction Hfs as [|f fs Hf _ IH]; intros m Hm; cbn [foldl].
  - by intros [= <-].
  - change (m0 ← Ok m; parse_field (simple_parser s) str f m0) with (parse_field (simple_parser s) str f m).
    destruct (parse_field (simple_parser s) str f m) as [m1|e|e] eqn:E.
    + apply IH. by eapply field_in_space.
    + intros H. exfalso. clear -H. induction fs; cbn in H; [done|]. by apply IHfs.
    + intros H. exfalso. clear -H. induction fs; cbn in H; [done|]. by apply IHfs.
Qed.

(** After the scheme no field is an error. *)
Lemma fields_ok str fs m : Forall (fun f => typ f <> UriFieldScheme) fs ->
  exists m', foldl (fun r f => m ← r; parse_field (simple_parser s) str f m) (Ok m) fs = Ok m'.
Proof.
  intros Hfs. revert m. induction Hfs as [|f fs Hf _ IH]; intros m; cbn [foldl]; [by eexists|].
  change (m0 ← Ok m; parse_field (simple_parser s) str f m0) with (parse_field (simple_parser s) str f m).
  assert (Hok : exists m1, parse_field (simple_parser s) str f m = Ok m1)
    by (unfold parse_field; cbn [ParseField simple_parser]; unfold simple_ParseField; destruct (typ f); try done; by eexists).
  destruct Hok as [m1 ->]. apply IH.
Qed.

End simple.

Lemma rest_not_scheme u : exists fs, url_fields u = mkField UriFieldScheme (Scheme u) [] :: fs /\
  Forall (fun f => typ f <> UriFieldScheme) fs.
Proof.
  eexists. split; [reflexivity|]. unfold present.
  repeat match goal with |- Forall _ (_ ++ _) => apply Forall_app; split end.
  all: repeat case_match; by repeat constructor.
Qed.

(** URI configuration keeps to its name space.  With a simple parser registered (its
    selector without a dot), a URI with an unregistered scheme is an error, and whatever
    URI is parsed successfully, with whatever user, host, path and query, every entry of
    the result has a key below the parser's key, and the selector entry names the scheme
    of the URI, a registered one. *)
Theorem parse_uri_name_space (ParseRequestURI : string -> option URL) (m : registered) (s : SimpleUriParser)
  (str : string) (u : URL) :
  m !! key s = Some (simple_parser s) -> contains_char "." (selector s) = false ->
  ParseRequestURI (if contains_char ":" str then str else str +:+ ":") = Some u ->
  match ParseUri ParseRequestURI m (key s) str with
  | Ok r => in_space s (Scheme u) r
  | Err _ => Scheme u ∉ schemes s
  | Panic _ => False
  end.
Proof.
  intros Hm Hsel Hu. unfold ParseUri. rewrite Hm, Hu.
  set (str' := if contains_char ":" str then str else str +:+ ":"). destruct (rest_not_scheme u) as (fs & -> & Hfs).
  unfold parse_fields. cbn [foldl].
  set (first := m0 ← Ok ∅; parse_field (simple_parser s) str' (mkField UriFieldScheme (Scheme u) []) m0).
  assert (Hfirst : first = if bool_decide (Scheme u ∈ schemes s)
    then Ok {[key s +:+ "." +:+ selector s := Scheme u]} else Err ("parseURIField: parse " +:+ str' +:+ " failed, err = " +:+ ("no scheme " +:+ Scheme u +:+ " registered"))).
  { unfold first, parse_field. cbn [mbind gores_bind ParseField simple_parser]. unfold simple_ParseField. cbn [typ v].
    by case_bool_decide. }
  rewrite Hfirst. case_bool_decide as Hs.
  - assert (Hin : in_space s (Scheme u) {[key s +:+ "." +:+ selector s := Scheme u]}).
    { split_and!; [by rewrite lookup_singleton_eq|done|]. intros k x [<- _]%lookup_singleton_Some.
      rewrite <- string_app_assoc. apply HasPrefix_app. }
    destruct (fields_ok s str' fs {[key s +:+ "." +:+ selector s := Scheme u]} Hfs) as [r Er].
    pose proof (fields_in_space s Hsel str' fs (Scheme u) _ r Hfs Hin Er) as Hr.
    by rewrite Er.
  - assert (E : forall e, foldl (fun r f => m0 ← r; parse_field (simple_parser s) str' f m0) (Err e) fs = Err e)
      by (intros e; clear; induction fs; [done|apply IHfs]).
    by rewrite E.
Qed.

Lemma parse_uri_name_space_witness :
  let s := WithField (WithScheme (NewSimpleUriParser "db" "driver") "mysql") "mysql" UriFieldHost "addr" None in
  match ParseUri (fun _ => Some (mkURL "mysql" None "localhost:3306" "localhost" "3306" "" [("driver", ["x"])]))
    {["db" := simple_parser s]} "db" "mysql://localhost:3306?driver=x" with
  | Ok r => in_space s "mysql" r
  | _ => False
  end.
Proof.
  intros s. pose proof (parse_uri_name_space
    (fun _ => Some (mkURL "mysql" None "localhost:3306" "localhost" "3306" "" [("driver", ["x"])]))
    {["db" := simple_parser s]} s "mysql://localhost:3306?driver=x" _ eq_refl eq_refl eq_refl) as H.
  cbn [Scheme] in H. change (key s) with "db" in H.
  destruct (ParseUri _ _ "db" "mysql://localhost:3306?driver=x") as [r|e|e]; [exact H| |exact H].
  apply H. vm_compute. reflexivity.
Defined.

End Uri.
