(* ===== verification/Declare.v ===== *)
(** * Declared flags and the sources made of them ([internal/declare/],
    [config_plugins/env.go], [cmd.go], [cmd_default.go]).

    Components declare flags under a name space.  At start they become one table, from which
    the defaults, the environment and the command line are read as configuration. *)

From S2P Require Import Prelude GoStrings PrefixTree ConfigImpl Encrypt Filter ConfigSources Uri.
From Stdlib Require Import Ascii SpecFloat Orders OrdersEx Sorted.

Open Scope string_scope.
Open Scope list_scope.

Module Declare.

(** ** Names *)

Definition flagName (ns name : string) : string :=
  ToLower (if bool_decide (ns <> "") && negb (HasPrefix name (ns +:+ ".")) then ns +:+ "." +:+ name else name).

(** [strings.Replace(s, ".", "_", -1)], and the removal of everything but [_A-Z0-9]. *)
Fixpoint map_string (f : ascii -> ascii) (s : string) : string :=
  match s with EmptyString => EmptyString | String a s => String (f a) (map_string f s) end.
Fixpoint filter_string (f : ascii -> bool) (s : string) : string :=
  match s with EmptyString => EmptyString | String a s => if f a then String a (filter_string f s) else filter_string f s end.
Definition env_char (a : ascii) : bool :=
  is_upper a || bool_decide (a = "_"%char) || ((48 <=? nat_of_ascii a) && (nat_of_ascii a <=? 57))%nat.
Definition envVarName (flagName envName : string) : string :=
  if bool_decide (flagName = "verbose") then ""
  else filter_string env_char (map_string (fun a => if decide (a = "."%char) then "_"%char else a)
         (ToUpper (if bool_decide (envName <> "") then envName else flagName))).

(** ** Flags *)

(** A flag's default; [None] is nil.  The help texts are left out. *)
Inductive default_value :=
| DString (s : string) | DBool (b : bool) | DInt (n : Z) | DUint (n : Z) | DFloat (f : spec_float) | DDuration (d : Z)
| DMapFlags | DOther.
Record Flag := mkFlag {
  Name : string; DefaultValue : option default_value; Env : string;
  UriField : Uri.UriFieldType; UriFieldHandler : option (string -> string); Sensitive : bool; Deprecated : bool;
  pluginTypeFlag : bool; pluginType : string; pluginName : string; pluginDeprecated : bool
}.

(** [allFlagsWithNs] *)
Definition Flags (m : gmap string (list Flag)) (ns : string) (flags : list Flag) : gmap string (list Flag) :=
  <[ns := default [] (m !! ns) ++ flags]> m.

(** The first loop of [PopulateAllFlags]; [order] are the name spaces in the order of the iteration. *)
Definition qualify (ns : string) (f : Flag) : Flag :=
  let name := flagName ns (Name f) in
  mkFlag name (DefaultValue f) (envVarName name (Env f)) (UriField f) (UriFieldHandler f) (Sensitive f) (Deprecated f)
    (pluginTypeFlag f) (pluginType f) (pluginName f) (pluginDeprecated f).
Definition all_flags (order : list (string * list Flag)) : gmap string Flag :=
  foldl (fun m p => foldl (fun m f => let f := qualify p.1 f in <[Name f := f]> m) m p.2) ∅ order.

(** [MapFlags.Set] *)
Definition MapFlags_Set (m : gmap string string) (value : string) : option (gmap string string) :=
  match Split "="%char value with
  | [k; v] => if bool_decide (k = "") then None else Some (<[k := v]> m)
  | _ => None
  end.

(** A formal flag of [FrameworkFlagSet]: the text of its default, its value, and whether it was
    set; the value of the flag for overwriting is a map. *)
Inductive flag_value := FText (s : string) | FMap (m : gmap string string).
Record formal := mkFormal { DefValue : string; Value : flag_value; is_set : bool }.
#[export] Instance flag_value_eq_dec : EqDecision flag_value.
Proof. solve_decision. Defined.
#[export] Instance formal_eq_dec : EqDecision formal.
Proof. solve_decision. Defined.
Definition FlagOverwrite : string := "config.set".

Section flagset.
Context (FormatFloat : spec_float -> string) (DurationString : Z -> string).
(** [Set] and [String] of the numeric flags and of [str2duration]; [None] is an error. *)
Context (Reparse : default_value -> string -> option string).

Definition default_text (d : default_value) : string :=
  match d with
  | DString s => s
  | DBool b => if b then "true" else "false"
  | DInt n => Value.Value.FormatInt n
  | DUint n => Value.Value.FormatUint n
  | DFloat f => FormatFloat f
  | DDuration d => DurationString d
  | DMapFlags => "map[]"
  | DOther => ""
  end.
(** The flag that [PopulateAllFlags] defines. *)
Definition define_flag (f : Flag) : formal :=
  let d := default (DString "") (DefaultValue f) in
  mkFormal (default_text d) (match d with DMapFlags => FMap ∅ | d => FText (default_text d) end) false.

(** The second loop; without a default the process ends. *)
Definition PopulateAllFlags (flags : gmap string Flag) : option (gmap string formal) :=
  if bool_decide (map_Forall (fun _ f => is_Some (DefaultValue f)) flags) then Some (define_flag <$> flags) else None.
Definition sensitiveMap (flags : gmap string Flag) : gset string := dom (filter (fun p => Sensitive p.2 = true) flags).
Definition IsSensitive (flags : gmap string Flag) (name : string) : bool := bool_decide (name ∈ sensitiveMap flags).

(** What a flag's [String] answers after its [Set]; [strconv.ParseBool] knows these words. *)
Definition ParseBool (s : string) : option bool :=
  if bool_decide (s ∈ ["1"; "t"; "T"; "TRUE"; "true"; "True"]) then Some true
  else if bool_decide (s ∈ ["0"; "f"; "F"; "FALSE"; "false"; "False"]) then Some false else None.
Definition Canonical (d : default_value) (s : string) : option string :=
  match d with
  | DString _ | DOther => Some s
  | DBool _ => (fun b : bool => if b then "true" else "false") <$> ParseBool s
  | d => Reparse d s
  end.
(** [FlagSet.Set] *)
Definition set_flag (flags : gmap string Flag) (fs : gmap string formal) (name value : string) : option (gmap string formal) :=
  f ← flags !! name; old ← fs !! name; d ← DefaultValue f;
  v ← match d, Value old with
      | DMapFlags, FMap m => FMap <$> MapFlags_Set m value
      | d, _ => FText <$> Canonical d value
      end;
  Some (<[name := mkFormal (DefValue old) v true]> fs).

(** [FlagSet.Parse]: [None] ends the process (a wrong flag or value, or a request for help).
    A flag has one dash or two; its value follows an equals sign or is the next argument, and a
    boolean flag may go without; the first argument that is no flag, or two dashes, ends the
    flags. *)
Inductive argument := NoFlag | BadFlag | Named (name : string) (value : option string).
Fixpoint cut_equals (s : string) : string * option string :=
  match s with
  | EmptyString => ("", None)
  | String a s' => if bool_decide (a = "="%char) then ("", Some s') else let '(n, v) := cut_equals s' in (String a n, v)
  end.
Definition read_argument (s : string) : argument :=
  match s with
  | String c (String a rest) =>
      if bool_decide (c <> "-"%char) || bool_decide (a = "-"%char /\ rest = "") then NoFlag
      else match (if bool_decide (a = "-"%char) then rest else String a rest) with
           | EmptyString => BadFlag
           | String b _ as body =>
               if bool_decide (b = "-"%char \/ b = "="%char) then BadFlag else let '(n, v) := cut_equals body in Named n v
           end
  | _ => NoFlag
  end.
Fixpoint parse_args (flags : gmap string Flag) (fs : gmap string formal) (args : list string) : option (gmap string formal) :=
  match args with
  | [] => Some fs
  | s :: rest =>
      match read_argument s with
      | NoFlag => Some fs
      | BadFlag => None
      | Named n v =>
          match flags !! n with
          | None => None
          | Some f =>
              match DefaultValue f, v with
              | Some (DBool _), _ => fs ← set_flag flags fs n (default "true" v); parse_args flags fs rest
              | _, Some v => fs ← set_flag flags fs n v; parse_args flags fs rest
              | _, None => match rest with v :: rest => fs ← set_flag flags fs n v; parse_args flags fs rest | [] => None end
              end
          end
      end
  end.

(** [setDefaultValue] for a source that the program can write to. *)
Definition setDefaultValue (s : ConfigSources.MemoryConfigSource) (name : string) (d : default_value) : ConfigSources.MemoryConfigSource :=
  match ConfigSources.memory_Get s name with
  | Some _ => s
  | None => (ConfigSources.memory_Put FormatFloat DurationString s name
              (ConfigSources.VString (match d with DMapFlags => "" | d => default_text d end))).1
  end.

(** ** Sources *)

Definition env_Sync (getenv : string -> string) (flags : gmap string Flag) : gmap string string :=
  omap (fun f => if bool_decide (Env f = "") then None
                 else if bool_decide (getenv (Env f) = "") then None else Some (getenv (Env f))) flags.
(** [VisitAll] and [Visit]: in the order of the names. *)
Definition cmd_default_Sync (fs : gmap string formal) : gmap string string := DefValue <$> fs.
Definition cmd_step (config : gmap string string) (p : string * formal) : gmap string string :=
  if is_set p.2 then
    match Value p.2 with
    | FMap m => if bool_decide (p.1 = FlagOverwrite) then m ∪ config else config
    | FText s => if bool_decide (p.1 = FlagOverwrite) then config else <[p.1 := s]> config
    end
  else config.
Definition cmd_Sync (visit : list (string * formal)) : gmap string string := foldl cmd_step ∅ visit.
End flagset.

(** [NewConfig] over sources without errors, with what each gives; whether the name space is
    ignored comes first. *)
Definition NewConfig (sources : list (bool * gmap string string)) : ConfigImpl.ConfigImpl :=
  (ConfigImpl.sync (ConfigImpl.newConfigImpl sources.*1) ((fun p => Some (map_to_list p.2)) <$> sources)).1.1.
(** The order of the sources in [PrepareConfigs]. *)
Definition prepared_sources (defaults env cmd : gmap string string) (plugins : list (bool * gmap string string)) : list (bool * gmap string string) :=
  [(true, defaults)] ++ plugins ++ [(true, env); (true, cmd)].

(** ** Usage ([usage.go]) *)

(** [nameSpaceStrings.Less]; [<] on strings is that of [String_as_OT]. *)
Definition str_less (a b : string) : bool := match String_as_OT.compare a b with Lt => true | _ => false end.
Definition Less (a b : string) : bool :=
  let la := length (Split "."%char a) in
  let lb := length (Split "."%char b) in
  if ((la <=? 2) || (lb <=? 2))%nat then if (la =? lb)%nat then str_less a b else (la <? lb)%nat else str_less a b.

(** [MatchString]: [None] is a pattern that does not compile. *)
Section show.
Context (MatchString : string -> string -> option bool).
Definition hit (flagName pattern : string) : bool := match MatchString pattern flagName with Some b => b | None => true end.
Definition isFlagShow (flagName : string) (flagsToShow flagsToHide : list string) : bool :=
  match flagsToShow, flagsToHide with
  | [], [] => true
  | [], hide => negb (existsb (hit flagName) hide)
  | show, _ => existsb (hit flagName) show
  end.
End show.

Inductive usage_group := CustomFlags | PluginSelector | GlobalFlags (ns : string) | PluginFlags (pluginType pluginName : string) (deprecated : bool).
Definition group_of (ns : string) (f : Flag) : usage_group :=
  if pluginTypeFlag f then PluginSelector
  else if bool_decide (pluginType f <> "") then PluginFlags (pluginType f) (pluginName f) (pluginDeprecated f)
  else if bool_decide (ns <> "") then GlobalFlags ns
  else CustomFlags.
(** The declared flags that are shown, with their groups. *)
Definition usage (MatchString : string -> string -> option bool) (order : list (string * list Flag)) (flagsToShow flagsToHide : list string)
    (includeDeprecated : bool) : list (usage_group * string) :=
  order ≫= fun p => p.2 ≫= fun f =>
    let name := flagName p.1 (Name f) in
    if (Deprecated f && negb includeDeprecated) || negb (isFlagShow MatchString name flagsToShow flagsToHide) then []
    else [(group_of p.1 f, name)].

(** ** The order of names *)

Lemma str_less_lt a b : str_less a b = true <-> String_as_OT.lt a b.
Proof. unfold str_less, String_as_OT.lt. by destruct (String_as_OT.compare a b). Qed.
Lemma str_less_irrefl a : str_less a a = false.
Proof. apply not_true_is_false. rewrite str_less_lt. apply StrictOrder_Irreflexive. Qed.
Lemma str_less_trans a b c : str_less a b = true -> str_less b c = true -> str_less a c = true.
Proof. rewrite !str_less_lt. apply StrictOrder_Transitive. Qed.
Lemma str_less_asym a b : str_less a b = true -> str_less b a = false.
Proof. intros H. apply not_true_is_false. intros H'. pose proof (str_less_trans a b a H H'). by rewrite str_less_irrefl in *. Qed.
Lemma str_less_total a b : str_less a b = true \/ a = b \/ str_less b a = true.
Proof. rewrite !str_less_lt. destruct (String_as_OT.compare_spec a b); auto. Qed.

(** The order is that of the number of components, up to three, and of the text after. *)
Definition rank (s : string) : nat := length (Split "."%char s) `min` 3.
Lemma Less_rank a b : Less a b = true <-> rank a < rank b \/ rank a = rank b /\ str_less a b = true.
Proof.
  unfold Less, rank. set (la := length (Split "." a)). set (lb := length (Split "." b)).
  destruct (Nat.leb_spec la 2), (Nat.leb_spec lb 2); cbn [orb]; try (destruct (Nat.eqb_spec la lb)); rewrite ?Nat.ltb_lt;
    intuition (try lia).
Qed.

(** The order in which help is printed is a strict total order, so a sorted list of flags
    is unique: names with fewer components (of one, two, and more) come first, and those with
    equally many are in the order of their text. *)
Theorem usage_order a b c :
  Less a a = false /\ (Less a b = true -> Less b c = true -> Less a c = true) /\ (Less a b = true \/ a = b \/ Less b a = true).
Proof.
  split_and!.
  - apply not_true_is_false. rewrite Less_rank, str_less_irrefl. intros [?|[_ ?]]; [lia|done].
  - rewrite !Less_rank. intros [H1|[H1 H1']] [H2|[H2 H2']]; [left; lia..|]. right. split; [lia|by eapply str_less_trans].
  - rewrite !Less_rank. destruct (lt_eq_lt_dec (rank a) (rank b)) as [[?|?]|?]; [by left; left| |by right; right; left].
    destruct (str_less_total a b) as [?|[?|?]]; auto.
Qed.

(** ** Layers *)

(** The value that the last of the sources with the key has for it. *)
Definition layered (sources : list (bool * gmap string string)) (k : string) : option string :=
  foldl (fun r p => match ConfigImpl.lower_vals (map_to_list p.2) !! k with Some v => Some v | None => r end) None sources.

Lemma sync_has (answers : list (list (string * string))) k : forall c lv,
  (forall i s, lv <= i -> ConfigImpl.source c !! i = Some s -> SourceWrapper.cache s = ∅ /\ SourceWrapper.synchronized s = false) ->
  lv + length answers = length (ConfigImpl.source c) ->
  forall i, ConfigImpl.has (ConfigImpl.source (ConfigImpl.sync_from c lv (Some <$> answers)).1.1) i k =
    if decide (i < lv) then ConfigImpl.has (ConfigImpl.source c) i k
    else answers !! (i - lv) ≫= fun val => ConfigImpl.lower_vals val !! k.
Proof.
  induction answers as [|val answers IH]; intros c lv Hempty Hlen i; cbn [length] in Hlen; cbn [fmap list_fmap ConfigImpl.sync_from].
  { case_decide; [done|]. unfold ConfigImpl.has. by rewrite lookup_ge_None_2 by (cbn; lia). }
  destruct (lookup_lt_is_Some_2 (ConfigImpl.source c) lv ltac:(lia)) as [s Hs]. rewrite Hs.
  destruct (Hempty lv s ltac:(lia) Hs) as [Hc0 Hs0].
  unfold SourceWrapper.Sync. rewrite Hs0, Hc0. fold (ConfigImpl.lower_vals val).
  destruct (foldl _ _ _) as [t n].
  set (s' := SourceWrapper.set_cache s _). set (c' := ConfigImpl.mkConfig _ _ _ _).
  specialize (IH c' (S lv)). destruct (ConfigImpl.sync_from c' (S lv) _) as [[c'' evs] ok]. cbn [fst snd] in *.
  rewrite IH.
  - cbn [ConfigImpl.source c']. unfold ConfigImpl.has. destruct (decide (i = lv)) as [->|Hne].
    + rewrite decide_True, decide_False by lia. rewrite list_lookup_insert_eq by lia. rewrite Nat.sub_diag. done.
    + rewrite list_lookup_insert_ne by lia. destruct (decide (i < lv)).
      * by rewrite decide_True by lia.
      * rewrite decide_False by lia. by replace (i - lv) with (S (i - S lv)) by lia.
  - intros j sj Hj. cbn [ConfigImpl.source c']. rewrite list_lookup_insert_ne by lia. apply Hempty. lia.
  - cbn [ConfigImpl.source c']. rewrite length_insert. lia.
Qed.

(** What a configuration of sources shows for a well-formed key. *)
Lemma NewConfig_layered sources k : ConfigImpl.good_key k -> ConfigSources.shows (NewConfig sources) k = layered sources k.
Proof.
  intros Hk. unfold ConfigSources.shows, NewConfig. rewrite (proj1 Hk).
  set (answers := (fun p : bool * gmap string string => map_to_list p.2) <$> sources).
  replace ((fun p => Some (map_to_list p.2)) <$> sources) with (Some <$> answers) by (unfold answers; by rewrite <- list_fmap_compose).
  set (c0 := ConfigImpl.newConfigImpl sources.*1).
  assert (length (ConfigImpl.source c0) = length sources) as Hl by (unfold c0; cbn; by rewrite !length_fmap).
  assert (length answers = length sources) as Hla by (unfold answers; by rewrite length_fmap).
  pose proof (ConfigImpl.newConfigImpl_synced sources.*1) as Hsync.
  destruct (ConfigImpl.sync_from_spec (Some <$> answers) c0 0 Hsync) as [(_ & _ & Hg) Hl'].
  { rewrite length_fmap. lia. }
  { apply Forall_fmap, Forall_true. by eexists. }
  pose proof (sync_has answers k c0 0) as Hhas. unfold ConfigImpl.sync. rewrite Hg by done.
  destruct Hsync as (_ & Hempty & _). specialize (Hhas Hempty ltac:(lia)).
  rewrite Hl. clear -Hhas Hla. unfold answers in Hhas. clear Hla.
  assert (forall n, n <= length sources -> ConfigImpl.value <$> ConfigImpl.fallback (ConfigImpl.source (ConfigImpl.sync_from c0 0 (Some <$> answers)).1.1) n k
    = layered (take n sources) k) as H.
  { induction n as [|n IH]; intros Hn; [done|]. cbn [ConfigImpl.fallback].
    fold (ConfigImpl.has (ConfigImpl.source (ConfigImpl.sync_from c0 0 (Some <$> answers)).1.1) n k). rewrite Hhas.
    rewrite decide_False, Nat.sub_0_r, list_lookup_fmap by lia.
    destruct (lookup_lt_is_Some_2 sources n ltac:(lia)) as [p Hp]. rewrite Hp. cbn.
    rewrite (take_S_r _ _ _ Hp). unfold layered. rewrite foldl_snoc. fold (layered (take n sources) k).
    destruct (_ !! k); [done|]. apply IH. lia. }
  rewrite H by lia. by rewrite take_ge by lia.
Qed.

Lemma layered_app l1 l2 k : layered (l1 ++ l2) k = match layered l2 k with Some v => Some v | None => layered l1 k end.
Proof.
  unfold layered. rewrite foldl_app. generalize (foldl (fun r p => match ConfigImpl.lower_vals (map_to_list p.2) !! k with Some v => Some v | None => r end) None l1).
  intros o. revert o. induction l2 as [|p l2 IH] using rev_ind; intros o; [done|]. rewrite !foldl_snoc. destruct (_ !! k); [done|]. apply IH.
Qed.

(** ** Lookups *)

Lemma sync_flags answers : forall c lv,
  SourceWrapper.ignoreNamespace <$> ConfigImpl.source (ConfigImpl.sync_from c lv answers).1.1 = SourceWrapper.ignoreNamespace <$> ConfigImpl.source c.
Proof.
  induction answers as [|a answers IH]; intros c lv; cbn [ConfigImpl.sync_from]; [done|].
  destruct (ConfigImpl.source c !! lv) as [s|] eqn:Hs; [|done].
  destruct (SourceWrapper.Sync s a) as [s' [val|]] eqn:Ha; [|done].
  destruct (foldl _ _ _) as [t n]. set (c' := ConfigImpl.mkConfig _ _ _ _). specialize (IH c' (S lv)).
  destruct (ConfigImpl.sync_from c' (S lv) answers) as [[c'' evs] ok]. cbn [fst] in *. rewrite IH. unfold c'. cbn [ConfigImpl.source].
  rewrite list_fmap_insert. apply list_insert_id. rewrite list_lookup_fmap, Hs. cbn. f_equal.
  unfold SourceWrapper.Sync in Ha. repeat case_match; by simplify_eq.
Qed.
Lemma lookup_level srcs n k vn : ConfigImpl.fallback srcs n k = Some vn -> is_Some (srcs !! ConfigImpl.level vn).
Proof.
  induction n as [|n IH]; cbn [ConfigImpl.fallback]; [done|]. destruct (srcs !! n) as [s|] eqn:Hs; cbn; [|auto].
  destruct (SourceWrapper.Get s k); [|auto]. intros [= <-]. cbn. eauto.
Qed.
(** A lookup without name spaces and prefix gives the value that is shown, if the first source
    ignores name spaces: only there a value could be outweighed by the raw lookup. *)
Lemma NewConfig_lookup {key : Type} (Decrypt : key -> string -> option string) (K : key) pw sources first k v :
  sources !! 0 = Some (true, first) -> ConfigImpl.good_key k -> ConfigSources.shows (NewConfig sources) k = Some v ->
  (Filter.Get Decrypt K (Filter.NewFilter "" [] pw) (NewConfig sources) k).1 =
  ((Filter.decrypt Decrypt K (Filter.NewFilter "" [] pw) v).1, true).
Proof.
  intros Hfirst Hk Hshow. destruct Hk as [Hlow Hvalid].
  assert (exists vn b, PrefixTree.PrefixTree.Get (ConfigImpl.cache (NewConfig sources)) k = Some vn /\ ConfigImpl.value vn = v /\
    (SourceWrapper.ignoreNamespace <$> ConfigImpl.source (NewConfig sources)) !! ConfigImpl.level vn = Some b /\
    (ConfigImpl.level vn = 0 -> b = true)) as (vn & b & Hget & Hv & Hb & Hb0).
  { unfold ConfigSources.shows in Hshow. rewrite Hlow in Hshow. apply fmap_Some in Hshow as (vn & Hget & ->).
    assert (SourceWrapper.ignoreNamespace <$> ConfigImpl.source (NewConfig sources) = sources.*1) as Hflags.
    { unfold NewConfig, ConfigImpl.sync. rewrite sync_flags. cbn. rewrite <- list_fmap_compose. apply list_fmap_id. }
    assert (is_Some (ConfigImpl.source (NewConfig sources) !! ConfigImpl.level vn)) as [s Hs].
    { pose proof (ConfigImpl.newConfigImpl_synced sources.*1) as Hsync.
      destruct (ConfigImpl.sync_from_spec ((fun p => Some (map_to_list p.2)) <$> sources) _ 0 Hsync) as [(_ & _ & Hg) _].
      { cbn. by rewrite !length_fmap. }
      { apply Forall_fmap, Forall_true. by eexists. }
      unfold NewConfig, ConfigImpl.sync in Hget. rewrite Hg in Hget by done. by eapply lookup_level. }
    exists vn, (SourceWrapper.ignoreNamespace s). split_and!; [done|done|by rewrite list_lookup_fmap, Hs|].
    intros H0. rewrite H0 in Hs. assert ((SourceWrapper.ignoreNamespace <$> ConfigImpl.source (NewConfig sources)) !! 0 = Some (SourceWrapper.ignoreNamespace s)) as E
      by by rewrite list_lookup_fmap, Hs. rewrite Hflags, list_lookup_fmap, Hfirst in E. by injection E. }
  assert (ConfigImpl.Get (NewConfig sources) k "" false = (v, Z.of_nat (ConfigImpl.level vn))) as Hplain.
  { unfold ConfigImpl.Get, ConfigImpl.withPrefix. rewrite Hlow. change ("" +:+ k) with k. by rewrite Hget, <- Hv. }
  assert (((ConfigImpl.Get (NewConfig sources) k "" true).2 <= Z.of_nat (ConfigImpl.level vn))%Z /\ (ConfigImpl.Get (NewConfig sources) k "" true).2 <> (-1)%Z) as [Hraw Hraw'].
  { unfold ConfigImpl.Get. rewrite Hlow, Hget. rewrite list_lookup_fmap in Hb. destruct (ConfigImpl.source (NewConfig sources) !! ConfigImpl.level vn) as [s|]; [|done].
    injection Hb as ->. destruct b; cbn; [lia|]. destruct (ConfigImpl.level vn); [by discriminate Hb0|lia]. }
  unfold Filter.Get. change (ds_Get (NewConfig sources) k "" true) with (ConfigImpl.Get (NewConfig sources) k "" true).
  destruct (ConfigImpl.Get (NewConfig sources) k "" true) as [rv i]. cbn [snd] in *.
  assert (Filter.scan_ns (Filter.NewFilter "" [] pw) (NewConfig sources) k = (v, Z.of_nat (ConfigImpl.level vn))) as ->.
  { unfold Filter.scan_ns, Filter.NewFilter. cbn [Filter.ns]. rewrite bool_decide_eq_false_2 by set_solver. cbn [reverse rev_append foldl Filter.ns].
    change (Filter.getPrefix _ "") with "". change (ds_Get (NewConfig sources) k "" false) with (ConfigImpl.Get (NewConfig sources) k "" false).
    rewrite Hplain. unfold Filter.better. cbn [snd]. by rewrite (proj2 (Z.ltb_lt _ _)) by lia. }
  rewrite (proj2 (Z.eqb_neq i (-1)) Hraw'). cbn [andb]. rewrite (proj2 (Z.ltb_ge _ _) Hraw).
  by destruct (Filter.decrypt _ _ _ v).
Qed.

(** Names in lower case are kept by the source wrapper. *)
Lemma lower_vals_id (m : gmap string string) : map_Forall (fun k _ => ToLower k = k) m -> ConfigImpl.lower_vals (map_to_list m) = m.
Proof.
  intros Hm. unfold ConfigImpl.lower_vals.
  assert ((fun '(k, v) => (ToLower k, v)) <$> map_to_list m = map_to_list m) as ->.
  { rewrite <- (list_fmap_id (map_to_list m)) at 2. apply list_fmap_ext. intros i [k v] Hi. cbn.
    apply list_elem_of_lookup_2, elem_of_map_to_list in Hi. by rewrite (Hm k v Hi). }
  apply map_eq. intros k. unfold SourceWrapper.store_all.
  transitivity ((list_to_map (map_to_list m) : gmap string string) !! k); [|by rewrite list_to_map_to_list].
  pose proof (NoDup_fst_map_to_list m) as Hnd. induction (map_to_list m) as [|[k0 v0] l IH] using rev_ind; [done|].
  rewrite foldl_snoc. rewrite fmap_app, NoDup_app in Hnd. destruct Hnd as (Hnd & Hk0 & _).
  rewrite list_to_map_snoc.
  - rewrite !lookup_insert_case. case_decide; [done|]. by apply IH.
  - intros Hin. apply (Hk0 k0 Hin). by left.
Qed.

(** ** Declared flags *)

Lemma flagName_lower ns n : ToLower (flagName ns n) = flagName ns n.
Proof. apply ToLower_idemp. Qed.
Lemma all_flags_names order : map_Forall (fun n f => Name f = n /\ ToLower n = n) (all_flags order).
Proof.
  unfold all_flags. apply foldl_ind; [apply map_Forall_empty|]. intros m [ns fs] _ Hm. cbn.
  apply foldl_ind; [done|]. clear m Hm. intros m f _ Hm. apply map_Forall_insert_2; [|done]. split; [done|apply flagName_lower].
Qed.

Section flags_set.
Context (FormatFloat : spec_float -> string) (DurationString : Z -> string) (Reparse : default_value -> string -> option string).
Notation set_flag := (set_flag Reparse).
Notation parse_args := (parse_args Reparse).
Notation default_text := (default_text FormatFloat DurationString).
Notation PopulateAllFlags := (PopulateAllFlags FormatFloat DurationString).

(** Defaults stay; the names stay. *)
Lemma set_flag_default flags fs n v fs' : set_flag flags fs n v = Some fs' -> DefValue <$> fs' = DefValue <$> fs.
Proof.
  unfold set_flag. intros (f & _ & (old & Hold & (d & _ & (x & _ & [= <-])%bind_Some)%bind_Some)%bind_Some)%bind_Some.
  rewrite fmap_insert. cbn. apply insert_id. by rewrite lookup_fmap, Hold.
Qed.
Lemma parse_args_default flags args : forall fs fs', parse_args flags fs args = Some fs' -> DefValue <$> fs' = DefValue <$> fs.
Proof.
  induction args as [args IH] using (induction_ltof1 _ length). unfold ltof in IH. intros fs fs'.
  destruct args as [|s rest]; cbn [Declare.parse_args]; [by intros [= ->]|].
  destruct (read_argument s) as [| |n v]; [by intros [= ->]|done|]. destruct (flags !! n) as [f|] eqn:Hf; [|done].
  assert (forall x r, length r <= length rest -> (fs1 ← set_flag flags fs n x; parse_args flags fs1 r) = Some fs' -> DefValue <$> fs' = DefValue <$> fs) as H.
  { intros x r Hr (fs1 & H1 & H2)%bind_Some. rewrite (IH r ltac:(cbn; lia) _ _ H2). by eapply set_flag_default. }
  destruct (DefaultValue f) as [[]|]; destruct v as [v|]; try (apply H; lia); (destruct rest as [|v rest]; [done|apply H; cbn; lia]).
Qed.
Lemma populated flags fs k f d : PopulateAllFlags flags = Some fs -> flags !! k = Some f -> DefaultValue f = Some d ->
  (DefValue <$> fs) !! k = Some (default_text d).
Proof.
  unfold Declare.PopulateAllFlags. case_bool_decide; [|done]. intros [= <-] Hf Hd. rewrite !lookup_fmap, Hf. cbn. by rewrite Hd.
Qed.
End flags_set.

(** ** Names declared once *)

Definition declared (order : list (string * list Flag)) : list Flag := order ≫= fun p => qualify p.1 <$> p.2.
Lemma all_flags_declared order : all_flags order = foldl (fun m f => <[Name f := f]> m) ∅ (declared order).
Proof.
  unfold all_flags, declared. generalize (∅ : gmap string Flag). induction order as [|[ns fs] order IH]; intros m; [done|].
  cbn [foldl mbind list_bind]. rewrite foldl_app, IH. f_equal. cbn [fst snd]. clear. revert m. induction fs as [|f fs IH]; intros m; [done|].
  cbn [foldl fmap list_fmap]. by rewrite IH.
Qed.
Lemma insert_names l : NoDup (Name <$> l) -> foldl (fun m f => <[Name f := f]> m) (∅ : gmap string Flag) l = list_to_map ((fun f => (Name f, f)) <$> l).
Proof.
  induction l as [|f l IH] using rev_ind; intros Hnd; [done|]. rewrite fmap_app, NoDup_app in Hnd. destruct Hnd as (Hnd & Hf & _).
  rewrite foldl_snoc, fmap_app, IH by done. change (_ <$> [f]) with [(Name f, f)]. rewrite list_to_map_snoc; [done|]. rewrite <- list_fmap_compose. intros Hin. apply (Hf (Name f) Hin). by left.
Qed.
(** Go iterates over the name spaces in any order.  When no two declarations have the same
    qualified name the table does not depend on it, and every declared flag is in it. *)
Lemma declarations_commute order order' : NoDup (Name <$> declared order) -> declared order ≡ₚ declared order' ->
  all_flags order = all_flags order' /\ forall f, f ∈ declared order -> all_flags order !! Name f = Some f.
Proof.
  intros Hnd Hp. assert (NoDup ((fun f => (Name f, f)) <$> declared order).*1) as Hnd1 by by rewrite <- list_fmap_compose.
  rewrite !all_flags_declared, !insert_names by (done || by rewrite <- Hp). split.
  - apply list_to_map_proper; [done|]. by rewrite Hp.
  - intros f Hf. apply elem_of_list_to_map_1; [done|]. apply list_elem_of_fmap. by exists f.
Qed.

(** ** The command line as a source *)

Definition set_text (fs : gmap string formal) (k : string) : option string :=
  f ← fs !! k; if is_set f then match Value f with FText s => Some s | FMap _ => None end else None.
Definition overwrites (fs : gmap string formal) : gmap string string :=
  default ∅ (f ← fs !! FlagOverwrite; if is_set f then match Value f with FMap m => Some m | FText _ => None end else None).
(** A flag and an overwriting of it: the later in the alphabet wins. *)
Definition cmd_value (fs : gmap string formal) (k : string) : option string :=
  match set_text fs k, overwrites fs !! k with
  | Some s, Some o => Some (if str_less FlagOverwrite k then s else o)
  | Some s, None => Some s
  | None, o => o
  end.
Definition by_name (p q : string * formal) : Prop := str_less p.1 q.1 = true.

Lemma sorted_snoc l p : StronglySorted by_name (l ++ [p]) -> StronglySorted by_name l /\ forall q, q ∈ l -> str_less q.1 p.1 = true.
Proof.
  induction l as [|q l IH]; cbn; [by intros _; split; [constructor|set_solver]|]. intros H. inversion H as [|? ? H1 H2]; subst.
  destruct (IH H1) as [IH1 IH2]. rewrite Forall_app, Forall_singleton in H2. destruct H2 as [H2 H3].
  split; [by constructor|]. intros q'. rewrite elem_of_cons. intros [->|?]; [done|auto].
Qed.
Lemma cmd_Sync_sorted visit k : StronglySorted by_name visit -> k <> FlagOverwrite ->
  cmd_Sync visit !! k = cmd_value (list_to_map visit) k.
Proof.
  intros Hs Hk. induction visit as [|[n f] l IH] using rev_ind; [done|]. apply sorted_snoc in Hs as [Hs Hlast]. specialize (IH Hs).
  unfold cmd_Sync in *. rewrite foldl_snoc. unfold cmd_step at 1. cbn [fst snd].
  assert (n ∉ l.*1) as Hn. { intros (q & -> & Hq)%list_elem_of_fmap. specialize (Hlast q Hq). cbn in Hlast. by rewrite str_less_irrefl in Hlast. }
  rewrite list_to_map_snoc by done. set (m := list_to_map l) in *.
  assert (forall k', is_Some (m !! k') -> str_less k' n = true) as Hlt.
  { intros k' [f' Hf']. apply elem_of_list_to_map_2 in Hf'. exact (Hlast (k', f') Hf'). }
  assert (m !! n = None) as Hmn by (by apply not_elem_of_list_to_map_1).
  unfold cmd_value, set_text, overwrites in *. rewrite !lookup_insert_case. destruct (decide (n = k)) as [->|Hne].
  - rewrite decide_False by done. rewrite Hmn in IH. cbn in *. destruct (is_set f); [|done]. destruct (Value f) as [s|mm]; rewrite bool_decide_eq_false_2 by done; [|done].
    rewrite lookup_insert_eq.
    destruct (m !! FlagOverwrite) eqn:Ho; [rewrite (Hlt FlagOverwrite) by eauto|done]. by destruct (default ∅ _ !! k).
  - destruct (decide (n = FlagOverwrite)) as [->|Hno].
    + rewrite Hmn in IH. cbn in *. destruct (is_set f); [|done]. destruct (Value f) as [s|mm]; rewrite bool_decide_eq_true_2 by done; [done|]. cbn.
      rewrite lookup_union. destruct (mm !! k) eqn:Emk; cbn.
      * rewrite (union_Some_l). destruct (m !! k) as [fk|] eqn:Ek; cbn; [|done]. rewrite (str_less_asym k FlagOverwrite) by eauto.
        by repeat case_match.
      * rewrite (left_id_L None _). rewrite IH. by destruct (m !! k ≫= _).
    + destruct (is_set f); [|by rewrite IH]. destruct (Value f); rewrite bool_decide_eq_false_2 by done; [|by rewrite IH].
      by rewrite lookup_insert_ne, IH by done.
Qed.

Lemma cmd_Sync_lower visit : Forall (fun p => ToLower p.1 = p.1) visit ->
  map_Forall (fun k _ => ToLower k = k) (overwrites (list_to_map visit)) -> NoDup visit.*1 -> map_Forall (fun k _ => ToLower k = k) (cmd_Sync visit).
Proof.
  intros Hv Ho Hnd. unfold cmd_Sync.
  assert (forall l, l ⊆ visit -> map_Forall (fun k _ => ToLower k = k) (foldl cmd_step ∅ l)) as H; [|by apply H].
  induction l as [|[n f] l IH] using rev_ind; intros Hl; [apply map_Forall_empty|]. rewrite foldl_snoc. unfold cmd_step at 1. cbn [fst snd].
  assert (map_Forall (fun k _ => ToLower k = k) (foldl cmd_step ∅ l)) as IH' by (apply IH; set_solver).
  assert ((n, f) ∈ visit) as Hin by set_solver.
  destruct (is_set f) eqn:Hset; [|done]. destruct (Value f) as [s|m] eqn:Hval; case_bool_decide as Hn; try done.
  - apply map_Forall_insert_2; [|done]. rewrite Forall_forall in Hv. by apply (Hv (n, f)).
  - apply map_Forall_union_2; [|done]. subst n. unfold overwrites in Ho. apply elem_of_list_to_map_1 in Hin; [|done].
    rewrite Hin in Ho. cbn in Ho. by rewrite Hset, Hval in Ho.
Qed.

Definition env_value (getenv : string -> string) (f : Flag) : option string :=
  if bool_decide (Env f = "") then None else if bool_decide (getenv (Env f) = "") then None else Some (getenv (Env f)).

Section bootstrap.
Context (FormatFloat : spec_float -> string) (DurationString : Z -> string) (Reparse : default_value -> string -> option string).

Lemma prepared_layers flags (fs fs' : gmap string formal) visit getenv plugins k :
  map_Forall (fun n f => Name f = n /\ ToLower n = n) flags -> dom fs = dom flags ->
  DefValue <$> fs' = DefValue <$> fs -> visit ≡ₚ map_to_list fs' -> StronglySorted by_name visit ->
  map_Forall (fun n _ => ToLower n = n) (overwrites fs') -> ConfigImpl.good_key k -> k <> FlagOverwrite ->
  ConfigSources.shows (NewConfig (prepared_sources (cmd_default_Sync fs') (env_Sync getenv flags) (cmd_Sync visit) plugins)) k =
  match cmd_value fs' k with
  | Some s => Some s
  | None => match flags !! k ≫= env_value getenv with
            | Some s => Some s
            | None => match layered plugins k with Some s => Some s | None => (DefValue <$> fs) !! k end
            end
  end.
Proof.
  intros Hflags Hdom Hdef Hv Hs Ho Hk Hne. rewrite NewConfig_layered by done. unfold prepared_sources. rewrite !layered_app.
  assert (list_to_map visit = fs') as Hlm.
  { rewrite <- (list_to_map_to_list fs'). apply list_to_map_proper; [|done]. rewrite Hv. apply NoDup_fst_map_to_list. }
  assert (forall n, is_Some (fs' !! n) -> ToLower n = n) as Hlow.
  { intros n Hn. assert (n ∈ dom flags) as Hd by (rewrite <- Hdom, <- (dom_fmap_L DefValue fs), <- Hdef, dom_fmap_L; by apply elem_of_dom).
    apply elem_of_dom in Hd as [f Hf]. by apply (Hflags n f Hf). }
  unfold layered at 1. cbn [foldl snd]. rewrite !lower_vals_id.
  - rewrite cmd_Sync_sorted, Hlm by done. destruct (cmd_value fs' k); [done|]. unfold env_Sync. rewrite lookup_omap.
    change (match flags !! k ≫= _ with Some v => Some v | None => None end) with
      (match flags !! k ≫= env_value getenv with Some v => Some v | None => None end).
    destruct (flags !! k ≫= env_value getenv); [done|]. destruct (layered plugins k); [done|].
    unfold layered, cmd_default_Sync. cbn [foldl snd]. rewrite Hdef, lower_vals_id; [by destruct (_ !! k)|].
    rewrite <- Hdef. intros n x. rewrite lookup_fmap. intros (y & Hy & _)%fmap_Some. by apply Hlow.
  - intros n x. unfold env_Sync. rewrite lookup_omap. intros (f & Hf & _)%bind_Some. by apply (Hflags n f).
  - apply cmd_Sync_lower.
    + apply Forall_forall. intros [n f]. rewrite Hv. intros Hin%elem_of_map_to_list. cbn. by apply Hlow.
    + by rewrite Hlm.
    + rewrite Hv. apply NoDup_fst_map_to_list.
Qed.

Lemma bootstrap_value order getenv plugins args fs fs' visit k f d :
  PopulateAllFlags FormatFloat DurationString (all_flags order) = Some fs ->
  parse_args Reparse (all_flags order) fs args = Some fs' ->
  visit ≡ₚ map_to_list fs' -> StronglySorted by_name visit ->
  map_Forall (fun n _ => ToLower n = n) (overwrites fs') ->
  all_flags order !! k = Some f -> DefaultValue f = Some d ->
  PrefixTree.PrefixTree.valid_key ConfigImpl.dot k = true -> k <> FlagOverwrite ->
  ConfigSources.shows (NewConfig (prepared_sources (cmd_default_Sync fs') (env_Sync getenv (all_flags order)) (cmd_Sync visit) plugins)) k =
  Some (default (default (default (default_text FormatFloat DurationString d) (layered plugins k)) (env_value getenv f)) (cmd_value fs' k)).
Proof.
  intros Hpop Hargs Hv Hs Ho Hf Hd Hk Hne. pose proof (all_flags_names order) as Hn.
  rewrite (prepared_layers (all_flags order) fs fs'); try done.
  - rewrite Hf. cbn. rewrite (populated _ _ _ _ _ _ _ Hpop Hf Hd). destruct (cmd_value fs' k); [done|].
    destruct (env_value getenv f); [done|]. by destruct (layered plugins k).
  - unfold PopulateAllFlags in Hpop. case_bool_decide; [|done]. injection Hpop as <-. apply dom_fmap_L.
  - by eapply parse_args_default.
  - split; [|done]. by apply (Hn k f).
Qed.

(** ** The command line as it is written *)

(** One flag of a command line: [-n=v] or [--n=v], [-n v] or [--n v], [-n] or [--n]. *)
Inductive given := WithEquals (two : bool) (n v : string) | WithNext (two : bool) (n v : string) | Switch (two : bool) (n : string).
Definition dashes (two : bool) : string := if two then "--" else "-".
Definition written (g : given) : list string :=
  match g with
  | WithEquals two n v => [dashes two +:+ n +:+ "=" +:+ v]
  | WithNext two n v => [dashes two +:+ n; v]
  | Switch two n => [dashes two +:+ n]
  end.
Definition gives (g : given) : string * string :=
  match g with WithEquals _ n v | WithNext _ n v => (n, v) | Switch _ n => (n, "true") end.
(** A name that can be written on the command line. *)
Definition arg_name (n : string) : bool :=
  match n with EmptyString => false | String a _ => bool_decide (a <> "-"%char) && negb (contains_char "=" n) end.
Definition boolean (flags : gmap string Flag) (n : string) : bool :=
  match flags !! n ≫= DefaultValue with Some (DBool _) => true | _ => false end.
(** A boolean flag does not take the next argument, any other flag does. *)
Definition well_given (flags : gmap string Flag) (g : given) : Prop :=
  arg_name (gives g).1 = true /\
  match g with WithEquals _ _ _ => True | WithNext _ n _ => boolean flags n = false | Switch _ n => boolean flags n = true end.
(** What stands after the flags. *)
Definition no_more_flags (rest : list string) : Prop :=
  match rest with [] => True | s :: _ => s = "-" \/ s = "--" \/ HasPrefix s "-" = false end.

(** The value that is given last, by the flag itself and as [--config.set k=v]. *)
Definition last_for (k : string) (l : list (string * string)) : option string := last (snd <$> filter (fun p => p.1 = k) l).
Definition setting_of (p : string * string) : option (string * string) :=
  if decide (p.1 = "config.set") then match Split "="%char p.2 with [k; x] => Some (k, x) | _ => None end else None.
Definition given_for (gs : list given) (k : string) : option string := last_for k (gives <$> gs).
Definition overwritten_for (gs : list given) (k : string) : option string := last_for k (omap setting_of (gives <$> gs)).

Lemma last_for_snoc k l p : last_for k (l ++ [p]) = if decide (p.1 = k) then Some p.2 else last_for k l.
Proof.
  unfold last_for. rewrite filter_app. case_decide as Hp.
  - rewrite filter_cons_True, filter_nil, fmap_app by done. cbn. apply last_snoc.
  - rewrite filter_cons_False, filter_nil by done. by rewrite app_nil_r.
Qed.
Lemma last_for_in k l v : last_for k l = Some v -> (k, v) ∈ l.
Proof.
  intros ((? & x) & -> & [Hx Hl]%list_elem_of_filter)%last_Some_elem_of%list_elem_of_fmap. cbn in *. by subst.
Qed.

Notation set_all flags o l := (foldl (fun acc p => x ← acc; set_flag Reparse flags x p.1 p.2) o l).

Lemma cut_equals_app n v : contains_char "=" n = false -> cut_equals (n +:+ "=" +:+ v) = (n, Some v).
Proof.
  induction n as [|a n IH]; cbn [contains_char]; intros H; [done|]. destruct (decide (a = "="%char)); [done|].
  change (String a n +:+ "=" +:+ v) with (String a (n +:+ "=" +:+ v)). cbn [cut_equals].
  rewrite bool_decide_eq_false_2 by done. by rewrite IH.
Qed.
Lemma cut_equals_none n : contains_char "=" n = false -> cut_equals n = (n, None).
Proof.
  induction n as [|a n IH]; cbn [contains_char]; intros H; [done|]. destruct (decide (a = "="%char)); [done|].
  cbn [cut_equals]. rewrite bool_decide_eq_false_2 by done. by rewrite IH.
Qed.
Lemma read_dashes two a n r : a <> "-"%char -> a <> "="%char ->
  cut_equals (String a r) = (n, snd (cut_equals (String a r))) ->
  read_argument (dashes two +:+ String a r) = Named n (snd (cut_equals (String a r))).
Proof.
  intros Ha Ha' Hcut. destruct two.
  - change (dashes true +:+ String a r) with (String "-" (String "-" (String a r))). unfold read_argument.
    rewrite (bool_decide_eq_false_2 ("-"%char <> "-"%char)) by tauto. rewrite (bool_decide_eq_false_2 (_ /\ _)) by (intros [_ H]; discriminate H).
    rewrite (bool_decide_eq_true_2 ("-"%char = "-"%char)) by done. cbn [orb]. rewrite bool_decide_eq_false_2 by naive_solver. by rewrite Hcut.
  - change (dashes false +:+ String a r) with (String "-" (String a r)). unfold read_argument.
    rewrite (bool_decide_eq_false_2 ("-"%char <> "-"%char)) by tauto. rewrite (bool_decide_eq_false_2 (_ /\ _)) by naive_solver.
    rewrite (bool_decide_eq_false_2 (a = "-"%char)) by done. cbn [orb]. rewrite bool_decide_eq_false_2 by naive_solver. by rewrite Hcut.
Qed.
Lemma arg_name_cases n : arg_name n = true -> exists a r, n = String a r /\ a <> "-"%char /\ a <> "="%char /\ contains_char "=" n = false.
Proof.
  destruct n as [|a r]; [done|]. cbn [arg_name]. intros [Ha%bool_decide_eq_true_1 Hc%negb_true_iff]%andb_true_iff.
  exists a, r. split_and!; [done|done| |done]. intros ->. by cbn in Hc.
Qed.
Lemma read_equals two n v : arg_name n = true -> read_argument (dashes two +:+ n +:+ "=" +:+ v) = Named n (Some v).
Proof.
  intros (a & r & -> & Ha & Ha' & Hc)%arg_name_cases. pose proof (cut_equals_app _ v Hc) as Hcut.
  change (String a r +:+ "=" +:+ v) with (String a (r +:+ "=" +:+ v)) in *.
  rewrite (read_dashes two a (String a r)) by (done || by rewrite Hcut). by rewrite Hcut.
Qed.
Lemma read_name two n : arg_name n = true -> read_argument (dashes two +:+ n) = Named n None.
Proof.
  intros (a & r & -> & Ha & Ha' & Hc)%arg_name_cases. pose proof (cut_equals_none _ Hc) as Hcut.
  rewrite (read_dashes two a (String a r)) by (done || by rewrite Hcut). by rewrite Hcut.
Qed.
Lemma read_rest s rest : no_more_flags (s :: rest) -> read_argument s = NoFlag.
Proof.
  intros [->|[->|Hs]]; [done|done|]. destruct s as [|c [|a s]]; [done|done|]. unfold read_argument.
  rewrite bool_decide_eq_true_2; [done|]. intros ->. by destruct s.
Qed.
Lemma foldl_none {A B} (f : A -> B -> option A) l : foldl (fun o p => x ← o; f x p) None l = None.
Proof. by induction l. Qed.

(** Flags are set one after the other, as they are written. *)
Lemma arguments_read flags gs rest : Forall (well_given flags) gs -> no_more_flags rest -> forall fs,
  parse_args Reparse flags fs ((gs ≫= written) ++ rest) = set_all flags (Some fs) (gives <$> gs).
Proof.
  intros Hgs Hrest. induction Hgs as [|g gs [Hn Hg] _ IH]; intros fs.
  { cbn. destruct rest as [|s rest]; [done|]. cbn [parse_args]. by rewrite (read_rest s rest). }
  set (n := (gives g).1) in *. set (v := (gives g).2).
  assert ((fs1 ← set_flag Reparse flags fs n v; parse_args Reparse flags fs1 ((gs ≫= written) ++ rest)) =
    set_all flags (Some fs) (gives <$> g :: gs)) as H.
  { cbn [fmap list_fmap foldl mbind option_bind]. fold n v. destruct (set_flag Reparse flags fs n v); cbn; [apply IH|by rewrite foldl_none]. }
  assert (flags !! n = None -> set_all flags (Some fs) (gives <$> g :: gs) = None) as Hnone.
  { intros Hf. rewrite <- H. unfold set_flag. by rewrite Hf. }
  destruct g as [two n' v'|two n' v'|two n']; cbn [gives fst snd] in n, v; subst n v; cbn [mbind list_bind written];
    rewrite <- !app_assoc; cbn [app parse_args]; rewrite ?read_equals, ?read_name by done;
    unfold boolean in Hg; (destruct (flags !! n') as [f|]; [|by rewrite Hnone]); cbn in Hg; rewrite <- H.
  - by destruct (DefaultValue f) as [[]|].
  - by destruct (DefaultValue f) as [[]|].
  - by destruct (DefaultValue f) as [[]|].
Qed.

Lemma set_flag_case flags fs n v fs' : set_flag Reparse flags fs n v = Some fs' ->
  exists f old d x, flags !! n = Some f /\ fs !! n = Some old /\ DefaultValue f = Some d /\
    fs' = <[n := mkFormal (DefValue old) x true]> fs /\
    (d <> DMapFlags -> exists s, x = FText s /\ Canonical Reparse d v = Some s) /\
    (forall m, d = DMapFlags -> Value old = FMap m -> FMap <$> MapFlags_Set m v = Some x).
Proof.
  unfold set_flag. intros (f & Hf & (old & Hold & (d & Hd & (x & Hx & [= <-])%bind_Some)%bind_Some)%bind_Some)%bind_Some.
  exists f, old, d, x. split_and!; [done..| |].
  - intros Hm. destruct d; try done; apply fmap_Some in Hx as (txt & Htxt & ->); eauto.
  - intros m -> Hval. by rewrite Hval in Hx.
Qed.

Lemma set_all_snoc flags o l p : set_all flags o (l ++ [p]) = x ← set_all flags o l; set_flag Reparse flags x p.1 p.2.
Proof. by rewrite foldl_snoc. Qed.

(** A flag has the value that is given last, in its canonical form. *)
Lemma set_all_text flags l k f d fs fs' : flags !! k = Some f -> DefaultValue f = Some d -> d <> DMapFlags ->
  set_text fs k = None -> set_all flags (Some fs) l = Some fs' ->
  match last_for k l with
  | Some v => exists s, Canonical Reparse d v = Some s /\ set_text fs' k = Some s
  | None => set_text fs' k = None
  end.
Proof.
  intros Hf Hd Hm Hfs. revert fs'. induction l as [|[n v] l IH] using rev_ind; intros fs'; [by intros [= <-]|].
  rewrite set_all_snoc, last_for_snoc. intros (fs1 & H1 & (f' & old & d' & x & Hf' & Hold & Hd' & -> & Htext & _)%set_flag_case)%bind_Some.
  specialize (IH fs1 H1). cbn [fst snd] in *. unfold set_text. case_decide as Hnk.
  - subst n. rewrite Hf in Hf'. injection Hf' as <-. rewrite Hd in Hd'. injection Hd' as <-.
    destruct (Htext Hm) as (s & -> & Hs). exists s. rewrite lookup_insert_eq. done.
  - rewrite lookup_insert_ne by done. apply IH.
Qed.

(** The flag for overwriting has the settings that are given last. *)
Lemma set_all_overwrites flags l fs fs' :
  (forall f, flags !! FlagOverwrite = Some f -> DefaultValue f = Some DMapFlags) ->
  PopulateAllFlags FormatFloat DurationString flags = Some fs -> set_all flags (Some fs) l = Some fs' ->
  (forall o, fs' !! FlagOverwrite = Some o -> exists m, Value o = FMap m /\ (is_set o = false -> m = ∅)) /\
  (forall k, overwrites fs' !! k = last_for k (omap setting_of l)).
Proof.
  intros Hov Hpop. revert fs'. induction l as [|[n v] l IH] using rev_ind; intros fs'.
  { intros [= <-]. unfold PopulateAllFlags in Hpop. case_bool_decide; [|done]. injection Hpop as <-.
    assert (forall o, (define_flag FormatFloat DurationString <$> flags) !! FlagOverwrite = Some o -> o = mkFormal "map[]" (FMap ∅) false) as H0.
    { intros o. rewrite lookup_fmap. intros (f & Hf & ->)%fmap_Some. unfold define_flag. by rewrite (Hov f Hf). }
    split; [intros o Ho; rewrite (H0 o Ho); by exists ∅|]. intros k. unfold overwrites.
    destruct ((define_flag _ _ <$> flags) !! FlagOverwrite) as [o|] eqn:Ho; [by rewrite (H0 o eq_refl)|done]. }
  rewrite set_all_snoc. intros (fs1 & H1 & (f & old & d & x & Hf & Hold & Hd & -> & _ & Hmap)%set_flag_case)%bind_Some.
  destruct (IH fs1 H1) as [IH1 IH2]. cbn [fst snd] in *. rewrite omap_app.
  assert (omap setting_of [(n, v)] = if decide (n = FlagOverwrite) then match Split "="%char v with [k; x] => [(k, x)] | _ => [] end else []) as ->.
  { cbn. unfold setting_of. cbn [fst snd]. change "config.set" with FlagOverwrite. case_decide; [|done]. by destruct (Split _ v) as [|? [|? [|? ?]]]. }
  destruct (decide (n = FlagOverwrite)) as [->|Hn].
  - destruct (IH1 old Hold) as (m & Hval & Hempty). rewrite (Hov f Hf) in Hd. injection Hd as <-.
    specialize (Hmap m eq_refl Hval). unfold MapFlags_Set in Hmap.
    destruct (Split "=" v) as [|k1 [|x1 [|? ?]]]; try done. case_bool_decide; [done|]. injection Hmap as <-.
    split; [intros o Ho; rewrite lookup_insert_eq in Ho; injection Ho as <-; by eexists|]. intros k. rewrite last_for_snoc. cbn [fst snd].
    unfold overwrites. rewrite lookup_insert_eq. cbn. rewrite lookup_insert_case, <- IH2. case_decide; [done|].
    unfold overwrites. rewrite Hold. cbn. destruct (is_set old) eqn:Hset; rewrite ?Hval; [done|]. by rewrite Hempty.
  - rewrite app_nil_r. split; [intros o; rewrite lookup_insert_ne by done; apply IH1|].
    intros k. rewrite <- IH2. unfold overwrites. by rewrite lookup_insert_ne.
Qed.

(** The text of a value: boolean values are written in one way, and the printing of numbers,
    durations and the like is that of their types. *)
Definition value_text (d : default_value) (v text : string) : Prop :=
  match d with
  | DString _ | DOther => text = v
  | DBool _ => (v ∈ ["1"; "t"; "T"; "true"; "TRUE"; "True"] /\ text = "true") \/
               (v ∈ ["0"; "f"; "F"; "false"; "FALSE"; "False"] /\ text = "false")
  | d => Reparse d v = Some text
  end.
Definition printed_default (d : default_value) (text : string) : Prop :=
  match d with
  | DString s => text = s
  | DBool true => text = "true"
  | DBool false => text = "false"
  | DInt n => text = Value.Value.FormatInt n
  | DUint n => text = Value.Value.FormatUint n
  | DFloat f => text = FormatFloat f
  | DDuration x => text = DurationString x
  | DMapFlags => text = "map[]"
  | DOther => text = ""
  end.
(** The name of an environment variable: upper case, with underscores for dots and without
    anything but letters, digits and underscores. *)
Definition variable_char (a : ascii) : option ascii :=
  let n := nat_of_ascii a in
  if decide (a = "."%char) then Some "_"%char
  else if decide (97 <= n /\ n <= 122) then Some (ascii_of_nat (n - 32))
  else if decide ((65 <= n /\ n <= 90) \/ (48 <= n /\ n <= 57) \/ a = "_"%char) then Some a else None.
Definition variable (s : string) : string := String.string_of_list_ascii (omap variable_char (String.list_ascii_of_string s)).
Definition variable_of (k own : string) : string :=
  if decide (k = "verbose") then "" else variable (if decide (own = "") then k else own).

Lemma variable_envVarName k own : envVarName k own = variable_of k own.
Proof.
  unfold envVarName, variable_of. case_bool_decide as Hv; case_decide; try done.
  assert (forall s, filter_string env_char (map_string (fun a => if decide (a = "."%char) then "_"%char else a) (ToUpper s)) = variable s) as Hc.
  { induction s as [|a s IH]; [done|]. cbn [ToUpper map_string filter_string]. rewrite IH. unfold variable. cbn [String.list_ascii_of_string].
    destruct a as [[] [] [] [] [] [] [] []]; reflexivity. }
  rewrite Hc. case_bool_decide; by case_decide.
Qed.
Lemma Canonical_text d v s : Canonical Reparse d v = Some s -> d <> DMapFlags -> value_text d v s.
Proof.
  destruct d; cbn; try naive_solver. unfold ParseBool. repeat case_bool_decide; intros [= <-] _; set_solver.
Qed.
Lemma default_text_printed d : printed_default d (default_text FormatFloat DurationString d).
Proof. by destruct d as [|[]| | | | | |]. Qed.

(** The sources of plugins, in lower case: the value of the last one that has the key. *)
Definition plugins_say (plugins : list (bool * gmap string string)) (k : string) : option string :=
  last (omap (fun p => p.2 !! k) plugins).
Lemma plugins_layered plugins k : Forall (fun p => map_Forall (fun n _ => ToLower n = n) p.2) plugins ->
  layered plugins k = plugins_say plugins k.
Proof.
  intros Hlow. induction plugins as [|p plugins IH] using rev_ind; [done|]. apply Forall_app in Hlow as [Hlow Hp].
  rewrite Forall_singleton in Hp. unfold layered, plugins_say. rewrite foldl_snoc, lower_vals_id, omap_app by done.
  cbn. destruct (p.2 !! k); [by rewrite last_snoc|]. rewrite app_nil_r. by apply IH.
Qed.

(** C5: Start-up.  A declared flag has, in this order: what the command line gives it last,
    with one dash or two, the value after an equals sign or in the next argument, or none for a
    boolean flag; the value of its environment variable when that is not empty; what the last
    of the source plugins with the key says; and its default.  Between a value given to the
    flag and one given to it with [config.set] the alphabet decides: the name that comes later
    wins.  Given values are in the form in which their type prints them; arguments after two
    dashes or after the first one that is no flag are not looked at.  So it is looked up in a
    view without name spaces and prefix, which decrypts values that are marked so.  (No two
    flags have the same name, sources and [config.set] name keys in lower case, and the
    process goes on, that is, the arguments are good.) *)
Theorem bootstrap_layers {key : Type} (Decrypt : key -> string -> option string) (K : key) (pw : list key)
    order ns declarations f d getenv plugins gs rest fs fs' visit k :
  (ns, declarations) ∈ order -> f ∈ declarations -> NoDup (Name <$> declared order) ->
  k = flagName ns (Name f) -> DefaultValue f = Some d -> d <> DMapFlags ->
  (forall o, all_flags order !! FlagOverwrite = Some o -> DefaultValue o = Some DMapFlags) ->
  PopulateAllFlags FormatFloat DurationString (all_flags order) = Some fs ->
  Forall (well_given (all_flags order)) gs -> no_more_flags rest ->
  parse_args Reparse (all_flags order) fs ((gs ≫= written) ++ rest) = Some fs' ->
  visit ≡ₚ map_to_list fs' -> StronglySorted by_name visit ->
  Forall (fun p => ToLower p.1 = p.1) (omap setting_of (gives <$> gs)) ->
  Forall (fun p => map_Forall (fun n _ => ToLower n = n) p.2) plugins ->
  PrefixTree.PrefixTree.valid_key ConfigImpl.dot k = true ->
  let view := Filter.NewFilter "" [] pw in
  let c := NewConfig (prepared_sources (cmd_default_Sync fs') (env_Sync getenv (all_flags order)) (cmd_Sync visit) plugins) in
  let var := variable_of k (Env f) in
  exists text, (Filter.Get Decrypt K view c k).1 = ((Filter.decrypt Decrypt K view text).1, true) /\
    match given_for gs k, overwritten_for gs k with
    | Some v, Some o => if str_less "config.set" k then value_text d v text else text = o
    | Some v, None => value_text d v text
    | None, Some o => text = o
    | None, None =>
        if decide (var <> "" /\ getenv var <> "") then text = getenv var
        else match plugins_say plugins k with Some v => text = v | None => printed_default d text end
    end.
Proof.
  intros Hns Hdecl Hnd Hk Hd Hm Hov Hpop Hgs Hrest Hargs Hv Hs Hlow Hplug Hvalid view c var.
  assert (all_flags order !! k = Some (qualify ns f)) as Hf.
  { rewrite Hk. apply (proj2 (declarations_commute order order Hnd ltac:(done)) (qualify ns f)).
    unfold declared. apply list_elem_of_bind. exists (ns, declarations). split; [|done]. apply list_elem_of_fmap. by exists f. }
  rewrite arguments_read in Hargs by done.
  assert (k <> FlagOverwrite) as Hne. { intros E. rewrite E in Hf. apply Hov in Hf. cbn in Hf. congruence. }
  assert (DefaultValue (qualify ns f) = Some d) as Hd' by done.
  destruct (set_all_overwrites _ _ _ _ Hov Hpop Hargs) as [_ Hover].
  assert (set_text fs k = None) as Hfs.
  { unfold PopulateAllFlags in Hpop. case_bool_decide; [|done]. injection Hpop as <-. unfold set_text. rewrite lookup_fmap, Hf. done. }
  pose proof (set_all_text _ _ _ _ _ _ _ Hf Hd' Hm Hfs Hargs) as Htext.
  assert (map_Forall (fun n _ => ToLower n = n) (overwrites fs')) as Ho.
  { intros n x. rewrite Hover. intros Hin%last_for_in. rewrite Forall_forall in Hlow. exact (Hlow (n, x) Hin). }
  rewrite <- (arguments_read _ _ rest) in Hargs by done.
  pose proof (bootstrap_value order getenv plugins _ fs fs' visit k _ d Hpop Hargs Hv Hs Ho Hf Hd' Hvalid Hne) as Hshow.
  eexists. split.
  { apply (NewConfig_lookup Decrypt K pw _ (cmd_default_Sync fs') k _); [done| |exact Hshow].
    split; [|done]. rewrite Hk. apply flagName_lower. }
  unfold given_for, overwritten_for. rewrite <- Hover. unfold cmd_value.
  destruct (last_for k (gives <$> gs)) as [v|].
  - destruct Htext as (s & Hc & ->). apply Canonical_text in Hc; [|done]. change "config.set" with FlagOverwrite.
    destruct (overwrites fs' !! k); [|done]. by destruct (str_less FlagOverwrite k).
  - rewrite Htext. destruct (overwrites fs' !! k); [done|]. cbn [default]. unfold env_value, qualify. cbn [Env].
    rewrite <- Hk, variable_envVarName. fold var.
    destruct (decide (var <> "" /\ getenv var <> "")) as [[? ?]|Hno]; [by rewrite !bool_decide_eq_false_2|].
    assert ((if bool_decide (var = "") then None else if bool_decide (getenv var = "") then None else Some (getenv var)) = None) as ->
      by (repeat case_bool_decide; naive_solver).
    cbn [default]. rewrite <- (plugins_layered plugins k Hplug).
    destruct (layered plugins k); cbn; [done|]. apply default_text_printed.
Qed.
End bootstrap.

(** ** Examples *)

Definition flag (name : string) (d : default_value) : Flag := mkFlag name (Some d) "" Uri.UriFieldNone None false false false "" "" false.
Definition example_order : list (string * list Flag) :=
  [("server", [flag "port" (DString "80"); flag "server.name" (DString "a"); flag "debug" (DBool false)]); ("config", [flag "config.set" DMapFlags])].
Definition no_float (_ : spec_float) : string := "".
Definition no_duration (_ : Z) : string := "".
Definition no_reparse (_ : default_value) (s : string) : option string := Some s.
Definition example_formals : gmap string formal := default ∅ (PopulateAllFlags no_float no_duration (all_flags example_order)).
Definition example_given : list given :=
  [WithEquals true "server.port" "1"; WithNext true "config.set" "server.name=c"; WithNext false "server.port" "90"; Switch false "server.debug"].
Definition example_set : gmap string formal :=
  default ∅ (parse_args no_reparse (all_flags example_order) example_formals ((example_given ≫= written) ++ ["--"; "--server.port=7"])).
Definition example_visit : list (string * formal) :=
  omap (fun n => (n,.) <$> example_set !! n) ["config.set"; "server.debug"; "server.name"; "server.port"].
Definition example_env (n : string) : string := if decide (n = "SERVER_DEBUG") then "f" else "".
Definition example_plugins : list (bool * gmap string string) := [(false, {["server.port" := "81"]})].
Definition example_config : ConfigImpl.ConfigImpl :=
  NewConfig (prepared_sources (cmd_default_Sync example_set) (env_Sync example_env (all_flags example_order)) (cmd_Sync example_visit) example_plugins).
Definition example_lookup (k : string) : string * bool :=
  (Filter.Get (fun (_ : unit) _ => None) tt (Filter.NewFilter "" [] []) example_config k).1.

Lemma example_visited : example_visit ≡ₚ map_to_list example_set.
Proof. apply (bool_decide_eq_true_1 (Permutation _ _)). by vm_compute. Qed.
Lemma example_sorted : StronglySorted by_name example_visit.
Proof.
  replace example_visit with ((fun n => (n, default (mkFormal "" (FText "") false) (example_set !! n))) <$> ["config.set"; "server.debug"; "server.name"; "server.port"]) by by vm_compute.
  repeat constructor.
Qed.

(** The last of two values is used, and a value is overwritten. *)
Lemma bootstrap_layers_witness : example_lookup "server.port" = ("90", true).
Proof.
  unshelve epose proof (bootstrap_layers no_float no_duration no_reparse (fun (_ : unit) _ => None) tt [] example_order "server"
    [flag "port" (DString "80"); flag "server.name" (DString "a"); flag "debug" (DBool false)] (flag "port" (DString "80")) (DString "80")
    example_env example_plugins example_given ["--"; "--server.port=7"] example_formals example_set example_visit "server.port"
    _ _ _ _ _ _ _ _ _ _ _ _ _ _ _ _) as (text & Hget & Htext).
  - left.
  - left.
  - apply (bool_decide_unpack _). by vm_compute.
  - by vm_compute.
  - done.
  - done.
  - intros o Ho. vm_compute in Ho. by injection Ho as <-.
  - apply (bool_decide_eq_true_1 _). by vm_compute.
  - repeat (constructor; [split; by vm_compute|]). constructor.
  - right. by left.
  - apply (bool_decide_eq_true_1 _). by vm_compute.
  - apply example_visited.
  - apply example_sorted.
  - apply (bool_decide_unpack _). by vm_compute.
  - apply (bool_decide_unpack _). by vm_compute.
  - by vm_compute.
  - vm_compute in Htext. subst text. exact Hget.
Defined.
Example overwritten_name : example_lookup "server.name" = ("c", true) /\ example_lookup "server.debug" = ("true", true).
Proof. by vm_compute. Qed.

(** [config.set] wins over the flag itself when the flag's name comes before it in the alphabet,
    and loses when it comes after. *)
Definition overwriting (n : string) : option string :=
  let fs : gmap string formal := <[n := mkFormal "" (FText "flag") true]> {[FlagOverwrite := mkFormal "map[]" (FMap {[n := "overwritten"]}) true]} in
  cmd_value fs n.
Example alphabet_decides : overwriting "balancer.type" = Some "overwritten" /\ overwriting "server.port" = Some "flag".
Proof. by vm_compute. Qed.
(** Two flags share an environment variable when their names differ in other characters. *)
Example shared_variable : envVarName "http.keep-alive" "" = envVarName "http.keepalive" "" /\ envVarName "http.keep-alive" "" = "HTTP_KEEPALIVE".
Proof. by vm_compute. Qed.
(** A value with an equals sign cannot be overwritten. *)
Example equals_refused : MapFlags_Set ∅ "db.uri=mysql://h?x=1" = None.
Proof. done. Qed.
(** A pattern that is no regular expression shows everything, or hides everything. *)
Example bad_pattern n : isFlagShow (fun _ _ => None) n ["("] [] = true /\ isFlagShow (fun _ _ => None) n [] ["("] = false.
Proof. done. Qed.

End Declare.
