(* ===== verification/Plugin.v ===== *)
(** * Plugins ([internal/declare/plugin.go], [declare/plugin.go], [plugin/plugin.go], [di/di.go],
    [internal/config/config.go]).

    A plugin is declared with its type and flags, which also say how a URI configures it.  It is
    created by name, or from a URI that becomes the top layer of a configuration of its own, by
    an injector that hands the configuration to its constructor. *)

From S2P Require Import Prelude GoStrings PrefixTree ConfigImpl ConfigSources Uri Declare.
From Stdlib Require Import Ascii SpecFloat.

Open Scope string_scope.
Open Scope list_scope.

Module Plugin.
Import Declare.
#[local] Existing Instance Uri.UriFieldType_eq_dec.

(** ** The injector ([di/di.go]) *)

(** What [reflect] tells of a type. *)
Inductive Kind := KFunc | KPtr | KInterface | KOther.
Record GoType := mkType { type_name : string; type_kind : Kind; is_error : bool }.
#[export] Instance Kind_eq_dec : EqDecision Kind.
Proof. solve_decision. Defined.
Record FuncType := mkFunc { func_kind : Kind; outs : list GoType; ins : list GoType }.
Record Provider := mkProvider { invoker : nat; provideType : GoType; withError : bool; singleton : bool }.

Definition must_return : string := "the provider must returns an instance or instance with an error".
(** No type is given nil; the duplicates of the parameters are found by their types. *)
Definition checkProvider (t : option FuncType) : gores GoType :=
  match t with
  | None => Err "the provider must be a function object"
  | Some t =>
      if negb (bool_decide (func_kind t = KFunc)) then Err "the provider must be a function object" else
      out ← match outs t with
            | [o] => Ok o
            | [o; e] => if negb (bool_decide (type_kind o = KInterface)) || is_error e then Err must_return else Ok o
            | _ => Err must_return
            end;
      if bool_decide (NoDup (type_name <$> ins t)) then Ok out else Err "the parameters of provider can not have duplicate type"
  end.
Definition Provide (providers : list Provider) (provider : nat) (t : option FuncType) (single : bool) : list Provider * option string :=
  match checkProvider t with
  | Ok out => (providers ++ [mkProvider provider out (bool_decide (length (from_option outs [] t) = 2)) single], None)
  | Err e | Panic e => (providers, Some e)
  end.
Definition Clear (providers : list Provider) : list Provider := [].

(** ** Declarations ([internal/declare/plugin.go]) *)

(** [PluginType]: its name and its default plugin. *)
Notation PluginType := (string * string)%type.
Record PluginInfo := mkInfo { pname : string; Creator : nat * option FuncType; pdeprecated : bool; ForceEnableUri : bool }.
Record PluginTypeInfo := mkTypeInfo { uriParser : option Uri.SimpleUriParser; pluginInfos : list PluginInfo }.
Record registry := mkRegistry {
  AllPlugins : gmap PluginType PluginTypeInfo;
  PluginCreators : gmap PluginType (gmap string (list Provider));
  allFlagsWithNs : gmap string (list Flag)
}.

Definition is_field (t : Uri.UriFieldType) : bool := bool_decide (t <> Uri.UriFieldNone /\ t <> Uri.UriFieldQuery).
Definition uri_flag (plugin : string) (p : Uri.SimpleUriParser) (f : Flag) : Uri.SimpleUriParser :=
  let p := Uri.WithScheme p plugin in
  if is_field (UriField f) then Uri.WithField p plugin (UriField f) (Name f) (UriFieldHandler f) else Uri.WithQuery p plugin (Name f).
(** What a declaration makes of the type's URI parser. *)
Definition declare_uri (typ : PluginType) (plugin : PluginInfo) (flags : list Flag) (p : option Uri.SimpleUriParser) : option Uri.SimpleUriParser :=
  let p' := default (Uri.NewSimpleUriParser typ.1 "type") p in
  match flags with
  | [] => if ForceEnableUri plugin then Some (Uri.WithScheme p' (pname plugin)) else p
  | _ => if existsb (fun f => bool_decide (UriField f <> Uri.UriFieldNone)) flags then Some (foldl (uri_flag (pname plugin)) p' flags) else p
  end.
Definition plugin_flag (typ : PluginType) (plugin : PluginInfo) (f : Flag) : Flag :=
  mkFlag (Name f) (DefaultValue f) (Env f) (UriField f) (UriFieldHandler f) (Sensitive f) (Deprecated f)
    (pluginTypeFlag f) typ.1 (pname plugin) (pdeprecated plugin).
Definition declare_plugin (r : registry) (typ : PluginType) (plugin : PluginInfo) (flags : list Flag) : registry :=
  let info := default (mkTypeInfo None []) (AllPlugins r !! typ) in
  let creators := default ∅ (PluginCreators r !! typ) in
  mkRegistry
    (<[typ := mkTypeInfo (declare_uri typ plugin flags (uriParser info)) (pluginInfos info ++ [plugin])]> (AllPlugins r))
    (<[typ := <[pname plugin := (Provide [] (Creator plugin).1 (Creator plugin).2 false).1]> creators]> (PluginCreators r))
    (match flags with
     | [] => if ForceEnableUri plugin then Flags (allFlagsWithNs r) (typ.1 +:+ "." +:+ pname plugin) [] else allFlagsWithNs r
     | _ => Flags (allFlagsWithNs r) (typ.1 +:+ "." +:+ pname plugin) (plugin_flag typ plugin <$> flags)
     end).

Definition PluginTypeFlag (typ : string) : string := typ +:+ ".type".
Definition type_flag (name : string) (d : string) : Flag :=
  mkFlag name (Some (DString d)) "" Uri.UriFieldNone None false false true "" "" false.
Definition defaultPlugin (typ : PluginType) (infos : list PluginInfo) : string :=
  foldl (fun d p => if pdeprecated p then d else if bool_decide (pname p = typ.2) then typ.2 else d) "" infos.
(** [PopulatePluginFlags] for the types in the order of the iteration; an error ends the process. *)
Definition populate_type (acc : gores (gmap string Uri.UriParser * gmap string (list Flag))) (p : PluginType * PluginTypeInfo) :=
  '(uris, flags) ← acc;
  match pluginInfos p.2 with
  | [] => Ok (uris, flags)
  | infos =>
      '(uris, flags) ← match uriParser p.2 with
                       | Some s => uris ← Uri.RegisterUri uris (Uri.simple_parser s); Ok (uris, Flags flags "" [type_flag p.1.1 ""])
                       | None => Ok (uris, flags)
                       end;
      Ok (uris, Flags flags "" [type_flag (PluginTypeFlag p.1.1) (defaultPlugin p.1 infos)])
  end.
Definition PopulatePluginFlags (uris : gmap string Uri.UriParser) (r : registry) (order : list (PluginType * PluginTypeInfo)) :=
  foldl populate_type (Ok (uris, allFlagsWithNs r)) order.

(** The public table of [declare/plugin.go]. *)
Definition pluginInfoMap := gmap PluginType (gmap string (PluginInfo * list Flag)).
Definition public_Plugin (m : pluginInfoMap) (typ : PluginType) (plugin : PluginInfo) (flags : list Flag) : pluginInfoMap :=
  <[typ := <[pname plugin := (plugin, flags)]> (default ∅ (m !! typ))]> m.
Definition PluginInfoByType (m : pluginInfoMap) (typ : PluginType) : gmap string (PluginInfo * list Flag) := default ∅ (m !! typ).
Definition HasPlugin (m : pluginInfoMap) (typ : PluginType) : bool := negb (bool_decide (PluginInfoByType m typ = ∅)).

(** ** Creating plugins ([plugin/plugin.go]) *)

(** [strings.Replace(s, old, new, -1)] and [strings.Repeat("*", n)]; without an old text the new
    one comes before every character. *)
Fixpoint replace_all (fuel : nat) (s old new : string) : string :=
  match fuel with
  | O => s
  | S fuel =>
      match s with
      | EmptyString => EmptyString
      | String a s' => if HasPrefix s old then new +:+ replace_all fuel (sdrop (String.length old) s) old new else String a (replace_all fuel s' old new)
      end
  end.
Definition ReplaceAll (s old new : string) : string := if bool_decide (old = "") then s else replace_all (String.length s) s old new.
Fixpoint stars (n : nat) : string := match n with O => "" | S n => String "*" (stars n) end.
Definition masked (s : string) : string := stars (String.length s).
(** Mask a text in the URI and the arguments that are equal to it.  The text is replaced by as
    many stars, and nothing when it is empty. *)
Definition mask (acc : string * gmap string string) (s : string) : string * gmap string string :=
  (ReplaceAll acc.1 s (masked s), (fun x => if bool_decide (x = s) then masked s else x) <$> acc.2).
(** [user]: user name and password of the URI, when it parses and has one; [order]: the arguments
    in the order of the iteration. *)
Definition desensitization (sensitive : gset string) (user : option (string * option string)) (uri : string) (args : gmap string string) (order : list string)
  : string * gmap string string :=
  let acc := match user with
             | None => (uri, args)
             | Some (name, password) => let acc := mask (uri, args) name in from_option (mask acc) acc password
             end in
  foldl (fun acc k => if bool_decide (k ∈ sensitive) then
           match acc.2 !! k with
           | Some x => (ReplaceAll acc.1 x (masked x), <[k := masked x]> acc.2)
           | None => acc
           end else acc) acc order.

Section create.
(** Configurations, with identity; the world that constructors change. *)
Context {C W : Type} `{EqDecision C}.
Context (GetString : C -> string -> string) (WithPrefix : C -> string -> C) (UriConfig : string -> gmap string string -> gores C).
Context (ParseRequestURI : string -> option Uri.URL) (uris : gmap string Uri.UriParser).

(** A computation answers an error, if any; without an answer it is still running. *)
Definition M := W -> option (W * option string).
Inductive extra_arg := AConfig (c : C) | AOther (n : nat).
#[global] Instance extra_arg_eq_dec : EqDecision extra_arg.
Proof. solve_decision. Defined.

(** An injector: [Invoke] for functions of a configuration that answer an error, [Create] into
    the pointer that is asked for, [InvokeError] for a function that takes the error of a
    provider: the injector's own error, and the one that the function is given. *)
Record DepInjector := mkInjector {
  Invoke : (C -> M) -> list extra_arg -> M;
  Create : list extra_arg -> M;
  InvokeError : list extra_arg -> W -> option (W * option string * option string)
}.
Context (GlobalDepInjector : DepInjector) (creators : gmap string (gmap string DepInjector)).

Definition replaceConfig (extra : list extra_arg) (old : option C) (new : C) : list extra_arg :=
  match (fun e => if bool_decide (Some e = AConfig <$> old) then AConfig new else e) <$> extra with [] => [AConfig new] | args => args end.
Definition pluginCreator (typ name : string) : gores DepInjector :=
  match creators !! typ ≫= (.!! name) with Some c => Ok c | None => Err ("'" +:+ typ +:+ "." +:+ name +:+ "' plugin not found") end.
Definition ConfigForPluginInit (c : C) (typ name : string) : C := WithPrefix c (typ +:+ "." +:+ name).

Definition parse_plugin_uri (typ u : string) : gores (gmap string string) :=
  match Uri.ParseUri ParseRequestURI uris typ u with
  | Err e => Err ("parse " +:+ typ +:+ " plugin URI " +:+ u +:+ " failed, err = " +:+ e)
  | r => r
  end.
Fixpoint parsePluginUris (typ : string) (us : list string) (callback : C -> M) (has : bool) (w : W) : option (W * bool * option string) :=
  match us with
  | [] => Some (w, has, None)
  | u :: us =>
      if negb (bool_decide (u = "")) && Uri.IsUriRegistered uris typ then
        match p ← parse_plugin_uri typ u; UriConfig typ p with
        | Err e | Panic e => Some (w, true, Some e)
        | Ok c =>
            match callback c w with
            | None => None
            | Some (w, Some e) => Some (w, true, Some e)
            | Some (w, None) => parsePluginUris typ us callback true w
            end
        end
      else parsePluginUris typ us callback has w
  end.
Definition enumUriPluginConfig (typ : string) (c : C) (multipleUri : bool) (callback : C -> M) (w : W) : option (W * bool * option string) :=
  parsePluginUris typ (if multipleUri then Split ";" (GetString c typ) else [GetString c typ]) callback false w.

Definition CreatePluginWithName (typ name : string) (extra : list extra_arg) : M :=
  Invoke GlobalDepInjector (fun c w =>
    match pluginCreator typ name with
    | Ok creator => Create creator (replaceConfig extra (Some c) (ConfigForPluginInit c typ name)) w
    | Err e | Panic e => Some (w, Some e)
    end) extra.
Definition InvokePluginWithName (typ name : string) (extra : list extra_arg) : M :=
  Invoke GlobalDepInjector (fun c w =>
    match pluginCreator typ name with
    | Ok creator =>
        '(w, own, err) ← InvokeError creator (replaceConfig extra (Some c) (ConfigForPluginInit c typ name)) w;
        Some (w, match own with Some e => Some e | None => err end)
    | Err e | Panic e => Some (w, Some e)
    end) extra.

(** The recursion over the configuration of a URI. *)
Section plugin_loop.
Context (multipleUri : bool) (WithName : string -> string -> list extra_arg -> M).
Fixpoint plugin_loop (fuel : nat) (typ : string) (extra : list extra_arg) : M :=
  match fuel with
  | O => fun _ => None
  | S fuel =>
      Invoke GlobalDepInjector (fun c w =>
        match enumUriPluginConfig typ c multipleUri (fun uriConfig => plugin_loop fuel typ (replaceConfig extra (Some c) uriConfig)) w with
        | None => None
        | Some (w, true, e) => Some (w, e)
        | Some (w, false, _) =>
            let t := GetString c (PluginTypeFlag typ) in
            if bool_decide (t = "") then Some (w, None) else WithName typ t extra w
        end) extra
  end.
Definition plugin_with_uri (fuel : nat) (typ uri : string) : M := fun w =>
  match parsePluginUris typ [uri] (fun uriConfig => plugin_loop fuel typ (replaceConfig [] None uriConfig)) false w with
  | None => None
  | Some (w, _, Some e) => Some (w, Some e)
  | Some (w, false, None) => Some (w, Some ("no plugin type " +:+ typ +:+ " registered for pluginUri " +:+ uri))
  | Some (w, true, None) => Some (w, None)
  end.
End plugin_loop.
Definition CreatePlugin := plugin_loop false CreatePluginWithName.
Definition CreatePluginWithUri := plugin_with_uri false CreatePluginWithName.
Definition InvokePlugin := plugin_loop true InvokePluginWithName.
Definition InvokePluginWithUri := plugin_with_uri true InvokePluginWithName.

(** The source plugins of [PrepareConfigs]; what a constructor leaves in the pointer is the
    world, empty before. *)
Section prepare.
Context (nil : W).
Fixpoint uri_plugins (us : list string) : option (gores (list W)) :=
  match us with
  | [] => Some (Ok [])
  | u :: us =>
      if negb (bool_decide (u = "")) && Uri.IsUriRegistered uris "config" then
        match p ← parse_plugin_uri "config" u; UriConfig "config" p with
        | Err e | Panic e => Some (Err e)
        | Ok c =>
            match CreatePluginWithName "config" (GetString c (PluginTypeFlag "config")) [AConfig c] nil with
            | None => None
            | Some (_, Some e) => Some (Err e)
            | Some (w, None) => match uri_plugins us with Some (Ok ws) => Some (Ok (w :: ws)) | r => r end
            end
        end
      else uri_plugins us
  end.
Definition source_plugins (fuel : nat) (bootstrap : C) : option (gores (list W)) :=
  let configUri := GetString bootstrap "config" in
  if bool_decide (configUri = "") then
    match CreatePlugin fuel "config" [AConfig bootstrap] nil with
    | None => None
    | Some (_, Some e) => Some (Err e)
    | Some (w, None) => Some (Ok [w])
    end
  else uri_plugins (Split ";" configUri).
End prepare.
End create.

(** The injector of [di.go]: [Invoke] answers without a call, [Create] refuses pointers and
    creates nothing. *)
Definition di_injector (C W : Type) (ptr : Kind) : @DepInjector C W :=
  mkInjector (fun _ _ w => Some (w, None))
    (fun _ w => Some (w, if bool_decide (ptr = KPtr) then Some "cannot detect type of the object-ptr, make sure your are passing reference of the object" else None))
    (fun _ w => Some (w, None, None)).

(** ** The configuration of a URI ([UriConfig]) and of the program ([PrepareConfigs]) *)

Definition uri_params (typ : string) (p : gmap string string) : list (string * ConfigSources.value) :=
  (fun kv => (kv.1, ConfigSources.VString kv.2)) <$> map_to_list (<[typ := ""]> p).
Section sources.
Context (FormatFloat : spec_float -> string) (DurationString : Z -> string).
Definition uri_sources (typ : string) (p defaults env cmd : gmap string string) : list (bool * gmap string string) :=
  [(true, defaults); (true, env); (true, cmd);
   (false, ConfigSources.memory_Sync FormatFloat DurationString (ConfigSources.mkMemory (uri_params typ p)))].
Definition UriConfig_of (typ : string) (p defaults env cmd : gmap string string) : ConfigImpl.ConfigImpl :=
  NewConfig (uri_sources typ p defaults env cmd).
End sources.

(** ** What creating does *)

Section created.
Context {C W : Type} `{EqDecision C}.
Context (GetString : C -> string -> string) (WithPrefix : C -> string -> C) (UriConfig : string -> gmap string string -> gores C).
Context (ParseRequestURI : string -> option Uri.URL) (uris : gmap string Uri.UriParser).
Context (creators : gmap string (gmap string (@DepInjector C W))).
Notation CreatePluginWithName I := (CreatePluginWithName WithPrefix I creators).
Notation InvokePluginWithName I := (InvokePluginWithName WithPrefix I creators).
Notation CreatePlugin I := (CreatePlugin GetString WithPrefix UriConfig ParseRequestURI uris I creators).
Notation InvokePlugin I := (InvokePlugin GetString WithPrefix UriConfig ParseRequestURI uris I creators).
Notation parse_plugin_uri := (parse_plugin_uri ParseRequestURI uris).
Notation parsePluginUris := (parsePluginUris UriConfig ParseRequestURI uris).

Fixpoint config_of (extra : list (@extra_arg C)) (global : C) : C :=
  match extra with [] => global | AConfig c :: _ => c | AOther _ :: extra => config_of extra global end.
(** What an injector promises: it hands a function the configuration among its parameters, or
    the global one. *)
Class Resolves (I : @DepInjector C W) (global : C) := invoke_resolves : forall f extra w,
  Invoke I f extra w = f (config_of extra global) w.

Lemma plugin_loop_S (I : @DepInjector C W) multi (WithName : string -> string -> list extra_arg -> M) n typ extra w :
  plugin_loop GetString UriConfig ParseRequestURI uris I multi WithName (S n) typ extra w =
  Invoke I (fun c (w : W) =>
    match enumUriPluginConfig GetString UriConfig ParseRequestURI uris typ c multi
        (fun uriConfig => plugin_loop GetString UriConfig ParseRequestURI uris I multi WithName n typ (replaceConfig extra (Some c) uriConfig)) w with
    | None => None
    | Some (w, true, e) => Some (w, e)
    | Some (w, false, _) =>
        if bool_decide (GetString c (PluginTypeFlag typ) = "") then Some (w, None) else WithName typ (GetString c (PluginTypeFlag typ)) extra w
    end) extra w.
Proof. done. Qed.

(** A plugin is made from its URI.  When the injector keeps its promise and the
    configuration has for the plugin type a URI that parses, the constructor of the plugin that
    the URI's scheme names is run, with its part of the URI's configuration; the recursion over
    the URI's configuration is one deep, as it hides the URI. *)
Theorem plugin_created I global `{!Resolves I global} n typ c u p c' creator w :
  GetString c typ = u -> u <> "" -> Uri.IsUriRegistered uris typ = true ->
  parse_plugin_uri typ u = Ok p -> UriConfig typ p = Ok c' -> GetString c' typ = "" ->
  GetString c' (PluginTypeFlag typ) <> "" ->
  pluginCreator creators typ (GetString c' (PluginTypeFlag typ)) = Ok creator ->
  CreatePlugin I (S (S n)) typ [AConfig c] w =
    Create creator [AConfig (ConfigForPluginInit WithPrefix c' typ (GetString c' (PluginTypeFlag typ)))] w.
Proof.
  intros Hu Hne Hreg Hp Hc' Hempty Htype Hcreator.
  assert (forall m w, CreatePlugin I (S m) typ [AConfig c'] w =
    Create creator [AConfig (ConfigForPluginInit WithPrefix c' typ (GetString c' (PluginTypeFlag typ)))] w) as Hinner.
  { intros m w0. unfold Plugin.CreatePlugin. cbn [plugin_loop]. rewrite (invoke_resolves (I:=I)). cbn [config_of].
    unfold enumUriPluginConfig. rewrite Hempty. cbn [Plugin.parsePluginUris negb andb]. rewrite bool_decide_eq_true_2 by done. cbn [negb andb].
    rewrite bool_decide_eq_false_2 by done. unfold Plugin.CreatePluginWithName. rewrite (invoke_resolves (I:=I)). cbn [config_of].
    rewrite Hcreator. unfold replaceConfig. cbn [fmap list_fmap]. rewrite bool_decide_eq_true_2; done. }
  unfold Plugin.CreatePlugin. rewrite plugin_loop_S. rewrite (invoke_resolves (I:=I)). cbn [config_of].
  unfold enumUriPluginConfig. rewrite Hu. cbn [Plugin.parsePluginUris]. rewrite bool_decide_eq_false_2, Hreg by done. cbn [negb andb].
  rewrite Hp. cbn [mbind gores_bind]. rewrite Hc'. unfold replaceConfig. cbn [fmap list_fmap]. rewrite bool_decide_eq_true_2 by done.
  unfold Plugin.CreatePlugin in Hinner. rewrite Hinner. by destruct (Create _ _ _) as [[? [?|]]|].
Qed.
End created.

(** ** The injector of the repository *)

Section injector.
Context {C W : Type} `{EqDecision C} (ptr : Kind).
Context (GetString : C -> string -> string) (WithPrefix : C -> string -> C) (UriConfig : string -> gmap string string -> gores C).
Context (ParseRequestURI : string -> option Uri.URL) (uris : gmap string Uri.UriParser).
Context (creators : gmap string (gmap string (@DepInjector C W))).
Notation I := (di_injector C W ptr).

Lemma parse_uris_world (callback : C -> @M W) typ us : (forall c w, callback c w = Some (w, None)) -> forall has w,
  exists has' e, parsePluginUris UriConfig ParseRequestURI uris typ us callback has w = Some (w, has', e).
Proof.
  intros Hcb. induction us as [|u us IH]; intros has w; cbn [parsePluginUris]; [by eauto|].
  destruct (_ && _); [|apply IH]. destruct (_ ≫= _) as [c|e|e]; [|by eauto..]. rewrite Hcb. apply IH.
Qed.

(** No plugin is created.  With the injector of the repository, creating and invoking a
    plugin by type or by name succeeds and leaves the caller's pointer as it was, whatever is
    configured, also for a name that is not registered; with a URI there may be an error, and
    still nothing is created. *)
Theorem nothing_created n typ name uri extra w :
  CreatePlugin GetString WithPrefix UriConfig ParseRequestURI uris I creators (S n) typ extra w = Some (w, None) /\
  CreatePluginWithName WithPrefix I creators typ name extra w = Some (w, None) /\
  InvokePlugin GetString WithPrefix UriConfig ParseRequestURI uris I creators (S n) typ extra w = Some (w, None) /\
  (exists e, CreatePluginWithUri GetString WithPrefix UriConfig ParseRequestURI uris I creators (S n) typ uri w = Some (w, e)).
Proof.
  split_and!; [done..|]. unfold CreatePluginWithUri, plugin_with_uri.
  destruct (parse_uris_world (fun c => plugin_loop GetString UriConfig ParseRequestURI uris I false (CreatePluginWithName WithPrefix I creators) (S n) typ (replaceConfig [] None c)) typ [uri]
    (fun _ _ => eq_refl) false w) as (has & e & ->).
  destruct has, e; by eauto.
Qed.

(** The promise of the interface is not kept. *)
Lemma injector_broken (global : C) : inhabited W -> ~ @Resolves C W I global.
Proof. intros [w] Hr. pose proof (Hr (fun _ w => Some (w, Some "")) [] w) as E. done. Qed.

(** Start-up loads no source plugin, so the sources are the defaults, the environment and the
    command line. *)
Lemma sources_not_loaded (nil : W) n bootstrap ws :
  source_plugins GetString WithPrefix UriConfig ParseRequestURI uris I creators nil (S n) bootstrap = Some (Ok ws) -> Forall (.= nil) ws.
Proof.
  unfold source_plugins. case_bool_decide; [intros [= <-]; by repeat constructor|]. generalize (Split ";" (GetString bootstrap "config")). intros us. revert ws.
  induction us as [|u us IH]; intros ws; cbn [uri_plugins]; [by intros [= <-]|]. destruct (_ && _); [|apply IH].
  destruct (_ ≫= _) as [c|e|e]; [|done..]. unfold CreatePluginWithName. cbn [Invoke di_injector].
  destruct (uri_plugins _ _ _ _ _ _ _ _ us) as [[ws'|e|e]|] eqn:E; try done. intros [= <-]. constructor; [done|]. by apply IH.
Qed.
End injector.

(** ** The layers of a URI's configuration *)

Section layers.
Context (FormatFloat : spec_float -> string) (DurationString : Z -> string).

Lemma memory_Sync_strings (l : list (string * string)) : NoDup l.*1 ->
  ConfigSources.memory_Sync FormatFloat DurationString (ConfigSources.mkMemory ((fun kv => (kv.1, ConfigSources.VString kv.2)) <$> l)) = list_to_map l.
Proof.
  intros Hnd. unfold ConfigSources.memory_Sync. cbn [ConfigSources.val]. rewrite ConfigSources.Walk_leaves.
  assert (ConfigSources.leaves FormatFloat DurationString "" ((fun kv => (kv.1, ConfigSources.VString kv.2)) <$> l) = l) as ->.
  { clear. induction l as [|[k x] l IH]; [done|]. unfold ConfigSources.leaves in *. cbn. by rewrite IH. }
  apply map_eq. intros k. apply option_eq. intros x. rewrite ConfigSources.insert_all_lookup by done.
  rewrite lookup_empty. rewrite <- elem_of_list_to_map by done. intuition congruence.
Qed.

(** What the configuration of a URI shows: the URI over the command line, the environment and
    the defaults; nothing under the type's own key. *)
Lemma uri_config_shows typ p defaults env cmd k :
  map_Forall (fun k _ => ToLower k = k) p -> ToLower typ = typ -> ConfigImpl.good_key k ->
  ConfigSources.shows (UriConfig_of FormatFloat DurationString typ p defaults env cmd) k =
  if decide (k = typ) then Some ""
  else match p !! k with Some x => Some x | None => layered [(true, defaults); (true, env); (true, cmd)] k end.
Proof.
  intros Hp Ht Hk. unfold UriConfig_of. rewrite NewConfig_layered by done. unfold uri_sources, uri_params.
  rewrite memory_Sync_strings by apply NoDup_fst_map_to_list. rewrite list_to_map_to_list.
  change [(true, defaults); (true, env); (true, cmd); (false, <[typ := ""]> p)] with ([(true, defaults); (true, env); (true, cmd)] ++ [(false, <[typ := ""]> p)]).
  rewrite layered_app. unfold layered at 1. cbn [foldl snd]. rewrite lower_vals_id by by apply map_Forall_insert_2.
  rewrite lookup_insert_case. destruct (decide (typ = k)), (decide (k = typ)); try congruence. by destruct (p !! k).
Qed.
End layers.

(** ** From the declaration to the configuration *)

Section declared_uri.
Import Uri.
Context (s : SimpleUriParser) (scheme : string).

Definition field_key (n : string) : string := key s +:+ "." +:+ scheme +:+ "." +:+ n.
(** The entries that the fields of a URI make. *)
Definition field_entries (f : UriField) : list (string * string) :=
  match typ f with
  | UriFieldScheme => []
  | UriFieldQuery => (fun kvs => (field_key (ToLower kvs.1), Join kvs.2 ",")) <$> q f
  | t => match mapping s scheme t with Some i => [(field_key (name i), valueHandler i (v f))] | None => [] end
  end.
Lemma insert_all_other m l k x : m !! k = Some x -> k ∉ l.*1 -> ConfigSources.insert_all m l !! k = Some x.
Proof.
  intros Hm Hk. unfold ConfigSources.insert_all. apply (foldl_ind (fun m => m !! k = Some x)); [done|]. intros m' [k' x'] Hin Hm'.
  rewrite lookup_insert_ne; [done|]. cbn. intros ->. apply Hk. apply list_elem_of_fmap. by exists (k, x').
Qed.
Lemma entries_not_selector : contains_char "." (selector s) = false -> forall fs, key s +:+ "." +:+ selector s ∉ (fs ≫= field_entries).*1.
Proof.
  intros Hsel fs Hin. apply list_elem_of_fmap in Hin as ([k x] & Hk & Hin). cbn in Hk. apply list_elem_of_bind in Hin as (f & Hin & _).
  assert (exists n, k = field_key n) as [n ->].
  { unfold field_entries in Hin. destruct (typ f); try (destruct (mapping s scheme _); [apply list_elem_of_singleton in Hin; injection Hin as -> ->; by eexists|by apply not_elem_of_nil in Hin]).
    - by apply not_elem_of_nil in Hin.
    - apply list_elem_of_fmap in Hin as (kvs & [= -> ->] & _). by eexists. }
  unfold field_key in Hk. apply string_app_inj_l, string_app_inj_l in Hk. rewrite Hk in Hsel.
  change ("." +:+ n) with (String "." n) in Hsel. by rewrite contains_app_sep in Hsel.
Qed.
Lemma fields_entries str fs : contains_char "." (selector s) = false -> Forall (fun f => typ f <> UriFieldScheme) fs -> forall m,
  m !! (key s +:+ "." +:+ selector s) = Some scheme ->
  foldl (fun r f => m ← r; parse_field (simple_parser s) str f m) (Ok m) fs = Ok (ConfigSources.insert_all m (fs ≫= field_entries)).
Proof.
  intros Hsel Hfs. induction Hfs as [|f fs Hf _ IH]; intros m Hm; [done|].
  change ((f :: fs) ≫= field_entries) with (field_entries f ++ (fs ≫= field_entries)). cbn [foldl]. rewrite ConfigSources.insert_all_app.
  change (m0 ← Ok m; parse_field (simple_parser s) str f m0) with (parse_field (simple_parser s) str f m).
  assert (parse_field (simple_parser s) str f m = Ok (ConfigSources.insert_all m (field_entries f))) as ->.
  { unfold parse_field, field_entries, ConfigSources.insert_all. cbn [ParseField simple_parser]. unfold simple_ParseField. rewrite Hm. change (default "" (Some scheme)) with scheme.
    destruct (typ f); try done; try (by destruct (mapping s scheme _)). f_equal. rewrite foldl_fmap. unfold field_key.
    generalize m. clear. intros m. revert m. induction (q f) as [|[k vs] l IH]; intros m; [done|]. cbn. apply IH. }
  apply IH. apply insert_all_other; [done|]. intros Hin. apply (entries_not_selector Hsel [f]). cbn. by rewrite app_nil_r.
Qed.
End declared_uri.

Lemma Split_sep c s r : Split c (s +:+ String c r) = Split c s ++ Split c r.
Proof.
  induction s as [|a s IH].
  - change ("" +:+ String c r) with (String c r). cbn [Split]. by rewrite decide_True.
  - change (String a s +:+ String c r) with (String a (s +:+ String c r)). cbn [Split]. rewrite IH. destruct (decide (a = c)); [done|].
    by destruct (Split_cons c s) as (h & t & ->).
Qed.
Lemma good_key_app a b : ConfigImpl.good_key a -> ConfigImpl.good_key b -> ConfigImpl.good_key (a +:+ "." +:+ b).
Proof.
  intros [Ha1 Ha2] [Hb1 Hb2]. split; [by rewrite !ToLower_app, Ha1, Hb1|]. unfold PrefixTree.PrefixTree.valid_key in *.
  change ("." +:+ b) with (String ConfigImpl.dot b). by rewrite Split_sep, nonempty_parts_app, Ha2, Hb2.
Qed.

Section declared_flags.
Context (typ : PluginType) (plugin : PluginInfo).
Notation scheme := (pname plugin).

(** What a flag of a URI field says of its value. *)
Definition flag_handler (f : Flag) : string -> string :=
  match UriFieldHandler f with
  | Some h => h
  | None => if decide (UriField f = Uri.UriFieldPath) then Uri.FilePathHandler else fun v => v
  end.
Lemma uri_flags_key p flags : Uri.key (foldl (uri_flag scheme) p flags) = Uri.key p /\ Uri.selector (foldl (uri_flag scheme) p flags) = Uri.selector p.
Proof.
  apply (foldl_ind (fun p' => Uri.key p' = Uri.key p /\ Uri.selector p' = Uri.selector p)); [done|]. intros p' f _ [H1 H2]. unfold uri_flag.
  by destruct (is_field _).
Qed.
Lemma uri_flags_mapping p l1 f l2 : is_field (UriField f) = true -> Forall (fun f' => UriField f' <> UriField f) l2 ->
  let s := foldl (uri_flag scheme) p (l1 ++ f :: l2) in
  scheme ∈ Uri.schemes s /\ Uri.mapping s scheme (UriField f) = Some (Uri.mkInfo (Name f) (flag_handler f)).
Proof.
  intros Hf Hl2. cbn zeta. rewrite foldl_app. cbn [foldl].
  apply (foldl_ind (fun s => scheme ∈ Uri.schemes s /\ Uri.mapping s scheme (UriField f) = Some (Uri.mkInfo (Name f) (flag_handler f)))).
  - unfold uri_flag. rewrite Hf. cbn. split; [set_solver|]. by rewrite decide_True.
  - intros s f' Hin [H1 H2]. rewrite Forall_forall in Hl2. specialize (Hl2 f' Hin). unfold uri_flag.
    destruct (is_field (UriField f')); cbn; (split; [set_solver|]); [|done]. rewrite decide_False; [done|]. by intros [_ ?].
Qed.

(** A URI sets the flags of the plugin.  A plugin is declared with a flag for a field of
    the URI, the last one for this field.  A URI whose scheme is the plugin's name, with the
    field present and no two fields for the same key, parses; in the configuration made of it
    the flag, under the name it is declared with, has the value of the field as its handler
    gives it, over the command line, the environment and the defaults; the type's selector
    names the plugin; and the key of the URI itself is empty. *)
Theorem plugin_uri_configures FormatFloat DurationString ParseRequestURI uris prev l1 f l2 s str u x defaults env cmd :
  from_option (fun p => Uri.key p = typ.1 /\ Uri.selector p = "type") True prev ->
  is_field (UriField f) = true -> UriField f <> Uri.UriFieldScheme -> Forall (fun f' => UriField f' <> UriField f) l2 ->
  declare_uri typ plugin (l1 ++ f :: l2) prev = Some s -> uris !! typ.1 = Some (Uri.simple_parser s) ->
  ParseRequestURI (if contains_char ":" str then str else str +:+ ":") = Some u -> Uri.Scheme u = scheme ->
  Uri.mkField (UriField f) x [] ∈ Uri.url_fields u ->
  NoDup (Uri.url_fields u ≫= field_entries s scheme).*1 ->
  Forall (fun kv => ToLower kv.1 = kv.1) (Uri.url_fields u ≫= field_entries s scheme) ->
  ConfigImpl.good_key typ.1 -> ConfigImpl.good_key scheme -> ConfigImpl.good_key (Name f) ->
  let ns := typ.1 +:+ "." +:+ scheme in HasPrefix (Name f) (ns +:+ ".") = false ->
  exists p, Uri.ParseUri ParseRequestURI uris typ.1 str = Ok p /\
    let c := UriConfig_of FormatFloat DurationString typ.1 p defaults env cmd in
    ConfigSources.shows c (flagName ns (Name f)) = Some (flag_handler f x) /\
    ConfigSources.shows c (PluginTypeFlag typ.1) = Some scheme /\ ConfigSources.shows c typ.1 = Some "".
Proof.
  intros Hprev Hf Hns Hl2 Hdecl Huris Hu Hscheme Hfield Hnd Hlow Ht Hsc Hn ns Hpre.
  assert (s = foldl (uri_flag scheme) (default (Uri.NewSimpleUriParser typ.1 "type") prev) (l1 ++ f :: l2)) as Hs.
  { unfold declare_uri in Hdecl. destruct (l1 ++ f :: l2) eqn:E; [by destruct l1|]. rewrite <- E in *.
    destruct (existsb _ _) eqn:Ex; [by injection Hdecl as <-|]. exfalso. apply not_true_iff_false in Ex. apply Ex. apply existsb_exists.
    exists f. split; [apply in_elt|]. apply bool_decide_eq_true_2. unfold is_field in Hf. apply bool_decide_eq_true_1 in Hf. tauto. }
  destruct (uri_flags_key (default (Uri.NewSimpleUriParser typ.1 "type") prev) (l1 ++ f :: l2)) as [Hkey Hsel]. rewrite <- Hs in Hkey, Hsel.
  pose proof (uri_flags_mapping (default (Uri.NewSimpleUriParser typ.1 "type") prev) l1 f l2 Hf Hl2) as [Hin Hmap]. rewrite <- Hs in Hin, Hmap.
  assert (Uri.key s = typ.1 /\ Uri.selector s = "type") as [Hk Hse] by (rewrite Hkey, Hsel; by destruct prev).
  clear Hkey Hsel Hs Hdecl Hprev.
  set (entries := Uri.url_fields u ≫= field_entries s scheme) in *. set (p := ConfigSources.insert_all {[typ.1 +:+ "." +:+ "type" := scheme]} entries).
  assert (Uri.ParseUri ParseRequestURI uris typ.1 str = Ok p) as Hp.
  { unfold Uri.ParseUri. rewrite Huris, Hu. unfold p, entries. destruct (Uri.rest_not_scheme u) as (fs & -> & Hfs). unfold Uri.parse_fields. cbn [foldl].
    match goal with |- foldl _ ?first fs = _ => assert (first = Ok {[typ.1 +:+ "." +:+ "type" := scheme]}) as -> end.
    { cbn [mbind gores_bind]. unfold Uri.parse_field. cbn [Uri.ParseField Uri.simple_parser]. unfold Uri.simple_ParseField. cbn [Uri.typ Uri.v].
      rewrite Hscheme, bool_decide_eq_true_2 by done. by rewrite Hk, Hse. }
    rewrite (fields_entries s scheme) by (rewrite ?Hk, ?Hse; try done; by rewrite lookup_singleton_eq). done. }
  exists p. split; [done|].
  pose proof (good_key_app typ.1 "type" Ht ltac:(by split)) as Htype.
  assert (map_Forall (fun k _ => ToLower k = k) p) as Hplow.
  { unfold p, ConfigSources.insert_all. apply foldl_ind; [apply map_Forall_singleton, Htype|]. intros m kv Hkv Hm.
    apply map_Forall_insert_2; [|done]. rewrite Forall_forall in Hlow. by apply Hlow. }
  assert (forall a b, a +:+ "." +:+ b <> a) as Hlonger.
  { intros a b E. apply (f_equal String.length) in E. rewrite !length_string_app in E. cbn in E. lia. }
  assert (flagName ns (Name f) = field_key s scheme (Name f)) as Hflag.
  { unfold flagName. rewrite Hpre, bool_decide_eq_true_2 by (unfold ns; by destruct typ.1). cbn [negb andb].
    unfold field_key, ns. rewrite Hk, !string_app_assoc. apply (good_key_app typ.1 _ Ht (good_key_app scheme (Name f) Hsc Hn)). }
  assert (p !! field_key s scheme (Name f) = Some (flag_handler f x)) as Hpf.
  { unfold p. apply ConfigSources.insert_all_lookup; [done|]. left. unfold entries. apply list_elem_of_bind. eexists. split; [|exact Hfield].
    unfold field_entries. cbn [Uri.typ Uri.v]. unfold is_field in Hf. apply bool_decide_eq_true_1 in Hf as [Hf1 Hf2].
    clear Hl2 Hfield. revert Hmap Hns Hf1 Hf2. destruct (UriField f); intros Hmap ???; try done; rewrite Hmap; by apply list_elem_of_singleton. }
  assert (p !! (typ.1 +:+ "." +:+ "type") = Some scheme) as Hpt.
  { unfold p. apply insert_all_other; [by rewrite lookup_singleton_eq|]. rewrite <- Hk, <- Hse. apply entries_not_selector. by rewrite Hse. }
  cbn zeta. unfold PluginTypeFlag. change (typ.1 +:+ ".type") with (typ.1 +:+ "." +:+ "type"). rewrite Hflag.
  assert (ConfigImpl.good_key (field_key s scheme (Name f))) as Hgood.
  { unfold field_key. rewrite Hk. apply (good_key_app _ _ Ht (good_key_app _ _ Hsc Hn)). }
  rewrite !uri_config_shows by (done || apply Ht). rewrite Hpf, Hpt. rewrite !decide_False by (unfold field_key; rewrite ?Hk; apply Hlonger). by rewrite decide_True.
Qed.
End declared_flags.

(** ** Examples *)

Definition plain (n : string) : PluginInfo := mkInfo n (0, Some (mkFunc KFunc [mkType "Source" KInterface false] [])) false false.
Definition uri_flag_of (n d : string) (t : Uri.UriFieldType) : Flag := mkFlag n (Some (DString d)) "" t None false false false "" "" false.
Definition example_flags : list Flag := [uri_flag_of "user" "root" Uri.UriFieldUsername; uri_flag_of "debug" "" Uri.UriFieldNone].
Definition example_flag : Flag := uri_flag_of "addr" "localhost" Uri.UriFieldHost.
Definition example_parser : Uri.SimpleUriParser :=
  default (Uri.NewSimpleUriParser "" "") (declare_uri ("db", "") (plain "mysql") (example_flags ++ [example_flag]) None).
Definition example_uris : gmap string Uri.UriParser := {["db" := Uri.simple_parser example_parser]}.
Definition example_url : Uri.URL := Uri.mkURL "mysql" (Some ("me", Some "pw")) "h:3306" "h" "3306" "" [("Debug", ["true"])].

Definition example_injector : @DepInjector nat (list nat) := mkInjector (fun f extra => f (config_of extra 0)) (fun extra w => Some (config_of extra 0 :: w, None)) (fun _ w => Some (w, None, None)).
#[local] Instance example_resolves : Resolves example_injector 0.
Proof. done. Qed.
Definition example_string (c : nat) (k : string) : string :=
  if decide (c = 0 /\ k = "db") then "mysql://me:pw@h:3306?Debug=true" else if decide (c = 1 /\ k = "db.type") then "mysql" else "".

Lemma plugin_created_witness :
  CreatePlugin example_string (fun _ _ => 2) (fun _ _ => Ok 1) (fun _ => Some example_url) example_uris example_injector {["db" := {["mysql" := example_injector]}]}
    2 "db" [AConfig 0] [] = Some ([2], None).
Proof.
  etransitivity.
  { apply (plugin_created example_string (fun _ _ => 2) (fun _ _ => Ok 1) (fun _ => Some example_url) example_uris {["db" := {["mysql" := example_injector]}]}
      example_injector 0 0 "db" 0 "mysql://me:pw@h:3306?Debug=true"
      (default ∅ (match parse_plugin_uri (fun _ => Some example_url) example_uris "db" "mysql://me:pw@h:3306?Debug=true" with Ok p => Some p | _ => None end)) 1 example_injector []).
    - done.
    - done.
    - by vm_compute.
    - done.
    - done.
    - done.
    - done.
    - done. }
  done.
Defined.

Lemma plugin_uri_configures_witness :
  exists p, Uri.ParseUri (fun _ => Some example_url) example_uris "db" "mysql://me:pw@h:3306?Debug=true" = Ok p /\
    let c := UriConfig_of no_float no_duration "db" p {["db.mysql.addr" := "localhost"]} ∅ {["db.mysql.addr" := "arg"]} in
    ConfigSources.shows c (flagName "db.mysql" "addr") = Some "h:3306" /\ ConfigSources.shows c "db.type" = Some "mysql" /\ ConfigSources.shows c "db" = Some "".
Proof.
  apply (plugin_uri_configures ("db", "") (plain "mysql") no_float no_duration (fun _ => Some example_url) example_uris None example_flags example_flag [] example_parser
    "mysql://me:pw@h:3306?Debug=true" example_url "h:3306" {["db.mysql.addr" := "localhost"]} ∅ {["db.mysql.addr" := "arg"]}).
  - done.
  - by vm_compute.
  - done.
  - done.
  - by vm_compute.
  - done.
  - done.
  - done.
  - by apply (list_elem_of_lookup_2 _ 3).
  - apply (bool_decide_eq_true_1 _). by vm_compute.
  - by repeat constructor.
  - done.
  - done.
  - done.
  - done.
Defined.

(** A provider that answers an instance and an error is refused. *)
Example error_provider_refused : checkProvider (Some (mkFunc KFunc [mkType "Source" KInterface false; mkType "error" KInterface true] [])) = Err must_return.
Proof. done. Qed.
(** [ForceEnableUri] does nothing for a plugin with flags of which none is a field. *)
Example force_uri_ignored : declare_uri ("db", "") (mkInfo "sqlite" (0, None) false true) [uri_flag_of "debug" "" Uri.UriFieldNone] None = None.
Proof. done. Qed.
(** Two plugin types with one name, and URIs, end the process at start. *)
Example types_clash : let info := mkTypeInfo (Some example_parser) [plain "mysql"] in
  exists e, PopulatePluginFlags ∅ (mkRegistry ∅ ∅ ∅) [(("db", ""), info); (("db", "mysql"), info)] = Err e.
Proof. by eexists. Qed.
(** A password in percent-encoding is not masked in the log. *)
Example password_logged : desensitization ∅ (Some ("me", Some "p@ss")) "mysql://me:p%40ss@h" {["db.mysql.password" := "p@ss"]} [] =
  ("mysql://**:p%40ss@h", {["db.mysql.password" := "****"]}).
Proof. apply (bool_decide_eq_true_1 _). by vm_compute. Qed.

End Plugin.
