(* ===== verification/GrpcMetadata.v ===== *)
(** * Metadata of gRPC calls: the interface that the packages with metadata are modelled
    against.  [metadata.MD] maps lower-case keys to lists of values; [MetadataLaws] is the
    documented behaviour of [Get] and [Set], [MetadataJoinLaws] that of [Join] and [Len]. *)

From S2P Require Import Prelude.

Open Scope string_scope.
Open Scope list_scope.

(** [metadata.MD]; the keys used here are lower case. *)
Class Metadata (MD : Type) := {
  md_empty : MD;
  md_Get : MD -> string -> list string;
  md_Set : MD -> string -> list string -> MD
}.
Class MetadataLaws (MD : Type) `{Metadata MD} : Prop := {
  md_Get_empty k : md_Get md_empty k = [];
  md_Get_Set md k vs k' : md_Get (md_Set md k vs) k' = if decide (k = k') then vs else md_Get md k'
}.

#[export] Instance gmap_metadata : Metadata (gmap string (list string)) := {|
  md_empty := ∅; md_Get m k := default [] (m !! k); md_Set m k vs := <[k := vs]> m
|}.
#[export] Instance gmap_metadata_laws : MetadataLaws (gmap string (list string)).
Proof.
  split; intros; cbn; [by rewrite lookup_empty|]. rewrite lookup_insert_case. by case_decide.
Qed.

(** [metadata.Join] and [md.Len() == 0]. *)
Class MetadataJoin (MD : Type) `{Metadata MD} := {
  md_Join : MD -> MD -> MD;
  md_none : MD -> bool
}.
Class MetadataJoinLaws (MD : Type) `{MetadataJoin MD} : Prop := {
  md_Get_Join a b k : md_Get (md_Join a b) k = md_Get a k ++ md_Get b k;
  md_Get_none a k : md_none a = true -> md_Get a k = []
}.

#[export] Instance gmap_metadata_join : MetadataJoin (gmap string (list string)) := {|
  md_Join a b := union_with (fun x y => Some (x ++ y)) a b; md_none a := bool_decide (a = ∅)
|}.
#[export] Instance gmap_metadata_join_laws : MetadataJoinLaws (gmap string (list string)).
Proof.
  split; cbn.
  - intros a b k. rewrite lookup_union_with. destruct (a !! k), (b !! k); cbn; by rewrite ?app_nil_r.
  - intros a k ->%bool_decide_eq_true. by rewrite lookup_empty.
Qed.
