(* ===== verification/GrpcStream.v ===== *)
(** * In-process streams ([stream/grpc_stream.go]).

    A stream joins a client and a server of one process by two channels of capacity 16.  Its
    methods are called by any number of goroutines.  Each method is a program over atomic
    actions: reads and writes of shared variables, locking, and the two [select]s, whose
    enabled cases are its possible outcomes.  A system is the shared state with the programs
    of all goroutines; every interleaving is a sequence of labels.  A critical section that
    cannot block is one action; the lock that [Send] holds while it blocks is explicit, with
    its holders by number of goroutine. *)

From S2P Require Import Prelude GrpcMetadata.

Open Scope string_scope.
Open Scope list_scope.

Module GrpcStream.

(** [_GrpcClientStream] sends on [c2s], [_GrpcServerStream] on [s2c]. *)
Inductive side := Client | Server.
Definition other (sd : side) : side := match sd with Client => Server | Server => Client end.
#[export] Instance side_eq_dec : EqDecision side.
Proof. solve_decision. Defined.

Definition queueDepth : nat := 16.

Section stream.
(** Metadata, messages, and the errors that a handler returns. *)
Context {MD Msg E : Type} `{MetadataJoin MD}.

Inductive error := EOF | ErrDone | ErrIllegalHeaderWrite | ErrCanceled | ErrPayload | ErrStatus (e : E).
Inductive payload := typeEOF | typeErr (e : E) | typeData (d : Msg).

(** [_StreamInternal]: its flag, its lock, and the channel it sends on. *)
Record internal := mkInternal {
  closed : bool; readers : gset nat; waiting : gset nat; writer : option nat;
  sendCh : list payload; chClosed : bool
}.
(** [sync.Once]. *)
Inductive once := OnceNew | OnceRunning (i : nat) | OnceOver.

Record state := mkState {
  client : internal; server : internal; cancelled : bool; closeCtx : bool; srvClosed : bool;
  hdrSent : bool; hdr : MD; trailer : MD; onceClose : once
}.
Definition newInternal : internal := mkInternal false ∅ ∅ None [] false.
Definition NewGrpcStream : state := mkState newInternal newInternal false false false false md_empty md_empty OnceNew.

Definition half (s : state) (sd : side) : internal := match sd with Client => client s | Server => server s end.
Definition set_half (s : state) (sd : side) (h : internal) : state :=
  let '(mkState c v ca cl sc hs hm tr o) := s in
  match sd with Client => mkState h v ca cl sc hs hm tr o | Server => mkState c h ca cl sc hs hm tr o end.
Definition set_once (s : state) (o : once) : state :=
  let '(mkState c v ca cl sc hs hm tr _) := s in mkState c v ca cl sc hs hm tr o.
Definition set_chan (h : internal) (l : list payload) : internal :=
  mkInternal (closed h) (readers h) (waiting h) (writer h) l (chClosed h).

(** ** Atomic actions, by the type of their answer *)

Inductive act : Type -> Type :=
| IsClosed (sd : side) : act bool
| RLock (sd : side) : act unit
| RUnlock (sd : side) : act unit
| LockWait (sd : side) : act unit      (* [Lock]: from now on no reader gets in *)
| LockTake (sd : side) : act unit
| Unlock (sd : side) : act unit
| SetClosed (sd : side) : act unit
| CloseChan (sd : side) : act unit
| PollCancel : act bool                (* select { case <-cancelCtx.Done(): default: } *)
| SelectSend (sd : side) (m : payload) : act bool            (* false: one of the contexts is done *)
| SelectRecv (sd : side) : act (option (option payload))     (* None: cancelled; Some None: closed *)
| TryRecv (sd : side) : act (option (option payload))        (* None: default *)
| IsSrvClosed : act bool
| SetSrvClosed : act unit
| CancelClose : act unit               (* srvCloseFunc() *)
| CancelCall : act unit                (* the context of the call is cancelled *)
| HeaderSent : act bool
| AddHeader (md : MD) : act (option error)
| MarkSent : act unit
| WaitHeader : act MD
| AddTrailer (md : MD) : act unit
| GetTrailer : act MD
| OnceEnter : act bool                 (* true: run the function; blocks while it runs elsewhere *)
| OnceLeave : act unit.

(** What the channels saw. *)
Inductive event := EPut (sd : side) (p : payload) | ETook (sd : side) (p : payload).
Inductive outcome (R : Type) := Go (s : state) (r : R) (ev : list event) | Panics (why : string).
Arguments Go {_}. Arguments Panics {_}.

Definition upd (s : state) (sd : side) (h : internal) : list (outcome unit) := [Go (set_half s sd h) tt []].

(** The receiving end of [sd]: what is in the channel, or the end of a closed one. *)
Definition take {R} (s : state) (sd : side) (f : option payload -> R) (empty : list (outcome R)) : list (outcome R) :=
  let h := half s (other sd) in
  match sendCh h with
  | p :: rest => [Go (set_half s (other sd) (set_chan h rest)) (f (Some p)) [ETook sd p]]
  | [] => if chClosed h then [Go s (f None) []] else empty
  end.

(** The outcomes of an action of goroutine [i]; none: it blocks. *)
Definition exec (i : nat) (s : state) {R : Type} (a : act R) : list (outcome R) :=
  match a with
  | IsClosed sd => [Go s (closed (half s sd)) []]
  | RLock sd =>
      let '(mkInternal c r w o l cc) := half s sd in
      if bool_decide (w = ∅ /\ o = None) then upd s sd (mkInternal c ({[i]} ∪ r) w o l cc) else []
  | RUnlock sd => let '(mkInternal c r w o l cc) := half s sd in upd s sd (mkInternal c (r ∖ {[i]}) w o l cc)
  | LockWait sd => let '(mkInternal c r w o l cc) := half s sd in upd s sd (mkInternal c r ({[i]} ∪ w) o l cc)
  | LockTake sd =>
      let '(mkInternal c r w o l cc) := half s sd in
      if bool_decide (r = ∅ /\ o = None) then upd s sd (mkInternal c r (w ∖ {[i]}) (Some i) l cc) else []
  | Unlock sd => let '(mkInternal c r w _ l cc) := half s sd in upd s sd (mkInternal c r w None l cc)
  | SetClosed sd => let '(mkInternal _ r w o l cc) := half s sd in upd s sd (mkInternal true r w o l cc)
  | CloseChan sd =>
      let '(mkInternal c r w o l cc) := half s sd in
      if cc then [Panics "close of closed channel"] else upd s sd (mkInternal c r w o l true)
  | PollCancel => [Go s (cancelled s) []]
  | SelectSend sd m =>
      let h := half s sd in
      (if chClosed h then [Panics "send on closed channel"]
       else if (length (sendCh h) <? queueDepth)%nat
            then [Go (set_half s sd (set_chan h (sendCh h ++ [m]))) true [EPut sd m]] else []) ++
      (if cancelled s then [Go s false []] else []) ++ (if closeCtx s then [Go s false []] else [])
  | SelectRecv sd => take s sd Some [] ++ (if cancelled s then [Go s None []] else [])
  | TryRecv sd => take s sd Some [Go s None []]
  | IsSrvClosed => [Go s (srvClosed s) []]
  | SetSrvClosed =>
      let '(mkState c v ca cl _ hs hm tr o) := s in [Go (mkState c v ca cl true hs hm tr o) tt []]
  | CancelClose =>
      let '(mkState c v ca _ sc hs hm tr o) := s in [Go (mkState c v ca true sc hs hm tr o) tt []]
  | CancelCall =>
      let '(mkState c v _ cl sc hs hm tr o) := s in [Go (mkState c v true cl sc hs hm tr o) tt []]
  | HeaderSent => [Go s (hdrSent s) []]
  | AddHeader md =>
      let '(mkState c v ca cl sc hs hm tr o) := s in
      if hs then [Go s (Some ErrIllegalHeaderWrite) []]
      else if md_none md then [Go s None []]
      else [Go (mkState c v ca cl sc hs (md_Join hm md) tr o) None []]
  | MarkSent =>
      let '(mkState c v ca cl sc _ hm tr o) := s in [Go (mkState c v ca cl sc true hm tr o) tt []]
  | WaitHeader => if hdrSent s then [Go s (hdr s) []] else []
  | AddTrailer md =>
      let '(mkState c v ca cl sc hs hm tr o) := s in
      [Go (if md_none md then s else mkState c v ca cl sc hs hm (md_Join tr md) o) tt []]
  | GetTrailer => [Go s (trailer s) []]
  | OnceEnter =>
      match onceClose s with
      | OnceNew => [Go (set_once s (OnceRunning i)) true []]
      | OnceRunning _ => []
      | OnceOver => [Go s false []]
      end
  | OnceLeave => [Go (set_once s OnceOver) tt []]
  end.

(** ** Programs *)

Inductive prog (A : Type) : Type := Ret (a : A) | Act {R : Type} (a : act R) (k : R -> prog A).
Arguments Ret {_}. Arguments Act {_ _}.
Fixpoint prog_bind {A B} (f : A -> prog B) (p : prog A) : prog B :=
  match p with Ret a => f a | Act a k => Act a (fun r => prog_bind f (k r)) end.
#[export] Instance prog_mret : MRet prog := fun _ a => Ret a.
#[export] Instance prog_mbind : MBind prog := fun _ _ => prog_bind.
Definition do {R} (a : act R) : prog R := Act a Ret.

(** *** [_StreamInternal] *)

Definition Send (sd : side) (m : payload) : prog (option error) :=
  c ← do (IsClosed sd);
  if c : bool then Ret (Some ErrDone)
  else
    _ ← do (RLock sd);
    c ← do (IsClosed sd);
    if c : bool then _ ← do (RUnlock sd); Ret (Some ErrDone)
    else
      d ← do PollCancel;
      if d : bool then _ ← do (RUnlock sd); Ret (Some ErrDone)
      else
        ok ← do (SelectSend sd m);
        _ ← do (RUnlock sd);
        Ret (if ok : bool then None else Some ErrDone).

Definition Recv (sd : side) : prog (error + payload) :=
  v ← do (SelectRecv sd);
  match v with
  | Some None => Ret (inl EOF)
  | Some (Some (typeData d)) => Ret (inr (typeData d))
  | Some (Some (typeErr e)) => Ret (inl (ErrStatus e))
  | Some (Some typeEOF) => Ret (inl EOF)
  | None =>
      v ← do (TryRecv sd);
      match v with
      | Some None | Some (Some typeEOF) => Ret (inl EOF)
      | _ => Ret (inl ErrCanceled)
      end
  end.

Definition Close (sd : side) : prog unit :=
  c ← do (IsClosed sd);
  if c : bool then Ret tt
  else
    _ ← do (LockWait sd);
    _ ← do (LockTake sd);
    c ← do (IsClosed sd);
    if c : bool then do (Unlock sd)
    else
      _ ← do (SetClosed sd);
      _ ← do (CloseChan sd);
      do (Unlock sd).

(** *** [headerWrapper] *)

Definition header_SetHeader (md : MD) : prog (option error) :=
  b ← do HeaderSent;
  if b : bool then Ret (Some ErrIllegalHeaderWrite) else do (AddHeader md).
Definition header_Send : prog unit :=
  b ← do HeaderSent;
  if b : bool then Ret tt else do MarkSent.

(** *** The ends of the stream *)

Definition recv_payload (r : error + payload) : error + Msg :=
  match r with inl e => inl e | inr (typeData d) => inr d | inr _ => inl ErrPayload end.

Definition client_SendMsg (m : Msg) : prog (option error) :=
  c ← do IsSrvClosed;
  if c : bool then Ret (Some EOF) else Send Client (typeData m).
Definition client_RecvMsg : prog (error + Msg) := r ← Recv Client; Ret (recv_payload r).
Definition CloseSend : prog unit :=
  b ← do OnceEnter;
  if b : bool then _ ← Close Client; do OnceLeave else Ret tt.

Definition server_SetHeader (md : MD) : prog (option error) :=
  if md_none md then Ret None
  else
    c ← do IsSrvClosed;
    if c : bool then Ret (Some ErrIllegalHeaderWrite) else header_SetHeader md.
Definition SendHeader (md : MD) : prog (option error) :=
  c ← do IsSrvClosed;
  if c : bool then Ret (Some ErrIllegalHeaderWrite)
  else
    e ← header_SetHeader md;
    match e with
    | Some e => Ret (Some e)
    | None => _ ← header_Send; Ret None
    end.
Definition server_SendMsg (m : Msg) : prog (option error) :=
  _ ← SendHeader md_empty;
  Send Server (typeData m).
Definition server_RecvMsg : prog (error + Msg) := r ← Recv Server; Ret (recv_payload r).

Definition WriteStatus (err : option E) : prog unit :=
  c ← do IsSrvClosed;
  if c : bool then Ret tt
  else
    _ ← SendHeader md_empty;
    _ ← match err with Some e => (_ ← Send Server (typeErr e); Ret tt) | None => Ret tt end;
    _ ← do CancelClose;
    _ ← Close Server;
    do SetSrvClosed.

(** ** Calls

    Methods of the two ends, and the goroutine that [StreamingWrapper.NewStream] starts for a
    handler: it runs the handler, writes its status and fills the call options. *)

Inductive server_call := SSendMsg (m : Msg) | SRecvMsg | SSetHeader (md : MD) | SSendHeader (md : MD) | SSetTrailer (md : MD).
Inductive call_option := HeaderCallOption | TrailerCallOption | OtherCallOption.
Inductive value :=
| VErr (e : option error) | VRecv (r : error + Msg) | VMD (md : MD) | VUnit
| VServed (sent : list Msg) (status : option E) (out : list MD).

Definition server_code (c : server_call) : prog value :=
  match c with
  | SSendMsg m => e ← server_SendMsg m; Ret (VErr e)
  | SRecvMsg => r ← server_RecvMsg; Ret (VRecv r)
  | SSetHeader md => e ← server_SetHeader md; Ret (VErr e)
  | SSendHeader md => e ← SendHeader md; Ret (VErr e)
  | SSetTrailer md => _ ← do (AddTrailer md); Ret VUnit
  end.

(** A handler: it returns, panics, or makes a call and goes on with its result.  The error of
    a panic is the one made by the recovery, which is on unless a process turns
    [server.recovery] off; without it the process ends. *)
Inductive handler :=
| HReturn (err : option E)
| HPanic (err : E)
| HCall (c : server_call) (k : value -> handler).

Fixpoint fill_options (opts : list call_option) (out : list MD) : prog (list MD) :=
  match opts with
  | [] => Ret out
  | HeaderCallOption :: opts => md ← do WaitHeader; fill_options opts (out ++ [md])
  | TrailerCallOption :: opts => md ← do GetTrailer; fill_options opts (out ++ [md])
  | OtherCallOption :: opts => fill_options opts out
  end.

(** The messages that were given to [SendMsg] come with the result. *)
Definition sent_by (c : server_call) : list Msg := match c with SSendMsg m => [m] | _ => [] end.
Fixpoint serve (ToRPCErr : E -> E) (opts : list call_option) (h : handler) (sent : list Msg) : prog value :=
  match h with
  | HPanic err => _ ← WriteStatus (Some (ToRPCErr err)); Ret (VServed sent (Some (ToRPCErr err)) [])
  | HReturn err =>
      _ ← WriteStatus (ToRPCErr <$> err);
      out ← fill_options opts [];
      _ ← CloseSend;
      Ret (VServed sent (ToRPCErr <$> err) out)
  | HCall c k => v ← server_code c; serve ToRPCErr opts (k v) (sent ++ sent_by c)
  end.

Inductive call :=
| CSendMsg (m : Msg) | CRecvMsg | CCloseSend | CHeader | CTrailer | CCancel
| SCall (c : server_call) | SWriteStatus (err : option E)
| SServe (ToRPCErr : E -> E) (opts : list call_option) (h : handler).
Definition code (c : call) : prog value :=
  match c with
  | CSendMsg m => e ← client_SendMsg m; Ret (VErr e)
  | CRecvMsg => r ← client_RecvMsg; Ret (VRecv r)
  | CCloseSend => _ ← CloseSend; Ret VUnit
  | CHeader => md ← do WaitHeader; Ret (VMD md)
  | CTrailer => md ← do GetTrailer; Ret (VMD md)
  | CCancel => _ ← do CancelCall; Ret VUnit
  | SCall c => server_code c
  | SWriteStatus err => _ ← WriteStatus err; Ret VUnit
  | SServe ToRPCErr opts h => serve ToRPCErr opts h []
  end.

(** ** Systems *)

Record system := mkSystem { st : state; threads : list (prog value); log : list event }.
Definition start : system := mkSystem NewGrpcStream [] [].

(** A new call, or one of the outcomes of the next action of a goroutine. *)
Inductive label := Call (c : call) | Run (i choice : nat).
Definition do_step (S : system) (l : label) : option system :=
  match l with
  | Call c => Some (mkSystem (st S) (threads S ++ [code c]) (log S))
  | Run i n =>
      match threads S !! i with
      | Some (Act a k) =>
          match exec i (st S) a !! n with
          | Some (Go s r ev) => Some (mkSystem s (<[i := k r]> (threads S)) (log S ++ ev))
          | _ => None
          end
      | _ => None
      end
  end.
Definition step (S S' : system) : Prop := exists l, do_step S l = Some S'.
Definition run_step (S S' : system) : Prop := exists i n, do_step S (Run i n) = Some S'.
Definition reachable (S : system) : Prop := rtc step start S.

(** An action that would panic is about to be done. *)
Definition panics (S : system) : Prop :=
  exists i R (a : act R) k why, threads S !! i = Some (Act a k) /\ Panics why ∈ exec i (st S) a.

(** What went into the channel that [sd] sends on, and what [sd] took from its own. *)
Definition puts (sd : side) (l : list event) : list payload :=
  omap (fun e => match e with EPut sd' p => if decide (sd = sd') then Some p else None | _ => None end) l.
Definition tooks (sd : side) (l : list event) : list payload :=
  omap (fun e => match e with ETook sd' p => if decide (sd = sd') then Some p else None | _ => None end) l.

End stream.

Arguments Ret {_ _ _ _}.
Arguments Act {_ _ _ _ _}.
Arguments Go {_ _ _ _}.
Arguments Panics {_ _ _ _}.

End GrpcStream.
