(* ===== verification/StreamLocks.v ===== *)
(** * The locks of in-process streams: no panic, no lost message, no stuck call

    What a goroutine may do next depends on what it holds of the lock of its side.  Every
    program of [GrpcStream] keeps to this discipline ([code_disciplined]), and it keeps the
    invariant [ok] of a system in every interleaving. *)

From stdpp Require Import functions.
From S2P Require Import Prelude GrpcMetadata GrpcStream.

Open Scope string_scope.
Open Scope list_scope.

Module StreamLocks.
Import GrpcStream.

Section locks.
Context {MD Msg E : Type} `{MetadataJoin MD}.
Notation act := (GrpcStream.act (MD := MD) (Msg := Msg) (E := E)).
Notation prog := (GrpcStream.prog (MD := MD) (Msg := Msg) (E := E)).
Notation internal := (GrpcStream.internal (Msg := Msg) (E := E)).
Notation payload := (GrpcStream.payload (Msg := Msg) (E := E)).
Notation event := (GrpcStream.event (Msg := Msg) (E := E)).
Notation state := (GrpcStream.state (MD := MD) (Msg := Msg) (E := E)).
Notation outcome := (GrpcStream.outcome (MD := MD) (Msg := Msg) (E := E)).
Notation call := (GrpcStream.call (MD := MD) (Msg := Msg) (E := E)).
Notation system := (GrpcStream.system (MD := MD) (Msg := Msg) (E := E)).
Implicit Types (s : state) (sd : side).

(** ** The discipline of the programs

    What a goroutine holds of the lock of one side, what it knows there about the flag, and
    whether it runs the function of the [Once]. *)

Inductive hold := HRead (open : bool) | HWait | HWrite (open : bool) | HClosing.
Record mode := mkMode { m_lock : option (side * hold); m_once : bool }.
Definition free : mode := mkMode None false.

#[export] Instance hold_eq_dec : EqDecision hold.
Proof. solve_decision. Defined.
#[export] Instance mode_eq_dec : EqDecision mode.
Proof. solve_decision. Defined.

Definition need {R} (P : Prop) `{Decision P} (f : R -> mode) : option (R -> mode) := if decide P then Some f else None.
Definition knows (m : mode) (sd : side) (open : bool) : mode :=
  match m_lock m with
  | Some (sd', HRead _) => if decide (sd = sd') then mkMode (Some (sd, HRead open)) (m_once m) else m
  | Some (sd', HWrite _) => if decide (sd = sd') then mkMode (Some (sd, HWrite open)) (m_once m) else m
  | _ => m
  end.

(** The mode after an action, by its answer; [None]: the action is out of place. *)
Definition after (m : mode) {R} (a : act R) : option (R -> mode) :=
  let '(mkMode l o) := m in
  match a in GrpcStream.act R return option (R -> mode) with
  | IsClosed sd => Some (fun c => knows m sd (negb c))
  | RLock sd => need (m = free) (fun _ => mkMode (Some (sd, HRead false)) o)
  | RUnlock sd => need (exists b, l = Some (sd, HRead b)) (fun _ => mkMode None o)
  | LockWait sd => need (l = None) (fun _ => mkMode (Some (sd, HWait)) o)
  | LockTake sd => need (l = Some (sd, HWait)) (fun _ => mkMode (Some (sd, HWrite false)) o)
  | Unlock sd => need (exists b, l = Some (sd, HWrite b)) (fun _ => mkMode None o)
  | SetClosed sd => need (l = Some (sd, HWrite true)) (fun _ => mkMode (Some (sd, HClosing)) o)
  | CloseChan sd => need (l = Some (sd, HClosing)) (fun _ => mkMode (Some (sd, HWrite false)) o)
  | SelectSend sd _ => need (l = Some (sd, HRead true)) (fun _ => m)
  | SelectRecv _ => need (m = free) (fun _ => m)
  | WaitHeader => need (m = free) (fun _ => m)
  | OnceEnter => need (m = free) (fun b => mkMode None b)
  | OnceLeave => need (m = mkMode None true) (fun _ => free)
  | PollCancel => Some (fun _ => m)
  | TryRecv _ => Some (fun _ => m)
  | IsSrvClosed => Some (fun _ => m)
  | SetSrvClosed => Some (fun _ => m)
  | CancelClose => Some (fun _ => m)
  | CancelCall => Some (fun _ => m)
  | HeaderSent => Some (fun _ => m)
  | AddHeader _ => Some (fun _ => m)
  | MarkSent => Some (fun _ => m)
  | AddTrailer _ => Some (fun _ => m)
  | GetTrailer => Some (fun _ => m)
  end.

Fixpoint disciplined {A} (m : mode) (p : prog A) : Prop :=
  match p with
  | Ret _ => m = free
  | Act a k => match after m a with Some f => forall r, disciplined (f r) (k r) | None => False end
  end.

(** A program that is to run under another lock or in the [Once]: it comes back to [m']. *)
Fixpoint leads {A} (m m' : mode) (p : prog A) : Prop :=
  match p with
  | Ret _ => m = m'
  | Act a k => match after m a with Some f => forall r, leads (f r) m' (k r) | None => False end
  end.

Lemma leads_bind {A B} (m m1 m2 : mode) (p : prog A) (f : A -> prog B) :
  leads m m1 p -> (forall a, leads m1 m2 (f a)) -> leads m m2 (p ≫= f).
Proof.
  revert m. induction p as [a|R a k IH]; intros m; cbn; [by intros ->|]. destruct (after m a) as [g|]; [|done].
  intros Hp Hf r. by apply IH.
Qed.
Lemma leads_disciplined {A} (m : mode) (p : prog A) : disciplined m p <-> leads m free p.
Proof.
  revert m. induction p as [a|R a k IH]; intros m; cbn; [done|]. destruct (after m a); [|done].
  split; intros Hp r; apply IH, Hp.
Qed.

(** Go through a program: answer the side conditions, split on its tests. *)
Ltac leads :=
  repeat first
    [ progress cbn [leads after knows m_lock m_once do prog_bind mbind prog_mbind negb]
    | progress (unfold need, free)
    | rewrite decide_True by (first [done | eexists; done])
    | match goal with
      | |- forall _, _ => intros ?
      | |- context [if ?b then _ else _] => is_var b; destruct b
      | |- context [match ?x with _ => _ end] => is_var x; destruct x
      end
    | done ].

Lemma Send_leads sd m : leads free free (Send sd m).
Proof. unfold Send. leads. Qed.
Lemma Recv_leads sd : leads free free (Recv sd).
Proof. unfold Recv. leads. Qed.
Lemma Close_leads sd o : leads (mkMode None o) (mkMode None o) (Close sd).
Proof. unfold Close. leads. Qed.
Lemma SendHeader_leads md : leads free free (SendHeader md).
Proof. unfold SendHeader, header_SetHeader, header_Send. leads. Qed.
Lemma CloseSend_leads : leads free free CloseSend.
Proof. unfold CloseSend, Close. leads. Qed.

Create HintDb stream.
#[local] Hint Resolve Send_leads Recv_leads Close_leads SendHeader_leads CloseSend_leads : stream.

(** Follow the binds of a program whose parts are known. *)
Ltac leads_binds :=
  lazymatch goal with
  | |- leads _ _ (_ ≫= _) => eapply leads_bind; [leads_binds|intros ?; leads_binds]
  | |- leads _ _ (if ?x then _ else _) => destruct x; leads_binds
  | |- leads _ _ (match ?x with _ => _ end) => destruct x; leads_binds
  | |- _ => solve [eauto with stream | leads]
  end.

Lemma WriteStatus_leads err : leads free free (WriteStatus err).
Proof.
  unfold WriteStatus. leads_binds.
Qed.
Lemma server_code_leads c : leads free free (server_code c).
Proof.
  destruct c as [m| |md|md|md]; unfold server_code, server_SendMsg, server_RecvMsg, server_SetHeader, header_SetHeader; leads_binds.
Qed.
Lemma fill_options_leads opts out : leads free free (fill_options opts out).
Proof. revert out. induction opts as [|[] opts IH]; intros out; cbn [fill_options]; leads_binds. Qed.
#[local] Hint Resolve WriteStatus_leads server_code_leads fill_options_leads : stream.

Lemma serve_leads (f : E -> E) opts h sent : leads free free (serve f opts h sent).
Proof.
  revert sent. induction h as [err|err|c k IH]; intros sent; cbn [serve]; leads_binds.
Qed.
#[local] Hint Resolve serve_leads : stream.
Lemma code_disciplined (c : call) : disciplined free (code c).
Proof.
  apply leads_disciplined.
  destruct c; cbn [code]; unfold client_SendMsg, client_RecvMsg; leads_binds.
Qed.

Implicit Types (ms : nat -> mode) (h : internal).

(** ** The invariant of a system

    [v]: what every goroutine holds of one side. *)

Definition view (ms : nat -> mode) (sd : side) (j : nat) : option hold :=
  '(sd', h) ← m_lock (ms j); if decide (sd' = sd) then Some h else None.

Record half_ok (h : internal) (v : nat -> option hold) : Prop := {
  ok_readers j : j ∈ readers h <-> exists b, v j = Some (HRead b);
  ok_waiting j : j ∈ waiting h <-> v j = Some HWait;
  ok_writer j : writer h = Some j <-> (exists b, v j = Some (HWrite b)) \/ v j = Some HClosing;
  ok_excl : readers h = ∅ \/ writer h = None;
  ok_open j : v j = Some (HRead true) \/ v j = Some (HWrite true) -> closed h = false;
  ok_closing j : v j = Some HClosing -> closed h = true /\ chClosed h = false;
  ok_shut : chClosed h = true -> closed h = true;
  ok_closed : closed h = true -> chClosed h = true \/ exists j, v j = Some HClosing
}.

Lemma half_ok_ext h v v' : (forall j, v j = v' j) -> half_ok h v -> half_ok h v'.
Proof.
  intros Hv [Hr Hw Hx He Ho Hc Hs Hd]. split; try done; try (intros j; rewrite <- Hv; eauto).
  intros [|[x ?]]%Hd; [auto|right]. exists x. by rewrite <- Hv.
Qed.

Lemma half_ok_chan h v l : half_ok h v -> half_ok (set_chan h l) v.
Proof. by intros []. Qed.

Lemma writer_alone h v i : half_ok h v -> (exists b, v i = Some (HWrite b)) \/ v i = Some HClosing ->
  writer h = Some i /\ forall j, i <> j -> v j = None \/ v j = Some HWait.
Proof.
  intros [Hr Hw Hx He Ho Hc Hs Hd] Hi. apply Hx in Hi as Hwi. split; [done|]. intros j Hne.
  destruct (v j) as [[b| |b|]|] eqn:Ej; auto.
  - destruct He as [He|]; [|congruence]. specialize (Hr j). rewrite He in Hr. set_solver.
  - assert (writer h = Some j) by (apply Hx; eauto). congruence.
  - assert (writer h = Some j) by (apply Hx; eauto). congruence.
Qed.

#[local] Set Warnings "-clear-no-such-hyp".
(** One fact at a goroutine, which is or is not the one that moves. *)
Ltac half_at i K :=
  let j := fresh "j" in let Hne := fresh "Hne" in
  intros j; specialize (K j); destruct (decide (i = j)) as [<-|Hne]; rewrite ?fn_lookup_insert, ?fn_lookup_insert_ne by done;
  try match goal with Hi : _ = _ |- _ => rewrite Hi in K end; set_unfold in K; set_unfold;
  first [clear -K Hne | clear -K]; naive_solver.
Ltac half_solve i :=
  intros [Hr Hw Hx He Ho Hc Hs Hd] Hi; cbn in Hr, Hw, Hx, He, Ho, Hc, Hs, Hd;
  repeat match goal with K : _ /\ _ |- _ => destruct K | K : exists _, _ |- _ => destruct K end; simplify_eq/=;
  split; cbn;
  [ try solve [half_at i Hr] | try solve [half_at i Hw] | try solve [half_at i Hx]
  | try solve [auto | destruct He; set_solver] | try solve [half_at i Ho] | try solve [half_at i Hc] | try done
  | try solve [auto | intros [|[j Hj]]%Hd; [auto|right]; exists j; rewrite fn_lookup_insert_ne; congruence] ].
(** The other goroutines, when [i] is the writer. *)
Ltac half_alone i Hal :=
  let j := fresh "j" in let Hne := fresh "Hne" in
  intros j; destruct (decide (i = j)) as [<-|Hne]; [rewrite fn_lookup_insert|rewrite fn_lookup_insert_ne by done];
  [|destruct (Hal j Hne) as [-> | ->]]; naive_solver.

Section half.
Context (v : nat -> option hold) (i : nat) (c cc : bool) (r w : gset nat) (o : option nat) (l : list payload).
Notation h0 := (mkInternal c r w o l cc).

Lemma half_rlock : half_ok h0 v -> v i = None /\ w = ∅ /\ o = None ->
  half_ok (mkInternal c ({[i]} ∪ r) w o l cc) (<[i := Some (HRead false)]> v).
Proof. half_solve i. Qed.
Lemma half_runlock : half_ok h0 v -> (exists b, v i = Some (HRead b)) ->
  half_ok (mkInternal c (r ∖ {[i]}) w o l cc) (<[i := None]> v).
Proof. half_solve i. Qed.
Lemma half_wait : half_ok h0 v -> v i = None ->
  half_ok (mkInternal c r ({[i]} ∪ w) o l cc) (<[i := Some HWait]> v).
Proof. half_solve i. Qed.
Lemma half_take : half_ok h0 v -> v i = Some HWait /\ r = ∅ /\ o = None ->
  half_ok (mkInternal c r (w ∖ {[i]}) (Some i) l cc) (<[i := Some (HWrite false)]> v).
Proof. half_solve i. Qed.
Lemma half_unlock : half_ok h0 v -> (exists b, v i = Some (HWrite b)) ->
  half_ok (mkInternal c r w None l cc) (<[i := None]> v).
Proof. intros Hh Hi. destruct (writer_alone _ _ i Hh) as [Ho' Hal]; [by left|]. revert Hh Hi. half_solve i. Qed.
Lemma half_set_closed : half_ok h0 v -> v i = Some (HWrite true) ->
  half_ok (mkInternal true r w o l cc) (<[i := Some HClosing]> v).
Proof.
  intros Hh Hi. destruct (writer_alone _ _ i Hh) as [Ho' Hal]; [eauto|].
  assert (c = false) as -> by (eapply (ok_open _ _ Hh); eauto).
  assert (cc = false) as -> by (destruct cc; [by pose proof (ok_shut _ _ Hh eq_refl)|done]).
  revert Hh Hi. half_solve i.
  - half_alone i Hal.
  - intros _. right. exists i. by rewrite fn_lookup_insert.
Qed.
Lemma half_close_chan : half_ok h0 v -> v i = Some HClosing ->
  half_ok (mkInternal c r w o l true) (<[i := Some (HWrite false)]> v).
Proof.
  intros Hh Hi. destruct (writer_alone _ _ i Hh) as [Ho' Hal]; [eauto|]. revert Hh Hi. half_solve i.
  - half_alone i Hal.
  - intros _. by destruct (Hc i).
Qed.
Lemma half_know_read : half_ok h0 v -> (exists b, v i = Some (HRead b)) -> half_ok h0 (<[i := Some (HRead (negb c))]> v).
Proof. destruct c; half_solve i. Qed.
Lemma half_know_write : half_ok h0 v -> (exists b, v i = Some (HWrite b)) -> half_ok h0 (<[i := Some (HWrite (negb c))]> v).
Proof. destruct c; half_solve i. Qed.
End half.

Implicit Types (l : list event).

Record ok (s : state) (ms : nat -> mode) (l : list event) : Prop := {
  ok_half sd : half_ok (half s sd) (view ms sd);
  ok_once j : onceClose s = OnceRunning j <-> m_once (ms j) = true;
  ok_flow sd : puts sd l = tooks (other sd) l ++ sendCh (half s sd);
  ok_depth sd : length (sendCh (half s sd)) <= queueDepth
}.

Lemma half_set_half s sd h sd' : half (set_half s sd h) sd' = if decide (sd = sd') then h else half s sd'.
Proof. by destruct s, sd, sd'. Qed.
Lemma once_set_half s sd h : onceClose (set_half s sd h) = onceClose s.
Proof. by destruct s, sd. Qed.
Lemma view_insert ms i m sd j :
  view (<[i := m]> ms) sd j = <[i := '(sd', h) ← m_lock m; if decide (sd' = sd) then Some h else None]> (view ms sd) j.
Proof.
  unfold view. destruct (decide (i = j)) as [->|]; [by rewrite !fn_lookup_insert|by rewrite !fn_lookup_insert_ne].
Qed.
Lemma puts_app sd l l' : puts sd (l ++ l') = puts sd l ++ puts sd l'.
Proof. apply omap_app. Qed.
Lemma tooks_app sd l l' : tooks sd (l ++ l') = tooks sd l ++ tooks sd l'.
Proof. apply omap_app. Qed.

(** Only the lock of one side moves. *)
Lemma ok_lock s ms l i sd h m :
  ok s ms l -> m_once m = m_once (ms i) -> sendCh h = sendCh (half s sd) ->
  (forall sd' x, m_lock (ms i) = Some (sd', x) -> sd' = sd) -> (forall sd' x, m_lock m = Some (sd', x) -> sd' = sd) ->
  half_ok h (<[i := snd <$> m_lock m]> (view ms sd)) ->
  ok (set_half s sd h) (<[i := m]> ms) l.
Proof.
  intros [Hh Ho Hf Hd] Hom Hl Hi Hm Hok. split.
  - intros sd'. rewrite half_set_half. case_decide as Hsd.
    + subst sd'. eapply half_ok_ext; [|exact Hok]. intros j. rewrite view_insert. f_equal.
      destruct (m_lock m) as [[sd' x]|] eqn:Em; [|done]. cbn. by rewrite decide_True by (by eapply Hm).
    + eapply half_ok_ext; [|apply Hh]. intros j. rewrite view_insert.
      destruct (decide (i = j)) as [<-|]; [rewrite fn_lookup_insert|by rewrite fn_lookup_insert_ne].
      transitivity (@None hold); [|symmetry]; unfold view.
      * destruct (m_lock (ms i)) as [[sd'' x]|] eqn:Em; [|done]. specialize (Hi _ _ eq_refl) as ->. cbn. by rewrite decide_False.
      * destruct (m_lock m) as [[sd'' x]|] eqn:Em; [|done]. specialize (Hm _ _ eq_refl) as ->. cbn. by rewrite decide_False.
  - intros j. rewrite once_set_half, Ho. destruct (decide (i = j)) as [<-|]; [rewrite fn_lookup_insert, Hom|rewrite fn_lookup_insert_ne]; done.
  - intros sd'. rewrite half_set_half, Hf. case_decide; [subst; by rewrite Hl|done].
  - intros sd'. rewrite half_set_half. case_decide; [subst; by rewrite Hl|done].
Qed.

(** No lock moves. *)
Lemma ok_same s ms l i m : ok s ms l -> ms i = m -> ok s (<[i := m]> ms) l.
Proof.
  intros [Hh Ho Hf Hd] <-. split; [| |done..].
  - intros sd. eapply half_ok_ext; [|apply Hh]. intros j. rewrite view_insert.
    destruct (decide (i = j)) as [<-|]; [by rewrite fn_lookup_insert|by rewrite fn_lookup_insert_ne].
  - intros j. rewrite Ho. destruct (decide (i = j)) as [<-|]; [by rewrite fn_lookup_insert|by rewrite fn_lookup_insert_ne].
Qed.
Lemma ok_shared s s' ms l :
  (forall sd, half s' sd = half s sd) -> onceClose s' = onceClose s -> ok s ms l -> ok s' ms l.
Proof. intros Hh Ho [H1 H2 H3 H4]. split; intros; rewrite ?Hh, ?Ho; auto. Qed.

Lemma view_of ms i sd x : m_lock (ms i) = Some (sd, x) -> view ms sd i = Some x.
Proof. unfold view. intros ->. cbn. by rewrite decide_True. Qed.
Lemma view_none ms i sd : m_lock (ms i) = None -> view ms sd i = None.
Proof. unfold view. by intros ->. Qed.

(** A message goes into the channel of [sd], or [sd] takes one. *)
Lemma ok_put s ms l sd m : ok s ms l -> length (sendCh (half s sd)) < queueDepth ->
  ok (set_half s sd (set_chan (half s sd) (sendCh (half s sd) ++ [m]))) ms (l ++ [EPut sd m]).
Proof.
  intros [Hh Ho Hf Hd] Hl. split.
  - intros sd'. rewrite half_set_half. case_decide; [subst; apply half_ok_chan|]; apply Hh.
  - intros j. by rewrite once_set_half.
  - intros sd'. rewrite puts_app, tooks_app, half_set_half, Hf. cbn. rewrite app_nil_r.
    destruct (decide (sd' = sd)) as [->|]; [|by rewrite app_nil_r, decide_False].
    rewrite decide_True by done. cbn. by rewrite app_assoc.
  - intros sd'. rewrite half_set_half. case_decide; [subst; cbn; rewrite length_app; cbn; lia|done].
Qed.
Lemma other_other sd : other (other sd) = sd.
Proof. by destruct sd. Qed.
Lemma ok_take s ms l sd p rest : ok s ms l -> sendCh (half s (other sd)) = p :: rest ->
  ok (set_half s (other sd) (set_chan (half s (other sd)) rest)) ms (l ++ [ETook sd p]).
Proof.
  intros [Hh Ho Hf Hd] Hp. split.
  - intros sd'. rewrite half_set_half. case_decide; [subst; apply half_ok_chan|]; apply Hh.
  - intros j. by rewrite once_set_half.
  - intros sd'. rewrite puts_app, tooks_app, half_set_half, Hf. cbn. rewrite app_nil_r.
    destruct (decide (other sd = sd')) as [<-|Hne]; cbn.
    + rewrite other_other, decide_True, Hp by done. cbn. by rewrite <- app_assoc.
    + rewrite decide_False, app_nil_r; [done|]. intros <-. apply Hne. apply other_other.
  - intros sd'. rewrite half_set_half. case_decide; [|done]. subst. specialize (Hd (other sd)). rewrite Hp in Hd. cbn in *. lia.
Qed.

Lemma take_inv {R} s sd (f : option payload -> R) empty s' r ev :
  Go s' r ev ∈ take s sd f empty ->
  (exists p rest, sendCh (half s (other sd)) = p :: rest /\ s' = set_half s (other sd) (set_chan (half s (other sd)) rest) /\
     r = f (Some p) /\ ev = [ETook sd p]) \/
  (chClosed (half s (other sd)) = true /\ sendCh (half s (other sd)) = [] /\ s' = s /\ r = f None /\ ev = []) \/
  Go s' r ev ∈ empty.
Proof.
  unfold take. destruct (sendCh (half s (other sd))) as [|p rest].
  - destruct (chClosed _); [|by right; right]. intros [= -> -> ->]%list_elem_of_singleton. by right; left.
  - intros [= -> -> ->]%list_elem_of_singleton. left. by eexists _, _.
Qed.

Lemma set_half_id s sd : set_half s sd (half s sd) = s.
Proof. by destruct s, sd. Qed.

(** The lock of [sd] goes to [h]; what [i] holds of it goes from [x] to [y]. *)
Lemma exec_lock_ok i s ms l lk on sd h x y s' r ev :
  ok s ms l -> ms i = mkMode lk on ->
  Go s' r ev ∈ upd s sd h -> sendCh h = sendCh (half s sd) -> lk = (sd,.) <$> x ->
  (half_ok (half s sd) (view ms sd) -> view ms sd i = x -> half_ok h (<[i := y]> (view ms sd))) ->
  ok s' (<[i := mkMode ((sd,.) <$> y) on]> ms) (l ++ ev).
Proof.
  intros Hok Em [= -> -> ->]%list_elem_of_singleton Hl -> Hh. rewrite app_nil_r.
  assert (view ms sd i = x) as Hx by (destruct x; [eapply view_of|eapply view_none]; by rewrite Em).
  apply ok_lock; try done; rewrite ?Em; cbn; [done|by destruct x; intros; simplify_eq/=|by destruct y; intros; simplify_eq/=|].
  replace (snd <$> ((sd,.) <$> y)) with y by (by destruct y). apply Hh; [|done]. by apply Hok.
Qed.

Lemma exec_know_ok i s ms l lk on sd : ok s ms l -> ms i = mkMode lk on ->
  ok s (<[i := knows (mkMode lk on) sd (negb (closed (half s sd)))]> ms) l.
Proof.
  intros Hok Em. destruct lk as [[sd' h]|]; [|by apply ok_same]. assert (Hu : Go s tt [] ∈ upd s sd (half s sd)) by (unfold upd; rewrite set_half_id; by left).
  destruct h as [b| |b|]; cbn; try (by apply ok_same); case_decide; try (by apply ok_same); subst sd'; rewrite <- (app_nil_r l).
  - eapply (exec_lock_ok i s ms l _ on sd _ (Some (HRead b)) (Some (HRead _))); try done.
    destruct (half s sd). intros Hh Hv. apply half_know_read; eauto.
  - eapply (exec_lock_ok i s ms l _ on sd _ (Some (HWrite b)) (Some (HWrite _))); try done.
    destruct (half s sd). intros Hh Hv. apply half_know_write; eauto.
Qed.

Lemma ok_once_step i s ms l lk on o b : ok s ms l -> ms i = mkMode lk on ->
  (forall j, o = OnceRunning j <-> m_once (<[i := mkMode lk b]> ms j) = true) ->
  ok (set_once s o) (<[i := mkMode lk b]> ms) l.
Proof.
  intros [Hh Ho Hf Hd] Em Hb. split.
  - intros sd. replace (half (set_once s o) sd) with (half s sd) by (by destruct s, sd).
    eapply half_ok_ext; [|apply Hh]. intros j. unfold view.
    destruct (decide (i = j)) as [<-|]; [by rewrite fn_lookup_insert, Em|by rewrite fn_lookup_insert_ne].
  - intros j. rewrite <- Hb. by destruct s.
  - intros sd. rewrite Hf. by destruct s, sd.
  - intros sd. specialize (Hd sd). by destruct s, sd.
Qed.

Lemma send_inv i s sd m s' r ev : Go s' r ev ∈ exec i s (SelectSend sd m) ->
  (r = true /\ chClosed (half s sd) = false /\ length (sendCh (half s sd)) < queueDepth /\
     s' = set_half s sd (set_chan (half s sd) (sendCh (half s sd) ++ [m])) /\ ev = [EPut sd m]) \/
  (r = false /\ s' = s /\ ev = [] /\ (cancelled s = true \/ closeCtx s = true)).
Proof.
  cbn [exec]. rewrite !elem_of_app. intros [Hg|[Hg|Hg]].
  - destruct (chClosed _); [by apply list_elem_of_singleton in Hg|].
    destruct (Nat.ltb_spec (length (sendCh (half s sd))) queueDepth); [|by apply not_elem_of_nil in Hg].
    apply list_elem_of_singleton in Hg as [= -> -> ->]. by left.
  - destruct (cancelled s); [|by apply not_elem_of_nil in Hg]. apply list_elem_of_singleton in Hg as [= -> -> ->]. right. auto.
  - destruct (closeCtx s); [|by apply not_elem_of_nil in Hg]. apply list_elem_of_singleton in Hg as [= -> -> ->]. right. auto.
Qed.

(** The other shared variables. *)
Lemma exec_shared_ok i s s' ms l m : ok s ms l -> ms i = m ->
  client s' = client s -> server s' = server s -> onceClose s' = onceClose s -> ok s' (<[i := m]> ms) (l ++ []).
Proof.
  intros Hok Hm Hc Hs Ho. rewrite app_nil_r. apply ok_same; [|done]. eapply ok_shared; [|done..]. intros []; cbn; congruence.
Qed.

Lemma exec_ok i s ms l {R} (a : act R) f s' r ev :
  ok s ms l -> after (ms i) a = Some f -> Go s' r ev ∈ exec i s a -> ok s' (<[i := f r]> ms) (l ++ ev).
Proof.
  intros Hok Ha Hg. destruct (ms i) as [lk on] eqn:Em.
  assert (forall s', client s' = client s -> server s' = server s -> onceClose s' = onceClose s ->
    ok s' (<[i := mkMode lk on]> ms) (l ++ [])) as Hshared by (intros; by eapply exec_shared_ok).
  destruct a; cbn in Ha, Hg; unfold need in Ha; try (case_decide as Hneed; [|done]); simplify_eq/=;
    try (destruct s as [c v ca cl sc hs hm tr o]; try case_match; apply list_elem_of_singleton in Hg; simplify_eq; by apply Hshared).
  - apply list_elem_of_singleton in Hg. simplify_eq. rewrite app_nil_r. by eapply exec_know_ok.
  - injection Hneed as -> ->. destruct (half s sd) as [c rd w o ch cc] eqn:Eh. case_bool_decide as Hb; [|by apply not_elem_of_nil in Hg].
    eapply (exec_lock_ok i s ms l _ _ sd _ None (Some (HRead false))); rewrite ?Eh; eauto.
    intros Hh Hv. by eapply half_rlock.
  - destruct Hneed as [b ->]. destruct (half s sd) as [c rd w o ch cc] eqn:Eh.
    eapply (exec_lock_ok i s ms l _ _ sd _ (Some (HRead b)) None); rewrite ?Eh; eauto.
    intros Hh Hv. eapply half_runlock; eauto.
  - destruct (half s sd) as [c rd w o ch cc] eqn:Eh.
    eapply (exec_lock_ok i s ms l _ _ sd _ None (Some HWait)); rewrite ?Eh; eauto.
    intros Hh Hv. by eapply half_wait.
  - destruct (half s sd) as [c rd w o ch cc] eqn:Eh. case_bool_decide as Hb; [|by apply not_elem_of_nil in Hg].
    eapply (exec_lock_ok i s ms l _ _ sd _ (Some HWait) (Some (HWrite false))); rewrite ?Eh; eauto.
    intros Hh Hv. by eapply half_take.
  - destruct Hneed as [b ->]. destruct (half s sd) as [c rd w o ch cc] eqn:Eh.
    eapply (exec_lock_ok i s ms l _ _ sd _ (Some (HWrite b)) None); rewrite ?Eh; eauto.
    intros Hh Hv. eapply half_unlock; eauto.
  - destruct (half s sd) as [c rd w o ch cc] eqn:Eh.
    eapply (exec_lock_ok i s ms l _ _ sd _ (Some (HWrite true)) (Some HClosing)); rewrite ?Eh; eauto.
    intros Hh Hv. by eapply half_set_closed.
  - destruct (half s sd) as [c rd w o ch cc] eqn:Eh. destruct cc; [by apply list_elem_of_singleton in Hg|].
    eapply (exec_lock_ok i s ms l _ _ sd _ (Some HClosing) (Some (HWrite false))); rewrite ?Eh; eauto.
    intros Hh Hv. by eapply half_close_chan.
  - rewrite <- Em. apply (send_inv i) in Hg as [(_ & _ & Hl & -> & ->)|(_ & -> & -> & _)]; [|by rewrite Em; apply Hshared].
    apply ok_same; [|done]. by apply ok_put.
  - apply elem_of_app in Hg as [Hg|Hg].
    + apply take_inv in Hg as [(p & rest & Hp & -> & -> & ->)|[(_ & _ & -> & -> & ->)|Hg]]; [|by apply Hshared|by apply not_elem_of_nil in Hg].
      apply ok_same; [|done]. by apply ok_take.
    + destruct (cancelled s); [|by apply not_elem_of_nil in Hg]. apply list_elem_of_singleton in Hg as [= -> -> ->]. by apply Hshared.
  - apply take_inv in Hg as [(p & rest & Hp & -> & -> & ->)|[(_ & _ & -> & -> & ->)|Hg]]; [|by apply Hshared|].
    + apply ok_same; [|done]. by apply ok_take.
    + apply list_elem_of_singleton in Hg as [= -> -> ->]. by apply Hshared.
  - destruct s as [c v ca cl sc [] hm tr o]; [|destruct (md_none md)];
      apply list_elem_of_singleton in Hg; simplify_eq; by apply Hshared.
  - destruct (hdrSent s); [|by apply not_elem_of_nil in Hg]. apply list_elem_of_singleton in Hg as [= -> -> ->]. by apply Hshared.
  - injection Hneed as -> ->. pose proof (ok_once _ _ _ Hok) as Ho.
    destruct (onceClose s) as [|j|] eqn:Eo; [|by apply not_elem_of_nil in Hg|];
      apply list_elem_of_singleton in Hg as [= -> -> ->]; rewrite app_nil_r; [|by apply ok_same].
    eapply ok_once_step; [done..|]. intros j. destruct (decide (i = j)) as [<-|]; [by rewrite fn_lookup_insert|].
    rewrite fn_lookup_insert_ne, <- Ho by done. split; congruence.
  - pose proof (ok_once _ _ _ Hok) as Ho.
    apply list_elem_of_singleton in Hg as [= -> -> ->]. rewrite app_nil_r. eapply ok_once_step; [done..|].
    assert (onceClose s = OnceRunning i) as Ei by (apply Ho; by rewrite Em).
    intros j. destruct (decide (i = j)) as [<-|]; [by rewrite fn_lookup_insert|].
    rewrite fn_lookup_insert_ne, <- Ho, Ei by done. split; congruence.
Qed.

End locks.
End StreamLocks.
