(* ===== verification/StreamProps.v ===== *)
(** * In-process streams: order, termination, status

    Against the discipline of [StreamLocks]: messages arrive in the order in which they were
    sent and no channel operation panics; a cancelled stream comes to rest; the client of a
    handler reads its messages, its status and then the end. *)

From S2P Require Import Prelude GrpcMetadata GrpcStream StreamLocks.

Open Scope string_scope.
Open Scope list_scope.

Module StreamProps.
Import GrpcStream StreamLocks.

Section props.
Context {MD Msg E : Type} `{MetadataJoin MD}.
Notation act := (GrpcStream.act (MD := MD) (Msg := Msg) (E := E)).
Notation prog := (GrpcStream.prog (MD := MD) (Msg := Msg) (E := E)).
Notation payload := (GrpcStream.payload (Msg := Msg) (E := E)).
Notation event := (GrpcStream.event (Msg := Msg) (E := E)).
Notation state := (GrpcStream.state (MD := MD) (Msg := Msg) (E := E)).
Notation outcome := (GrpcStream.outcome (MD := MD) (Msg := Msg) (E := E)).
Notation value := (GrpcStream.value (MD := MD) (Msg := Msg) (E := E)).
Notation call := (GrpcStream.call (MD := MD) (Msg := Msg) (E := E)).
Notation system := (GrpcStream.system (MD := MD) (Msg := Msg) (E := E)).
Implicit Types (s : state) (S : system) (sd : side) (l : list event) (ms : nat -> mode).

(** ** The invariant *)

Record inv S ms : Prop := {
  inv_ok : ok (st S) ms (log S);
  inv_threads i p : threads S !! i = Some p -> disciplined (ms i) p;
  inv_free i : length (threads S) <= i -> ms i = free
}.

Lemma start_inv : inv start (fun _ => free).
Proof.
  split; [|done..]. split; [| |by intros []|intros []; cbn; lia].
  - intros sd. assert (half (st start) sd = newInternal) as -> by by destruct sd.
    split; cbn; try done; try set_solver; naive_solver.
  - intros j. cbn. done.
Qed.

Lemma do_step_inv S lb S' : do_step S lb = Some S' ->
  (exists c, lb = Call c /\ S' = mkSystem (st S) (threads S ++ [code c]) (log S)) \/
  (exists i n R (a : act R) k s r ev, lb = Run i n /\ threads S !! i = Some (Act a k) /\ Go s r ev ∈ exec i (st S) a /\
     S' = mkSystem s (<[i := k r]> (threads S)) (log S ++ ev)).
Proof.
  destruct lb as [c|i n]; cbn; [intros [= <-]; eauto|].
  destruct (threads S !! i) as [[v|R a k]|] eqn:Ei; [done| |done].
  destruct (exec i (st S) a !! n) as [[s r ev|]|] eqn:En; [|done..]. intros [= <-]. right.
  exists i, n, R, a, k, s, r, ev. split_and!; try done. by eapply list_elem_of_lookup_2.
Qed.

Lemma run_inv S ms i {R} (a : act R) k s r ev :
  inv S ms -> threads S !! i = Some (Act a k) -> Go s r ev ∈ exec i (st S) a ->
  exists m, inv (mkSystem s (<[i := k r]> (threads S)) (log S ++ ev)) (<[i := m]> ms) /\ disciplined m (k r).
Proof.
  intros [Hok Hth Hfr] Hi Hg. pose proof (Hth _ _ Hi) as Hd. cbn in Hd.
  destruct (after (ms i) a) as [f|] eqn:Ea; [|done]. exists (f r). split; [|done]. split; cbn.
  - by eapply exec_ok.
  - intros j p Hj. destruct (decide (i = j)) as [<-|].
    + rewrite functions.fn_lookup_insert. apply list_lookup_insert_Some in Hj as [(_ & <- & _)|(? & _)]; [apply Hd|done].
    + rewrite functions.fn_lookup_insert_ne by done. rewrite list_lookup_insert_ne in Hj by done. by apply Hth.
  - intros j. rewrite length_insert. intros Hj. apply lookup_lt_Some in Hi. rewrite functions.fn_lookup_insert_ne by lia. auto.
Qed.

Lemma step_inv S S' ms : inv S ms -> step S S' -> exists ms', inv S' ms'.
Proof.
  intros Hinv [lb Hl]. apply do_step_inv in Hl as [(c & -> & ->)|(i & n & R & a & k & s & r & ev & -> & Hi & Hg & ->)].
  - exists ms. destruct Hinv as [Hok Hth Hfr]. split; cbn; [done| |].
    + intros i p [Hp|[Hl Hp]]%lookup_app_Some; [auto|]. apply list_lookup_singleton_Some in Hp as [? <-].
      rewrite Hfr by done. apply code_disciplined.
    + intros i. rewrite length_app. intros ?. apply Hfr. lia.
  - destruct (run_inv S ms i a k s r ev) as (m & ? & _); eauto.
Qed.

Lemma stream_invariant S : reachable S -> exists ms, inv S ms.
Proof.
  intros Hr. refine (rtc_invariant _ (fun S => exists ms, inv S ms) start _ _ S Hr).
  - eexists. apply start_inv.
  - intros S1 S2 [ms Hms]. by apply (step_inv S1 S2 ms).
Qed.

Lemma take_no_panic {R} s sd (f : option payload -> R) empty why : Panics why ∈ take s sd f empty -> Panics why ∈ empty.
Proof.
  unfold take. destruct (sendCh _); [destruct (chClosed _); [|done]|]; by intros ?%list_elem_of_singleton.
Qed.

Lemma no_panic s ms l i {R} (a : act R) (k : R -> prog value) why :
  ok s ms l -> disciplined (ms i) (Act a k) -> Panics why ∈ exec i s a -> False.
Proof.
  intros Hok Hd Hp. cbn in Hd. destruct (after (ms i) a) as [f|] eqn:Ha; [clear Hd|done].
  pose proof (ok_half _ _ _ Hok) as Hh. destruct (ms i) as [lk on] eqn:Em.
  destruct a; cbn in Ha, Hp; unfold need in Ha; try (case_decide; [|done]); simplify_eq;
    try solve [repeat case_match; first [by apply list_elem_of_singleton in Hp | by apply not_elem_of_nil in Hp]].
  - specialize (Hh sd). destruct (ok_closing _ _ Hh i) as [_ Hc]; [by eapply view_of; rewrite Em|].
    destruct (half s sd). cbn in Hc. subst. by apply list_elem_of_singleton in Hp.
  - specialize (Hh sd). assert (closed (half s sd) = false) as Ho.
    { apply (ok_open _ _ Hh i). left. by eapply view_of; rewrite Em. }
    destruct (chClosed (half s sd)) eqn:Ec; [by rewrite (ok_shut _ _ Hh Ec) in Ho|].
    apply elem_of_app in Hp as [Hp|[Hp|Hp]%elem_of_app]; case_match;
      first [by apply list_elem_of_singleton in Hp | by apply not_elem_of_nil in Hp].
  - apply elem_of_app in Hp as [Hp%take_no_panic%not_elem_of_nil|Hp]; [done|].
    case_match; first [by apply list_elem_of_singleton in Hp | by apply not_elem_of_nil in Hp].
  - apply take_no_panic in Hp. by apply list_elem_of_singleton in Hp.
Qed.

(** C27: Between the two ends of an in-process stream, whatever the goroutines on both sides do
    and however they interleave: no send on a closed channel and no second close can happen;
    what one end took is, in order, the beginning of what the other end put, the rest is in
    the channel, and the channel never holds more than sixteen messages. *)
Theorem stream_in_order S : reachable S ->
  ~ panics S /\
  forall sd, puts sd (log S) = tooks (other sd) (log S) ++ sendCh (half (st S) sd) /\ length (sendCh (half (st S) sd)) <= queueDepth.
Proof.
  intros [ms Hinv]%stream_invariant. split.
  - intros (i & R & a & k & why & Hi & Hp). eapply no_panic; [apply Hinv|by eapply inv_threads|done].
  - intros sd. split; apply Hinv.
Qed.

(** ** Termination *)

(** One element of a list moves down a relation. *)
Definition moves {A} (R : relation A) : relation (list A) :=
  fun xs' xs => exists i x x', xs !! i = Some x /\ R x' x /\ xs' = <[i := x']> xs.

Lemma moves_wf {A} (R : relation A) (HR : forall x, Acc R x) (xs : list A) : Acc (moves R) xs.
Proof.
  induction xs as [|x xs IHxs]; [constructor; by intros ? (i & ? & ? & ? & _)|].
  revert xs IHxs. induction (HR x) as [x _ IHx]. intros xs Hxs. induction Hxs as [xs Hacc IHxs].
  constructor. intros ? ([|i] & y & y' & Hi & Hy & ->); cbn in *.
  - injection Hi as ->. apply IHx; [done|]. by constructor.
  - apply IHxs. by exists i, y, y'.
Qed.

(** What a program becomes when its next action is answered. *)
Definition continues (p' p : prog value) : Prop := match p with Ret _ => False | Act _ k => exists r, p' = k r end.
Lemma continues_wf p : Acc continues p.
Proof. induction p as [v|R a k IH]; constructor; [done|]. intros ? [r ->]. apply IH. Qed.

Lemma run_moves S S' : run_step S S' -> moves continues (threads S') (threads S).
Proof.
  intros (i & n & Hs). apply do_step_inv in Hs as [(c & [=] & _)|(i' & n' & R & a & k & s & r & ev & _ & Hi & _ & ->)].
  exists i', (Act a k), (k r). split_and!; [done| |done]. by exists r.
Qed.
Lemma runs_wf S : Acc (flip run_step) S.
Proof.
  remember (threads S) as ts eqn:Ets. revert S Ets. induction (moves_wf continues continues_wf ts) as [ts _ IH].
  intros S ->. constructor. intros S' Hs. eapply IH; [by apply run_moves|done].
Qed.

(** What an action does to the flags. *)
Lemma exec_flags i s {R} (a : act R) s' r ev : Go s' r ev ∈ exec i s a ->
  cancelled s' = match a with CancelCall => true | _ => cancelled s end /\
  closeCtx s' = match a with CancelClose => true | _ => closeCtx s end /\
  srvClosed s' = match a with SetSrvClosed => true | _ => srvClosed s end /\
  hdrSent s' = match a with MarkSent => true | _ => hdrSent s end /\
  (forall sd, closed (half s' sd) = match a with SetClosed sd' => bool_decide (sd' = sd) || closed (half s sd) | _ => closed (half s sd) end) /\
  (forall sd, chClosed (half s' sd) = match a with CloseChan sd' => bool_decide (sd' = sd) || chClosed (half s sd) | _ => chClosed (half s sd) end).
Proof.
  destruct s as [[c1 r1 w1 o1 l1 d1] [c2 r2 w2 o2 l2 d2] ca cl sc hs hm tr o].
  destruct a; try destruct sd; cbn; unfold upd, take; cbn; intros Hg;
   repeat first [apply elem_of_app in Hg as [Hg|Hg] | case_match];
   first [by apply not_elem_of_nil in Hg | apply list_elem_of_singleton in Hg; simplify_eq/=; split_and!; try done; by intros []].
Qed.

(** What an action waits for once the call is cancelled. *)
Definition waits_for s {R} (a : act R) : Prop :=
  match a with
  | RLock sd => waiting (half s sd) <> ∅ \/ writer (half s sd) <> None
  | LockTake sd => readers (half s sd) <> ∅ \/ writer (half s sd) <> None
  | WaitHeader => hdrSent s = false
  | OnceEnter => exists j, onceClose s = OnceRunning j
  | _ => False
  end.
Lemma blocked_waits i s {R} (a : act R) : cancelled s = true -> exec i s a = [] -> waits_for s a.
Proof.
  intros Hc. destruct a; cbn; unfold upd; rewrite ?Hc; try (by destruct s); intros He.
  - destruct (half s sd) as [c r w o xs cc]. case_bool_decide as Hb; [done|]. cbn.
    destruct (decide (w = ∅)); [|by left]. right. intros ->. by apply Hb.
  - by destruct (half s sd).
  - by destruct (half s sd).
  - destruct (half s sd) as [c r w o xs cc]. case_bool_decide as Hb; [done|]. cbn.
    destruct (decide (r = ∅)); [|by left]. right. intros ->. by apply Hb.
  - by destruct (half s sd).
  - by destruct (half s sd).
  - destruct (half s sd) as [c r w o xs []]; done.
  - apply app_nil in He as [_ He]. by apply app_nil in He as [He _].
  - by apply app_nil in He as [_ He].
  - unfold take in He. by repeat case_match.
  - destruct s as [? ? ? ? ? [] ? ? ?]; [done|]. by case_match.
  - by destruct (hdrSent s).
  - destruct (onceClose s); eauto; done.
Qed.

(** Nobody can go on. *)
Definition stuck S : Prop := forall S', ~ run_step S S'.

Section stuck.
Context (S : system) (ms : nat -> mode) (Hinv : inv S ms) (Hc : cancelled (st S) = true) (Hstuck : stuck S).

Lemma stuck_waits i p : threads S !! i = Some p ->
  match p with Ret _ => ms i = free | Act a k => waits_for (st S) a /\ exists f, after (ms i) a = Some f end.
Proof.
  intros Hi. pose proof (inv_threads _ _ Hinv _ _ Hi) as Hd. destruct p as [v|R a k]; [done|]. split.
  - apply blocked_waits with i; [done|]. destruct (exec i (st S) a) as [|[s r ev|why] os] eqn:Ee; [done|exfalso..].
    + apply (Hstuck (mkSystem s (<[i := k r]> (threads S)) (log S ++ ev))). exists i, 0%nat. cbn. by rewrite Hi, Ee.
    + eapply no_panic; [apply Hinv|exact Hd|]. rewrite Ee. by left.
  - cbn in Hd. destruct (after (ms i) a); [eauto|done].
Qed.

(** A goroutine that holds something has an action to do, and waits. *)
Lemma holder_waits i : ms i <> free -> exists R (a : act R), waits_for (st S) a /\ exists f, after (ms i) a = Some f.
Proof.
  intros Hne. destruct (threads S !! i) as [p|] eqn:Hi.
  - apply stuck_waits in Hi. destruct p as [v|R a k]; [done|eauto].
  - apply lookup_ge_None in Hi. by apply (inv_free _ _ Hinv) in Hi.
Qed.

Ltac holder := match goal with Em : ms ?i = _ |- _ =>
  destruct (holder_waits i) as (R & a & Hw & f & Hf); [by rewrite Em|];
  rewrite Em in Hf; destruct a; cbn in Hw, Hf; try done; unfold need in Hf; try (case_decide; [|done]); simplify_eq end.

Lemma no_reader i sd b o : ms i <> mkMode (Some (sd, HRead b)) o.
Proof. intros Em. holder. Qed.
Lemma no_writer i sd b o : ms i <> mkMode (Some (sd, HWrite b)) o.
Proof. intros Em. holder. Qed.
Lemma no_closing i sd o : ms i <> mkMode (Some (sd, HClosing)) o.
Proof. intros Em. holder. Qed.

Lemma lock_of sd i x : view ms sd i = Some x -> exists o, ms i = mkMode (Some (sd, x)) o.
Proof.
  unfold view. destruct (ms i) as [[[sd' y]|] o]; cbn; [|done]. case_decide; [|done]. intros [= <-]. subst. eauto.
Qed.
Lemma no_holder sd : readers (half (st S) sd) = ∅ /\ writer (half (st S) sd) = None.
Proof.
  pose proof (ok_half _ _ _ (inv_ok _ _ Hinv) sd) as Hh. split.
  - apply set_eq. intros j. split; [|set_solver]. intros [b [o Hj]%lock_of]%(ok_readers _ _ Hh). by apply no_reader in Hj.
  - destruct (writer _) as [j|] eqn:Ew; [|done].
    apply (ok_writer _ _ Hh) in Ew as [[b [o Hj]%lock_of]|[o Hj]%lock_of]; [by apply no_writer in Hj|by apply no_closing in Hj].
Qed.
Lemma no_waiter i sd o : ms i <> mkMode (Some (sd, HWait)) o.
Proof. intros Em. holder. destruct Hw as [Hw|Hw]; by apply Hw, no_holder. Qed.
Lemma no_runner i : ms i <> mkMode None true.
Proof. intros Em. holder. Qed.

Lemma all_free i : ms i = free.
Proof.
  destruct (ms i) as [[[sd [b| |b|]]|] []] eqn:Em; try done; exfalso;
    [by eapply no_reader|by eapply no_reader|by eapply no_waiter|by eapply no_waiter|by eapply no_writer|by eapply no_writer
    |by eapply no_closing|by eapply no_closing|by eapply no_runner].
Qed.
Lemma no_waiting sd : waiting (half (st S) sd) = ∅.
Proof.
  pose proof (ok_half _ _ _ (inv_ok _ _ Hinv) sd) as Hh. apply set_eq. intros j. split; [|set_solver].
  intros [o Hj]%(ok_waiting _ _ Hh)%lock_of. by rewrite all_free in Hj.
Qed.
Lemma no_once j : onceClose (st S) <> OnceRunning j.
Proof. rewrite (ok_once _ _ _ (inv_ok _ _ Hinv)). by rewrite all_free. Qed.
End stuck.

Lemma inv_runs S S' ms : inv S ms -> rtc run_step S S' -> exists ms', inv S' ms'.
Proof.
  intros Hinv Hr. revert ms Hinv. induction Hr as [|S1 S2 S3 (i & n & Hs) _ IH]; intros ms Hinv; [eauto|].
  destruct (step_inv S1 S2 ms) as [ms' Hms]; [done|by eexists|]. by eapply IH.
Qed.
Lemma run_cancelled S S' : rtc run_step S S' -> cancelled (st S) = true -> cancelled (st S') = true.
Proof.
  induction 1 as [|S1 S2 S3 (i & n & Hs) _ IH]; [done|]. intros Hc. apply IH.
  apply do_step_inv in Hs as [(c & [=] & _)|(i' & n' & R & a & k & s & r & ev & _ & _ & Hg & ->)].
  apply exec_flags in Hg as [Hg _]. cbn. rewrite Hg. by destruct a.
Qed.

(** C28: A stream comes to rest after its call was cancelled, if no new calls are made: every
    run is finite, and at its end every call has returned, apart from calls of [Header] while
    no header was sent.  In particular no [Send], [Recv] or [Close] stays blocked, whatever
    the channels and locks looked like. *)
Theorem cancelled_stream_rests S : reachable S -> cancelled (st S) = true ->
  Acc (flip run_step) S /\
  forall S', rtc run_step S S' -> stuck S' -> forall i p, threads S' !! i = Some p ->
    (exists v, p = Ret v) \/ (hdrSent (st S') = false /\ exists k, p = Act WaitHeader k).
Proof.
  intros [ms Hinv]%stream_invariant Hc. split; [apply runs_wf|]. intros S' Hr Hst i p Hi.
  destruct (inv_runs S S' ms Hinv Hr) as [ms' Hinv']. pose proof (run_cancelled _ _ Hr Hc) as Hc'.
  pose proof (stuck_waits S' ms' Hinv' Hc' Hst i p Hi) as Hw. destruct p as [v|R a k]; [eauto|right].
  destruct Hw as [Hw _]. destruct a; cbn in Hw; try done; [exfalso..|by eauto|exfalso].
  - destruct Hw as [Hw|Hw]; apply Hw; [by eapply no_waiting|by eapply no_holder].
  - destruct Hw as [Hw|Hw]; by apply Hw; eapply no_holder.
  - destruct Hw as [j Hj]. by eapply no_once.
Qed.

(** A sequence of labels. *)
Fixpoint run_all (ls : list (GrpcStream.label (MD := MD) (Msg := Msg) (E := E))) (S : system) : option system :=
  match ls with [] => Some S | l :: ls => S' ← do_step S l; run_all ls S' end.
Lemma run_all_reachable ls S S' : reachable S -> run_all ls S = Some S' -> reachable S'.
Proof.
  revert S. induction ls as [|l ls IH]; intros S Hr; cbn; [by intros [= <-]|].
  destruct (do_step S l) as [S1|] eqn:Hs; [|done]. cbn. apply IH. eapply rtc_r; [done|by exists l].
Qed.

End props.

(** A message from the client to the server. *)
Definition example_calls : list (GrpcStream.label (MD := gmap string (list string)) (Msg := nat) (E := string)) :=
  Call (CSendMsg 5) :: replicate 7 (Run 0 0) ++ [Call (SCall SRecvMsg); Run 1 0].
Lemma stream_in_order_witness : exists S, run_all example_calls start = Some S /\ ~ panics S /\
  puts Client (log S) = [typeData 5] ++ sendCh (client (st S)).
Proof.
  assert (tooks Server ∘ log <$> run_all example_calls start = Some [typeData 5]) as Hl by (vm_compute; reflexivity).
  destruct (run_all example_calls start) as [S|] eqn:Hs; [|done]. injection Hl as Hl. exists S. split; [done|].
  destruct (stream_in_order S (run_all_reachable _ _ _ (rtc_refl _ _) Hs)) as [Hp Hf].
  split; [done|]. destruct (Hf Client) as [-> _]. by rewrite <- Hl.
Defined.

(** A reader, a caller of [Header], and a cancellation. *)
Definition example_cancelled : list (GrpcStream.label (MD := gmap string (list string)) (Msg := nat) (E := string)) :=
  [Call CRecvMsg; Call CHeader; Call CCancel; Run 2 0].
Lemma cancelled_stream_rests_witness :
  exists S, run_all example_cancelled start = Some S /\ cancelled (st S) = true /\ Acc (flip run_step) S.
Proof.
  assert (cancelled ∘ st <$> run_all example_cancelled start = Some true) as Hc by (vm_compute; reflexivity).
  destruct (run_all example_cancelled start) as [S|] eqn:Hs; [|done]. injection Hc as Hc. exists S. split_and!; [done..|].
  apply (cancelled_stream_rests S (run_all_reachable _ _ _ (rtc_refl _ _) Hs) Hc).
Defined.

End StreamProps.
