(* ===== verification/StreamStatus.v ===== *)
(** * In-process streams: what a client reads from a handler

    While the client only uses its own methods and the call is not cancelled, the goroutine of
    a handler knows the state of its end of the stream; so the messages of the handler, then
    its status, then the end of the stream reach the client. *)

From S2P Require Import Prelude GrpcMetadata GrpcStream StreamLocks StreamProps.

Open Scope string_scope.
Open Scope list_scope.

Module StreamStatus.
Import GrpcStream StreamLocks StreamProps.

Section status.
Context {MD Msg E : Type} `{MetadataJoin MD}.
Notation act := (GrpcStream.act (MD := MD) (Msg := Msg) (E := E)).
Notation prog := (GrpcStream.prog (MD := MD) (Msg := Msg) (E := E)).
Notation payload := (GrpcStream.payload (Msg := Msg) (E := E)).
Notation event := (GrpcStream.event (Msg := Msg) (E := E)).
Notation error := (GrpcStream.error (E := E)).
Notation state := (GrpcStream.state (MD := MD) (Msg := Msg) (E := E)).
Notation outcome := (GrpcStream.outcome (MD := MD) (Msg := Msg) (E := E)).
Notation value := (GrpcStream.value (MD := MD) (Msg := Msg) (E := E)).
Notation call := (GrpcStream.call (MD := MD) (Msg := Msg) (E := E)).
Notation label := (GrpcStream.label (MD := MD) (Msg := Msg) (E := E)).
Notation handler := (GrpcStream.handler (MD := MD) (Msg := Msg) (E := E)).
Notation system := (GrpcStream.system (MD := MD) (Msg := Msg) (E := E)).
Implicit Types (s : state) (S : system) (l : list event).

(** ** What the server's end is known to be *)

Record know := mkKnow { k_srv : bool; k_ctx : bool; k_closed : bool; k_ch : bool; k_hdr : bool; k_puts : list payload }.
Definition known s l : know :=
  mkKnow (srvClosed s) (closeCtx s) (closed (server s)) (chClosed (server s)) (hdrSent s) (puts Server l).

(** What an action makes of it; [None]: the answer is impossible. *)
Definition next (q : know) {R} (a : act R) : R -> option know :=
  let '(mkKnow sv cx cl ch hs ps) := q in
  match a in GrpcStream.act R return R -> option know with
  | IsClosed Server => fun b => if decide (b = cl) then Some q else None
  | PollCancel => fun b => if b then None else Some q
  | SelectSend Server m =>
      fun b => if b : bool then Some (mkKnow sv cx cl ch hs (ps ++ [m])) else if cx then Some q else None
  | IsSrvClosed => fun b => if decide (b = sv) then Some q else None
  | SetSrvClosed => fun _ => Some (mkKnow true cx cl ch hs ps)
  | CancelClose => fun _ => Some (mkKnow sv true cl ch hs ps)
  | SetClosed Server => fun _ => Some (mkKnow sv cx true ch hs ps)
  | CloseChan Server => fun _ => Some (mkKnow sv cx cl true hs ps)
  | HeaderSent => fun b => if decide (b = hs) then Some q else None
  | AddHeader _ => fun e => match e, hs with Some _, true | None, false => Some q | _, _ => None end
  | MarkSent => fun _ => Some (mkKnow sv cx cl ch true ps)
  | _ => fun _ => Some q
  end.

(** Actions of the client leave it alone. *)
Definition of_client {R} (a : act R) : bool :=
  match a with
  | SetClosed Server | CloseChan Server | SelectSend Server _ | SetSrvClosed | CancelClose | CancelCall | MarkSent => false
  | _ => true
  end.
Definition cancels {R} (a : act R) : bool := match a with CancelCall => true | _ => false end.

(** Every run from [q] ends in [Q]. *)
Fixpoint emits {A} (Q : know -> A -> Prop) (q : know) (p : prog A) : Prop :=
  match p with
  | Ret v => Q q v
  | Act a k => cancels a = false /\ forall r q', next q a r = Some q' -> emits Q q' (k r)
  end.
Fixpoint client_only {A} (p : prog A) : Prop :=
  match p with Ret _ => True | Act a k => of_client a = true /\ forall r, client_only (k r) end.

Lemma emits_bind {A B} (Q : know -> B -> Prop) (Q1 : know -> A -> Prop) q (p : prog A) (f : A -> prog B) :
  emits Q1 q p -> (forall q' a, Q1 q' a -> emits Q q' (f a)) -> emits Q q (p ≫= f).
Proof.
  revert q. induction p as [a|R a k IH]; intros q; cbn; [auto|]. intros [Hc Hp] Hf.
  split; [done|]. intros r q' Hq. by apply IH; auto.
Qed.
Lemma client_only_bind {A B} (p : prog A) (f : A -> prog B) :
  client_only p -> (forall a, client_only (f a)) -> client_only (p ≫= f).
Proof.
  induction p as [a|R a k IH]; cbn; [auto|]. intros [Hc Hp] Hf. split; [done|]. intros r. by apply IH.
Qed.

Lemma emits_do {A R} (Q : know -> A -> Prop) q (a : act R) (f : R -> prog A) :
  cancels a = false -> (forall r q', next q a r = Some q' -> emits Q q' (f r)) -> emits Q q (do a ≫= f).
Proof. by split. Qed.

(** Go through a program whose parts are known. *)
Ltac emits :=
  repeat first
    [ done
    | progress cbn [emits client_only next of_client cancels do prog_bind mbind prog_mbind negb]
    | match goal with
      | |- _ /\ _ => split
      | |- forall _, _ => intros ?
      | H : Some _ = Some _ |- _ => injection H as <-
      | H : None = Some _ |- _ => discriminate H
      | H : (if decide ?b then _ else _) = Some _ |- _ => destruct (decide b); [subst|discriminate H]
      | H : next _ _ _ = Some _ |- _ => progress cbn [next] in H
      | H : context [match ?x with _ => _ end] |- _ => is_var x; destruct x
      | |- context [match ?x with _ => _ end] => is_var x; destruct x
      end ].

(** *** The methods of the client *)

Lemma client_code (c : call) :
  match c with CSendMsg _ | CRecvMsg | CCloseSend | CHeader | CTrailer => client_only (code c) | _ => True end.
Proof. destruct c; unfold code, client_SendMsg, client_RecvMsg, CloseSend, Send, Recv, Close, recv_payload; emits. Qed.

(** *** The methods of the server *)

(** While the handler runs. *)
Definition open hs ps : know := mkKnow false false false false hs ps.

Lemma SendHeader_emits md hs ps : emits (fun q _ => q = open true ps) (open hs ps) (SendHeader md).
Proof. unfold SendHeader, header_SetHeader, header_Send, open. emits. Qed.
Lemma Send_emits m hs ps : emits (fun q _ => q = open hs (ps ++ [m])) (open hs ps) (Send Server m).
Proof. unfold Send, open. emits. Qed.
Lemma Close_emits sv cx hs ps :
  emits (fun q _ => q = mkKnow sv cx true true hs ps) (mkKnow sv cx false false hs ps) (Close Server).
Proof. unfold Close. emits. Qed.
Lemma CloseSend_emits q : emits (fun q' _ => q' = q) q CloseSend.
Proof. destruct q. unfold CloseSend, Close. emits. Qed.
Lemma fill_options_emits q opts out : emits (fun q' _ => q' = q) q (fill_options opts out).
Proof. destruct q. revert out. induction opts as [|[] opts IH]; intros out; cbn; emits; apply IH. Qed.

Lemma server_code_emits c hs ps :
  emits (fun q _ => exists hs', q = open hs' (ps ++ (typeData <$> sent_by c))) (open hs ps) (server_code c).
Proof.
  destruct c; cbn [server_code sent_by fmap list_fmap]; rewrite ?app_nil_r.
  - unfold server_SendMsg. eapply emits_bind; [eapply emits_bind; [apply SendHeader_emits|]|]; cbn.
    + intros q _ ->. apply Send_emits.
    + intros q e ->. cbn. eauto.
  - unfold server_RecvMsg, Recv, open. emits; eauto.
  - unfold server_SetHeader, header_SetHeader, open. destruct (md_none md); emits; eauto.
  - eapply emits_bind; [apply SendHeader_emits|]. intros q e ->. cbn. eauto.
  - unfold open. emits; eauto.
Qed.

Definition status (err : option E) : list payload := match err with Some e => [typeErr e] | None => [] end.
Definition over ps : know := mkKnow true true true true true ps.

Lemma WriteStatus_emits err hs ps : emits (fun q _ => q = over (ps ++ status err)) (open hs ps) (WriteStatus err).
Proof.
  unfold WriteStatus. apply emits_do; [done|]. intros c q Hq. unfold open in Hq. cbn [next] in Hq.
  case_decide as Hc; [|done]. injection Hq as <-. subst c. cbv iota. eapply emits_bind; [apply SendHeader_emits|].
  intros q _ ->. eapply (emits_bind _ (fun q _ => q = open true (ps ++ status err))).
  - destruct err as [e|]; cbn [status]; [|by rewrite app_nil_r]. eapply emits_bind; [apply Send_emits|]. by intros ? ? ->.
  - intros q _ ->. apply emits_do; [done|]. intros _ q [= <-]. eapply emits_bind; [apply Close_emits|].
    intros q _ ->. cbn. split; [done|]. by intros _ q [= <-].
Qed.

Definition served (q : know) (v : value) : Prop :=
  exists ms err out, v = VServed ms err out /\ q = over ((typeData <$> ms) ++ status err).
Lemma serve_emits f opts h hs sent : emits served (open hs (typeData <$> sent)) (serve f opts h sent).
Proof.
  revert hs sent. induction h as [err|err|c k IH]; intros hs sent; cbn [serve].
  - eapply emits_bind; [apply WriteStatus_emits|]. intros q _ ->. eapply emits_bind; [apply fill_options_emits|].
    intros q out ->. eapply emits_bind; [apply CloseSend_emits|]. intros q _ ->. cbn. by eexists _, _, _.
  - eapply emits_bind; [apply WriteStatus_emits|]. intros q _ ->. cbn. by eexists _, _, _.
  - eapply emits_bind; [apply server_code_emits|]. intros q v [hs' ->]. rewrite <- fmap_app. apply IH.
Qed.

(** ** Systems in which the client only uses its methods *)

Lemma exec_next i s l {R} (a : act R) s' r ev :
  cancelled s = false -> cancels a = false -> Go s' r ev ∈ exec i s a ->
  next (known s l) a r = Some (known s' (l ++ ev)) /\ cancelled s' = false.
Proof.
  unfold known. rewrite puts_app. destruct s as [[c1 r1 w1 o1 l1 d1] [c2 r2 w2 o2 l2 d2] ca cl sc hs hm tr o]. cbn.
  intros -> Ha. destruct a; try done; try destruct sd; cbn; unfold upd, take; cbn; intros Hg;
   repeat first [apply elem_of_app in Hg as [Hg|Hg] | case_match]; try by apply not_elem_of_nil in Hg.
  all: apply list_elem_of_singleton in Hg; simplify_eq/=; rewrite ?app_nil_r, ?decide_True by done; done.
Qed.
Lemma client_next q {R} (a : act R) r q' : of_client a = true -> next q a r = Some q' -> q' = q.
Proof. destruct q. destruct a; try destruct sd; cbn; intros Ha Hq; by repeat case_match; simplify_eq/=. Qed.
Lemma client_cancels {R} (a : act R) : of_client a = true -> cancels a = false.
Proof. by destruct a. Qed.

Definition by_client (c : call) : bool :=
  match c with CSendMsg _ | CRecvMsg | CCloseSend | CHeader | CTrailer => true | _ => false end.
Definition served_step (S S' : system) : Prop :=
  exists lb, do_step S lb = Some S' /\ match lb with Call c => by_client c = true | Run _ _ => True end.

(** The stream of [NewStream], with the goroutine of its handler. *)
Definition NewStream (f : E -> E) (opts : list call_option) (h : handler) : option system :=
  do_step start (Call (SServe f opts h)).
Definition serving (f : E -> E) opts (h : handler) (S : system) : Prop :=
  exists S0, NewStream f opts h = Some S0 /\ rtc served_step S0 S.

Record serving_inv S : Prop := {
  si_live : cancelled (st S) = false;
  si_server p : threads S !! 0 = Some p -> emits served (known (st S) (log S)) p;
  si_client i p : threads S !! i = Some p -> i <> 0 -> client_only p;
  si_some : threads S <> []
}.
Lemma served_step_inv S S' : serving_inv S -> served_step S S' -> serving_inv S'.
Proof.
  intros [Hl Hs Hc Hn] (lb & Hstep & Hlb).
  apply do_step_inv in Hstep as [(c & -> & ->)|(i & n & R & a & k & s & r & ev & -> & Hi & Hg & ->)].
  - split; cbn; [done| | |by destruct (threads S)].
    + intros p. destruct (threads S) as [|p0 ts]; [done|]. apply Hs.
    + intros i p [Hp|[Hi Hp]]%lookup_app_Some Hne; [by eapply Hc|]. apply list_lookup_singleton_Some in Hp as [_ <-].
      pose proof (client_code c). by destruct c.
  - assert (cancels a = false) as Ha.
    { destruct (decide (i = 0)) as [Hz|Hne]; [subst i; by apply (Hs (Act a k)) in Hi as [? _]|]. by apply Hc in Hi as [?%client_cancels _]. }
    destruct (exec_next i (st S) (log S) a s r ev Hl Ha Hg) as [Hq Hl']. split; cbn; [done| | |].
    + intros p [(Hz & <- & _)|[Hne Hp]]%list_lookup_insert_Some; [subst i; apply (Hs (Act a k)) in Hi as [_ Hk]; by apply Hk|].
      apply Hc in Hi as [Hcl _]; [|done]. apply client_next in Hq as ->; [|done]. by apply Hs.
    + intros j p [(<- & <- & _)|[Hne Hp]]%list_lookup_insert_Some Hj; [by apply Hc in Hi as [_ Hk]; [apply Hk|]|by eapply Hc].
    + intros He. apply (f_equal length) in He. rewrite length_insert in He. by destruct (threads S).
Qed.
Lemma serving_reachable f opts h S : serving f opts h S -> reachable S /\ serving_inv S.
Proof.
  intros (S0 & [= <-] & Hr). split.
  - eapply rtc_l; [by exists (Call (SServe f opts h))|]. apply (rtc_subrel served_step); [|done]. intros S1 S2 (lb & ? & _). by exists lb.
  - refine (rtc_invariant _ serving_inv _ _ _ S Hr); [|apply served_step_inv]. split; cbn; [done| |by intros [|[]]|done].
    intros p [= <-]. apply (serve_emits f opts h false []).
Qed.

(** ** Reading *)

(** A program that runs while nobody else does anything and that has no choice. *)
Fixpoint alone {A} (i : nat) s (p : prog A) : option (state * A) :=
  match p with
  | Ret a => Some (s, a)
  | Act a k => match exec i s a with [Go s' r _] => alone i s' (k r) | _ => None end
  end.
(** [n] calls of [RecvMsg], one after the other. *)
Fixpoint reads (n i : nat) s : option (list (error + Msg)) :=
  match n with
  | 0 => Some []
  | S n => '(s', r) ← alone i s client_RecvMsg; rs ← reads n i s'; Some (r :: rs)
  end.

(** What [RecvMsg] makes of what comes out of the channel. *)
Definition answer (p : payload) : error + Msg :=
  match p with typeData d => inr d | typeErr e => inl (ErrStatus e) | typeEOF => inl EOF end.
Lemma recv_next i s p rest : cancelled s = false -> sendCh (server s) = p :: rest ->
  alone i s client_RecvMsg = Some (set_half s Server (set_chan (server s) rest), answer p).
Proof.
  destruct s as [c1 [c2 r2 w2 o2 l2 d2] ca cl sc hs hm tr o]. cbn. unfold take. cbn. intros -> ->. by destruct p.
Qed.
Lemma recv_end i s : cancelled s = false -> sendCh (server s) = [] -> chClosed (server s) = true ->
  alone i s client_RecvMsg = Some (s, inl EOF).
Proof. destruct s as [c1 [c2 r2 w2 o2 l2 d2] ca cl sc hs hm tr o]. cbn. unfold take. cbn. by intros -> -> ->. Qed.

Lemma reads_all n i s c : cancelled s = false -> chClosed (server s) = true -> sendCh (server s) = c ->
  reads n i s = Some ((fun k => nth k (answer <$> c) (inl EOF)) <$> seq 0 n).
Proof.
  intros Hl Hcl. revert s c Hl Hcl. induction n as [|n IH]; intros s c Hl Hcl Hc; [done|]. cbn [reads seq].
  rewrite <- seq_shift. destruct c as [|p c].
  - rewrite recv_end by done. cbn. rewrite (IH s []) by done. cbn. f_equal. f_equal.
    rewrite <- list_fmap_compose. apply list_fmap_ext. intros j x _. by destruct x.
  - rewrite (recv_next i s p c) by done. cbn. rewrite (IH _ c); [|by destruct s..]. cbn. f_equal. f_equal.
    by rewrite <- list_fmap_compose.
Qed.

(** A client reads the whole stream of a handler.  When the goroutine of the handler is
    over and the call was not cancelled, whatever the client did meanwhile with its own
    methods, the header was sent, and [n] further calls of [RecvMsg] return at once, with what
    is left of the messages of the handler, in order, then the error of its status, if it has
    one, then the end of the stream for ever. *)
Theorem served_stream_read f opts h S ms err out : serving f opts h S ->
  threads S !! 0 = Some (Ret (VServed ms err out)) ->
  let all := (inr <$> ms) ++ match err with Some e => [inl (ErrStatus e)] | None => [] end in
  hdrSent (st S) = true /\
  forall n i, reads n i (st S) = Some ((fun k => nth k all (inl EOF)) <$> seq (length (tooks Client (log S))) n).
Proof.
  intros [Hr Hinv]%serving_reachable Hth all. pose proof (si_server _ Hinv _ Hth) as (ms' & err' & out' & Hv & Hq).
  cbn in Hv. injection Hv as <- <- <-. unfold known, over in Hq. injection Hq as _ _ _ Hcl Hh Hp. split; [done|].
  apply stream_invariant in Hr as [m Hok%inv_ok]. pose proof (ok_flow _ _ _ Hok Server) as Hf. rewrite Hp in Hf.
  assert (answer <$> (typeData <$> ms) ++ status err = all) as Ha.
  { rewrite fmap_app, <- list_fmap_compose. unfold all. by destruct err. }
  intros n i. rewrite (reads_all n i (st S) (sendCh (server (st S)))); [|apply Hinv|done..]. f_equal.
  rewrite <- Ha, Hf, fmap_app. cbn [other half]. clear Ha Hf Hp. set (d := length _).
  rewrite <- (Nat.add_0_r d), <- fmap_add_seq, <- list_fmap_compose. apply list_fmap_ext. intros _ k _. cbn.
  rewrite app_nth2; rewrite length_fmap; [f_equal|]; unfold d; lia.
Qed.

End status.

(** A handler that sends two messages and fails. *)
Definition example_handler : GrpcStream.handler (MD := gmap string (list string)) (Msg := nat) (E := string) :=
  HCall (SSendMsg 1) (fun _ => HCall (SSendMsg 2) (fun _ => HReturn (Some "no"))).
Definition example_serving :=
  S0 ← NewStream (fun e => "rpc: " ++ e)%string [HeaderCallOption] example_handler; run_all (replicate 47 (Run 0 0)) S0.

Lemma run_all_serving {MD Msg E} `{MetadataJoin MD} n (S S' : GrpcStream.system (MD := MD) (Msg := Msg) (E := E)) :
  rtc served_step S S' -> forall S'', run_all (replicate n (Run 0 0)) S' = Some S'' -> rtc served_step S S''.
Proof.
  revert S'. induction n as [|n IH]; intros S' Hr S''; [by intros [= <-]|]. cbn [replicate run_all].
  destruct (do_step S' (Run 0 0)) as [S1|] eqn:Hs; [|done]. cbn. apply IH. eapply rtc_r; [done|]. by exists (Run 0 0).
Qed.

Definition result_of (S : GrpcStream.system (MD := gmap string (list string)) (Msg := nat) (E := string)) :=
  match threads S !! 0 with Some (Ret v) => Some (v, tooks Client (log S)) | _ => None end.
Lemma served_stream_read_witness : exists S, example_serving = Some S /\
  reads 4 7 (st S) = Some [inr 1; inr 2; inl (ErrStatus "rpc: no"); inl EOF].
Proof.
  assert (example_serving ≫= result_of = Some (VServed [1; 2] (Some "rpc: no") [∅], [])) as Hv by (vm_compute; reflexivity).
  destruct example_serving as [S|] eqn:Hs; [|done]. cbn [mbind option_bind] in Hv. unfold result_of in Hv.
  destruct (threads S !! 0) as [[v|]|] eqn:Ht; [|done..]. injection Hv as -> Hl.
  assert (serving (fun e => "rpc: " ++ e)%string [HeaderCallOption] example_handler S) as Hr.
  { eexists. split; [reflexivity|]. eapply run_all_serving; [apply rtc_refl|exact Hs]. }
  exists S. split; [done|]. destruct (served_stream_read _ _ _ S _ _ _ Hr Ht) as [_ Hreads]. by rewrite Hreads, Hl.
Defined.

End StreamStatus.
