(* ===== verification/ServiceRegistry.v ===== *)
(** * The memory registry of services ([memory_registry/registry.go],
    [memory_registry/option.go], and the constructors of
    [memory_registry/internal/unary_wrapper.go] and [streaming_wrapper.go]).

    A service of the own process is registered under its name and aliases, all of which point
    to one wrapper; the wrapper maps full method names to the methods.  Registration looks at
    the handler by reflection; what [reflect] shows of a type is a [gotype]. *)

From S2P Require Import Prelude GoStrings.

Open Scope string_scope.
Open Scope list_scope.

Module ServiceRegistry.

(** ** Types, as [reflect] shows them *)

(** Is it a pointer, does it implement [grpc.ServerStream], and its methods with inputs
    (for a concrete type the receiver first) and outputs. *)
Inductive gotype := GoType (is_ptr is_stream : bool) (methods : list (string * (list gotype * list gotype))).
Definition is_ptr (t : gotype) : bool := let '(GoType p _ _) := t in p.
Definition is_stream (t : gotype) : bool := let '(GoType _ s _) := t in s.
Definition functype : Type := list gotype * list gotype.
Definition MethodByName (t : gotype) (name : string) : option functype :=
  let '(GoType _ _ ms) := t in match list_find (fun m => m.1 = name) ms with Some (_, m) => Some m.2 | None => None end.

(** ** Results *)

Inductive error :=
| HandlerNotFound                        (* codes.NotFound, from the constructors *)
| ServiceNotFound (service : string)     (* codes.NotFound, from the queries *)
| MethodNotFound (method service : string)
| Duplicate (service : string)
| OptionFailed (msg : string).
Inductive result (A : Type) := Ok (a : A) | Err (e : error) | Panic.
Arguments Ok {_}. Arguments Err {_}. Arguments Panic {_}.
#[export] Instance result_ret : MRet result := fun _ a => Ok a.
#[export] Instance result_bind : MBind result := fun _ _ f r => match r with Ok a => f a | Err e => Err e | Panic => Panic end.

Definition ensure (b : bool) : result unit := if b then Ok tt else Err HandlerNotFound.
Definition method_of (t : gotype) (name : string) : result functype :=
  match MethodByName t name with Some f => Ok f | None => Err HandlerNotFound end.
(** [Type.In], [Type.Out]: out of range they panic. *)
Definition at_index (l : list gotype) (i : nat) : result gotype := match l !! i with Some t => Ok t | None => Panic end.

Section registry.
(** Service implementations, the generated handlers, and interceptors. *)
Context {Srv UHandler SHandler UInt SInt : Type} (TypeOf : Srv -> gotype).

(** [grpc.MethodDesc], [grpc.StreamDesc] *)
Record MethodDesc := mkMethodDesc { MethodName : string; md_Handler : UHandler }.
Record StreamDesc := mkStreamDesc { StreamName : string; sd_Handler : SHandler; ServerStreams : bool; ClientStreams : bool }.

Record UnaryWrapper := mkUnaryWrapper {
  u_method : string; u_srv : Srv; u_md : MethodDesc; u_reqType : gotype; u_respType : gotype;
  u_int : option UInt; u_recovery : bool
}.
Record StreamingWrapper := mkStreamingWrapper {
  s_method : string; s_srv : Srv; s_sd : StreamDesc; s_reqType : option gotype; s_respType : option gotype;
  s_int : option SInt; s_recovery : bool
}.

Definition CreateUnaryWrapper (recovery : bool) (method : string) (srv : Srv) (md : MethodDesc) (int : option UInt) : result UnaryWrapper :=
  '(ins, outs) ← method_of (TypeOf srv) (MethodName md);
  _ ← ensure ((length ins =? 3)%nat && (length outs =? 2)%nat);
  reqType ← at_index ins 2;
  _ ← ensure (is_ptr reqType);
  respType ← at_index outs 0;
  _ ← ensure (is_ptr respType);
  Ok (mkUnaryWrapper method srv md reqType respType int recovery).

(** The message types of the three kinds of streams; the type of the request is checked twice,
    that of the response never. *)
Definition stream_types (srv : Srv) (sd : StreamDesc) : result (option gotype * option gotype) :=
  '(ins, outs) ← method_of (TypeOf srv) (StreamName sd);
  match ServerStreams sd, ClientStreams sd with
  | true, false =>
      _ ← ensure ((length ins =? 3)%nat && (length outs =? 1)%nat);
      reqType ← at_index ins 1;
      _ ← ensure (is_ptr reqType);
      streamerType ← at_index ins 2;
      _ ← ensure (is_stream streamerType);
      sendMethodT ← method_of streamerType "Send";
      respType ← at_index sendMethodT.1 0;
      _ ← ensure (is_ptr reqType);
      Ok (Some reqType, Some respType)
  | false, false => Ok (None, None)
  | server, true =>
      _ ← ensure ((length ins =? 2)%nat && (length outs =? 1)%nat);
      streamerType ← at_index ins 1;
      _ ← ensure (is_stream streamerType);
      recvMethodT ← method_of streamerType "Recv";
      reqType ← at_index recvMethodT.2 0;
      _ ← ensure (is_ptr reqType);
      sendMethodT ← method_of streamerType (if server then "Send" else "SendAndClose");
      respType ← at_index sendMethodT.1 0;
      _ ← ensure (is_ptr reqType);
      Ok (Some reqType, Some respType)
  end.
Definition CreateStreamingWrapper (recovery : bool) (method : string) (srv : Srv) (sd : StreamDesc) (int : option SInt) : result StreamingWrapper :=
  '(reqType, respType) ← stream_types srv sd;
  Ok (mkStreamingWrapper method srv sd reqType respType int recovery).

(** ** Options *)

Record Options := mkOptions { aliasNames : list string; unaryInt : option UInt; streamInt : option SInt; aliasOnly : bool }.
Definition option_func : Type := Options -> Options + string.
Definition WithAliasNames (names : list string) : option_func :=
  fun o => inl (mkOptions names (unaryInt o) (streamInt o) (aliasOnly o)).
Definition WithUnaryInterceptor (i : UInt) : option_func :=
  fun o => inl (mkOptions (aliasNames o) (Some i) (streamInt o) (aliasOnly o)).
Definition WithStreamInterceptor (i : SInt) : option_func :=
  fun o => inl (mkOptions (aliasNames o) (unaryInt o) (Some i) (aliasOnly o)).
Definition WithAliasOnly (b : bool) : option_func :=
  fun o => inl (mkOptions (aliasNames o) (unaryInt o) (streamInt o) b).
Fixpoint apply_options (opt : list option_func) (o : Options) : result Options :=
  match opt with
  | [] => Ok o
  | f :: opt => match f o with inl o => apply_options opt o | inr msg => Err (OptionFailed msg) end
  end.

(** ** The registry *)

(** [ServiceInfo]; the order of the lists is that of the iteration over the maps. *)
Record ServiceInfo := mkServiceInfo {
  ServiceName : string; HandlerType : Srv;
  Methods : list (string * MethodDesc); Streams : list (string * StreamDesc)
}.
Record ServiceWrapper := mkServiceWrapper {
  serviceName : string; unary : gmap string UnaryWrapper; streaming : gmap string StreamingWrapper
}.
(** Names point to wrappers; a wrapper stays where it was made. *)
Record MemoryRegistry := mkMemoryRegistry { srvRegistryInfo : gmap string nat; wrappers : list ServiceWrapper }.
Definition NewMemoryRegistry : MemoryRegistry := mkMemoryRegistry ∅ [].

Definition register_name (p : nat) (name : string) (m : gmap string nat) : gmap string nat * result unit :=
  match m !! name with Some _ => (m, Err (Duplicate name)) | None => (<[name := p]> m, Ok tt) end.
Fixpoint register_aliases (p : nat) (name : string) (aliases : list string) (m : gmap string nat) : gmap string nat * result unit :=
  match aliases with
  | [] => (m, Ok tt)
  | alias :: aliases =>
      if bool_decide (TrimSpace alias = name) then register_aliases p name aliases m
      else
        match register_name p alias m with
        | (m, Ok _) => register_aliases p name aliases m
        | (m, e) => (m, e)
        end
  end.
Definition register_names (p : nat) (name : string) (o : Options) (m : gmap string nat) : gmap string nat * result unit :=
  match (if aliasOnly o then (m, Ok tt) else register_name p name m) with
  | (m, Ok _) => register_aliases p name (aliasNames o) m
  | (m, e) => (m, e)
  end.

Definition full_method (service name : string) : string := "/" +:+ service +:+ "/" +:+ name.
(** The loops over the methods: the ones made before an error stay in the wrapper. *)
Fixpoint create_all {D W} (create : string -> D -> result W) (service : string) (ds : list (string * D)) (m : gmap string W)
  : gmap string W * result unit :=
  match ds with
  | [] => (m, Ok tt)
  | (name, d) :: ds =>
      match create (full_method service name) d with
      | Ok w => create_all create service ds (<[full_method service name := w]> m)
      | Err e => (m, Err e)
      | Panic => (m, Panic)
      end
  end.

Definition make_wrapper (recovery : bool) (info : ServiceInfo) (o : Options) : ServiceWrapper * result unit :=
  let create_unary method md := CreateUnaryWrapper recovery method (HandlerType info) md (unaryInt o) in
  let create_streaming method sd := CreateStreamingWrapper recovery method (HandlerType info) sd (streamInt o) in
  match create_all create_unary (ServiceName info) (Methods info) ∅ with
  | (us, Ok _) =>
      let '(ss, res) := create_all create_streaming (ServiceName info) (Streams info) ∅ in
      (mkServiceWrapper (ServiceName info) us ss, res)
  | (us, e) => (mkServiceWrapper (ServiceName info) us ∅, e)
  end.

Definition RegisterWithServiceInfo (recovery : bool) (r : MemoryRegistry) (info : ServiceInfo) (opt : list option_func)
  : MemoryRegistry * result unit :=
  match apply_options opt (mkOptions [] None None false) with
  | Ok o =>
      match register_names (length (wrappers r)) (ServiceName info) o (srvRegistryInfo r) with
      | (names, Ok _) => let '(w, res) := make_wrapper recovery info o in (mkMemoryRegistry names (wrappers r ++ [w]), res)
      | (names, e) => (mkMemoryRegistry names (wrappers r ++ [mkServiceWrapper (ServiceName info) ∅ ∅]), e)
      end
  | Err e => (r, Err e)
  | Panic => (r, Panic)
  end.

Definition UnregisterWithServiceInfo (r : MemoryRegistry) (info : ServiceInfo) (alias : list string) : MemoryRegistry :=
  mkMemoryRegistry (foldl (fun m name => delete name m) (delete (ServiceName info) (srvRegistryInfo r)) alias) (wrappers r).

Definition QueryServiceInfo (r : MemoryRegistry) (name : string) : option ServiceWrapper :=
  p ← srvRegistryInfo r !! name; wrappers r !! p.
Definition query {W} (methods : ServiceWrapper -> gmap string W) (r : MemoryRegistry) (name method : string) : result W :=
  match QueryServiceInfo r name with
  | None => Err (ServiceNotFound name)
  | Some srv => match methods srv !! method with None => Err (MethodNotFound method name) | Some w => Ok w end
  end.
Definition QueryUnary : MemoryRegistry -> string -> string -> result UnaryWrapper := query unary.
Definition QueryStreaming : MemoryRegistry -> string -> string -> result StreamingWrapper := query streaming.

(** ** Facts *)

Definition wf (r : MemoryRegistry) : Prop := forall n p, srvRegistryInfo r !! n = Some p -> p < length (wrappers r).

(** The names that a registration asks for. *)
Definition names (info : ServiceInfo) (o : Options) : list string :=
  (if aliasOnly o then [] else [ServiceName info]) ++ filter (fun a => TrimSpace a <> ServiceName info) (aliasNames o).

Lemma register_name_spec p name m m' res : register_name p name m = (m', res) ->
  match res with
  | Ok _ => m !! name = None /\ m' = <[name := p]> m
  | Err e => is_Some (m !! name) /\ e = Duplicate name /\ m' = m
  | Panic => False
  end.
Proof. unfold register_name. destruct (m !! name) eqn:Hm; intros [= <- <-]; eauto. Qed.

(** What a pass over names did to the map: the names it took point to [p], the others are as
    before. *)
Definition took (p : nat) (ns : list string) (m m' : gmap string nat) : Prop :=
  forall n, (n ∈ ns -> m !! n = None) /\ m' !! n = if decide (n ∈ ns) then Some p else m !! n.
Lemma took_nil p m : took p [] m m.
Proof. intros n. split; [set_solver|done]. Qed.
Lemma took_cons p name ns m m' : m !! name = None -> took p ns (<[name := p]> m) m' -> name ∉ ns /\ took p (name :: ns) m m'.
Proof.
  intros Hm Ht. assert (name ∉ ns) as Hn.
  { intros Hin. destruct (Ht name) as [Hf _]. specialize (Hf Hin). by rewrite lookup_insert_eq in Hf. }
  split; [done|]. intros n. destruct (Ht n) as [Hf He]. rewrite lookup_insert_case in Hf, He. destruct (decide (name = n)) as [<-|Hne].
  - split; [done|]. by rewrite He, decide_False, decide_True by (try left; done).
  - split; [by intros [->|?]%elem_of_cons; [|auto]|]. rewrite He.
    destruct (decide (n ∈ ns)); [by rewrite decide_True by by right|]. rewrite decide_False; [done|]. by intros [->|?]%elem_of_cons.
Qed.

(** How a pass ends: with all names, or at the first one that is taken. *)
Definition pass (p : nat) (ns : list string) (m m' : gmap string nat) (res : result unit) : Prop :=
  match res with
  | Ok _ => NoDup ns /\ took p ns m m'
  | Err e => exists ns1 n ns2, ns = ns1 ++ n :: ns2 /\ NoDup ns1 /\ took p ns1 m m' /\ is_Some (m' !! n) /\ e = Duplicate n
  | Panic => False
  end.
Lemma pass_cons p name ns m m' res : m !! name = None -> pass p ns (<[name := p]> m) m' res -> pass p (name :: ns) m m' res.
Proof.
  intros Hm. destruct res as [[]|e|]; cbn; [| |done].
  - intros [Hnd [Hn Ht]%took_cons]; [|done]. split; [by constructor|done].
  - intros (ns1 & n & ns2 & -> & Hnd & [Hn Ht]%took_cons & Hs & ->); [|done].
    exists (name :: ns1), n, ns2. split_and!; [done|by constructor|done..].
Qed.
Lemma pass_taken p name ns m : is_Some (m !! name) -> pass p (name :: ns) m m (Err (Duplicate name)).
Proof. intros Hs. exists [], name, ns. split_and!; [done|constructor|apply took_nil|done..]. Qed.

Lemma register_aliases_spec p name aliases m m' res : register_aliases p name aliases m = (m', res) ->
  pass p (filter (fun a => TrimSpace a <> name) aliases) m m' res.
Proof.
  revert m. induction aliases as [|a aliases IH]; intros m; cbn [register_aliases].
  - intros [= <- <-]. split; [constructor|apply took_nil].
  - case_bd (TrimSpace a = name) as Ha; [rewrite filter_cons_False by tauto; apply IH|].
    rewrite filter_cons_True by done. destruct (register_name p a m) as [m1 [[]|e|]] eqn:Hr; apply register_name_spec in Hr; [| |done].
    + destruct Hr as [Hm ->]. intros Hrest. apply pass_cons; [done|]. by apply IH.
    + destruct Hr as (Hs & -> & ->). intros [= <- <-]. by apply pass_taken.
Qed.
Lemma register_names_spec p info o m m' res : register_names p (ServiceName info) o m = (m', res) -> pass p (names info o) m m' res.
Proof.
  unfold register_names, names. destruct (aliasOnly o); [apply register_aliases_spec|]. cbn [app].
  destruct (register_name p (ServiceName info) m) as [m1 [[]|e|]] eqn:Hr; apply register_name_spec in Hr; [| |done].
  - destruct Hr as [Hm ->]. intros Ha%register_aliases_spec. by apply pass_cons.
  - destruct Hr as (Hs & -> & ->). intros [= <- <-]. by apply pass_taken.
Qed.

#[export] Instance full_method_inj service : Inj (=) (=) (full_method service).
Proof. intros n1 n2. unfold full_method. by intros H%string_app_inj_l%string_app_inj_l%string_app_inj_l. Qed.

Section create.
Context {D W : Type} (create : string -> D -> result W) (service : string).
Lemma create_all_only ds m m' res k w : create_all create service ds m = (m', res) -> m' !! k = Some w ->
  m !! k = Some w \/ exists name d, (name, d) ∈ ds /\ k = full_method service name /\ create k d = Ok w.
Proof.
  revert m. induction ds as [|[name d] ds IH]; intros m; cbn; [intros [= <- <-]; by left|].
  destruct (create (full_method service name) d) as [w'|e|] eqn:Hc; [|intros [= <- <-]; by left..].
  intros Hr Hk. destruct (IH _ Hr Hk) as [Hm|(n & d' & Hin & ? & ?)]; [|right; set_solver].
  rewrite lookup_insert_case in Hm. case_decide as He; [|by left]. right. simplify_eq. exists name, d. set_solver.
Qed.
Lemma create_all_other ds m m' res k : create_all create service ds m = (m', res) ->
  k ∉ full_method service <$> ds.*1 -> m' !! k = m !! k.
Proof.
  revert m. induction ds as [|[name d] ds IH]; intros m; cbn; [by intros [= <- <-]|].
  destruct (create (full_method service name) d) as [w'|e|]; [|by intros [= <- <-]..].
  intros Hr Hk. rewrite (IH _ Hr), lookup_insert_ne by set_solver. done.
Qed.
Lemma create_all_ok ds m m' : create_all create service ds m = (m', Ok tt) -> NoDup ds.*1 ->
  forall name d, (name, d) ∈ ds -> exists w, create (full_method service name) d = Ok w /\ m' !! full_method service name = Some w.
Proof.
  revert m. induction ds as [|[n0 d0] ds IH]; intros m; cbn; [intros _ _ ? ? []%not_elem_of_nil|].
  destruct (create (full_method service n0) d0) as [w0|e|] eqn:Hc; [|by intros [=]..].
  intros Hr [Hn Hnd]%NoDup_cons name d [[= -> ->]|Hin]%elem_of_cons; [|by eapply IH].
  exists w0. split; [done|]. erewrite create_all_other; [by apply lookup_insert_eq|done|].
  intros (n & He%(inj (full_method service)) & Hn')%list_elem_of_fmap. by subst.
Qed.
End create.

(** The constructors never complain about a name. *)
Lemma create_unary_dup recovery method srv md int a : CreateUnaryWrapper recovery method srv md int <> Err (Duplicate a).
Proof. unfold CreateUnaryWrapper, method_of, at_index, ensure. cbn. repeat (case_match; simplify_eq/=); done. Qed.
Lemma create_streaming_dup recovery method srv sd int a : CreateStreamingWrapper recovery method srv sd int <> Err (Duplicate a).
Proof. unfold CreateStreamingWrapper, stream_types, method_of, at_index, ensure. cbn. repeat (case_match; simplify_eq/=); done. Qed.
Lemma create_all_dup {D W} (create : string -> D -> result W) service ds m m' a :
  (forall k d, create k d <> Err (Duplicate a)) -> create_all create service ds m <> (m', Err (Duplicate a)).
Proof.
  intros Hc. revert m. induction ds as [|[name d] ds IH]; intros m; cbn; [done|].
  destruct (create _ d) eqn:He; [apply IH|intros [= _ ->]; by apply Hc in He|done].
Qed.

(** ** Registration *)

Lemma query_took p ns w r m' n : wf r -> p = length (wrappers r) -> took p ns (srvRegistryInfo r) m' ->
  QueryServiceInfo (mkMemoryRegistry m' (wrappers r ++ [w])) n = if decide (n ∈ ns) then Some w else QueryServiceInfo r n.
Proof.
  intros Hwf -> Ht. unfold QueryServiceInfo. cbn. destruct (Ht n) as [_ ->]. case_decide; cbn; [by rewrite list_lookup_middle|].
  destruct (srvRegistryInfo r !! n) as [p|] eqn:Hp; [|done]. cbn. rewrite lookup_app_l; [done|]. by apply Hwf in Hp.
Qed.
Lemma wf_took p ns w r m' : wf r -> p = length (wrappers r) -> took p ns (srvRegistryInfo r) m' -> wf (mkMemoryRegistry m' (wrappers r ++ [w])).
Proof.
  intros Hwf -> Ht n q. cbn. destruct (Ht n) as [_ ->]. rewrite length_app. cbn. case_decide; [intros [= <-]; lia|].
  intros Hq%Hwf. lia.
Qed.

(** Registering keeps the pointers of the registry valid, whatever comes of it. *)
Lemma register_wf recovery r info opt : wf r -> wf (RegisterWithServiceInfo recovery r info opt).1.
Proof.
  intros Hwf. unfold RegisterWithServiceInfo. destruct (apply_options _ _) as [o|e|]; [|done..].
  destruct (register_names _ _ _ _) as [m' [[]|e|]] eqn:Hn; apply register_names_spec in Hn; [| |done].
  - destruct Hn as [_ Ht]. destruct (make_wrapper _ _ _). by eapply wf_took.
  - destruct Hn as (ns1 & n & ns2 & _ & _ & Ht & _ & _). by eapply wf_took.
Qed.
Lemma unregister_query r info alias n :
  QueryServiceInfo (UnregisterWithServiceInfo r info alias) n =
    if decide (n = ServiceName info \/ n ∈ alias) then None else QueryServiceInfo r n.
Proof.
  unfold QueryServiceInfo, UnregisterWithServiceInfo. cbn.
  assert (forall m, foldl (fun m name => delete name m) m alias !! n = if decide (n ∈ alias) then None else (m : gmap string nat) !! n) as H.
  { induction alias as [|a alias IH]; intros m; cbn; [done|]. rewrite IH, lookup_delete_case.
    repeat case_decide; try done; set_solver. }
  rewrite H, lookup_delete_case. repeat case_decide; naive_solver.
Qed.

(** ** Types of the wrappers *)

Definition unary_typed (w : UnaryWrapper) : Prop := is_ptr (u_reqType w) = true /\ is_ptr (u_respType w) = true.
(** A method that streams in some direction. *)
Definition streams (sd : StreamDesc) : bool := ServerStreams sd || ClientStreams sd.
Definition streaming_typed (w : StreamingWrapper) : Prop :=
  if streams (s_sd w) then (exists t, s_reqType w = Some t /\ is_ptr t = true) /\ is_Some (s_respType w)
  else s_reqType w = None /\ s_respType w = None.
Definition wrapper_typed (w : ServiceWrapper) : Prop :=
  (forall m u, unary w !! m = Some u -> unary_typed u /\ u_method u = m) /\
  (forall m s, streaming w !! m = Some s -> streaming_typed s /\ s_method s = m).

Lemma create_unary_typed recovery method srv md int w :
  CreateUnaryWrapper recovery method srv md int = Ok w -> unary_typed w /\ u_method w = method.
Proof. unfold CreateUnaryWrapper, method_of, at_index, ensure. cbn. intros Hw. by repeat (case_match; simplify_eq/=). Qed.
Lemma create_streaming_typed recovery method srv sd int w :
  CreateStreamingWrapper recovery method srv sd int = Ok w -> streaming_typed w /\ s_method w = method.
Proof.
  unfold CreateStreamingWrapper, stream_types, method_of, at_index, ensure, streaming_typed, streams.
  destruct sd as [n h [] []]; cbn; intros Hw; repeat (case_match; simplify_eq/=); eauto 6.
Qed.

Lemma make_wrapper_typed recovery info o : wrapper_typed (make_wrapper recovery info o).1.
Proof.
  unfold make_wrapper. destruct (create_all _ _ (Methods info) _) as [us res] eqn:Hu.
  assert (forall m u, us !! m = Some u -> unary_typed u /\ u_method u = m) as Hus.
  { intros m u Hm. destruct (create_all_only _ _ _ _ _ _ _ _ Hu Hm) as [?|(name & md & _ & -> & Hc)]; [done|]. by eapply create_unary_typed. }
  destruct res as [[]|e|]; [|by split..]. destruct (create_all _ _ (Streams info) _) as [ss res] eqn:Hs. split; [done|].
  intros m s Hm. destruct (create_all_only _ _ _ _ _ _ _ _ Hs Hm) as [?|(name & sd & _ & -> & Hc)]; [done|]. by eapply create_streaming_typed.
Qed.

(** What becomes of a registry. *)
Inductive registry_op := OpRegister (recovery : bool) (info : ServiceInfo) (opt : list option_func) | OpUnregister (info : ServiceInfo) (alias : list string).
Definition registry_do (r : MemoryRegistry) (o : registry_op) : MemoryRegistry :=
  match o with
  | OpRegister recovery info opt => (RegisterWithServiceInfo recovery r info opt).1
  | OpUnregister info alias => UnregisterWithServiceInfo r info alias
  end.
Definition typed (r : MemoryRegistry) : Prop := forall w, w ∈ wrappers r -> wrapper_typed w.
Lemma registry_do_typed r o : typed r -> typed (registry_do r o).
Proof.
  intros Ht. destruct o as [recovery info opt|info alias]; cbn; [|done]. unfold RegisterWithServiceInfo.
  destruct (apply_options _ _) as [o|e|]; [|done..]. destruct (register_names _ _ _ _) as [m' [[]|e|]]; cbn.
  - pose proof (make_wrapper_typed recovery info o) as Hw. destruct (make_wrapper _ _ _) as [w res]. cbn in *.
    intros w' [Hin| ->%list_elem_of_singleton]%elem_of_app; [by apply Ht|done].
  - intros w' [Hin| ->%list_elem_of_singleton]%elem_of_app; [by apply Ht|by split].
  - intros w' [Hin| ->%list_elem_of_singleton]%elem_of_app; [by apply Ht|by split].
Qed.

(** C30: The types of the methods.  Whatever was registered and unregistered, successfully or
    not: a unary method that is found has pointers as request and response types, a method
    that streams has a pointer as request type and some response type, which is not looked
    at, and a method is found under its own full name only. *)
Theorem registry_types ops n method : let r := foldl registry_do NewMemoryRegistry ops in
  (forall w, QueryUnary r n method = Ok w -> unary_typed w /\ u_method w = method) /\
  (forall w, QueryStreaming r n method = Ok w -> streaming_typed w /\ s_method w = method).
Proof.
  intros r. assert (typed r) as Ht by (apply foldl_ind; [by intros w []%not_elem_of_nil|intros; by apply registry_do_typed]).
  unfold QueryUnary, QueryStreaming, query, QueryServiceInfo.
  destruct (srvRegistryInfo r !! n) as [p|]; [|done]. cbn. destruct (wrappers r !! p) as [w|] eqn:Hw; [|done].
  apply list_elem_of_lookup_2, Ht in Hw as [Hu Hs].
  split; intros w'; case_match; try done; intros [= <-]; auto.
Qed.

(** ** What is found *)

Context (recovery : bool).
Notation unary_of info o := (fun method md => CreateUnaryWrapper recovery method (HandlerType info) md (unaryInt o)).
Notation stream_of info o := (fun method sd => CreateStreamingWrapper recovery method (HandlerType info) sd (streamInt o)).

(** What a successful registration left. *)
Lemma register_ok r r' info opt o : wf r -> apply_options opt (mkOptions [] None None false) = Ok o ->
  RegisterWithServiceInfo recovery r info opt = (r', Ok tt) ->
  exists us ss, NoDup (names info o) /\
    create_all (unary_of info o) (ServiceName info) (Methods info) ∅ = (us, Ok tt) /\
    create_all (stream_of info o) (ServiceName info) (Streams info) ∅ = (ss, Ok tt) /\
    (forall n, n ∈ names info o -> QueryServiceInfo r n = None) /\
    forall n, QueryServiceInfo r' n = if decide (n ∈ names info o) then Some (mkServiceWrapper (ServiceName info) us ss) else QueryServiceInfo r n.
Proof.
  intros Hwf Ho. unfold RegisterWithServiceInfo. rewrite Ho.
  destruct (register_names _ _ _ _) as [m' [[]|e|]] eqn:Hn; [|done..]. apply register_names_spec in Hn as [Hnd Ht].
  unfold make_wrapper. destruct (create_all (unary_of info o) _ _ _) as [us [[]|e|]] eqn:Hu; [|done..].
  destruct (create_all (stream_of info o) _ _ _) as [ss res] eqn:Hs. intros [= <- ->]. exists us, ss. split_and!; try done.
  - intros n Hin. unfold QueryServiceInfo. by rewrite (proj1 (Ht n) Hin).
  - intros n. by rewrite (query_took _ _ _ _ _ _ Hwf eq_refl Ht).
Qed.
Lemma created_names {D W} (create : string -> D -> result W) service ds us k w :
  create_all create service ds ∅ = (us, Ok tt) -> us !! k = Some w -> exists name, name ∈ ds.*1 /\ k = full_method service name.
Proof.
  intros Hc Hk. destruct (create_all_only _ _ _ _ _ _ _ _ Hc Hk) as [?|(name & d & Hin & -> & _)]; [done|].
  exists name. split; [|done]. by apply (list_elem_of_fmap_2 fst _ (name, d)).
Qed.

(** After a service was registered, its methods are found under its name (unless only the
    aliases were asked for) and under every alias: each method of the description, as the
    wrapper that was made for it, with the interceptor of the options, and no other methods.
    None of the names was taken before, and what is found under other names is what was
    found before. *)
Theorem registered_methods_found r r' info opt o : wf r -> apply_options opt (mkOptions [] None None false) = Ok o ->
  RegisterWithServiceInfo recovery r info opt = (r', Ok tt) ->
  NoDup (Methods info).*1 -> NoDup (Streams info).*1 ->
  NoDup (names info o) /\
  (forall n, n ∈ names info o -> QueryServiceInfo r n = None /\
     (forall name md, (name, md) ∈ Methods info -> exists w,
        unary_of info o (full_method (ServiceName info) name) md = Ok w /\ QueryUnary r' n (full_method (ServiceName info) name) = Ok w) /\
     (forall name sd, (name, sd) ∈ Streams info -> exists w,
        stream_of info o (full_method (ServiceName info) name) sd = Ok w /\ QueryStreaming r' n (full_method (ServiceName info) name) = Ok w) /\
     (forall method w, QueryUnary r' n method = Ok w -> exists name, name ∈ (Methods info).*1 /\ method = full_method (ServiceName info) name) /\
     (forall method w, QueryStreaming r' n method = Ok w -> exists name, name ∈ (Streams info).*1 /\ method = full_method (ServiceName info) name)) /\
  (forall n, n ∉ names info o -> QueryServiceInfo r' n = QueryServiceInfo r n).
Proof.
  intros Hwf Ho Hr Hm1 Hm2. destruct (register_ok r r' info opt o Hwf Ho Hr) as (us & ss & Hnd & Hu & Hs & Hfree & Hq).
  unfold QueryUnary, QueryStreaming, query. split; [done|]. split; intros n Hin; rewrite Hq; [|by rewrite decide_False].
  rewrite decide_True by done. cbn. split_and!; [by apply Hfree| | | |].
  - intros name md Hmd. destruct (create_all_ok _ _ _ _ _ Hu Hm1 name md Hmd) as (w & Hw & ->). eauto.
  - intros name sd Hsd. destruct (create_all_ok _ _ _ _ _ Hs Hm2 name sd Hsd) as (w & Hw & ->). eauto.
  - intros method w. destruct (us !! method) as [w'|] eqn:Hk; [|done]. intros _. by eapply created_names.
  - intros method w. destruct (ss !! method) as [w'|] eqn:Hk; [|done]. intros _. by eapply created_names.
Qed.

(** One method of a registered service. *)
Lemma registered_unary r r' info opt o n name md : wf r -> apply_options opt (mkOptions [] None None false) = Ok o ->
  RegisterWithServiceInfo recovery r info opt = (r', Ok tt) -> NoDup (Methods info).*1 -> n ∈ names info o -> (name, md) ∈ Methods info ->
  exists reqType respType, QueryUnary r' n (full_method (ServiceName info) name) =
    Ok (mkUnaryWrapper (full_method (ServiceName info) name) (HandlerType info) md reqType respType (unaryInt o) recovery).
Proof.
  intros Hwf Ho Hr Hnd Hn Hmd. destruct (register_ok r r' info opt o Hwf Ho Hr) as (us & ss & _ & Hu & _ & _ & Hq).
  destruct (create_all_ok _ _ _ _ _ Hu Hnd name md Hmd) as (w & Hw & Hk).
  unfold QueryUnary, query. rewrite Hq, decide_True by done. cbn. rewrite Hk.
  unfold CreateUnaryWrapper, method_of, at_index, ensure in Hw. cbn in Hw. repeat (case_match; simplify_eq/=). eauto.
Qed.

(** A registration that is refused because of a name that is taken keeps the names before
    that one: they point to a wrapper without any methods, and they stay taken.  In
    particular, when an alias of a service is taken, the service cannot be registered
    afterwards without that alias either; other names are not touched. *)
Theorem refused_registration_keeps_names r r' info opt o a : wf r -> apply_options opt (mkOptions [] None None false) = Ok o ->
  RegisterWithServiceInfo recovery r info opt = (r', Err (Duplicate a)) ->
  exists ns1 ns2, names info o = ns1 ++ a :: ns2 /\
    (forall n, QueryServiceInfo r' n = if decide (n ∈ ns1) then Some (mkServiceWrapper (ServiceName info) ∅ ∅) else QueryServiceInfo r n) /\
    (aliasOnly o = false -> a <> ServiceName info ->
     forall opt' o', apply_options opt' (mkOptions [] None None false) = Ok o' -> aliasOnly o' = false ->
       (RegisterWithServiceInfo recovery r' info opt').2 = Err (Duplicate (ServiceName info))).
Proof.
  intros Hwf Ho. unfold RegisterWithServiceInfo at 1. rewrite Ho.
  destruct (register_names _ _ _ _) as [m' [[]|e|]] eqn:Hn; [| |done]; apply register_names_spec in Hn.
  - unfold make_wrapper. destruct (create_all (unary_of info o) _ _ _) as [us [[]|e|]] eqn:Hu; [| |done].
    + destruct (create_all (stream_of info o) _ _ _) as [ss res] eqn:Hs. intros [= <- ->].
      apply create_all_dup in Hs; [done|intros; apply create_streaming_dup].
    + intros [= <- ->]. apply create_all_dup in Hu; [done|intros; apply create_unary_dup].
  - destruct Hn as (ns1 & n & ns2 & Hns & Hnd & Ht & Hsome & ->). intros [= <- ->]. exists ns1, ns2. split; [done|]. split.
    + intros k. by eapply query_took.
    + intros Hao Hne opt' o' Ho' Hao'. unfold RegisterWithServiceInfo. rewrite Ho'. unfold register_names. rewrite Hao'. cbn.
      assert (ServiceName info ∈ ns1) as Hin.
      { unfold names in Hns. rewrite Hao in Hns. destruct ns1 as [|n1 ns1]; simplify_eq/=. by left. }
      unfold register_name. destruct (Ht (ServiceName info)) as [_ ->]. by rewrite decide_True.
Qed.

End registry.

(** ** Examples *)

Definition request : gotype := GoType true false [].
Definition stream_type : gotype := GoType false true [("Send", ([request], [GoType false false []])); ("Recv", ([], [request; GoType false false []]))].
Definition service_type : gotype :=
  GoType true false [("Get", ([request; request; request], [request; request])); ("Watch", ([request; stream_type], [request]))].
Definition example_info : ServiceInfo (Srv := unit) (UHandler := nat) (SHandler := nat) :=
  mkServiceInfo "pkg.Svc" tt [("Get", mkMethodDesc "Get" 1)] [("Watch", mkStreamDesc "Watch" 2 true true)].
Definition example_options names : Options (UInt := unit) (SInt := unit) := mkOptions names None None false.
Definition example_register r names :=
  RegisterWithServiceInfo (UInt := unit) (SInt := unit) (fun _ => service_type) true r example_info [WithAliasNames names].
Definition example_registry := Eval vm_compute in (example_register NewMemoryRegistry ["svc"]).1.

Lemma wf_empty {Srv UHandler SHandler UInt SInt} :
  wf (NewMemoryRegistry (Srv := Srv) (UHandler := UHandler) (SHandler := SHandler) (UInt := UInt) (SInt := SInt)).
Proof. done. Qed.

Lemma registered_methods_found_witness :
  exists r', example_register NewMemoryRegistry ["svc"] = (r', Ok tt) /\ NoDup ["pkg.Svc"; "svc"] /\
    (forall n, n ∉ ["pkg.Svc"; "svc"] -> QueryServiceInfo r' n = None).
Proof.
  exists example_registry. split; [by vm_compute|].
  destruct (registered_methods_found (fun _ : unit => service_type) true NewMemoryRegistry example_registry example_info
    [WithAliasNames ["svc"]] (example_options ["svc"]) wf_empty) as (Hnd & _ & Ho); [done|by vm_compute|apply NoDup_singleton..|].
  split; [exact Hnd|]. intros n Hn. exact (Ho n Hn).
Defined.

(** The alias of another service. *)
Definition other_info : ServiceInfo (Srv := unit) (UHandler := nat) (SHandler := nat) := mkServiceInfo "pkg.Other" tt [] [].
Definition register_other r names :=
  RegisterWithServiceInfo (UInt := unit) (SInt := unit) (fun _ => service_type) true r other_info [WithAliasNames names].
Lemma refused_registration_keeps_names_witness :
  exists r', register_other example_registry ["svc"] = (r', Err (Duplicate "svc")) /\
    (register_other r' []).2 = Err (Duplicate "pkg.Other").
Proof.
  destruct (register_other example_registry ["svc"]) as [r' res] eqn:Hr.
  assert (res = Err (Duplicate "svc")) as -> by (by vm_compute in Hr; simplify_eq).
  exists r'. split; [done|].
  assert (wf example_registry) as Hwf by apply (register_wf (fun _ => service_type) true NewMemoryRegistry example_info [WithAliasNames ["svc"]] wf_empty).
  destruct (refused_registration_keeps_names (fun _ : unit => service_type) true example_registry r' other_info
    [WithAliasNames ["svc"]] (example_options ["svc"]) "svc" Hwf eq_refl Hr) as (ns1 & ns2 & _ & _ & Hagain).
  by apply (Hagain eq_refl ltac:(discriminate) [WithAliasNames []] (example_options [])).
Defined.

(** A stream whose responses are no pointers is accepted. *)
Definition value_stream : gotype := GoType false true [("Send", ([GoType false false []], [GoType false false []])); ("Recv", ([], [request; GoType false false []]))].
Example value_response_accepted :
  stream_types (SHandler := nat) (fun _ : unit => GoType true false [("Watch", ([request; value_stream], [request]))]) tt
    (mkStreamDesc "Watch" 2 true true) = Ok (Some request, Some (GoType false false [])).
Proof. reflexivity. Qed.

End ServiceRegistry.
