(* ===== verification/UnaryCall.v ===== *)
(** * Unary calls of the own process ([memory_registry/internal/unary_wrapper.go],
    [rpc_util.go], [internal/utils.go]), and the contexts of calls and streams.

    A call runs the handler with the request of the caller and a context derived from the
    caller's; the handler sends headers and trailers through a transport stream, which is a
    recording one if a call option asks for them. *)

From S2P Require Import Prelude GrpcMetadata.

Open Scope string_scope.
Open Scope list_scope.

Module UnaryCall.

(** ** Errors ([ToRPCErr]) *)

Inductive code := CodeCanceled | CodeUnknown | CodeDeadlineExceeded | CodeInternal | CodeNotFound | CodeOther (n : nat).
Inductive error := EOF | ErrUnexpectedEOF | DeadlineExceeded | Canceled | Status (c : code) (msg : string) | Plain (msg : string).
Definition ToRPCErr (err : option error) : option error :=
  match err with
  | None | Some EOF => err
  | Some ErrUnexpectedEOF => Some (Status CodeInternal "unexpected EOF")
  | Some (Status _ _) => err
  | Some DeadlineExceeded => Some (Status CodeDeadlineExceeded "context deadline exceeded")
  | Some Canceled => Some (Status CodeCanceled "context canceled")
  | Some (Plain msg) => Some (Status CodeUnknown msg)
  end.
Definition ErrIllegalHeaderWrite : error := Plain "transport: the stream is done or WriteHeader was already called".

Section call.
Context {MD Req Resp P : Type} `{MetadataJoin MD}.

(** ** Contexts *)

Inductive peer := InProcess | OtherPeer (p : P).
Record context := mkContext { incoming : option MD; outgoing : option MD; peer_of : option peer }.
Definition NewIncomingContext (ctx : context) (md : MD) : context := mkContext (Some md) (outgoing ctx) (peer_of ctx).
Definition NewOutgoingContext (ctx : context) (md : MD) : context := mkContext (incoming ctx) (Some md) (peer_of ctx).
Definition NewPeerContext (ctx : context) (p : peer) : context := mkContext (incoming ctx) (outgoing ctx) (Some p).

Inductive call_option := HeaderCallOption | TrailerCallOption | PeerCallOption | OverridePeer (f : context -> context) | OtherCallOption.

(** The options that replace the peer, in order; without one the peer is the own process. *)
Definition override (acc : context * bool) (o : call_option) : context * bool :=
  match o with OverridePeer f => (f acc.1, true) | _ => acc end.
Definition peer_context (ctx : context) (callOpts : list call_option) : context :=
  let '(ctx, peerCtxOverride) := foldl override (ctx, false) callOpts in
  if peerCtxOverride : bool then ctx else NewPeerContext ctx InProcess.

Definition unary_context (ctx : context) (callOpts : list call_option) : context :=
  let ctx := peer_context ctx callOpts in
  match outgoing ctx with
  | Some md => NewOutgoingContext (NewIncomingContext ctx md) md_empty
  | None => ctx
  end.
(** The server's context of a stream ([NewGrpcStream] on the context of [NewStream]). *)
Definition stream_context (ctx : context) (callOpts : list call_option) : context :=
  let ctx := peer_context ctx callOpts in
  match outgoing ctx with
  | Some md => NewOutgoingContext (NewIncomingContext ctx md) md_empty
  | None => NewIncomingContext ctx md_empty
  end.

(** ** Transport streams *)

Inductive ts_call := SetHeader (md : MD) | SendHeader (md : MD) | SetTrailer (md : MD).
Record UnaryMockTransportStream := mkUnaryMockTransportStream { header : MD; trailer : MD; hdrSent : bool }.
Definition mock_call (ts : UnaryMockTransportStream) (c : ts_call) : UnaryMockTransportStream * option error :=
  match c with
  | SetHeader md =>
      if hdrSent ts then (ts, Some ErrIllegalHeaderWrite)
      else (mkUnaryMockTransportStream (md_Join (header ts) md) (trailer ts) (hdrSent ts), None)
  | SendHeader md =>
      if hdrSent ts then (ts, Some ErrIllegalHeaderWrite)
      else (mkUnaryMockTransportStream (md_Join (header ts) md) (trailer ts) true, None)
  | SetTrailer md => (mkUnaryMockTransportStream (header ts) (md_Join (trailer ts) md) (hdrSent ts), None)
  end.
(** [None] is the [NilTransportStream]. *)
Definition ts_do (ts : option UnaryMockTransportStream) (c : ts_call) : option UnaryMockTransportStream * option error :=
  match ts with
  | None => (None, None)
  | Some ts => let '(ts, e) := mock_call ts c in (Some ts, e)
  end.

(** ** Handlers *)

(** The generated handler with its interceptors, on a request: it returns, panics, or calls
    its transport stream and goes on with the answer. *)
Inductive handler :=
| HReturn (resp : option Resp) (err : option error)
| HPanic (v : string)
| HCall (c : ts_call) (k : option error -> handler).
Inductive handled := Returned (resp : option Resp) (err : option error) | Panicked (v : string).

Fixpoint run_handler (ts : option UnaryMockTransportStream) (h : handler) : option UnaryMockTransportStream * handled :=
  match h with
  | HReturn resp err => (ts, Returned resp err)
  | HPanic v => (ts, Panicked v)
  | HCall c k => let '(ts, e) := ts_do ts c in run_handler ts (k e)
  end.

(** ** [Invoke] *)

(** What the call options were filled with. *)
Inductive filled := FilledHeader (md : MD) | FilledTrailer (md : MD) | FilledPeer (p : peer).
Definition fill (ts : option UnaryMockTransportStream) (o : call_option) : option filled :=
  match o, ts with
  | HeaderCallOption, Some ts => Some (FilledHeader (header ts))
  | TrailerCallOption, Some ts => Some (FilledTrailer (trailer ts))
  | PeerCallOption, _ => Some (FilledPeer InProcess)
  | _, _ => None
  end.
Inductive invoked := Result (resp : option Resp) (err : option error) (out : list filled) | Crash (v : string).

Definition wants_header (o : call_option) : bool := match o with HeaderCallOption | TrailerCallOption => true | _ => false end.
Definition transport_for (callOpts : list call_option) : option UnaryMockTransportStream :=
  if existsb wants_header callOpts then Some (mkUnaryMockTransportStream md_empty md_empty false) else None.
Definition panic_error (stack v : string) : error :=
  Status CodeInternal ("[PANIC] panic = " +:+ v +:+ ", stack = " +:+ stack).

Definition Invoke (serverRecovery : bool) (stack : string) (Handler : context -> Req -> handler)
    (ctx : context) (req : Req) (callOpts : list call_option) : invoked :=
  let '(ts, r) := run_handler (transport_for callOpts) (Handler (unary_context ctx callOpts) req) in
  match r with
  | Panicked v => if serverRecovery then Result None (Some (panic_error stack v)) [] else Crash v
  | Returned resp err => Result resp (ToRPCErr err) (omap (fill ts) callOpts)
  end.

(** ** Contexts: facts *)

Lemma foldl_no_override ctx opts : (forall f, OverridePeer f ∉ opts) -> foldl override (ctx, false) opts = (ctx, false).
Proof.
  induction opts as [|o opts IH]; intros Hn; [done|]. cbn. assert (override (ctx, false) o = (ctx, false)) as ->.
  { destruct o; try done. exfalso. by eapply Hn; left. }
  apply IH. intros f Hf. by eapply Hn; right.
Qed.

(** What an in-process handler sees as metadata: with outgoing metadata at the caller,
    both kinds of calls show it as the incoming metadata and start with an empty outgoing
    one.  Without it, a stream has empty incoming metadata, but a unary call hands the
    caller's own incoming metadata on, as a call over the network never would. *)
Theorem handler_metadata ctx opts : (forall f, OverridePeer f ∉ opts) ->
  match outgoing ctx with
  | Some md =>
      unary_context ctx opts = mkContext (Some md) (Some md_empty) (Some InProcess) /\
      stream_context ctx opts = unary_context ctx opts
  | None =>
      unary_context ctx opts = mkContext (incoming ctx) None (Some InProcess) /\
      stream_context ctx opts = mkContext (Some md_empty) None (Some InProcess)
  end.
Proof.
  intros Hn. unfold unary_context, stream_context, peer_context. rewrite foldl_no_override by done.
  destruct ctx as [inc [out|] p]; cbn; done.
Qed.

(** ** Headers and trailers *)

(** What a handler did: its calls with their answers. *)
Fixpoint trace (ts : option UnaryMockTransportStream) (h : handler) : list (ts_call * option error) :=
  match h with
  | HCall c k => let '(ts, e) := ts_do ts c in (c, e) :: trace ts (k e)
  | _ => []
  end.

(** The headers of a sequence of calls: those up to the first [SendHeader]. *)
Fixpoint headers_of (cs : list ts_call) : list MD :=
  match cs with
  | [] => []
  | SetHeader md :: cs => md :: headers_of cs
  | SendHeader md :: _ => [md]
  | SetTrailer _ :: cs => headers_of cs
  end.
Definition trailers_of (cs : list ts_call) : list MD := omap (fun c => match c with SetTrailer md => Some md | _ => None end) cs.
(** Their answers: the header calls after the first [SendHeader] are refused. *)
Fixpoint answers (sent : bool) (cs : list ts_call) : list (option error) :=
  match cs with
  | [] => []
  | SetTrailer _ :: cs => None :: answers sent cs
  | SetHeader _ :: cs => (if sent then Some ErrIllegalHeaderWrite else None) :: answers sent cs
  | SendHeader _ :: cs => (if sent then Some ErrIllegalHeaderWrite else None) :: answers true cs
  end.

Lemma run_mock ts h :
  let cs := (trace (Some ts) h).*1 in
  exists ts', (run_handler (Some ts) h).1 = Some ts' /\
    header ts' = foldl md_Join (header ts) (if hdrSent ts then [] else headers_of cs) /\
    trailer ts' = foldl md_Join (trailer ts) (trailers_of cs) /\
    (trace (Some ts) h).*2 = answers (hdrSent ts) cs.
Proof.
  revert ts. induction h as [resp err|v|c k IH]; intros ts cs; [by exists ts; destruct (hdrSent ts)..|].
  subst cs. cbn. destruct ts as [hd tr sent]. destruct c, sent; cbn;
    match goal with |- context [run_handler (Some ?ts) (k ?e)] => destruct (IH e ts) as (ts' & H1 & H2 & H3 & H4) end;
    exists ts'; cbn in *; rewrite H4; done.
Qed.

Lemma Get_foldl `{!MetadataJoinLaws MD} a mds k : md_Get (foldl md_Join a mds) k = md_Get a k ++ (mds ≫= (fun md => md_Get md k)).
Proof.
  revert a. induction mds as [|md mds IH]; intros a; cbn; [by rewrite app_nil_r|]. by rewrite IH, md_Get_Join, <- app_assoc.
Qed.

(** The headers and trailers of a call reach its caller.  When the call asks for headers
    or trailers and its handler returns, the header options are filled with all values of the
    headers set up to the first [SendHeader], in order, and the trailer options with those of
    all trailers; the header calls after the first [SendHeader], and only those, failed. *)
Theorem call_headers `{!MetadataJoinLaws MD} serverRecovery stack Handler ctx req opts resp err :
  existsb wants_header opts = true ->
  let h := Handler (unary_context ctx opts) req in
  let cs := (trace (transport_for opts) h).*1 in
  (run_handler (transport_for opts) h).2 = Returned resp err ->
  (trace (transport_for opts) h).*2 = answers false cs /\
  exists ts, Invoke serverRecovery stack Handler ctx req opts = Result resp (ToRPCErr err) (omap (fill (Some ts)) opts) /\
    forall k, md_Get (header ts) k = md_Get md_empty k ++ (headers_of cs ≫= (fun md => md_Get md k)) /\
              md_Get (trailer ts) k = md_Get md_empty k ++ (trailers_of cs ≫= (fun md => md_Get md k)).
Proof.
  intros Ho h cs Hr. unfold cs in *. unfold Invoke. fold h. unfold transport_for in *. rewrite Ho in *.
  destruct (run_mock (mkUnaryMockTransportStream md_empty md_empty false) h) as (ts & Hts & Hh & Htr & Ha).
  split; [done|]. exists ts. destruct (run_handler _ h) as [ts' r]. cbn in *. subst. split; [done|].
  intros k. by rewrite Hh, Htr, !Get_foldl.
Qed.

(** ** Options and results *)

Lemma run_nil ts h : (forall e, e ∈ (trace (Some ts) h).*2 -> e = None) -> (run_handler (Some ts) h).2 = (run_handler None h).2.
Proof.
  revert ts. induction h as [resp err|v|c k IH]; intros ts He; [done..|]. cbn in *. destruct (mock_call ts c) as [ts' e].
  cbn in *. rewrite (He e) by by left. apply IH. intros e' He'. rewrite <- (He e) in He' by by left. apply He. by right.
Qed.

(** What the caller is told, apart from the options. *)
Definition told (i : invoked) : option (option Resp * option error) := match i with Result resp err _ => Some (resp, err) | Crash _ => None end.

(** Asking for headers does not change the result of a call: as long as the handler makes
    no header calls after its first [SendHeader], it returns or panics as it would without
    any call options. *)
Theorem options_invisible serverRecovery stack Handler ctx req opts opts' :
  unary_context ctx opts = unary_context ctx opts' ->
  (forall e, e ∈ (trace (Some (mkUnaryMockTransportStream md_empty md_empty false)) (Handler (unary_context ctx opts) req)).*2 -> e = None) ->
  told (Invoke serverRecovery stack Handler ctx req opts) = told (Invoke serverRecovery stack Handler ctx req opts').
Proof.
  intros Hc Hn. unfold Invoke. rewrite <- Hc.
  assert (forall o, (run_handler (transport_for o) (Handler (unary_context ctx opts) req)).2 =
                    (run_handler None (Handler (unary_context ctx opts) req)).2) as Hr.
  { intros o. unfold transport_for. destruct (existsb _ o); [|done]. by apply run_nil. }
  pose proof (Hr opts) as H1. rewrite <- (Hr opts') in H1.
  destruct (run_handler (transport_for opts) _) as [ts1 r1], (run_handler (transport_for opts') _) as [ts2 r2].
  cbn in H1. subst. destruct r2; [done|]. by destruct serverRecovery.
Qed.

(** An error as a client of a remote service may see it. *)
Definition rpc_error (err : option error) : Prop := match err with None | Some EOF | Some (Status _ _) => True | _ => False end.
Lemma ToRPCErr_rpc err : rpc_error (ToRPCErr err) /\ (rpc_error err -> ToRPCErr err = err).
Proof. by destruct err as [[]|]. Qed.

(** With recovery, a call to a handler always returns, and the error it returns is a
    status, as over the network: the one of the handler, unchanged, if it already was one, and
    an internal one if the handler panicked.  Without recovery a panic of a handler crashes
    the process of its caller. *)
Theorem call_recovers stack Handler ctx req opts :
  match (run_handler (transport_for opts) (Handler (unary_context ctx opts) req)).2 with
  | Returned resp err => forall rec, exists err' out, Invoke rec stack Handler ctx req opts = Result resp err' out /\
                           rpc_error err' /\ (rpc_error err -> err' = err) /\ (err' = None <-> err = None)
  | Panicked v => Invoke true stack Handler ctx req opts = Result None (Some (panic_error stack v)) [] /\
                  Invoke false stack Handler ctx req opts = Crash v
  end.
Proof.
  unfold Invoke. destruct (run_handler _ _) as [ts [resp err|v]]; cbn; [|done]. intros _. eexists _, _.
  split; [done|]. pose proof (ToRPCErr_rpc err) as [? ?]. split_and!; [done..|]. by destruct err as [[]|].
Qed.

End call.
(** ** Examples *)

Definition MD_ex : Type := gmap string (list string).
Definition example_ctx : context (MD := MD_ex) (P := string) := mkContext None (Some {["user" := ["u"]]}) None.
(** A handler that sets two headers, sends them, sets a trailer and returns its argument. *)
Definition example_handler (ctx : context (MD := MD_ex) (P := string)) (req : nat) : handler (MD := MD_ex) (Resp := nat) :=
  HCall (SetHeader {["a" := ["1"]]}) (fun _ => HCall (SendHeader {["a" := ["2"]]}) (fun _ =>
    HCall (SetTrailer {["t" := ["x"]]}) (fun _ => HReturn (Some req) None))).

Lemma handler_metadata_witness : unary_context example_ctx [] = mkContext (Some {["user" := ["u"]]}) (Some ∅) (Some InProcess).
Proof. refine (proj1 (handler_metadata example_ctx [] _)). by intros f []%not_elem_of_nil. Defined.

Lemma call_headers_witness : exists ts,
  Invoke true "" example_handler example_ctx 7 [HeaderCallOption] = Result (Some 7) None [FilledHeader (header ts)] /\
  md_Get (header ts) "a" = ["1"; "2"].
Proof.
  destruct (call_headers true "" example_handler example_ctx 7 [HeaderCallOption] (Some 7) None) as (_ & ts & Hi & Hg);
    [reflexivity|by vm_compute|]. exists ts. split; [exact Hi|]. destruct (Hg "a") as [-> _]. by vm_compute.
Defined.

Lemma options_invisible_witness :
  told (Invoke true "" example_handler example_ctx 7 [HeaderCallOption]) = told (Invoke true "" example_handler example_ctx 7 []).
Proof.
  apply options_invisible; [reflexivity|]. intros e He. vm_compute in He. by repeat (apply elem_of_cons in He as [->|He]; [done|]); apply not_elem_of_nil in He.
Defined.

End UnaryCall.
