(* ===== verification/RegistryCall.v ===== *)
(** * Unary calls by name ([MemoryRegistry.UnaryInvoke]): the registry of [ServiceRegistry] with
    the calls of [UnaryCall]. *)

From S2P Require Import Prelude GrpcMetadata ServiceRegistry UnaryCall.

Open Scope string_scope.
Open Scope list_scope.

Module RegistryCall.
Import UnaryCall ServiceRegistry.

(** ** Calls through the registry ([UnaryInvoke]) *)

Section dispatch.
Context {MD Req Resp P : Type} `{MetadataJoin MD} {Srv SHandler UInt SInt : Type} (TypeOf : Srv -> gotype).
(** A generated handler takes the service and the interceptor; [describe] words an error of a
    query. *)
Notation UHandler := (Srv -> option UInt -> context (MD := MD) (P := P) -> Req -> handler (MD := MD) (Resp := Resp)).
Context (describe : ServiceRegistry.error -> string).
Notation registry := (MemoryRegistry (Srv := Srv) (UHandler := UHandler) (SHandler := SHandler) (UInt := UInt) (SInt := SInt)).

Definition UnaryInvoke (stack : string) (r : registry) (srvName method : string) ctx req opts : invoked (MD := MD) (Resp := Resp) (P := P) :=
  match QueryUnary r srvName method with
  | Ok m => Invoke (u_recovery m) stack (md_Handler (u_md m) (u_srv m) (u_int m)) ctx req opts
  | Err e => Result None (Some (Status CodeNotFound (describe e))) []
  | Panic => Crash ""
  end.

(** C29: A call by name runs the handler that was registered.  After the registration of a
    service, a call of one of its methods, under the service's name or an alias of it, is the
    call of the method's handler on the service with the interceptor of the registration;
    after the name was unregistered, every call under it is answered with NotFound. *)
Theorem registered_handler_called recovery stack (r r' : registry) info opt o n name md : wf r ->
  apply_options opt (mkOptions [] None None false) = Ok o ->
  RegisterWithServiceInfo TypeOf recovery r info opt = (r', Ok tt) ->
  NoDup (Methods info).*1 -> n ∈ names info o -> (name, md) ∈ Methods info ->
  (forall ctx req opts, UnaryInvoke stack r' n (full_method (ServiceName info) name) ctx req opts =
     Invoke recovery stack (md_Handler md (HandlerType info) (unaryInt o)) ctx req opts) /\
  forall alias method ctx req opts, n = ServiceName info \/ n ∈ alias ->
    UnaryInvoke stack (UnregisterWithServiceInfo r' info alias) n method ctx req opts =
    Result None (Some (Status CodeNotFound (describe (ServiceNotFound n)))) [].
Proof.
  intros Hwf Ho Hr Hnd Hn Hmd. split.
  - intros ctx req opts. destruct (registered_unary TypeOf recovery r r' info opt o n name md) as (t1 & t2 & Hq); [done..|].
    unfold UnaryInvoke. by rewrite Hq.
  - intros alias method ctx req opts Hal. unfold UnaryInvoke, QueryUnary, query. by rewrite unregister_query, decide_True.
Qed.
End dispatch.

(** ** Examples *)

(** The example handler behind a registered service. *)
Definition echo_info : ServiceInfo (Srv := unit) (SHandler := nat)
    (UHandler := unit -> option unit -> context (MD := MD_ex) (P := string) -> nat -> handler (MD := MD_ex) (Resp := nat)) :=
  mkServiceInfo "pkg.Svc" tt
    [("Get", mkMethodDesc "Get" (fun _ _ => example_handler))] [].
Lemma registered_handler_called_witness : exists r',
  UnaryInvoke (Srv := unit) (SHandler := nat) (UInt := unit) (SInt := unit) (fun _ => "not found") "" r' "svc" "/pkg.Svc/Get" example_ctx 7 [] = Result (Some 7) None [].
Proof.
  destruct (RegisterWithServiceInfo (UInt := unit) (SInt := unit) (fun _ => service_type) true
    NewMemoryRegistry echo_info [WithAliasNames ["svc"]]) as [r' res] eqn:Hr.
  assert (res = Ok tt) as -> by (by vm_compute in Hr; simplify_eq). exists r'.
  destruct (registered_handler_called (fun _ => service_type) (fun _ => "not found") true "" _ r' echo_info
    [WithAliasNames ["svc"]] (mkOptions ["svc"] None None false) "svc" "Get"
    (mkMethodDesc "Get" (fun _ _ => example_handler))
    wf_empty eq_refl Hr) as [Hc _].
  - apply NoDup_singleton.
  - right. by left.
  - by left.
  - exact (Hc example_ctx 7 []).
Defined.

End RegistryCall.
