(* ===== verification/MemoryDialer.v ===== *)
(** * The dialer of the own process ([memory_registry/dialer.go]).

    Connections are cached by target; several goroutines may dial at a time.  A unary call on
    such a connection runs in a goroutine of its own, and its caller waits for the result or
    for the end of the context. *)

From S2P Require Import Prelude.

Open Scope string_scope.
Open Scope list_scope.

Module MemoryDialer.

(** ** Dialling *)

(** Where a goroutine in [Dial] is: before the first look at the cache, waiting for the
    mutex, before the second look, storing what it made; it returns a connection or an
    error.  [QueryServiceInfo] and [MakeConnection] are one step, which the registry of that
    moment and the outcome of [MakeConnection] decide. *)
Inductive dial_error := ErrNotFound (target : string) | ErrMake.
Inductive phase :=
| PLoad (target : string) | PLock (target : string) | PReload (target : string) | PStore (target : string) (cc : nat)
| PUnlock (target : string) (res : nat + dial_error) | PDone (target : string) (res : nat + dial_error).

(** Connections are numbered in the order in which they are made; [made] has their targets. *)
Record dialer := mkDialer {
  clientConnections : gmap string nat; mutex : option nat; made : list string; registered : gset string; dials : list phase
}.
Definition NewMemoryDialer : dialer := mkDialer ∅ None [] ∅ [].

Inductive label := Register (services : gset string) | Dial (target : string) | Step (i : nat) (make_fails : bool).

Definition goto (d : dialer) (i : nat) (p : phase) : dialer :=
  mkDialer (clientConnections d) (mutex d) (made d) (registered d) (<[i := p]> (dials d)).
Definition makeConnection (d : dialer) (i : nat) (target : string) (make_fails : bool) : dialer :=
  if bool_decide (target ∈ registered d) then
    if make_fails then goto d i (PUnlock target (inr ErrMake))
    else mkDialer (clientConnections d) (mutex d) (made d ++ [target]) (registered d)
           (<[i := PStore target (length (made d))]> (dials d))
  else goto d i (PUnlock target (inr (ErrNotFound target))).

Definition dial_step (d : dialer) (l : label) : option dialer :=
  match l with
  | Register services => Some (mkDialer (clientConnections d) (mutex d) (made d) services (dials d))
  | Dial target => Some (mkDialer (clientConnections d) (mutex d) (made d) (registered d) (dials d ++ [PLoad target]))
  | Step i make_fails =>
      match dials d !! i with
      | Some (PLoad t) =>
          Some (goto d i (match clientConnections d !! t with Some cc => PDone t (inl cc) | None => PLock t end))
      | Some (PLock t) =>
          match mutex d with
          | None => Some (mkDialer (clientConnections d) (Some i) (made d) (registered d) (<[i := PReload t]> (dials d)))
          | Some _ => None
          end
      | Some (PReload t) =>
          Some (match clientConnections d !! t with
                | Some cc => goto d i (PUnlock t (inl cc))
                | None => makeConnection d i t make_fails
                end)
      | Some (PStore t cc) =>
          Some (mkDialer (<[t := cc]> (clientConnections d)) (mutex d) (made d) (registered d) (<[i := PUnlock t (inl cc)]> (dials d)))
      | Some (PUnlock t res) =>
          Some (mkDialer (clientConnections d) None (made d) (registered d) (<[i := PDone t res]> (dials d)))
      | _ => None
      end
  end.
Definition dialled (d : dialer) : Prop := rtc (fun d d' => exists l, dial_step d l = Some d') NewMemoryDialer d.

(** *** The invariant *)

Definition holds_mutex (p : phase) : bool := match p with PReload _ | PStore _ _ | PUnlock _ _ => true | _ => false end.
Record dial_inv (d : dialer) : Prop := {
  di_mutex i p : dials d !! i = Some p -> (holds_mutex p = true <-> mutex d = Some i);
  di_holder i : mutex d = Some i -> i < length (dials d);
  di_cached t cc : clientConnections d !! t = Some cc -> made d !! cc = Some t;
  di_store i t cc : dials d !! i = Some (PStore t cc) -> made d !! cc = Some t /\ clientConnections d !! t = None;
  di_result i t cc : dials d !! i = Some (PUnlock t (inl cc)) \/ dials d !! i = Some (PDone t (inl cc)) -> clientConnections d !! t = Some cc;
  di_made t cc : made d !! cc = Some t -> clientConnections d !! t = Some cc \/ exists i, dials d !! i = Some (PStore t cc)
}.


(** The step of goroutine [i] to [p']: what has to be shown of the cache, the mutex and the
    connections made. *)
Lemma dial_move d i p p' cs mu mk : dial_inv d -> dials d !! i = Some p ->
  (holds_mutex p' = true <-> mu = Some i) ->
  (forall j, j <> i -> (mutex d = Some j <-> mu = Some j)) ->
  (forall t cc, clientConnections d !! t = Some cc -> cs !! t = Some cc) ->
  (forall t cc, cs !! t = Some cc -> mk !! cc = Some t) ->
  (forall t cc, made d !! cc = Some t -> mk !! cc = Some t) ->
  (forall j t cc, j <> i -> dials d !! j = Some (PStore t cc) -> cs !! t = None) ->
  (forall t cc, p' = PStore t cc -> mk !! cc = Some t /\ cs !! t = None) ->
  (forall t cc, p' = PUnlock t (inl cc) \/ p' = PDone t (inl cc) -> cs !! t = Some cc) ->
  (forall t cc, mk !! cc = Some t -> made d !! cc = Some t /\ (p <> PStore t cc) \/ cs !! t = Some cc \/ p' = PStore t cc) ->
  dial_inv (mkDialer cs mu mk (registered d) (<[i := p']> (dials d))).
Proof.
  intros [Hm Hh Hca Hst Hre Hma] Hi Hp' Hmu Hcs Hcm Hmk Hoth Hs' Hr' Hnew.
  assert (i < length (dials d)) as Hlt by (by apply lookup_lt_Some in Hi). split; cbn.
  - intros j q [(<- & <- & _)|[Hne Hq]]%list_lookup_insert_Some; [done|]. rewrite <- Hmu by done. by apply Hm.
  - intros j Hj. rewrite length_insert. destruct (decide (j = i)) as [->|Hne]; [done|]. apply Hh. by apply Hmu.
  - done.
  - intros j t cc [(<- & He & _)|[Hne Hq]]%list_lookup_insert_Some; [by apply Hs'|]. split; [|by eapply Hoth].
    apply Hmk. by apply (Hst j).
  - intros j t cc Hor. destruct (decide (i = j)) as [<-|Hne].
    + rewrite list_lookup_insert_eq in Hor by done. apply Hr'. by destruct Hor as [[= ->]|[= ->]]; auto.
    + rewrite list_lookup_insert_ne in Hor by done. eauto.
  - intros t cc [[Hc Hp]|[Hc| ->]]%Hnew; [|by left|right; exists i; by rewrite list_lookup_insert_eq].
    destruct (Hma t cc Hc) as [Hin|[j Hj]]; [left; auto|right]. exists j. rewrite list_lookup_insert_ne; [done|].
    intros <-. rewrite Hi in Hj. congruence.
Qed.

Lemma dial_holder d i p : dial_inv d -> dials d !! i = Some p -> holds_mutex p = true ->
  mutex d = Some i /\ forall j q, j <> i -> dials d !! j = Some q -> holds_mutex q = false.
Proof.
  intros [Hm _ _ _ _ _] Hi Hp. assert (mutex d = Some i) as Hmu by by apply (Hm i p). split; [done|].
  intros j q Hne Hj. apply not_true_iff_false. intros Hq. apply (Hm j q Hj) in Hq. congruence.
Qed.

Lemma dial_step_inv d l d' : dial_inv d -> dial_step d l = Some d' -> dial_inv d'.
Proof.
  intros Hinv. destruct l as [services|target|i fails]; cbn.
  - intros [= <-]. by destruct Hinv.
  - intros [= <-]. destruct Hinv as [Hm Hh Hca Hst Hre Hma]. split; cbn; try done.
    + intros i p [Hp|[Hi Hp]]%lookup_app_Some; [by apply Hm|]. apply list_lookup_singleton_Some in Hp as [Hp <-]. cbn.
      split; [done|]. intros Hh'%Hh. lia.
    + intros i Hi%Hh. rewrite length_app. lia.
    + intros i t cc [Hp|[Hi Hp]]%lookup_app_Some; [by apply (Hst i)|]. apply list_lookup_singleton_Some in Hp as [_ [=]].
    + intros i t cc [[Hp|[Hi Hp]]%lookup_app_Some|[Hp|[Hi Hp]]%lookup_app_Some]; eauto;
        by apply list_lookup_singleton_Some in Hp as [_ [=]].
    + intros t cc [Hc|[i Hi]]%Hma; [by left|right]. exists i. by apply lookup_app_l_Some.
  - destruct (dials d !! i) as [p|] eqn:Hi; [|done].
    pose proof (di_mutex d Hinv i p Hi) as Hmu.
    assert (forall j t cc, j <> i -> dials d !! j = Some (PStore t cc) -> clientConnections d !! t = None) as Hoth.
    { intros j t cc _ Hj. by destruct (di_store d Hinv j t cc Hj). }
    pose proof (di_cached d Hinv) as Hca.
    destruct p as [t|t|t|t cc|t res|t res]; cbn in Hmu; [..|done].
    + destruct (clientConnections d !! t) as [cc|] eqn:Hc; intros [= <-]; eapply dial_move; try done; cbn; naive_solver.
    + destruct (mutex d) as [m|] eqn:Hm; [done|]. intros [= <-]. eapply dial_move; try done; cbn; rewrite ?Hm; naive_solver.
    + pose proof (dial_holder d i _ Hinv Hi eq_refl) as [Hm Hrest].
      destruct (clientConnections d !! t) as [cc|] eqn:Hc; [intros [= <-]; eapply dial_move; try done; cbn; naive_solver|].
      unfold makeConnection. case_bool_decide as Ht; [destruct fails|]; intros [= <-];
        [eapply dial_move; try done; cbn; naive_solver| |eapply dial_move; try done; cbn; naive_solver].
      eapply dial_move; try done; cbn.
      * intros t' cc H'. apply lookup_app_l_Some. by apply Hca.
      * intros t' cc H'. by apply lookup_app_l_Some.
      * intros t' cc [= <- <-]. by rewrite list_lookup_middle.
      * by intros t' cc [|].
      * intros t' cc [H'|[H1 H2]]%lookup_app_Some; [left; naive_solver|]. apply list_lookup_singleton_Some in H2 as [H2 <-].
        right; right. f_equal. lia.
    + pose proof (dial_holder d i _ Hinv Hi eq_refl) as [Hm Hrest]. destruct (di_store d Hinv i t cc Hi) as [Hmd Hno].
      intros [= <-]. eapply dial_move; try done; cbn.
      * intros t' cc' H'. rewrite lookup_insert_ne; [done|]. congruence.
      * intros t' cc'. rewrite lookup_insert_case. case_decide; [|apply Hca]. naive_solver.
      * intros j t' cc' Hne Hj. by apply Hrest in Hj.
      * intros t' cc' [[= <- <-]|[=]]. by rewrite lookup_insert_eq.
      * intros t' cc' H'. destruct (decide (t = t' /\ cc = cc')) as [[<- <-]|]; [right; left; by rewrite lookup_insert_eq|left; naive_solver].
    + pose proof (dial_holder d i _ Hinv Hi eq_refl) as [Hm Hrest].
      intros [= <-]. eapply dial_move; try done; cbn; try naive_solver.
      intros t' cc' [[=]|[= <- ->]]. apply (di_result d Hinv i). by left.
Qed.

Lemma dialled_inv d : dialled d -> dial_inv d.
Proof.
  intros Hd. refine (rtc_invariant _ dial_inv NewMemoryDialer _ _ d Hd).
  - by split; cbn; try done; try naive_solver.
  - intros d1 d2 Hinv [l Hl]. by eapply dial_step_inv.
Qed.

(** However many goroutines dial at a time, and whatever is registered meanwhile: at most
    one connection is ever made for a target, every [Dial] of the target that succeeds
    returns it, and dialling never deadlocks: while a call is under way, some call can go on. *)
Theorem one_connection_per_target d : dialled d ->
  NoDup (made d) /\
  (forall i j t cc cc', dials d !! i = Some (PDone t (inl cc)) -> dials d !! j = Some (PDone t (inl cc')) -> cc = cc' /\ made d !! cc = Some t) /\
  forall i p, dials d !! i = Some p -> (exists t res, p = PDone t res) \/ exists j d', dial_step d (Step j false) = Some d'.
Proof.
  intros Hinv%dialled_inv. split_and!.
  - apply NoDup_alt. intros c1 c2 t H1 H2. destruct (di_made d Hinv t c1 H1) as [Hc1|[i Hi]], (di_made d Hinv t c2 H2) as [Hc2|[j Hj]].
    + congruence.
    + destruct (di_store d Hinv j t c2 Hj). congruence.
    + destruct (di_store d Hinv i t c1 Hi). congruence.
    + destruct (dial_holder d i _ Hinv Hi eq_refl) as [_ Hrest]. destruct (decide (j = i)) as [->|Hne]; [congruence|].
      by apply Hrest in Hj.
  - intros i j t cc cc' Hi Hj. pose proof (di_result d Hinv i t cc (or_intror Hi)) as H1.
    pose proof (di_result d Hinv j t cc' (or_intror Hj)) as H2. split; [congruence|]. by apply (di_cached d Hinv).
  - intros i p Hi. destruct (mutex d) as [m|] eqn:Hm.
    + right. pose proof (di_holder d Hinv m Hm) as [q Hq]%lookup_lt_is_Some_2.
      pose proof (proj2 (di_mutex d Hinv m q Hq) Hm) as Hh. exists m. cbn. rewrite Hq. by destruct q; eauto.
    + destruct p as [t|t|t|t cc|t res|t res]; [right; exists i; cbn; rewrite Hi, ?Hm; eauto..|left; eauto].
Qed.

(** ** Unary calls *)

Section call.
Context {Resp E : Type}.

(** The goroutine of a call: in [UnaryInvoke], writing the reply, sending to the channel. *)
Inductive routine := RInvoke | RReply (resp : Resp) | RSend (answer : Resp + E) | REnd (answer : Resp + E).
Record ucall := mkUCall { ctx_err : option E; reply : option Resp; ch : option (option E); goroutine : routine; ret : option (option E) }.
Definition new_ucall : ucall := mkUCall None None None RInvoke None.

(** [UnaryInvoke] returns; the goroutine goes on; the context ends; one of the two ready cases
    of the [select] is taken. *)
Inductive ustep := UInvoked (answer : Resp + E) | UGo | UCancel (e : E) | UReceive | UDone.
Definition ucall_step (c : ucall) (l : ustep) : option ucall :=
  let '(mkUCall x rep h g r) := c in
  match l, g with
  | UInvoked (inl resp), RInvoke => Some (mkUCall x rep h (RReply resp) r)
  | UInvoked (inr e), RInvoke => Some (mkUCall x rep h (RSend (inr e)) r)
  | UGo, RReply resp => Some (mkUCall x (Some resp) h (RSend (inl resp)) r)
  | UGo, RSend a => Some (mkUCall x rep (Some (match a with inl _ => None | inr e => Some e end)) (REnd a) r)
  | UCancel e, _ => match x with None => Some (mkUCall (Some e) rep h g r) | Some _ => None end
  | UReceive, _ => match h, r with Some v, None => Some (mkUCall x rep None g (Some v)) | _, _ => None end
  | UDone, _ => match x, r with Some e, None => Some (mkUCall x rep h g (Some (Some e))) | _, _ => None end
  | _, _ => None
  end.
Definition called (c : ucall) : Prop := rtc (fun c c' => exists l, ucall_step c l = Some c') new_ucall c.

Record ucall_inv (c : ucall) : Prop := {
  ui_ch v : ch c = Some v -> exists a, goroutine c = REnd a /\ v = match a with inl _ => None | inr e => Some e end;
  ui_end a : goroutine c = REnd a -> ch c = None -> is_Some (ret c);
  ui_reply resp : goroutine c = RSend (inl resp) \/ goroutine c = REnd (inl resp) -> reply c = Some resp;
  ui_ret v : ret c = Some v ->
    (exists e, ctx_err c = Some e /\ v = Some e) \/ exists a, goroutine c = REnd a /\ v = match a with inl _ => None | inr e => Some e end
}.
Lemma ucall_step_inv c l c' : ucall_inv c -> ucall_step c l = Some c' -> ucall_inv c'.
Proof.
  destruct c as [x rep h g r]. intros [Hch Hend Hrep Hret]. cbn in *.
  destruct l, g; cbn; intros Hs; repeat case_match; simplify_eq; split; cbn; try naive_solver.
Qed.
Lemma called_inv c : called c -> ucall_inv c.
Proof.
  intros Hc. refine (rtc_invariant _ ucall_inv new_ucall _ _ c Hc); [split; naive_solver|].
  intros c1 c2 Hinv [l Hl]. by eapply ucall_step_inv.
Qed.

(** What a unary call returns: nil only when the handler answered, and then the reply is
    the handler's response; otherwise the error of the handler or that of the context.  It
    returns as soon as the goroutine is through or the context ended.  But a call that returned
    because its context ended may have its reply written later, behind its caller's back. *)
Theorem unary_call_result c : called c ->
  (ret c = Some None -> exists resp, goroutine c = REnd (inl resp) /\ reply c = Some resp) /\
  (forall e, ret c = Some (Some e) -> ctx_err c = Some e \/ goroutine c = REnd (inr e)) /\
  (ret c = None -> (exists a, goroutine c = REnd a) \/ is_Some (ctx_err c) -> exists l c', ucall_step c l = Some c' /\ is_Some (ret c')) /\
  (forall resp e, ret c = Some (Some e) -> goroutine c = RReply resp -> exists c', ucall_step c UGo = Some c' /\ reply c' = Some resp /\ ret c' = ret c).
Proof.
  intros [Hch Hend Hrep Hret]%called_inv. destruct c as [x rep h g r]. cbn in *. split_and!.
  - intros ->. destruct (Hret None eq_refl) as [(e & _ & [=])|([resp|e] & Hg & Hv)]; [|done]. exists resp. auto.
  - intros e ->. destruct (Hret (Some e) eq_refl) as [(e' & -> & [= ->])|([resp|e'] & Hg & [=])]; subst; auto.
  - intros -> [[a Ha]|[e ->]].
    + subst. destruct h as [v|]; [by exists UReceive; eauto|]. by destruct (Hend a eq_refl eq_refl).
    + exists UDone. eauto.
  - intros resp e -> ->. eauto.
Qed.
End call.

(** ** Examples *)

(** Two goroutines that dial a registered target. *)
Definition example_labels : list label :=
  [Register {["svc"]}; Dial "svc"; Dial "svc"; Step 0 false; Step 1 false; Step 1 false; Step 1 false; Step 1 false; Step 1 false;
   Step 0 false; Step 0 false; Step 0 false].
Definition run_labels (ls : list label) : option dialer := foldl (fun d l => d ≫= fun d => dial_step d l) (Some NewMemoryDialer) ls.
Lemma run_labels_dialled ls d : run_labels ls = Some d -> dialled d.
Proof.
  revert d. induction ls as [|l ls IH] using rev_ind; intros d; unfold run_labels; [by intros [= <-]; apply rtc_refl|].
  rewrite foldl_snoc. fold (run_labels ls). destruct (run_labels ls) as [d'|]; [|done]. cbn. intros Hs.
  eapply rtc_r; [by apply IH|by exists l].
Qed.
Lemma one_connection_per_target_witness : exists d, run_labels example_labels = Some d /\ made d = ["svc"] /\
  dials d = [PDone "svc" (inl 0); PDone "svc" (inl 0)] /\ NoDup (made d).
Proof.
  destruct (run_labels example_labels) as [d|] eqn:Hd; [|by vm_compute in Hd]. exists d. split; [done|].
  split; [by vm_compute in Hd; injection Hd as <-|]. split; [by vm_compute in Hd; injection Hd as <-|].
  apply (one_connection_per_target d (run_labels_dialled _ _ Hd)).
Defined.

(** A call whose context ends while the reply is on its way. *)
Definition late : ucall (Resp := nat) (E := string) := mkUCall (Some "deadline") None None (RReply 7) (Some (Some "deadline")).
Lemma late_called : called late.
Proof.
  eapply rtc_l; [by exists (UInvoked (inl 7))|]. eapply rtc_l; [by exists (UCancel "deadline")|].
  eapply rtc_l; [by exists UDone|]. apply rtc_refl.
Qed.
Lemma unary_call_result_witness : exists c', ucall_step late UGo = Some c' /\ reply c' = Some 7 /\ ret c' = Some (Some "deadline").
Proof.
  destruct (unary_call_result late late_called) as (_ & _ & _ & Hl). exact (Hl 7 "deadline" eq_refl eq_refl).
Defined.

End MemoryDialer.
