(* ===== verification/Tracing.v ===== *)
(** * Request identifiers ([tracing/reqid.go]).

    A call carries a tracing record: the identifier of the request, which stays the same along
    a chain of calls, the identifiers of the call and of its parent, and the two method names.
    The client interceptor derives a record for the call from the one of the context and writes
    it into the outgoing metadata; the server interceptor reads it back.  Parameters are gRPC's
    metadata ([GrpcMetadata]), the copy of
    [utils.CopyMetaData], [encoding/json], UUIDs and their hash, and the formatting of times. *)

From S2P Require Import Prelude GoStrings Value GrpcMetadata.

Open Scope string_scope.
Open Scope list_scope.

Module Tracing.

Record TracingInfo := mkInfo { rid : string; cid : string; pid : string; rpc : string; prpc : string }.
Definition emptyInfo : TracingInfo := mkInfo "" "" "" "" "".

Record LanxinCallStack := mkCallStack {
  ReqId : string; PRPC : string; PID : string; ID : string; RPC : string; Cid : Z; Rid : Z; CallTime : Z; Begin_ : Z; End_ : Z
}.

Definition tagRid := "rid".
Definition tagCid := "cid".
Definition tagPid := "pid".
Definition tagRpc := "rpc".
Definition tagPrpc := "prpc".
Definition tagReqSt := "reqst".
Definition tagHttpRid := "X-Request-Id".
Definition tagHttpCid := "X-Call-Id".
Definition tagHttpRpc := "X-Rpc".
Definition lanxinCallstack2 := "callstack2".

Section tracing.
Context {MD : Type} `{Metadata MD}.

(** A context: its metadata and the values of this package.  The map of the incoming metadata
    is shared with whoever asked for it ([FromIncomingContext] makes no copy). *)
Record context := mkContext {
  incoming : option MD; outgoing : option MD;
  tracingInfoCtx : option TracingInfo; methodCtx : option string; timestampCtx : option Z
}.
Definition Background : context := mkContext None None None None None.

Definition with_info (ctx : context) (i : TracingInfo) : context :=
  mkContext (incoming ctx) (outgoing ctx) (Some i) (methodCtx ctx) (timestampCtx ctx).
Definition NewOutgoingContext (ctx : context) (md : MD) : context :=
  mkContext (incoming ctx) (Some md) (tracingInfoCtx ctx) (methodCtx ctx) (timestampCtx ctx).

Definition ContextWithReqId (ctx : context) (reqId pid cid rpc prpc : string) : context :=
  with_info ctx (mkInfo reqId cid pid rpc prpc).

(** ** Reading and writing metadata *)

Definition getMdItem (md : MD) (item : string) : string := default "" (last (md_Get md item)).

Context (Unmarshal : string -> option LanxinCallStack) (Marshal : LanxinCallStack -> option string).

Definition tracingInfoFromMetadata (md : MD) : option TracingInfo :=
  if bool_decide (getMdItem md tagRid = "") then None
  else Some (mkInfo (getMdItem md tagRid) (getMdItem md tagCid) (getMdItem md tagPid) (getMdItem md tagRpc) (getMdItem md tagPrpc)).

Definition tracingInfoToMetadata (now : string) (i : TracingInfo) (md : MD) : MD :=
  foldl (fun md kv => md_Set md kv.1 [kv.2]) md
    [(tagRid, rid i); (tagCid, cid i); (tagPid, pid i); (tagRpc, rpc i); (tagPrpc, prpc i); (tagReqSt, now)].

Definition tracingInfoFromLanxinMetadata (md : MD) : option TracingInfo :=
  if bool_decide (getMdItem md "reqid" = "") then None
  else Some (mkInfo (getMdItem md "reqid") (getMdItem md tagCid) (getMdItem md tagPid) (getMdItem md tagRpc) (getMdItem md tagPrpc)).

Definition tracingInfoFromLanxinCallstack2 (md : MD) : option TracingInfo :=
  let cs2 := getMdItem md lanxinCallstack2 in
  if bool_decide (cs2 = "") then None
  else c ← Unmarshal cs2; Some (mkInfo (ReqId c) (ID c) (PID c) (RPC c) (PRPC c)).

(** The writer sets the item in the map of the incoming context: its own [md] shadows the
    argument.  The result is the incoming map afterwards. *)
Definition tracingInfoToLanxinCallstack2 (ctx : context) (i : TracingInfo) (ts : Z) : option MD :=
  match incoming ctx with
  | None => None
  | Some md =>
      if bool_decide (getMdItem md lanxinCallstack2 = "") then Some md
      else match Marshal (mkCallStack (rid i) (prpc i) (pid i) (cid i) (rpc i) 0 0 ts ts ts) with
           | None => Some md
           | Some cs2 => Some (md_Set md lanxinCallstack2 [cs2])
           end
  end.

(** The readers of [adapters], the first that succeeds. *)
Definition TracingInfoFromMetadata (ctx : context) : TracingInfo * bool :=
  match (match incoming ctx with Some md => Some md | None => outgoing ctx end) with
  | None => (emptyInfo, false)
  | Some md =>
      match tracingInfoFromMetadata md with
      | Some i => (i, true)
      | None => match tracingInfoFromLanxinMetadata md with
                | Some i => (i, true)
                | None => match tracingInfoFromLanxinCallstack2 md with
                          | Some i => (i, true)
                          | None => (emptyInfo, false)
                          end
                end
      end
  end.

Context (CopyMetaData : MD -> MD).

Definition TracingInfoToMetadata (now : string) (ctx : context) (i : TracingInfo) (ts : Z) : context :=
  let md := match outgoing ctx with None => md_empty | Some md => CopyMetaData md end in
  let md := tracingInfoToMetadata now i md in
  NewOutgoingContext (mkContext (tracingInfoToLanxinCallstack2 ctx i ts) (outgoing ctx) (tracingInfoCtx ctx)
    (methodCtx ctx) (timestampCtx ctx)) md.

(** ** A new call *)

(** [uuid]: the new identifier, unless there is none; [hash]: the first half of its MD5 sum in
    hexadecimal digits. *)
Definition ChildTracingInfo (hash : string -> string) (uuid : option string) (method : string) (i : TracingInfo) : TracingInfo :=
  let cid' := match uuid with Some u => hash u | None => "" end in
  mkInfo (if bool_decide (rid i = "") then cid' else rid i) cid' (cid i) method (rpc i).

(** The record a call starts from: that of the context, or of the last option with an
    identifier, or an empty one. *)
Definition call_info (ctx : context) (opts : list (option string)) : TracingInfo :=
  match tracingInfoCtx ctx with
  | Some i => i
  | None => match last (omap id opts) with
            | Some reqId => mkInfo reqId reqId "" "" ""
            | None => emptyInfo
            end
  end.

(** The context with which the client interceptors call on. *)
Definition RequestIdTracingClientInterceptor (hash : string -> string) (uuid : option string) (now : string) (ts : Z)
    (ctx : context) (method : string) (opts : list (option string)) : context :=
  TracingInfoToMetadata now ctx (ChildTracingInfo hash uuid method (call_info ctx opts)) ts.

(** The context with which the server interceptors call the handler. *)
Definition RequestIdTracingServerInterceptor (enterTime : Z) (ctx : context) (FullMethod : string) : context :=
  let i := match tracingInfoCtx ctx with Some i => i | None => (TracingInfoFromMetadata ctx).1 end in
  mkContext (incoming ctx) (outgoing ctx) (Some i) (Some FullMethod) (Some enterTime).

(** [HttpServerReqIdHandler]: the context of the request, when it has an identifier. *)
Definition first_header (Header : string -> list string) (k : string) : option string :=
  match Header k with [] => None | v :: _ => if bool_decide (v = "") then None else Some v end.
Definition HttpServerReqIdHandler (enterTime : Z) (ctx : context) (Header : string -> list string) (Method Path : string) : context :=
  match first_header Header tagHttpRid with
  | None => ctx
  | Some reqId =>
      let i := mkInfo reqId (default reqId (first_header Header tagHttpCid)) ""
                 (default ("/" +:+ Method +:+ Path) (first_header Header tagHttpRpc)) "" in
      mkContext (incoming ctx) (outgoing ctx) (Some i) (methodCtx ctx) (Some enterTime)
  end.

(** ** Log fields *)

Inductive field_value := VString (s : string) | VInt (n : Z) | VError (e : string).
Notation Field := (string * field_value)%type.

Context (getTimeMsString : Z -> Z -> string).

(** [err]: none, a gRPC status with the name of its code, or another error. *)
Definition genRpcCallFields (server : bool) (enter leave : Z) (err : option (string + string)) : list Field :=
  [("term", VString (if server then "server" else "client"));
   ("code", match err with None => VString "OK" | Some (inl code) => VString code | Some (inr e) => VError e end);
   ("enter", VInt enter); ("leave", VInt leave); ("real", VString (getTimeMsString enter leave))].

Definition or_dash (s : string) : field_value := VString (if bool_decide (s = "") then "-" else s).
Definition tracingInfoFields (i : TracingInfo) (timestamp now : Z) : list Field :=
  if bool_decide (rid i = "") then []
  else [("reqid", or_dash (rid i)); ("cid", or_dash (cid i)); ("pid", or_dash (pid i)); ("rpc", or_dash (rpc i));
        ("prpc", or_dash (prpc i)); ("tc", VString (getTimeMsString timestamp now))].
Definition genContextFields (ctx : context) (now : Z) : list Field :=
  match tracingInfoCtx ctx with
  | None => []
  | Some i => tracingInfoFields i (default 0%Z (timestampCtx ctx)) now
  end.

End tracing.
Arguments context : clear implicits.

(** ** Chains of calls *)

Section chains.
Context {MD : Type} `{MetadataLaws MD}.
Context (Unmarshal : string -> option LanxinCallStack) (Marshal : LanxinCallStack -> option string)
  (CopyMetaData : MD -> MD) (hash : string -> string).

Notation ToMetadata := (TracingInfoToMetadata Marshal CopyMetaData).

Lemma getMdItem_Set md k v k' : getMdItem (md_Set md k [v]) k' = if decide (k = k') then v else getMdItem md k'.
Proof. unfold getMdItem. rewrite md_Get_Set. by case_decide. Qed.

(** What is written is read back. *)
Lemma tracing_metadata_roundtrip now i md : rid i <> "" ->
  tracingInfoFromMetadata (tracingInfoToMetadata now i md) = Some i.
Proof.
  intros Hi. unfold tracingInfoToMetadata, tracingInfoFromMetadata. cbn [foldl fst snd].
  rewrite !getMdItem_Set. repeat (case_decide; [discriminate|] || (rewrite decide_True by done)).
  rewrite bool_decide_eq_false_2 by done. by destruct i.
Qed.

(** One call: the client's interceptor, the wire, the server's interceptor. *)
Record hop := mkHop { h_method : string; h_uuid : option string; h_opts : list (option string); h_now : string; h_ts : Z; h_enter : Z }.
Definition hop_step (ctx : context MD) (h : hop) : context MD :=
  let c := RequestIdTracingClientInterceptor Marshal CopyMetaData hash (h_uuid h) (h_now h) (h_ts h) ctx (h_method h) (h_opts h) in
  RequestIdTracingServerInterceptor Unmarshal (h_enter h) (mkContext (outgoing c) None None None None) (h_method h).
Definition chain (ctx : context MD) (hs : list hop) : context MD := foldl hop_step ctx hs.

Definition child (i : TracingInfo) (h : hop) : TracingInfo := ChildTracingInfo hash (h_uuid h) (h_method h) i.

Lemma child_rid i h : rid i <> "" -> rid (child i h) = rid i.
Proof. intros Hi. unfold child, ChildTracingInfo. cbn. by rewrite bool_decide_eq_false_2. Qed.

Lemma hop_step_info ctx h : rid (child (call_info ctx (h_opts h)) h) <> "" ->
  tracingInfoCtx (hop_step ctx h) = Some (child (call_info ctx (h_opts h)) h).
Proof.
  intros Hr. unfold hop_step, RequestIdTracingClientInterceptor, TracingInfoToMetadata, NewOutgoingContext.
  cbn [outgoing]. unfold RequestIdTracingServerInterceptor. cbn [tracingInfoCtx incoming]. unfold TracingInfoFromMetadata.
  cbn [incoming outgoing]. by rewrite tracing_metadata_roundtrip.
Qed.

Lemma children_rid hs : forall i, rid i <> "" -> rid (foldl child i hs) = rid i.
Proof.
  induction hs as [|h hs IH]; intros i Hi; cbn [foldl]; [done|]. rewrite IH; rewrite child_rid; done.
Qed.

(** A request keeps its identifier along a chain of calls.  When a request arrives with a
    tracing record that has an identifier, then after any number of calls from service to
    service, each handled with the context its server interceptor made, the record has the
    identifier of the request; its method is that of the last call, and its parent's identifier
    and method are those of the record of the service that made this call. *)
Theorem request_id_follows_chain (ctx : context MD) (i : TracingInfo) (hs : list hop) (h : hop) :
  tracingInfoCtx ctx = Some i -> rid i <> "" ->
  exists caller callee,
    tracingInfoCtx (chain ctx hs) = Some caller /\ tracingInfoCtx (chain ctx (hs ++ [h])) = Some callee /\
    rid callee = rid i /\ rpc callee = h_method h /\ pid callee = cid caller /\ prpc callee = rpc caller /\
    cid callee = from_option hash "" (h_uuid h) /\ methodCtx (chain ctx (hs ++ [h])) = Some (h_method h).
Proof.
  intros Hi Hr. assert (Hchain : forall hs, tracingInfoCtx (chain ctx hs) = Some (foldl child i hs)).
  { induction hs0 as [|h' hs' IH] using rev_ind; [done|]. unfold chain in *. rewrite !foldl_snoc.
    rewrite hop_step_info; unfold call_info; rewrite IH; [done|]. by rewrite child_rid, children_rid; rewrite ?children_rid. }
  exists (foldl child i hs), (foldl child i (hs ++ [h])). split_and!; [apply Hchain|apply Hchain| | | | | |].
  - by apply children_rid.
  - by rewrite foldl_snoc.
  - by rewrite foldl_snoc.
  - by rewrite foldl_snoc.
  - rewrite foldl_snoc. cbn. by destruct (h_uuid h).
  - unfold chain. by rewrite foldl_snoc.
Qed.

(** The callstack is written into the incoming metadata only: the outgoing item is the copied
    one, whatever the record. *)
Lemma callstack2_not_forwarded (now : string) (ctx : context MD) (i : TracingInfo) (ts : Z) :
  from_option (fun md => md_Get md lanxinCallstack2) [] (outgoing (ToMetadata now ctx i ts)) =
  from_option (fun md => md_Get (CopyMetaData md) lanxinCallstack2) [] (outgoing ctx).
Proof.
  unfold TracingInfoToMetadata, NewOutgoingContext, tracingInfoToMetadata. cbn [outgoing from_option foldl fst snd].
  rewrite !md_Get_Set. repeat (case_decide; [discriminate|]). destruct (outgoing ctx); cbn; [done|apply md_Get_empty].
Qed.

End chains.

(** An HTTP request with an identifier, and two calls. *)
Definition example_ctx : context (gmap string (list string)) :=
  HttpServerReqIdHandler 0 Background (fun k => if decide (k = tagHttpRid) then ["r1"] else []) "GET" "/a".
Definition example_hop (m u : string) : hop := mkHop m (Some u) [] "0" 0 0.

Lemma request_id_follows_chain_witness :
  exists caller callee,
    tracingInfoCtx (chain (fun _ => None) (fun _ => None) (fun md => md) (fun u => u) example_ctx [example_hop "/s/M" "u1"]) = Some caller /\
    tracingInfoCtx (chain (fun _ => None) (fun _ => None) (fun md => md) (fun u => u) example_ctx
      ([example_hop "/s/M" "u1"] ++ [example_hop "/t/N" "u2"])) = Some callee /\
    rid callee = "r1" /\ rpc callee = "/t/N" /\ pid callee = cid caller /\ prpc callee = rpc caller /\ cid callee = "u2" /\
    methodCtx (chain (fun _ => None) (fun _ => None) (fun md => md) (fun u => u) example_ctx
      ([example_hop "/s/M" "u1"] ++ [example_hop "/t/N" "u2"])) = Some "/t/N".
Proof.
  apply (request_id_follows_chain (fun _ => None) (fun _ => None) (fun md => md) (fun u => u) example_ctx
    (mkInfo "r1" "r1" "" "/GET/a" "") [example_hop "/s/M" "u1"] (example_hop "/t/N" "u2")); [vm_compute; reflexivity|done].
Defined.

End Tracing.
