(* ===== verification/SpanTags.v ===== *)
(** * Tags of spans ([tracing/tracer.go]).

    The interceptors put a map of tags into the context, and a decorator copies the map into the
    span when the call has ended.  The map is reached through the context, and an outgoing call
    made with the context of a handler finds the map of the handler: maps are kept in a store
    and a context holds a pointer.  Spans, and when their decorators are called, are those of
    the opentracing interceptors; a unary span is decorated when its call has returned. *)

From Stdlib Require Import Ascii.
From S2P Require Import Prelude GoStrings GrpcMetadata.

Open Scope string_scope.
Open Scope list_scope.

Module SpanTags.

Inductive tag := TagBool (b : bool) | TagText (s : string) | TagOther (n : nat).
Notation tags := (gmap string tag).
Notation store := (gmap nat tags).

Definition targetMeta : string := "x-grpc-target".

Section tracing.
Context {MD : Type} `{Metadata MD}.

(** The value under [TracerTagContext] and the incoming metadata. *)
Record context := mkContext { tag_map : option nat; incoming : option MD }.

Definition serviceAliasName (ctx : context) (fullMethod : string) : string :=
  match incoming ctx with
  | None => fullMethod
  | Some md =>
      match last (md_Get md targetMeta) with
      | None => fullMethod
      | Some target => match Split "/" fullMethod with [_; _; m] => "/" +:+ target +:+ "/" +:+ m | _ => fullMethod end
      end
  end.

(** A context keeps the map it has. *)
Definition tracerTagContext (ctx : context) (s : store) : context * store :=
  match tag_map ctx with
  | Some _ => (ctx, s)
  | None => let l := fresh (dom s) in (mkContext (Some l) (incoming ctx), <[l := ∅]> s)
  end.

Definition SetSpanTag (ctx : context) (k : string) (v : tag) (s : store) : store :=
  match tag_map ctx with Some l => alter (insert k v) l s | None => s end.

Definition setAdditionalUnarySpanTag (ctx : context) (methodName : string) (inMemory : bool) (s : store) : store :=
  let s := if inMemory then SetSpanTag ctx "in_memory_invoke" (TagBool true) s else s in
  SetSpanTag ctx "alias" (TagText (serviceAliasName ctx methodName)) (SetSpanTag ctx "type" (TagText "unary") s).
Definition setAdditionalStreamSpanTag (ctx : context) (methodName : string) (serverStream clientStream inMemory : bool) (s : store) : store :=
  let s := if inMemory then SetSpanTag ctx "in_memory_invoke" (TagBool true) s else s in
  let type := if serverStream && clientStream then "bidi_stream" else if serverStream then "server_stream" else "client_stream" in
  SetSpanTag ctx "alias" (TagText (serviceAliasName ctx methodName)) (SetSpanTag ctx "type" (TagText type) s).

(** [spanTagDecorator]: the tags that a span gets. *)
Definition spanTagDecorator (ctx : context) (s : store) : tags := match tag_map ctx with Some l => default ∅ (s !! l) | None => ∅ end.

(** The interceptors that come before those of opentracing. *)
Definition tracerTagUnaryClientInterceptor (inMemory : bool) (ctx : context) (method : string) (s : store) : context * store :=
  let (ctx, s) := tracerTagContext ctx s in (ctx, setAdditionalUnarySpanTag ctx method inMemory s).
Definition tracerTagServerClientInterceptor (inMemory : bool) (ctx : context) (method : string) (serverStream clientStream : bool) (s : store) : context * store :=
  let (ctx, s) := tracerTagContext ctx s in (ctx, setAdditionalStreamSpanTag ctx method serverStream clientStream inMemory s).
Definition tracerTagUnaryServerInterceptor (ctx : context) (method : string) (s : store) : context * store :=
  let (ctx, s) := tracerTagContext ctx s in (ctx, setAdditionalUnarySpanTag ctx method false s).
Definition tracerTagStreamServerInterceptor (ctx : context) (method : string) (serverStream clientStream : bool) (s : store) : context * store :=
  let (ctx, s) := tracerTagContext ctx s in (ctx, setAdditionalStreamSpanTag ctx method serverStream clientStream false s).

(** ** A call and the calls its handler makes *)

(** What a handler does: set a tag of its own, or make a unary call, with its own context or
    with one that has no tags. *)
Inductive act := SetTag (k : string) (v : tag) | CallOut (own : bool) (method : string).

(** The spans that have ended, with their tags. *)
Definition spans : Type := list (string * tags).

Definition do_act (ctx : context) (a : act) (st : store * spans) : store * spans :=
  let (s, ended) := st in
  match a with
  | SetTag k v => (SetSpanTag ctx k v s, ended)
  | CallOut own method =>
      let (ctx', s) := tracerTagUnaryClientInterceptor false (if own then ctx else mkContext None None) method s in
      (s, ended ++ [(method, spanTagDecorator ctx' s)])
  end.

(** The server's side of a unary call: the span of the call ends last. *)
Definition serve (ctx : context) (method : string) (handler : list act) (s : store) : store * spans :=
  let (ctx, s) := tracerTagUnaryServerInterceptor ctx method s in
  let (s, ended) := foldl (fun st a => do_act ctx a st) (s, []) handler in
  (s, ended ++ [(method, spanTagDecorator ctx s)]).

(** ** Whose tags a span gets *)

(** What an action makes of the tag [alias] of the handler's map. *)
Definition alias_after (ctx : context) (a : act) (v : tag) : tag :=
  match a with
  | SetTag k v' => if decide (k = "alias") then v' else v
  | CallOut true method => TagText (serviceAliasName ctx method)
  | CallOut false _ => v
  end.

Lemma act_keeps_alias ctx l a st v : tag_map ctx = Some l -> (st.1 : store) !! l ≫= (.!! "alias") = Some v ->
  ((do_act ctx a st).1 : store) !! l ≫= (.!! "alias") = Some (alias_after ctx a v).
Proof.
  intros Hl Hv. destruct st as [s ended]. cbn in Hv. destruct (s !! l) as [m|] eqn:Es; [|done]. cbn in Hv.
  destruct a as [k v'|[] method]; cbn.
  - unfold SetSpanTag. rewrite Hl, lookup_alter_eq, Es. cbn. rewrite lookup_insert_case. by repeat case_decide.
  - unfold tracerTagUnaryClientInterceptor, tracerTagContext. rewrite Hl. cbn. unfold setAdditionalUnarySpanTag, SetSpanTag. cbn. rewrite Hl, !lookup_alter_eq, Es. cbn.
    by rewrite lookup_insert_eq.
  - unfold tracerTagUnaryClientInterceptor, tracerTagContext. cbn. unfold setAdditionalUnarySpanTag, SetSpanTag. cbn.
    assert (Hne : fresh (dom s) <> l) by (intros Hf; apply (is_fresh (dom s)); rewrite Hf; by apply elem_of_dom).
    rewrite !lookup_alter_ne, lookup_insert_ne by done. rewrite Es. exact Hv.
Qed.

(** Tags are shared.  The span of a call whose context came without tags gets as its alias
    what its handler's actions leave: the alias of the last outgoing call that was made with
    the handler's own context, unless the handler sets the tag itself afterwards; its own
    alias, if no such call was made. *)
Theorem alias_of_last_call (ctx : context) (method : string) (handler : list act) (s : store) :
  tag_map ctx = None ->
  exists t, last (serve ctx method handler s).2 = Some (method, t) /\
    t !! "alias" = Some (foldl (fun v a => alias_after ctx a v) (TagText (serviceAliasName ctx method)) handler).
Proof.
  intros Hn. unfold serve, tracerTagUnaryServerInterceptor, tracerTagContext. rewrite Hn. set (l := fresh (dom s)).
  set (ctx' := mkContext (Some l) (incoming ctx)). set (s0 := setAdditionalUnarySpanTag ctx' method false (<[l := ∅]> s)).
  assert (H0 : s0 !! l ≫= (.!! "alias") = Some (TagText (serviceAliasName ctx method))).
  { unfold s0, setAdditionalUnarySpanTag, SetSpanTag, ctx'. cbn. rewrite !lookup_alter_eq, lookup_insert_eq. cbn. by rewrite lookup_insert_eq. }
  assert (Hrun : forall acts st v, ((st.1 : store) !! l ≫= (.!! "alias")) = Some v ->
    ((foldl (fun st a => do_act ctx' a st) st acts).1 : store) !! l ≫= (.!! "alias") = Some (foldl (fun v a => alias_after ctx a v) v acts)).
  { induction acts as [|a acts IH]; intros st v Hv; [done|]. cbn [foldl]. apply IH.
    change (alias_after ctx a v) with (alias_after ctx' a v). by apply act_keeps_alias. }
  specialize (Hrun handler (s0, []) _ H0). destruct (foldl (fun st a => do_act ctx' a st) (s0, []) handler) as [s1 ended]. cbn in Hrun |- *.
  destruct (s1 !! l) as [t|] eqn:Es; [|done]. exists t. rewrite last_snoc. by split.
Qed.

End tracing.

Definition example_context : context (MD := gmap string (list string)) := mkContext None None.

(** A server that calls another one reports the other's method. *)
Lemma alias_of_last_call_witness :
  exists t, last (serve example_context "/pkg.A/Get" [CallOut true "/pkg.B/List"; CallOut false "/pkg.C/Put"] ∅).2 = Some ("/pkg.A/Get", t) /\
    t !! "alias" = Some (TagText "/pkg.B/List").
Proof.
  destruct (alias_of_last_call example_context "/pkg.A/Get" [CallOut true "/pkg.B/List"; CallOut false "/pkg.C/Put"] ∅ eq_refl) as (t & Hl & Ht).
  exists t. split; [exact Hl|]. rewrite Ht. reflexivity.
Defined.

End SpanTags.
