(* ===== verification/CallContext.v ===== *)
(** * What callers put into the context of a call: the options of asynchronous calls
    ([async/async.go], [async/option.go]) and the key of consistent hashing
    ([balancer/hash_key.go]). *)

From Stdlib Require Import Ascii.
From S2P Require Import Prelude GoInt GoStrings Value GrpcMetadata.

Open Scope string_scope.
Open Scope list_scope.

(** ** Asynchronous calls *)

Module Async.

Definition NoRetry : Z := 0.
Definition DefaultRetry : Z := 1.
Definition ForeverRetry : Z := 2.
Definition CustomizedRetry : Z := 3.

(** [codes.DeadlineExceeded], [codes.Unavailable] *)
Definition defaultRetryCodes : list Z := [4; 14]%Z.

Definition targetKey : string := "x-async-target".
Definition requestTimeoutKey : string := "x-async-timeout".
Definition shardingKeyKey : string := "x-async-sharding-key".
Definition clusterKey : string := "x-async-cluster".
Definition retryModeKey : string := "x-async-retry-mode".
Definition retryCodesKey : string := "x-async-retry-codes".
Definition retryMaxRetriesKey : string := "x-async-retry-max-retries".
Definition retryIntervalKey : string := "x-async-retry-interval".
Definition retryMaxIntervalKey : string := "x-async-retry-max-interval".
Definition retryIntervalProgressiveKey : string := "x-async-retry-interval-progressive".

Record RetryPolicy := mkRetryPolicy { maxRetries : Z; retryInterval : Z; maxInterval : Z; intervalProgressive : bool }.
Record Options := mkOptions {
  retryMode : Z; customCodes : bool; retryCodes : list Z; retryPolicy : RetryPolicy; requestTimeout : Z; shardingKey : string; cluster : string
}.
Definition zeroOptions : Options := mkOptions 0 false [] (mkRetryPolicy 0 0 0 false) 0 "" "".

Definition WithRetryMode (mode : Z) (o : Options) : Options :=
  mkOptions mode (customCodes o) (retryCodes o) (retryPolicy o) (requestTimeout o) (shardingKey o) (cluster o).
Definition WithRequestTimeout (tc : Z) (o : Options) : Options :=
  mkOptions (retryMode o) (customCodes o) (retryCodes o) (retryPolicy o) tc (shardingKey o) (cluster o).
Definition WithShardingkey (key : string) (o : Options) : Options :=
  mkOptions (retryMode o) (customCodes o) (retryCodes o) (retryPolicy o) (requestTimeout o) key (cluster o).
Definition WithCluster (clusterName : string) (o : Options) : Options :=
  mkOptions (retryMode o) (customCodes o) (retryCodes o) (retryPolicy o) (requestTimeout o) (shardingKey o) clusterName.
Definition WithCustomRetryCode (codes : list Z) (o : Options) : Options :=
  mkOptions (retryMode o) true codes (retryPolicy o) (requestTimeout o) (shardingKey o) (cluster o).
Definition WithCustomRetryPolicy (retries interval most : Z) (progressive : bool) (o : Options) : Options :=
  mkOptions (retryMode o) (customCodes o) (retryCodes o) (mkRetryPolicy retries interval most progressive) (requestTimeout o) (shardingKey o) (cluster o).

Section metadata.
Context {MD : Type} `{Metadata MD}.

Definition numeral (n : Z) : list string := [Value.FormatInt n].

Definition policy_applyToMetadata (p : RetryPolicy) (md : MD) : MD :=
  let md := md_Set md retryMaxRetriesKey (numeral (maxRetries p)) in
  let md := md_Set md retryIntervalKey (numeral (retryInterval p)) in
  let md := md_Set md retryMaxIntervalKey (numeral (maxInterval p)) in
  md_Set md retryIntervalProgressiveKey [if intervalProgressive p then "true" else "false"].

Definition codes_of (o : Options) : list Z := if customCodes o then retryCodes o else defaultRetryCodes.

Definition applyToMetadata (o : Options) (md : MD) : MD :=
  let md := md_Set md retryModeKey (numeral (retryMode o)) in
  let md := md_Set md retryCodesKey (Value.FormatInt <$> codes_of o) in
  let md := md_Set md shardingKeyKey [shardingKey o] in
  let md := md_Set md clusterKey [cluster o] in
  let md := if decide (retryMode o = CustomizedRetry) then policy_applyToMetadata (retryPolicy o) md else md in
  if (0 <? requestTimeout o)%Z then md_Set md requestTimeoutKey (numeral (requestTimeout o)) else md.

(** [AsyncUnaryClientInterceptor]: the outgoing metadata of the call; [None]: the context has none. *)
Definition outgoing (target : string) (o : Options) (md : option MD) : MD :=
  applyToMetadata o (md_Set (default md_empty md) targetKey [target]).

(** *** Reading the metadata back, as the proxy does that makes the call *)

Definition read_int (md : MD) (k : string) : option Z :=
  match md_Get md k with [v] => Value.ParseInt 32 v | _ => None end.
Definition read_text (md : MD) (k : string) : option string := match md_Get md k with [v] => Some v | _ => None end.
Definition read_codes (md : MD) : option (list Z) := mapM (Value.ParseInt 32) (md_Get md retryCodesKey).

Definition int32 (n : Z) : Prop := inS 32 n.
Definition wf_options (o : Options) : Prop :=
  int32 (retryMode o) /\ Forall int32 (retryCodes o) /\ int32 (requestTimeout o) /\
  int32 (maxRetries (retryPolicy o)) /\ int32 (retryInterval (retryPolicy o)) /\ int32 (maxInterval (retryPolicy o)).

Context `{!MetadataLaws MD}.

Ltac get_set := rewrite ?md_Get_Set; repeat (rewrite decide_False by done); rewrite ?decide_True by done.

(** The options of an asynchronous call arrive.  Whatever metadata the caller's context has,
    the metadata of the call gives back the target, the mode, the codes to retry on, the key
    and the cluster, the request timeout if it is positive, and, in the customized mode, the
    policy. *)
Theorem async_options_arrive (target : string) (o : Options) (md : option MD) : wf_options o ->
  let out := outgoing target o md in
  read_text out targetKey = Some target /\ read_int out retryModeKey = Some (retryMode o) /\ read_codes out = Some (codes_of o) /\
  read_text out shardingKeyKey = Some (shardingKey o) /\ read_text out clusterKey = Some (cluster o) /\
  ((0 < requestTimeout o)%Z -> read_int out requestTimeoutKey = Some (requestTimeout o)) /\
  (retryMode o = CustomizedRetry ->
    read_int out retryMaxRetriesKey = Some (maxRetries (retryPolicy o)) /\ read_int out retryIntervalKey = Some (retryInterval (retryPolicy o)) /\
    read_int out retryMaxIntervalKey = Some (maxInterval (retryPolicy o)) /\
    read_text out retryIntervalProgressiveKey = Some (if intervalProgressive (retryPolicy o) then "true" else "false")).
Proof.
  intros (Hm & Hc & Ht & Hr & Hi & Hx) out. unfold out, outgoing, applyToMetadata, read_text, read_int, read_codes, policy_applyToMetadata, numeral.
  assert (Hcodes : mapM (Value.ParseInt 32) (Value.FormatInt <$> codes_of o) = Some (codes_of o)).
  { assert (Hf : Forall int32 (codes_of o)).
    { unfold codes_of. destruct (customCodes o); [done|]. unfold defaultRetryCodes, int32, inS. repeat constructor; lia. }
    induction Hf as [|n l Hn _ IH]; [done|]. cbn [fmap list_fmap mapM]. rewrite Value.ParseInt_FormatInt by (lia || done). cbn. by rewrite IH. }
  assert (Hz : (0 < requestTimeout o)%Z -> (0 <? requestTimeout o)%Z = true) by (intros; by apply Z.ltb_lt).
  split_and!; [..|intros ->%Hz|intros Hcust].
  6: repeat case_decide; get_set; by rewrite Value.ParseInt_FormatInt by (lia || done).
  6: rewrite (decide_True _ _ Hcust); split_and!.
  all: repeat (case_decide; [|done] || case_decide); destruct (0 <? requestTimeout o)%Z; get_set; rewrite ?Value.ParseInt_FormatInt by (lia || done); done.
Qed.

End metadata.

End Async.

(** Keys of an earlier call in the caller's context stay if the new call does not set them. *)
Example stale_policy :
  let first := Async.outgoing "a" (Async.WithRetryMode Async.CustomizedRetry (Async.WithCustomRetryPolicy 5 1 2 true Async.zeroOptions)) (None : option (gmap string (list string))) in
  let second := Async.outgoing "b" (Async.WithRetryMode Async.NoRetry Async.zeroOptions) (Some first) in
  Async.read_int second Async.retryModeKey = Some 0%Z /\ Async.read_int second Async.retryMaxRetriesKey = Some 5%Z.
Proof. split; vm_compute; reflexivity. Qed.

Lemma async_options_arrive_witness :
  let o := Async.WithRequestTimeout 30 (Async.WithCustomRetryCode [4; 13]%Z (Async.WithCluster "east" Async.zeroOptions)) in
  Async.read_codes (Async.outgoing "target" o (None : option (gmap string (list string)))) = Some [4; 13]%Z /\
  Async.read_int (Async.outgoing "target" o (None : option (gmap string (list string)))) Async.requestTimeoutKey = Some 30%Z.
Proof.
  intros o. destruct (Async.async_options_arrive "target" o (None : option (gmap string (list string)))) as (_ & _ & Hc & _ & _ & Ht & _).
  - unfold Async.wf_options, Async.int32, inS, o. cbn. split_and!; try lia. repeat constructor; lia.
  - split; [exact Hc|]. apply Ht. cbn. lia.
Defined.

(** ** Keys of consistent hashing *)

Module HashKey.

(** The dynamic type of the value; [KOther] is every other one, with its text. *)
Inductive key := KNil | KString (s : string) | KInt (n : Z) | KUint64 (n : Z) | KOther (text : string).

(** The value under [consistHashKey]. *)
Definition WithConsistHashKey (id : key) (ctx : key) : key := id.

(** The cases for the integer types before [uint64] are empty: they do not fall through. *)
Definition ConsistHashKey (ctx : key) : string :=
  match ctx with
  | KString v => v
  | KInt _ => ""
  | KUint64 v => Value.FormatUint (wrapU 64 v)
  | KNil => ""
  | KOther text => text
  end.

(** Calls whose keys are integers of another type than [uint64] all have the same key. *)
Lemma integers_collapse n n' : ConsistHashKey (KInt n) = ConsistHashKey (KInt n').
Proof. done. Qed.

End HashKey.
