(* ===== verification/Discovery.v ===== *)
(** * Service discovery ([registry/discovery.go], [registry/meta.go], [registry/utils.go]).

    A discovery keeps, for each gRPC service, a picker over the addresses of its instances, and
    one path matcher for the HTTP rules of all instances; both follow the changes a registry
    reports.  It is modelled with the provider of [DefaultDiscovery]: a round-robin picker that
    leaves out the addresses reported down.  Parameters are [encoding/json], [crypto/md5],
    [utils.CreateHeaderRegexMap] and the header matchers of [utils] (which the repository does
    not contain), the order in which Go ranges over the rules, and the random choice between
    matching rules. *)

From stdpp Require Import sorting.
From S2P Require Import Prelude GoStrings PathMatcher Balancer MemoryRegistry.
From Stdlib Require Import Ascii.

Open Scope string_scope.
Open Scope list_scope.

Module Discovery.
Import PathMatcher.

(** ** Metadata of an instance *)

Record HttpRule := mkHttpRule {
  HttpPatterns : list string; HeaderMap : list (gmap string string); HeaderRegexMap : list (gmap string string)
}.

(** A rule of the list may be nil. *)
Record Meta := mkMeta {
  TlsServer : bool; MetaPatterns : list string; Version : Z; Type_ : Z; HttpRules : list (option HttpRule)
}.

Definition CurrentVersion : Z := 3.
Definition RegistryType_Grpc : Z := 1.
Definition RegistryType_Http : Z := 2.
Definition RegistryType_Http_Endpoint : Z := 3.

(** [Instance]: [None] is metadata that is not a string. *)
Record Instance := mkInstance { iaddr : string; imeta : option string }.
Record Entry := mkEntry { ServiceName : string; Instances : list Instance }.

Section json.
Context (Marshal : Meta -> option string) (Unmarshal : string -> option Meta).

Definition MarshalRegistryMeta (m : Meta) : option string :=
  Marshal (mkMeta (TlsServer m) (MetaPatterns m) CurrentVersion (Type_ m) (HttpRules m)).
Definition UnmarshalRegistryMeta (jsonMeta : string) : option Meta :=
  m ← Unmarshal jsonMeta;
  Some (if (Version m =? 0)%Z then mkMeta (TlsServer m) (MetaPatterns m) 1 (Type_ m) (HttpRules m) else m).

(** [ResolveWithTls] *)
Definition ResolveWithTls (tls : bool) (instance : Instance) : bool :=
  match imeta instance ≫= UnmarshalRegistryMeta with
  | None => true
  | Some meta => Bool.eqb (TlsServer meta) tls
  end.
End json.

(** ** State *)

Record AddressInfo := mkAddressInfo { addr : string; tls : bool }.

(** What a picker sees of an address: [Address()] and [Connected()]. *)
Definition picker_info (a : AddressInfo) : Balancer.AddressInfo := mkInfo (mkAddress (addr a) "") true.

(** A picker: its addresses, and the state of the round robin. *)
Record entry := mkPicker { addrs : list AddressInfo; next : nat }.
Definition BuildPicker (l : list AddressInfo) : entry := mkPicker l 0.

Record httpRule := mkRule {
  patterns : list string; headerMap : list (gmap string string); headerRegexMap : list (gmap string string); rpicker : entry
}.

Definition rule_HeaderMaps (r : httpRule) : option (list (gmap string string) * list (gmap string string)) :=
  Some (headerMap r, headerRegexMap r).
Definition rule_Priority (r : httpRule) : option Z :=
  Some (match headerMap r, headerRegexMap r with [], [] => 0 | _, _ => 1 end)%Z.

Record downAddrInfo := mkDown { downSince : Z; retryTimes : Z }.

(** Rules are shared by pointer between the patterns of the matcher; the matcher holds their
    keys, and [rules] what they point to. *)
Record discovery := mkDiscovery {
  httpMatcher : PathMatcher string;
  rules : gmap string httpRule;
  httpMatcherUpdateFlag : bool;
  grpcEntries : gmap string entry;
  grpcServices : gmap string (list Instance);
  downList : gmap string downAddrInfo
}.

Definition isAddressAvailable (d : discovery) (a : Balancer.AddressInfo) : bool :=
  bool_decide (downList d !! Addr (Balancer.addr a) = None).

(** [Pick] of an entry: the address given, and the entry after it. *)
Definition pick (d : discovery) (e : entry) : option AddressInfo * entry :=
  let '(i, n) := RoundRobin.RoundRobin_Pick (Some (isAddressAvailable d)) (next e) (picker_info <$> addrs e) in
  (i ≫= fun i => addrs e !! i, mkPicker (addrs e) n).

Section discovery.
Context (Unmarshal : string -> option Meta).

(** ** gRPC entries *)

(** The loop over the instances: those that serve gRPC, with TLS or not. *)
Definition grpc_addr (serviceName : string) (instance : Instance) : option AddressInfo :=
  match imeta instance ≫= UnmarshalRegistryMeta Unmarshal with
  | None => Some (mkAddressInfo (iaddr instance) false)
  | Some meta =>
      if ((Version meta <? 2)%Z && HasPrefix serviceName "http.server@registry") ||
         ((2 <=? Version meta)%Z && (Type_ meta =? RegistryType_Http)%Z)
      then None
      else Some (mkAddressInfo (iaddr instance) (TlsServer meta))
  end.

Definition updateGrpcEntries (d : discovery) (serviceName : string) (instances : list Instance) : discovery :=
  match instances with
  | [] => d
  | _ =>
      let instances := instances ++ default [] (grpcServices d !! serviceName) in
      mkDiscovery (httpMatcher d) (rules d) (httpMatcherUpdateFlag d)
        (<[serviceName := BuildPicker (omap (grpc_addr serviceName) instances)]> (grpcEntries d))
        (<[serviceName := instances]> (grpcServices d)) (downList d)
  end.

Definition deleteGrpcEntries (d : discovery) (serviceName : string) (instances : list Instance) : discovery :=
  match instances with
  | [] => d
  | _ =>
      let remains := filter (fun p => iaddr p ∉ iaddr <$> instances) (default [] (grpcServices d !! serviceName)) in
      let l := omap (grpc_addr serviceName) remains in
      mkDiscovery (httpMatcher d) (rules d) (httpMatcherUpdateFlag d)
        (match l with [] => delete serviceName (grpcEntries d) | _ => <[serviceName := BuildPicker l]> (grpcEntries d) end)
        (<[serviceName := remains]> (grpcServices d)) (downList d)
  end.

Definition set_flag (d : discovery) (b : bool) : discovery :=
  mkDiscovery (httpMatcher d) (rules d) b (grpcEntries d) (grpcServices d) (downList d).

Definition OnUpdate (d : discovery) (serviceName : string) (instances : list Instance) : discovery :=
  updateGrpcEntries (set_flag d true) serviceName instances.
Definition OnDelete (d : discovery) (serviceName : string) (instances : list Instance) : discovery :=
  deleteGrpcEntries (set_flag d true) serviceName instances.

(** ** HTTP rules *)

Context (CreateHeaderRegexMap : gmap string string -> option (gmap string string * gmap string string)).
Context (md5_Sum : string -> string).
Context (range : gmap string httpRule -> list (string * httpRule)).

(** [generateKey]: the patterns are sorted in place. *)
Definition generateKey (r : HttpRule) : option (string * httpRule) :=
  let ps := merge_sort String.le (HttpPatterns r) in
  ms ← mapM CreateHeaderRegexMap (HeaderRegexMap r);
  Some (md5_Sum (Join ps "," +:+ "|" +:+ header_key (HeaderMap r) +:+ "|" +:+ header_key ms.*2),
        mkRule ps (HeaderMap r) ms.*1 (BuildPicker [])).

(** [AddHttpRule]; the map is unchanged when it returns an error. *)
Definition AddHttpRule (m : gmap string httpRule) (r : option HttpRule) (a : AddressInfo) : gmap string httpRule :=
  match r ≫= generateKey with
  | None => m
  | Some (k, fresh) =>
      let rule := default fresh (m !! k) in
      <[k := mkRule (patterns rule) (headerMap rule) (headerRegexMap rule)
               (BuildPicker (addrs (rpicker rule) ++ [a]))]> m
  end.

(** The HTTP rules an instance of a service stands for. *)
Definition instance_rules (serviceName : string) (meta : Meta) : list (option HttpRule) :=
  (if ((Version meta <? 2)%Z && HasPrefix serviceName "http.server@registry") ||
      ((Version meta =? 2)%Z && (Type_ meta =? RegistryType_Http)%Z)
   then [Some (mkHttpRule (MetaPatterns meta) [] [])] else []) ++
  (if (Version meta <? 2)%Z && negb (HasPrefix serviceName "http.server@registry")
   then [Some (mkHttpRule (RegistryWithPath ["*"] ("/" +:+ serviceName +:+ "/*")) [] [])] else []) ++
  (if (Version meta =? 3)%Z && (Type_ meta =? RegistryType_Http)%Z then HttpRules meta else []) ++
  (if (Version meta =? 3)%Z && (Type_ meta =? RegistryType_Http_Endpoint)%Z
   then [Some (mkHttpRule (RegistryWithPath ["*"] ("/" +:+ TrimSuffix serviceName ".http.endpoint" +:+ "/*")) [] [])]
   else []).

Definition instance_step (serviceName : string) (m : gmap string httpRule) (instance : Instance) : gmap string httpRule :=
  match imeta instance ≫= UnmarshalRegistryMeta Unmarshal with
  | None => m
  | Some meta =>
      foldl (fun m r => AddHttpRule m r (mkAddressInfo (iaddr instance) (TlsServer meta))) m (instance_rules serviceName meta)
  end.
Definition rule_map (entries : list Entry) : gmap string httpRule :=
  foldl (fun m e => foldl (instance_step (ServiceName e)) m (Instances e)) ∅ entries.

(** The registrations with the new matcher, in order. *)
Definition rule_patterns (m : gmap string httpRule) : list (string * string * string) :=
  range m ≫= fun kr => (fun pat => ("", pat, kr.1)) <$> patterns kr.2.

(** [None]: the registry cannot be read, and the matcher stays. *)
Definition updateHttpMatcher (d : discovery) (entries : option (list Entry)) : discovery :=
  match entries with
  | None => d
  | Some entries =>
      let m := rule_map entries in
      mkDiscovery (register (rule_patterns m)) m (httpMatcherUpdateFlag d) (grpcEntries d) (grpcServices d) (downList d)
  end.

(** [initialize] with the entries of the registry. *)
Definition NewDiscovery (entries : list Entry) : discovery :=
  let d := mkDiscovery NewPathMatcher ∅ false ∅ ∅ ∅ in
  updateHttpMatcher (foldl (fun d e => updateGrpcEntries d (ServiceName e) (Instances e)) d entries) (Some entries).

(** A tick of [monitorHttpUpdate]. *)
Definition http_tick (d : discovery) (ListAllService : option (list Entry)) : discovery :=
  if httpMatcherUpdateFlag d then
    let d := updateHttpMatcher (set_flag d false) ListAllService in
    mkDiscovery (httpMatcher d) (rules d) (httpMatcherUpdateFlag d) (grpcEntries d) (grpcServices d) ∅
  else d.

(** ** Picking *)

Definition PickWithInfo (d : discovery) (serviceName : string) : gores AddressInfo * discovery :=
  match grpcEntries d !! serviceName with
  | None => (Err ("discovery Pick, no registry entry of " +:+ serviceName +:+ " found"), d)
  | Some e =>
      let '(r, e') := pick d e in
      (match r with Some a => Ok a | None => Err "discovery Pick, pick address failed" end,
       mkDiscovery (httpMatcher d) (rules d) (httpMatcherUpdateFlag d) (<[serviceName := e']> (grpcEntries d))
         (grpcServices d) (downList d))
  end.
Definition Pick (d : discovery) (serviceName : string) : gores string * discovery :=
  let '(r, d') := PickWithInfo d serviceName in (a ← r; Ok (addr a), d').

(** [MatchString] and [MatchRegex] compare header rules with the headers of the request; [i] is
    the random number. *)
Definition HttpPickWithInfo (d : discovery) (method path : string) (MatchString MatchRegex : gmap string string -> bool)
    (i : nat -> nat) : gores AddressInfo * discovery :=
  let maps k := rules d !! k ≫= rule_HeaderMaps in
  match MatchWithMeta (fun k => rules d !! k ≫= rule_Priority) maps (httpMatcher d) method path
          (EstimateHeader maps MatchString MatchRegex) with
  | Panic m => (Panic m, d)
  | Err m => (Err ("discovery pickWithHttpPattern no matched pattern found, err = " +:+ m), d)
  | Ok meta =>
      match meta !! i (length meta) with
      | None => (Panic "index out of range", d)
      | Some k =>
          match rules d !! k with
          | None => (Panic "nil pointer dereference", d)
          | Some rule =>
              let '(r, e') := pick d (rpicker rule) in
              (match r with Some a => Ok a | None => Err "discovery pickWithHttpPattern, pick address failed" end,
               mkDiscovery (httpMatcher d)
                 (<[k := mkRule (patterns rule) (headerMap rule) (headerRegexMap rule) e']> (rules d))
                 (httpMatcherUpdateFlag d) (grpcEntries d) (grpcServices d) (downList d))
          end
      end
  end.
Definition HttpPick (d : discovery) (method path : string) (MatchString MatchRegex : gmap string string -> bool)
    (i : nat -> nat) : gores string * discovery :=
  let '(r, d') := HttpPickWithInfo d method path MatchString MatchRegex i in (a ← r; Ok (addr a), d').

(** ** Addresses that are down *)

Definition set_down (d : discovery) (l : gmap string downAddrInfo) : discovery :=
  mkDiscovery (httpMatcher d) (rules d) (httpMatcherUpdateFlag d) (grpcEntries d) (grpcServices d) l.

Definition Down (d : discovery) (now : Z) (a : string) : discovery := set_down d (<[a := mkDown now 0]> (downList d)).

(** One tick of [downListMonitor]: the addresses whose check starts. *)
Definition due (now : Z) (v : downAddrInfo) : Prop := (60000000000 <= now - downSince v)%Z /\ (retryTimes v < 5)%Z.
#[export] Instance due_dec now v : Decision (due now v).
Proof. unfold due. apply _. Defined.

Definition down_tick (d : discovery) (now : Z) : discovery * list string :=
  (set_down d ((fun v => if decide (due now v) then mkDown (downSince v) (retryTimes v + 1) else v) <$> downList d),
   (map_to_list (filter (fun kv => due now kv.2) (downList d))).*1).

(** The end of [checkDownAddr]: whether the address could be dialled. *)
Definition checkDownAddr (d : discovery) (a : string) (ok : bool) : discovery :=
  if ok then set_down d (delete a (downList d)) else d.

End discovery.

(** ** A discovery on the memory registry *)

Section machine.
Context (Unmarshal : string -> option Meta) (CreateHeaderRegexMap : gmap string string -> option (gmap string string * gmap string string))
  (md5_Sum : string -> string) (range : gmap string httpRule -> list (string * httpRule)).

Definition of_address (a : Address) : Instance := mkInstance (Addr a) (Some (Metadata a)).
Definition registry_entries (r : gmap string (gmap string string)) : list Entry :=
  (fun p => mkEntry p.1 (of_address <$> p.2)) <$> MemoryRegistry.ListAllService r.

(** [WatchAllServiceChanges]: the discovery gets the events of the registry. *)
Definition deliver (d : discovery) (e : MemoryRegistry.event) : discovery :=
  match e with
  | MemoryRegistry.OnUpdate s l => OnUpdate Unmarshal d s (of_address <$> l)
  | MemoryRegistry.OnDelete s l => OnDelete Unmarshal d s (of_address <$> l)
  end.

(** What can happen to a process with a registry and a discovery on it. *)
Inductive act :=
| ARegistry (o : MemoryRegistry.op)
| APick (serviceName : string)
| AHttpPick (method path : string) (MatchString MatchRegex : gmap string string -> bool) (i : nat -> nat)
| AHttpTick (readable : bool)
| ADown (now : Z) (addr : string)
| ADownTick (now : Z)
| AChecked (addr : string) (ok : bool).

Notation world := (gmap string (gmap string string) * discovery)%type.

Definition act_step (w : world) (a : act) : world :=
  match a with
  | ARegistry o => let '(r, es) := MemoryRegistry.apply_op w.1 o in (r, foldl deliver w.2 es)
  | APick s => (w.1, (PickWithInfo w.2 s).2)
  | AHttpPick m p ms mr i => (w.1, (HttpPickWithInfo w.2 m p ms mr i).2)
  | AHttpTick readable =>
      (w.1, http_tick Unmarshal CreateHeaderRegexMap md5_Sum range w.2 (if readable then Some (registry_entries w.1) else None))
  | ADown now a => (w.1, Down w.2 now a)
  | ADownTick now => (w.1, (down_tick w.2 now).1)
  | AChecked a ok => (w.1, checkDownAddr w.2 a ok)
  end.

Definition start (r : gmap string (gmap string string)) : world :=
  (r, NewDiscovery Unmarshal CreateHeaderRegexMap md5_Sum range (registry_entries r)).
Definition run (r : gmap string (gmap string string)) (acts : list act) : world := foldl act_step (start r) acts.

(** *** Changes and notifications apart *)

(** An operation of the registry changes it under its lock, and notifies the discovery after it
    has let the lock go.  So a process may be in between: [outstanding] are the notifications
    that have not arrived yet, in the order of the changes. *)
Record process := mkProcess { registry_of : gmap string (gmap string string); outstanding : list MemoryRegistry.event; discovery_of : discovery }.

(** [PStep]: a change, without its notifications, or anything that [act_step] knows; [PNotify]:
    the arrival of the oldest notification. *)
Inductive label := PStep (a : act) | PNotify.
Definition process_step (p : process) (l : label) : process :=
  match l with
  | PStep (ARegistry o) =>
      let '(r, es) := MemoryRegistry.apply_op (registry_of p) o in mkProcess r (outstanding p ++ es) (discovery_of p)
  | PStep a => mkProcess (registry_of p) (outstanding p) (act_step (registry_of p, discovery_of p) a).2
  | PNotify =>
      match outstanding p with
      | e :: es => mkProcess (registry_of p) es (deliver (discovery_of p) e)
      | [] => p
      end
  end.
(** [NewDiscovery] lists the services and watches afterwards; [between] are the changes that
    fall in between, of which it is told nothing. *)
Definition process_start (r : gmap string (gmap string string)) (between : list MemoryRegistry.op) : process :=
  mkProcess (foldl (fun r o => (MemoryRegistry.apply_op r o).1) r between) [] (start r).2.
Definition process_run (r : gmap string (gmap string string)) (between : list MemoryRegistry.op) (ls : list label) : process :=
  foldl process_step (process_start r between) ls.

(** *** Pickers *)

Definition entry_ok (e : entry) : Prop := next e < length (addrs e) \/ next e = 0.

Lemma pick_spec d e : entry_ok e ->
  let '(r, e') := pick d e in
  addrs e' = addrs e /\ entry_ok e' /\
  match r with
  | Some a => a ∈ addrs e /\ downList d !! addr a = None
  | None => forall a, a ∈ addrs e -> is_Some (downList d !! addr a)
  end.
Proof.
  intros Hok. unfold pick. destruct (decide (addrs e = [])) as [E|Hne].
  { rewrite E. cbn. split_and!; [done| |by intros a ?%elem_of_nil].
    right. destruct Hok as [H|H]; [rewrite E in H; cbn in H; lia|done]. }
  assert (Hlen : 0 < length (addrs e)) by (destruct (addrs e); cbn; [done|lia]).
  assert (Hn : next e < length (picker_info <$> addrs e)) by (rewrite length_fmap; destruct Hok; lia).
  pose proof (RoundRobin.RoundRobin_Pick_spec (isAddressAvailable d) (picker_info <$> addrs e) (next e) Hn) as H.
  cbv zeta in H. rewrite !length_fmap in H.
  assert (Hav : forall i, from_option (isAddressAvailable d) false ((picker_info <$> addrs e) !! i) =
    from_option (fun a => bool_decide (downList d !! addr a = None)) false (addrs e !! i)).
  { intros i. rewrite list_lookup_fmap. by destruct (addrs e !! i). }
  destruct (RoundRobin.RoundRobin_Pick _ _ _) as [[p|] n]; cbn.
  - destruct H as (i & Hi & -> & Ha & -> & _). rewrite Hav in Ha.
    destruct (addrs e !! ((next e + i) mod length (addrs e))) as [a|] eqn:Ea; [|done]. cbn in Ha.
    apply bool_decide_eq_true in Ha. split_and!; [done| |by eapply list_elem_of_lookup_2|done].
    left. cbn. apply Nat.mod_upper_bound. lia.
  - destruct H as [-> Hno]. split_and!; [done|done|]. intros a [i Hi]%list_elem_of_lookup.
    pose proof (lookup_lt_Some _ _ _ Hi) as Hlt.
    specialize (Hno ((i + (length (addrs e) - next e)) mod length (addrs e)) ltac:(apply Nat.mod_upper_bound; lia)).
    rewrite Hav, Nat.Div0.add_mod_idemp_r in Hno.
    replace (next e + (i + (length (addrs e) - next e))) with (i + 1 * length (addrs e)) in Hno
      by (rewrite length_fmap in Hn; lia).
    rewrite Nat.Div0.mod_add, Nat.mod_small, Hi in Hno by done. cbn in Hno. apply bool_decide_eq_false in Hno.
    by destruct (downList d !! addr a); [eexists|].
Qed.

(** *** The instances of a service *)

Definition service_instances (d : discovery) (s : string) : list Instance := default [] (grpcServices d !! s).

(** The pickers are those of the instances. *)
Definition pickers_ok (d : discovery) : Prop :=
  (forall s, default [] (addrs <$> grpcEntries d !! s) = omap (grpc_addr Unmarshal s) (service_instances d s)) /\
  (forall s e, grpcEntries d !! s = Some e -> entry_ok e) /\ (forall k r, rules d !! k = Some r -> entry_ok (rpicker r)).

Lemma updateGrpcEntries_instances d s l s' :
  service_instances (updateGrpcEntries Unmarshal d s l) s' =
  if decide (s = s') then l ++ service_instances d s' else service_instances d s'.
Proof.
  unfold updateGrpcEntries, service_instances. destruct l as [|x l]; [by case_decide|]. cbn [grpcServices].
  rewrite lookup_insert_case. case_decide; [by subst|done].
Qed.

Lemma deleteGrpcEntries_instances d s l s' :
  service_instances (deleteGrpcEntries Unmarshal d s l) s' =
  if decide (s = s') then filter (fun p => iaddr p ∉ iaddr <$> l) (service_instances d s') else service_instances d s'.
Proof.
  unfold deleteGrpcEntries, service_instances. destruct l as [|x l].
  - case_decide; [|done]. symmetry. apply list_filter_all. intros p _. apply not_elem_of_nil.
  - cbn [grpcServices]. rewrite lookup_insert_case. case_decide; [by subst|done].
Qed.

Lemma updateGrpcEntries_pickers d s l : pickers_ok d -> pickers_ok (updateGrpcEntries Unmarshal d s l).
Proof.
  intros (H1 & H2 & H3). split_and!.
  - intros s'. rewrite updateGrpcEntries_instances. unfold updateGrpcEntries. destruct l as [|x l]; [case_decide; apply H1|].
    cbn [grpcEntries]. rewrite lookup_insert_case. case_decide; [by subst|apply H1].
  - intros s' e. unfold updateGrpcEntries. destruct l as [|x l]; [apply H2|]. cbn [grpcEntries]. rewrite lookup_insert_case.
    case_decide; [intros [= <-]; by right|apply H2].
  - unfold updateGrpcEntries. destruct l; apply H3.
Qed.

Lemma deleteGrpcEntries_pickers d s l : pickers_ok d -> pickers_ok (deleteGrpcEntries Unmarshal d s l).
Proof.
  intros (H1 & H2 & H3). split_and!.
  - intros s'. rewrite deleteGrpcEntries_instances. unfold deleteGrpcEntries. destruct l as [|x l].
    { case_decide; [|apply H1]. rewrite list_filter_all by (intros p _; apply not_elem_of_nil). apply H1. }
    cbn [grpcEntries]. fold (service_instances d s). set (rest := filter _ (service_instances d s)).
    destruct (omap (grpc_addr Unmarshal s) rest) as [|a as_] eqn:E.
    + rewrite lookup_delete_case. case_decide; [subst s'; cbn; by rewrite <- E|apply H1].
    + rewrite lookup_insert_case. case_decide; [subst s'; cbn; by rewrite <- E|apply H1].
  - intros s' e. unfold deleteGrpcEntries. destruct l as [|x l]; [apply H2|]. cbn [grpcEntries].
    destruct (omap _ _); [rewrite lookup_delete_case|rewrite lookup_insert_case]; (case_decide; [|apply H2]); [done|].
    intros [= <-]. by right.
  - unfold deleteGrpcEntries. destruct l; apply H3.
Qed.

(** *** Rules *)

Lemma AddHttpRule_fresh m r a : map_Forall (fun _ x => next (rpicker x) = 0) m ->
  map_Forall (fun _ x => next (rpicker x) = 0) (AddHttpRule CreateHeaderRegexMap md5_Sum m r a).
Proof.
  intros Hm. unfold AddHttpRule. destruct (r ≫= _) as [[k fresh]|]; [|done]. by apply map_Forall_insert_2.
Qed.

Lemma rule_map_fresh entries :
  map_Forall (fun _ x => next (rpicker x) = 0) (rule_map Unmarshal CreateHeaderRegexMap md5_Sum entries).
Proof.
  unfold rule_map. apply (foldl_ind (map_Forall (fun _ x => next (rpicker x) = 0))); [apply map_Forall_empty|].
  intros m e _ Hm. apply foldl_ind; [done|]. intros m' i _ Hm'. unfold instance_step.
  destruct (_ ≫= _); [|done]. apply foldl_ind; [done|]. intros m'' r _ Hm''. by apply AddHttpRule_fresh.
Qed.

Lemma updateHttpMatcher_pickers d es : pickers_ok d ->
  pickers_ok (updateHttpMatcher Unmarshal CreateHeaderRegexMap md5_Sum range d es).
Proof.
  intros (H1 & H2 & H3). unfold updateHttpMatcher. destruct es as [es|]; [|done]. split_and!; [done|done|].
  intros k r Hk. right. exact (rule_map_fresh es k r Hk).
Qed.

(** *** Agreement *)

Context (meta : string -> string -> string).

Definition holds (d : discovery) (s : string) (X : gset Address) : Prop :=
  forall i, i ∈ service_instances d s <-> exists a, a ∈ X /\ i = of_address a.

Lemma of_address_inj a b : of_address a = of_address b -> a = b.
Proof. destruct a, b. by intros [= -> ->]. Qed.

Lemma holds_update d s s' l X : holds d s X ->
  holds (updateGrpcEntries Unmarshal d s' (of_address <$> l)) s (if decide (s' = s) then X ∪ list_to_set l else X).
Proof.
  intros Hx i. rewrite updateGrpcEntries_instances. case_decide; [|apply Hx]. rewrite elem_of_app, (Hx i), list_elem_of_fmap.
  setoid_rewrite elem_of_union. setoid_rewrite elem_of_list_to_set. naive_solver.
Qed.

Lemma holds_delete d s s' l X : holds d s X -> (forall a, a ∈ X -> Metadata a = meta s (Addr a)) ->
  (s' = s -> forall a, a ∈ l -> Metadata a = meta s (Addr a)) ->
  holds (deleteGrpcEntries Unmarshal d s' (of_address <$> l)) s (if decide (s' = s) then X ∖ list_to_set l else X).
Proof.
  intros Hx Hmx Hml i. rewrite deleteGrpcEntries_instances. case_decide as Hs; [|apply Hx]. specialize (Hml Hs).
  rewrite list_elem_of_filter, (Hx i). setoid_rewrite elem_of_difference. setoid_rewrite elem_of_list_to_set.
  assert (Hin : forall a, a ∈ X -> (iaddr (of_address a) ∈ iaddr <$> (of_address <$> l)) <-> a ∈ l).
  { intros a Ha. rewrite <- list_fmap_compose, list_elem_of_fmap. split; [|by eauto].
    intros (b & Hb & Hbl). cbn in Hb. destruct a as [aa am], b as [ba bm]. cbn in *. subst ba.
    pose proof (Hmx _ Ha) as E1. pose proof (Hml _ Hbl) as E2. cbn in *. congruence. }
  split; [intros (Hn & a & Ha & ->); exists a; rewrite <- (Hin a Ha); tauto|].
  intros (a & (Ha & Hn) & ->). split; [by rewrite (Hin a Ha)|by exists a].
Qed.

Notation set_updates := (foldl Balancer.set_update).

Lemma deliver_holds e d s X : pickers_ok d -> holds d s X -> (forall a, a ∈ X -> Metadata a = meta s (Addr a)) ->
  MemoryRegistry.event_ok meta e ->
  pickers_ok (deliver d e) /\ holds (deliver d e) s (set_updates X (MemoryRegistry.notified s e)) /\
  (forall a, a ∈ set_updates X (MemoryRegistry.notified s e) -> Metadata a = meta s (Addr a)).
Proof.
  intros Hp Hx Hm He. unfold MemoryRegistry.event_ok in He. rewrite Forall_forall in He.
  destruct e as [s' l|s' l]; cbn [deliver MemoryRegistry.notified MemoryRegistry.event_service MemoryRegistry.event_instances] in *.
  - split; [by apply updateGrpcEntries_pickers|].
    pose proof (holds_update (set_flag d true) s s' l X Hx) as H. case_decide as Hs.
    + subst s'. rewrite bool_decide_eq_true_2, MemoryRegistry.set_update_adds by done. split; [done|].
      intros a [Ha|Ha%elem_of_list_to_set]%elem_of_union; auto.
    + rewrite bool_decide_eq_false_2 by done. done.
  - split; [by apply deleteGrpcEntries_pickers|].
    pose proof (holds_delete (set_flag d true) s s' l X Hx Hm ltac:(intros <-; apply He)) as H. case_decide as Hs.
    + subst s'. rewrite bool_decide_eq_true_2, MemoryRegistry.set_update_deletes by done. split; [done|].
      intros a [Ha _]%elem_of_difference. auto.
    + rewrite bool_decide_eq_false_2 by done. done.
Qed.

Lemma delivers_hold es d s X : pickers_ok d -> holds d s X -> (forall a, a ∈ X -> Metadata a = meta s (Addr a)) ->
  Forall (MemoryRegistry.event_ok meta) es ->
  pickers_ok (foldl deliver d es) /\ holds (foldl deliver d es) s (set_updates X (es ≫= MemoryRegistry.notified s)).
Proof.
  intros Hp Hx Hm He. revert d X Hp Hx Hm. induction He as [|e es He _ IH]; intros d X Hp Hx Hm; [done|]. cbn [foldl].
  rewrite bind_cons, foldl_app. destruct (deliver_holds e d s X Hp Hx Hm He) as (Hp' & Hx' & Hm'). by apply IH.
Qed.

(** *** The invariant of the process *)

Definition world_ok (w : world) : Prop :=
  MemoryRegistry.consistent meta w.1 /\ pickers_ok w.2 /\ forall s, holds w.2 s (MemoryRegistry.instances w.1 s).

Definition act_ok (a : act) : Prop := match a with ARegistry o => MemoryRegistry.op_ok meta o | _ => True end.

Lemma registry_entries_elem r e : e ∈ registry_entries r <->
  exists s m, r !! s = Some m /\ m <> ∅ /\ e = mkEntry s (of_address <$> MemoryRegistry.instance_list m).
Proof.
  unfold registry_entries, MemoryRegistry.ListAllService. rewrite list_elem_of_fmap. setoid_rewrite list_elem_of_omap. split.
  - intros ([s l] & -> & ([s' m] & Hm%elem_of_map_to_list & Hl)). case_bool_decide; simplify_eq. by exists s, m.
  - intros (s & m & Hm & Hne & ->). exists (s, MemoryRegistry.instance_list m). split; [done|].
    exists (s, m). split; [by apply elem_of_map_to_list|]. by rewrite bool_decide_eq_false_2.
Qed.

Lemma initial_entries s es : forall d (X : Instance -> Prop), pickers_ok d -> (forall i, i ∈ service_instances d s <-> X i) ->
  let d' := foldl (fun d e => updateGrpcEntries Unmarshal d (ServiceName e) (Instances e)) d es in
  pickers_ok d' /\ forall i, i ∈ service_instances d' s <-> X i \/ exists e, e ∈ es /\ ServiceName e = s /\ i ∈ Instances e.
Proof.
  induction es as [|e es IH]; intros d X Hp Hx; cbn [foldl].
  - split; [done|]. intros i. rewrite Hx. split; [by left|]. intros [?|(e & ?%elem_of_nil & _)]; done.
  - destruct (IH (updateGrpcEntries Unmarshal d (ServiceName e) (Instances e))
      (fun i => X i \/ ServiceName e = s /\ i ∈ Instances e)) as [Hp' Hi].
    + by apply updateGrpcEntries_pickers.
    + intros i. rewrite updateGrpcEntries_instances. case_decide; [rewrite elem_of_app|]; rewrite Hx; tauto.
    + split; [done|]. intros i. rewrite Hi. setoid_rewrite elem_of_cons. naive_solver.
Qed.

Lemma start_ok r : MemoryRegistry.consistent meta r -> world_ok (start r).
Proof.
  intros Hr. set (d0 := mkDiscovery NewPathMatcher ∅ false ∅ ∅ ∅).
  assert (Hp0 : pickers_ok d0) by (split_and!; intros *; unfold d0, service_instances; cbn; by rewrite ?lookup_empty).
  assert (H0 : forall s i, i ∈ service_instances d0 s <-> False)
    by (intros s i; unfold service_instances, d0; cbn; rewrite lookup_empty; apply elem_of_nil).
  split_and!; [done| |]; cbn [start snd]; unfold NewDiscovery; fold d0.
  - apply updateHttpMatcher_pickers. by destruct (initial_entries "" (registry_entries r) d0 _ Hp0 (H0 _)).
  - intros s i. destruct (initial_entries s (registry_entries r) d0 _ Hp0 (H0 s)) as [_ Hi].
    etrans; [exact (Hi i)|]. setoid_rewrite registry_entries_elem. setoid_rewrite MemoryRegistry.elem_instances. cbn [start fst]. split.
    + intros [[]|(e & (s' & m & Hm & Hne & ->) & <- & Hin)]. cbn in *. apply list_elem_of_fmap in Hin as (a & -> & Ha).
      exists a. split; [|done]. rewrite Hm. by apply MemoryRegistry.elem_instance_list.
    + intros (a & Ha & ->). right. change (default ∅ (r !! s) !! Addr a = Some (Metadata a)) in Ha. destruct (r !! s) as [m|] eqn:Em; cbn in Ha; [|by apply lookup_empty_Some in Ha].
      exists (mkEntry s (of_address <$> MemoryRegistry.instance_list m)). split; [exists s, m; split_and!; [done| |done]|].
      * intros ->. by apply lookup_empty_Some in Ha.
      * split; [done|]. cbn. apply list_elem_of_fmap_2. by apply MemoryRegistry.elem_instance_list.
Qed.

Lemma PickWithInfo_ok d s : pickers_ok d -> pickers_ok (PickWithInfo d s).2.
Proof.
  intros (H1 & H2 & H3). unfold PickWithInfo. destruct (grpcEntries d !! s) as [e|] eqn:Ee; [|done].
  pose proof (pick_spec d e (H2 s e Ee)) as Hp. destruct (pick d e) as [r e']. destruct Hp as (Ha & He' & _). cbn.
  split_and!; [| |done].
  - intros s'. rewrite <- H1. cbn. rewrite lookup_insert_case. case_decide as Hs; [|done]. subst s'. by rewrite Ee; cbn; rewrite Ha.
  - intros s' e''. cbn. rewrite lookup_insert_case. case_decide; [by intros [= <-]|apply H2].
Qed.

(** What a pick of an HTTP rule changes. *)
Lemma HttpPickWithInfo_state d m p ms mr i : (HttpPickWithInfo d m p ms mr i).2 = d \/
  exists k rule, rules d !! k = Some rule /\
    (HttpPickWithInfo d m p ms mr i).2 = mkDiscovery (httpMatcher d)
      (<[k := mkRule (patterns rule) (headerMap rule) (headerRegexMap rule) (pick d (rpicker rule)).2]> (rules d))
      (httpMatcherUpdateFlag d) (grpcEntries d) (grpcServices d) (downList d).
Proof.
  unfold HttpPickWithInfo. destruct (MatchWithMeta _ _ _ _ _ _) as [meta0| |]; [|by left..].
  destruct (meta0 !! _) as [k|]; [|by left]. destruct (rules d !! k) as [rule|] eqn:Er; [|by left]. right. exists k, rule.
  split; [done|]. by destruct (pick d (rpicker rule)).
Qed.

Lemma HttpPickWithInfo_ok d m p ms mr i : pickers_ok d -> pickers_ok (HttpPickWithInfo d m p ms mr i).2.
Proof.
  intros Hp. destruct (HttpPickWithInfo_state d m p ms mr i) as [->|(k & rule & Hk & ->)]; [done|].
  destruct Hp as (H1 & H2 & H3). split_and!; [done|done|]. intros k' r. cbn. rewrite lookup_insert_case.
  case_decide; [|apply H3]. intros [= <-]. cbn. pose proof (pick_spec d (rpicker rule) (H3 k rule Hk)) as Hs.
  destruct (pick d (rpicker rule)). tauto.
Qed.

Lemma act_step_ok w a : world_ok w -> act_ok a -> world_ok (act_step w a).
Proof.
  intros (Hr & Hp & Hh) Ha. destruct w as [r d]. cbn [fst snd] in *. destruct a as [o|s|m p ms mr i|readable|now a|now|a ok]; cbn [act_step fst snd].
  - pose proof (MemoryRegistry.op_events_ok meta r o Hr Ha) as He.
    pose proof (fun s => MemoryRegistry.op_in_step meta s r o Hr Ha) as Hin.
    destruct (MemoryRegistry.apply_op r o) as [r' es]. cbn [fst snd] in *.
    assert (Hd : forall s, pickers_ok (foldl deliver d es) /\
      holds (foldl deliver d es) s (set_updates (MemoryRegistry.instances r s) (es ≫= MemoryRegistry.notified s))).
    { intros s. apply delivers_hold; [done|done| |done]. intros a. by apply MemoryRegistry.instances_ok. }
    split_and!; [apply (Hin "")|apply (Hd "")|]. intros s. destruct (Hd s) as [_ H]. destruct (Hin s) as [_ E].
    unfold MemoryRegistry.in_step in E. by rewrite E in H.
  - split_and!; [done|by apply PickWithInfo_ok|]. intros s' i. rewrite <- (Hh s' i). unfold PickWithInfo.
    destruct (grpcEntries d !! s); [|done]. by destruct (pick d _).
  - split_and!; [done|by apply HttpPickWithInfo_ok|]. intros s' i'. rewrite <- (Hh s' i').
    by destruct (HttpPickWithInfo_state d m p ms mr i) as [->|(k & rule & Hk & ->)].
  - split_and!; [done| |]; unfold http_tick; destruct (httpMatcherUpdateFlag d); try done.
    + apply (updateHttpMatcher_pickers (set_flag d false) _ Hp).
    + intros s i. rewrite <- (Hh s i). by destruct readable.
  - done.
  - done.
  - split_and!; [done| |]; unfold checkDownAddr; by destruct ok.
Qed.

Lemma run_ok r acts : MemoryRegistry.consistent meta r -> Forall act_ok acts -> world_ok (run r acts).
Proof.
  intros Hr Ha. unfold run. apply foldl_ind; [by apply start_ok|]. intros w a Hin Hw. apply act_step_ok; [done|].
  rewrite Forall_forall in Ha. by apply Ha.
Qed.

(** What a pick finds among the instances that the discovery has. *)
Definition picks_from (d : discovery) (s : string) (X : gset Address) : Prop :=
  match (PickWithInfo d s).1 with
  | Ok a => exists x, x ∈ X /\ grpc_addr Unmarshal s (of_address x) = Some a /\ downList d !! addr a = None
  | Err _ => forall x a, x ∈ X -> grpc_addr Unmarshal s (of_address x) = Some a -> is_Some (downList d !! addr a)
  | Panic _ => False
  end.
Lemma pick_from d s X : pickers_ok d -> holds d s X -> picks_from d s X.
Proof.
  intros (H1 & H2 & _) Hh. specialize (H1 s). unfold picks_from, PickWithInfo.
  destruct (grpcEntries d !! s) as [e|] eqn:Ee; cbn in H1.
  - pose proof (pick_spec d e (H2 _ _ Ee)) as Hp. destruct (pick d e) as [[a|] e']; destruct Hp as (_ & _ & Hp); cbn.
    + destruct Hp as [Hp Hd]. rewrite H1 in Hp. apply list_elem_of_omap in Hp as (i & Hi%Hh & Hg).
      destruct Hi as (x & Hx & ->). by exists x.
    + intros x a Hx Hg. apply Hp. rewrite H1. apply list_elem_of_omap. exists (of_address x). split; [|done]. apply Hh. by exists x.
  - cbn. intros x a Hx Hg. exfalso. apply (not_elem_of_nil a). rewrite H1. apply list_elem_of_omap. exists (of_address x).
    split; [|done]. apply Hh. by exists x.
Qed.

(** The discovery is behind the registry by the outstanding notifications, and has what is to be
    [kept]. *)
Definition takes_away (kept : string -> gset Address) (e : MemoryRegistry.event) : Prop :=
  exists s u, u ∈ MemoryRegistry.notified s e /\ Balancer.op u = Balancer.Delete /\ Balancer.uaddr u ∈ kept s.
Definition behind (kept : string -> gset Address) (p : process) (s : string) (X : gset Address) : Prop :=
  holds (discovery_of p) s X /\ (forall a, a ∈ X -> Metadata a = meta s (Addr a)) /\ kept s ⊆ X /\
  set_updates X (outstanding p ≫= MemoryRegistry.notified s) = MemoryRegistry.instances (registry_of p) s.
Definition process_ok (kept : string -> gset Address) (p : process) : Prop :=
  MemoryRegistry.consistent meta (registry_of p) /\ pickers_ok (discovery_of p) /\
  Forall (MemoryRegistry.event_ok meta) (outstanding p) /\ Forall (fun e => ~ takes_away kept e) (outstanding p) /\
  forall s, exists X, behind kept p s X.

Definition label_ok (l : label) : Prop := match l with PStep a => act_ok a | PNotify => True end.
Definition label_keeps (kept : string -> gset Address) (l : label) : Prop :=
  match l with PStep (ARegistry o) => forall r, Forall (fun e => ~ takes_away kept e) (MemoryRegistry.apply_op r o).2 | _ => True end.

Lemma set_updates_keep us : forall (X Y : gset Address), Y ⊆ X -> (forall u, u ∈ us -> Balancer.op u = Balancer.Delete -> Balancer.uaddr u ∉ Y) -> Y ⊆ set_updates X us.
Proof.
  induction us as [|u us IH]; intros X Y HX Hu; [done|]. cbn [foldl]. apply IH; [|intros; apply Hu; [by right|done]].
  unfold Balancer.set_update. destruct (Balancer.op u) eqn:Eo; [set_solver| |done]. specialize (Hu u ltac:(by left) Eo). set_solver.
Qed.
Lemma process_start_ok kept r : MemoryRegistry.consistent meta r -> (forall s, kept s ⊆ MemoryRegistry.instances r s) ->
  process_ok kept (process_start r []).
Proof.
  intros Hr Hk. destruct (start_ok r Hr) as (H1 & H2 & H3). split_and!; [done..|]. intros s. exists (MemoryRegistry.instances r s).
  split_and!; [apply H3|intros a; by apply MemoryRegistry.instances_ok|done|done].
Qed.
Lemma act_step_local kept r q d a : (forall o, a <> ARegistry o) -> process_ok kept (mkProcess r q d) -> process_ok kept (mkProcess r q (act_step (r, d) a).2).
Proof.
  intros Ha (Hr & Hp & He & Ht & HX). cbn [registry_of outstanding discovery_of] in *.
  assert (Hl : pickers_ok (act_step (r, d) a).2 /\ forall s, service_instances (act_step (r, d) a).2 s = service_instances d s).
  { destruct a as [o|s|m p ms mr i|readable|now a|now|a ok]; cbn [act_step fst snd]; [by destruct (Ha o)|..].
    - split; [by apply PickWithInfo_ok|]. intros s'. unfold PickWithInfo. destruct (grpcEntries d !! s); [|done]. by destruct (pick d _).
    - split; [by apply HttpPickWithInfo_ok|]. intros s'. by destruct (HttpPickWithInfo_state d m p ms mr i) as [->|(k & rule & Hk & ->)].
    - unfold http_tick. destruct (httpMatcherUpdateFlag d); [|done]. split; [apply (updateHttpMatcher_pickers (set_flag d false) _ Hp)|].
      intros s. by destruct readable.
    - done.
    - done.
    - unfold checkDownAddr. by destruct ok. }
  destruct Hl as [Hp' Hi]. split_and!; [done..|]. intros s. destruct (HX s) as (X & Hh & Hrest). exists X. split; [|done].
  intros i. cbn [discovery_of]. rewrite Hi. apply Hh.
Qed.
Lemma process_step_ok kept p l : label_ok l -> label_keeps kept l -> process_ok kept p -> process_ok kept (process_step p l).
Proof.
  intros Hl Hk Hok. destruct p as [r q d]. destruct l as [a|].
  - destruct a as [o|s|m p ms mr i|readable|now a|now|a ok]; try (apply act_step_local; [by intros ?|done]).
    destruct Hok as (Hr & Hp & He & Ht & HX). cbn [process_step registry_of outstanding discovery_of] in *.
    pose proof (MemoryRegistry.op_events_ok meta r o Hr Hl) as He'. pose proof (fun s => MemoryRegistry.op_in_step meta s r o Hr Hl) as Hin.
    specialize (Hk r). destruct (MemoryRegistry.apply_op r o) as [r' es]. cbn [fst snd] in *.
    split_and!; [apply (Hin "")|done|by apply Forall_app|by apply Forall_app|]. intros s. destruct (HX s) as (X & Hh & Hm & Hks & Hq). exists X.
    split_and!; [done..|]. cbn [outstanding registry_of] in *. rewrite bind_app, foldl_app, Hq. apply (Hin s).
  - destruct Hok as (Hr & Hp & He & Ht & HX). cbn [process_step outstanding discovery_of registry_of] in *. destruct q as [|e q]; [done|].
    apply Forall_cons in He as [He Heq]. apply Forall_cons in Ht as [Ht Htq].
    split_and!; [done|destruct (HX "") as (X & Hh & Hm & _); by apply (deliver_holds e d "" X)|done|done|]. intros s. destruct (HX s) as (X & Hh & Hm & Hks & Hq).
    destruct (deliver_holds e d s X Hp Hh Hm He) as (_ & Hh' & Hm'). exists (set_updates X (MemoryRegistry.notified s e)).
    split_and!; [done|done| |].
    + apply set_updates_keep; [done|]. intros u Hu Hd Hin. apply Ht. by exists s, u.
    + cbn [outstanding registry_of] in *. by rewrite bind_cons, foldl_app in Hq.
Qed.
Lemma process_run_ok kept r ls : MemoryRegistry.consistent meta r -> (forall s, kept s ⊆ MemoryRegistry.instances r s) ->
  Forall label_ok ls -> Forall (label_keeps kept) ls -> process_ok kept (process_run r [] ls).
Proof.
  intros Hr Hk Hl Hkl. unfold process_run. apply foldl_ind; [by apply process_start_ok|]. intros p l Hin Hp.
  rewrite Forall_forall in Hl, Hkl. apply process_step_ok; auto.
Qed.

(** C24: a discovery picks live instances.  Whatever happens after its start (changes of the
    registry, their notifications, picks, rebuilds of the HTTP rules, addresses reported down and
    checked again): the discovery has a set of instances of each service, which the outstanding
    notifications would turn into those that are registered now; a pick for the service gives
    one of the set that serves gRPC and is not reported down, with the TLS setting of its
    metadata, and fails only if every such instance is reported down.  When no notification is
    outstanding, these are the instances registered now.  (An address of a service has the same
    metadata all the time, a bulk registration names no service twice, notifications arrive in
    the order of the changes, and none falls between the listing of the services and the
    watch.) *)
Theorem discovery_picks_live (r : gmap string (gmap string string)) (ls : list label) (serviceName : string) :
  MemoryRegistry.consistent meta r -> Forall label_ok ls ->
  let p := process_run r [] ls in
  exists X : gset Address,
    set_updates X (outstanding p ≫= MemoryRegistry.notified serviceName) = MemoryRegistry.instances (registry_of p) serviceName /\
    (outstanding p = [] -> X = MemoryRegistry.instances (registry_of p) serviceName) /\
    match (PickWithInfo (discovery_of p) serviceName).1 with
    | Ok a => exists x, x ∈ X /\ grpc_addr Unmarshal serviceName (of_address x) = Some a /\ downList (discovery_of p) !! addr a = None
    | Err _ => forall x a, x ∈ X -> grpc_addr Unmarshal serviceName (of_address x) = Some a -> is_Some (downList (discovery_of p) !! addr a)
    | Panic _ => False
    end.
Proof.
  intros Hr Hl p. assert (Hk : Forall (label_keeps (fun _ => ∅)) ls).
  { apply Forall_forall. intros [[o| | | | | | ]|] _; try done. intros r'. apply Forall_forall. by intros e _ (s & u & _ & _ & ?%elem_of_empty). }
  destruct (process_run_ok (fun _ => ∅) r ls Hr ltac:(set_solver) Hl Hk) as (_ & Hp & _ & _ & HX). fold p in Hp, HX.
  destruct (HX serviceName) as (X & Hh & _ & _ & Hq). exists X. split_and!; [done|by intros E; rewrite E in Hq|by apply pick_from].
Qed.

(** *** HTTP rules *)

(** [a] is an instance of [entries] with a rule of key [k]. *)
Definition serves_rule (entries : list Entry) (k : string) (a : AddressInfo) : Prop :=
  exists e inst m hr fresh, e ∈ entries /\ inst ∈ Instances e /\ imeta inst ≫= UnmarshalRegistryMeta Unmarshal = Some m /\
    Some hr ∈ instance_rules (ServiceName e) m /\ generateKey CreateHeaderRegexMap md5_Sum hr = Some (k, fresh) /\
    addr a = iaddr inst /\ tls a = TlsServer m.

Definition rule_from (entries : list Entry) (k : string) (r : httpRule) : Prop :=
  (exists hr fresh, generateKey CreateHeaderRegexMap md5_Sum hr = Some (k, fresh) /\ patterns r ≡ₚ HttpPatterns hr) /\
  forall a, a ∈ addrs (rpicker r) -> serves_rule entries k a.

Lemma generateKey_patterns hr k fresh : generateKey CreateHeaderRegexMap md5_Sum hr = Some (k, fresh) ->
  patterns fresh ≡ₚ HttpPatterns hr /\ addrs (rpicker fresh) = [].
Proof. unfold generateKey. destruct (mapM _ _); [|done]. cbn. intros [= <- <-]. split; [apply merge_sort_Permutation|done]. Qed.

Lemma AddHttpRule_from entries m e inst mt hr : e ∈ entries -> inst ∈ Instances e ->
  imeta inst ≫= UnmarshalRegistryMeta Unmarshal = Some mt -> hr ∈ instance_rules (ServiceName e) mt ->
  map_Forall (rule_from entries) m ->
  map_Forall (rule_from entries) (AddHttpRule CreateHeaderRegexMap md5_Sum m hr (mkAddressInfo (iaddr inst) (TlsServer mt))).
Proof.
  intros He Hi Hm Hr Hok. unfold AddHttpRule. destruct hr as [hr|]; cbn; [|done].
  destruct (generateKey CreateHeaderRegexMap md5_Sum hr) as [[k fresh]|] eqn:Ek; [|done].
  destruct (generateKey_patterns hr k fresh Ek) as [Hpf Haf].
  assert (Hnew : serves_rule entries k (mkAddressInfo (iaddr inst) (TlsServer mt))) by (by exists e, inst, mt, hr, fresh).
  apply map_Forall_insert_2; [|done]. destruct (m !! k) as [old|] eqn:Eo; cbn.
  - destruct (Hok k old Eo) as [Hp Hs]. split; [done|]. cbn. intros a [Ha|Ha]%elem_of_app; [by apply Hs|].
    by apply list_elem_of_singleton in Ha as ->.
  - split; [by exists hr, fresh|]. cbn. rewrite Haf. intros a Ha%list_elem_of_singleton. by subst a.
Qed.

Lemma rule_map_from entries : map_Forall (rule_from entries) (rule_map Unmarshal CreateHeaderRegexMap md5_Sum entries).
Proof.
  unfold rule_map. apply (foldl_ind (map_Forall (rule_from entries))); [apply map_Forall_empty|].
  intros m e He Hm. apply foldl_ind; [done|]. intros m' i Hi Hm'. unfold instance_step.
  destruct (imeta i ≫= _) as [mt|] eqn:Emt; [|done]. apply foldl_ind; [done|]. intros m'' r Hr Hm''.
  by eapply AddHttpRule_from.
Qed.

Context (range_all : forall m, range m ≡ₚ map_to_list m).

(** The matcher of a discovery was made from [entries]; picks since then changed pickers only. *)
Definition http_from (d : discovery) (entries : list Entry) : Prop :=
  let m := rule_map Unmarshal CreateHeaderRegexMap md5_Sum entries in
  httpMatcher d = register (rule_patterns range m) /\
  forall k r, rules d !! k = Some r -> exists r0, m !! k = Some r0 /\ patterns r = patterns r0 /\ addrs (rpicker r) = addrs (rpicker r0).

Lemma rule_patterns_elem m pat k : ("", pat, k) ∈ rule_patterns range m <-> exists r, m !! k = Some r /\ pat ∈ patterns r.
Proof.
  unfold rule_patterns. rewrite list_elem_of_bind. split.
  - intros ([k' r] & Hp & Hin). apply list_elem_of_fmap in Hp as (pat' & [= -> ->] & Hp). cbn in *. exists r.
    split; [|done]. rewrite range_all in Hin. by apply elem_of_map_to_list in Hin.
  - intros (r & Hk & Hp). exists (k, r). split; [|by rewrite range_all; apply elem_of_map_to_list]. apply list_elem_of_fmap. by exists pat.
Qed.

(** The rules that a request can get. *)
Lemma http_match d entries method path ms mr meta0 : http_from d entries ->
  (let maps k := rules d !! k ≫= rule_HeaderMaps in
   MatchWithMeta (fun k => rules d !! k ≫= rule_Priority) maps (httpMatcher d) method path (EstimateHeader maps ms mr) = Ok meta0) ->
  exists cs, components method path = Ok cs /\
    forall k r, k ∈ meta0 -> rules d !! k = Some r -> exists pat p, pat ∈ patterns r /\ pattern_of "" pat = Some p /\ pm p cs.
Proof.
  intros [Hm Hrules] Hmatch. cbv zeta in Hmatch. rewrite Hm in Hmatch.
  apply MatchWithMeta_sound in Hmatch as (cs & p & Hc & Hp & Hin). exists cs. split; [done|]. intros k r Hk Hr.
  specialize (Hin k Hk). unfold registered in Hin. apply list_elem_of_omap in Hin as ([[m pat] k'] & Hpat & Hdec).
  destruct (decide (pattern_of m pat = Some p)) as [Hof|]; [|done]. injection Hdec as <-.
  assert (m = "") as ->.
  { unfold rule_patterns in Hpat. apply list_elem_of_bind in Hpat as (x & Hx & _). by apply list_elem_of_fmap in Hx as (? & [= -> _ _] & _). }
  apply rule_patterns_elem in Hpat as (r0 & Hr0 & Hpat). destruct (Hrules k' r Hr) as (r1 & Hr1 & Epat & _).
  assert (r1 = r0) as -> by congruence. exists pat, p. by rewrite Epat.
Qed.

(** The registry as it was when the matcher was last made. *)
Definition http_inv (r : gmap string (gmap string string)) (acts : list act) : Prop :=
  exists acts1 acts2, acts = acts1 ++ acts2 /\ http_from (run r acts).2 (registry_entries (run r acts1).1).

Lemma http_from_same d d' entries : httpMatcher d' = httpMatcher d -> rules d' = rules d -> http_from d entries -> http_from d' entries.
Proof. intros Hm Hr [H1 H2]. split; [by rewrite Hm|]. by rewrite Hr. Qed.

Lemma http_from_update d entries :
  http_from (updateHttpMatcher Unmarshal CreateHeaderRegexMap md5_Sum range d (Some entries)) entries.
Proof. split; [done|]. intros k r Hk. by exists r. Qed.

Lemma pick_addrs d e : addrs (pick d e).2 = addrs e.
Proof. unfold pick. by destruct (RoundRobin.RoundRobin_Pick _ _ _). Qed.

Lemma foldl_grpc_http {A} (f : discovery -> A -> discovery) l d :
  (forall d x, httpMatcher (f d x) = httpMatcher d /\ rules (f d x) = rules d) ->
  httpMatcher (foldl f d l) = httpMatcher d /\ rules (foldl f d l) = rules d.
Proof.
  intros Hf. revert d. induction l as [|x l IH]; intros d; [done|]. cbn [foldl]. destruct (IH (f d x)) as [-> ->]. apply Hf.
Qed.

Lemma deliver_http d e : httpMatcher (deliver d e) = httpMatcher d /\ rules (deliver d e) = rules d.
Proof.
  destruct e as [s l|s l]; cbn; unfold OnUpdate, OnDelete, updateGrpcEntries, deleteGrpcEntries; by destruct (of_address <$> l).
Qed.

(** A step keeps the matcher of the discovery, or makes a new one from the registry. *)
Lemma act_step_http w a entries : http_from w.2 entries ->
  http_from (act_step w a).2 entries \/ http_from (act_step w a).2 (registry_entries w.1).
Proof.
  intros Hw. destruct a as [o|s|m p ms mr i|readable|now a|now|a ok]; cbn [act_step].
  - left. destruct (MemoryRegistry.apply_op w.1 o) as [r' es]. cbn [snd].
    destruct (foldl_grpc_http deliver es w.2 deliver_http) as [? ?]. by eapply http_from_same.
  - left. apply (http_from_same w.2); [..|done]; unfold PickWithInfo; cbn [snd]; destruct (grpcEntries w.2 !! s); try done; by destruct (pick w.2 _).
  - left. cbn [snd]. destruct (HttpPickWithInfo_state w.2 m p ms mr i) as [->|(k & rule & Hk & ->)]; [done|].
    destruct Hw as [H1 H2]. split; [done|]. intros k' r. cbn. rewrite lookup_insert_case. case_decide; [|apply H2].
    intros [= <-]. subst k'. cbn. rewrite pick_addrs. by apply H2.
  - cbn [snd]. unfold http_tick. destruct (httpMatcherUpdateFlag w.2); [|by left].
    destruct readable; [right|by left].
    apply (http_from_same (updateHttpMatcher Unmarshal CreateHeaderRegexMap md5_Sum range (set_flag w.2 false)
      (Some (registry_entries w.1)))); [done|done|apply http_from_update].
  - by left.
  - by left.
  - left. unfold checkDownAddr. by destruct ok.
Qed.

Lemma run_http r acts : http_inv r acts.
Proof.
  induction acts as [|a acts IH] using rev_ind.
  - exists [], []. split; [done|]. unfold run. cbn. apply http_from_update.
  - destruct IH as (acts1 & acts2 & -> & Hf). unfold http_inv, run in *. rewrite foldl_app. cbn [foldl].
    destruct (act_step_http _ a _ Hf) as [H|H].
    + exists acts1, (acts2 ++ [a]). split; [by rewrite app_assoc|]. by rewrite foldl_app in H |- *.
    + exists (acts1 ++ acts2), [a]. split; [done|]. rewrite foldl_app in H |- *. exact H.
Qed.

(** HTTP requests go to registered rules.  Whatever happened to the registry and the
    discovery, an address picked for a request is that of an instance that was registered, with
    an HTTP rule, when the rules were last read from the registry; a pattern of the rule (up to
    equal keys) matches the path of the request; and the address is not reported down. *)
Theorem http_picks_registered (r : gmap string (gmap string string)) (acts : list act) (method path : string)
  (MatchString MatchRegex : gmap string string -> bool) (i : nat -> nat) (a : AddressInfo) :
  MemoryRegistry.consistent meta r -> Forall act_ok acts ->
  (HttpPickWithInfo (run r acts).2 method path MatchString MatchRegex i).1 = Ok a ->
  downList (run r acts).2 !! addr a = None /\
  exists acts1 acts2 k cs hr fresh pat p, acts = acts1 ++ acts2 /\
    serves_rule (registry_entries (run r acts1).1) k a /\
    generateKey CreateHeaderRegexMap md5_Sum hr = Some (k, fresh) /\ pat ∈ HttpPatterns hr /\
    pattern_of "" pat = Some p /\ components method path = Ok cs /\ pm p cs.
Proof.
  intros Hr Ha Hpick. destruct (run_ok r acts Hr Ha) as (_ & (_ & _ & H3) & _).
  destruct (run_http r acts) as (acts1 & acts2 & Eacts & Hf). set (d := (run r acts).2) in *. unfold HttpPickWithInfo in Hpick.
  destruct (MatchWithMeta _ _ _ _ _ _) as [meta0| |] eqn:Em; [|done..]. destruct (http_match d _ method path _ _ meta0 Hf Em) as (cs & Hc & Hmatch).
  destruct (meta0 !! _) as [k|] eqn:Ek; [|done]. apply list_elem_of_lookup_2 in Ek.
  destruct (rules d !! k) as [rule|] eqn:Er; [|done]. pose proof (pick_spec d (rpicker rule) (H3 k rule Er)) as Hp.
  destruct (pick d (rpicker rule)) as [[b|] e']; cbn in Hpick; [|done]. injection Hpick as ->.
  destruct Hp as (_ & _ & Hin & Hdown). split; [done|]. destruct (Hmatch k rule Ek Er) as (pat & p & Hpat & Hof & Hpm).
  destruct Hf as [_ Hrules]. destruct (Hrules k rule Er) as (r0 & Hr0 & Epat & Eaddr).
  destruct (rule_map_from _ k r0 Hr0) as [(hr & fresh & Hkey & Hperm) Hserve].
  exists acts1, acts2, k, cs, hr, fresh, pat, p. split_and!; [done|apply Hserve; by rewrite <- Eaddr|done| |done..].
  by rewrite <- Hperm, <- Epat.
Qed.

End machine.

(** ** Health checks *)

(** The ticks of [downListMonitor] at the times [ts]: how often [a] is checked, all its checks
    failing. *)
Fixpoint checks (d : discovery) (a : string) (ts : list Z) : nat * discovery :=
  match ts with
  | [] => (0, d)
  | t :: ts =>
      let '(d', l) := down_tick d t in
      let '(n, d'') := checks d' a ts in
      ((if bool_decide (a ∈ l) then 1 else 0) + n, d'')
  end.

Lemma down_tick_spec d a now since n : downList d !! a = Some (mkDown since n) ->
  let due_now := (60000000000 <= now - since)%Z /\ (n < 5)%Z in
  (a ∈ (down_tick d now).2 <-> due_now) /\
  downList (down_tick d now).1 !! a = Some (mkDown since (if decide due_now then n + 1 else n)%Z).
Proof.
  intros Hd due_now. split.
  - cbn. rewrite list_elem_of_fmap. split.
    + intros ([a' v] & -> & Hin). apply elem_of_map_to_list, map_lookup_filter_Some in Hin as [Hv Hdue]. cbn in *.
      rewrite Hd in Hv. by injection Hv as <-.
    + intros Hdue. exists (a, mkDown since n). split; [done|]. apply elem_of_map_to_list, map_lookup_filter_Some. done.
  - cbn. rewrite lookup_fmap, Hd. cbn. f_equal. unfold due. cbn. unfold due_now. by repeat case_decide.
Qed.

(** Health checks of an address that is down.  An address reported down is checked at most
    five times, at the ticks at least a minute after the report; when all the checks fail it
    stays down after them, and is not checked any more. *)
Theorem health_checks_bounded (d : discovery) (a : string) (now : Z) (ts : list Z) :
  let '(n, d') := checks (Down d now a) a ts in
  n = Nat.min 5 (length (filter (fun t => (60000000000 <= t - now)%Z) ts)) /\ is_Some (downList d' !! a).
Proof.
  assert (H : forall ts d k, (0 <= k <= 5)%Z -> downList d !! a = Some (mkDown now k) ->
    let '(n, d') := checks d a ts in
    n = Nat.min (Z.to_nat (5 - k)) (length (filter (fun t => (60000000000 <= t - now)%Z) ts)) /\ is_Some (downList d' !! a)).
  { clear. induction ts as [|t ts IH]; intros d k Hk Hd; cbn [checks]; [split; [cbn; lia|by eexists]|].
    destruct (down_tick_spec d a t now k Hd) as [Hin Hd']. cbv zeta in Hin, Hd'.
    destruct (down_tick d t) as [d1 l]. cbn [fst snd] in *. rewrite filter_cons.
    destruct (decide ((60000000000 <= t - now)%Z /\ (k < 5)%Z)) as [[Ht Hk5]|Hno].
    - specialize (IH d1 (k + 1)%Z ltac:(lia) Hd'). destruct (checks d1 a ts) as [n d2]. destruct IH as [-> Hs].
      rewrite bool_decide_eq_true_2 by tauto. rewrite decide_True by done. cbn [length]. split; [|done]. lia.
    - specialize (IH d1 k Hk Hd'). destruct (checks d1 a ts) as [n d2]. destruct IH as [-> Hs].
      rewrite bool_decide_eq_false_2 by tauto. split; [|done]. case_decide as Ht; cbn [length]; [|done].
      assert (k = 5%Z) as -> by lia. done. }
  apply (H ts (Down d now a) 0%Z); [lia|]. cbn. apply lookup_insert_eq.
Qed.

(** ** Metadata *)

(** A registered metadata is read back with the current version. *)
Lemma meta_roundtrip (Marshal : Meta -> option string) (Unmarshal : string -> option Meta) (m : Meta) (j : string) :
  (forall m j, Marshal m = Some j -> Unmarshal j = Some m) ->
  MarshalRegistryMeta Marshal m = Some j ->
  UnmarshalRegistryMeta Unmarshal j = Some (mkMeta (TlsServer m) (MetaPatterns m) CurrentVersion (Type_ m) (HttpRules m)).
Proof. intros Hj Hm. unfold UnmarshalRegistryMeta. by rewrite (Hj _ _ Hm). Qed.

(** ** Examples *)

Definition example_Unmarshal (s : string) : option Meta :=
  if decide (s = "grpc") then Some (mkMeta true [] 3 RegistryType_Grpc [])
  else if decide (s = "http") then Some (mkMeta false [] 3 RegistryType_Http [Some (mkHttpRule ["/GET/a/*"] [] [])])
  else None.
Definition example_meta (service _ : string) : string := if decide (service = "web") then "http" else "grpc".

Notation example_run := (run example_Unmarshal (fun m => Some (m, m)) (fun s => s) map_to_list ∅).

Definition example_acts : list act :=
  [ARegistry (MemoryRegistry.Register "svc" "h1" "grpc"); ARegistry (MemoryRegistry.Register "svc" "h2" "grpc"); ADown 0 "h1"].
Definition example_http_acts : list act := [ARegistry (MemoryRegistry.Register "web" "h3" "http"); AHttpTick true].

Example pick_avoids_down : (PickWithInfo (example_run example_acts).2 "svc").1 = Ok (mkAddressInfo "h2" true).
Proof. vm_compute. reflexivity. Qed.

Notation example_process := (process_run example_Unmarshal (fun m => Some (m, m)) (fun s => s) map_to_list ∅).
(** Two instances; the notification of the second is still outstanding. *)
Definition example_steps : list label :=
  [PStep (ARegistry (MemoryRegistry.Register "svc" "h1" "grpc")); PNotify; PStep (ARegistry (MemoryRegistry.Register "svc" "h2" "grpc"))].

Lemma discovery_picks_live_witness :
  exists X : gset Address, (∃ x, x ∈ X /\ grpc_addr example_Unmarshal "svc" (of_address x) = Some (mkAddressInfo "h1" true)) /\
    foldl Balancer.set_update X (outstanding (example_process [] example_steps) ≫= MemoryRegistry.notified "svc") =
    MemoryRegistry.instances (registry_of (example_process [] example_steps)) "svc".
Proof.
  destruct (discovery_picks_live example_Unmarshal (fun m => Some (m, m)) (fun s => s) map_to_list example_meta ∅ example_steps "svc"
    ltac:(intros s m; by rewrite lookup_empty) ltac:(repeat constructor)) as (X & HX & _ & Hp).
  assert (E : (PickWithInfo (discovery_of (example_process [] example_steps)) "svc").1 = Ok (mkAddressInfo "h1" true)) by (vm_compute; reflexivity).
  rewrite E in Hp. destruct Hp as (x & Hx & Hg & _). exists X. split; [by exists x|exact HX].
Defined.

(** A change between the listing and the watch is never noticed. *)
Example missed_in_between :
  let p := example_process [MemoryRegistry.Register "svc" "h1" "grpc"] [PNotify; PStep (APick "svc"); PNotify] in
  outstanding p = [] /\ (PickWithInfo (discovery_of p) "svc").1 = Err "discovery Pick, no registry entry of svc found" /\ MemoryRegistry.HasService (registry_of p) "svc" = true.
Proof. by vm_compute. Qed.
(** Two operations let the lock go one after the other, but notify in the other order: the
    discovery keeps an instance that is gone. *)
Example notifications_crossed :
  let '(r1, es1) := MemoryRegistry.apply_op ∅ (MemoryRegistry.Register "svc" "h1" "grpc") in
  let '(r2, es2) := MemoryRegistry.apply_op r1 (MemoryRegistry.Unregister "svc" "h1") in
  let d := foldl (deliver example_Unmarshal) (example_run []).2 (es2 ++ es1) in
  MemoryRegistry.instances r2 "svc" = ∅ /\ (PickWithInfo d "svc").1 = Ok (mkAddressInfo "h1" true).
Proof. by vm_compute. Qed.

Lemma http_picks_registered_witness :
  downList (example_run example_http_acts).2 !! "h3" = None /\
  exists acts1 acts2 k cs hr fresh pat p, example_http_acts = acts1 ++ acts2 /\
    serves_rule example_Unmarshal (fun m => Some (m, m)) (fun s => s) (registry_entries (example_run acts1).1) k (mkAddressInfo "h3" false) /\
    generateKey (fun m => Some (m, m)) (fun s => s) hr = Some (k, fresh) /\ pat ∈ HttpPatterns hr /\
    pattern_of "" pat = Some p /\ components "GET" "/a/b" = Ok cs /\ pm p cs.
Proof.
  apply (http_picks_registered example_Unmarshal (fun m => Some (m, m)) (fun s => s) map_to_list example_meta
    ltac:(reflexivity) ∅ example_http_acts "GET" "/a/b" (fun _ => true) (fun _ => true) (fun _ => 0) (mkAddressInfo "h3" false)).
  - intros s m. by rewrite lookup_empty.
  - repeat constructor.
  - vm_compute. reflexivity.
Defined.

(** An address registered a second time is served twice as often: its instance is in the list
    of the picker once for every registration. *)
Example reregistered_twice_as_often :
  addrs <$> grpcEntries (example_run
    [ARegistry (MemoryRegistry.Register "svc" "h1" "grpc"); ARegistry (MemoryRegistry.Register "svc" "h2" "grpc");
     ARegistry (MemoryRegistry.Register "svc" "h1" "grpc")]).2 !! "svc" =
  Some [mkAddressInfo "h1" true; mkAddressInfo "h2" true; mkAddressInfo "h1" true].
Proof. vm_compute. reflexivity. Qed.

End Discovery.
