(* ===== verification/Hostname.v ===== *)
(** * Host names of certificates ([credentials/utils.go]).

    [VerifyHostname] decides whether a certificate is valid for a host: an IP address must be
    one of its addresses, a name must match one of its DNS names, or its common name when it
    has no alternative names.  The fields of certificates are those of [crypto/x509] and IP
    addresses those of [net] (class [HostCert]).  Strings are bytes: the loops over runes
    treat every rune beyond ASCII as these treat its bytes. *)

From S2P Require Import Prelude GoStrings.
From Stdlib Require Import Ascii.

Open Scope string_scope.
Open Scope list_scope.

Class HostCert (Cert IP : Type) := {
  ip_eq_dec :: EqDecision IP;
  ParseIP : string -> option IP;
  IPAddresses : Cert -> list IP;
  DNSNames : Cert -> list string;
  CommonName : Cert -> string;
  (** The identifiers of the extensions. *)
  Extensions : Cert -> list (list Z)
}.

Module Hostname.

Definition toLowerCaseASCII (s : string) : string := ToLower s.

(** The characters of a label; [first] is [j = 0]. *)
Definition host_char (first : bool) (c : ascii) : bool :=
  is_lower c || ((48 <=? nat_of_ascii c) && (nat_of_ascii c <=? 57))%nat || is_upper c ||
  (bool_decide (c = "-"%char) && negb first) || bool_decide (c = "_"%char).
Fixpoint host_chars (first : bool) (s : string) : bool :=
  match s with
  | EmptyString => true
  | String c s => host_char first c && host_chars false s
  end.
Definition valid_part (part : string) : bool := negb (bool_decide (part = "")) && host_chars true part.

Definition validHostname (host : string) (isPattern : bool) : bool :=
  let host := if isPattern then host else TrimSuffix host "." in
  if bool_decide (host = "") then false
  else match Split "." host with
       | [] => true
       | part :: parts => ((isPattern && bool_decide (part = "*")) || valid_part part) && forallb valid_part parts
       end.
Definition validHostnamePattern (host : string) : bool := validHostname host true.
Definition validHostnameInput (host : string) : bool := validHostname host false.

Definition matchExactly (hostA hostB : string) : bool :=
  if bool_decide (hostA = "" \/ hostA = "." \/ hostB = "" \/ hostB = ".") then false
  else bool_decide (toLowerCaseASCII hostA = toLowerCaseASCII hostB).

Definition matchHostnames (pattern host : string) : bool :=
  let pattern := toLowerCaseASCII pattern in
  let host := toLowerCaseASCII (TrimSuffix host ".") in
  if bool_decide (pattern = "" \/ host = "") then false
  else
    match Split "." pattern, Split "." host with
    | p :: ps, h :: hs =>
        (length ps =? length hs)%nat && (bool_decide (p = "*") || bool_decide (p = h)) && bool_decide (ps = hs)
    | _, _ => false
    end.

Section hostname.
Context {Cert IP : Type} `{HostCert Cert IP}.

Definition oidExtensionSubjectAltName : list Z := [2; 5; 29; 17]%Z.
Definition oidInExtensions (oid : list Z) (extensions : list (list Z)) : bool := existsb (fun e => bool_decide (e = oid)) extensions.
Definition hasSANExtension (c : Cert) : bool := oidInExtensions oidExtensionSubjectAltName (Extensions c).
Definition commonNameAsHostname (c : Cert) : bool := negb (hasSANExtension c) && validHostnamePattern (CommonName c).

(** [h] without the brackets of an IPv6 address. *)
Definition candidateIP (h : string) : string :=
  if (3 <=? String.length h)%nat && HasPrefix h "[" && HasSuffix h "]"
  then stake (String.length h - 2) (sdrop 1 h) else h.

Definition cert_names (c : Cert) : list string := if commonNameAsHostname c then [CommonName c] else DNSNames c.

(** [true] is the nil error. *)
Definition VerifyHostname (c : Cert) (h : string) : bool :=
  match ParseIP (candidateIP h) with
  | Some ip => bool_decide (ip ∈ IPAddresses c)
  | None =>
      let candidateName := toLowerCaseASCII h in
      let validCandidateName := validHostnameInput candidateName in
      existsb (fun m => if validCandidateName && validHostnamePattern m then matchHostnames m candidateName
                        else matchExactly m candidateName) (cert_names c)
  end.

(** ** Properties *)

(** The name a host is compared under: in lower case, without the final dot. *)
Definition canonical (h : string) : string := toLowerCaseASCII (TrimSuffix (toLowerCaseASCII h) ".").

(** A name of a certificate covers a host: they are equal, or the name starts with a star
    that stands for the first label of the host. *)
Definition covers (name host : string) : Prop :=
  name = host \/ exists label rest, name = "*" +:+ rest /\ host = label +:+ rest /\ label <> "" /\
    contains_char "." label = false /\ (rest = "" \/ exists r, rest = String "." r).

Lemma split_head (s h : string) (t : list string) : Split "." s = h :: t ->
  s = h +:+ (match t with [] => "" | _ => String "." (Join t ".") end) /\ contains_char "." h = false.
Proof.
  intros E. split.
  - rewrite <- (Join_Split "." s), E. destruct t; [by rewrite string_app_nil_r|done].
  - pose proof (Split_parts_free "." s) as F. rewrite E in F. by apply Forall_inv in F.
Qed.

Lemma split_of_rest (label rest : string) : contains_char "." label = false -> (rest = "" \/ exists r, rest = String "." r) ->
  Split "." (label +:+ rest) = label :: match rest with EmptyString => [] | String _ r => Split "." r end.
Proof.
  intros Hl [->|(r & ->)]; [rewrite string_app_nil_r; by apply Split_free|by apply Split_app_sep].
Qed.

Lemma lower_dot (a : ascii) : lower_ascii a = "."%char -> a = "."%char.
Proof. destruct a as [[] [] [] [] [] [] [] []]; vm_compute; congruence. Qed.

(** The canonical name of a valid host is not empty and starts with a label. *)
Lemma canonical_valid (h : string) : validHostnameInput (toLowerCaseASCII h) = true ->
  canonical h <> "" /\ forall r, canonical h <> String "." r.
Proof.
  unfold validHostnameInput, validHostname, canonical. set (x := TrimSuffix _ "."). destruct x as [|a x]; [done|].
  intros Hv. cbn [toLowerCaseASCII ToLower]. split; [done|]. intros r [= Ha _]. apply lower_dot in Ha as ->.
  by vm_compute in Hv.
Qed.

Lemma matchHostnames_spec (name h : string) : validHostnameInput (toLowerCaseASCII h) = true ->
  validHostnamePattern name = true ->
  matchHostnames name (toLowerCaseASCII h) = true <-> covers (toLowerCaseASCII name) (canonical h).
Proof.
  intros Hv Hn. destruct (canonical_valid h Hv) as [Hne Hdot]. unfold matchHostnames.
  assert (Hp : toLowerCaseASCII name <> "").
  { unfold validHostnamePattern, validHostname in Hn. by destruct name. }
  fold (canonical h). rewrite bool_decide_eq_false_2 by tauto. set (p := toLowerCaseASCII name) in *. set (c := canonical h) in *.
  destruct (Split_cons "." p) as (ph & pt & Ep), (Split_cons "." c) as (ch & ct & Ec). rewrite Ep, Ec.
  pose proof (split_head _ _ _ Ep) as [Hp1 Hp2]. pose proof (split_head _ _ _ Ec) as [Hc1 Hc2]. split.
  - intros Hm. bool_to_prop. subst ct. match goal with H : _ || _ = true |- _ => apply orb_true_iff in H as [Hh|Hh] end; bool_to_prop; subst ph.
    + right. exists ch, (match pt with [] => "" | _ => String "." (Join pt ".") end). split_and!; try done.
      * intros ->. destruct pt as [|p1 pt]; [by apply Hne, Hc1|]. by eapply Hdot, Hc1.
      * destruct pt; [by left|right; eauto].
    + left. apply (Split_inj "."). by rewrite Ep, Ec.
  - intros [E|(label & rest & E1 & E2 & _ & Hf & Hr)].
    + rewrite E, Ec in Ep. injection Ep as -> ->. rewrite Nat.eqb_refl. by repeat case_bool_decide.
    + rewrite E1, (split_of_rest "*" rest eq_refl Hr) in Ep. rewrite E2, (split_of_rest label rest Hf Hr) in Ec.
      injection Ep as <- <-. injection Ec as <- <-. rewrite Nat.eqb_refl. by repeat case_bool_decide.
Qed.

(** *** Well-formed names *)

Definition name_chars : string := "abcdefghijklmnopqrstuvwxyzABCDEFGHIJKLMNOPQRSTUVWXYZ0123456789_".
(** A label: letters, digits and underscores, and dashes but not as the first character. *)
Definition label (l : string) : Prop :=
  exists a s, l = String a s /\ contains_char a name_chars = true /\
    forall b, contains_char b s = true -> contains_char b name_chars = true \/ b = "-"%char.
(** Labels with dots between them; a pattern may have a star for the first one. *)
Definition well_formed (n : string) : Prop := Forall label (Split "." n).
Definition pattern (n : string) : Prop := well_formed n \/ exists rest, Split "." n = "*" :: rest /\ Forall label rest.

Lemma host_char_spec (first : bool) (c : ascii) : host_char first c = contains_char c name_chars || (negb first && bool_decide (c = "-"%char)).
Proof. destruct c as [[] [] [] [] [] [] [] []], first; vm_compute; reflexivity. Qed.
Lemma host_chars_spec (s : string) : host_chars false s = true <->
  forall b, contains_char b s = true -> contains_char b name_chars = true \/ b = "-"%char.
Proof.
  induction s as [|c s IH]; cbn [host_chars contains_char]; [done|]. rewrite andb_true_iff, IH, host_char_spec. cbn [negb andb]. rewrite orb_true_iff, bool_decide_eq_true.
  split; [|by intros Hb; split; [apply Hb; by rewrite decide_True|intros b Hbs; apply Hb; case_decide]].
  intros [Hc Hs] b. case_decide as E; [by subst|apply Hs].
Qed.
Lemma label_spec (l : string) : valid_part l = true <-> label l.
Proof.
  unfold valid_part, label. destruct l as [|a s]; [split; [done|by intros (? & ? & ? & _)]|].
  rewrite bool_decide_eq_false_2 by done. cbn [negb andb host_chars]. rewrite andb_true_iff, host_chars_spec, host_char_spec. cbn [negb andb]. rewrite orb_false_r.
  split; [intros [? ?]; by exists a, s|]. by intros (? & ? & [= <- <-] & ?).
Qed.
Lemma labels_spec (l : list string) : forallb valid_part l = true <-> Forall label l.
Proof. rewrite forallb_forall, Forall_forall. setoid_rewrite <- list_elem_of_In. by setoid_rewrite label_spec. Qed.
Lemma pattern_spec (n : string) : validHostnamePattern n = true <-> pattern n.
Proof.
  unfold validHostnamePattern, validHostname, pattern, well_formed. destruct (decide (n = "")) as [->|Hn].
  { split; [done|]. intros [Hl%Forall_inv|(rest & [=] & _)]. by destruct Hl as (? & ? & ? & _). }
  rewrite bool_decide_eq_false_2 by done. destruct (Split_cons "." n) as (p & ps & ->).
  rewrite andb_true_iff, orb_true_iff, labels_spec, label_spec, Forall_cons. cbn [andb]. rewrite bool_decide_eq_true. naive_solver.
Qed.
Lemma input_spec (h : string) : validHostnameInput h = true <-> well_formed (TrimSuffix h ".").
Proof.
  unfold validHostnameInput, validHostname, well_formed. generalize (TrimSuffix h "."). intros n. destruct (decide (n = "")) as [->|Hn].
  { split; [done|]. intros Hl%Forall_inv. by destruct Hl as (? & ? & ? & _). }
  rewrite bool_decide_eq_false_2 by done. destruct (Split_cons "." n) as (p & ps & ->).
  rewrite andb_true_iff, labels_spec, Forall_cons. cbn [andb orb]. by rewrite label_spec.
Qed.

(** *** What a certificate is for *)

(** The names of a certificate: its common name, if it has no alternative names and this is a
    pattern; else its DNS names. *)
Definition named (c : Cert) (name : string) : Prop :=
  let by_common := [2; 5; 29; 17]%Z ∉ Extensions c /\ pattern (CommonName c) in
  (by_common /\ name = CommonName c) \/ (~ by_common /\ name ∈ DNSNames c).
(** The address that a host may be: without the brackets around an IPv6 address. *)
Definition address_text (h a : string) : Prop :=
  let bracketed x := x <> "" /\ h = "[" +:+ x +:+ "]" in
  bracketed a \/ (~ (exists x, bracketed x) /\ a = h).

Lemma named_spec (c : Cert) (name : string) : name ∈ cert_names c <-> named c name.
Proof.
  unfold cert_names, named, commonNameAsHostname, hasSANExtension, oidInExtensions, oidExtensionSubjectAltName.
  assert (E : existsb (fun e => bool_decide (e = [2; 5; 29; 17]%Z)) (Extensions c) = true <-> [2; 5; 29; 17]%Z ∈ Extensions c).
  { rewrite existsb_exists. setoid_rewrite bool_decide_eq_true. setoid_rewrite <- list_elem_of_In. naive_solver. }
  rewrite <- E, <- pattern_spec. destruct (existsb _ _); cbn [negb andb]; [naive_solver|].
  destruct (validHostnamePattern _); [rewrite list_elem_of_singleton|]; naive_solver.
Qed.
Lemma suffix_spec (s p : string) : HasSuffix s p = true <-> exists r, s = r +:+ p.
Proof.
  unfold HasSuffix. rewrite andb_true_iff, Nat.leb_le, bool_decide_eq_true. split.
  - intros [_ E]. exists (stake (String.length s - String.length p) s). rewrite <- (stake_sdrop (String.length s - String.length p) s) at 1. by rewrite E.
  - intros (r & ->). rewrite length_string_app. split; [lia|]. replace (String.length r + String.length p - String.length p)%nat with (String.length r) by lia. apply sdrop_app.
Qed.
Lemma bracketed_spec (h : string) : (3 <=? String.length h)%nat && HasPrefix h "[" && HasSuffix h "]" = true <-> exists x, x <> "" /\ h = "[" +:+ x +:+ "]".
Proof.
  rewrite !andb_true_iff, Nat.leb_le, HasPrefix_spec, suffix_spec. split.
  - intros [[Hl (r & ->)] (r' & E)]. rewrite E, length_string_app in Hl. destruct r' as [|a x]; [cbn in Hl; lia|]. change (String "[" r = String a (x +:+ "]")) in E. injection E as <- ->. exists x.
    split; [|done]. intros ->. cbn in Hl. lia.
  - intros (x & Hx & ->). split; [split; [|by eexists]|exists ("[" +:+ x); by rewrite string_app_assoc].
    rewrite !length_string_app. cbn. destruct x; [done|]. cbn. lia.
Qed.
Lemma address_spec (h a : string) : address_text h a <-> a = candidateIP h.
Proof.
  unfold address_text, candidateIP. pose proof (bracketed_spec h) as Hb. destruct (_ && _) eqn:E.
  - destruct (proj1 Hb eq_refl) as (x & Hx & ->).
    assert (stake (String.length ("[" +:+ x +:+ "]") - 2) (sdrop 1 ("[" +:+ x +:+ "]")) = x) as ->.
    { rewrite !length_string_app. cbn [String.length Nat.add]. replace (S (String.length x + 1) - 2)%nat with (String.length x) by lia. apply stake_app. }
    split; [intros [[_ Ea]|[[] _]]; [|by exists x]|intros ->; by left]. change (String "[" (x +:+ "]") = String "[" (a +:+ "]")) in Ea. injection Ea as Ea.
    assert (El : String.length x = String.length a) by (apply (f_equal String.length) in Ea; rewrite !length_string_app in Ea; lia).
    rewrite <- (stake_app a "]"), <- Ea, <- El. apply stake_app.
  - split; [intros [?|[_ ->]]; [|done]|intros ->; right; split; [|done]; intros Hx; by apply Hb in Hx].
    assert (false = true) by (apply Hb; by exists a). done.
Qed.
Lemma exactly_spec (name h : string) : matchExactly name (ToLower h) = true <-> ToLower name = ToLower h /\ name ∉ [""; "."] /\ h ∉ [""; "."].
Proof.
  assert (E : ToLower h ∈ [""; "."] <-> h ∈ [""; "."]).
  { rewrite !elem_of_cons. destruct h as [|a [|b h]]; cbn; [naive_solver| |split; intros [|[|?%not_elem_of_nil]]; done].
    split; intros [|[[= Ha]|?%not_elem_of_nil]]; try done; right; left; [by apply lower_dot in Ha as ->|by subst]. }
  unfold matchExactly, toLowerCaseASCII. rewrite ToLower_idemp. rewrite <- E, !elem_of_cons. clear E. pose proof (not_elem_of_nil name). pose proof (not_elem_of_nil (ToLower h)).
  case_bool_decide; [|rewrite bool_decide_eq_true]; intuition congruence.
Qed.

(** C37: host names of certificates, for any certificate and any host.  A host that is an IP
    address, in brackets or not, is accepted exactly when the address is one of the
    certificate's.  Any other host is accepted exactly when one of the names of the
    certificate is for it; these are the DNS names, or the common name of a certificate that
    has no alternative names, if it is a pattern.  A pattern is for a well-formed host if it
    is equal to it up to case and a final dot, or equal after a star that stands for one whole
    label; otherwise a name is for a host only if they are equal up to case, and neither
    empty nor a dot. *)
Theorem hostname_covers (c : Cert) (h : string) :
  VerifyHostname c h = true <->
    exists a, address_text h a /\
    match ParseIP a with
    | Some ip => ip ∈ IPAddresses c
    | None => exists name, named c name /\
        ((well_formed (TrimSuffix (ToLower h) ".") /\ pattern name /\ covers (ToLower name) (canonical h)) \/
         (~ (well_formed (TrimSuffix (ToLower h) ".") /\ pattern name) /\ ToLower name = ToLower h /\ name ∉ [""; "."] /\ h ∉ [""; "."]))
    end.
Proof.
  setoid_rewrite address_spec. transitivity (match ParseIP (candidateIP h) with
    | Some ip => ip ∈ IPAddresses c
    | None => exists name, named c name /\
        ((well_formed (TrimSuffix (ToLower h) ".") /\ pattern name /\ covers (ToLower name) (canonical h)) \/
         (~ (well_formed (TrimSuffix (ToLower h) ".") /\ pattern name) /\ ToLower name = ToLower h /\ name ∉ [""; "."] /\ h ∉ [""; "."])) end); [|naive_solver].
  unfold VerifyHostname. destruct (ParseIP _) as [ip|]; [by rewrite bool_decide_eq_true|].
  rewrite existsb_exists. setoid_rewrite <- list_elem_of_In. setoid_rewrite named_spec. unfold toLowerCaseASCII.
  split; intros (name & Hin & Hm); exists name; (split; [exact Hin|]).
  - destruct (validHostnameInput (ToLower h) && validHostnamePattern name) eqn:E.
    + apply andb_true_iff in E as [E1 E2]. left. split; [by apply input_spec|]. split; [by apply pattern_spec|]. by apply matchHostnames_spec in Hm.
    + right. split; [|by apply exactly_spec]. rewrite <- input_spec, <- pattern_spec, <- andb_true_iff. by rewrite E.
  - destruct Hm as [(H1%input_spec & H2%pattern_spec & Hm)|[Hno Hm]].
    + rewrite H1, H2. by apply matchHostnames_spec.
    + rewrite <- input_spec, <- pattern_spec, <- andb_true_iff in Hno. apply not_true_iff_false in Hno. rewrite Hno. by apply exactly_spec.
Qed.

End hostname.

(** ** A concrete certificate: its addresses, DNS names and common name. *)
Record example_cert := mkCert { addresses : list string; names : list string; common : string }.
#[export] Instance example_host_cert : HostCert example_cert string := {|
  ParseIP s := if forallb (fun c => negb (is_lower c)) (String.list_ascii_of_string s) then Some s else None;
  IPAddresses := addresses; DNSNames := names; CommonName := common;
  Extensions c := match names c with [] => [] | _ => [[2; 5; 29; 17]%Z] end
|}.

Definition example_wildcard : example_cert := mkCert ["10.0.0.1"] ["*.Example.com"] "other.org".

(** One label, not two and not none; the common name does not count. *)
Example wildcard_hosts :
  VerifyHostname example_wildcard <$> ["api.example.COM."; "a.b.example.com"; "example.com"; "other.org"; "[10.0.0.1]"; "10.0.0.2"]
  = [true; false; false; false; true; false].
Proof. vm_compute. reflexivity. Qed.

Lemma hostname_covers_witness :
  VerifyHostname example_wildcard "[10.0.0.1]" = true /\ VerifyHostname example_wildcard "10.0.0.2" = false /\ VerifyHostname example_wildcard "api.example.com" = true.
Proof.
  split; [|split].
  - apply (hostname_covers example_wildcard "[10.0.0.1]"). exists "10.0.0.1". split; [left; by split|]. vm_compute. by left.
  - apply not_true_iff_false. intros (a & [[_ [=]]|[_ ->]] & Ha)%(hostname_covers example_wildcard "10.0.0.2"). vm_compute in Ha.
    apply list_elem_of_singleton in Ha. discriminate Ha.
  - apply (hostname_covers example_wildcard "api.example.com"). exists "api.example.com". split; [right; split; [by intros (x & _ & [=])|done]|].
    change (ParseIP "api.example.com") with (@None string). cbv iota. exists "*.Example.com". split.
    + right. split; [|by left]. intros [Hno _]. apply Hno. by left.
    + left. split; [by apply input_spec|]. split; [by apply pattern_spec|]. right. exists "api", ".example.com". split; [done|].
      split; [vm_compute; done|]. split; [done|]. split; [done|]. right. by eexists.
Defined.

End Hostname.
