(* ===== verification/Pkix.v ===== *)
(** * Certificates and keys ([pkix/key.go], [cert.go], [csr.go], [cert_host.go], [cert_auth.go],
    [certificate/generator.go]).

    Certificates are made from templates and signed by the key of an authority.  The codecs and
    the signatures of [crypto/x509], [crypto/rsa] and [encoding/pem] are operations of a class; a
    time is a number of nanoseconds, and readings of the clock are arguments, in the order of the
    calls.  Bytes are strings. *)

From S2P Require Import Prelude GoStrings.
From Stdlib Require Import Ascii.

Open Scope string_scope.
Open Scope list_scope.

Module Pkix.

(** [pem.Block]; a private or public key, RSA or of another kind. *)
Record pem_block := mkBlock { Type_ : string; Headers : list (string * string); Bytes : string }.
Inductive key_of (K : Type) := RSA (k : K) | OtherKey.
Arguments RSA {_}. Arguments OtherKey {_}.

(** [pkix.Name] *)
Record Name := mkName {
  CommonName : string; OrganizationalUnit : list string; Organization : list string; Country : list string; Province : list string; Locality : list string
}.
#[export] Instance Name_dec : EqDecision Name.
Proof. solve_decision. Defined.

Section pkix.
Context {Priv Pub IP URI : Type}.

(** [x509.Certificate], as a template and as a parsed certificate, which has its public key. *)
Record x509 := mkX509 {
  SerialNumber : Z; Subject : Name; NotBefore : Z; NotAfter : Z; KeyUsage : list string; ExtKeyUsage : list string;
  BasicConstraintsValid : bool; IsCA : bool; MaxPathLen : Z; MaxPathLenZero : bool; SubjectKeyId : string;
  DNSNames : list string; IPAddresses : list IP; URIs : list URI; PublicKey : option (key_of Pub)
}.
(** [x509.CertificateRequest] *)
Record x509_request := mkRequest {
  r_Subject : Name; r_DNSNames : list string; r_IPAddresses : list IP; r_URIs : list URI; r_PublicKey : key_of Pub
}.

(** The operations of the libraries. *)
Class Crypto := {
  pem_Decode : string -> option pem_block;
  pem_Encode : pem_block -> gores string;
  GenerateKey : Z -> Z -> gores Priv; (* randomness, bits *)
  public : Priv -> Pub;
  MarshalPKCS1PrivateKey : Priv -> string;
  ParsePKCS1PrivateKey : string -> gores Priv;
  DecryptPEMBlock : pem_block -> string -> gores string;
  EncryptPEMBlock : string -> string -> string -> gores pem_block;
  ParseCertificates : string -> gores (list x509);
  ParseCertificateRequest : string -> gores x509_request;
  CreateCertificateRequest : x509_request -> key_of Priv -> gores string;
  x509_CreateCertificate : x509 -> x509 -> key_of Pub -> key_of Priv -> gores string;
  key_hash : Pub -> gores string; (* SHA-1 of the ASN.1 form *)
  CheckSignatureFrom : x509 -> x509 -> gores unit;
  Verify : x509 -> x509 -> Z -> gores (list (list x509));
  ParseIP : string -> option IP
}.
Context `{Crypto}.

(** ** Keys ([key.go]) *)

Definition rsaPrivateKeyPEMBlockType : string := "RSA PRIVATE KEY".
Record Key := mkKey { Public : key_of Pub; Private : key_of Priv }.
Definition NewKey (pub : key_of Pub) (priv : key_of Priv) : Key := mkKey pub priv.
Definition rsa_key (priv : Priv) : Key := NewKey (RSA (public priv)) (RSA priv).

Definition CreateRSAKey (random bits : Z) : gores Key := priv ← GenerateKey random bits; Ok (rsa_key priv).
Definition next_block (data : string) : gores pem_block :=
  match pem_Decode data with None => Err "cannot find the next PEM formatted block" | Some b => Ok b end.
Definition NewKeyFromPrivateKeyPEM (data : string) : gores Key :=
  pemBlock ← next_block data;
  if bool_decide (Type_ pemBlock <> rsaPrivateKeyPEMBlockType \/ length (Headers pemBlock) <> 0%nat) then Err "unmatched type or headers"
  else priv ← ParsePKCS1PrivateKey (Bytes pemBlock); Ok (rsa_key priv).
Definition NewKeyFromEncryptedPrivateKeyPEM (data password : string) : gores Key :=
  pemBlock ← next_block data;
  if bool_decide (Type_ pemBlock <> rsaPrivateKeyPEMBlockType) then Err "unmatched type or headers"
  else
    b ← DecryptPEMBlock pemBlock password;
    priv ← ParsePKCS1PrivateKey b; Ok (rsa_key priv).
Definition ExportPrivate (k : Key) : gores string :=
  match Private k with
  | RSA priv => pem_Encode (mkBlock rsaPrivateKeyPEMBlockType [] (MarshalPKCS1PrivateKey priv))
  | OtherKey => Err "only RSA private key is supported"
  end.
Definition ExportEncryptedPrivate (k : Key) (password : string) : gores string :=
  match Private k with
  | RSA priv => b ← EncryptPEMBlock rsaPrivateKeyPEMBlockType (MarshalPKCS1PrivateKey priv) password; pem_Encode b
  | OtherKey => Err "only RSA private key is supported"
  end.
Definition GenerateSubjectKeyID (pub : key_of Pub) : gores string :=
  match pub with RSA p => key_hash p | OtherKey => Err "only RSA public key is supported" end.

(** ** Certificates ([cert.go]) *)

Definition certificatePEMBlockType : string := "CERTIFICATE".
(** The parsed certificate is kept once it was needed. *)
Record Certificate := mkCertificate { derBytes : string; crt : option x509 }.
Definition NewCertificateFromDER (derBytes : string) : Certificate := mkCertificate derBytes None.
Definition NewCertificateFromPEM (data : string) : gores Certificate :=
  pemBlock ← next_block data;
  if bool_decide (Type_ pemBlock <> certificatePEMBlockType \/ length (Headers pemBlock) <> 0%nat) then Err "unmatched type or headers"
  else Ok (NewCertificateFromDER (Bytes pemBlock)).

Definition buildX509Certificate (c : Certificate) : Certificate * gores unit :=
  match crt c with
  | Some _ => (c, Ok ())
  | None =>
      match ParseCertificates (derBytes c) with
      | Ok [x] => (mkCertificate (derBytes c) (Some x), Ok ())
      | Ok _ => (c, Err "unsupported multiple certificates in a block")
      | Err e => (c, Err e)
      | Panic e => (c, Panic e)
      end
  end.
Definition GetRawCertificate (c : Certificate) : Certificate * gores x509 :=
  let '(c, r) := buildX509Certificate c in
  (c, _ ← r; match crt c with Some x => Ok x | None => Panic "nil certificate" end).

(** [Time.Sub] gives the nearest duration. *)
Definition maxDuration : Z := 2 ^ 63 - 1.
Definition minDuration : Z := - 2 ^ 63.
Definition Sub (t u : Z) : Z := Z.max minDuration (Z.min maxDuration (t - u)).

Definition GetExpirationDuration (c : Certificate) (now : Z) : Certificate * Z :=
  let '(c, r) := buildX509Certificate c in
  (c, match r, crt c with Ok _, Some x => Sub (NotAfter x) now | _, _ => Sub 0 now end).
Definition CheckAuthority (c : Certificate) : Certificate * gores unit :=
  let '(c, r) := buildX509Certificate c in
  (c, _ ← r; match crt c with Some x => CheckSignatureFrom x x | None => Panic "nil certificate" end).
(** A certificate of this authority, for the unit [name]. *)
Definition VerifyHost (c hostCert : Certificate) (name : string) (now : Z) : gores unit :=
  let '(c, r) := CheckAuthority c in
  _ ← r;
  root ← (match crt c with Some x => Ok x | None => Panic "nil certificate" end);
  rawHostCrt ← (GetRawCertificate hostCert).2;
  let units := OrganizationalUnit (Subject rawHostCrt) in
  if bool_decide (units <> [name]) then Err "unmatched hostname"
  else
    chains ← Verify rawHostCrt root now;
    if bool_decide (length chains <> 1%nat) then Err "internal error: verify chain number != 1" else Ok ().
Definition Export (c : Certificate) : gores string := pem_Encode (mkBlock certificatePEMBlockType [] (derBytes c)).

(** ** Requests ([csr.go]) *)

Definition csrPEMBlockType : string := "CERTIFICATE REQUEST".
Definition oldCsrPEMBlockType : string := "NEW CERTIFICATE REQUEST".
Record CertificateSigningRequest := mkCsr { csr_derBytes : string; cr : option x509_request }.
Definition NewCertificateSigningRequestFromDER (derBytes : string) : CertificateSigningRequest := mkCsr derBytes None.
Definition NewCertificateSigningRequestFromPEM (data : string) : gores CertificateSigningRequest :=
  pemBlock ← next_block data;
  if bool_decide ((Type_ pemBlock <> csrPEMBlockType /\ Type_ pemBlock <> oldCsrPEMBlockType) \/ length (Headers pemBlock) <> 0%nat)
  then Err "unmatched type or headers" else Ok (NewCertificateSigningRequestFromDER (Bytes pemBlock)).

Definition one (s : string) : list string := if bool_decide (s <> "") then [s] else [].
Definition CreateCertificateSigningRequest (key : Key) (organizationalUnit : string) (ipList : list IP) (domainList : list string) (uriList : list URI)
    (organization country province locality commonName : string) : gores CertificateSigningRequest :=
  let csrPkixName := mkName commonName (one organizationalUnit) (one organization) (one country) (one province) (one locality) in
  csrBytes ← CreateCertificateRequest (mkRequest csrPkixName domainList ipList uriList (Public key)) (Private key);
  Ok (NewCertificateSigningRequestFromDER csrBytes).
Definition GetRawCertificateSigningRequest (c : CertificateSigningRequest) : CertificateSigningRequest * gores x509_request :=
  match cr c with
  | Some r => (c, Ok r)
  | None =>
      match ParseCertificateRequest (csr_derBytes c) with
      | Ok r => (mkCsr (csr_derBytes c) (Some r), Ok r)
      | Err e => (c, Err e)
      | Panic e => (c, Panic e)
      end
  end.
Definition csr_Export (c : CertificateSigningRequest) : gores string := pem_Encode (mkBlock csrPEMBlockType [] (csr_derBytes c)).

(** Comma-separated addresses. *)
Fixpoint parse_ips (ips : list string) : gores (list IP) :=
  match ips with
  | [] => Ok []
  | ip :: ips => match ParseIP ip with None => Err "Invalid IP address" | Some p => res ← parse_ips ips; Ok (p :: res) end
  end.
Definition ParseAndValidateIPs (ipList : string) : gores (list IP) := if bool_decide (ipList = "") then Ok [] else parse_ips (Split ","%char ipList).

(** ** Certificates of hosts ([cert_host.go]) and of authorities ([cert_auth.go]) *)

Definition second : Z := 10 ^ 9.
Definition earlier (t u : Z) : Z := if (t <? u)%Z then t else u.

(** The readings of the clock: for the template, and for the expiration of the authority, before
    and inside [GetExpirationDuration]. *)
Definition CreateCertificateHost (crtAuth : Certificate) (keyAuth : Key) (csr : CertificateSigningRequest) (proposedExpiry : Z)
    (now1 now2 now3 : Z) (serial : gores Z) : gores Certificate :=
  serialNumber ← serial;
  rawCsr ← (GetRawCertificateSigningRequest csr).2;
  let '(crtAuth, remaining) := GetExpirationDuration crtAuth now3 in
  let caExpiry := (now2 + remaining)%Z in
  keyId ← GenerateSubjectKeyID (r_PublicKey rawCsr);
  rawCrtAuth ← (GetRawCertificate crtAuth).2;
  let hostTemplate := mkX509 serialNumber (r_Subject rawCsr) (now1 - 60 * second) (earlier caExpiry proposedExpiry)
    ["KeyEncipherment"; "DataEncipherment"; "DigitalSignature"; "KeyAgreement"] ["ServerAuth"; "ClientAuth"]
    false false 0 false keyId (r_DNSNames rawCsr) (r_IPAddresses rawCsr) (r_URIs rawCsr) None in
  crtHostBytes ← x509_CreateCertificate hostTemplate rawCrtAuth (r_PublicKey rawCsr) (Private keyAuth);
  Ok (NewCertificateFromDER crtHostBytes).

(** The comment promises a day; the number is one of nanoseconds. *)
Definition newAuthTemplate (serialNumber now : Z) (name : Name) (expiry : Z) (keyId : string) : x509 :=
  mkX509 serialNumber name (now + -(60 * 60 * 24)) expiry ["CertSign"; "CRLSign"] [] true true 1 false keyId [] [] [] None.
Definition CreateCertificateAuthority (key : Key) (organizationalUnit : string) (expiry : Z) (organization country province locality commonName : string)
    (now serialNumber : Z) : gores Certificate :=
  subjectKeyID ← GenerateSubjectKeyID (Public key);
  let name := mkName commonName (one organizationalUnit) (one organization) (one country) (one province) (one locality) in
  let authTemplate := newAuthTemplate serialNumber now name expiry subjectKeyID in
  crtBytes ← x509_CreateCertificate authTemplate authTemplate (Public key) (Private key);
  Ok (NewCertificateFromDER crtBytes).
Definition CreateIntermediateCertificateAuthority (crtAuth : Certificate) (keyAuth : Key) (csr : CertificateSigningRequest) (proposedExpiry : Z)
    (now1 now2 now3 : Z) (serial : gores Z) : gores Certificate :=
  serialNumber ← serial;
  rawCsr ← (GetRawCertificateSigningRequest csr).2;
  let '(crtAuth, remaining) := GetExpirationDuration crtAuth now3 in
  let caExpiry := (now2 + remaining)%Z in
  keyId ← GenerateSubjectKeyID (r_PublicKey rawCsr);
  rawCrtAuth ← (GetRawCertificate crtAuth).2;
  let t := newAuthTemplate serialNumber now1 (r_Subject rawCsr) (earlier caExpiry proposedExpiry) keyId in
  let authTemplate := mkX509 (SerialNumber t) (Subject t) (NotBefore t) (NotAfter t) (KeyUsage t) (ExtKeyUsage t) (BasicConstraintsValid t) (IsCA t)
    (MaxPathLen t) true (SubjectKeyId t) (r_DNSNames rawCsr) (r_IPAddresses rawCsr) (r_URIs rawCsr) None in
  crtOutBytes ← x509_CreateCertificate authTemplate rawCrtAuth (r_PublicKey rawCsr) (Private keyAuth);
  Ok (NewCertificateFromDER crtOutBytes).

(** ** Issuing ([certificate/generator.go]) *)

Record CreateCertOptions := mkCreateOptions {
  caProvider : option (gores (string * string * string)); domainList : list string; ipList : list string; validDuration : Z; bits : Z;
  certChain : bool; commonName : string
}.
Definition CreateCertOpt : Type := CreateCertOptions -> gores CreateCertOptions.
Definition hour : Z := 3600 * second.
Definition defaultCreateOptions : CreateCertOptions := mkCreateOptions None [] [] (hour * 24 * 365 * 2) 2048 false "".
Definition CreateCertWithDomainList (l : list string) : CreateCertOpt := fun o =>
  Ok (mkCreateOptions (caProvider o) l (ipList o) (validDuration o) (bits o) (certChain o) (commonName o)).
Definition CreateCertWithIpList (l : list string) : CreateCertOpt := fun o =>
  Ok (mkCreateOptions (caProvider o) (domainList o) l (validDuration o) (bits o) (certChain o) (commonName o)).
Definition CreateCertWithCAProvider (p : option (gores (string * string * string))) : CreateCertOpt := fun o =>
  Ok (mkCreateOptions p (domainList o) (ipList o) (validDuration o) (bits o) (certChain o) (commonName o)).
Definition CreateCertWithValidDuration (d : Z) : CreateCertOpt := fun o =>
  Ok (mkCreateOptions (caProvider o) (domainList o) (ipList o) d (bits o) (certChain o) (commonName o)).
Definition CreateCertWithPubKeyBits (b : Z) : CreateCertOpt := fun o =>
  Ok (mkCreateOptions (caProvider o) (domainList o) (ipList o) (validDuration o) b (certChain o) (commonName o)).
Definition CreateCertWithCertChain (c : bool) : CreateCertOpt := fun o =>
  Ok (mkCreateOptions (caProvider o) (domainList o) (ipList o) (validDuration o) (bits o) c (commonName o)).
Definition CreateCertWithCommonName (n : string) : CreateCertOpt := fun o =>
  Ok (mkCreateOptions (caProvider o) (domainList o) (ipList o) (validDuration o) (bits o) (certChain o) n).

Fixpoint apply_options (opt : list CreateCertOpt) (o : CreateCertOptions) : gores CreateCertOptions :=
  match opt with [] => Ok o | f :: opt => o ← f o; apply_options opt o end.

(** The readings of the clock and the randomness of one call. *)
Record draws := mkDraws { d_key : Z; d_serial : gores Z; d_now : Z; d_now1 : Z; d_now2 : Z; d_now3 : Z }.

Definition ensure (b : bool) (e : string) : gores unit := if b then Ok () else Err e.
Definition issue (opts : CreateCertOptions) (cert key passphrase : string) (d : draws) : gores (string * string) :=
  rsaKey ← CreateRSAKey (d_key d) (bits opts);
  csr ← CreateCertificateSigningRequest rsaKey "" (omap ParseIP (ipList opts)) (domainList opts) [] "QAX" "CN" "" "" (commonName opts);
  caCert ← NewCertificateFromPEM cert;
  let '(caCert, r) := GetRawCertificate caCert in
  rawCaCert ← r;
  _ ← ensure (IsCA rawCaCert) "selected CA certificate is not allowed to sign certificates";
  caKey ← (if bool_decide (passphrase = "") then NewKeyFromPrivateKeyPEM key else NewKeyFromEncryptedPrivateKeyPEM key passphrase);
  crt ← CreateCertificateHost caCert caKey csr (d_now d + validDuration opts) (d_now1 d) (d_now2 d) (d_now3 d) (d_serial d);
  crtExport ← Export crt;
  keyExport ← ExportPrivate rsaKey;
  Ok (if certChain opts then (crtExport +:+ cert, keyExport) else (crtExport, keyExport)).
Definition CreateCertPEM (opt : list CreateCertOpt) (d : draws) : gores (string * string) :=
  opts ← apply_options opt defaultCreateOptions;
  match caProvider opts with
  | None => Err "no CA provider found"
  | Some provided =>
      '(cert, key, passphrase) ← provided;
      _ ← ensure (negb (bool_decide (cert = ""))) "intermediate CA certificate is nil";
      _ ← ensure (negb (bool_decide (key = ""))) "intermediate CA key is nil";
      issue opts cert key passphrase d
  end.

(** ** What is issued *)

(** May this certificate have signed others?  It is marked as an authority, and its key usages,
    if it has any, allow it. *)
Definition may_sign (x : x509) : Prop := BasicConstraintsValid x = true /\ IsCA x = true /\ (KeyUsage x = [] \/ "CertSign" ∈ KeyUsage x).

(** What the libraries document.  Times are encoded in seconds; a signature counts only when
    the parent may sign. *)
Class CryptoLaws := {
  decode_encode b s rest : pem_Encode b = Ok s -> Headers b = [] -> pem_Decode (s +:+ rest) = Some b;
  parse_marshal k : ParsePKCS1PrivateKey (MarshalPKCS1PrivateKey k) = Ok k;
  parse_request r k der : CreateCertificateRequest r (RSA k) = Ok der ->
    ParseCertificateRequest der = Ok (mkRequest (r_Subject r) (r_DNSNames r) (r_IPAddresses r) (r_URIs r) (RSA (public k)));
  parse_created t p pub priv der : x509_CreateCertificate t p pub priv = Ok der ->
    exists x, ParseCertificates der = Ok [x] /\ SerialNumber x = SerialNumber t /\ Subject x = Subject t /\
      (NotBefore x <= NotBefore t < NotBefore x + second)%Z /\ (NotAfter x <= NotAfter t < NotAfter x + second)%Z /\
      IsCA x = BasicConstraintsValid t && IsCA t /\ DNSNames x = DNSNames t /\ IPAddresses x = IPAddresses t /\ PublicKey x = Some pub /\
      (forall k, priv = RSA k -> PublicKey p = Some (RSA (public k)) -> may_sign p -> CheckSignatureFrom x p = Ok ())
}.
Context `{!CryptoLaws}.

Lemma ensure_ok b e : ensure b e = Ok () <-> b = true.
Proof. by destruct b. Qed.
Lemma export_parse c s rest : Export c = Ok s -> NewCertificateFromPEM (s +:+ rest) = Ok (NewCertificateFromDER (derBytes c)).
Proof. intros He. unfold NewCertificateFromPEM, next_block. by rewrite (decode_encode _ _ _ He eq_refl). Qed.
Lemma export_key_parse k s : ExportPrivate (rsa_key k) = Ok s -> NewKeyFromPrivateKeyPEM s = Ok (rsa_key k).
Proof.
  intros He. unfold NewKeyFromPrivateKeyPEM, next_block. pose proof (decode_encode _ _ "" He eq_refl) as Hd. rewrite string_app_nil_r in Hd.
  rewrite Hd. cbn. by rewrite parse_marshal.
Qed.

(** The parsed form of a certificate does not depend on what was kept. *)
Definition parsed (c : Certificate) : Prop := forall x, crt c = Some x -> ParseCertificates (derBytes c) = Ok [x].
Lemma pem_parsed s c : NewCertificateFromPEM s = Ok c -> parsed c.
Proof.
  unfold NewCertificateFromPEM. intros (b & _ & Hb)%gores_bind_ok. case_bool_decide; [done|]. injection Hb as <-. by intros x.
Qed.
Lemma raw_certificate c x c' : parsed c -> GetRawCertificate c = (c', Ok x) -> crt c' = Some x /\ parsed c' /\ ParseCertificates (derBytes c) = Ok [x].
Proof.
  unfold GetRawCertificate, buildX509Certificate. intros Hp. destruct (crt c) as [y|] eqn:Ec.
  - rewrite Ec. intros [= <- <-]. by rewrite Ec, (Hp y).
  - destruct (ParseCertificates (derBytes c)) as [[|y [|]]|e|e] eqn:E; try done. intros [= <- <-]. split_and!; [done| |done]. by intros z [= <-].
Qed.

(** An authority does not sign beyond its own end. *)
Lemma host_certificate ca caKey csr expiry now1 now2 now3 serial c r x : crt ca = Some x -> (GetRawCertificateSigningRequest csr).2 = Ok r ->
  (now2 <= now3)%Z -> (minDuration <= NotAfter x - now3)%Z ->
  CreateCertificateHost ca caKey csr expiry now1 now2 now3 serial = Ok c ->
  exists t, crt c = None /\ x509_CreateCertificate t x (r_PublicKey r) (Private caKey) = Ok (derBytes c) /\ (NotAfter t <= NotAfter x)%Z /\
    (NotAfter t <= expiry)%Z /\ Subject t = r_Subject r /\ BasicConstraintsValid t = false /\ DNSNames t = r_DNSNames r /\
    IPAddresses t = r_IPAddresses r.
Proof.
  intros Hx Hr Hclock Hmin. unfold CreateCertificateHost. intros (serialNumber & _ & Hc)%gores_bind_ok. rewrite Hr in Hc. cbn [mbind gores_bind] in Hc.
  unfold GetExpirationDuration, GetRawCertificate, buildX509Certificate in Hc. rewrite Hx in Hc. cbn [snd] in Hc. rewrite Hx in Hc. cbn [snd mbind gores_bind] in Hc.
  apply gores_bind_ok in Hc as (keyId & _ & Hc). rewrite Hx in Hc. cbn [mbind gores_bind] in Hc. apply gores_bind_ok in Hc as (der & Hder & [= <-]). eexists. split; [done|]. split; [exact Hder|].
  cbn. assert (now2 + Sub (NotAfter x) now3 <= NotAfter x)%Z as Hle by (unfold Sub, minDuration, maxDuration in *; lia).
  unfold earlier. split_and!; try done; destruct (_ <? expiry)%Z eqn:E; try (apply Z.ltb_lt in E); try (apply Z.ltb_ge in E); lia.
Qed.

(** C35: what is issued.  When the clock does not go back and the authority's certificate did not
    expire centuries ago, a certificate that is issued can be read from its PEM form, with or
    without the chain behind it, and so can its key, which is the one of the certificate.  It has
    the name, domains and addresses that were asked for (addresses that cannot be parsed are left
    out), it is no authority, it expires neither after the authority that issued it, which is
    one, nor after the duration asked for.  The signature is accepted as the authority's if the
    key (that is not encrypted) is the authority's and the authority's certificate may sign
    others: of that only the mark of an authority is checked before signing, not the key
    usages ([signed_without_usage]). *)
Theorem issued_within_authority opt d o ca caKey pass certPEM keyPEM :
  apply_options opt defaultCreateOptions = Ok o -> caProvider o = Some (Ok (ca, caKey, pass)) ->
  (d_now2 d <= d_now3 d)%Z ->
  (forall c x, NewCertificateFromPEM ca = Ok c -> (GetRawCertificate c).2 = Ok x -> (minDuration <= NotAfter x - d_now3 d)%Z) ->
  CreateCertPEM opt d = Ok (certPEM, keyPEM) ->
  exists c x ca_c ca_x k, NewCertificateFromPEM certPEM = Ok c /\ (GetRawCertificate c).2 = Ok x /\
    NewCertificateFromPEM ca = Ok ca_c /\ (GetRawCertificate ca_c).2 = Ok ca_x /\ IsCA ca_x = true /\
    NewKeyFromPrivateKeyPEM keyPEM = Ok (rsa_key k) /\ PublicKey x = Some (RSA (public k)) /\
    CommonName (Subject x) = commonName o /\ DNSNames x = domainList o /\ IPAddresses x = omap ParseIP (ipList o) /\ IsCA x = false /\
    (NotAfter x <= NotAfter ca_x)%Z /\ (NotAfter x <= d_now d + validDuration o)%Z /\
    (forall k', pass = "" -> NewKeyFromPrivateKeyPEM caKey = Ok (rsa_key k') -> PublicKey ca_x = Some (RSA (public k')) -> may_sign ca_x -> CheckSignatureFrom x ca_x = Ok ()).
Proof.
  intros Ho Hca Hclock Hmin. unfold CreateCertPEM. rewrite Ho. cbn [mbind gores_bind]. rewrite Hca. cbn [mbind gores_bind].
  intros ([] & _ & ([] & _ & Hissue)%gores_bind_ok)%gores_bind_ok. revert Hissue. unfold issue.
  intros (rsaKey & Hkey & (csr & Hcsr & (caCert & Hcert & Hissue)%gores_bind_ok)%gores_bind_ok)%gores_bind_ok.
  apply gores_bind_ok in Hkey as (k & _ & [= <-]). apply gores_bind_ok in Hcsr as (csrDer & Hcsr & [= <-]).
  pose proof (parse_request _ _ _ Hcsr) as Hreq. cbn in Hreq.
  destruct (GetRawCertificate caCert) as [caCert' r] eqn:Eraw. apply gores_bind_ok in Hissue as (ca_x & -> & Hissue).
  apply gores_bind_ok in Hissue as ([] & Hisca%ensure_ok & Hissue). apply gores_bind_ok in Hissue as (caK & HcaK & Hissue).
  apply gores_bind_ok in Hissue as (crt & Hcrt & Hissue). apply gores_bind_ok in Hissue as (crtExport & Hexp & Hissue).
  apply gores_bind_ok in Hissue as (keyExport & Hkexp & Hissue).
  pose proof (pem_parsed _ _ Hcert) as Hp.
  destruct (raw_certificate _ _ _ Hp Eraw) as (Hx & _ & _).
  assert (minDuration <= NotAfter ca_x - d_now3 d)%Z as Hm by (by apply (Hmin caCert); [|rewrite Eraw]).
  assert ((GetRawCertificateSigningRequest (NewCertificateSigningRequestFromDER csrDer)).2 =
    Ok (mkRequest (mkName (commonName o) [] ["QAX"] ["CN"] [] []) (domainList o) (omap ParseIP (ipList o)) [] (RSA (public k)))) as Hr.
  { unfold GetRawCertificateSigningRequest. cbn. by rewrite Hreq. }
  destruct (host_certificate _ _ _ _ _ _ _ _ _ _ _ Hx Hr Hclock Hm Hcrt) as (t & Hnone & Hder & Hna & Hexpiry & Hsub & Hbc & Hdns & Hip).
  destruct (parse_created _ _ _ _ _ Hder) as (x & Hparse & _ & Hs & _ & Ht & Hxca & Hd & Hi & Hpub & Hsig).
  exists (NewCertificateFromDER (derBytes crt)), x, caCert, ca_x, k. cbn in Hsub, Hdns, Hip, Hpub.
  assert (exists rest, certPEM = crtExport +:+ rest /\ keyPEM = keyExport) as (rest & -> & ->).
  { destruct (certChain o); injection Hissue as <- <-; [by exists ca|]. exists "". by rewrite string_app_nil_r. }
  split_and!; [by apply export_parse| |done|by rewrite Eraw|done|by apply export_key_parse|done|by rewrite Hs, Hsub|by rewrite Hd|by rewrite Hi|
    by rewrite Hxca, Hbc|lia|lia|].
  - unfold GetRawCertificate, buildX509Certificate. cbn. by rewrite Hparse.
  - intros k' -> Hk' Hpk Hmay. apply (Hsig k'); [|done..]. rewrite bool_decide_eq_true_2, Hk' in HcaK by done. by injection HcaK as <-.
Qed.

(** The validity of an authority of one's own begins 86400 nanoseconds before the call. *)
Lemma authority_starts_now serialNumber now name expiry keyId :
  (now - second < NotBefore (newAuthTemplate serialNumber now name expiry keyId))%Z.
Proof. cbn. unfold second. lia. Qed.

End pkix.
Arguments x509 : clear implicits.
Arguments x509_request : clear implicits.
Arguments Crypto : clear implicits.

(** ** Witness *)

#[export] Instance key_of_dec {K} `{EqDecision K} : EqDecision (key_of K).
Proof. solve_decision. Defined.
Notation cert := (x509 string string unit).
#[export] Instance x509_dec : EqDecision cert.
Proof. solve_decision. Defined.
#[export] Instance x509_request_dec : EqDecision (x509_request string string unit).
Proof. solve_decision. Defined.

Definition example_ca : cert :=
  mkX509 1 (mkName "ca" [] [] [] [] []) 0 (1000 * second) [] [] true true 0 false "" [] [] [] (Some (RSA "ca-key")).
(** An authority that may sign lists of revoked certificates only. *)
Definition example_crl_ca : cert :=
  mkX509 2 (mkName "crl" [] [] [] [] []) 0 (1000 * second) ["CRLSign"] [] true true 0 false "" [] [] [] (Some (RSA "ca-key")).
Definition example_may_sign (x : cert) : bool :=
  BasicConstraintsValid x && IsCA x && (bool_decide (KeyUsage x = []) || bool_decide ("CertSign" ∈ KeyUsage x)).
Definition example_subject : Name := mkName "svc" [] ["QAX"] ["CN"] [] [].
Definition example_template (pub : option (key_of string)) : cert :=
  mkX509 7 example_subject (0 * second) (1000 * second) ["KeyEncipherment"; "DataEncipherment"; "DigitalSignature"; "KeyAgreement"]
    ["ServerAuth"; "ClientAuth"] false false 0 false "leaf" ["svc.local"] ["1.2.3.4"] [] pub.
Definition example_request : x509_request string string unit := mkRequest example_subject ["svc.local"] ["1.2.3.4"] [] (RSA "leaf").
Definition plain (s : string) : bool := negb (contains_char "." s).

#[local] Instance example_crypto : Crypto string string string unit := {|
  pem_Decode s := match Split "." s with t :: b :: _ :: _ => Some (mkBlock t [] b) | _ => None end;
  pem_Encode b := if bool_decide (Headers b = []) && plain (Type_ b) && plain (Bytes b) then Ok (Type_ b +:+ "." +:+ Bytes b +:+ ".") else Err "";
  GenerateKey _ _ := Ok "leaf";
  public k := k;
  MarshalPKCS1PrivateKey k := k;
  ParsePKCS1PrivateKey k := Ok k;
  DecryptPEMBlock _ _ := Err "";
  EncryptPEMBlock _ _ _ := Err "";
  ParseCertificates der :=
    if bool_decide (der = "ca") then Ok [example_ca] else if bool_decide (der = "crl") then Ok [example_crl_ca] else if bool_decide (der = "der") then Ok [example_template (Some (RSA "leaf"))] else Err "";
  ParseCertificateRequest der := if bool_decide (der = "csr") then Ok example_request else Err "";
  CreateCertificateRequest r k := if bool_decide (r = example_request /\ k = RSA "leaf") then Ok "csr" else Err "";
  x509_CreateCertificate t p pub priv := if bool_decide (t = example_template None /\ pub = RSA "leaf") then Ok "der" else Err "";
  key_hash k := Ok k;
  CheckSignatureFrom _ p := if example_may_sign p then Ok () else Err "";
  Verify _ _ _ := Ok [];
  ParseIP s := if bool_decide (s = "localhost") then None else Some s
|}.
Lemma example_laws : CryptoLaws (Priv := string) (Pub := string) (IP := string) (URI := unit).
Proof.
  split.
  - intros b s rest He Hh. cbn in *. destruct (bool_decide _ && plain _ && plain _) eqn:E; [|done]. injection He as <-. unfold plain in E. bool_to_prop.
    destruct b as [t h bs]. cbn in *. subst h. rewrite !string_app_assoc.
    change (t +:+ "." +:+ bs +:+ "." +:+ rest) with (t +:+ String "." (bs +:+ String "." rest)). rewrite !Split_app_sep by done. by destruct (Split_cons "." rest) as (? & ? & ->).
  - done.
  - intros r k der. cbn. case_bool_decide as E; [|done]. intros [= <-]. by destruct E as [-> [= ->]].
  - intros t p pub priv der. cbn. case_bool_decide as E; [|done]. intros [= <-]. destruct E as [-> ->].
    exists (example_template (Some (RSA "leaf"))). cbn. unfold second. do 8 (split; [done || lia|]). split; [done|].
    intros k _ _ (Hb & Hc & Hu). unfold example_may_sign. rewrite Hb, Hc. destruct Hu as [Hu|Hu].
    + by rewrite (bool_decide_eq_true_2 (KeyUsage p = [])) by done.
    + by rewrite (bool_decide_eq_true_2 ("CertSign" ∈ KeyUsage p)), orb_true_r by done.
Qed.
Definition example_opts_with (ca : string) : list CreateCertOpt :=
  [CreateCertWithCAProvider (Some (Ok (ca, "RSA PRIVATE KEY.ca-key.", ""))); CreateCertWithCommonName "svc";
   CreateCertWithDomainList ["svc.local"]; CreateCertWithIpList ["localhost"; "1.2.3.4"]; CreateCertWithCertChain true].
Definition example_opts : list CreateCertOpt := example_opts_with "CERTIFICATE.ca.".
Definition example_draws : draws := mkDraws 0 (Ok 7%Z) (60 * second) (60 * second) (60 * second) (60 * second).

Lemma issued_within_authority_witness :
  exists certPEM keyPEM, CreateCertPEM example_opts example_draws = Ok (certPEM, keyPEM) /\
    exists c x, NewCertificateFromPEM certPEM = Ok c /\ (GetRawCertificate c).2 = Ok x /\ (NotAfter x <= 1000 * second)%Z /\
      CheckSignatureFrom x example_ca = Ok ().
Proof.
  exists "CERTIFICATE.der.CERTIFICATE.ca.", "RSA PRIVATE KEY.leaf.". split; [vm_compute; reflexivity|].
  pose proof example_laws as L.
  destruct (issued_within_authority example_opts example_draws
    (mkCreateOptions (Some (Ok ("CERTIFICATE.ca.", "RSA PRIVATE KEY.ca-key.", ""))) ["svc.local"] ["localhost"; "1.2.3.4"] (hour * 24 * 365 * 2) 2048 true "svc")
    "CERTIFICATE.ca." "RSA PRIVATE KEY.ca-key." "" "CERTIFICATE.der.CERTIFICATE.ca." "RSA PRIVATE KEY.leaf.")
    as (c & x & ca_c & ca_x & k & Hc & Hx & Hca & Hcx & _ & _ & _ & _ & _ & _ & _ & Hle & _ & Hsig).
  - reflexivity.
  - reflexivity.
  - cbn. lia.
  - intros c x [= <-] [= <-]. vm_compute. discriminate.
  - vm_compute. reflexivity.
  - exists c, x. injection Hca as <-. injection Hcx as <-. split; [exact Hc|]. split; [exact Hx|]. split; [exact Hle|].
    apply (Hsig "ca-key"); [reflexivity..|]. split; [reflexivity|]. split; [reflexivity|by left].
Defined.

(** A certificate is signed with an authority that may not sign certificates, and nobody
    accepts it. *)
Example signed_without_usage : exists certPEM keyPEM c x, CreateCertPEM (example_opts_with "CERTIFICATE.crl.") example_draws = Ok (certPEM, keyPEM) /\
  NewCertificateFromPEM certPEM = Ok c /\ (GetRawCertificate c).2 = Ok x /\ CheckSignatureFrom x example_crl_ca = Err "".
Proof. eexists _, _, _, _. split; [vm_compute; reflexivity|]. split; [vm_compute; reflexivity|]. split; vm_compute; reflexivity. Qed.
End Pkix.
