(* ===== verification/Certificates.v ===== *)
(** * Issuing and renewing certificates ([certificate/], [credentials/issuer.go]).

    An issuer makes certificates ([Pkix]); a store keeps the last one of every request, a factory
    renews them.  A fetch that has to renew registers a consumer, starts a goroutine that lets
    the issuer work, and waits for the consumer to be told; every consumer of the factory is
    told of every result.  The goroutines of one factory are a machine whose steps are the
    operations under a lock and on channels, in any order. *)

From S2P Require Import Prelude GoStrings Pkix.

Open Scope string_scope.
Open Scope list_scope.

Module Certificates.

(** ** Requests and issuers ([request.go], [issuer.go]) *)

Record Request := mkRequest { commonName : string; ips : list string; domains : list string; certChain : bool }.
Definition NewCertRequest : string -> list string -> list string -> bool -> Request := mkRequest.
Definition Id (r : Request) : string := commonName r.
Definition PubkeyBits (r : Request) : Z := 2048.
#[export] Instance Request_dec : EqDecision Request.
Proof. solve_decision. Defined.

Record issuer := mkIssuer { caProvider : option (gores (string * string * string)); validDuration : Z }.
Definition IssuerOption : Type := issuer -> gores issuer.
Definition IssuerWithCAProvider (p : option (gores (string * string * string))) : IssuerOption := fun o =>
  match p with None => Err "ca provider is nil" | Some _ => Ok (mkIssuer p (validDuration o)) end.
Definition IssuerWithValidDuration (d : Z) : IssuerOption := fun o =>
  if (d <=? 0)%Z then Err "valid duration of certificate must larger than 0"
  else if (2 * 365 * 24 * Pkix.hour <? d)%Z then Err "valid duration of certificate too long, 2 years allowed at max"
  else Ok (mkIssuer (caProvider o) d).
Fixpoint NewIssuer_ (opt : list IssuerOption) (o : issuer) : gores issuer :=
  match opt with [] => Ok o | f :: opt => o ← f o; NewIssuer_ opt o end.
Definition NewIssuer (opt : list IssuerOption) : gores issuer := NewIssuer_ opt (mkIssuer None (2 * 365 * 24 * Pkix.hour)).

Definition issue_options (s : issuer) (request : Request) : list Pkix.CreateCertOpt :=
  [Pkix.CreateCertWithCAProvider (caProvider s); Pkix.CreateCertWithValidDuration (validDuration s);
   Pkix.CreateCertWithCommonName (commonName request); Pkix.CreateCertWithDomainList (domains request);
   Pkix.CreateCertWithIpList (ips request); Pkix.CreateCertWithCertChain (certChain request); Pkix.CreateCertWithPubKeyBits (PubkeyBits request)].

(** What [Issue] gives its receiver; [X509KeyPair] is [tls.X509KeyPair]. *)
Definition Issue {Priv Pub IP URI : Type} `{Pkix.Crypto Priv Pub IP URI} {Cert : Type} (X509KeyPair : string -> string -> gores Cert)
    (s : issuer) (request : Request) (d : Pkix.draws) : gores Cert :=
  '(cert, key) ← Pkix.CreateCertPEM (issue_options s request) d;
  X509KeyPair cert key.

(** The pool of issuers ([credentials/issuer.go]); bytes that are nil are [None]. *)
Definition pool_id (cert key passphrase : option string) : string :=
  default "" cert +:+ "|" +:+ default "" key +:+ "|" +:+ default "" passphrase.
Definition pool_Put (pool : gmap string issuer) (cert key passphrase : option string) (i : issuer) : gmap string issuer :=
  <[pool_id cert key passphrase := i]> pool.
Definition pool_Get (pool : gmap string issuer) (cert key passphrase : option string) : gmap string issuer * option issuer :=
  let id := pool_id cert key passphrase in
  match pool !! id with
  | Some i => (pool, Some i)
  | None =>
      match cert, key with
      | Some c, Some k =>
          match NewIssuer [IssuerWithCAProvider (Some (Ok (c, k, default "" passphrase)))] with
          | Ok i => (<[id := i]> pool, Some i)
          | _ => (pool, None)
          end
      | _, _ => (pool, None)
      end
  end.

Section factory.
Context {Cert : Type}.

(** ** The store ([store.go]) *)

Record Info := mkInfo { NotBefore : Z; NotAfter : Z }.
Record certificateVal := mkVal { v_request : Request; v_cert : Cert; v_info : Info }.
(** The certificates of every issuer, which are numbered. *)
Notation certMap := (gmap nat (gmap string certificateVal)).

(** [x509.ParseCertificate(cert.Certificate[0])]; without a certificate the index is a panic. *)
Context (ParseLeaf : Cert -> gores Info).

Definition Store (s : certMap) (i : nat) (request : Request) (cert : Cert) : certMap * gores unit :=
  let idMap := default ∅ (s !! i) in
  match ParseLeaf cert with
  | Ok info => (<[i := <[Id request := mkVal request cert info]> idMap]> s, Ok ())
  | Err e => (<[i := idMap]> s, Err e)
  | Panic e => (<[i := idMap]> s, Panic e)
  end.
Definition Get (s : certMap) (i : nat) (request : Request) : gores (Cert * Info) :=
  match s !! i with
  | None => Err "specified issuer found in certificate store"
  | Some idMap =>
      match idMap !! Id request with
      | None => Err "no certificate found in certificate store"
      | Some v => Ok (v_cert v, v_info v)
      end
  end.

(** ** Renewal policies ([factory.go]) *)

Inductive RenewalAction := RenewalNow | RenewalAsync | NoRenewal.
(** A hook sees the clock and what [Get] returned. *)
Definition Hook : Type := Z -> gores (Cert * Info) -> RenewalAction.
Definition minute : Z := 60 * Pkix.second.
Definition DefaultRenewalPolicy (renewalBefore : Z) : Hook := fun now r =>
  match r with
  | Ok (_, info) =>
      let delta := Pkix.Sub (NotAfter info) now in
      if (renewalBefore <? delta)%Z then NoRenewal
      else if (minute <=? delta)%Z then RenewalAsync else RenewalNow
  | _ => RenewalNow
  end.
Definition NoRenewalPolicy : Hook := fun _ r => match r with Ok _ => NoRenewal | _ => RenewalNow end.
Definition defaultRenewalHook : Hook := DefaultRenewalPolicy (3 * 24 * Pkix.hour).
Definition renewal_hook (h : option Hook) : Hook := default defaultRenewalHook h.

(** ** Consumers ([consumer.go]) *)

(** Consumers are numbered, too. *)
Definition RegisterConsumer (cs : list nat) (c : nat) : list nat := cs ++ [c].
Definition cancelConsumer (cs : list nat) (c : nat) : list nat := filter (fun w => w <> c) cs.

(** ** The factory *)

(** A renewal runs in [Fetch] or, asynchronously, in a goroutine of its own; its channel has room
    for one result. *)
Inductive thread :=
| Fetching (r : Request) (hook : option Hook)
| Renewing (r : Request) (async : bool) (w : nat)
| Renewed (r : Request) (async : bool) (w : nat) (err : option string)
| AsyncRenewal (r : Request)
| Reading (r : Request)
| Returned (r : Request) (result : gores Cert)
| Producing (r : Request)
| Storing (r : Request) (cert : Cert)
| Notifying (r : Request) (err : option string)
| Sending (r : Request) (err : option string) (cs : list nat)
| Finished.

(** The state of a factory; [issued] records what the issuer made. *)
Record state := mkState {
  store : certMap; consumers : list nat; chans : list (option (option string)); threads : list thread; issued : list (Request * Cert)
}.
Definition set_thread (s : state) (i : nat) (t : thread) : state :=
  mkState (store s) (consumers s) (chans s) (<[i := t]> (threads s)) (issued s).
Definition spawn (s : state) (t : thread) : state := mkState (store s) (consumers s) (chans s) (threads s ++ [t]) (issued s).

(** [renewal] up to its [select]: the consumer is registered, the goroutine started. *)
Definition start_renewal (s : state) (i : nat) (r : Request) (async : bool) : state :=
  let w := length (chans s) in
  let s := mkState (store s) (RegisterConsumer (consumers s) w) (chans s ++ [None]) (threads s) (issued s) in
  spawn (set_thread s i (Renewing r async w)) (Producing r).

(** Another call, a step of a thread (at a time, with what the issuer makes, or with the end of the
    ten seconds), or a certificate that another factory with the same issuer and store stored.  A
    panic ends the process, so it has no step. *)
Inductive label := Call (r : Request) (hook : option Hook) | Elsewhere (r : Request) (c : Cert) | Step (i : nat) | At (i : nat) (now : Z) | Issues (i : nat) (res : gores Cert) | Timeout (i : nat).

Context (self : nat).

Definition cert_of (r : gores (Cert * Info)) : gores Cert := '(c, _) ← r; Ok c.
Definition do_step (s : state) (l : label) : option state :=
  match l with
  | Call r hook => Some (spawn s (Fetching r hook))
  | Elsewhere r c =>
      match Store (store s) self r c with
      | (st, Ok _) => Some (mkState st (consumers s) (chans s) (threads s) (issued s ++ [(r, c)]))
      | _ => None
      end
  | At i now =>
      match threads s !! i with
      | Some (Fetching r hook) =>
          let res := Get (store s) self r in
          Some match renewal_hook hook now res with
          | NoRenewal => set_thread s i (Returned r (cert_of res))
          | RenewalNow => start_renewal s i r false
          | RenewalAsync => spawn (set_thread s i (Reading r)) (AsyncRenewal r)
          end
      | _ => None
      end
  | Issues i res =>
      match threads s !! i with
      | Some (Producing r) =>
          match res with
          | Ok c => Some (set_thread (mkState (store s) (consumers s) (chans s) (threads s) (issued s ++ [(r, c)])) i (Storing r c))
          | Err e => Some (set_thread s i (Notifying r (Some e)))
          | Panic _ => None
          end
      | _ => None
      end
  | Timeout i =>
      match threads s !! i with
      | Some (Renewing r async w) => Some (set_thread s i (Renewed r async w (Some "context deadline exceeded")))
      | _ => None
      end
  | Step i =>
      match threads s !! i with
      | Some (AsyncRenewal r) => Some (start_renewal s i r true)
      | Some (Renewing r async w) =>
          match chans s !! w with
          | Some (Some err) => Some (set_thread (mkState (store s) (consumers s) (<[w := None]> (chans s)) (threads s) (issued s)) i (Renewed r async w err))
          | _ => None
          end
      | Some (Renewed r async w err) =>
          let s := mkState (store s) (cancelConsumer (consumers s) w) (chans s) (threads s) (issued s) in
          Some (set_thread s i (if async then Finished else match err with Some e => Returned r (Err e) | None => Reading r end))
      | Some (Reading r) => Some (set_thread s i (Returned r (cert_of (Get (store s) self r))))
      | Some (Storing r c) =>
          let '(st, res) := Store (store s) self r c in
          let s := mkState st (consumers s) (chans s) (threads s) (issued s) in
          match res with
          | Ok _ => Some (set_thread s i (Notifying r None))
          | Err e => Some (set_thread s i (Notifying r (Some e)))
          | Panic _ => None
          end
      | Some (Notifying r err) => Some (set_thread s i (Sending r err (consumers s)))
      | Some (Sending r err (w :: cs)) =>
          match chans s !! w with
          | Some None => Some (set_thread (mkState (store s) (consumers s) (<[w := Some err]> (chans s)) (threads s) (issued s)) i (Sending r err cs))
          | _ => None
          end
      | Some (Sending r err []) => Some (set_thread s i Finished)
      | _ => None
      end
  end.
Fixpoint run (s : state) (ls : list label) : option state :=
  match ls with [] => Some s | l :: ls => s ← do_step s l; run s ls end.
Definition start : state := mkState ∅ [] [] [] [].
Definition reachable (s : state) : Prop := rtc (fun s s' => exists l, do_step s l = Some s') start s.

(** ** What a fetch returns *)

Definition made_for (s : state) (r : Request) (c : Cert) : Prop := exists r', (r', c) ∈ issued s /\ Id r' = Id r.
Definition stored (s : state) (st : certMap) : Prop := forall m id v, st !! self = Some m -> m !! id = Some v ->
  (v_request v, v_cert v) ∈ issued s /\ Id (v_request v) = id.
Definition waits (w : nat) (t : thread) : Prop := match t with Renewing _ _ w' | Renewed _ _ w' _ => w' = w | _ => False end.
Definition thread_ok (s : state) (t : thread) : Prop :=
  match t with Storing r c => (r, c) ∈ issued s | Returned r (Ok c) => made_for s r c | _ => True end.
Definition inv (s : state) : Prop :=
  stored s (store s) /\ (forall i t, threads s !! i = Some t -> thread_ok s t) /\
  (forall w, w ∈ consumers s -> exists i t, threads s !! i = Some t /\ waits w t).

(** What changes little: one thread, and more issued certificates. *)
Lemma thread_ok_mono s s' t : (forall x, x ∈ issued s -> x ∈ issued s') -> thread_ok s t -> thread_ok s' t.
Proof. intros Hi. destruct t as [| | | | |r [c|e|e]|r|r c| | |]; cbn; try done; [|by auto]. intros (r' & Hin & Hid). exists r'. auto. Qed.
Lemma stored_mono s s' st : (forall x, x ∈ issued s -> x ∈ issued s') -> stored s st -> stored s' st.
Proof. intros Hi H m id v Hm Hv. destruct (H m id v Hm Hv). auto. Qed.

Lemma get_made s r c info : stored s (store s) -> Get (store s) self r = Ok (c, info) -> made_for s r c.
Proof.
  intros Hs. unfold Get. destruct (store s !! self) as [m|] eqn:Em; [|done]. destruct (m !! Id r) as [v|] eqn:Ev; [|done].
  intros [= <- <-]. destruct (Hs m _ v Em Ev) as [Hin Hid]. by exists (v_request v).
Qed.
Lemma cert_of_made s r : stored s (store s) -> thread_ok s (Returned r (cert_of (Get (store s) self r))).
Proof. intros Hs. destruct (Get (store s) self r) as [[c info]|e|e] eqn:E; [|done..]. by eapply get_made. Qed.

Lemma store_stored s r c : stored s (store s) -> (r, c) ∈ issued s -> stored s (Store (store s) self r c).1.
Proof.
  intros Hs Hin m id v. unfold Store. set (idMap := default ∅ (store s !! self)).
  assert (forall id v, idMap !! id = Some v -> (v_request v, v_cert v) ∈ issued s /\ Id (v_request v) = id) as Hid.
  { intros id' v'. subst idMap. destruct (store s !! self) as [m'|] eqn:Em; [by apply (Hs m')|]. cbn; by rewrite lookup_empty. }
  destruct (ParseLeaf c) as [info|e|e]; cbn [fst]; rewrite lookup_insert_eq; intros [= <-]; [|by apply Hid..].
  rewrite lookup_insert_case. case_decide as E; [intros [= <-]; by subst id|by apply Hid].
Qed.

Lemma inv_thread s i t t' : inv s -> threads s !! i = Some t -> thread_ok s t' -> (forall w, waits w t -> waits w t') -> inv (set_thread s i t').
Proof.
  intros (Hst & Hth & Hc) Hi Ht Hw. split_and!; [done| |].
  - intros j u. cbn. destruct (decide (j = i)) as [->|Hne]; [|rewrite list_lookup_insert_ne by done; apply Hth].
    rewrite list_lookup_insert_eq by (by eapply lookup_lt_Some). by intros [= <-].
  - intros w Hin. destruct (Hc w Hin) as (j & u & Hj & Hu). destruct (decide (j = i)) as [->|Hne].
    + exists i, t'. cbn. rewrite list_lookup_insert_eq by (by eapply lookup_lt_Some). split; [done|]. apply Hw. by simplify_eq.
    + exists j, u. cbn. by rewrite list_lookup_insert_ne.
Qed.
Lemma inv_spawn s t : inv s -> thread_ok s t -> inv (spawn s t).
Proof.
  intros (Hst & Hth & Hc) Ht. split_and!; [done| |].
  - intros i u. cbn. intros [Hi|[_ [_ <-]%list_lookup_singleton_Some]]%lookup_app_Some; [by eapply Hth|done].
  - intros w Hin. destruct (Hc w Hin) as (j & u & Hj & Hu). exists j, u. split; [|done]. cbn. by apply lookup_app_l_Some.
Qed.
(** The channels do not matter, more certificates do no harm. *)
Lemma inv_chans s ch : inv s -> inv (mkState (store s) (consumers s) ch (threads s) (issued s)).
Proof. done. Qed.
Lemma inv_issued s x : inv s -> inv (mkState (store s) (consumers s) (chans s) (threads s) (issued s ++ x)).
Proof.
  intros (Hst & Hth & Hc). assert (forall y, y ∈ issued s -> y ∈ issued s ++ x) as Hi by set_solver. split_and!; [| |done].
  - by eapply stored_mono.
  - intros i t Ht. eapply thread_ok_mono; [|by eapply Hth]. done.
Qed.
Lemma inv_store s r c : inv s -> (r, c) ∈ issued s -> inv (mkState (Store (store s) self r c).1 (consumers s) (chans s) (threads s) (issued s)).
Proof. intros (Hst & Hth & Hc) Hin. split_and!; [|done..]. exact (store_stored s r c Hst Hin). Qed.

Lemma inv_renewal s i r async t : inv s -> threads s !! i = Some t -> (forall w, ~ waits w t) -> inv (start_renewal s i r async).
Proof.
  intros (Hst & Hth & Hc) Hi Hw. unfold start_renewal. apply inv_spawn; [|done]. split_and!; [done| |].
  - intros j u. cbn. destruct (decide (j = i)) as [->|Hne]; [|rewrite list_lookup_insert_ne by done; apply Hth].
    rewrite list_lookup_insert_eq by (by eapply lookup_lt_Some). by intros [= <-].
  - intros w. cbn. intros [Hin| ->%list_elem_of_singleton]%elem_of_app.
    + destruct (Hc w Hin) as (j & u & Hj & Hu). exists j, u. split; [|done]. rewrite list_lookup_insert_ne; [done|]. intros ->. simplify_eq. by eapply Hw.
    + exists i, (Renewing r async (length (chans s))). by rewrite list_lookup_insert_eq by (by eapply lookup_lt_Some).
Qed.
(** The end of a renewal takes the consumer out. *)
Lemma inv_cancel s i r async w err t' : inv s -> threads s !! i = Some (Renewed r async w err) -> thread_ok s t' ->
  inv (set_thread (mkState (store s) (cancelConsumer (consumers s) w) (chans s) (threads s) (issued s)) i t').
Proof.
  intros (Hst & Hth & Hc) Hi Ht. split_and!; [done| |].
  - intros j u. cbn. destruct (decide (j = i)) as [->|Hne]; [|rewrite list_lookup_insert_ne by done; apply Hth].
    rewrite list_lookup_insert_eq by (by eapply lookup_lt_Some). by intros [= <-].
  - intros v. cbn. intros [Hne Hin]%list_elem_of_filter. destruct (Hc v Hin) as (j & u & Hj & Hu). exists j, u. split; [|done].
    rewrite list_lookup_insert_ne; [done|]. intros ->. by simplify_eq.
Qed.

Lemma do_step_keeps s l s' : do_step s l = Some s' -> inv s -> inv s'.
Proof.
  intros Hs Hinv. pose proof Hinv as (Hst & Hth & Hc). destruct l as [r hook|r c|i|i now|i res|i]; cbn in Hs.
  - injection Hs as <-. by apply inv_spawn.
  - destruct (Store (store s) self r c) as [st [[]|e|e]] eqn:E; try done. injection Hs as <-.
    pose proof (inv_store (mkState (store s) (consumers s) (chans s) (threads s) (issued s ++ [(r, c)])) r c) as H. cbn in H. rewrite E in H.
    apply H; [by apply inv_issued|set_solver].
  - destruct (threads s !! i) as [[r hook|r async w|r async w err|r|r|r result|r|r c|r err|r err [|w cs]|]|] eqn:Ei; try done.
    + destruct (chans s !! w) as [[err|]|]; try done. injection Hs as <-. by eapply (inv_thread (mkState _ _ _ _ _)); [apply inv_chans|..].
    + injection Hs as <-. apply (inv_cancel _ _ _ _ _ _ _ Hinv Ei). by destruct async, err.
    + injection Hs as <-. apply (inv_renewal _ _ _ _ _ Hinv Ei). by intros w [].
    + injection Hs as <-. apply (inv_thread _ _ _ _ Hinv Ei); [|done]. by apply cert_of_made.
    + destruct (Store (store s) self r c) as [st res] eqn:E. pose proof (inv_store s r c Hinv (Hth i _ Ei)) as H. rewrite E in H. cbn in H.
      destruct res as [[]|e|e]; try done; injection Hs as <-; by eapply (inv_thread (mkState _ _ _ _ _)).
    + injection Hs as <-. by apply (inv_thread _ _ _ _ Hinv Ei).
    + injection Hs as <-. by apply (inv_thread _ _ _ _ Hinv Ei).
    + destruct (chans s !! w) as [[err'|]|]; try done. injection Hs as <-. by eapply (inv_thread (mkState _ _ _ _ _)); [apply inv_chans|..].
  - destruct (threads s !! i) as [[r hook| | | | | | | | | |]|] eqn:Ei; try done. destruct (renewal_hook hook now _); injection Hs as <-.
    + apply (inv_renewal _ _ _ _ _ Hinv Ei). by intros w [].
    + apply inv_spawn; [by apply (inv_thread _ _ _ _ Hinv Ei)|done].
    + apply (inv_thread _ _ _ _ Hinv Ei); [|done]. by apply cert_of_made.
  - destruct (threads s !! i) as [[| | | | | |r| | | |]|] eqn:Ei; try done. destruct res as [c|e|e]; try done; injection Hs as <-.
    + eapply (inv_thread (mkState _ _ _ _ _)); [by apply inv_issued|done| |done]. cbn. set_solver.
    + by apply (inv_thread _ _ _ _ Hinv Ei).
  - destruct (threads s !! i) as [[|r async w| | | | | | | | |]|] eqn:Ei; try done. injection Hs as <-. by apply (inv_thread _ _ _ _ Hinv Ei).
Qed.
Lemma reachable_keeps s : reachable s -> inv s.
Proof.
  apply rtc_invariant.
  - split_and!; [intros m id v; cbn; by rewrite lookup_empty|by intros i t; cbn; rewrite lookup_nil|by intros w ?%not_elem_of_nil].
  - intros s1 s2 H (l & Hl). by eapply do_step_keeps.
Qed.

(** C36: what a factory hands out.  Whatever fetches and renewals run at the same time, and
    whatever other factories do with the same issuer and store, a certificate that a fetch
    returns was made by the issuer for a request with the same identifier; and a consumer is
    registered only as long as the renewal that registered it runs. *)
Theorem fetched_was_issued s : reachable s ->
  (forall i r c, threads s !! i = Some (Returned r (Ok c)) -> exists r', (r', c) ∈ issued s /\ Id r' = Id r) /\
  (forall w, w ∈ consumers s -> exists i r async, threads s !! i = Some (Renewing r async w) \/ exists err, threads s !! i = Some (Renewed r async w err)).
Proof.
  intros (_ & Hth & Hc)%reachable_keeps. split.
  - intros i r c Hi. exact (Hth i _ Hi).
  - intros w Hw. destruct (Hc w Hw) as (i & t & Hi & Ht). exists i. destruct t as [|r async w'|r async w' err| | | | | | | |]; try done; cbn in Ht; subst w'; eauto 6.
Qed.


(** ** One fetch at a time *)

(** The end of the issuing, in one step of its own: the error of the issuer or of the store. *)
Definition produce (st : certMap) (r : Request) (res : gores Cert) : certMap * option string :=
  match res with
  | Ok c => let '(st, out) := Store st self r c in (st, match out with Ok _ => None | Err e | Panic e => Some e end)
  | Err e | Panic e => (st, Some e)
  end.
Definition no_panic {A} (r : gores A) : Prop := match r with Panic _ => False | _ => True end.
Definition can_store (res : gores Cert) : Prop := no_panic res /\ match res with Ok c => no_panic (ParseLeaf c) | _ => True end.

(** A fetch that renews while nothing else waits: the goroutine works, tells the consumer, and the
    fetch reads the store. *)
Definition fetch_labels (res : gores Cert) (n : nat) (r : Request) (hook : option Hook) (now : Z) : list label :=
  [Call r hook; At n now; Issues (S n) res] ++ (match res with Ok _ => [Step (S n)] | _ => [] end) ++
  [Step (S n); Step (S n); Step (S n); Step n; Step n] ++ (match (produce ∅ r res).2 with None => [Step n] | Some _ => [] end).

Lemma produce_error st st' r res : (produce st r res).2 = (produce st' r res).2.
Proof. unfold produce, Store. destruct res as [c|e|e]; [|done..]. by destruct (ParseLeaf c). Qed.
Lemma run_two s ls ls' : run s (ls ++ ls') = (s' ← run s ls; run s' ls').
Proof. revert s. induction ls as [|l ls IH]; intros s; [done|]. cbn. destruct (do_step s l); [apply IH|done]. Qed.

(** Two threads at the end of a list. *)
Lemma pair_lookup1 {A} (l : list A) a b : (l ++ [a; b]) !! length l = Some a.
Proof. by apply list_lookup_middle. Qed.
Lemma pair_lookup2 {A} (l : list A) a b : (l ++ [a; b]) !! S (length l) = Some b.
Proof. rewrite lookup_app_r by lia. by replace (S (length l) - length l) with 1 by lia. Qed.
Lemma pair_insert1 {A} (l : list A) a b x : <[length l := x]> (l ++ [a; b]) = l ++ [x; b].
Proof. rewrite insert_app_r_alt by lia. by rewrite Nat.sub_diag. Qed.
Lemma pair_insert2 {A} (l : list A) a b x : <[S (length l) := x]> (l ++ [a; b]) = l ++ [a; x].
Proof. rewrite insert_app_r_alt by lia. by replace (S (length l) - length l) with 1 by lia. Qed.
Lemma last_lookup {A} (l : list A) a : (l ++ [a]) !! length l = Some a.
Proof. by apply list_lookup_middle. Qed.
Lemma last_insert {A} (l : list A) a x : <[length l := x]> (l ++ [a]) = l ++ [x].
Proof. rewrite insert_app_r_alt by lia. by rewrite Nat.sub_diag. Qed.

Ltac go := repeat first [progress cbn -[Get Store lookup insert] | progress unfold set_thread, spawn, start_renewal
  | rewrite pair_lookup1 | rewrite pair_lookup2 | rewrite pair_insert1 | rewrite pair_insert2 | rewrite last_lookup | rewrite last_insert].

Lemma cancel_last w : cancelConsumer [w] w = [].
Proof. unfold cancelConsumer. rewrite filter_cons_False; [done|]. by intros []. Qed.

(** A fetch that renews, while no other consumer is registered, returns the certificate that
    the issuer made, from the store, or the error of the issuer or the store; and its consumer
    is gone afterwards. *)
Theorem lone_fetch s r hook now res : let n := length (threads s) in
  consumers s = [] -> renewal_hook hook now (Get (store s) self r) = RenewalNow -> can_store res ->
  exists s', run s (fetch_labels res n r hook now) = Some s' /\ consumers s' = [] /\ store s' = (produce (store s) r res).1 /\
    threads s' !! n = Some (Returned r match (produce (store s) r res).2 with Some e => Err e | None => cert_of (Get (store s') self r) end) /\
    (forall c info, res = Ok c -> ParseLeaf c = Ok info -> cert_of (Get (store s') self r) = Ok c).
Proof.
  intros n Hc Hhook [Hp Hl]. destruct s as [st cs ch th iss]. cbn in Hc, n, Hhook. subst cs n.
  assert (forall st' iss' e, exists s',
    run (mkState st' [length ch] (ch ++ [None]) (th ++ [Renewing r false (length ch); Notifying r e]) iss')
      ([Step (S (length th)); Step (S (length th)); Step (S (length th)); Step (length th); Step (length th)] ++
       (match e with None => [Step (length th)] | Some _ => [] end)) = Some s' /\ consumers s' = [] /\ store s' = st' /\
      threads s' !! length th = Some (Returned r match e with Some e => Err e | None => cert_of (Get st' self r) end)) as Hrest.
  { intros st' iss' e. destruct e as [e|]; eexists; (split; [go; reflexivity|split; [by apply cancel_last|split; [done|]]]); go; done. }
  assert (run (mkState st [] ch th iss) [Call r hook; At (length th) now] =
    Some (mkState st [length ch] (ch ++ [None]) (th ++ [Renewing r false (length ch); Producing r]) iss)) as Hfirst.
  { go. rewrite Hhook. go. by rewrite <- app_assoc. }
  assert (exists iss', run (mkState st [length ch] (ch ++ [None]) (th ++ [Renewing r false (length ch); Producing r]) iss)
    (Issues (S (length th)) res :: match res with Ok _ => [Step (S (length th))] | _ => [] end) =
    Some (mkState (produce st r res).1 [length ch] (ch ++ [None]) (th ++ [Renewing r false (length ch); Notifying r (produce st r res).2]) iss')) as [iss' Hmiddle].
  { unfold produce, Store. destruct res as [c|e|e]; [|exists iss; by go|done]. exists (iss ++ [(r, c)]). go. unfold Store.
    destruct (ParseLeaf c) as [info|e|e]; [by go..|done]. }
  destruct (Hrest (produce st r res).1 iss' (produce st r res).2) as (s' & Hrun & H1 & H2 & H3). exists s'. split_and!; [|done|done|by rewrite H2|].
  - unfold fetch_labels. cbn [threads]. rewrite (produce_error ∅ st).
    change ([Call r hook; At (length th) now; Issues (S (length th)) res] ++ ?l) with ([Call r hook; At (length th) now] ++ [Issues (S (length th)) res] ++ l).
    rewrite run_two, Hfirst. cbn [mbind option_bind]. rewrite app_assoc, run_two. cbn [app]. rewrite Hmiddle. exact Hrun.
  - intros c info -> Hi. rewrite H2. unfold produce, Store. rewrite Hi. cbn. unfold Get. by rewrite lookup_insert_eq, lookup_insert_eq.
Qed.

(** ** What may go wrong *)

(** The result of every production goes to every consumer.  A channel has room for one: when its
    renewal has ended, a goroutine that took the list before that blocks for ever. *)
Definition blocked (i w : nat) (t : thread) (e : option string) (s : state) : Prop :=
  threads s !! i = Some t /\ chans s !! w = Some (Some e) /\ forall j r a, threads s !! j <> Some (Renewing r a w).

Lemma blocked_set i w r err cs e s j u u' ch st c iss : blocked i w (Sending r err (w :: cs)) e s -> threads s !! j = Some u -> j <> i ->
  ch !! w = Some (Some e) -> (forall r a, u' <> Renewing r a w) -> blocked i w (Sending r err (w :: cs)) e (set_thread (mkState st c ch (threads s) iss) j u').
Proof.
  intros (Hi & Hw & Hn) Hj Hne Hch Hu. split_and!; [cbn; by rewrite list_lookup_insert_ne|done|]. intros k r' a. cbn. destruct (decide (k = j)) as [->|Hk].
  - rewrite list_lookup_insert_eq by (by eapply lookup_lt_Some). intros [= E]. by eapply Hu.
  - rewrite list_lookup_insert_ne by done. apply Hn.
Qed.
Lemma blocked_spawn i w r err cs e s u : blocked i w (Sending r err (w :: cs)) e s -> (forall r a, u <> Renewing r a w) ->
  blocked i w (Sending r err (w :: cs)) e (spawn s u).
Proof.
  intros (Hi & Hw & Hn) Hu. split_and!; [by apply lookup_app_l_Some|done|]. intros k r' a. cbn.
  intros [Hk|[_ [_ E]%list_lookup_singleton_Some]]%lookup_app_Some; [by eapply Hn|by eapply Hu].
Qed.
Lemma blocked_renewal i w r err cs e s j u r' a : blocked i w (Sending r err (w :: cs)) e s -> threads s !! j = Some u -> j <> i ->
  blocked i w (Sending r err (w :: cs)) e (start_renewal s j r' a).
Proof.
  intros Hb Hj Hne. pose proof (lookup_lt_Some _ _ _ (proj1 (proj2 Hb))) as Hlt. apply blocked_spawn; [|done].
  eapply (blocked_set i w r err cs e s); [done..| |].
  - apply lookup_app_l_Some. apply Hb.
  - intros r'' a' [= _ _ E]. lia.
Qed.

Lemma blocked_step i w r err cs e s l s' : do_step s l = Some s' -> blocked i w (Sending r err (w :: cs)) e s -> blocked i w (Sending r err (w :: cs)) e s'.
Proof.
  intros Hs Hb. pose proof Hb as (Hi & Hw & Hn). destruct l as [r' hook|r' c|j|j now|j res|j]; cbn in Hs.
  - injection Hs as <-. by apply blocked_spawn.
  - destruct (Store (store s) self r' c) as [st [[]|x|x]]; try done. by injection Hs as <-.
  - destruct (decide (j = i)) as [->|Hne]; [by rewrite Hi, Hw in Hs|].
    destruct (threads s !! j) as [u|] eqn:Ej; [|done]. pose proof (fun u' ch st c iss => blocked_set i w r err cs e s j u u' ch st c iss Hb Ej Hne) as Hset.
    destruct u as [r' hook|r' a v|r' a v x|r'|r'|r' result|r'|r' c|r' x|r' x [|v vs]|]; try done.
    + destruct (chans s !! v) as [[x|]|] eqn:Ev; try done. injection Hs as <-. apply Hset; [|done].
      rewrite list_lookup_insert_ne; [done|]. intros ->. by eapply Hn.
    + injection Hs as <-. apply Hset; [done|]. by destruct a, x.
    + injection Hs as <-. by eapply blocked_renewal.
    + injection Hs as <-. by apply (Hset _ (chans s)).
    + destruct (Store (store s) self r' c) as [st [[]|x|x]]; try done; injection Hs as <-; by apply Hset.
    + injection Hs as <-. by apply (Hset _ (chans s)).
    + injection Hs as <-. by apply (Hset _ (chans s)).
    + destruct (chans s !! v) as [[x'|]|] eqn:Ev; try done. injection Hs as <-. apply Hset; [|done].
      rewrite list_lookup_insert_ne; [done|]. intros ->. by rewrite Hw in Ev.
  - destruct (decide (j = i)) as [->|Hne]; [by rewrite Hi in Hs|]. destruct (threads s !! j) as [u|] eqn:Ej; [|done]. destruct u as [r' hook| | | | | | | | | |]; try done.
    destruct (renewal_hook hook now _); injection Hs as <-.
    + by eapply blocked_renewal.
    + apply blocked_spawn; [|done]. by eapply (blocked_set i w r err cs e s).
    + by eapply (blocked_set i w r err cs e s).
  - destruct (decide (j = i)) as [->|Hne]; [by rewrite Hi in Hs|]. destruct (threads s !! j) as [u|] eqn:Ej; [|done]. destruct u as [| | | | | |r'| | | |]; try done.
    destruct res; try done; injection Hs as <-; by eapply (blocked_set i w r err cs e s).
  - destruct (decide (j = i)) as [->|Hne]; [by rewrite Hi in Hs|]. destruct (threads s !! j) as [u|] eqn:Ej; [|done]. destruct u as [|r' a v| | | | | | | | |]; try done.
    injection Hs as <-. by eapply (blocked_set i w r err cs e s).
Qed.
Lemma blocked_for_ever i w r err cs e s s' : blocked i w (Sending r err (w :: cs)) e s -> rtc (fun s s' => exists l, do_step s l = Some s') s s' ->
  threads s' !! i = Some (Sending r err (w :: cs)).
Proof.
  intros Hb Hr. enough (blocked i w (Sending r err (w :: cs)) e s') as [H _] by done. revert Hr. generalize s'.
  apply rtc_invariant; [done|]. intros s1 s2 H1 (l & Hl). by eapply blocked_step.
Qed.
Lemma run_keeps_reachable ls s s' : reachable s -> run s ls = Some s' -> reachable s'.
Proof.
  revert s. induction ls as [|l ls IH]; intros s Hs; cbn; [by intros [= <-]|]. destruct (do_step s l) as [s1|] eqn:E; [|done].
  apply IH. eapply rtc_r; [exact Hs|]. by exists l.
Qed.
End factory.

(** ** Witnesses *)

Definition example_leaf (c : string) : gores Info := Ok (mkInfo 0 (10 ^ 18)).
Definition example_request (n : string) : Request := NewCertRequest n ["1.2.3.4"] [n] true.
Definition renew_hook : Hook (Cert := string) := fun _ _ => RenewalNow.
Notation example_run := (run (Cert := string) example_leaf 0).
Notation Calls n := (Call (example_request n) (Some renew_hook)).

(** A fetch gets the error of a certificate that another one asked for, although the issuer has
    made its own. *)
Example other_error : exists s, example_run start [Calls "a"; At 0 0; Calls "b"; At 2 0; Issues 1 (Ok "cert-a"); Step 1; Issues 3 (Err "boom");
    Step 3; Step 3; Step 0; Step 0] = Some s /\
  threads s !! 0 = Some (Returned (example_request "a") (Err "boom")) /\ Get (store s) 0 (example_request "a") = Ok ("cert-a", mkInfo 0 (10 ^ 18)).
Proof. eexists. split; [vm_compute; reflexivity|]. by vm_compute. Qed.
(** A fetch that is told of another success reads a store without its certificate. *)
Example other_success : exists s, example_run start [Calls "a"; At 0 0; Calls "b"; At 2 0; Issues 3 (Ok "cert-b"); Step 3; Step 3; Step 3; Step 0; Step 0; Step 0] = Some s /\
  threads s !! 0 = Some (Returned (example_request "a") (Err "no certificate found in certificate store")).
Proof. eexists. split; [vm_compute; reflexivity|]. by vm_compute. Qed.
(** Three fetches, and the goroutine of the third hangs. *)
Example producer_hangs : exists s, example_run start [Calls "a"; At 0 0; Calls "b"; At 2 0; Calls "c"; At 4 0;
    Issues 1 (Err "x"); Issues 3 (Err "y"); Issues 5 (Err "z"); Step 1; Step 3; Step 5; Step 1; Step 0; Step 0; Step 3] = Some s /\
  blocked 5 0 (Sending (example_request "c") (Some "z") [0; 1; 2]) (Some "y") s.
Proof.
  eexists. split; [vm_compute; reflexivity|]. split_and!; [done|done|]. intros j r a. do 6 (destruct j as [|j]; [by vm_compute|]). done.
Qed.
(** Two requests with one common name are one entry of the store. *)
Example same_name : let r := mkRequest "svc" ["1.2.3.4"] ["svc.a"] true in let r' := mkRequest "svc" [] ["svc.b"] false in
  Get (Store example_leaf ∅ 0 r "cert").1 0 r' = Ok ("cert", mkInfo 0 (10 ^ 18)).
Proof. by vm_compute. Qed.

Lemma lone_fetch_witness : exists s', example_run start (fetch_labels example_leaf 0 (Ok "cert-a") 0 (example_request "a") (Some renew_hook) 0) = Some s' /\
  threads s' !! 0 = Some (Returned (example_request "a") (Ok "cert-a")).
Proof.
  destruct (lone_fetch example_leaf 0 start (example_request "a") (Some renew_hook) 0 (Ok "cert-a")) as (s' & Hrun & _ & _ & Ht & Hg).
  - reflexivity.
  - reflexivity.
  - split; exact I.
  - exists s'. split; [exact Hrun|]. etransitivity; [exact Ht|]. do 2 f_equal. exact (Hg _ _ eq_refl eq_refl).
Defined.

Definition example_end : state (Cert := string) := Eval vm_compute in
  default start (example_run start [Calls "a"; At 0 0; Issues 1 (Ok "cert-a"); Step 1; Step 1; Step 1; Step 1; Step 0; Step 0; Step 0]).
Lemma fetched_was_issued_witness : threads example_end !! 0 = Some (Returned (example_request "a") (Ok "cert-a")) /\
  exists r', (r', "cert-a") ∈ issued example_end /\ Id r' = "a".
Proof.
  split; [reflexivity|]. refine (proj1 (fetched_was_issued example_leaf 0 example_end _) 0 (example_request "a") "cert-a" eq_refl).
  eapply run_keeps_reachable; [apply rtc_refl|]. instantiate (1 := [Calls "a"; At 0 0; Issues 1 (Ok "cert-a"); Step 1; Step 1; Step 1; Step 1; Step 0; Step 0; Step 0]).
  vm_compute. reflexivity.
Defined.
End Certificates.
