(* ===== verification/Credentials.v ===== *)
(** * Transport security ([credentials/credentials.go], [credentials/option.go]).

    Options collect into a record, from which the TLS configuration of a client or a server is
    built.  Certificates are those of [crypto/x509] (class [X509]: parsing, pools, chain
    verification, key pairs, files); certificate factories, functions of the user and
    per-call credentials are types of their own.  [tls_server_accepts] and
    [tls_client_accepts] are what [crypto/tls] does with the fields that the package sets. *)

From S2P Require Import Prelude GoStrings Hostname.

Open Scope string_scope.
Open Scope list_scope.

Module Credentials.

Inductive ExtKeyUsage := ExtKeyUsageClientAuth.

(** Errors are [None] or [false].  A pool is the list of its PEM texts.  [Verify] gets the
    time, the pool ([None] for the one of the system), the intermediates and the key usages;
    [ServerCertificateFor] is the check of a server name by the standard library. *)
Class X509 (Cert KeyPair : Type) := {
  ParseCertificate : string -> option Cert;
  NotBefore : Cert -> Z;
  AppendCertsFromPEM : string -> bool;
  Verify : Cert -> Z -> option (list string) -> list Cert -> list ExtKeyUsage -> option (list (list Cert));
  ServerCertificateFor : Cert -> string -> bool;
  ReadFile : string -> option string;
  X509KeyPair : string -> string -> option KeyPair
}.

Section credentials.
Context {Cert IP KeyPair Factory Fn PerRPC : Type} `{HostCert Cert IP} `{X509 Cert KeyPair}.

(** Slices of chains, [None] for nil. *)
Notation chains := (option (list (list Cert))).

(** What the clock reads during a handshake, one reading after the other. *)
Notation readings := (nat -> Z).
(** A verifier: the readings from its call on, the raw certificates and [ignoreExpiresCheck] to
    chains or an error. *)
Notation Verifier := (readings -> list string -> bool -> option chains).
Notation Custom := (list string -> chains -> bool).

(** Where the certificate of a connection comes from. *)
Inductive CertSource :=
| FromPair (p : KeyPair)
| FromFactory (f : Factory) (request : string) (autoRenewal : bool)
| FromUser (f : Fn).

(** [rootCAs] is a function that reads the certificates or fails. *)
Notation CAs := (option (option (list string))).

Record ClientOptions := mkClientOptions {
  rootCAs : CAs; certificate : option CertSource; serverName : string; insecure : bool; insecureSkipVerify : bool;
  certificateVerifier : list Verifier; verifyCertificateFn : option Custom; ignoreExpiresCheck : bool;
  perRPCCredentials : option PerRPC
}.
Definition emptyClientOptions : ClientOptions := mkClientOptions None None "" false false [] None false None.

Record ServerOptions := mkServerOptions {
  clientCAs : CAs; s_certificate : option CertSource; s_insecure : bool; clientAuthType : Z;
  certificateChainVerifiers : list Verifier; s_verifyCertificateFn : option Custom; s_ignoreExpiresCheck : bool
}.
Definition emptyServerOptions : ServerOptions := mkServerOptions None None false 0 [] None false.

(** ** Verification of certificates *)

(** [certificateChainVerifier], which reads the clock twice when it is called. *)
Definition certificateChainVerifierFn (rootCAs : CAs) (authorityChecker : nat -> nat -> Cert -> bool)
    (extKeyUsage : list ExtKeyUsage) : Verifier := fun clock rawCerts ignoreExpiresCheck =>
  caFn ← rootCAs;
  if bool_decide (rawCerts = []) then None
  else
    certs ← mapM ParseCertificate rawCerts;
    caCerts ← caFn;
    if negb (forallb AppendCertsFromPEM caCerts) then None
    else
      let notBefore := foldl (fun t cert => if (t <? NotBefore cert)%Z then NotBefore cert else t) (clock 0) certs in
      let currentTime := if ignoreExpiresCheck then (notBefore + 1000000000)%Z else clock 1 in
      match certs with
      | [] => None
      | cert :: rest =>
          verifiedChains ← Verify cert currentTime (Some caCerts) rest extKeyUsage;
          if forallb (fun ic => authorityChecker (length certs) ic.1 ic.2) (imap (fun i c => (i, c)) certs)
          then Some (Some verifiedChains) else None
      end.

Fixpoint run_verifiers (vs : list Verifier) (clock : readings) (rawCerts : list string) (ignoreExpiresCheck : bool) (verifiedChains : chains) : option chains :=
  match vs with
  | [] => Some verifiedChains
  | v :: vs =>
      cs ← v clock rawCerts ignoreExpiresCheck;
      run_verifiers vs (fun n => clock (2 + n)) rawCerts ignoreExpiresCheck (match verifiedChains with None => cs | Some _ => verifiedChains end)
  end.

Definition verifyCertificate (clock : readings) (rawCerts : list string) (verifiedChains : chains) (vs : list Verifier) (custom : option Custom)
    (ignoreExpiresCheck : bool) : bool :=
  match run_verifiers vs clock rawCerts ignoreExpiresCheck verifiedChains with
  | None => false
  | Some verifiedChains => match custom with Some f => f rawCerts verifiedChains | None => true end
  end.

(** [authorities] is nil or gives the names accepted. *)
Definition IntermediateAuthorityChecker (level : nat) (authorities : option (list string)) (len current : nat) (cert : Cert) : bool :=
  match authorities with
  | None => false
  | Some auths =>
      if (len <=? level)%nat then false
      else if (current =? level)%nat then existsb (fun a => bool_decide (a = "*") || Hostname.VerifyHostname cert a) auths
      else true
  end.
Definition LeafAuthorityChecker := IntermediateAuthorityChecker 0.

(** ** Options of a client *)

Notation ClientOptionFunc := (ClientOptions -> gores ClientOptions).

Definition WithPerRPCCredentials (cred : PerRPC) : ClientOptionFunc := fun '(mkClientOptions ca ce sn i sk vs vc ig _) =>
  Ok (mkClientOptions ca ce sn i sk vs vc ig (Some cred)).
Definition WithRootCACert (caCertFunc : option (list string)) : ClientOptionFunc := fun '(mkClientOptions _ ce sn i sk vs vc ig pr) =>
  Ok (mkClientOptions (Some caCertFunc) ce sn i sk vs vc ig pr).
Definition WithRootCACertFile (caCertFiles : list string) : ClientOptionFunc := fun opts =>
  match mapM ReadFile caCertFiles with None => Err "read" | Some caCerts => WithRootCACert (Some caCerts) opts end.
Definition WithInsecureDial (insecure : bool) : ClientOptionFunc := fun '(mkClientOptions ca ce sn _ sk vs vc ig pr) =>
  Ok (mkClientOptions ca ce sn insecure sk vs vc ig pr).
Definition WithClientCertificate (certificate : CertSource) : ClientOptionFunc := fun opts =>
  '(mkClientOptions ca _ sn i sk vs vc ig pr) ← WithInsecureDial false opts;
  Ok (mkClientOptions ca (Some certificate) sn i sk vs vc ig pr).
Definition WithClientCertificateFile (certFile keyFile : string) : ClientOptionFunc := fun opts =>
  match (cert ← ReadFile certFile; key ← ReadFile keyFile; X509KeyPair cert key) with
  | None => Err "read"
  | Some x509Cert => WithClientCertificate (FromPair x509Cert) opts
  end.
Definition WithClientCertificateFactory (factory : Factory) (request : string) (autoRenewal : bool) : ClientOptionFunc :=
  WithClientCertificate (FromFactory factory request autoRenewal).
Definition WithServerNameOverride (serverNameOverride : string) : ClientOptionFunc := fun '(mkClientOptions ca ce _ i sk vs vc ig pr) =>
  Ok (mkClientOptions ca ce serverNameOverride i sk vs vc ig pr).
Definition WithInsecureSkipVerify (insecureSkipVerify : bool) : ClientOptionFunc := fun '(mkClientOptions ca ce sn i _ vs vc ig pr) =>
  Ok (mkClientOptions ca ce sn i insecureSkipVerify vs vc ig pr).
Definition WithVerifyServerAuthority (rootCAs : CAs) (authorityChecker : nat -> nat -> Cert -> bool) : ClientOptionFunc :=
  fun '(mkClientOptions ca ce sn i sk vs vc ig pr) =>
  Ok (mkClientOptions ca ce sn i sk (vs ++ [certificateChainVerifierFn rootCAs authorityChecker []]) vc ig pr).
Definition WithVerifyServerCertificate (verifyCertificate : option Custom) : ClientOptionFunc := fun '(mkClientOptions ca ce sn i sk vs _ ig pr) =>
  Ok (mkClientOptions ca ce sn i sk vs verifyCertificate ig pr).
Definition WithIgnoreServerCertExpiresCheck (ignoreExpiresCheck : bool) : ClientOptionFunc := fun '(mkClientOptions ca ce sn i sk vs vc _ pr) =>
  Ok (mkClientOptions ca ce sn i sk vs vc ignoreExpiresCheck pr).

(** The loops over options of both sides. *)
Fixpoint parse_options {O} (opt : list (O -> gores O)) (opts : O) : gores O :=
  match opt with
  | [] => Ok opts
  | o :: opt => match o opts with Ok opts => parse_options opt opts | _ => Err "config credentials failed" end
  end.
Definition ParseClientOptions (opt : list ClientOptionFunc) : gores ClientOptions := parse_options opt emptyClientOptions.

(** ** Options of a server *)

Notation ServerOptionFunc := (ServerOptions -> gores ServerOptions).

Definition WithClientCACert (caCertFunc : option (list string)) : ServerOptionFunc := fun '(mkServerOptions _ ce i ty vs vc ig) =>
  Ok (mkServerOptions (Some caCertFunc) ce i ty vs vc ig).
Definition WithClientCACertFile (caCertFiles : list string) : ServerOptionFunc := fun opts =>
  match mapM ReadFile caCertFiles with None => Err "read" | Some caCerts => WithClientCACert (Some caCerts) opts end.
Definition WithInsecureListen (insecure : bool) : ServerOptionFunc := fun '(mkServerOptions ca ce _ ty vs vc ig) =>
  Ok (mkServerOptions ca ce insecure ty vs vc ig).
Definition WithServerCertificate (certificate : CertSource) : ServerOptionFunc := fun opts =>
  '(mkServerOptions ca _ i ty vs vc ig) ← WithInsecureListen false opts;
  Ok (mkServerOptions ca (Some certificate) i ty vs vc ig).
Definition WithServerCertificateFile (certFile keyFile : string) : ServerOptionFunc := fun opts =>
  match (cert ← ReadFile certFile; key ← ReadFile keyFile; X509KeyPair cert key) with
  | None => Err "read"
  | Some tlsCert => WithServerCertificate (FromPair tlsCert) opts
  end.
Definition WithServerCertificateFactory (factory : Factory) (request : string) (autoRenewal : bool) : ServerOptionFunc :=
  WithServerCertificate (FromFactory factory request autoRenewal).
Definition WithClientAuthType (clientAuthType : Z) : ServerOptionFunc := fun '(mkServerOptions ca ce i _ vs vc ig) =>
  Ok (mkServerOptions ca ce i clientAuthType vs vc ig).
Definition WithVerifyClientAuthority (clientCAs : CAs) (authorityChecker : nat -> nat -> Cert -> bool) : ServerOptionFunc :=
  fun '(mkServerOptions ca ce i ty vs vc ig) =>
  Ok (mkServerOptions ca ce i ty (vs ++ [certificateChainVerifierFn clientCAs authorityChecker [ExtKeyUsageClientAuth]]) vc ig).
Definition WithVerifyClientCertificate (verifyCertificate : option Custom) : ServerOptionFunc := fun '(mkServerOptions ca ce i ty vs _ ig) =>
  Ok (mkServerOptions ca ce i ty vs verifyCertificate ig).
Definition WithIgnoreClientCertExpiresCheck (ignoreExpiresCheck : bool) : ServerOptionFunc := fun '(mkServerOptions ca ce i ty vs vc _) =>
  Ok (mkServerOptions ca ce i ty vs vc ignoreExpiresCheck).

Definition ParseServerOptions (opt : list ServerOptionFunc) : gores ServerOptions := parse_options opt emptyServerOptions.

(** ** TLS configurations *)

Definition NoClientCert : Z := 0.
Definition RequestClientCert : Z := 1.
Definition RequireAnyClientCert : Z := 2.
Definition VerifyClientCertIfGiven : Z := 3.
Definition RequireAndVerifyClientCert : Z := 4.
Definition MinTLSVersion : Z := 770.
Definition Http2Proto : string := "h2".

(** The fields of [tls.Config] that the package sets.  A root pool of [None] is the one of
    the system. *)
Record client_config := mkClientConfig {
  ServerName : string; InsecureSkipVerify : bool; GetClientCertificate : option CertSource; MinVersion : Z;
  RootCAs : option (list string); c_VerifyPeerCertificate : readings -> list string -> chains -> bool
}.
Record server_config := mkServerConfig {
  GetCertificate : option CertSource; ClientAuth : Z; ClientCAs : option (list string);
  s_VerifyPeerCertificate : option (readings -> list string -> chains -> bool); NextProtos : list string
}.

(** A pool from the function of the options. *)
Definition cert_pool (cas : CAs) : gores (option (list string)) :=
  match cas with
  | None => Ok None
  | Some None => Err "read CAs"
  | Some (Some caCerts) => if forallb AppendCertsFromPEM caCerts then Ok (Some caCerts) else Err "AppendCACerts failed"
  end.

Definition configClientTLS (opts : ClientOptions) : gores client_config :=
  pool ← cert_pool (rootCAs opts);
  let custom := negb (bool_decide (length (certificateVerifier opts) = 0%nat)) || bool_decide (is_Some (verifyCertificateFn opts)) in
  Ok (mkClientConfig (serverName opts) (if custom then true else insecureSkipVerify opts) (certificate opts) MinTLSVersion pool
    (fun clock rawCerts verifiedChains => verifyCertificate clock rawCerts verifiedChains (certificateVerifier opts) (verifyCertificateFn opts) (ignoreExpiresCheck opts))).

Definition configServerTLS (opts : ServerOptions) : gores server_config :=
  pool ← cert_pool (clientCAs opts);
  let ty := clientAuthType opts in
  if (ty <? VerifyClientCertIfGiven)%Z then Ok (mkServerConfig (s_certificate opts) ty pool None [])
  else if negb (bool_decide (length (certificateChainVerifiers opts) = 0%nat)) || bool_decide (is_Some (s_verifyCertificateFn opts)) then
    let ty := if (ty =? VerifyClientCertIfGiven)%Z then RequestClientCert
              else if (ty =? RequireAndVerifyClientCert)%Z then RequireAnyClientCert else ty in
    Ok (mkServerConfig (s_certificate opts) ty pool
      (Some (fun clock rawCerts verifiedChains =>
        if (ty =? RequestClientCert)%Z && bool_decide (rawCerts = []) then true
        else verifyCertificate clock rawCerts verifiedChains (certificateChainVerifiers opts) (s_verifyCertificateFn opts) (s_ignoreExpiresCheck opts))) [])
  else Ok (mkServerConfig (s_certificate opts) ty pool (Some (fun _ _ _ => true)) []).

(** What [grpc] is told: plain text or TLS, with per-call credentials or without. *)
Inductive dial_credentials := Insecure (perRPC : option PerRPC) | WithTLS (c : client_config) (perRPC : option PerRPC).
Definition DialOptionWithOpts (opts : ClientOptions) : gores dial_credentials :=
  if insecure opts then Ok (Insecure (perRPCCredentials opts))
  else tlsConfig ← configClientTLS opts; Ok (WithTLS tlsConfig (perRPCCredentials opts)).
Definition DialOption (opt : list ClientOptionFunc) : gores dial_credentials :=
  opts ← ParseClientOptions opt; DialOptionWithOpts opts.
Definition ClientTlsConfig (opt : list ClientOptionFunc) : gores client_config :=
  opts ← ParseClientOptions opt; configClientTLS opts.

(** [None]: no credentials.  [Certificates] of the configuration is never set. *)
Definition ServerOptionWithOpts (opts : ServerOptions) : gores (option server_config) :=
  if s_insecure opts then Ok None
  else
    tlsConfig ← configServerTLS opts;
    match GetCertificate tlsConfig with
    | None => Err "no certificate specified for server"
    | Some _ => Ok (Some tlsConfig)
    end.
Definition ServerOption (opt : list ServerOptionFunc) : gores (option server_config) :=
  opts ← ParseServerOptions opt; ServerOptionWithOpts opts.
Definition ServerTlsConfig (opt : list ServerOptionFunc) : gores server_config :=
  opts ← ParseServerOptions opt; configServerTLS opts.
Definition HttpServerTlsConfig (opt : list ServerOptionFunc) : gores (option server_config) :=
  opts ← ParseServerOptions opt;
  if s_insecure opts then Ok None
  else
    '(mkServerConfig ce ty ca vp _) ← configServerTLS opts;
    Ok (Some (mkServerConfig ce ty ca vp [Http2Proto])).

(** ** Handshakes *)

(** Does a server with this configuration accept a client that shows these certificates, in a
    handshake that resumes no earlier session?  A chain is verified from
    [VerifyClientCertIfGiven] on, if there is one, at the first reading of the clock, before
    the function of the configuration is asked. *)
Definition tls_server_accepts (clock : readings) (c : server_config) (rawCerts : list string) : bool :=
  if (ClientAuth c =? NoClientCert)%Z then true
  else if bool_decide (rawCerts = []) && ((ClientAuth c =? RequireAnyClientCert) || (ClientAuth c =? RequireAndVerifyClientCert))%Z then false
  else
    match mapM ParseCertificate rawCerts with
    | None => false
    | Some certs =>
        let verified : option chains :=
          match certs with
          | cert :: rest =>
              if (VerifyClientCertIfGiven <=? ClientAuth c)%Z
              then Some <$> Verify cert (clock 0) (ClientCAs c) rest [ExtKeyUsageClientAuth] else Some None
          | [] => Some None
          end in
        match verified with
        | None => false
        | Some cs => match s_VerifyPeerCertificate c with Some f => f (fun n => clock (S n)) rawCerts cs | None => true end
        end
    end.

(** Does a client with this configuration accept a server that shows these certificates? *)
Definition tls_client_accepts (clock : readings) (c : client_config) (rawCerts : list string) : bool :=
  match mapM ParseCertificate rawCerts with
  | None | Some [] => false
  | Some (cert :: rest) =>
      match (if InsecureSkipVerify c then Some None
             else if ServerCertificateFor cert (ServerName c) then Some <$> Verify cert (clock 0) (RootCAs c) rest [] else None) with
      | None => false
      | Some cs => c_VerifyPeerCertificate c (fun n => clock (S n)) rawCerts cs
      end
  end.

(** ** Properties *)

(** Does the server have verifiers of its own? *)
Definition has_verifiers (opts : ServerOptions) : bool :=
  negb (bool_decide (length (certificateChainVerifiers opts) = 0%nat)) || bool_decide (is_Some (s_verifyCertificateFn opts)).

(** What the options promise about a chain: the verifiers of the server accept it, or, when
    it has none, the standard library does. *)
Definition chain_accepted (clock : readings) (opts : ServerOptions) (rawCerts : list string) : bool :=
  match mapM ParseCertificate rawCerts with
  | None | Some [] => false
  | Some (cert :: rest) =>
      if has_verifiers opts
      then verifyCertificate (fun n => clock (S n)) rawCerts None (certificateChainVerifiers opts) (s_verifyCertificateFn opts) (s_ignoreExpiresCheck opts)
      else bool_decide (is_Some (Verify cert (clock 0) (clientCAs opts ≫= id) rest [ExtKeyUsageClientAuth]))
  end.
Definition client_policy (clock : readings) (opts : ServerOptions) (rawCerts : list string) : bool :=
  let parsed := bool_decide (is_Some (mapM ParseCertificate rawCerts)) in
  let none := bool_decide (rawCerts = []) in
  match clientAuthType opts with
  | 0%Z => true
  | 1%Z => parsed
  | 2%Z => negb none && parsed
  | 3%Z => none || chain_accepted clock opts rawCerts
  | _ => negb none && chain_accepted clock opts rawCerts
  end.

Lemma mapM_parse_nil (rawCerts : list string) certs : mapM ParseCertificate rawCerts = Some certs -> rawCerts = [] <-> certs = [].
Proof. intros E%mapM_Some_1%Forall2_length. destruct rawCerts, certs; cbn in *; split; congruence. Qed.

Lemma cert_pool_ok (cas : CAs) (pool : option (list string)) : cert_pool cas = Ok pool -> pool = cas ≫= id.
Proof. destruct cas as [[caCerts|]|]; cbn; [case_match|done|]; congruence. Qed.

Lemma accepts_policy (clock : readings) (opts : ServerOptions) (c : server_config) (rawCerts : list string) :
  (0 <= clientAuthType opts <= 4)%Z -> configServerTLS opts = Ok c ->
  tls_server_accepts clock c rawCerts = client_policy clock opts rawCerts.
Proof.
  intros Ht (pool & Hpool%cert_pool_ok & Hc)%gores_bind_ok.
  assert (Hty : (clientAuthType opts = 0 \/ clientAuthType opts = 1 \/ clientAuthType opts = 2 \/ clientAuthType opts = 3 \/
                 clientAuthType opts = 4)%Z) by lia.
  unfold tls_server_accepts, client_policy, chain_accepted. fold (has_verifiers opts) in Hc. cbv zeta in Hc.
  destruct (mapM ParseCertificate rawCerts) as [certs|] eqn:Em.
  - pose proof (mapM_parse_nil rawCerts certs Em) as Hnil.
    destruct certs as [|cert rest]; rewrite ?(bool_decide_eq_true_2 (rawCerts = [])) by (by apply Hnil);
      rewrite ?(bool_decide_eq_false_2 (rawCerts = [])) by (by intros ?%Hnil);
      destruct Hty as [E|[E|[E|[E|E]]]]; rewrite E in Hc |- *; destruct (has_verifiers opts); injection Hc as <-;
      cbn -[Verify verifyCertificate]; try done.
    all: rewrite ?Hpool.
    all: rewrite ?(bool_decide_eq_true_2 (rawCerts = [])) by (by apply Hnil).
    all: rewrite ?(bool_decide_eq_false_2 (rawCerts = [])) by (by intros ?%Hnil).
    all: try done; by destruct (Verify _ _ _ _ _).
  - destruct (decide (rawCerts = [])) as [->|Hraw]; [done|].
    rewrite !bool_decide_eq_false_2 by done.
    destruct Hty as [E|[E|[E|[E|E]]]]; rewrite E in Hc |- *; destruct (has_verifiers opts); by injection Hc as <-.
Qed.

(** Client authentication.  A server whose configuration could be built accepts exactly
    the clients that its options ask for, for every type of client authentication: with its
    own verifiers the type is lowered so that the standard library does not verify the chain
    as well, but then every verifier has to accept the chain, and a client without a
    certificate gets through only where certificates are optional. *)
Theorem client_auth_kept (clock : readings) (opts : ServerOptions) (c : server_config) (rawCerts : list string) :
  (0 <= clientAuthType opts <= 4)%Z -> configServerTLS opts = Ok c ->
  tls_server_accepts clock c rawCerts = client_policy clock opts rawCerts.
Proof. apply accepts_policy. Qed.

Lemma verifiers_all (vs : list Verifier) (rawCerts : list string) (ig : bool) (v : Verifier) : forall clock cs cs',
  run_verifiers vs clock rawCerts ig cs = Some cs' -> v ∈ vs -> exists i, is_Some (v (fun n => clock (i + n)) rawCerts ig).
Proof.
  induction vs as [|v' vs IH]; intros clock cs cs' Hr Hv; [by apply elem_of_nil in Hv|]. cbn in Hr.
  destruct (v' clock rawCerts ig) as [cs''|] eqn:E; [|done]. cbn in Hr.
  apply elem_of_cons in Hv as [->|Hv]; [exists 0%nat; change (is_Some (v' clock rawCerts ig)); by rewrite E|]. destruct (IH _ _ _ Hr Hv) as [i Hi]. by exists (2 + i)%nat.
Qed.

Lemma authority_accepts (level : nat) (auths : option (list string)) (len current : nat) (cert : Cert) :
  IntermediateAuthorityChecker level auths len current cert = true ->
  (level < len)%nat /\ (current = level -> exists l a, auths = Some l /\ a ∈ l /\ (a = "*" \/ Hostname.VerifyHostname cert a = true)).
Proof.
  destruct auths as [l|]; [|done]. cbn. destruct (Nat.leb_spec len level); [done|]. intros Hc. split; [done|]. intros ->.
  rewrite Nat.eqb_refl in Hc. apply existsb_exists in Hc as (a & Hin%list_elem_of_In & [Ha|Ha]%orb_true_iff); bool_to_prop; eauto 8.
Qed.

(** The check that an option asks for, of the certificates shown: they verify against the
    certificate authorities of the option, at one of the readings of the clock unless expiry
    is ignored, and the one at the level is for one of the names given, or any will do. *)
Definition checked (cas : CAs) (level : nat) (auths : option (list string)) (usages : list ExtKeyUsage) (clock : readings) (ig : bool)
    (rawCerts : list string) : Prop :=
  exists caCerts cert rest signer l t chains, cas = Some (Some caCerts) /\ mapM ParseCertificate rawCerts = Some (cert :: rest) /\
    Verify cert t (Some caCerts) rest usages = Some chains /\ (ig = false -> exists i, t = clock i) /\
    (cert :: rest) !! level = Some signer /\ auths = Some l /\ ("*" ∈ l \/ exists a, a ∈ l /\ Hostname.VerifyHostname signer a = true).

Lemma chainVerifier_accepts (clock : readings) (cas : CAs) (level : nat) (auths : option (list string)) usages (rawCerts : list string) (ig : bool) :
  is_Some (certificateChainVerifierFn cas (IntermediateAuthorityChecker level auths) usages clock rawCerts ig) ->
  checked cas level auths usages clock ig rawCerts.
Proof.
  intros [cs Hv]. unfold certificateChainVerifierFn in Hv. destruct cas as [[caCerts|]|]; cbn in Hv; [|by case_bool_decide; try destruct (mapM _ _)|done].
  case_bool_decide; [done|]. destruct (mapM ParseCertificate rawCerts) as [[|cert rest]|] eqn:Em; cbn [mbind option_bind] in Hv; [by destruct (forallb _ _)| |done].
  destruct (forallb AppendCertsFromPEM caCerts) in Hv; [|done]. cbn [negb] in Hv. destruct (Verify _ _ _ _ _) as [chains|] eqn:Ev in Hv; [|done]. cbn [mbind option_bind] in Hv.
  destruct (forallb _ _) eqn:Hall in Hv; [|done]. rewrite forallb_forall in Hall.
  assert (Hat : forall i c, (cert :: rest) !! i = Some c -> IntermediateAuthorityChecker level auths (length (cert :: rest)) i c = true).
  { intros i c Hi. apply (Hall (i, c)). apply list_elem_of_In, list_elem_of_lookup. exists i. by rewrite list_lookup_imap, Hi. }
  destruct (authority_accepts _ _ _ _ _ (Hat 0%nat cert eq_refl)) as [Hlen _].
  destruct (lookup_lt_is_Some_2 _ _ Hlen) as [signer Hs]. destruct (authority_accepts _ _ _ _ _ (Hat level signer Hs)) as [_ Hau].
  destruct (Hau eq_refl) as (l & a & -> & Ha & Hok). exists caCerts, cert, rest, signer, l. eexists _, chains.
  refine (conj eq_refl (conj Em (conj Ev (conj _ (conj Hs (conj eq_refl _)))))); [intros ->; by exists 1%nat|].
  destruct Hok as [->|Hok]; [by left|right; by exists a].
Qed.
Lemma verifyCertificate_checked (clock : readings) (rawCerts : list string) cs vs custom ig cas level auths usages :
  verifyCertificate clock rawCerts cs vs custom ig = true -> certificateChainVerifierFn cas (IntermediateAuthorityChecker level auths) usages ∈ vs ->
  checked cas level auths usages clock ig rawCerts.
Proof.
  unfold verifyCertificate. destruct (run_verifiers _ _ _ _ _) as [cs'|] eqn:Er; [|done]. intros _ Hv.
  destruct (verifiers_all _ _ _ _ _ _ _ Er Hv) as [i Hi]. apply chainVerifier_accepts in Hi.
  destruct Hi as (caCerts & cert & rest & signer & l & t & chains & H1 & H2 & H3 & H4 & H5). exists caCerts, cert, rest, signer, l, t, chains.
  split; [done|]. split; [done|]. split; [done|]. split; [|done]. intros Hig. destruct (H4 Hig) as [k Hk]. by exists (i + k)%nat.
Qed.

(** The options of the package. *)
Inductive client_option : ClientOptionFunc -> Prop :=
| is_PerRPC cred : client_option (WithPerRPCCredentials cred)
| is_RootCA f : client_option (WithRootCACert f)
| is_RootCAFile files : client_option (WithRootCACertFile files)
| is_InsecureDial b : client_option (WithInsecureDial b)
| is_ClientCert c : client_option (WithClientCertificate c)
| is_ClientCertFile c k : client_option (WithClientCertificateFile c k)
| is_ClientCertFactory f r b : client_option (WithClientCertificateFactory f r b)
| is_ServerName n : client_option (WithServerNameOverride n)
| is_SkipVerify b : client_option (WithInsecureSkipVerify b)
| is_ServerAuthority ca ch : client_option (WithVerifyServerAuthority ca ch)
| is_VerifyServer f : client_option (WithVerifyServerCertificate f)
| is_IgnoreServerExpiry b : client_option (WithIgnoreServerCertExpiresCheck b).
Inductive server_option : ServerOptionFunc -> Prop :=
| is_ClientCA f : server_option (WithClientCACert f)
| is_ClientCAFile files : server_option (WithClientCACertFile files)
| is_InsecureListen b : server_option (WithInsecureListen b)
| is_ServerCert c : server_option (WithServerCertificate c)
| is_ServerCertFile c k : server_option (WithServerCertificateFile c k)
| is_ServerCertFactory f r b : server_option (WithServerCertificateFactory f r b)
| is_AuthType ty : server_option (WithClientAuthType ty)
| is_ClientAuthority ca ch : server_option (WithVerifyClientAuthority ca ch)
| is_VerifyClient f : server_option (WithVerifyClientCertificate f)
| is_IgnoreClientExpiry b : server_option (WithIgnoreClientCertExpiresCheck b).

Lemma client_option_keeps o opts opts' v : client_option o -> o opts = Ok opts' -> v ∈ certificateVerifier opts -> v ∈ certificateVerifier opts'.
Proof.
  intros Ho He Hv. destruct Ho; destruct opts; cbn in *; unfold WithRootCACertFile, WithClientCertificateFile in He; cbn in He;
    try (destruct (mapM _ _) in He); try (destruct (_ ≫= _) in He); try discriminate He; injection He as <-; cbn; try done. apply elem_of_app. by left.
Qed.
Lemma server_option_keeps o opts opts' v : server_option o -> o opts = Ok opts' -> v ∈ certificateChainVerifiers opts -> v ∈ certificateChainVerifiers opts'.
Proof.
  intros Ho He Hv. destruct Ho; destruct opts; cbn in *; unfold WithClientCACertFile, WithServerCertificateFile in He; cbn in He;
    try (destruct (mapM _ _) in He); try (destruct (_ ≫= _) in He); try discriminate He; injection He as <-; cbn; try done. apply elem_of_app. by left.
Qed.
(** What an option brings about, and the later ones keep, is there in the end. *)
Lemma parse_options_has {O} (P : O -> Prop) (good : (O -> gores O) -> Prop) (o : O -> gores O) before after opts opts' :
  (forall x y, o x = Ok y -> P y) -> (forall o x y, good o -> o x = Ok y -> P x -> P y) -> Forall good after ->
  parse_options (before ++ o :: after) opts = Ok opts' -> P opts'.
Proof.
  intros Ho Hkeep Hafter. revert opts. induction before as [|b before IH]; intros opts; cbn.
  - destruct (o opts) as [x|e|e] eqn:E; [|done..]. apply Ho in E. revert x E. induction Hafter as [|a after Ha _ IH]; intros x Hx; cbn; [by intros [= <-]|].
    destruct (a x) as [y|e|e] eqn:Ea; [|done..]. apply IH. by eapply Hkeep.
  - destruct (b opts) as [x|e|e]; [|done..]. apply IH.
Qed.

(** C34: authorities of the other side, in handshakes that resume no session.  A client among
    whose options, all of the package, is one that asks for an authority of the server
    accepts a server only when the server's certificates pass the check of the option; the
    verification of the standard library is switched off then.  A server among whose options,
    all of the package, is one that asks for an authority of the client accepts a client only
    when the client's certificates pass the check, for the authentication of clients, or when
    the type of client authentication does not demand a certificate that is verified: below 3
    none is checked, and with 3 a client may show none.  The check is [checked]: the chain
    verifies against the certificate authorities given with the option, at a time that the
    clock shows during the handshake (or at another one, if expiry is ignored), there is a
    certificate at the level asked for, and it is for one of the names given; the name "*"
    stands for all. *)
Theorem authority_checked (clock : readings) (cas : CAs) (level : nat) (auths : option (list string)) (rawCerts : list string) :
  (forall before after opts c, Forall client_option after ->
    ParseClientOptions (before ++ WithVerifyServerAuthority cas (IntermediateAuthorityChecker level auths) :: after) = Ok opts ->
    configClientTLS opts = Ok c -> tls_client_accepts clock c rawCerts = true ->
    InsecureSkipVerify c = true /\ checked cas level auths [] clock (ignoreExpiresCheck opts) rawCerts) /\
  (forall before after opts c, Forall server_option after ->
    ParseServerOptions (before ++ WithVerifyClientAuthority cas (IntermediateAuthorityChecker level auths) :: after) = Ok opts ->
    configServerTLS opts = Ok c -> tls_server_accepts clock c rawCerts = true ->
    (clientAuthType opts < 3)%Z \/ (clientAuthType opts = 3%Z /\ rawCerts = []) \/
    checked cas level auths [ExtKeyUsageClientAuth] clock (s_ignoreExpiresCheck opts) rawCerts).
Proof.
  assert (Hnext : forall usages ig, checked cas level auths usages (fun n => clock (S n)) ig rawCerts -> checked cas level auths usages clock ig rawCerts).
  { intros usages ig (caCerts & cert & rest & signer & l & t & chains & H1 & H2 & H3 & H4 & H5). exists caCerts, cert, rest, signer, l, t, chains.
    split; [done|]. split; [done|]. split; [done|]. split; [|done]. intros Hig. destruct (H4 Hig) as [k Hk]. by exists (S k). }
  split; intros before after opts c Hafter Hparse (pool & _ & Hc)%gores_bind_ok Ha.
  - assert (Hv : certificateChainVerifierFn cas (IntermediateAuthorityChecker level auths) [] ∈ certificateVerifier opts).
    { refine (parse_options_has (fun opts => _ ∈ certificateVerifier opts) client_option _ _ _ _ _ _ _ Hafter Hparse).
      - intros [] y [= <-]. cbn. apply elem_of_app. right. by left.
      - intros. by eapply client_option_keeps. }
    injection Hc as <-. cbn [InsecureSkipVerify].
    rewrite bool_decide_eq_false_2 by (intros Hl%nil_length_inv; rewrite Hl in Hv; exact (not_elem_of_nil _ Hv)). split; [done|].
    unfold tls_client_accepts in Ha. destruct (mapM _ rawCerts) as [[|cert rest]|] in Ha; [done| |done].
    destruct (if InsecureSkipVerify _ then _ else _) as [cs|] in Ha; [|done]. apply Hnext. by eapply verifyCertificate_checked.
  - assert (Hv : certificateChainVerifierFn cas (IntermediateAuthorityChecker level auths) [ExtKeyUsageClientAuth] ∈ certificateChainVerifiers opts).
    { refine (parse_options_has (fun opts => _ ∈ certificateChainVerifiers opts) server_option _ _ _ _ _ _ _ Hafter Hparse).
      - intros [] y [= <-]. cbn. apply elem_of_app. right. by left.
      - intros. by eapply server_option_keeps. }
    destruct (Z.ltb_spec (clientAuthType opts) 3) as [Hty|Hty]; [by left|right]. cbv zeta in Hc. unfold VerifyClientCertIfGiven, RequireAndVerifyClientCert in Hc.
    rewrite (proj2 (Z.ltb_ge _ _)) in Hc by done.
    rewrite bool_decide_eq_false_2 in Hc by (intros Hl%nil_length_inv; rewrite Hl in Hv; exact (not_elem_of_nil _ Hv)). cbn [negb orb] in Hc.
    unfold tls_server_accepts in Ha. destruct (Z.eqb_spec (clientAuthType opts) 3) as [E3|N3].
    + injection Hc as <-. cbn in Ha. rewrite andb_false_r in Ha. destruct (mapM _ rawCerts) as [certs|] in Ha; [|done].
      destruct (decide (rawCerts = [])) as [->|Hr]; [by left|right]. rewrite bool_decide_eq_false_2 in Ha by done.
      apply Hnext. destruct certs; by eapply verifyCertificate_checked.
    + right. set (ty := if (clientAuthType opts =? 4)%Z then RequireAnyClientCert else clientAuthType opts) in Hc.
      assert (ty <> 0 /\ ty <> 1)%Z as [Ht0 Ht1] by (subst ty; unfold RequireAnyClientCert; destruct (Z.eqb_spec (clientAuthType opts) 4); lia).
      injection Hc as <-. cbn [ClientAuth ClientCAs s_VerifyPeerCertificate] in Ha. rewrite (proj2 (Z.eqb_neq ty NoClientCert) Ht0) in Ha.
      rewrite (proj2 (Z.eqb_neq ty RequestClientCert) Ht1) in Ha. cbn [andb] in Ha.
      destruct (bool_decide (rawCerts = []) && _) in Ha; [done|]. destruct (mapM _ rawCerts) as [certs|] in Ha; [|done].
      apply Hnext. destruct (match certs with [] => _ | _ :: _ => _ end) as [cs|] in Ha; [|done]. by eapply verifyCertificate_checked.
Qed.

End credentials.
Arguments ClientOptions : clear implicits.
Arguments ServerOptions : clear implicits.
Arguments CertSource : clear implicits.

#[local] Existing Instance Hostname.example_host_cert.

(** ** Concrete certificates: a certificate is the host name it is for, and the pool that
    verifies it holds the text "ca". *)
#[export] Instance example_x509 : X509 Hostname.example_cert string := {|
  ParseCertificate s := if bool_decide (s = "bad") then None else Some (Hostname.mkCert [] [s] "");
  NotBefore _ := 0%Z;
  AppendCertsFromPEM s := negb (bool_decide (s = "bad"));
  Verify cert _ pool _ _ := if bool_decide (pool = Some ["ca"]) then Some [[cert]] else None;
  ServerCertificateFor := Hostname.VerifyHostname;
  ReadFile s := Some s;
  X509KeyPair c k := Some (c +:+ k)
|}.
Notation example_options := (ClientOptions Hostname.example_cert string unit unit unit).
Definition example_server : ServerOptions Hostname.example_cert string unit unit :=
  mkServerOptions None (Some (FromPair "key")) false RequireAndVerifyClientCert
    [certificateChainVerifierFn (Some (Some ["ca"])) (LeafAuthorityChecker (Some ["admin.org"])) [ExtKeyUsageClientAuth]] None false.

Lemma client_auth_kept_witness :
  exists c, configServerTLS example_server = Ok c /\ ClientAuth c = RequireAnyClientCert /\
    tls_server_accepts (fun _ => 0%Z) c ["admin.org"] = true /\ tls_server_accepts (fun _ => 0%Z) c ["user.org"] = false /\ tls_server_accepts (fun _ => 0%Z) c [] = false.
Proof.
  destruct (configServerTLS example_server) as [c|e|e] eqn:E; [|discriminate E..]. exists c. split; [done|].
  pose proof (fun raw => client_auth_kept (fun _ => 0%Z) example_server c raw ltac:(by vm_compute) E) as Hk.
  rewrite !Hk. split; [by injection E as <-|]. by vm_compute.
Defined.

Lemma authority_checked_witness :
  (exists (opts : example_options) c,
    ParseClientOptions [WithVerifyServerAuthority (Some (Some ["ca"])) (LeafAuthorityChecker (Some ["api.org"])); WithInsecureSkipVerify false] = Ok opts /\
    configClientTLS opts = Ok c /\ tls_client_accepts (fun _ => 0%Z) c ["api.org"] = true /\ InsecureSkipVerify c = true) /\
  (exists (opts : ServerOptions Hostname.example_cert string unit unit) c,
    ParseServerOptions [WithVerifyClientAuthority (Some (Some ["ca"])) (LeafAuthorityChecker (Some ["admin.org"])); WithClientAuthType 4] = Ok opts /\
    configServerTLS opts = Ok c /\ tls_server_accepts (fun _ => 0%Z) c ["admin.org"] = true /\
    checked (Some (Some ["ca"])) 0 (Some ["admin.org"]) [ExtKeyUsageClientAuth] (fun _ => 0%Z) false ["admin.org"]).
Proof.
  split.
  - set (l := [WithVerifyServerAuthority (Some (Some ["ca"])) (LeafAuthorityChecker (Some ["api.org"])); WithInsecureSkipVerify false]).
    destruct (ParseClientOptions l) as [opts|e|e] eqn:Eo; [|discriminate Eo..]. destruct (configClientTLS opts) as [c|e|e] eqn:E; [|injection Eo as <-; discriminate E..].
    exists opts, c. split; [reflexivity|]. split; [exact E|].
    assert (Ha : tls_client_accepts (fun _ => 0%Z) c ["api.org"] = true) by (injection Eo as <-; injection E as <-; vm_compute; reflexivity).
    split; [exact Ha|].
    refine (proj1 (proj1 (authority_checked (fun _ => 0%Z) (Some (Some ["ca"])) 0 (Some ["api.org"]) ["api.org"]) [] [WithInsecureSkipVerify false] opts c _ Eo E Ha)).
    repeat constructor.
  - set (l := [WithVerifyClientAuthority (Some (Some ["ca"])) (LeafAuthorityChecker (Some ["admin.org"])); WithClientAuthType 4]).
    destruct (ParseServerOptions l) as [opts|e|e] eqn:Eo; [|discriminate Eo..]. destruct (configServerTLS opts) as [c|e|e] eqn:E; [|injection Eo as <-; discriminate E..].
    exists opts, c. split; [reflexivity|]. split; [exact E|].
    assert (Ha : tls_server_accepts (fun _ => 0%Z) c ["admin.org"] = true) by (injection Eo as <-; injection E as <-; vm_compute; reflexivity).
    split; [exact Ha|].
    destruct (proj2 (authority_checked (PerRPC := unit) (fun _ => 0%Z) (Some (Some ["ca"])) 0 (Some ["admin.org"]) ["admin.org"]) [] [WithClientAuthType 4] opts c) as [H|[[H _]|H]];
      [repeat constructor|exact Eo|exact E|exact Ha|injection Eo as <-; discriminate H..|injection Eo as <-; exact H].
Defined.

(** Without a type of client authentication the authority of the client is not asked for. *)
Example authority_not_asked :
  match ServerTlsConfig [WithVerifyClientAuthority (Some (Some ["ca"])) (LeafAuthorityChecker (Some ["admin.org"])); WithClientAuthType 2 : ServerOptions _ _ unit unit -> _] with
  | Ok c => tls_server_accepts (fun _ => 0%Z) c ["user.org"] = true
  | _ => False
  end.
Proof. vm_compute. reflexivity. Qed.

End Credentials.
