(* ===== verification/ServerListen.v ===== *)
(** * Where a server listens ([server/internal/server/server.go], [IsAutoPort] of
    [server/internal/option/utils.go]).

    An address is completed with the host's own and a port of a range; the port is drawn at
    random until one can be bound. *)

From S2P Require Import Prelude GoInt GoStrings Value.
From Stdlib Require Import Ascii.

Open Scope string_scope.
Open Scope list_scope.

Module ServerListen.

Definition AutoSelectAddr : string := "auto".
Definition MultiplexServerAddr : string := "mux".

(** [net.SplitHostPort]: host and port of [host:port] or of [[host]:port]. *)
Fixpoint IndexByte (s : string) (c : ascii) : option nat :=
  match s with EmptyString => None | String a s => if decide (a = c) then Some 0 else S <$> IndexByte s c end.
Definition no_brackets (host_rest port_rest host port : string) : gores (string * string) :=
  if contains_char "[" host_rest then Err "unexpected '[' in address"
  else if contains_char "]" port_rest then Err "unexpected ']' in address" else Ok (host, port).
Definition SplitHostPort (hostport : string) : gores (string * string) :=
  match LastIndex hostport ":" with
  | None => Err "missing port in address"
  | Some i =>
      let port := sdrop (S i) hostport in
      match hostport with
      | String "[" rest =>
          match IndexByte hostport "]" with
          | None => Err "missing ']' in address"
          | Some e =>
              if bool_decide (S e = String.length hostport) then Err "missing port in address"
              else if bool_decide (S e = i) then no_brackets rest (sdrop (S e) hostport) (stake (e - 1) rest) port
              else if HasPrefix (sdrop (S e) hostport) ":" then Err "too many colons in address" else Err "missing port in address"
          end
      | _ =>
          let host := stake i hostport in
          if contains_char ":" host then Err "too many colons in address" else no_brackets hostport hostport host port
      end
  end.

Definition IsAutoPort (addr : string) : bool :=
  if bool_decide (TrimSpace (ToLower addr) = AutoSelectAddr) then true
  else if negb (contains_char ":" addr) then true
  else match SplitHostPort addr with Ok (_, port) => bool_decide (port = "0") | _ => false end.

Section listen.
(** [utils.HostIp] ([None]: an error), whether [net.ParseIP] takes a text, and whether
    [net.Listen] succeeds at an address. *)
Context (HostIp : option string) (ParseIP : string -> bool) (bind : string -> bool).
(** [rand.Int31n] of the draw with this number. *)
Context (Int31n : nat -> Z -> Z).

Definition defaultAddress : string := "".
(** The address as it is completed. *)
Definition complete_addr (addr : string) : gores string :=
  let addr := if bool_decide (ToLower (TrimSpace addr) = AutoSelectAddr) then defaultAddress +:+ ":0" else addr in
  let from_colon := match LastIndex addr ":" with Some i => sdrop i addr | None => "" end in
  let addr := if HasPrefix addr "[::]:" then from_colon else if HasPrefix addr "0.0.0.0" then from_colon else addr in
  let with_ip rest := match HostIp with Some ip => Ok (ip +:+ rest) | None => Err "invalid address specified" end in
  match addr with
  | EmptyString => with_ip ":0"
  | String ":" _ => with_ip addr
  | _ => Ok (if contains_char ":" addr then addr else addr +:+ ":0")
  end.

(** [rand.Int31n] panics unless its argument is positive; the arithmetic has 32 bits. *)
Definition draw (i : nat) (minPort maxPort : Z) : gores Z :=
  let n := wrapS 32 (wrapS 32 (wrapS 32 maxPort - wrapS 32 minPort) + 1) in
  if (n <=? 0)%Z then Panic "invalid argument to Int31n" else Ok (wrapS 32 (wrapS 32 minPort + Int31n i n)).
Definition port_addr (host : string) (port : Z) : string := host +:+ ":" +:+ Value.Value.FormatInt port.
Fixpoint try_ports (tries i : nat) (host : string) (minPort maxPort : Z) : gores string :=
  match tries with
  | O => Err "no available port found in port range"
  | S tries =>
      port ← draw i minPort maxPort;
      if bind (port_addr host port) then Ok (port_addr host port) else try_ports tries (S i) host minPort maxPort
  end.
(** [tcpListen]: the address that is bound. *)
Definition tcpListen (addr : string) (minPort maxPort : Z) : gores string :=
  addr ← complete_addr addr;
  '(host, _) ← SplitHostPort addr;
  if negb (ParseIP host) then Err "invalid address specified"
  else if IsAutoPort addr then
    let minPort := if (minPort =? -1)%Z then 10000%Z else minPort in
    let maxPort := if (maxPort =? -1)%Z then 20000%Z else maxPort in
    if (maxPort <? minPort)%Z then Err "invalid port range, max port is less than min port"
    else try_ports 50 0 host minPort maxPort
  else if bind addr then Ok addr else Err "listen".
Definition Listen := tcpListen.

(** ** Ports *)

Definition low (minPort : Z) : Z := if (minPort =? -1)%Z then 10000%Z else minPort.
Definition high (maxPort : Z) : Z := if (maxPort =? -1)%Z then 20000%Z else maxPort.

(** Draws are below their bound, as documented. *)
Context (Hdraw : forall i n, (0 < n)%Z -> (0 <= Int31n i n < n)%Z).

Lemma draw_range i lo hi : (0 <= lo <= hi)%Z -> (hi < 2 ^ 31 - 1)%Z -> exists p, draw i lo hi = Ok p /\ (lo <= p <= hi)%Z /\
  p = (lo + Int31n i (hi - lo + 1))%Z.
Proof.
  intros Hlo Hhi. unfold draw. rewrite (wrapS_id 32 lo), (wrapS_id 32 hi) by (done || (unfold inS; lia)).
  rewrite (wrapS_id 32 (hi - lo)) by (done || (unfold inS; lia)). rewrite (wrapS_id 32 (hi - lo + 1)) by (done || (unfold inS; lia)).
  rewrite (proj2 (Z.leb_gt _ _)) by lia. pose proof (Hdraw i (hi - lo + 1) ltac:(lia)).
  rewrite wrapS_id by (done || (unfold inS; lia)). eexists. split; [done|]. lia.
Qed.
Lemma try_ports_spec host lo hi : (0 <= lo <= hi)%Z -> (hi < 2 ^ 31 - 1)%Z -> forall tries i,
  match try_ports tries i host lo hi with
  | Ok a => exists p, a = port_addr host p /\ (lo <= p <= hi)%Z /\ bind a = true
  | Err _ => forall j, i <= j < i + tries -> bind (port_addr host (lo + Int31n j (hi - lo + 1))) = false
  | Panic _ => False
  end.
Proof.
  intros Hlo Hhi. induction tries as [|tries IH]; intros i; cbn [try_ports]; [intros; lia|].
  destruct (draw_range i lo hi Hlo Hhi) as (p & -> & Hp & Hpeq). cbn [mbind gores_bind].
  destruct (bind (port_addr host p)) eqn:Hb; [by eauto|]. specialize (IH (S i)). destruct (try_ports tries (S i) host lo hi); [done| |done].
  intros j Hj. destruct (decide (j = i)) as [->|]; [by rewrite <- Hpeq|]. apply IH. lia.
Qed.

(** Listening.  For an address of the host that leaves the port open, and bounds in the
    right order within 31 bits, listening ends: it is bound at a port within the bounds that was
    free, or none of the fifty that were drawn was; for an address with a port it is bound there
    or not at all. *)
Theorem listen_bounded addr lo hi a host port : complete_addr addr = Ok a -> SplitHostPort a = Ok (host, port) -> ParseIP host = true ->
  (0 <= low lo <= high hi)%Z -> (high hi < 2 ^ 31 - 1)%Z ->
  match tcpListen addr lo hi with
  | Ok b => bind b = true /\ if IsAutoPort a then exists p, b = port_addr host p /\ (low lo <= p <= high hi)%Z else b = a
  | Err _ => if IsAutoPort a then forall j, j < 50 -> bind (port_addr host (low lo + Int31n j (high hi - low lo + 1))) = false else bind a = false
  | Panic _ => False
  end.
Proof.
  intros Ha Hs Hip Hr Hh. unfold tcpListen. rewrite Ha. cbn [mbind gores_bind]. rewrite Hs. cbn [mbind gores_bind]. rewrite Hip. cbn [negb].
  destruct (IsAutoPort a).
  - fold (low lo) (high hi). rewrite (proj2 (Z.ltb_ge _ _)) by lia. pose proof (try_ports_spec host (low lo) (high hi) Hr Hh 50 0) as Ht.
    destruct (try_ports 50 0 host (low lo) (high hi)); [|intros j Hj; apply Ht; lia|done]. destruct Ht as (p & -> & Hp & Hb). eauto.
  - by destruct (bind a) eqn:Hb.
Qed.

(** Only a lower bound above the default upper one leaves no port at all. *)
Lemma high_range_refused addr lo a host port : complete_addr addr = Ok a -> SplitHostPort a = Ok (host, port) -> ParseIP host = true -> IsAutoPort a = true ->
  (20000 < lo)%Z -> tcpListen addr lo (-1) = Err "invalid port range, max port is less than min port".
Proof.
  intros Ha Hs Hip Hauto Hlo. unfold tcpListen. rewrite Ha. cbn [mbind gores_bind]. rewrite Hs. cbn [mbind gores_bind]. rewrite Hip, Hauto. cbn [negb].
  rewrite (proj2 (Z.eqb_neq lo (-1))) by lia. change ((-1 =? -1)%Z) with true. cbv iota. by rewrite (proj2 (Z.ltb_lt _ _)).
Qed.
(** A bound too wide for 31 bits is a panic. *)
Lemma wide_range_panics host : try_ports 50 0 host 0 (2 ^ 31 - 1) = Panic "invalid argument to Int31n".
Proof. done. Qed.

(** An address of version 6 without its brackets has too many colons. *)
Lemma LastIndex_app_colon s r : contains_char ":" r = false -> LastIndex (s +:+ ":" +:+ r) ":" = Some (String.length s).
Proof.
  intros Hr. change (":" +:+ r) with (String ":" r). induction s as [|a s IH].
  - change ("" +:+ String ":" r) with (String ":" r). cbn [LastIndex]. rewrite LastIndex_free by done. by rewrite decide_True.
  - change (String a s +:+ String ":" r) with (String a (s +:+ String ":" r)). cbn [LastIndex String.length]. by rewrite IH.
Qed.
Lemma digits_no_colon fuel n acc : (0 <= n)%Z -> contains_char ":" acc = false -> contains_char ":" (Value.Value.format_digits fuel n acc) = false.
Proof.
  revert n acc. induction fuel as [|fuel IH]; intros n acc Hn Hacc; [done|]. cbn [Value.Value.format_digits].
  assert (contains_char ":" (String (Value.Value.digit_char (n mod 10)) acc) = false) as H.
  { cbn [contains_char]. rewrite decide_False; [done|]. intros E. apply (f_equal nat_of_ascii) in E. unfold Value.Value.digit_char in E.
    pose proof (Z.mod_pos_bound n 10 ltac:(lia)). rewrite nat_ascii_embedding in E by lia. change (nat_of_ascii ":"%char) with 58 in E. lia. }
  destruct (n <? 10)%Z; [done|]. apply IH; [apply Z.div_pos; lia|done].
Qed.
Lemma port_addr_v6 host p : contains_char ":" host = true -> HasPrefix host "[" = false -> (0 <= p)%Z ->
  SplitHostPort (port_addr host p) = Err "too many colons in address".
Proof.
  intros Hc Hb Hp. unfold SplitHostPort, port_addr. rewrite LastIndex_app_colon.
  - destruct host as [|a host]; [done|]. rewrite stake_app, Hc.
    assert (a <> "["%char) as Ha by (intros ->; destruct host; discriminate Hb).
    change (String a host +:+ ":" +:+ Value.Value.FormatInt p) with (String a (host +:+ ":" +:+ Value.Value.FormatInt p)).
    destruct a as [[] [] [] [] [] [] [] []]; try done.
  - unfold Value.Value.FormatInt. rewrite (proj2 (Z.ltb_ge p 0)) by lia. by apply digits_no_colon.
Qed.

(** No port of an address of version 6 can be drawn: the brackets are not put back. *)
Lemma v6_auto_refused addr lo hi a host port : complete_addr addr = Ok a -> SplitHostPort a = Ok (host, port) -> ParseIP host = true ->
  (0 <= low lo <= high hi)%Z -> (high hi < 2 ^ 31 - 1)%Z -> IsAutoPort a = true ->
  contains_char ":" host = true -> HasPrefix host "[" = false -> (forall b, bind b = true -> exists hp, SplitHostPort b = Ok hp) ->
  exists e, tcpListen addr lo hi = Err e.
Proof.
  intros Ha Hs Hip Hr Hh Hauto Hc Hb Hbind. unfold tcpListen. rewrite Ha. cbn [mbind gores_bind]. rewrite Hs. cbn [mbind gores_bind].
  rewrite Hip, Hauto. cbn [negb]. fold (low lo) (high hi). rewrite (proj2 (Z.ltb_ge _ _)) by lia.
  pose proof (try_ports_spec host (low lo) (high hi) Hr Hh 50 0) as Ht.
  destruct (try_ports 50 0 host (low lo) (high hi)); [|by eexists|done]. destruct Ht as (p & -> & Hp & [hp Hb']%Hbind).
  rewrite port_addr_v6 in Hb' by (done || lia). done.
Qed.
End listen.

(** ** Examples *)

Definition example_draw (i : nat) (n : Z) : Z := (Z.of_nat i mod n)%Z.
Definition example_listen := tcpListen (Some "10.0.0.1") (fun _ => true) (fun a => negb (bool_decide (a = "10.0.0.1:8000"))) example_draw.
Example listen_auto : example_listen "auto" 8000 8001 = Ok "10.0.0.1:8001".
Proof. by vm_compute. Qed.
Example listen_any : example_listen "0.0.0.0:90" 8000 8001 = Ok "10.0.0.1:90".
Proof. by vm_compute. Qed.
Example listen_range_above : example_listen "auto" 30000 (-1) = Err "invalid port range, max port is less than min port".
Proof. done. Qed.

Lemma listen_bounded_witness : exists p, example_listen "auto" 8000 8001 = Ok (port_addr "10.0.0.1" p) /\ (8000 <= p <= 8001)%Z.
Proof.
  pose proof (listen_bounded (Some "10.0.0.1") (fun _ => true) (fun a => negb (bool_decide (a = "10.0.0.1:8000"))) example_draw
    (fun i n Hn => Z.mod_pos_bound _ _ Hn) "auto" 8000 8001 "10.0.0.1:0" "10.0.0.1" "0" eq_refl eq_refl eq_refl ltac:(by vm_compute) ltac:(by vm_compute)) as H.
  assert (Hl := listen_auto). unfold example_listen in Hl. rewrite Hl in H. destruct H as [_ H].
  change (IsAutoPort "10.0.0.1:0") with true in H. destruct H as (p & Hp1 & Hp). exists p. by rewrite listen_auto, Hp1.
Defined.

End ServerListen.
