(* ===== verification/ServerOptions.v ===== *)
(** * Options of a server ([server/internal/option/], [server/option.go],
    [server/internal/grpc_server/option.go], [serve] of [server/internal/server/server.go]).

    The configuration gives the options, those of the program come after; from the options come
    the chains of interceptors, the settings of grpc and the listeners. *)

From S2P Require Import Prelude GoInt GoStrings Value Hostname Credentials ServerListen.
From Stdlib Require Import Ascii.
From coqutil Require Import Datatypes.RecordSetters.
Import TriangleBracketNotations.

Open Scope string_scope.
Open Scope list_scope.

Module ServerOptions.
Import ServerListen.

Section options.
(** The types of [Credentials]; functions and objects that are only passed on are numbers. *)
Context {Cert IP KeyPair Factory Fn : Type} `{Hostname.HostCert Cert IP} `{Credentials.X509 Cert KeyPair}.
Notation ServerOptionFunc := (Credentials.ServerOptions Cert KeyPair Factory Fn -> gores (Credentials.ServerOptions Cert KeyPair Factory Fn)).

Record Options := mkOptions {
  Addr : string; HttpAddr : string; MultiplexAddr : bool; Registry : option nat; Tracer : option nat;
  UnaryInterceptors : list nat; StreamInterceptors : list nat; UnaryHookInterceptors : list nat; StreamHookInterceptors : list nat;
  CredentialOpts : list ServerOptionFunc; AuthProvider : option nat; Recovery : bool; EnableHttp : bool; EnableHttpGzip : bool;
  OrigName : bool; EnumAsInts : bool; EmitDefaults : bool;
  HttpReadTimeout : Z; HttpWriteTimeout : Z; HttpIdleTimeout : Z; HttpKeepAlive : bool;
  GrpcGatewayCompatible : bool; PackageName : bool; EnableGrpcWeb : bool; EnableGrpcWebWithWs : bool;
  AllowedOrigins : list string; AllowedRequestHeaders : list string; AllowedMethods : list string; EnableCorsLog : bool;
  MaxConcurrentStreams : Z; IgnoreInternalInterceptors : bool; MaxRecvMsgSize : Z; MaxSendMsgSize : Z; WithTls : bool;
  MaxHttpConcurrentConnection : Z; KeepAliveParams : option nat; KeepAliveEnforcementPolicy : option nat; HealthService : option nat;
  OptionsHook : option nat; MinPort : Z; MaxPort : Z; LegacyHttpRegistry : bool; GrpcServerReflection : bool; GrpcServerReflectionAuth : list nat
}.
Definition Option : Type := Options -> gores Options.

(** ** Options *)

Definition WithAddr (addr : string) : Option := fun opts => Ok (opts <| Addr := addr |>).
Definition WithHttpAddr (addr : string) : Option := fun opts => Ok (opts <| HttpAddr := addr |>).
Definition WithRegistry (reg : option nat) : Option := fun opts => Ok (opts <| Registry := reg |>).
Definition WithTracer (tracer : option nat) : Option := fun opts => Ok (opts <| Tracer := tracer |>).
Definition interceptor_is_nil : string := "interceptor is nil".
Definition WithUnaryInterceptor (interceptor : option nat) : Option := fun opts =>
  match interceptor with None => Err interceptor_is_nil | Some i => Ok (opts <| UnaryInterceptors ::= fun l => l ++ [i] |>) end.
Definition WithStreamInterceptor (interceptor : option nat) : Option := fun opts =>
  match interceptor with None => Err interceptor_is_nil | Some i => Ok (opts <| StreamInterceptors ::= fun l => l ++ [i] |>) end.
(** Called without an argument, the variadic ones have nil. *)
Definition WithUnaryHookInterceptor (interceptor : list nat) : Option := fun opts =>
  match interceptor with [] => Err interceptor_is_nil | _ => Ok (opts <| UnaryHookInterceptors ::= fun l => l ++ interceptor |>) end.
Definition WithStreamHookInterceptor (interceptor : list nat) : Option := fun opts =>
  match interceptor with [] => Err interceptor_is_nil | _ => Ok (opts <| StreamHookInterceptors ::= fun l => l ++ interceptor |>) end.
Definition WithRecovery (enable : bool) : Option := fun opts => Ok (opts <| Recovery := enable |>).
Definition WithAuthentication (authProvider : option nat) : Option := fun opts => Ok (opts <| AuthProvider := authProvider |>).
Definition WithEnableHttpServer (enable : bool) : Option := fun opts => Ok (opts <| EnableHttp := enable |>).
Definition WithEnableHttpGzip (enable : bool) : Option := fun opts => Ok (opts <| EnableHttpGzip := enable |>).
Definition WithHttpMaxConcurrentConnection (maxConn : Z) : Option := fun opts =>
  if (negb (maxConn =? -1) && (maxConn <=? 0))%Z then Err "invalid max concurrent connections"
  else Ok (opts <| MaxHttpConcurrentConnection := maxConn |>).
Definition WithEnableGrpcWeb (enable : bool) : Option := fun opts => Ok (opts <| EnableGrpcWeb := enable |>).
Definition WithEnableGrpcWebWithWs (enable : bool) : Option := fun opts => Ok (opts <| EnableGrpcWebWithWs := enable |>).
Definition WithCredentialsOption (opt : list ServerOptionFunc) : Option := fun opts => Ok (opts <| CredentialOpts ::= fun l => l ++ opt |>).
Definition WithJsonOrigNameOption (origName : bool) : Option := fun opts => Ok (opts <| OrigName := origName |>).
Definition WithJsonEnumAsIntsOption (enumAsInts : bool) : Option := fun opts => Ok (opts <| EnumAsInts := enumAsInts |>).
Definition WithJsonEmitDefaultsOption (emitDefaults : bool) : Option := fun opts => Ok (opts <| EmitDefaults := emitDefaults |>).
Definition WithHttpReadTimeout (tmo : Z) : Option := fun opts => Ok (opts <| HttpReadTimeout := tmo |>).
Definition WithHttpWriteTimeout (tmo : Z) : Option := fun opts => Ok (opts <| HttpWriteTimeout := tmo |>).
Definition WithHttpIdleTimeout (tmo : Z) : Option := fun opts => Ok (opts <| HttpIdleTimeout := tmo |>).
Definition WithHttpKeepAlive (keepAlive : bool) : Option := fun opts => Ok (opts <| HttpKeepAlive := keepAlive |>).
Definition WithPackageName (enable : bool) : Option := fun opts => Ok (opts <| PackageName := enable |>).
Definition WithGrpcGatewayCompatible (enable : bool) : Option := fun opts => Ok (opts <| GrpcGatewayCompatible := enable |>).
Definition WithAllowedOrigins (l : list string) : Option := fun opts => Ok (opts <| AllowedOrigins := l |>).
Definition WithAllowedRequestHeaders (l : list string) : Option := fun opts => Ok (opts <| AllowedRequestHeaders := l |>).
Definition WithAllowedMethods (l : list string) : Option := fun opts => Ok (opts <| AllowedMethods := l |>).
Definition WithCorsLogger (enable : bool) : Option := fun opts => Ok (opts <| EnableCorsLog := enable |>).
Definition WithMaxConcurrentStreams (n : Z) : Option := fun opts => Ok (opts <| MaxConcurrentStreams := n |>).
Definition WithIgnoreInternalInterceptors (ignore : bool) : Option := fun opts => Ok (opts <| IgnoreInternalInterceptors := ignore |>).
Definition WithMaxRecvMsgSize (n : Z) : Option := fun opts => Ok (opts <| MaxRecvMsgSize := n |>).
Definition WithMaxSendMsgSize (n : Z) : Option := fun opts => Ok (opts <| MaxSendMsgSize := n |>).
Definition WithKeepAliveParams (params : nat) : Option := fun opts => Ok (opts <| KeepAliveParams := Some params |>).
Definition WithKeepAliveEnforcementPolicy (policy : nat) : Option := fun opts => Ok (opts <| KeepAliveEnforcementPolicy := Some policy |>).
Definition WithHealthService (healthService : option nat) : Option := fun opts => Ok (opts <| HealthService := healthService |>).
Definition WithOptionsHook (hook : option nat) : Option := fun opts => Ok (opts <| OptionsHook := hook |>).
(** [min-max] or [min-]; a maximum that is no number is left out. *)
Definition WithPortRange (portRange : string) : Option := fun opts =>
  let opts := opts <| MinPort := (-1)%Z |> <| MaxPort := (-1)%Z |> in
  match Split "-" portRange with
  | [] => Ok opts
  | lo :: rest =>
      match Value.Value.ParseInt 64 lo with
      | None => Err "port range invalid"
      | Some minPort =>
          let opts := opts <| MinPort := minPort |> in
          match rest with
          | [hi] => match Value.Value.ParseInt 64 hi with Some maxPort => Ok (opts <| MaxPort := maxPort |>) | None => Ok opts end
          | _ => Ok opts
          end
      end
  end.
Definition WithLegacyHttpRegistry (legacy : bool) : Option := fun opts => Ok (opts <| LegacyHttpRegistry := legacy |>).
Definition WithGrpcServerReflection (enable : bool) : Option := fun opts => Ok (opts <| GrpcServerReflection := enable |>).
Definition WithGrpcServerReflectionAuth (authHandler : option nat) : Option := fun opts =>
  match authHandler with None => Ok opts | Some h => Ok (opts <| GrpcServerReflectionAuth ::= fun l => l ++ [h] |>) end.

(** ** Options of registrations *)

Record ServiceHookOptions := mkHookOptions { Timeout : Z }.
Definition ServiceHookOption : Type := ServiceHookOptions -> gores ServiceHookOptions.
Definition defaultServiceHookOption : ServiceHookOptions := mkHookOptions (60 * 1000000000).
Definition WithServiceHookTimeout (timeout : Z) : ServiceHookOption := fun opts => Ok (opts <| Timeout := timeout |>).
Definition hook_options (opt : list ServiceHookOption) : gores ServiceHookOptions :=
  foldl (fun acc o => opts ← acc; o opts) (Ok defaultServiceHookOption) opt.

Record RegisterOptions := mkRegisterOptions {
  Alias : list string; RegistryHandler : option nat;
  ServiceStartHook : option nat; ServiceStartHookOpts : option ServiceHookOptions;
  ServiceStopHook : option nat; ServiceStopHookOpts : option ServiceHookOptions;
  ServiceProviderInitializer : option nat; AliasOnly : bool; BindAddrCallback : option nat; HttpParameterHandler : gmap string nat
}.
Definition RegisterOption : Type := RegisterOptions -> gores RegisterOptions.
Definition emptyRegisterOptions : RegisterOptions := mkRegisterOptions [] None None None None None None false None ∅.
Definition WithAlias (alias : list string) : RegisterOption := fun opts => Ok (opts <| Alias := TrimSpace <$> alias |>).
Definition WithRegistryHandler (handler : option nat) : RegisterOption := fun opts => Ok (opts <| RegistryHandler := handler |>).
Definition WithServiceStartHook (hook : option nat) (opt : list ServiceHookOption) : RegisterOption := fun opts =>
  o ← hook_options opt; Ok (opts <| ServiceStartHook := hook |> <| ServiceStartHookOpts := Some o |>).
Definition WithServiceStopHook (hook : option nat) (opt : list ServiceHookOption) : RegisterOption := fun opts =>
  o ← hook_options opt; Ok (opts <| ServiceStopHook := hook |> <| ServiceStopHookOpts := Some o |>).
Definition WithServiceProviderInitializer (initializer : option nat) : RegisterOption := fun opts => Ok (opts <| ServiceProviderInitializer := initializer |>).
Definition WithAliasOnlyMemoryRegistry (aliasOnly : bool) : RegisterOption := fun opts => Ok (opts <| AliasOnly := aliasOnly |>).
Definition WithBindAddrCallback (cb : option nat) : RegisterOption := fun opts => Ok (opts <| BindAddrCallback := cb |>).
Definition WithGrpcHttpParameterHandler (parameterName : string) (handler : nat) : RegisterOption := fun opts =>
  Ok (opts <| HttpParameterHandler ::= fun m => <[parameterName := handler]> m |>).

Record HttpRegisterOptions := mkHttpRegisterOptions {
  h_ServiceStartHook : option nat; h_ServiceStartHookOpts : option ServiceHookOptions;
  h_ServiceStopHook : option nat; h_ServiceStopHookOpts : option ServiceHookOptions; h_BindAddrCallback : option nat
}.
Definition HttpRegisterOption : Type := HttpRegisterOptions -> gores HttpRegisterOptions.
Definition WithHttpServiceStartHook (hook : option nat) (opt : list ServiceHookOption) : HttpRegisterOption := fun opts =>
  o ← hook_options opt; Ok (opts <| h_ServiceStartHook := hook |> <| h_ServiceStartHookOpts := Some o |>).
Definition WithHttpServiceStopHook (hook : option nat) (opt : list ServiceHookOption) : HttpRegisterOption := fun opts =>
  o ← hook_options opt; Ok (opts <| h_ServiceStopHook := hook |> <| h_ServiceStopHookOpts := Some o |>).
Definition WithHttpBindAddrCallback (cb : option nat) : HttpRegisterOption := fun opts => Ok (opts <| h_BindAddrCallback := cb |>).

(** ** From the configuration ([ParseOptions]) *)

Section parse.
(** The configuration, with its duration parser; the defaults of the packages; a certificate
    in PEM, as a function of a handshake; the issuing of self-signed certificates; the clock. *)
Context (Get : string -> option string) (ParseDuration : string -> option Z).
Context (DefaultRegistry DefaultTracer DefaultProvider : option nat) (DefaultHealthService : nat) (TokenAuth : string -> nat).
Context (pem_pair : string -> string -> Fn) (self_signed : list string -> gores (Factory * string)).
Notation String_ := (Value.Value.GetString Get).
Notation Bool := (Value.Value.Bool Get).
Notation Int := (Value.Value.Int Get).
Notation StringList := (Value.Value.StringList Get).
Notation Duration := (Value.Value.Duration Get ParseDuration).

Definition pemPrefix : string := "-----BEGIN".
Definition WithSelfSignedCertificate (san : list string) : ServerOptionFunc := fun opts =>
  '(factory, request) ← self_signed san; Credentials.WithServerCertificateFactory factory request true opts.

Definition basic_options : list Option := [
  WithAddr (String_ "server.addr"); WithHttpAddr (String_ "server.http.addr"); WithRegistry DefaultRegistry; WithTracer DefaultTracer;
  WithRecovery (Bool "server.recovery"); WithEnableHttpServer (Bool "server.http.enable"); WithEnableHttpGzip (Bool "server.http.gzip");
  WithJsonOrigNameOption (Bool "server.http.json.orig_name"); WithJsonEnumAsIntsOption (Bool "server.http.json.enum_as_ints");
  WithJsonEmitDefaultsOption (Bool "server.http.json.emit_defaults"); WithPackageName (Bool "server.http.with_package_name");
  WithEnableGrpcWeb (Bool "server.grpcweb.enable"); WithEnableGrpcWebWithWs (Bool "server.grpcweb.ws.enable");
  WithGrpcGatewayCompatible (Bool "server.http.grpc_gateway_compatible");
  WithAllowedOrigins (StringList "server.cors.allowed_origins"); WithAllowedRequestHeaders (StringList "server.cors.allowed_request_headers");
  WithAllowedMethods (StringList "server.cors.allowed_methods"); WithAuthentication DefaultProvider;
  WithIgnoreInternalInterceptors (Bool "server.no_internal_interceptors");
  WithHttpMaxConcurrentConnection (Int "server.http.max_concurrent_conns");
  WithHttpReadTimeout (Duration "server.http.timeout.read"); WithHttpWriteTimeout (Duration "server.http.timeout.write");
  WithHttpIdleTimeout (Duration "server.http.timeout.idle"); WithHttpKeepAlive (Bool "server.http.keep_alive");
  WithPortRange (String_ "server.addr.port_range"); WithLegacyHttpRegistry (Bool "server.http.legacy_http_registry");
  WithCorsLogger (Bool "server.cors.log.enable"); WithGrpcServerReflection (Bool "server.grpc_reflection.enable")
].
Definition extra_options : list Option :=
  (if bool_decide (String_ "server.grpc_reflection.token" = "") then []
   else [WithGrpcServerReflectionAuth (Some (TokenAuth (String_ "server.grpc_reflection.token")))]) ++
  (if Bool "server.healthy" then [WithHealthService (Some DefaultHealthService)] else []).

(** The certificate of the server: whether there is one, and its option. *)
Definition certificate_option : option ServerOptionFunc :=
  match StringList "server.tls.self_cert.san" with
  | [] =>
      let certFile := String_ "server.tls.cert" in
      let keyFile := String_ "server.tls.key" in
      if bool_decide (certFile = "") || bool_decide (keyFile = "") then None
      else Some (if HasPrefix certFile pemPrefix && HasPrefix keyFile pemPrefix
                 then Credentials.WithServerCertificate (Credentials.FromUser (pem_pair certFile keyFile))
                 else Credentials.WithServerCertificateFile certFile keyFile)
  | san => Some (WithSelfSignedCertificate san)
  end.
(** The certificates of client authorities, from PEM texts or files. *)
Definition ca_certs (caFiles : list string) : option (list string) :=
  mapM (fun f => if HasPrefix f pemPrefix then Some f else Credentials.ReadFile f) caFiles.
Definition client_options : gores (list ServerOptionFunc) :=
  match StringList "server.tls.cacert" with
  | [] => Ok []
  | caFiles =>
      match ca_certs caFiles with
      | None => Err "[ERROR] Read CA certificate failed"
      | Some caCerts =>
          let clientAuthType := Int "server.tls.client_auth_type" in
          if ((clientAuthType <? 0) || (Credentials.RequireAndVerifyClientCert <? clientAuthType))%Z then Err "[ERROR] Invalid client auth type."
          else Ok [Credentials.WithClientCACert (Some caCerts); Credentials.WithClientAuthType clientAuthType;
                   Credentials.WithVerifyClientAuthority (Some (Some caCerts))
                     (Credentials.LeafAuthorityChecker (Some (StringList "server.tls.client_authorities")))]
      end
  end.
Definition credential_options : gores (list ServerOptionFunc) :=
  let insecure := Bool "server.insecure" in
  client ← client_options;
  Ok ([Credentials.WithInsecureListen insecure; Credentials.WithIgnoreClientCertExpiresCheck (negb (Bool "server.tls.check_client_cert_expiration"))] ++
      option_list certificate_option ++ client ++
      (if negb insecure && negb (bool_decide (is_Some certificate_option)) then [WithSelfSignedCertificate []] else [])).

(** The options are set one after the other; an error ends the process. *)
Definition apply_all (options : list Option) (opts : Options) : gores Options := foldl (fun acc o => opts ← acc; o opts) (Ok opts) options.
Definition zeroOptions : Options :=
  mkOptions "" "" false None None [] [] [] [] [] None false false false false false false
    (30 * 1000000000) (30 * 1000000000) (90 * 1000000000) true false false false false [] [] [] false 0 false 0 0 false 0 None None None None 0 0
    false false [].
Definition multiplexed (o : Options) : bool :=
  (bool_decide (Addr o = HttpAddr o) && negb (IsAutoPort (HttpAddr o))) || bool_decide (HttpAddr o = MultiplexServerAddr).
Definition ParseOptions (opts : list Option) : gores Options :=
  credential ← credential_options;
  result ← apply_all (basic_options ++ extra_options ++ ((fun c => WithCredentialsOption [c]) <$> credential) ++ opts) zeroOptions;
  Ok (result <| MultiplexAddr := multiplexed result |>).
End parse.

(** ** grpc ([server/internal/grpc_server/option.go]) *)

(** The interceptors of a server, outermost first; [ints] are those of the program. *)
Inductive server_interceptor := User (i : nat) | OpenTracing (tracer : nat) | RecoveryInt | Auth (i : nat) | ReflectionAuth (hs : list nat) | Prometheus | DeadlineChecker | RequestIdTracing.
Section prepare.
(** The interceptors of an authentication provider and of prometheus, if they have any. *)
Context (UnaryAuthInterceptor StreamAuthInterceptor : nat -> option nat) (prometheus : bool).
Definition PrepareUnaryInterceptors (o : Options) (ignoreInternal : bool) : list server_interceptor :=
  (User <$> UnaryInterceptors o) ++ option_list (OpenTracing <$> Tracer o) ++ (if Recovery o then [RecoveryInt] else []) ++
  option_list (Auth <$> (AuthProvider o ≫= UnaryAuthInterceptor)) ++ (if prometheus then [Prometheus] else []) ++
  (if ignoreInternal then [] else [DeadlineChecker; RequestIdTracing]).
Definition PrepareStreamInterceptors (o : Options) (ignoreInternal : bool) : list server_interceptor :=
  (User <$> StreamInterceptors o) ++ option_list (OpenTracing <$> Tracer o) ++ (if Recovery o then [RecoveryInt] else []) ++
  option_list (Auth <$> (AuthProvider o ≫= StreamAuthInterceptor)) ++
  (if GrpcServerReflection o then match GrpcServerReflectionAuth o with [] => [] | hs => [ReflectionAuth hs] end else []) ++
  (if prometheus then [Prometheus] else []) ++ (if ignoreInternal then [] else [RequestIdTracing]).

Inductive grpc_option := UnaryInt (l : list server_interceptor) | StreamInt (l : list server_interceptor) | Creds (c : Credentials.server_config (Cert := Cert) (KeyPair := KeyPair) (Factory := Factory) (Fn := Fn))
  | MaxStreams (n : Z) | MaxRecv (n : Z) | MaxSend (n : Z) | KeepAlive (p : nat) | KeepAlivePolicy (p : nat).
(** The settings, and the options with [WithTls]. *)
Definition PrepareGrpcOptions (o : Options) : gores (list grpc_option * Options) :=
  credential ← Credentials.ServerOption (CredentialOpts o);
  let o := o <| WithTls := bool_decide (is_Some credential) |> in
  Ok ([UnaryInt (PrepareUnaryInterceptors o (IgnoreInternalInterceptors o)); StreamInt (PrepareStreamInterceptors o (IgnoreInternalInterceptors o))] ++
      option_list (Creds <$> credential) ++
      (if (MaxConcurrentStreams o =? 0)%Z then [] else [MaxStreams (MaxConcurrentStreams o)]) ++
      (if (MaxRecvMsgSize o =? 0)%Z then [] else [MaxRecv (MaxRecvMsgSize o)]) ++
      (if (MaxSendMsgSize o =? 0)%Z then [] else [MaxSend (MaxSendMsgSize o)]) ++
      option_list (KeepAlive <$> KeepAliveParams o) ++ option_list (KeepAlivePolicy <$> KeepAliveEnforcementPolicy o), o).
End prepare.

(** ** Serving ([server.go]) *)

(** Which server gets the connections of which listener. *)
Inductive plan :=
| GrpcOnly (l : string)
| HttpRoutes (l : string)          (* one listener; the HTTP server passes grpc requests on *)
| Cmux (l : string)                (* one listener; connections are told apart by their first bytes *)
| Separate (grpc http : string).
Definition serve (Listen : string -> Z -> Z -> gores string) (o : Options) : gores plan :=
  listener ← Listen (Addr o) (MinPort o) (MaxPort o);
  if negb (EnableHttp o || EnableGrpcWeb o) then Ok (GrpcOnly listener)
  else if MultiplexAddr o then Ok (if WithTls o then HttpRoutes listener else Cmux listener)
  else httpListener ← Listen (HttpAddr o) (MinPort o) (MaxPort o); Ok (Separate listener httpListener).
(** [Run]: the result of serving; an error after the interrupt is none. *)
Definition Run (hook : nat -> Options -> Options) (serve_result : Options -> option string) (interrupting : bool) (o : Options) : option string :=
  let o := match OptionsHook o with Some h => hook h o | None => o end in
  if interrupting then None else serve_result o.

(** ** Sequences of options *)

(** An option that leaves the credentials alone. *)
Definition keeps_credentials (o : Option) : Prop := forall x y, o x = Ok y -> CredentialOpts y = CredentialOpts x.
Lemma apply_all_err l e : foldl (fun acc (o : Option) => opts ← acc; o opts) (Err e) l = Err e.
Proof. by induction l. Qed.
Lemma apply_all_panic l e : foldl (fun acc (o : Option) => opts ← acc; o opts) (Panic e) l = Panic e.
Proof. by induction l. Qed.
Lemma apply_all_cons (o : Option) l x y : apply_all (o :: l) x = Ok y <-> exists z, o x = Ok z /\ apply_all l z = Ok y.
Proof.
  unfold apply_all. cbn [foldl mbind gores_bind]. destruct (o x) as [z|e|e]; [naive_solver|rewrite apply_all_err; naive_solver|rewrite apply_all_panic; naive_solver].
Qed.
Lemma apply_all_app l1 l2 x y : apply_all (l1 ++ l2) x = Ok y <-> exists z, apply_all l1 x = Ok z /\ apply_all l2 z = Ok y.
Proof.
  revert x. induction l1 as [|o l1 IH]; intros x; cbn [app].
  - split; [intros H1; by exists x|]. by intros (z & [= ->] & ?).
  - rewrite apply_all_cons. setoid_rewrite apply_all_cons. setoid_rewrite IH. naive_solver.
Qed.
Lemma apply_all_keeps l x y : Forall keeps_credentials l -> apply_all l x = Ok y -> CredentialOpts y = CredentialOpts x.
Proof.
  intros Hl. revert x. induction Hl as [|o l Ho _ IH]; intros x; [by intros [= ->]|]. rewrite apply_all_cons. intros (z & Hz & H2).
  rewrite (IH z H2). by apply Ho.
Qed.
Lemma apply_credentials l x y : apply_all ((fun c => WithCredentialsOption [c]) <$> l) x = Ok y -> CredentialOpts y = CredentialOpts x ++ l.
Proof.
  revert x. induction l as [|c l IH]; intros x; [intros [= ->]; by rewrite app_nil_r|]. cbn [fmap list_fmap]. rewrite apply_all_cons.
  intros (z & [= <-] & H2). rewrite (IH _ H2). cbn. by rewrite <- app_assoc.
Qed.

(** ** Transport security *)

Section security.
Context (Get : string -> option string) (ParseDuration : string -> option Z).
Context (DefaultRegistry DefaultTracer DefaultProvider : option nat) (DefaultHealthService : nat) (TokenAuth : string -> nat).
Context (pem_pair : string -> string -> Fn) (self_signed : list string -> gores (Factory * string)).
Notation cert_opt := (certificate_option Get pem_pair self_signed).
Notation cred_opts := (credential_options Get pem_pair self_signed).
Notation ParseOptions := (ParseOptions Get ParseDuration DefaultRegistry DefaultTracer DefaultProvider DefaultHealthService TokenAuth pem_pair self_signed).
Notation insecure := (Value.Value.Bool Get "server.insecure").
Notation caFiles := (Value.Value.StringList Get "server.tls.cacert").
Notation clientAuthType := (Value.Value.Int Get "server.tls.client_auth_type").
Notation authorities := (Value.Value.StringList Get "server.tls.client_authorities").
Notation checkExpiration := (Value.Value.Bool Get "server.tls.check_client_cert_expiration").

Definition no_certificate : string := "no certificate specified for server".
(** *** What the configuration asks for *)

Notation san := (Value.Value.StringList Get "server.tls.self_cert.san").
Notation certFile := (Value.Value.GetString Get "server.tls.cert").
Notation keyFile := (Value.Value.GetString Get "server.tls.key").
Notation Source := (Credentials.CertSource KeyPair Factory Fn).

(** A certificate is configured: names to issue one for, or a certificate and a key. *)
Definition certificate_configured : Prop := san <> [] \/ (certFile <> "" /\ keyFile <> "").
(** The certificate of the server: one that is issued for the names, else the configured pair,
    as texts or in files, else one that is issued without names. *)
Definition certificate_used (src : Source) : Prop :=
  (san <> [] /\ exists factory request, self_signed san = Ok (factory, request) /\ src = Credentials.FromFactory factory request true) \/
  (san = [] /\ certFile <> "" /\ keyFile <> "" /\
    ((HasPrefix certFile "-----BEGIN" = true /\ HasPrefix keyFile "-----BEGIN" = true /\ src = Credentials.FromUser (pem_pair certFile keyFile)) \/
     (~ (HasPrefix certFile "-----BEGIN" = true /\ HasPrefix keyFile "-----BEGIN" = true) /\ exists cert key pair,
        Credentials.ReadFile certFile = Some cert /\ Credentials.ReadFile keyFile = Some key /\ Credentials.X509KeyPair cert key = Some pair /\ src = Credentials.FromPair pair))) \/
  (san = [] /\ (certFile = "" \/ keyFile = "") /\ exists factory request, self_signed [] = Ok (factory, request) /\ src = Credentials.FromFactory factory request true).

(** The text of a configured authority: itself, or what is in its file. *)
Definition authority_text (file text : string) : Prop :=
  (HasPrefix file "-----BEGIN" = true /\ text = file) \/ (HasPrefix file "-----BEGIN" = false /\ Credentials.ReadFile file = Some text).
(** The later one of a reading of the clock and the times from which the certificates hold. *)
Definition latest (reading : Z) (certs : list Cert) (t : Z) : Prop :=
  (t = reading \/ exists c, c ∈ certs /\ t = Credentials.NotBefore c) /\ (reading <= t)%Z /\ forall c, c ∈ certs -> (Credentials.NotBefore c <= t)%Z.
(** The certificates shown have a chain to the authorities, and the first one is for one of the
    configured names. *)
Definition client_verified (clock : nat -> Z) (rawCerts : list string) : Prop :=
  exists caCerts cert rest t chains, Forall2 authority_text caFiles caCerts /\ Forall (fun text => Credentials.AppendCertsFromPEM text = true) caCerts /\
    mapM Credentials.ParseCertificate rawCerts = Some (cert :: rest) /\
    (if checkExpiration then t = clock 2%nat else exists t0, latest (clock 1%nat) (cert :: rest) t0 /\ t = (t0 + 1000000000)%Z) /\
    Credentials.Verify cert t (Some caCerts) rest [Credentials.ExtKeyUsageClientAuth] = Some chains /\
    exists a, a ∈ authorities /\ (a = "*" \/ Hostname.Hostname.VerifyHostname cert a = true).
(** The clients that are let in. *)
Definition let_in (clock : nat -> Z) (rawCerts : list string) : Prop :=
  caFiles = [] \/ clientAuthType = 0%Z \/
  (clientAuthType = 1%Z /\ is_Some (mapM Credentials.ParseCertificate rawCerts)) \/
  (clientAuthType = 2%Z /\ rawCerts <> [] /\ is_Some (mapM Credentials.ParseCertificate rawCerts)) \/
  (clientAuthType = 3%Z /\ (rawCerts = [] \/ client_verified clock rawCerts)) \/
  (clientAuthType = 4%Z /\ client_verified clock rawCerts).

(** *** The certificate *)

(** An option that sets the certificate that is asked for, or fails when there is none. *)
Definition sets_certificate (o : ServerOptionFunc) : Prop := forall so,
  match o so with
  | Ok so' => (exists src, Credentials.s_certificate so' = Some src /\ certificate_used src) /\
      Credentials.s_insecure so' = false /\ Credentials.clientCAs so' = Credentials.clientCAs so /\
      Credentials.clientAuthType so' = Credentials.clientAuthType so /\ Credentials.certificateChainVerifiers so' = Credentials.certificateChainVerifiers so /\
      Credentials.s_verifyCertificateFn so' = Credentials.s_verifyCertificateFn so /\ Credentials.s_ignoreExpiresCheck so' = Credentials.s_ignoreExpiresCheck so
  | _ => forall src, ~ certificate_used src
  end.
Lemma with_certificate_sets src : certificate_used src -> sets_certificate (Credentials.WithServerCertificate src).
Proof. intros Hs []. cbn. split; [by exists src|done]. Qed.
Lemma self_signed_sets l : (forall src, certificate_used src <-> exists factory request, self_signed l = Ok (factory, request) /\ src = Credentials.FromFactory factory request true) ->
  sets_certificate (WithSelfSignedCertificate self_signed l).
Proof.
  intros Hl so. unfold WithSelfSignedCertificate. destruct (self_signed l) as [[factory request]|e|e] eqn:E; cbn [mbind gores_bind].
  - apply with_certificate_sets, Hl. by exists factory, request.
  - intros src (factory & request & ? & _)%Hl. congruence.
  - intros src (factory & request & ? & _)%Hl. congruence.
Qed.
Lemma certificate_sets :
  match cert_opt with
  | Some o => certificate_configured /\ sets_certificate o
  | None => ~ certificate_configured /\ sets_certificate (WithSelfSignedCertificate self_signed [])
  end.
Proof.
  unfold certificate_option, certificate_configured. destruct san as [|s l] eqn:Esan.
  - destruct (bool_decide (certFile = "")) eqn:Ec; [|destruct (bool_decide (keyFile = "")) eqn:Ek]; bool_to_prop; cbn [orb].
    + split; [by intros [?|[? _]]|]. apply self_signed_sets. intros src. unfold certificate_used. rewrite Esan. naive_solver.
    + split; [by intros [?|[_ ?]]|]. apply self_signed_sets. intros src. unfold certificate_used. rewrite Esan. naive_solver.
    + split; [by right|]. destruct (HasPrefix certFile pemPrefix && HasPrefix keyFile pemPrefix) eqn:Ep.
      * apply andb_true_iff in Ep. apply with_certificate_sets. unfold certificate_used. rewrite Esan. right. left. split; [done|]. split; [done|]. split; [done|]. left. naive_solver.
      * assert (Hno : ~ (HasPrefix certFile "-----BEGIN" = true /\ HasPrefix keyFile "-----BEGIN" = true)) by (rewrite <- andb_true_iff; unfold pemPrefix in Ep; by rewrite Ep).
        intros so. unfold Credentials.WithServerCertificateFile.
        destruct (Credentials.ReadFile certFile) as [cert|] eqn:E1; [destruct (Credentials.ReadFile keyFile) as [key|] eqn:E2; [destruct (Credentials.X509KeyPair cert key) as [pair|] eqn:E3|]|]; cbn [mbind option_bind].
        -- rewrite E3. apply with_certificate_sets. unfold certificate_used. rewrite Esan. right. left. split; [done|]. split; [done|]. split; [done|]. right. split; [done|]. by exists cert, key, pair.
        -- rewrite E3. intros src. unfold certificate_used. rewrite Esan. naive_solver.
        -- intros src. unfold certificate_used. rewrite Esan. naive_solver.
        -- intros src. unfold certificate_used. rewrite Esan. naive_solver.
  - split; [by left|]. apply self_signed_sets. intros src. unfold certificate_used. rewrite Esan. naive_solver.
Qed.

(** *** The authorities *)

Lemma ca_certs_texts l caCerts : ca_certs l = Some caCerts <-> Forall2 authority_text l caCerts.
Proof.
  unfold ca_certs. rewrite mapM_Some. split; intros Hl; eapply Forall2_impl; [exact Hl| |exact Hl|]; intros f text; cbn beta; unfold authority_text, pemPrefix; destruct (HasPrefix f _); naive_solver.
Qed.
Lemma latest_fold certs : forall reading, latest reading certs (foldl (fun t c => if (t <? Credentials.NotBefore c)%Z then Credentials.NotBefore c else t) reading certs).
Proof.
  unfold latest. induction certs as [|c certs IH]; intros reading; cbn [foldl].
  - split; [by left|]. split; [lia|]. by intros c ?%not_elem_of_nil.
  - destruct (IH (if (reading <? Credentials.NotBefore c)%Z then Credentials.NotBefore c else reading)) as (H1 & H2 & H3).
    set (t := foldl _ _ certs) in *. clearbody t. split; [|split].
    + destruct H1 as [->|(c' & Hc & ->)]; [|right; exists c'; split; [by right|done]]. case_match; [right; exists c; split; [by left|done]|by left].
    + destruct (Z.ltb_spec reading (Credentials.NotBefore c)); lia.
    + intros c' [->|Hc]%elem_of_cons; [|by apply H3]. destruct (Z.ltb_spec reading (Credentials.NotBefore c)); lia.
Qed.
Lemma latest_unique reading certs t t' : latest reading certs t -> latest reading certs t' -> t = t'.
Proof. intros ([->|(c & Hc & ->)] & H1 & H2) ([->|(c' & Hc' & ->)] & H3 & H4); [lia|specialize (H2 _ Hc')|specialize (H4 _ Hc)|specialize (H2 _ Hc'); specialize (H4 _ Hc)]; lia. Qed.

(** The verifier of the configuration, at its place in the handshake. *)
Notation verifier caCerts := (Credentials.certificateChainVerifierFn (Some (Some caCerts)) (Credentials.LeafAuthorityChecker (Some authorities))
    [Credentials.ExtKeyUsageClientAuth]).
Lemma leaf_accepts cert rest : forallb (fun ic => Credentials.LeafAuthorityChecker (Some authorities) (length (cert :: rest)) ic.1 ic.2) (imap (fun i c => (i, c)) (cert :: rest)) = true <->
  exists a, a ∈ authorities /\ (a = "*" \/ Hostname.Hostname.VerifyHostname cert a = true).
Proof.
  unfold Credentials.LeafAuthorityChecker, Credentials.IntermediateAuthorityChecker. rewrite forallb_forall. split.
  - intros Hall. specialize (Hall (0%nat, cert) ltac:(by left)). cbn in Hall. apply existsb_exists in Hall as (a & Hin%list_elem_of_In & [Ha|Ha]%orb_true_iff); bool_to_prop; eauto.
  - intros (a & Hin & Ha) [i c] (k & y & Hk & E)%list_elem_of_In%elem_of_lookup_imap. injection Hk as -> ->. cbn.
    destruct k as [|k]; [|done]. injection E as <-. cbn. apply existsb_exists. exists a. split; [by apply list_elem_of_In|].
    apply orb_true_iff. destruct Ha as [->|Ha]; [left; by apply bool_decide_eq_true|by right].
Qed.
Lemma verifier_verified caCerts clock rawCerts : ca_certs caFiles = Some caCerts ->
  is_Some (verifier caCerts (fun n => clock (S n)) rawCerts (negb checkExpiration)) <-> client_verified clock rawCerts.
Proof.
  intros Hca. assert (Htexts := proj1 (ca_certs_texts _ _) Hca). unfold Credentials.certificateChainVerifierFn, client_verified. cbn [mbind option_bind].
  destruct (decide (rawCerts = [])) as [->|Hr].
  { rewrite bool_decide_eq_true_2 by done. split; [by intros []|]. by intros (? & ? & ? & ? & ? & _ & _ & [=] & _). }
  rewrite (bool_decide_eq_false_2 (rawCerts = [])) by done. destruct (mapM Credentials.ParseCertificate rawCerts) as [certs|] eqn:Em; cbn [mbind option_bind].
  2: { split; [by intros []|]. by intros (? & ? & ? & ? & ? & _ & _ & [=] & _). }
  assert (Hsame : forall caCerts', Forall2 authority_text caFiles caCerts' -> caCerts' = caCerts) by (intros ? ?%ca_certs_texts; congruence).
  destruct (forallb Credentials.AppendCertsFromPEM caCerts) eqn:Happ; cbn [negb].
  2: { split; [by intros []|]. intros (caCerts' & ? & ? & ? & ? & ->%Hsame & Hall & _). apply not_true_iff_false in Happ. destruct Happ. apply forallb_forall.
       rewrite Forall_forall in Hall. intros y Hy%list_elem_of_In. by apply Hall. }
  destruct certs as [|cert rest]; [by destruct Hr; apply (Credentials.mapM_parse_nil _ _ Em)|].
  set (fold := foldl _ _ (cert :: rest)). pose proof (latest_fold (cert :: rest) (clock 1%nat) : latest (clock 1%nat) (cert :: rest) fold) as Hlat. clearbody fold.
  set (t := if negb checkExpiration then _ else _).
  assert (Ht : forall t', (if checkExpiration then t' = clock 2%nat else exists t0, latest (clock 1%nat) (cert :: rest) t0 /\ t' = (t0 + 1000000000)%Z) <-> t' = t).
  { intros t'. subst t. destruct checkExpiration; cbn [negb]; [done|]. split; [intros (t0 & H1 & ->); f_equal; by eapply latest_unique|intros ->; by exists fold]. }
  clearbody t. split.
  - intros [cs Hcs]. destruct (Credentials.Verify cert t (Some caCerts) rest _) as [chains|] eqn:Ev; [|done]. cbn [mbind option_bind] in Hcs.
    destruct (forallb _ _) eqn:Hleaf in Hcs; [|done]. apply leaf_accepts in Hleaf. exists caCerts, cert, rest, t, chains. split; [done|].
    split; [rewrite forallb_forall in Happ; apply Forall_forall; intros x Hx; by apply Happ, list_elem_of_In|]. split; [done|]. split; [by apply Ht|]. done.
  - intros (caCerts' & cert' & rest' & t' & chains & ->%Hsame & _ & [= <- <-] & ->%Ht & Hv & Hau). rewrite Hv. cbn [mbind option_bind].
    rewrite (proj2 (leaf_accepts cert rest) Hau). by eexists.
Qed.

(** *** What the credential options of the configuration come to *)

(** What they come to with the authorities. *)
Definition client_settings (so : Credentials.ServerOptions Cert KeyPair Factory Fn) : Prop :=
  match caFiles with
  | [] => Credentials.clientCAs so = None /\ Credentials.clientAuthType so = 0%Z /\ Credentials.certificateChainVerifiers so = []
  | _ => exists caCerts, ca_certs caFiles = Some caCerts /\ Credentials.clientCAs so = Some (Some caCerts) /\
      (0 <= clientAuthType <= 4)%Z /\ Credentials.clientAuthType so = clientAuthType /\
      Credentials.certificateChainVerifiers so = [verifier caCerts]
  end.
Lemma client_result client rest so1 : client_options Get = Ok client ->
  Credentials.clientCAs so1 = None -> Credentials.clientAuthType so1 = 0%Z -> Credentials.certificateChainVerifiers so1 = [] ->
  exists so2, Credentials.parse_options (client ++ rest) so1 = Credentials.parse_options rest so2 /\ client_settings so2 /\
    Credentials.s_certificate so2 = Credentials.s_certificate so1 /\ Credentials.s_insecure so2 = Credentials.s_insecure so1 /\
    Credentials.s_verifyCertificateFn so2 = Credentials.s_verifyCertificateFn so1 /\ Credentials.s_ignoreExpiresCheck so2 = Credentials.s_ignoreExpiresCheck so1.
Proof.
  intros Hclient H1 H2 H3. unfold client_settings. unfold client_options in Hclient. destruct caFiles as [|f fs]; [injection Hclient as <-; by exists so1|].
  destruct (ca_certs (f :: fs)) as [caCerts|]; [|done]. destruct (_ || _)%bool eqn:Hr in Hclient; [done|]. injection Hclient as <-.
  apply orb_false_iff in Hr as [Hr1%Z.ltb_ge Hr2%Z.ltb_ge]. unfold Credentials.RequireAndVerifyClientCert in Hr2.
  destruct so1. cbn in H1, H2, H3. subst. eexists. split; [reflexivity|]. split; [|done]. exists caCerts. split; [done|]. split; [done|]. split; [lia|done].
Qed.
Lemma credential_result l : cred_opts = Ok l ->
  match Credentials.ParseServerOptions l with
  | Ok so => (if Credentials.s_insecure so then insecure = true /\ ~ certificate_configured
              else (insecure = false \/ certificate_configured) /\ exists src, Credentials.s_certificate so = Some src /\ certificate_used src) /\
      Credentials.s_verifyCertificateFn so = None /\ Credentials.s_ignoreExpiresCheck so = negb checkExpiration /\ client_settings so
  | Err e => e <> no_certificate /\ forall src, ~ certificate_used src
  | Panic _ => False
  end.
Proof.
  intros (client & Hclient & [= <-])%gores_bind_ok. unfold Credentials.ParseServerOptions, Credentials.emptyServerOptions.
  set (so0 := Credentials.mkServerOptions None None insecure 0 [] None (negb checkExpiration) : Credentials.ServerOptions Cert KeyPair Factory Fn).
  change (Credentials.parse_options _ _) with
    (Credentials.parse_options (option_list cert_opt ++ client ++ (if negb insecure && negb (bool_decide (is_Some cert_opt)) then [WithSelfSignedCertificate self_signed []] else [])) so0).
  pose proof certificate_sets as Hcert. destruct cert_opt as [o|]; destruct Hcert as [Hconf Ho].
  - rewrite bool_decide_eq_true_2 by done. rewrite andb_false_r. change (option_list (Some o)) with [o]. cbn [app Credentials.parse_options].
    specialize (Ho so0). destruct (o so0) as [so1|e|e]; [|by split..]. destruct Ho as ((src & Hs & Hu) & H1 & H2 & H3 & H4 & H5 & H6).
    destruct (client_result client [] so1 Hclient H2 H3 H4) as (so2 & -> & Hset & E1 & E2 & E3 & E4). cbn [Credentials.parse_options].
    rewrite E2, H1, E3, H5, E4, H6. split; [|done]. split; [by right|]. exists src. by rewrite E1.
  - rewrite bool_decide_eq_false_2 by by intros []. change (option_list None) with (@nil ServerOptionFunc). cbn [app negb]. rewrite andb_true_r.
    destruct (client_result client (if negb insecure then [WithSelfSignedCertificate self_signed []] else []) so0 Hclient eq_refl eq_refl eq_refl) as (so2 & -> & Hset & E1 & E2 & E3 & E4).
    cbn in E1, E2, E3, E4. destruct (Value.Value.Bool Get "server.insecure") eqn:Ei; cbn [negb Credentials.parse_options].
    + rewrite E2, E3, E4. done.
    + specialize (Ho so2). destruct (WithSelfSignedCertificate self_signed [] so2) as [so3|e|e]; [|by split..].
      destruct Ho as (Hs & H1 & H2 & H3 & H4 & H5 & H6). rewrite H1, H5, H6, E3, E4. split; [split; [by left|exact Hs]|]. split; [done|]. split; [done|].
      unfold client_settings in *. destruct caFiles; by rewrite H2, H3, H4.
Qed.

Lemma port_range_keeps s : keeps_credentials (WithPortRange s).
Proof. intros x y. unfold WithPortRange. destruct (Split "-" s) as [|lo [|hi [|]]]; try (by intros [= <-]); destruct (Value.Value.ParseInt 64 lo); try done; try (destruct (Value.Value.ParseInt 64 hi)); by intros [= <-]. Qed.
Lemma max_connection_keeps n : keeps_credentials (WithHttpMaxConcurrentConnection n).
Proof. intros x y. unfold WithHttpMaxConcurrentConnection. destruct (_ && _); [done|]. by intros [= <-]. Qed.
Lemma basic_keeps : Forall keeps_credentials (basic_options Get ParseDuration DefaultRegistry DefaultTracer DefaultProvider ++ extra_options Get DefaultHealthService TokenAuth).
Proof.
  apply Forall_app. split.
  - repeat constructor; try (by intros x y [= <-]); [apply max_connection_keeps|apply port_range_keeps].
  - apply Forall_app. split; case_match; repeat constructor; by intros x y [= <-].
Qed.
Lemma parsed_credentials opts o : Forall keeps_credentials opts -> ParseOptions opts = Ok o -> exists l, cred_opts = Ok l /\ CredentialOpts o = l.
Proof.
  intros Hopts (l & Hl & (r & Hr & [= <-])%gores_bind_ok)%gores_bind_ok. exists l. split; [done|].
  transitivity (CredentialOpts r); [by destruct r|]. rewrite app_assoc, apply_all_app in Hr. destruct Hr as (z & Hz & Hr). apply apply_all_app in Hr as (z2 & Hz2 & Hr).
  rewrite (apply_all_keeps _ _ _ Hopts Hr), (apply_credentials _ _ _ Hz2), (apply_all_keeps _ _ _ basic_keeps Hz). done.
Qed.

Lemma chain_verified caCerts clock rawCerts (so : Credentials.ServerOptions Cert KeyPair Factory Fn) : ca_certs caFiles = Some caCerts ->
  Credentials.s_verifyCertificateFn so = None -> Credentials.s_ignoreExpiresCheck so = negb checkExpiration -> Credentials.certificateChainVerifiers so = [verifier caCerts] ->
  Credentials.chain_accepted clock so rawCerts = true <-> client_verified clock rawCerts.
Proof.
  intros Hca Hf Hi Hv. unfold Credentials.chain_accepted, Credentials.has_verifiers. rewrite Hv, Hf, Hi. cbn [length]. rewrite bool_decide_eq_false_2 by done. cbn [negb orb].
  unfold Credentials.verifyCertificate. cbn [Credentials.run_verifiers]. rewrite <- (verifier_verified caCerts clock rawCerts Hca).
  pose proof (verifier_verified caCerts clock rawCerts Hca) as Hver. unfold client_verified in Hver.
  destruct (mapM Credentials.ParseCertificate rawCerts) as [[|]|].
  1, 3: split; [done|]; intros H1%Hver; destruct H1 as (? & ? & ? & ? & ? & _ & _ & [=] & _).
  destruct (verifier caCerts _ rawCerts _) as [cs|]; cbn [mbind option_bind]; [|split; [done|by intros []]]. split; [by eexists|]. by destruct cs.
Qed.
Lemma policy_let_in clock rawCerts so : Credentials.s_verifyCertificateFn so = None -> Credentials.s_ignoreExpiresCheck so = negb checkExpiration ->
  client_settings so -> (0 <= Credentials.clientAuthType so <= 4)%Z /\ (Credentials.client_policy clock so rawCerts = true <-> let_in clock rawCerts).
Proof.
  intros Hf Hi Hset. unfold client_settings in Hset. unfold Credentials.client_policy, let_in. destruct caFiles as [|f fs] eqn:Eca.
  - destruct Hset as (_ & -> & _). split; [lia|]. split; [by left|done].
  - destruct Hset as (caCerts & Hca & _ & Ht & -> & Hvs). rewrite <- Eca in Hca. split; [done|].
    pose proof (chain_verified caCerts clock rawCerts so Hca Hf Hi Hvs) as Hv.
    assert (Hty : (clientAuthType = 0 \/ clientAuthType = 1 \/ clientAuthType = 2 \/ clientAuthType = 3 \/ clientAuthType = 4)%Z) by lia. clear Ht Hca Hvs Hi Hf.
    assert (Hnil : rawCerts = [] -> ~ client_verified clock rawCerts) by (intros -> (? & ? & ? & ? & ? & _ & _ & [=] & _)).
    destruct Hty as [E|[E|[E|[E|E]]]]; rewrite E; cbn iota; rewrite ?orb_true_iff, ?andb_true_iff, ?negb_true_iff, ?bool_decide_eq_true, ?bool_decide_eq_false, ?Hv; intuition (lia || congruence || eauto).
Qed.

(** C32: Transport security from the configuration, when the options of the program leave the
    credentials alone.
    - A server serves in plain text exactly if that is configured and no certificate is.
    - Else its certificate is the one that the configuration asks for: one issued for the
      configured names; without names the configured certificate and key, as texts or from
      their files; and without these one issued for no names.
    - Of its clients those are let in (by a handshake that resumes no session) that the
      configuration asks for: anyone when there are no authorities to check against, else by
      the type of client authentication; where certificates are verified, they have a chain
      to the configured authorities, as texts or from their files, at the time of the
      handshake, or at the latest start of a certificate if expiry is not to be checked, and
      the client's own is for a configured name, or the name "*" is configured.
    - It is an error only if the certificate asked for cannot be had, or if an authority is
      not a certificate. *)
Theorem server_tls_from_config opts o : Forall keeps_credentials opts -> ParseOptions opts = Ok o ->
  match Credentials.ServerOption (CredentialOpts o) with
  | Ok None => insecure = true /\ ~ certificate_configured
  | Ok (Some c) => (insecure = false \/ certificate_configured) /\ (exists src, Credentials.GetCertificate c = Some src /\ certificate_used src) /\
      forall clock rawCerts, Credentials.tls_server_accepts clock c rawCerts = true <-> let_in clock rawCerts
  | Err _ => (forall src, ~ certificate_used src) \/
      exists file text, file ∈ caFiles /\ authority_text file text /\ Credentials.AppendCertsFromPEM text = false
  | Panic _ => False
  end.
Proof.
  intros Hopts Ho. destruct (parsed_credentials opts o Hopts Ho) as (l & Hl & ->). unfold Credentials.ServerOption.
  pose proof (credential_result l Hl) as Hres. destruct (Credentials.ParseServerOptions l) as [so|e|e]; cbn [mbind gores_bind]; [|left; apply Hres|done].
  destruct Hres as (H1 & H2 & H3 & H4). unfold Credentials.ServerOptionWithOpts. destruct (Credentials.s_insecure so); [done|].
  destruct H1 as [Hsec (src & Hsrc & Hused)]. destruct (Credentials.configServerTLS so) as [c|e|e] eqn:Hc; cbn [mbind gores_bind].
  - assert (Credentials.GetCertificate c = Some src) as Hget.
    { rewrite <- Hsrc. apply gores_bind_ok in Hc as (pool & _ & Hc). cbv zeta in Hc.
      destruct (Credentials.clientAuthType so <? _)%Z; [by injection Hc as <-|]. destruct (_ || _)%bool; by injection Hc as <-. }
    rewrite Hget. split; [done|]. split; [by exists src|]. intros clock rawCerts. destruct (policy_let_in clock rawCerts so H2 H3 H4) as [Hty Hlet].
    by rewrite (Credentials.accepts_policy clock so c rawCerts Hty Hc).
  - right. unfold client_settings in H4. unfold Credentials.configServerTLS, Credentials.cert_pool in Hc. destruct caFiles as [|f fs].
    + destruct H4 as [H4 _]. rewrite H4 in Hc. cbn in Hc. by repeat (case_match; cbn in Hc; try done).
    + destruct H4 as (caCerts & Hca%ca_certs_texts & H4 & _). rewrite H4 in Hc. cbn [mbind gores_bind] in Hc.
      destruct (forallb Credentials.AppendCertsFromPEM caCerts) eqn:Happ; [cbn in Hc; by repeat (case_match; cbn in Hc; try done)|]. clear Hc H4.
      revert Happ. generalize (f :: fs) as files, Hca. clear. induction 1 as [|file text files texts Ht _ IH]; [done|]. cbn. intros [Ha|Ha]%andb_false_iff.
      * exists file, text. split; [by left|done].
      * destruct (IH Ha) as (file' & text' & ? & ?). exists file', text'. split; [by right|done].
  - unfold Credentials.configServerTLS, Credentials.cert_pool in Hc. by repeat (case_match; cbn in Hc; try done).
Qed.
End security.

(** ** Listeners and interceptors *)

(** The program's options come after the configuration: the last address decides, and where
    the two servers listen follows from the addresses. *)
Lemma plan_of_addresses Get ParseDuration r t p h tok pem self opts addr httpAddr o Listen (tls : bool) :
  ParseOptions Get ParseDuration r t p h tok pem self (opts ++ [WithAddr addr; WithHttpAddr httpAddr]) = Ok o ->
  Addr o = addr /\ HttpAddr o = httpAddr /\
  forall plan, serve Listen (o <| WithTls := tls |>) = Ok plan ->
    match plan with
    | GrpcOnly _ => EnableHttp o || EnableGrpcWeb o = false
    | HttpRoutes _ | Cmux _ => httpAddr = MultiplexServerAddr \/ addr = httpAddr /\ IsAutoPort httpAddr = false
    | Separate _ _ => httpAddr <> MultiplexServerAddr /\ (addr <> httpAddr \/ IsAutoPort httpAddr = true)
    end.
Proof.
  intros (l & _ & (x & Hx & Ho)%gores_bind_ok)%gores_bind_ok. injection Ho as Ho. rewrite !app_assoc, apply_all_app in Hx. destruct Hx as (y & _ & Hy).
  assert (Addr x = addr /\ HttpAddr x = httpAddr) as [H1 H2] by (cbn in Hy; destruct y; injection Hy as Hy; by subst x).
  assert (multiplexed x = (bool_decide (addr = httpAddr) && negb (IsAutoPort httpAddr)) || bool_decide (httpAddr = MultiplexServerAddr)) as Hm by (unfold multiplexed; by rewrite H1, H2).
  assert (Addr o = addr /\ HttpAddr o = httpAddr /\ MultiplexAddr o = multiplexed x) as (Ha & Hh & Hmo) by (subst o; by destruct x).
  split; [done|]. split; [done|]. clear Hy Ho H1 H2. rewrite Hm in Hmo. clear Hm x. intros plan. unfold serve. destruct o. cbn in *. subst.
  destruct (Listen addr _ _) as [a|e|e]; cbn; [|discriminate 1..]. destruct (negb _) eqn:Hn.
  { intros Hp. injection Hp as <-. by apply negb_true_iff in Hn. }
  destruct ((bool_decide (addr = httpAddr) && _) || _)%bool eqn:Hmux.
  - apply orb_true_iff in Hmux. assert (httpAddr = MultiplexServerAddr \/ addr = httpAddr /\ IsAutoPort httpAddr = false) as H3.
    { destruct Hmux as [[?%bool_decide_eq_true ?%negb_true_iff]%andb_true_iff|?%bool_decide_eq_true]; auto. }
    destruct tls; intros Hp; by injection Hp as <-.
  - destruct (Listen httpAddr _ _) as [b|e|e]; cbn; [|discriminate 1..]. intros Hp. injection Hp as <-. apply orb_false_iff in Hmux as [Hm1 ?%bool_decide_eq_false].
    split; [done|]. apply andb_false_iff in Hm1 as [?%bool_decide_eq_false|?%negb_false_iff]; auto.
Qed.

(** The number of streams that the configuration gives is not used. *)
Lemma max_streams_unset Get ParseDuration r t p h tok pem self o :
  ParseOptions Get ParseDuration r t p h tok pem self [] = Ok o -> MaxConcurrentStreams o = 0%Z.
Proof.
  intros (l & _ & (x & Hx & [= <-])%gores_bind_ok)%gores_bind_ok. transitivity (MaxConcurrentStreams x); [by destruct x|].
  assert (forall ops y z, Forall (fun o : Option => forall a b, o a = Ok b -> MaxConcurrentStreams b = MaxConcurrentStreams a) ops ->
    apply_all ops y = Ok z -> MaxConcurrentStreams z = MaxConcurrentStreams y) as Hkeep.
  { intros ops y z Hops. revert y. induction Hops as [|o ops Ho _ IH]; intros y; [by intros [= ->]|]. rewrite apply_all_cons. intros (w & Hw & Hz).
    rewrite (IH w Hz). by apply Ho. }
  rewrite (fun Hf => Hkeep _ zeroOptions x Hf Hx); [done|]. rewrite !Forall_app. split_and!; [| | |done].
  - repeat constructor; try (by intros [] b [= <-]).
    + intros a b. unfold WithHttpMaxConcurrentConnection. destruct (_ && _); [done|]. intros [= <-]. by destruct a.
    + intros a b. unfold WithPortRange. destruct a. destruct (Split "-" _) as [|lo [|hi [|]]]; try (by intros [= <-]); destruct (Value.Value.ParseInt 64 lo); try done; try (destruct (Value.Value.ParseInt 64 hi)); by intros [= <-].
  - unfold extra_options. apply Forall_app. split; case_match; repeat constructor; by intros [] b [= <-].
  - apply Forall_fmap, Forall_true. by intros c [] b [= <-].
Qed.

(** What is recovered from: a panic of the handler and of everything inside, and not one of
    the interceptors of the program, which are outside. *)
Lemma recovery_covers unary_auth prometheus o ignoreInternal i : Recovery o = true ->
  exists outer inner, PrepareUnaryInterceptors unary_auth prometheus o ignoreInternal = outer ++ RecoveryInt :: inner /\
    (User i ∈ outer <-> i ∈ UnaryInterceptors o) /\ User i ∉ inner /\ RecoveryInt ∉ outer.
Proof.
  intros Hr. unfold PrepareUnaryInterceptors. rewrite Hr. exists ((User <$> UnaryInterceptors o) ++ option_list (OpenTracing <$> Tracer o)). eexists.
  split; [by rewrite <- !app_assoc|]. split_and!.
  - rewrite elem_of_app. split; [intros [(j & [= ->] & ?)%list_elem_of_fmap|Hin]; [done|]|intros; left; apply list_elem_of_fmap; eauto].
    destruct (Tracer o); [by apply list_elem_of_singleton in Hin|by apply not_elem_of_nil in Hin].
  - rewrite !not_elem_of_app. split_and!; [destruct (AuthProvider o ≫= _)| |]; repeat case_match; set_solver.
  - rewrite not_elem_of_app. split; [by intros (j & ? & ?)%list_elem_of_fmap|]. destruct (Tracer o); set_solver.
Qed.
End options.

(** ** Examples *)

#[local] Existing Instance Hostname.example_host_cert.
#[local] Existing Instance Credentials.example_x509.
Definition example_conf (extra : gmap string string) (k : string) : option string :=
  (extra ∪ {["server.insecure" := "true"; "server.addr.port_range" := "10000-"; "server.http.max_concurrent_conns" := "-1"]}) !! k.
Definition example_parse (extra : gmap string string) : gores (Options (Cert := Hostname.example_cert) (KeyPair := string) (Factory := unit) (Fn := unit)) :=
  ParseOptions (example_conf extra) (fun _ => None) None None None 0 (fun _ => 0) (fun _ _ => ()) (fun _ => Ok ((), "")) [].
Definition secure_conf : gmap string string :=
  {["server.tls.cert" := "c"; "server.tls.key" := "k"; "server.tls.cacert" := "ca"; "server.tls.client_auth_type" := "4"; "server.tls.client_authorities" := "admin.org"]}.

Definition secured (extra : gmap string string) : bool :=
  match example_parse extra with Ok o => match Credentials.ServerOption (CredentialOpts o) with Ok (Some _) => true | _ => false end | _ => false end.
Lemma secure_conf_secured : secured secure_conf = true.
Proof. by vm_compute. Qed.

Lemma server_tls_from_config_witness : exists o c, example_parse secure_conf = Ok o /\ Credentials.ServerOption (CredentialOpts o) = Ok (Some c) /\
  Credentials.GetCertificate c = Some (Credentials.FromPair "ck") /\
  Credentials.tls_server_accepts (fun _ => 0%Z) c ["admin.org"] = true /\ Credentials.tls_server_accepts (fun _ => 0%Z) c ["user.org"] = false.
Proof.
  pose proof secure_conf_secured as Hs. unfold secured in Hs. destruct (example_parse secure_conf) as [o|e|e] eqn:E; [|discriminate Hs..].
  pose proof (server_tls_from_config (example_conf secure_conf) (fun _ => None) None None None 0 (fun _ => 0) (fun _ _ => ()) (fun _ => Ok ((), "")) [] o (Forall_nil_2 _) E) as H.
  destruct (Credentials.ServerOption (CredentialOpts o)) as [[c|]|e|e] eqn:Ec; [|discriminate Hs..].
  destruct H as (_ & (src & Hsrc & Hused) & H). exists o, c. split; [reflexivity|]. split; [exact Ec|]. split; [|split].
  - rewrite Hsrc. destruct Hused as [[Hc _]|[(_ & _ & _ & [(Hc & _)|(_ & cert & key & pair & Hc & Hk & Hp & ->)])|(_ & [Hc|Hc] & _)]].
    + vm_compute in Hc. by destruct Hc.
    + vm_compute in Hc. discriminate Hc.
    + vm_compute in Hc, Hk. injection Hc as <-. injection Hk as <-. vm_compute in Hp. injection Hp as <-. reflexivity.
    + vm_compute in Hc. discriminate Hc.
    + vm_compute in Hc. discriminate Hc.
  - apply H. do 5 right. split; [vm_compute; reflexivity|]. exists ["ca"], (Hostname.Hostname.mkCert [] ["admin.org"] ""), [], 1000000000%Z, [[Hostname.Hostname.mkCert [] ["admin.org"] ""]].
    split; [vm_compute; repeat constructor; by right|]. split; [repeat constructor|]. split; [reflexivity|].
    split; [vm_compute; exists 0%Z; split; [split; [by left|split; [done|intros c' _; done]]|done]|]. split; [reflexivity|].
    exists "admin.org". split; [vm_compute; by left|right; vm_compute; reflexivity].
  - apply not_true_iff_false. intros [Hc|[Hc|[[Hc _]|[[Hc _]|[[Hc _]|[_ Hv]]]]]]%H; [vm_compute in Hc; discriminate Hc..|].
    destruct Hv as (caCerts & cert & rest & t & chains & _ & _ & Hp & _ & _ & a & Ha & Hn). vm_compute in Hp. injection Hp as <- <-.
    vm_compute in Ha. apply list_elem_of_singleton in Ha as ->. destruct Hn as [Hn|Hn]; vm_compute in Hn; discriminate Hn.
Defined.

(** Authorities without a certificate of the server: plain text, and no client is checked. *)
Example authorities_ignored : match example_parse {["server.tls.cacert" := "ca"; "server.tls.client_auth_type" := "4"]} with
  | Ok o => Credentials.ServerOption (CredentialOpts o) = Ok None | _ => False end.
Proof. by vm_compute. Qed.

End ServerOptions.
