(* ===== verification/Guards.v ===== *)
(** * The guards of a server: interceptors that recover from panics ([recovery/]), check
    deadlines ([deadline/]), protect the reflection service
    ([server/internal/grpc_reflection/]) and choose what is measured ([prometheus/]), and the
    chain they make with the others ([server/internal/grpc_server/option.go]).

    An interceptor gets the context, the method in the [info] all interceptors of a call share,
    and the rest of the chain.  The interceptors of go-grpc-prometheus, of the program and of
    opentracing are parameters. *)

From Stdlib Require Import Ascii.
From S2P Require Import Prelude GoInt GoStrings GrpcMetadata Interceptor Logging ServerOptions.

Open Scope string_scope.
Open Scope list_scope.

Module Guards.
Import Interceptor.

(** ** Statuses, contexts and results *)

Definition code_Canceled : Z := 1.
Definition code_DeadlineExceeded : Z := 4.
Definition code_Internal : Z := 13.
Definition code_Unauthenticated : Z := 16.

Record status := mkStatus { code : Z; message : string }.

(** [context.Canceled], [context.DeadlineExceeded] and the errors of other implementations. *)
Inductive ctx_error := Canceled | DeadlineExceeded | OtherError (text : string).

(** What a handler comes to; the error is nil for success. *)
Inductive result (Resp : Type) := Returned (resp : option Resp) (err : option status) | Panicked (v : string).
Arguments Returned {_}. Arguments Panicked {_}.

(** [strings.Contains] *)
Fixpoint Contains (s sub : string) : bool :=
  HasPrefix s sub || match s with EmptyString => false | String _ s => Contains s sub end.

Section guards.
Context {Ctx MD Resp : Type} `{Metadata MD} (FromIncomingContext : Ctx -> option MD) (ctx_Err : Ctx -> option ctx_error)
  (ctx_text : Ctx -> string).
Notation result := (result Resp).

Definition next : Type := Ctx -> string -> result.
Definition interceptor : Type := Ctx -> string -> next -> result.

(** *** [recovery/recovery.go] *)

(** [stack] is the text of [debug.Stack], [log_Error] what [log.Error] does with the error. *)
Section recovery.
Context (stack : string) (log_Error : status -> gores (list Logging.event)).

Definition panic_status (v : string) : status := mkStatus code_Internal ("[PANIC] panic = " +:+ v +:+ ", stack = " +:+ stack).

(** The deferred function; a panic of its own goes on to the caller. *)
Definition recovered (r : result) : result :=
  match r with
  | Panicked v => match log_Error (panic_status v) with Panic m => Panicked m | _ => Returned None (Some (panic_status v)) end
  | r => r
  end.
Definition recovery_Interceptor : interceptor := fun ctx method handler => recovered (handler ctx method).

(** The response of an HTTP handler as what is done to its writer, and its panic. *)
Inductive wevent := SetHeader (k v : string) | WriteHeader (status : Z) | WriteBody (body : string).
Definition recovery_HttpHandler (h : list wevent * option string) : list wevent * option string :=
  match h with
  | (ws, Some e) => (ws ++ [SetHeader "Content-Type" "text/plain"; WriteHeader 500; WriteBody ("[PAMIC] panic = " +:+ e +:+ ", stack = " +:+ stack)], None)
  | h => h
  end.

End recovery.

(** *** [deadline/deadline.go] *)

Definition CheckContext (ctx : Ctx) : option status :=
  match ctx_Err ctx with
  | Some Canceled => Some (mkStatus code_Canceled ("Interrupted by deadline checker[context is canceled], ctx = " +:+ ctx_text ctx))
  | Some DeadlineExceeded => Some (mkStatus code_DeadlineExceeded ("Interrupted by deadline checker[context deadline is exceeded], ctx = " +:+ ctx_text ctx))
  | None => None
  | Some (OtherError e) => Some (mkStatus code_Internal ("Interrupted by deadline checker[caught context error], ctx = " +:+ ctx_text ctx +:+ ", ctx.Err = " +:+ e))
  end.
Definition DeadlineCheckerUnaryServerInterceptor : interceptor := fun ctx method handler =>
  match CheckContext ctx with Some err => Returned None (Some err) | None => handler ctx method end.

(** *** [server/internal/grpc_reflection/reflection_auth.go] *)

Definition reflection_method : string := "/grpc.reflection.v1alpha.ServerReflection/ServerReflectionInfo".

Definition auth_handler : Type := Ctx -> option status.

(** The loop; [err] is the error of the last handler. *)
Fixpoint auth_loop (authHandler : list (option auth_handler)) (err : option status) (ctx : Ctx) (handler : result) : result :=
  match authHandler with
  | [] => Returned None err
  | None :: rest => auth_loop rest err ctx handler
  | Some auth :: rest => match auth ctx with None => handler | Some e => auth_loop rest (Some e) ctx handler end
  end.
Definition GrpcReflectionAuthInterceptor (authHandler : list (option auth_handler)) : interceptor := fun ctx method handler =>
  if bool_decide (method = reflection_method) && negb (bool_decide (authHandler = []))
  then auth_loop authHandler None ctx (handler ctx method) else handler ctx method.

Definition GrpcReflectionTokenAuth (DecodeString : string -> option string) (token : string) : auth_handler := fun ctx =>
  match FromIncomingContext ctx with
  | None => Some (mkStatus code_Unauthenticated "no authorization header")
  | Some md =>
      match md_Get md "authorization" with
      | [] => Some (mkStatus code_Unauthenticated "no authorization header")
      | authorization :: _ =>
          match DecodeString authorization with
          | Some authHeader => if decide (authHeader = token) then None else Some (mkStatus code_Unauthenticated "invalid authorization token")
          | None => Some (mkStatus code_Unauthenticated "invalid authorization token")
          end
      end
  end.

(** *** [prometheus/prometheus.go] *)

Definition targetMeta : string := "x-grpc-target".

(** Entries are folded to lower case up to the first star. *)
Fixpoint lower_until_star (serviceList : list string) : bool * list string :=
  match serviceList with
  | [] => (false, [])
  | s :: rest => if decide (ToLower s = "*") then (true, ToLower s :: rest) else let (a, l) := lower_until_star rest in (a, ToLower s :: l)
  end.
Definition serviceListChecker (StringList : list string) (serviceName : string) : bool :=
  let (allowAll, serviceList) := lower_until_star StringList in
  allowAll || existsb (fun service => negb (bool_decide (service = "")) && Contains (ToLower serviceName) service) serviceList.

Definition replaceServiceName (ctx : Ctx) (fullMethod : string) : string :=
  match FromIncomingContext ctx with
  | None => fullMethod
  | Some md =>
      match last (md_Get md targetMeta) with
      | None => fullMethod
      | Some target => match Split "/" fullMethod with [_; _; m] => "/" +:+ target +:+ "/" +:+ m | _ => fullMethod end
      end
  end.

(** Whether prometheus is enabled is read once. *)
Definition IsPrometheusEnabled (once : option bool) (enable : bool) : option bool * bool :=
  let e := default enable once in (Some e, e).

(** [metered] is the interceptor of go-grpc-prometheus. *)
Definition prometheus_ServerInterceptor (enabled : bool) (StringList : list string) (metered : interceptor) : option interceptor :=
  if negb enabled then None
  else Some (fun ctx method handler =>
    let method := replaceServiceName ctx method in
    if serviceListChecker StringList method then metered ctx method handler else handler ctx method).
Definition prometheus_ClientInterceptor (enabled clientMetrics : bool) (StringList : list string) (metered : interceptor) : option interceptor :=
  if negb enabled || negb clientMetrics then None
  else Some (fun ctx method invoker => if serviceListChecker StringList method then metered ctx method invoker else invoker ctx method).

(** Where the metrics are served, as in [profile/profile.go] where the profiles are. *)
Definition metrics_host (flag server_addr : string) (SplitHost : string -> string) (HostIp : option string) : string :=
  if decide (TrimSpace flag = "") then
    let addr :=
      if decide (server_addr = "") then ""
      else
        let addr := if HasPrefix server_addr "[::]:" then sdrop (default 0 (LastIndex server_addr ":")) server_addr else server_addr in
        if HasPrefix addr ":" then "" else SplitHost addr in
    if decide (addr = "") then match HostIp with Some ip => ip +:+ addr | None => addr end else addr
  else flag.

(** *** The chain of a server *)

Section chain.
(** The interceptors that are not the framework's own, and what recovery and reflection are given. *)
Context (stack : string) (log_Error : status -> gores (list Logging.event)) (user tracing auth : nat -> interceptor)
  (auth_fn : nat -> option auth_handler) (StringList : list string) (metered requestId : interceptor).

Definition interpret (i : ServerOptions.server_interceptor) : interceptor :=
  match i with
  | ServerOptions.User i => user i
  | ServerOptions.OpenTracing t => tracing t
  | ServerOptions.RecoveryInt => recovery_Interceptor stack log_Error
  | ServerOptions.Auth i => auth i
  | ServerOptions.ReflectionAuth hs => GrpcReflectionAuthInterceptor (auth_fn <$> hs)
  | ServerOptions.Prometheus => default (fun ctx method handler => handler ctx method) (prometheus_ServerInterceptor true StringList metered)
  | ServerOptions.DeadlineChecker => DeadlineCheckerUnaryServerInterceptor
  | ServerOptions.RequestIdTracing => requestId
  end.

(** The interceptors share [info], so what one writes there the next reads. *)
Definition chain (l : list ServerOptions.server_interceptor) (handler : next) : next :=
  wrap ((fun i (rest : next) ctx method => interpret i ctx method rest) <$> l) handler.

Lemma chain_cons i l handler : chain (i :: l) handler = fun ctx method => interpret i ctx method (chain l handler).
Proof. exact (wrap_cons _ _ handler). Qed.

Lemma chain_app l l' handler : chain (l ++ l') handler = chain l (chain l' handler).
Proof. unfold chain. rewrite fmap_app. exact (wrap_app _ _ handler). Qed.

(** An interceptor that calls on, if it does, with the incoming metadata and the method it got. *)
Definition keeps (i : interceptor) : Prop := forall ctx method (n n' : next),
  (forall ctx', FromIncomingContext ctx' = FromIncomingContext ctx -> n ctx' method = n' ctx' method) -> i ctx method n = i ctx method n'.

Lemma recovery_keeps : keeps (recovery_Interceptor stack log_Error).
Proof. intros ctx method n n' Hn. unfold recovery_Interceptor. by rewrite (Hn ctx eq_refl). Qed.

Lemma deadline_keeps : keeps DeadlineCheckerUnaryServerInterceptor.
Proof. intros ctx method n n' Hn. unfold DeadlineCheckerUnaryServerInterceptor. by rewrite (Hn ctx eq_refl). Qed.

Lemma keeps_chain l ctx method (n n' : next) : Forall (fun i => keeps (interpret i)) l ->
  (forall ctx', FromIncomingContext ctx' = FromIncomingContext ctx -> n ctx' method = n' ctx' method) ->
  chain l n ctx method = chain l n' ctx method.
Proof.
  intros Hl Hn. cut (forall ctx', FromIncomingContext ctx' = FromIncomingContext ctx -> chain l n ctx' method = chain l n' ctx' method).
  { intros Hc. by apply Hc. }
  induction Hl as [|i l Hi Hl IH]; [exact Hn|]. intros ctx' Hc. rewrite !chain_cons. apply Hi.
  intros ctx'' Hc'. apply IH. by rewrite Hc'.
Qed.

(** *** Panics *)

(** The call ends with [Internal] in the place of a panic of anything inside, provided that the
    logger does not panic itself. *)
Lemma panic_recovered l handler ctx method v : chain l handler ctx method = Panicked v ->
  chain (ServerOptions.RecoveryInt :: l) handler ctx method =
    match log_Error (panic_status stack v) with Panic m => Panicked m | _ => Returned None (Some (panic_status stack v)) end.
Proof. intros Hp. rewrite chain_cons. cbn [interpret]. unfold recovery_Interceptor. by rewrite Hp. Qed.

(** *** Methods *)

(** Inside the interceptor of prometheus the method is the one that the caller names in its
    metadata. *)
Lemma target_believed l handler ctx service m md target rest :
  FromIncomingContext ctx = Some md -> md_Get md targetMeta = rest ++ [target] ->
  contains_char "/" service = false -> contains_char "/" m = false ->
  (forall method (n : next), metered ctx method n = n ctx method) ->
  chain (ServerOptions.Prometheus :: l) handler ctx ("/" +:+ service +:+ "/" +:+ m) = chain l handler ctx ("/" +:+ target +:+ "/" +:+ m).
Proof.
  intros Hmd Ht Hs Hm Hmet. assert (Hr : replaceServiceName ctx ("/" +:+ service +:+ "/" +:+ m) = "/" +:+ target +:+ "/" +:+ m).
  { unfold replaceServiceName. rewrite Hmd, Ht, last_snoc.
    assert (Split "/" ("/" +:+ service +:+ "/" +:+ m) = [""; service; m]) as ->; [|done].
    change ("/" +:+ service +:+ "/" +:+ m) with ("" +:+ String "/" (service +:+ String "/" m)).
    by rewrite !Split_app_sep, (Split_free _ m). }
  rewrite chain_cons. cbv beta zeta iota delta [interpret prometheus_ServerInterceptor negb from_option id]. rewrite Hr.
  destruct (serviceListChecker StringList _); [apply Hmet|done].
Qed.

End chain.

(** *** The reflection service *)

Lemma auth_loop_granted hs err ctx handler a : Some a ∈ hs -> a ctx = None -> auth_loop hs err ctx handler = handler.
Proof.
  revert err. induction hs as [|[b|] hs IH]; intros err Hin Ha; [by apply not_elem_of_nil in Hin|..]; cbn; apply elem_of_cons in Hin as [[=]|Hin].
  - subst b. by rewrite Ha.
  - destruct (b ctx); [by apply IH|done].
  - by apply IH.
Qed.

(** A list of handlers without any function lets nothing through and reports success. *)
Lemma empty_handlers_succeed (n : nat) ctx handler : GrpcReflectionAuthInterceptor (replicate (S n) None) ctx reflection_method handler = Returned None None.
Proof. unfold GrpcReflectionAuthInterceptor. cbn. induction n as [|n IH]; [done|exact IH]. Qed.

Lemma token_granted DecodeString token ctx : GrpcReflectionTokenAuth DecodeString token ctx = None <->
  exists md auth rest, FromIncomingContext ctx = Some md /\ md_Get md "authorization" = auth :: rest /\ DecodeString auth = Some token.
Proof.
  unfold GrpcReflectionTokenAuth. split.
  - destruct (FromIncomingContext ctx) as [md|]; [|done]. destruct (md_Get md "authorization") as [|auth rest] eqn:Eg; [done|].
    destruct (DecodeString auth) as [h|] eqn:Ed; [|done]. case_decide; [subst|done]. intros _. by exists md, auth, rest.
  - intros (md & auth & rest & -> & -> & ->). by rewrite decide_True.
Qed.

Lemma token_status DecodeString token ctx e : GrpcReflectionTokenAuth DecodeString token ctx = Some e -> code e = code_Unauthenticated.
Proof. unfold GrpcReflectionTokenAuth. repeat case_match; by intros [= <-]. Qed.

Lemma guard_on hs ctx handler : hs <> [] ->
  GrpcReflectionAuthInterceptor hs ctx reflection_method handler = auth_loop hs None ctx (handler ctx reflection_method).
Proof. intros Hn. unfold GrpcReflectionAuthInterceptor. rewrite bool_decide_eq_true_2 by done. by rewrite bool_decide_eq_false_2 by done. Qed.

Lemma guard_other hs ctx method handler : method <> reflection_method -> GrpcReflectionAuthInterceptor hs ctx method handler = handler ctx method.
Proof. intros Hn. unfold GrpcReflectionAuthInterceptor. by rewrite bool_decide_eq_false_2. Qed.

Lemma token_same DecodeString token ctx ctx' : FromIncomingContext ctx' = FromIncomingContext ctx ->
  GrpcReflectionTokenAuth DecodeString token ctx' = GrpcReflectionTokenAuth DecodeString token ctx.
Proof. unfold GrpcReflectionTokenAuth. by intros ->. Qed.

(** Without any of the tokens, the loop ends with an error that the metadata decides. *)
Lemma tokens_refused DecodeString (token : nat -> string) toks ctx err :
  (forall h, h ∈ toks -> GrpcReflectionTokenAuth DecodeString (token h) ctx <> None) ->
  (exists e, err = Some e /\ code e = code_Unauthenticated) \/ toks <> [] ->
  exists e, code e = code_Unauthenticated /\ forall ctx' handler, FromIncomingContext ctx' = FromIncomingContext ctx ->
    auth_loop ((fun h => Some (GrpcReflectionTokenAuth DecodeString (token h))) <$> toks) err ctx' handler = Returned None (Some e).
Proof.
  revert err. induction toks as [|h toks IH]; intros err Hr He.
  - destruct He as [(e & -> & Hc)|]; [|done]. exists e. by split.
  - destruct (GrpcReflectionTokenAuth DecodeString (token h) ctx) as [e|] eqn:Ea; [|by destruct (Hr h ltac:(set_solver))].
    destruct (IH (Some e)) as (e' & Hc & Hl).
    + intros h' Hin. apply Hr. set_solver.
    + left. exists e. split; [done|]. by eapply token_status.
    + exists e'. split; [done|]. intros ctx' handler Hs. cbn. rewrite (token_same _ _ _ _ Hs), Ea. by apply Hl.
Qed.

(** C33: who reaches the reflection service.  The stream interceptors of a server whose
    reflection is protected by tokens are some outer ones, the guard and some inner ones.  If
    the outer ones leave the metadata alone, then a call of the reflection service without any
    of the tokens comes to what the outer interceptors make of an [Unauthenticated] error,
    whatever is inside; with a token, and for every other method, the guard is not felt. *)
Theorem reflection_guarded {Factory Cert KeyPair Fn : Type} (stack : string) (log_Error : status -> gores (list Logging.event)) (user tracing auth : nat -> interceptor)
    (DecodeString : string -> option string) (token : nat -> string) (StringList : list string) (metered requestId : interceptor)
    (streamAuth : nat -> option nat) (prometheus ignoreInternal : bool) (o : ServerOptions.Options (Factory := Factory) (Cert := Cert) (KeyPair := KeyPair) (Fn := Fn)) (ctx : Ctx) :
  ServerOptions.GrpcServerReflection o = true -> ServerOptions.GrpcServerReflectionAuth o <> [] ->
  (forall i, keeps (user i)) -> (forall t, keeps (tracing t)) -> (forall i, keeps (auth i)) ->
  let run := chain stack log_Error user tracing auth (fun h => Some (GrpcReflectionTokenAuth DecodeString (token h))) StringList metered requestId in
  exists outer inner, (forall handler, run (ServerOptions.PrepareStreamInterceptors streamAuth prometheus o ignoreInternal) handler =
      run outer (run (ServerOptions.ReflectionAuth (ServerOptions.GrpcServerReflectionAuth o) :: inner) handler)) /\
    let granted := exists h md a rest, h ∈ ServerOptions.GrpcServerReflectionAuth o /\ FromIncomingContext ctx = Some md /\
      md_Get md "authorization" = a :: rest /\ DecodeString a = Some (token h) in
    (~ granted -> exists e, code e = code_Unauthenticated /\ forall handler,
      run (ServerOptions.PrepareStreamInterceptors streamAuth prometheus o ignoreInternal) handler ctx reflection_method =
      run outer (fun _ _ => Returned None (Some e)) ctx reflection_method) /\
    (forall method handler, granted \/ method <> reflection_method ->
      run (ServerOptions.PrepareStreamInterceptors streamAuth prometheus o ignoreInternal) handler ctx method = run (outer ++ inner) handler ctx method).
Proof.
  intros Hon Hhs Huser Htracing Hauth run.
  set (outer := (ServerOptions.User <$> ServerOptions.StreamInterceptors o) ++ option_list (ServerOptions.OpenTracing <$> ServerOptions.Tracer o) ++
    (if ServerOptions.Recovery o then [ServerOptions.RecoveryInt] else []) ++ option_list (ServerOptions.Auth <$> (ServerOptions.AuthProvider o ≫= streamAuth))).
  set (inner := (if prometheus then [ServerOptions.Prometheus] else []) ++ (if ignoreInternal then [] else [ServerOptions.RequestIdTracing])).
  set (guard := ServerOptions.ReflectionAuth (ServerOptions.GrpcServerReflectionAuth o)).
  assert (Hl : ServerOptions.PrepareStreamInterceptors streamAuth prometheus o ignoreInternal = outer ++ guard :: inner).
  { unfold ServerOptions.PrepareStreamInterceptors, outer, guard, inner. rewrite Hon, <- !app_assoc.
    destruct (ServerOptions.GrpcServerReflectionAuth o) as [|h hs]; done. }
  assert (Hsplit : forall handler, run (outer ++ guard :: inner) handler = run outer (run (guard :: inner) handler)) by (intros; apply chain_app).
  assert (Hkeep : Forall (fun i => keeps (interpret stack log_Error user tracing auth (fun h => Some (GrpcReflectionTokenAuth DecodeString (token h))) StringList metered requestId i)) outer).
  { unfold outer. rewrite !Forall_app. split_and!.
    - apply Forall_fmap, Forall_true. intros i. apply Huser.
    - destruct (ServerOptions.Tracer o); repeat constructor. apply Htracing.
    - destruct (ServerOptions.Recovery o); repeat constructor. apply recovery_keeps.
    - destruct (_ ≫= _); repeat constructor. apply Hauth. }
  exists outer, inner. rewrite Hl. split; [exact Hsplit|]. intros granted. split.
  - intros Hno. destruct (tokens_refused DecodeString token (ServerOptions.GrpcServerReflectionAuth o) ctx None) as (e & Hc & He).
    + intros h Hh Hn. apply token_granted in Hn as (md & a & rest & Hm & Hg & Hd). apply Hno. by exists h, md, a, rest.
    + by right.
    + exists e. split; [done|]. intros handler. rewrite Hsplit. apply keeps_chain; [exact Hkeep|]. intros ctx' Hs.
      unfold run, guard. rewrite chain_cons. cbn [interpret]. rewrite guard_on; [by apply He|]. by intros E%fmap_nil_inv.
  - intros method handler Hg. rewrite Hsplit. unfold run. rewrite chain_app. apply keeps_chain; [exact Hkeep|]. intros ctx' Hs.
    unfold guard. rewrite chain_cons. cbn [interpret].
    destruct Hg as [(h & md & a & rest & Hh & Hm & Ha & Hd)|Hne]; [|by rewrite guard_other].
    destruct (decide (method = reflection_method)) as [->|Hne]; [|by rewrite guard_other]. rewrite guard_on by (by intros E%fmap_nil_inv).
    apply (auth_loop_granted _ _ _ _ (GrpcReflectionTokenAuth DecodeString (token h))).
    + apply list_elem_of_fmap. by exists h.
    + apply token_granted. exists md, a, rest. by rewrite Hs.
Qed.

(** *** Recovery and the logger *)

(** In a process that has a configuration, [log.Error] panics, and with it the deferred
    function that recovers: the caller gets the panic of the logger. *)
Lemma recovery_with_logger {LCtx Conf Time : Type} (Format : Time -> string) (providers : list (LCtx -> list Logging.Field)) (global : option Conf)
    (status_text : status -> string) (stack : string) (w : Logging.world (Time := Time)) (caller : Logging.Caller.Frame) ctx method (handler : next) v :
  (Logging.Caller.GetCaller (Logging.packageName w) (Logging.stack w) true).2 = Some caller -> handler ctx method = Panicked v ->
  recovery_Interceptor stack (fun s => (Logging.pkg_Error Format providers false global [Logging.VOther (status_text s)] w).2) ctx method handler =
    match global with
    | None => Returned None (Some (panic_status stack v))
    | Some _ => Panicked "runtime error: invalid memory address or nil pointer dereference"
    end.
Proof.
  intros Hc Hp. unfold recovery_Interceptor. rewrite Hp. cbn [recovered]. destruct global as [c|]; [done|].
  by rewrite (Logging.unconfigured_error Format providers _ w caller Hc).
Qed.

(** *** Deadlines *)

(** A call whose context has ended is not handled, and its status says how it ended. *)
Lemma ended_context_refused ctx method (handler : next) e : ctx_Err ctx = Some e -> exists s,
  DeadlineCheckerUnaryServerInterceptor ctx method handler = Returned None (Some s) /\
  code s = match e with Canceled => code_Canceled | DeadlineExceeded => code_DeadlineExceeded | OtherError _ => code_Internal end.
Proof. intros He. unfold DeadlineCheckerUnaryServerInterceptor, CheckContext. rewrite He. by destruct e; eexists. Qed.

(** *** Services that are measured *)

Lemma checker_star l l' name : serviceListChecker (l ++ "*" :: l') name = true.
Proof.
  unfold serviceListChecker. assert (exists s, lower_until_star (l ++ "*" :: l') = (true, s)) as [s ->]; [|done].
  induction l as [|x l [s IH]]; cbn; [by eexists|]. case_decide; [by eexists|]. rewrite IH. by eexists.
Qed.
Lemma checker_lower l name : "*" ∉ (ToLower <$> l) ->
  serviceListChecker l name = existsb (fun s => negb (bool_decide (ToLower s = "")) && Contains (ToLower name) (ToLower s)) l.
Proof.
  intros Hs. unfold serviceListChecker. assert (lower_until_star l = (false, ToLower <$> l)) as ->.
  { induction l as [|x l IH]; [done|]. cbn in *. apply not_elem_of_cons in Hs as [Hx Hs]. rewrite decide_False by congruence. by rewrite IH. }
  cbn [orb]. clear Hs. induction l as [|x l IH]; [done|]. cbn. by rewrite IH.
Qed.

End guards.

(** ** Examples *)

Definition example_ctx : Type := gmap string (list string).
Definition example_md (ctx : example_ctx) : option (gmap string (list string)) := Some ctx.

(** [server.addr] without a host, or without a port, leaves the address of the host. *)
Example metrics_at : metrics_host "" "[::]:8080" (fun _ => "") (Some "10.0.0.1") = "10.0.0.1" /\
  metrics_host " 1.2.3.4" "auto" (fun _ => "") (Some "10.0.0.1") = " 1.2.3.4".
Proof. split; vm_compute; reflexivity. Qed.

Definition example_options : ServerOptions.Options (Factory := unit) (Cert := unit) (KeyPair := unit) (Fn := unit) :=
  match ServerOptions.WithGrpcServerReflection true ServerOptions.zeroOptions with
  | Ok o => match ServerOptions.WithGrpcServerReflectionAuth (Some 4) o with Ok o => o | _ => o end
  | _ => ServerOptions.zeroOptions
  end.

Lemma reflection_guarded_witness :
  let pass : interceptor (Ctx := example_ctx) (Resp := unit) := fun ctx method handler => handler ctx method in
  let run := chain example_md (fun _ => None) (fun _ => "") "" (fun _ => Ok []) (fun _ => pass) (fun _ => pass) (fun _ => pass)
    (fun _ => Some (GrpcReflectionTokenAuth example_md Some "secret")) [] pass pass in
  let ctx : example_ctx := <["authorization" := ["guess"]]> ∅ in
  let l := ServerOptions.PrepareStreamInterceptors (fun _ => None) true example_options false in
  (exists outer e, code e = code_Unauthenticated /\ forall handler, run l handler ctx reflection_method = run outer (fun _ _ => Returned None (Some e)) ctx reflection_method) /\
  forall handler, run l handler ctx reflection_method = Returned None (Some (mkStatus code_Unauthenticated "invalid authorization token")).
Proof.
  intros pass run ctx l. split; [|intros handler; vm_compute; reflexivity]. assert (Hpass : keeps example_md pass) by (intros c method n n' Hn; by apply Hn).
  destruct (reflection_guarded example_md (fun _ => None) (fun _ => "") "" (fun _ => Ok []) (fun _ => pass) (fun _ => pass) (fun _ => pass)
    Some (fun _ => "secret") [] pass pass (fun _ => None) true false example_options (<["authorization" := ["guess"]]> ∅)
    eq_refl ltac:(discriminate) (fun _ => Hpass) (fun _ => Hpass) (fun _ => Hpass)) as (outer & inner & _ & H & _).
  destruct H as (e & Hc & He).
  - intros (h & md & a & rest & _ & [= <-] & Ha & [= Hd]). vm_compute in Ha. congruence.
  - exists outer, e. split; [exact Hc|exact He].
Defined.

End Guards.
