(* ===== verification/ServiceStart.v ===== *)
(** * Services of a server ([server/internal/grpc_server/description.go],
    [server/internal/grpc_server/registry_handler.go], [Prepare] and [grpcServiceHook] of
    [server/internal/grpc_server/grpc_server.go]).

    A server keeps a description for every service that was registered with it.  When it starts
    to serve, every service has a goroutine that runs its start hook, makes its methods
    callable in the process ([ServiceRegistry]) and announces its names in the registry
    ([MemoryRegistry]); the goroutines run at the same time, and so do other users of the
    registry.  They are modelled as routines that take atomic steps in any order.  Left out are
    [memory_registry.GetServiceInfo], which reads the service out of a grpc server by
    reflection and is an argument here, the setting of fields of the service by
    [service.InitProvider], and the callbacks for the bound address.  [log.Fatal] runs the end
    of the process while the other routines go on, so it stops the routine only. *)

From stdpp Require Import sorting.
From S2P Require Import Prelude GoStrings MemoryRegistry PathMatcher Discovery ServiceRegistry ServerListen ServerOptions.
From Stdlib Require Import Ascii.

Open Scope string_scope.
Open Scope list_scope.

Module ServiceStart.
Import PathMatcher Discovery.
#[local] Existing Instances Balancer.Address_eq_dec Balancer.Address_countable.
Notation registry := (gmap string (gmap string string)).

(** ** Handlers of registrations ([registry_handler.go]) *)

(** What the closures of [PrepareRegister] hold: the service (its place in the list), whether
    there is a registry to talk to, and address and TLS of the server. *)
Record closure := mkClosure { c_sd : nat; c_live : bool; c_addr : string; c_tls : bool }.

(** Handlers are shared by pointer.  One of another type has no [PrepareRegister]; its answers
    are given. *)
Inductive handler := Impl (initialRegistry : bool) (closures : option closure) | Foreign (initial : bool) (registered : option string).
Notation handlers := (gmap nat handler).
Definition DefaultRegistryHandler : handler := Impl true None.
Definition WithInitialRegistry (enable : bool) (h : handler) : handler :=
  match h with Impl _ c => Impl enable c | h => h end.
Definition PrepareRegister (c : closure) (h : handler) : handler :=
  match h with Impl i _ => Impl i (Some c) | h => h end.
Definition IsInitialRegister (h : handler) : bool := match h with Impl i _ => i | Foreign i _ => i end.

(** On this platform no address is a pipe. *)
Definition IsPipeAddress (addr : string) : bool := false.

(** ** Providers ([CreateDefaultProvider], the initializer of [RegisterServiceHandler]) *)

Definition qualified (serviceName n : string) : string := TrimSuffix n "." +:+ "." +:+ serviceName.
Definition provider_namespaces (ns : list string) (serviceName : string) : list string :=
  match ns with
  | [] => [serviceName]
  | [n] => if bool_decide (TrimSpace n = "") then [serviceName] else [qualified serviceName n]
  | ns => qualified serviceName <$> ns
  end.
Record provider := mkProvider { p_serviceName : string; p_namespaces : list string }.
Definition provider_key (serviceName : string) (configNs : list string) : string := serviceName +:+ "|" +:+ Join configNs "|".
Definition CreateDefaultProvider (providerMap : gmap string provider) (serviceName : string) (configNs : list string)
  : provider * gmap string provider :=
  match providerMap !! provider_key serviceName configNs with
  | Some p => (p, providerMap)
  | None => let p := mkProvider serviceName configNs in (p, <[provider_key serviceName configNs := p]> providerMap)
  end.

(** ** Descriptions *)

Section services.
Context {Srv UHandler SHandler UInt SInt : Type} (TypeOf : Srv -> ServiceRegistry.gotype).
Context (Marshal : Meta -> option string) (Unmarshal : string -> option Meta).
Notation ServiceInfo := (ServiceRegistry.ServiceInfo (Srv := Srv) (UHandler := UHandler) (SHandler := SHandler)).
Notation MemoryRegistry := (ServiceRegistry.MemoryRegistry (Srv := Srv) (UHandler := UHandler) (SHandler := SHandler) (UInt := UInt) (SInt := SInt)).

(** [registryHandler] is the pointer in [RegisterOption.RegistryHandler]. *)
Record ServiceDesc := mkDesc { info : ServiceInfo; RegisterOption : ServerOptions.RegisterOptions; registryHandler : nat }.

(** [RegisterServiceHandler]; without a handler a new one is made.  [Panic]: the process ends. *)
Definition RegisterServiceHandler (s : list ServiceDesc) (hs : handlers) (serviceInfo : ServiceInfo + string)
    (opt : list ServerOptions.RegisterOption) : gores (list ServiceDesc * handlers) :=
  opts ← foldl (fun acc o => opts ← acc; o opts) (Ok ServerOptions.emptyRegisterOptions) opt;
  match serviceInfo with
  | inr e => Panic e
  | inl i =>
      match ServerOptions.RegistryHandler opts with
      | Some h => Ok (s ++ [mkDesc i opts h], hs)
      | None => let h := fresh (dom hs) in Ok (s ++ [mkDesc i opts h], <[h := DefaultRegistryHandler]> hs)
      end
  end.

Definition Alias (sd : ServiceDesc) : list string := ServerOptions.Alias (RegisterOption sd).
Definition serviceNames (sd : ServiceDesc) : list string :=
  match Alias sd with [] => [ServiceRegistry.ServiceName (info sd)] | l => l end.

(** [HttpRules] of the list: one rule, for every name a pattern. *)
Definition grpc_patterns (name : string) : list string := RegistryWithPath ["*"] ("/" +:+ name +:+ "/*").
Definition HttpRules (s : list ServiceDesc) : list (option HttpRule) :=
  [Some (mkHttpRule (s ≫= fun sd => serviceNames sd ≫= grpc_patterns) [] [])].

(** ** In process *)

(** The chains of interceptors of the server, and whether methods recover from panics. *)
Context (ui : UInt) (si : SInt) (recovery : bool).
Definition memory_options (sd : ServiceDesc) : list ServiceRegistry.option_func :=
  [ServiceRegistry.WithAliasNames (Alias sd); ServiceRegistry.WithUnaryInterceptor ui; ServiceRegistry.WithStreamInterceptor si;
   ServiceRegistry.WithAliasOnly (ServerOptions.AliasOnly (RegisterOption sd))].
Definition MemoryRegister (m : MemoryRegistry) (sd : ServiceDesc) : MemoryRegistry * ServiceRegistry.result unit :=
  ServiceRegistry.RegisterWithServiceInfo TypeOf recovery m (info sd) (memory_options sd).
Definition MemoryUnregister (s : list ServiceDesc) (m : MemoryRegistry) : MemoryRegistry :=
  foldl (fun m sd => ServiceRegistry.UnregisterWithServiceInfo m (info sd) (Alias sd)) m s.

(** ** In the registry *)

Definition grpc_meta (withTls : bool) : option string := MarshalRegistryMeta Marshal (mkMeta withTls [] 0 RegistryType_Grpc []).

(** The checks of [registerService] for one name against the services that were listed. *)
Definition conflicts (withTls : bool) (i : Instance) : Prop :=
  match imeta i ≫= UnmarshalRegistryMeta Unmarshal with Some m => TlsServer m <> withTls | None => False end.
#[export] Instance conflicts_dec withTls i : Decision (conflicts withTls i).
Proof. unfold conflicts. destruct (_ ≫= _); apply _. Defined.
Definition find_conflict (serviceList : list Entry) (withTls : bool) (serviceName : string) : option Instance :=
  '(_, e) ← list_find (fun e => Discovery.ServiceName e = serviceName) serviceList;
  snd <$> list_find (conflicts withTls) (Instances e).
Definition conflict_error (serviceName : string) : string := "try to start " +:+ serviceName +:+ " with different tls config".

Fixpoint register_names (serviceList : list Entry) (withTls : bool) (addr metaJson : string) (names : list string) (r : registry)
  : registry * option string :=
  match names with
  | [] => (r, None)
  | n :: names =>
      match find_conflict serviceList withTls n with
      | Some _ => (r, Some (conflict_error n))
      | None => register_names serviceList withTls addr metaJson names (MemoryRegistry.RegisterService r n addr metaJson).1
      end
  end.
Definition marshal_error : string := "json".
Definition registerService (sd : ServiceDesc) (live : bool) (addr : string) (withTls : bool) (r : registry) : registry * option string :=
  if negb live || IsPipeAddress addr then (r, None)
  else match grpc_meta withTls with
       | None => (r, Some marshal_error)
       | Some metaJson => register_names (registry_entries r) withTls addr metaJson (serviceNames sd) r
       end.
Definition unregisterService (sd : ServiceDesc) (live : bool) (addr : string) (r : registry) : registry :=
  if negb live || IsPipeAddress addr then r
  else foldl (fun r n => (MemoryRegistry.UnregisterService r n addr).1) r (serviceNames sd).

(** [Register] and [Unregister] of a handler. *)
Definition Register (s : list ServiceDesc) (h : handler) (r : registry) : registry * option string :=
  match h with
  | Impl _ None => (r, None)
  | Impl _ (Some c) => match s !! c_sd c with Some sd => registerService sd (c_live c) (c_addr c) (c_tls c) r | None => (r, None) end
  | Foreign _ e => (r, e)
  end.
Definition Unregister (s : list ServiceDesc) (h : handler) (r : registry) : registry :=
  match h with
  | Impl _ (Some c) => match s !! c_sd c with Some sd => unregisterService sd (c_live c) (c_addr c) r | None => r end
  | _ => r
  end.

(** [GrpcServiceRegistryHandler] *)
Definition Prepare_handlers (s : list ServiceDesc) (live : bool) (addr : string) (withTls : bool) (hs : handlers) : handlers :=
  foldl (fun hs p => alter (PrepareRegister (mkClosure p.1 live addr withTls)) (registryHandler p.2) hs) hs (imap pair s).
Fixpoint RegisterServices (s all : list ServiceDesc) (hs : handlers) (r : registry) : registry * option string :=
  match s with
  | [] => (r, None)
  | sd :: s =>
      match hs !! registryHandler sd with
      | Some h =>
          if IsInitialRegister h then
            match Register all h r with (r, None) => RegisterServices s all hs r | (r, Some e) => (r, Some e) end
          else RegisterServices s all hs r
      | None => RegisterServices s all hs r
      end
  end.
Definition UnregisterServices (s : list ServiceDesc) (hs : handlers) (r : registry) : registry :=
  foldl (fun r sd => match hs !! registryHandler sd with Some h => Unregister s h r | None => r end) r s.

(** ** Starting the services ([grpcServiceHook]) *)

(** Where the goroutine of a service is. *)
Inductive stage :=
| SHook | SMemory | SFinalizer | SRegister
| SList (c : closure) (metaJson : string)
| SNames (c : closure) (metaJson : string) (serviceList : list Entry) (names : list string)
| SDone
| SFatal (e : string).

(** [hooks_done]: the services whose hook, if they have one, ended without an error;
    [unregister_hooks]: those with a hook for the end of the process. *)
Record world := mkWorld { reg : registry; mem : MemoryRegistry; stages : list stage; hooks_done : list nat; unregister_hooks : list nat }.

(** A routine takes a step ([hook]: what [InvokeWithTimeout] answers for the start hook), or
    somebody else uses the registry. *)
Inductive label := LRoutine (i : nat) (hook : option string) | LOther (o : MemoryRegistry.op).

Definition set_stage (w : world) (i : nat) (st : stage) : world :=
  mkWorld (reg w) (mem w) (<[i := st]> (stages w)) (hooks_done w) (unregister_hooks w).
Definition set_reg (w : world) (r : registry) : world := mkWorld r (mem w) (stages w) (hooks_done w) (unregister_hooks w).

Definition mem_error (e : ServiceRegistry.result unit) : option string :=
  match e with ServiceRegistry.Ok _ => None | ServiceRegistry.Err _ => Some "memory registry" | ServiceRegistry.Panic => Some "panic" end.

Definition routine_step (s : list ServiceDesc) (hs : handlers) (i : nat) (sd : ServiceDesc) (hook : option string) (w : world) (st : stage) : world :=
  match st with
  | SHook =>
      let ok := mkWorld (reg w) (mem w) (<[i := SMemory]> (stages w)) (hooks_done w ++ [i]) (unregister_hooks w) in
      match ServerOptions.ServiceStartHook (RegisterOption sd) with
      | None => ok
      | Some _ => match hook with None => ok | Some e => set_stage w i (SFatal e) end
      end
  | SMemory =>
      let '(m, e) := MemoryRegister (mem w) sd in
      mkWorld (reg w) m (<[i := match mem_error e with None => SFinalizer | Some e => SFatal e end]> (stages w)) (hooks_done w) (unregister_hooks w)
  | SFinalizer =>
      let st := match hs !! registryHandler sd with Some h => if IsInitialRegister h then SRegister else SDone | None => SDone end in
      mkWorld (reg w) (mem w) (<[i := st]> (stages w)) (hooks_done w) (unregister_hooks w ++ [i])
  | SRegister =>
      set_stage w i
        (match hs !! registryHandler sd with
         | Some (Impl _ (Some c)) =>
             if negb (c_live c) || IsPipeAddress (c_addr c) then SDone
             else match grpc_meta (c_tls c) with None => SFatal marshal_error | Some j => SList c j end
         | Some (Foreign _ (Some e)) => SFatal e
         | _ => SDone
         end)
  | SList c j =>
      set_stage w i (SNames c j (registry_entries (reg w)) (match s !! c_sd c with Some sd => serviceNames sd | None => [] end))
  | SNames c j l [] => set_stage w i SDone
  | SNames c j l (n :: names) =>
      match find_conflict l (c_tls c) n with
      | Some _ => set_stage w i (SFatal (conflict_error n))
      | None => set_stage (set_reg w (MemoryRegistry.RegisterService (reg w) n (c_addr c) j).1) i (SNames c j l names)
      end
  | SDone | SFatal _ => w
  end.
Definition do_step (s : list ServiceDesc) (hs : handlers) (w : world) (l : label) : world :=
  match l with
  | LRoutine i hook => match s !! i, stages w !! i with Some sd, Some st => routine_step s hs i sd hook w st | _, _ => w end
  | LOther o => set_reg w (MemoryRegistry.apply_op (reg w) o).1
  end.

(** [Prepare]: the services are taken out of the process and started. *)
Definition start (s : list ServiceDesc) (r : registry) (m : MemoryRegistry) : world :=
  mkWorld r (MemoryUnregister s m) (replicate (length s) SHook) [] [].
Definition run (s : list ServiceDesc) (live : bool) (addr : string) (withTls : bool) (hs : handlers) (r : registry) (m : MemoryRegistry)
    (ls : list label) : world :=
  foldl (do_step s (Prepare_handlers s live addr withTls hs)) (start s r m) ls.

(** ** The registry *)

(** What is registered for a service at an address. *)
Definition at_addr (r : registry) (n a : string) : option string := default ∅ (r !! n) !! a.

(** The operations that may change what is registered for a service at an address. *)
Definition touches (n a : string) (o : MemoryRegistry.op) : Prop :=
  match o with
  | MemoryRegistry.Register s a' _ => s = n /\ a' = a
  | MemoryRegistry.Unregister s a' => s = n /\ (a' = a \/ a' = "")
  | MemoryRegistry.RegisterEntries ss _ => n ∈ ss
  end.
Lemma service_step_other es n ss r nm : n ∉ ss ->
  default ∅ ((foldl (MemoryRegistry.service_step es) (r, nm) ss).1 !! n) = default ∅ (r !! n).
Proof.
  clear Unmarshal. revert r nm. induction ss as [|x ss IH]; intros r nm Hn; [done|]. cbn [foldl]. unfold MemoryRegistry.service_step at 2.
  destruct (foldl _ _ es) as [[? ?] ?]. rewrite IH by set_solver. rewrite MemoryRegistry.store_lookup. by rewrite decide_False by set_solver.
Qed.
Lemma untouched r o n a : ~ touches n a o -> at_addr (MemoryRegistry.apply_op r o).1 n a = at_addr r n a.
Proof.
  clear Unmarshal. unfold at_addr. destruct o as [s a' m|s a'|ss es]; cbn; intros Ht.
  - rewrite lookup_insert_case. case_decide as Hs; [|done]. subst s. cbn. rewrite lookup_insert_ne by tauto. done.
  - unfold MemoryRegistry.UnregisterService. destruct (r !! s) as [m|] eqn:Hm; [|done].
    destruct (decide (s = n)) as [->|Hne].
    + rewrite bool_decide_eq_false_2 by tauto. cbn. rewrite MemoryRegistry.store_lookup, decide_True, Hm by done. cbn.
      by rewrite lookup_delete_ne by tauto.
    + case_bool_decide; cbn; [by rewrite lookup_delete_ne|]. by rewrite MemoryRegistry.store_lookup, decide_False.
  - pose proof (service_step_other es n ss r [] Ht) as H. unfold MemoryRegistry.RegisterServiceWithEntries.
    destruct (foldl _ _ ss) as [r' nm]. cbn in *. by rewrite H.
Qed.
Lemma registered_at r n a j n' a' :
  at_addr (MemoryRegistry.RegisterService r n a j).1 n' a' = if decide (n' = n /\ a' = a) then Some j else at_addr r n' a'.
Proof.
  unfold at_addr. cbn. rewrite lookup_insert_case. destruct (decide (n = n')) as [->|Hn]; cbn.
  - rewrite lookup_insert_case. destruct (decide (a = a')) as [->|Ha]; [by rewrite decide_True|]. by rewrite decide_False by (intros [_ ?]; congruence).
  - by rewrite decide_False by (intros [? _]; congruence).
Qed.

Lemma find_conflict_some l tls n i : find_conflict l tls n = Some i ->
  exists e, e ∈ l /\ Discovery.ServiceName e = n /\ i ∈ Instances e /\ conflicts tls i.
Proof.
  unfold find_conflict. destruct (list_find _ l) as [[k e]|] eqn:He; [|done]. cbn.
  destruct (list_find (conflicts tls) _) as [[k' i']|] eqn:Hi; [|done]. cbn. intros [= ->].
  apply list_find_Some in He as (He & <- & _), Hi as (Hi & Hc & _). exists e. split_and!; [by eapply list_elem_of_lookup_2|done|by eapply list_elem_of_lookup_2|done].
Qed.
(** No instance of the service has another TLS setting. *)
Definition agree (tls : bool) (r : registry) (n : string) : Prop :=
  forall a m, at_addr r n a = Some m -> ~ conflicts tls (mkInstance a (Some m)).
Lemma agree_no_conflict tls r n : agree tls r n -> find_conflict (registry_entries r) tls n = None.
Proof.
  intros Ha. destruct (find_conflict _ _ _) as [i|] eqn:Hf; [|done]. apply find_conflict_some in Hf as (e & He & <- & Hi & Hc).
  apply registry_entries_elem in He as (n & m & Hm & _ & ->). cbn in Hi. apply list_elem_of_fmap in Hi as ([a x] & -> & Hx).
  apply MemoryRegistry.elem_instance_list in Hx. exfalso. apply (Ha a x); [|done]. unfold at_addr. cbn. by rewrite Hm.
Qed.

(** ** The registry of the process *)

Notation names sd := (ServiceRegistry.names (info sd) (ServiceRegistry.mkOptions (Alias sd) (Some ui) (Some si) (ServerOptions.AliasOnly (RegisterOption sd)))).
Notation wrapper sd := (ServiceRegistry.make_wrapper TypeOf recovery (info sd)
  (ServiceRegistry.mkOptions (Alias sd) (Some ui) (Some si) (ServerOptions.AliasOnly (RegisterOption sd)))).
(** The methods of the service are found under all its names. *)
Definition found (m : MemoryRegistry) (sd : ServiceDesc) : Prop :=
  (wrapper sd).2 = ServiceRegistry.Ok tt /\ forall n, n ∈ names sd -> ServiceRegistry.QueryServiceInfo m n = Some (wrapper sd).1.

Lemma free_query (m : MemoryRegistry) n : ServiceRegistry.wf m ->
  ServiceRegistry.QueryServiceInfo m n = None <-> ServiceRegistry.srvRegistryInfo m !! n = None.
Proof.
  intros Hwf. unfold ServiceRegistry.QueryServiceInfo. destruct (ServiceRegistry.srvRegistryInfo m !! n) as [p|] eqn:Hp; [|done]. cbn.
  apply Hwf, lookup_lt_is_Some_2 in Hp as [w ->]. done.
Qed.
Lemma register_keeps m sd n w : ServiceRegistry.wf m ->
  ServiceRegistry.QueryServiceInfo m n = Some w -> ServiceRegistry.QueryServiceInfo (MemoryRegister m sd).1 n = Some w.
Proof.
  intros Hwf Hq. unfold MemoryRegister, ServiceRegistry.RegisterWithServiceInfo. cbn [ServiceRegistry.apply_options memory_options].
  assert (Hk : forall ns m' w', ServiceRegistry.took (length (ServiceRegistry.wrappers m)) ns (ServiceRegistry.srvRegistryInfo m) m' ->
    ServiceRegistry.QueryServiceInfo (ServiceRegistry.mkMemoryRegistry m' (ServiceRegistry.wrappers m ++ [w'])) n = Some w).
  { intros ns m' w' Ht. rewrite (ServiceRegistry.query_took _ _ _ _ _ _ Hwf eq_refl Ht), decide_False; [done|].
    intros Hin. apply Ht, free_query in Hin; [congruence|done]. }
  cbn. destruct (ServiceRegistry.register_names _ _ _ _) as [m' [[]|e|]] eqn:Hn; apply ServiceRegistry.register_names_spec in Hn; [| |done].
  - destruct Hn as [_ Ht]. destruct (ServiceRegistry.make_wrapper _ _ _ _). by eapply Hk.
  - destruct Hn as (ns1 & x & ns2 & _ & _ & Ht & _). by eapply Hk.
Qed.
Lemma register_found m sd m' : ServiceRegistry.wf m -> MemoryRegister m sd = (m', ServiceRegistry.Ok tt) ->
  found m' sd /\ (forall n, n ∉ names sd -> ServiceRegistry.QueryServiceInfo m' n = ServiceRegistry.QueryServiceInfo m n).
Proof.
  intros Hwf. unfold MemoryRegister, ServiceRegistry.RegisterWithServiceInfo, found. cbn.
  destruct (ServiceRegistry.register_names _ _ _ _) as [m1 [[]|e|]] eqn:Hn; [|done..].
  apply ServiceRegistry.register_names_spec in Hn as [Hnd Ht]. destruct (ServiceRegistry.make_wrapper _ _ _ _) as [w res]. intros [= <- ->].
  split; [split; [done|]|]; intros n Hin; rewrite (ServiceRegistry.query_took _ _ _ _ _ _ Hwf eq_refl Ht).
  - by rewrite decide_True.
  - by rewrite decide_False.
Qed.
(** Nothing stands against a registration under names that are free. *)
Lemma register_free m sd : ServiceRegistry.wf m -> NoDup (names sd) -> (wrapper sd).2 = ServiceRegistry.Ok tt ->
  (forall n, n ∈ names sd -> ServiceRegistry.QueryServiceInfo m n = None) -> (MemoryRegister m sd).2 = ServiceRegistry.Ok tt.
Proof.
  intros Hwf Hnd Hw Hfree. unfold MemoryRegister, ServiceRegistry.RegisterWithServiceInfo. cbn.
  destruct (ServiceRegistry.register_names _ _ _ _) as [m1 [[]|e|]] eqn:Hn; apply ServiceRegistry.register_names_spec in Hn; [| |done].
  - by destruct (ServiceRegistry.make_wrapper _ _ _ _) as [w res].
  - exfalso. destruct Hn as (ns1 & n & ns2 & Hns & _ & Ht & [p Hp] & _). rewrite Hns in Hnd, Hfree.
    apply NoDup_app in Hnd as (_ & Hd & _). destruct (Ht n) as [_ Ht']. rewrite Ht', decide_False in Hp by (intros Hin; apply (Hd n Hin); set_solver).
    specialize (Hfree n ltac:(set_solver)). apply free_query in Hfree; [congruence|done].
Qed.
Lemma unregistered_wf sds m : ServiceRegistry.wf m -> ServiceRegistry.wf (MemoryUnregister sds m).
Proof.
  intros Hwf. unfold MemoryUnregister. apply foldl_ind; [done|]. intros m' sd _ Hm n p. cbn. intros Hp. apply (Hm n).
  revert Hp. generalize (ServiceRegistry.ServiceName (info sd)) as x. intros x. assert (Hd : forall l (q : gmap string nat), foldl (fun m name => delete name m) q l !! n = Some p -> q !! n = Some p).
  { induction l as [|y l IH]; intros q; cbn; [done|]. intros Hq%IH. rewrite lookup_delete_case in Hq. by case_decide. }
  intros Hp%Hd. rewrite lookup_delete_case in Hp. by case_decide.
Qed.
Lemma unregistered_query sds m n :
  ServiceRegistry.QueryServiceInfo (MemoryUnregister sds m) n = None \/ ServiceRegistry.QueryServiceInfo (MemoryUnregister sds m) n = ServiceRegistry.QueryServiceInfo m n.
Proof.
  revert m. induction sds as [|sd sds IH]; intros m; [by right|]. cbn. destruct (IH (ServiceRegistry.UnregisterWithServiceInfo m (info sd) (Alias sd))) as [H|H]; [by left|].
  unfold MemoryUnregister in H. rewrite H, ServiceRegistry.unregister_query. case_decide; auto.
Qed.
Lemma unregistered_free sds m sd n : sd ∈ sds -> n ∈ names sd -> ServiceRegistry.QueryServiceInfo (MemoryUnregister sds m) n = None.
Proof.
  intros Hsd Hn. revert m. induction Hsd as [sd sds|sd sd' sds _ IH]; intros m; cbn; [|by apply IH].
  destruct (unregistered_query sds (ServiceRegistry.UnregisterWithServiceInfo m (info sd) (Alias sd)) n) as [H|H]; [done|].
  unfold MemoryUnregister in H. rewrite H, ServiceRegistry.unregister_query, decide_True; [done|].
  unfold ServiceRegistry.names in Hn. cbn in Hn. apply elem_of_app in Hn as [Hn|[_ Hn]%list_elem_of_filter]; [|by right].
  left. destruct (ServerOptions.AliasOnly _); set_solver.
Qed.

(** ** What the routines keep *)

Section start.
Context (sds : list ServiceDesc) (live : bool) (addr : string) (tls : bool) (hs : handlers) (r0 : registry) (m0 : MemoryRegistry).
Notation hs' := (Prepare_handlers sds live addr tls hs).
Notation own i := (mkClosure i live addr tls).
Notation our_names := (sds ≫= serviceNames).

(** Services may share a handler; what it registers then is the last of them. *)
Definition speaks_for (l : list ServiceDesc) (h k : nat) (sd : ServiceDesc) : Prop :=
  l !! k = Some sd /\ registryHandler sd = h /\ forall k' sd', k < k' -> l !! k' = Some sd' -> registryHandler sd' <> h.
Lemma prepared_all (l : list ServiceDesc) (h : handlers) q : q ∈ registryHandler <$> l ->
  match h !! q with
  | Some (Impl b c) => exists k sd, speaks_for l q k sd /\ Prepare_handlers l live addr tls h !! q = Some (Impl b (Some (own k)))
  | x => Prepare_handlers l live addr tls h !! q = x
  end.
Proof.
  unfold Prepare_handlers. induction l as [|sd l IH] using rev_ind; [by intros ?%elem_of_nil|]. intros Hq.
  rewrite imap_app, foldl_app. cbn [imap foldl fst snd]. rewrite Nat.add_0_r. set (h' := foldl _ h (imap pair l)) in *.
  assert (Hout : q ∉ registryHandler <$> l -> h' !! q = h !! q).
  { clear. unfold h'. induction l as [|x l IH] using rev_ind; [done|]. rewrite fmap_app, not_elem_of_app, imap_app, foldl_app. intros [Hq Hx].
    cbn [imap foldl fst snd]. rewrite lookup_alter_ne by set_solver. by apply IH. }
  destruct (decide (registryHandler sd = q)) as [Hsd|Hsd].
  - assert (Hh' : match h !! q with Some (Impl b c) => exists c', h' !! q = Some (Impl b c') | x => h' !! q = x end).
    { destruct (decide (q ∈ registryHandler <$> l)) as [Hin|Hin].
      - specialize (IH Hin). destruct (h !! q) as [[b c|i e]|]; [|done..]. destruct IH as (? & ? & _ & ->). eauto.
      - rewrite (Hout Hin). destruct (h !! q) as [[b c|i e]|]; eauto. }
    rewrite Hsd, lookup_alter_eq. destruct (h !! q) as [[b c|i e]|]; [|by rewrite Hh'..]. destruct Hh' as [c' ->]. cbn.
    exists (length l), sd. split; [|done]. split_and!; [by apply list_lookup_middle|done|]. intros k' sd' Hk Hsd'.
    apply lookup_lt_Some in Hsd'. rewrite length_app in Hsd'. cbn in Hsd'. lia.
  - assert (Hin : q ∈ registryHandler <$> l) by (rewrite fmap_app, elem_of_app in Hq; cbn in Hq; set_solver).
    specialize (IH Hin). rewrite lookup_alter_ne by done. destruct (h !! q) as [[b c|i e]|]; [|done..].
    destruct IH as (k & sdk & (Hk & Hkq & Hlast) & Hh). exists k, sdk. split; [|done]. split_and!; [|done|].
    + rewrite lookup_app_l; [done|]. by eapply lookup_lt_Some.
    + intros k' sd' Hlt. rewrite lookup_app. destruct (l !! k') as [x|] eqn:Hx; [intros [= <-]; by apply (Hlast k')|].
      intros Hs. apply list_lookup_singleton_Some in Hs as [_ <-]. done.
Qed.
Lemma prepared i sd : sds !! i = Some sd ->
  match hs !! registryHandler sd with
  | Some (Impl b c) => exists k sdk, speaks_for sds (registryHandler sd) k sdk /\ hs' !! registryHandler sd = Some (Impl b (Some (own k)))
  | x => hs' !! registryHandler sd = x
  end.
Proof. intros Hi. apply prepared_all. apply list_elem_of_fmap. exists sd. split; [done|]. by eapply list_elem_of_lookup_2. Qed.

(** What has been reached stays: hooks that ran, methods that are found, names that are
    announced with the metadata of the server. *)
Definition later (w w' : world) : Prop :=
  hooks_done w ⊆ hooks_done w' /\ unregister_hooks w ⊆ unregister_hooks w' /\
  (forall n x, ServiceRegistry.QueryServiceInfo (mem w) n = Some x -> ServiceRegistry.QueryServiceInfo (mem w') n = Some x) /\
  (forall n j, n ∈ our_names -> grpc_meta tls = Some j -> at_addr (reg w) n addr = Some j -> at_addr (reg w') n addr = Some j).
Definition started (w : world) (i : nat) (sd : ServiceDesc) : Prop := i ∈ hooks_done w /\ found (mem w) sd.
Definition announced (w : world) (ns : list string) : Prop :=
  exists j, grpc_meta tls = Some j /\ forall n, n ∈ ns -> at_addr (reg w) n addr = Some j.
Definition stage_ok (w : world) (i : nat) (sd : ServiceDesc) (st : stage) : Prop :=
  match st with
  | SHook | SFatal _ => True
  | SMemory => i ∈ hooks_done w
  | SFinalizer => started w i sd
  | SRegister => started w i sd /\ i ∈ unregister_hooks w
  | SList c j => started w i sd /\ i ∈ unregister_hooks w /\ grpc_meta tls = Some j /\
      exists k sdk, speaks_for sds (registryHandler sd) k sdk /\ c = own k
  | SNames c j l ns => started w i sd /\ i ∈ unregister_hooks w /\ grpc_meta tls = Some j /\
      exists k sdk, speaks_for sds (registryHandler sd) k sdk /\ c = own k /\ exists ns', serviceNames sdk = ns' ++ ns /\ announced w ns'
  | SDone => started w i sd /\ i ∈ unregister_hooks w /\
      forall c, hs !! registryHandler sd = Some (Impl true c) -> live = true ->
      exists k sdk, speaks_for sds (registryHandler sd) k sdk /\ announced w (serviceNames sdk)
  end.
(** What is registered at the address of the server, under a name of its services, was there
    before or is that of a service with whose handler a service has started. *)
Definition entry_ok (w : world) (n m : string) : Prop :=
  at_addr r0 n addr = Some m \/
  exists k sdk i sd, sds !! k = Some sdk /\ n ∈ serviceNames sdk /\ grpc_meta tls = Some m /\
    sds !! i = Some sd /\ registryHandler sd = registryHandler sdk /\ started w i sd.
Definition inv (w : world) : Prop :=
  ServiceRegistry.wf (mem w) /\ length (stages w) = length sds /\
  (forall i sd st, sds !! i = Some sd -> stages w !! i = Some st -> stage_ok w i sd st) /\
  forall n m, n ∈ our_names -> at_addr (reg w) n addr = Some m -> entry_ok w n m.

#[local] Instance later_refl : Reflexive later.
Proof. done. Qed.
Lemma names_ours i sd n : sds !! i = Some sd -> n ∈ serviceNames sd -> n ∈ our_names.
Proof. intros Hi Hn. apply list_elem_of_bind. exists sd. split; [done|]. by eapply list_elem_of_lookup_2. Qed.
Lemma later_started w w' i sd : later w w' -> started w i sd -> started w' i sd.
Proof. intros (Hh & _ & Hq & _) (Hi & Hw & Hf). split; [by apply Hh|]. split; [done|]. intros n Hn. by apply Hq, Hf. Qed.
Lemma later_announced w w' i sd ns : later w w' -> sds !! i = Some sd -> ns ⊆ serviceNames sd -> announced w ns -> announced w' ns.
Proof.
  intros (_ & _ & _ & Ha) Hi Hns (j & Hj & Hn). exists j. split; [done|]. intros n Hin. apply Ha; [|done|by apply Hn].
  by eapply names_ours, Hns.
Qed.
Lemma later_stage w w' i sd st : later w w' -> sds !! i = Some sd -> stage_ok w i sd st -> stage_ok w' i sd st.
Proof.
  intros Hl Hi. pose proof (later_started w w' i sd Hl) as Hs. pose proof Hl as (Hh & Hu & _).
  destruct st; cbn; try done; [by apply Hh|intros []; auto|intros (? & ? & ? & ?); split_and!; auto| |].
  - intros (? & ? & ? & k & sdk & Hk & ? & ns' & Hns & ?). split_and!; [auto..|]. exists k, sdk. split_and!; [done..|]. exists ns'. split; [done|].
    eapply later_announced; [done|apply Hk| |done]. rewrite Hns. set_solver.
  - intros (? & ? & Ha). split_and!; [auto..|]. intros c Hc Hlive. destruct (Ha c Hc Hlive) as (k & sdk & Hk & ?). exists k, sdk. split; [done|].
    by eapply later_announced; [done|apply Hk| |].
Qed.
Lemma later_entry w w' n m : later w w' -> entry_ok w n m -> entry_ok w' n m.
Proof.
  intros Hl [?|(k & sdk & i & sd & ? & ? & ? & ? & ? & ?)]; [by left|]. right. exists k, sdk, i, sd. split_and!; [done..|by eapply later_started].
Qed.

(** A step that puts routine [i] into another stage. *)
Lemma inv_step w w' i st : inv w -> later w w' -> ServiceRegistry.wf (mem w') -> stages w' = <[i := st]> (stages w) ->
  (forall sd, sds !! i = Some sd -> stage_ok w' i sd st) ->
  (forall n m, n ∈ our_names -> at_addr (reg w') n addr = Some m -> at_addr (reg w) n addr = Some m \/ entry_ok w' n m) -> inv w'.
Proof.
  intros (_ & Hlen & Hst & Hreg) Hl Hwf Hs Hi Hn. split_and!; [done|by rewrite Hs, length_insert| |].
  - intros k sd st' Hk. rewrite Hs. intros [(-> & -> & _)|[_ Hk']]%list_lookup_insert_Some; [by apply Hi|].
    eapply later_stage; [done..|by apply Hst].
  - intros n m Hin Hm. destruct (Hn n m Hin Hm) as [Hm'|?]; [|done]. by eapply later_entry, Hreg.
Qed.
Lemma inv_set_stage w i sd st : inv w -> sds !! i = Some sd -> stage_ok w i sd st -> inv (set_stage w i st).
Proof.
  intros Hinv Hi Hs. apply (inv_step w (set_stage w i st) i st); [done|done|apply Hinv|done| |by left].
  intros sd' ?. simplify_eq. by destruct st.
Qed.

Definition label_ok (l : label) : Prop :=
  match l with LOther o => forall n, n ∈ our_names -> ~ touches n addr o | LRoutine _ _ => True end.

Lemma routine_inv w i sd hook st : inv w -> sds !! i = Some sd -> stages w !! i = Some st ->
  inv (routine_step sds hs' i sd hook w st).
Proof.
  intros Hinv Hi Hst. pose proof Hinv as (Hwf & _ & Hok & _). specialize (Hok i sd st Hi Hst).
  pose proof (prepared i sd Hi) as Hh. destruct st as [| | | |c j|c j l [|n ns]| |e]; cbn [routine_step]; [..|done|done].
  - assert (Hdone : inv (mkWorld (reg w) (mem w) (<[i := SMemory]> (stages w)) (hooks_done w ++ [i]) (unregister_hooks w))).
    { eapply inv_step; [done| |done|done| |by left]; [split_and!; cbn; set_solver|]. intros sd' ?. cbn. set_solver. }
    destruct (ServerOptions.ServiceStartHook _); [|done]. destruct hook; [by eapply inv_set_stage|done].
  - destruct (MemoryRegister (mem w) sd) as [m e] eqn:Hm. pose proof (ServiceRegistry.register_wf TypeOf recovery (mem w) (info sd) (memory_options sd) Hwf) as Hwf'.
    unfold MemoryRegister in Hm. rewrite Hm in Hwf'. eapply inv_step; [done| |done|done| |by left].
    + split_and!; [done..| |done]. intros n x Hq. cbn. pose proof (register_keeps (mem w) sd n x Hwf Hq) as Hk. unfold MemoryRegister in Hk. by rewrite Hm in Hk.
    + intros sd' ?. simplify_eq. destruct e as [[]| |]; cbn; [|done..]. split; [done|]. by eapply (register_found (mem w)).
  - eapply inv_step; [done| |done|done| |by left]; [split_and!; cbn; set_solver|]. intros sd' ?. simplify_eq.
    destruct (hs !! registryHandler sd) as [[b c|b e]|] eqn:Hq.
    + destruct Hh as (k & sdk & _ & ->). cbn. destruct b; cbn; [split; [done|set_solver]|]. split; [done|]. split; [set_solver|]. intros; congruence.
    + rewrite Hh. cbn. destruct b; cbn; [split; [done|set_solver]|]. split; [done|]. split; [set_solver|]. intros; congruence.
    + rewrite Hh. cbn. split; [done|]. split; [set_solver|]. intros; congruence.
  - apply (inv_set_stage w i sd); [done..|]. destruct Hok as [Hs Hu]. destruct (hs !! registryHandler sd) as [[b c|b e]|] eqn:Hq.
    + destruct Hh as (k & sdk & Hk & ->). cbn. destruct live eqn:El; cbn; [|split; [exact Hs|split; [exact Hu|congruence]]].
      destruct (grpc_meta tls) eqn:Hj; cbn; [|done]. split; [exact Hs|]. split; [exact Hu|]. split; [done|]. exists k, sdk. by rewrite El.
    + rewrite Hh. destruct e; cbn; [done|]. split; [exact Hs|]. split; [done|congruence].
    + rewrite Hh. cbn. split; [exact Hs|]. split; [done|congruence].
  - apply (inv_set_stage w i sd); [done..|]. cbn in *. destruct Hok as (? & ? & ? & k & sdk & Hk & ->). cbn. rewrite (proj1 Hk). split_and!; [done..|].
    exists k, sdk. split_and!; [done..|]. exists []. split; [done|]. exists j. split; [done|]. by intros n ?%elem_of_nil.
  - apply (inv_set_stage w i sd); [done..|]. cbn in *. destruct Hok as (? & ? & ? & k & sdk & Hk & -> & ns' & Hns & ?). rewrite app_nil_r in Hns. subst ns'.
    split_and!; [done..|]. intros. by exists k, sdk.
  - destruct (find_conflict _ _ _); [by eapply inv_set_stage|]. destruct Hok as (Hs & Hu & Hj & k & sdk & Hk & -> & ns' & Hns & Ha). cbn [c_addr].
    eapply inv_step; [done| |done|done|..].
    + split_and!; [done..|]. intros n' j' Hn' Hj' Hr. cbn [reg set_reg set_stage]. rewrite registered_at. case_decide; [congruence|done].
    + intros sd' ?. simplify_eq. cbn [stage_ok]. split_and!; [done..|]. exists k, sdk. split_and!; [done..|]. exists (ns' ++ [n]). rewrite <- app_assoc. split; [done|].
      destruct Ha as (j' & Hj' & Ha). exists j. split; [done|]. intros n' [Hn'| ->%list_elem_of_singleton]%elem_of_app;
        cbn [reg set_reg set_stage]; rewrite registered_at; [|by rewrite decide_True]. case_decide; [done|]. rewrite Ha by done. congruence.
    + intros n' m' _. cbn [reg set_reg set_stage]. rewrite registered_at. case_decide as Hc; [|by left]. intros [= <-]. right. right.
      destruct Hc as [-> _]. exists k, sdk, i, sd. split_and!; [apply Hk|rewrite Hns; set_solver|done|done|symmetry; apply Hk|done].
Qed.
Lemma turn_inv w l : label_ok l -> inv w -> inv (do_step sds hs' w l).
Proof.
  intros Hl Hinv. destruct l as [i hook|o]; cbn.
  - destruct (sds !! i) as [sd|] eqn:Hi; [|done]. destruct (stages w !! i) as [st|] eqn:Hst; [|done]. by apply routine_inv.
  - destruct Hinv as (Hwf & Hlen & Hst & Hreg). cbn in Hl. assert (later w (set_reg w (MemoryRegistry.apply_op (reg w) o).1)) as Hlater.
    { split_and!; [done..|]. intros n j Hn _ Ha. cbn. by rewrite untouched by auto. }
    split_and!; [done|done| |].
    + intros i sd st Hi Hs. eapply later_stage; [done..|by apply Hst].
    + intros n m Hn. cbn. rewrite untouched by auto. intros Hm. by eapply later_entry, Hreg.
Qed.
Lemma started_inv : ServiceRegistry.wf m0 -> inv (start sds r0 m0).
Proof.
  intros Hwf. split_and!; [by apply unregistered_wf|apply length_replicate| |by left].
  intros i sd st Hi Hs. cbn in Hs. apply lookup_replicate in Hs as [-> _]. done.
Qed.
Lemma turns_inv ls : ServiceRegistry.wf m0 -> Forall label_ok ls -> inv (run sds live addr tls hs r0 m0 ls).
Proof.
  intros Hwf Hls. unfold run. apply foldl_ind; [by apply started_inv|]. intros w l Hin Hw. apply turn_inv; [|done].
  rewrite Forall_forall in Hls. by apply Hls.
Qed.

(** ** The routines end *)

Definition work (k : nat) (st : stage) : nat :=
  match st with
  | SHook => 6 + k | SMemory => 5 + k | SFinalizer => 4 + k | SRegister => 3 + k | SList _ _ => 2 + k
  | SNames _ _ _ ns => S (length ns)
  | SDone | SFatal _ => 0
  end.
Fixpoint turns (i : nat) (ls : list label) : nat :=
  match ls with
  | [] => 0
  | LRoutine k _ :: ls => (if decide (k = i) then 1 else 0) + turns i ls
  | LOther _ :: ls => turns i ls
  end.

(** A bound for the names that are registered with the handler of a service. *)
Definition most (sd : ServiceDesc) (m : nat) : Prop :=
  forall k sdk, sds !! k = Some sdk -> registryHandler sdk = registryHandler sd -> length (serviceNames sdk) <= m.
Lemma routine_work w i sd hook st : inv w -> sds !! i = Some sd -> stages w !! i = Some st ->
  exists st', stages (routine_step sds hs' i sd hook w st) = <[i := st']> (stages w) /\ forall m, most sd m -> work m st' <= pred (work m st).
Proof.
  intros Hinv Hi Hst. pose proof Hinv as (_ & _ & Hok & _). specialize (Hok i sd st Hi Hst).
  destruct st as [| | | |c j|c j l [|n ns]| |e]; cbn [routine_step].
  - destruct (ServerOptions.ServiceStartHook _); [destruct hook|]; eexists; (split; [done|]); intros m _; cbn; lia.
  - destruct (MemoryRegister _ _) as [m e]. eexists; (split; [done|]); intros k _; destruct (mem_error e); cbn; lia.
  - eexists; (split; [done|]). intros k _. repeat case_match; cbn; lia.
  - eexists; (split; [done|]). intros k _. repeat case_match; cbn; lia.
  - destruct Hok as (_ & _ & _ & k & sdk & (Hk & Hkh & _) & ->). cbn [c_sd]. rewrite Hk. eexists; (split; [done|]). intros m Hm. specialize (Hm k sdk Hk Hkh). cbn. lia.
  - eexists; (split; [done|]). intros k _. cbn. lia.
  - destruct (find_conflict _ _ _); eexists; (split; [done|]); intros m _; cbn; lia.
  - exists SDone. split; [by rewrite list_insert_id|done].
  - exists (SFatal e). split; [by rewrite list_insert_id|done].
Qed.
Lemma run_work w i sd st m ls : Forall label_ok ls -> inv w -> sds !! i = Some sd -> most sd m -> stages w !! i = Some st ->
  exists st', stages (foldl (do_step sds hs') w ls) !! i = Some st' /\ work m st' <= work m st - turns i ls.
Proof.
  intros Hls Hinv Hi Hm. revert w st Hinv. induction Hls as [|l ls Hl _ IH]; intros w st Hinv Hst; [exists st; cbn; split; [done|lia]|].
  cbn [foldl]. pose proof (turn_inv w l Hl Hinv) as Hinv'. destruct l as [k hook|o]; cbn [turns].
  - cbn [do_step] in *. destruct (sds !! k) as [sdk|] eqn:Hk; [|case_decide as Hd; [by rewrite Hd, Hi in Hk|by apply IH]].
    destruct (stages w !! k) as [stk|] eqn:Hsk; [|case_decide as Hd; [by rewrite Hd, Hst in Hsk|by apply IH]].
    destruct (routine_work w k sdk hook stk Hinv Hk Hsk) as (st' & Hs & Hw). case_decide as Hd.
    + subst k. simplify_eq. specialize (Hw m Hm). destruct (IH _ st' Hinv') as (st2 & Hs2 & Hw2); [|exists st2; split; [done|lia]].
      rewrite Hs. apply list_lookup_insert_eq. by eapply lookup_lt_Some.
    + apply IH; [done|]. by rewrite Hs, list_lookup_insert_ne.
  - by apply IH.
Qed.

(** ** Starts without trouble *)

(** The metadata of the server can be read back, no instance of the services has another TLS
    setting, no two services have a name in the process in common, the methods have types that
    can be called, and handlers that are not the framework's answer without an error. *)
Record smooth : Prop := {
  smooth_meta : exists j, grpc_meta tls = Some j /\ ~ conflicts tls (mkInstance addr (Some j));
  smooth_registry : forall n, n ∈ our_names -> agree tls r0 n;
  smooth_names : NoDup (sds ≫= fun sd => names sd);
  smooth_types : forall sd, sd ∈ sds -> (wrapper sd).2 = ServiceRegistry.Ok tt;
  smooth_handlers : forall sd b e, sd ∈ sds -> hs !! registryHandler sd <> Some (Foreign b (Some e))
}.
Definition smooth_label (l : label) : Prop :=
  match l with
  | LRoutine _ hook => hook = None
  | LOther (MemoryRegistry.Register s a m) => s ∈ our_names -> ~ conflicts tls (mkInstance a (Some m))
  | LOther _ => True
  end.
Definition calm (w : world) : Prop :=
  (forall n, n ∈ our_names -> agree tls (reg w) n) /\
  forall i sd st, sds !! i = Some sd -> stages w !! i = Some st ->
    match st with
    | SHook | SMemory => forall n, n ∈ names sd -> ServiceRegistry.QueryServiceInfo (mem w) n = None
    | SNames _ _ l ns => forall n, n ∈ ns -> find_conflict l tls n = None
    | SFatal _ => False
    | _ => True
    end.

Lemma agree_registered r n a j n' : agree tls r n' -> (n' = n -> ~ conflicts tls (mkInstance a (Some j))) ->
  agree tls (MemoryRegistry.RegisterService r n a j).1 n'.
Proof. intros Ha Hj a' m. rewrite registered_at. case_decide as Hd; [|apply Ha]. destruct Hd as [-> ->]. intros [= <-]. by apply Hj. Qed.
Lemma calm_other w o : label_ok (LOther o) -> smooth_label (LOther o) -> calm w -> calm (do_step sds hs' w (LOther o)).
Proof.
  cbn. intros Hl Hs [Ha Hst]. split; [|exact Hst]. intros n Hn. cbn. destruct o as [s a m|s a|ss es]; cbn [MemoryRegistry.apply_op].
  - apply agree_registered; [by apply Ha|]. intros <-. by apply Hs.
  - intros a' x Hx. apply (Ha n Hn). destruct (decide (touches n a' (MemoryRegistry.Unregister s a))) as [Ht|Ht]; [|by rewrite <- (untouched _ _ _ _ Ht)].
    exfalso. revert Hx. destruct Ht as [-> Ht]. unfold at_addr, MemoryRegistry.UnregisterService.
    destruct (reg w !! n) as [m|] eqn:Hm; [|cbn; rewrite Hm; cbn; by rewrite lookup_empty]. destruct Ht as [->| ->].
    + case_bool_decide; cbn; [rewrite lookup_delete_eq; cbn; by rewrite lookup_empty|]. by rewrite MemoryRegistry.store_lookup, decide_True, lookup_delete_eq.
    + rewrite bool_decide_eq_true_2 by done. cbn. rewrite lookup_delete_eq. cbn. by rewrite lookup_empty.
  - intros a' x Hx. apply (Ha n Hn). by rewrite <- (untouched (reg w) (MemoryRegistry.RegisterEntries ss es) n a') by exact (Hl n Hn).
Qed.

Lemma bind_disjoint {A} (f : A -> list string) (l : list A) i k x y n : NoDup (l ≫= f) -> l !! i = Some x -> l !! k = Some y ->
  n ∈ f x -> n ∈ f y -> i = k.
Proof.
  revert i k. induction l as [|z l IH]; intros i k Hnd Hi Hk Hx Hy; [done|]. rewrite bind_cons in Hnd. apply NoDup_app in Hnd as (_ & Hd & Hnd).
  assert (Hin : forall j v, l !! j = Some v -> n ∈ f v -> n ∈ l ≫= f).
  { intros j v Hj Hv. apply list_elem_of_bind. exists v. split; [done|]. by eapply list_elem_of_lookup_2. }
  destruct i as [|i], k as [|k]; cbn in *; [done|simplify_eq; exfalso; by eapply Hd, Hin..|]. f_equal. by eapply IH.
Qed.
Lemma bind_nodup {A} (f : A -> list string) (l : list A) x : NoDup (l ≫= f) -> x ∈ l -> NoDup (f x).
Proof.
  intros Hnd Hx. induction Hx as [x l|x z l _ IH]; rewrite bind_cons in Hnd; apply NoDup_app in Hnd as (? & _ & ?); [done|by apply IH].
Qed.

(** A calm step of a routine: into stage [st]. *)
Lemma calm_step w w' i st : calm w -> stages w' = <[i := st]> (stages w) ->
  (forall n, n ∈ our_names -> agree tls (reg w') n) ->
  (forall k sd n, k <> i -> sds !! k = Some sd -> n ∈ names sd ->
     ServiceRegistry.QueryServiceInfo (mem w) n = None -> ServiceRegistry.QueryServiceInfo (mem w') n = None) ->
  (forall sd, sds !! i = Some sd ->
     match st with
     | SHook | SMemory => forall n, n ∈ names sd -> ServiceRegistry.QueryServiceInfo (mem w') n = None
     | SNames _ _ l ns => forall n, n ∈ ns -> find_conflict l tls n = None
     | SFatal _ => False
     | _ => True
     end) -> calm w'.
Proof.
  intros [_ Hst] Hs Ha Hq Hi. split; [done|]. intros k sd st' Hk. rewrite Hs.
  intros [(<- & <- & _)|[Hne Hk']]%list_lookup_insert_Some; [by apply Hi|]. specialize (Hst k sd st' Hk Hk').
  destruct st'; eauto.
Qed.
Lemma routine_calm w i sd st : smooth -> inv w -> calm w -> sds !! i = Some sd -> stages w !! i = Some st ->
  calm (routine_step sds hs' i sd None w st).
Proof.
  intros [(j0 & Hj0 & Hc0) _ Hnames Htypes Hhandlers] Hinv Hcalm Hi Hst. pose proof Hinv as (Hwf & _ & Hok & _). specialize (Hok i sd st Hi Hst).
  pose proof Hcalm as [Ha Hq]. specialize (Hq i sd st Hi Hst).
  assert (Hset : forall st', (forall sd', sds !! i = Some sd' ->
     match st' with
     | SHook | SMemory => forall n, n ∈ names sd' -> ServiceRegistry.QueryServiceInfo (mem w) n = None
     | SNames _ _ l ns => forall n, n ∈ ns -> find_conflict l tls n = None
     | SFatal _ => False
     | _ => True
     end) -> calm (set_stage w i st')) by (intros st' H; by eapply calm_step).
  pose proof (prepared i sd Hi) as Hh. destruct st as [| | | |c j|c j l [|n ns]| |e]; cbn [routine_step]; [..|done|done].
  - assert (Hm : calm (mkWorld (reg w) (mem w) (<[i := SMemory]> (stages w)) (hooks_done w ++ [i]) (unregister_hooks w))).
    { eapply calm_step; [done|done|done|done|]. intros sd' ?. by simplify_eq. }
    by destruct (ServerOptions.ServiceStartHook _).
  - pose proof (register_free (mem w) sd Hwf (bind_nodup _ _ _ Hnames (list_elem_of_lookup_2 _ _ _ Hi)) (Htypes sd (list_elem_of_lookup_2 _ _ _ Hi)) Hq) as Hm.
    destruct (MemoryRegister (mem w) sd) as [m e] eqn:Em. cbn in Hm. subst e. apply (register_found _ _ _ Hwf) in Em as [_ Hother].
    eapply calm_step; [done|done|done| |done]. intros k sd' n Hne Hk Hn Hfree. cbn. rewrite Hother; [done|].
    intros Hn'. apply Hne. by eapply (bind_disjoint (fun sd => names sd)).
  - eapply calm_step; [done|done|done|done|]. intros sd' _. destruct (hs' !! registryHandler sd) as [h|]; [|done]. by destruct (IsInitialRegister h).
  - apply Hset. intros sd' _. destruct (hs !! registryHandler sd) as [[b c|b [e|]]|] eqn:Hqh.
    + destruct Hh as (k & sdk & _ & ->). cbn. rewrite Hj0. by destruct live.
    + by apply Hhandlers in Hqh; [|eapply list_elem_of_lookup_2].
    + by rewrite Hh.
    + by rewrite Hh.
  - destruct Hok as (_ & _ & _ & k & sdk & (Hk & _) & ->). apply Hset. intros sd' _. cbn [c_sd]. rewrite Hk. intros n Hn. apply agree_no_conflict, Ha.
    by eapply names_ours.
  - by apply Hset.
  - destruct Hok as (_ & _ & Hj & k & sdk & Hk & -> & ns' & Hns & _). cbn [c_tls]. rewrite Hq by set_solver. eapply calm_step; [done|done| |done|].
    + intros n' Hn'. cbn [reg set_reg set_stage]. apply agree_registered; [by apply Ha|]. intros _. by replace j with j0 by congruence.
    + intros sd' _. set_solver.
Qed.
Lemma run_calm ls w : smooth -> Forall label_ok ls -> Forall smooth_label ls -> inv w -> calm w ->
  inv (foldl (do_step sds hs') w ls) /\ calm (foldl (do_step sds hs') w ls).
Proof.
  intros Hs Hl Hsl. revert w. induction Hl as [|l ls Hl _ IH]; intros w Hinv Hc; [done|]. apply Forall_cons_1 in Hsl as [Hsl Hsls].
  cbn [foldl]. apply IH; [done|by apply turn_inv|]. destruct l as [i hook|o]; [|by apply calm_other]. cbn in *. subst hook.
  destruct (sds !! i) as [sd|] eqn:Hi; [|done]. destruct (stages w !! i) as [st|] eqn:Hst; [|done]. by apply routine_calm.
Qed.

(** *** The theorems *)

(** C13: Services are announced only when they can be called.  However the routines of the
    services and the other users of the registry take turns, whatever the start hooks answer
    and wherever the process ends: what the registry holds for the address of the server, under
    a name of one of its services, was there before, or is the metadata of the server (with its
    TLS setting) for a service with that name; and then a service with the same registry
    handler, the service itself if it shares its handler with none, has run its start hook
    without an error and its methods are found in the process under all its names.  (Other
    users of the registry neither register nor unregister the names of the services at the
    address of the server, and leave these names out of bulk registrations.) *)
Theorem announced_when_started ls n m : ServiceRegistry.wf m0 -> Forall label_ok ls -> n ∈ our_names ->
  let w := run sds live addr tls hs r0 m0 ls in
  at_addr (reg w) n addr = Some m ->
  at_addr r0 n addr = Some m \/
  exists k sdk i sd, sds !! k = Some sdk /\ n ∈ serviceNames sdk /\ grpc_meta tls = Some m /\
    sds !! i = Some sd /\ registryHandler sd = registryHandler sdk /\ i ∈ hooks_done w /\ found (mem w) sd /\
    ((forall i' sd', sds !! i' = Some sd' -> registryHandler sd' = registryHandler sdk -> i' = k) -> i = k).
Proof.
  intros Hwf Hls Hn w Hm. destruct (turns_inv ls Hwf Hls) as (_ & _ & _ & Hr).
  destruct (Hr n m Hn Hm) as [?|(k & sdk & i & sd & ? & ? & ? & ? & ? & ? & ?)]; [by left|right].
  exists k, sdk, i, sd. split_and!; [done..|]. intros Halone. by eapply Halone.
Qed.

(** C11: A server comes up.  If the start hooks succeed, no two services share a name, the methods
    have callable types and nobody runs a service of the same name with another TLS setting,
    then once the routine of every service has had its turns, in any order, every one is done:
    its methods are found in the process, its registration is undone at the end of the process,
    and, if its registry handler is one of the framework's that was not asked to wait, and no
    later service has the same handler (of services that share one the last is announced in the
    place of all), it is announced under all its names.  (Other users of the registry neither
    register nor unregister the names of the services at the address of the server, and leave
    these names out of bulk registrations; registry handlers of other makes answer without an
    error.) *)
Theorem server_comes_up ls : ServiceRegistry.wf m0 -> smooth -> Forall label_ok ls -> Forall smooth_label ls ->
  (forall i sd k sdk, sds !! i = Some sd -> sds !! k = Some sdk -> registryHandler sdk = registryHandler sd ->
     6 + length (serviceNames sdk) <= turns i ls) ->
  let w := run sds live addr tls hs r0 m0 ls in
  forall i sd, sds !! i = Some sd ->
    stages w !! i = Some SDone /\ i ∈ hooks_done w /\ found (mem w) sd /\ i ∈ unregister_hooks w /\
    forall c, hs !! registryHandler sd = Some (Impl true c) -> live = true ->
      (forall k sd', i < k -> sds !! k = Some sd' -> registryHandler sd' <> registryHandler sd) ->
      exists j, grpc_meta tls = Some j /\ forall n, n ∈ serviceNames sd -> at_addr (reg w) n addr = Some j.
Proof.
  intros Hwf Hs Hl Hsl Hturns w i sd Hi. pose proof (started_inv Hwf) as Hinv0.
  assert (Hcalm0 : calm (start sds r0 m0)).
  { split; [apply Hs|]. intros k sd' st Hk Hst. cbn in Hst. apply lookup_replicate in Hst as [-> _]. intros n Hn.
    eapply unregistered_free; [|done]. by eapply list_elem_of_lookup_2. }
  destruct (run_calm ls _ Hs Hl Hsl Hinv0 Hcalm0) as [(_ & _ & Hok & _) [_ Hcalm]].
  assert (H0 : stages (start sds r0 m0) !! i = Some SHook) by (apply lookup_replicate; split; [done|by eapply lookup_lt_Some]).
  assert (Hm : most sd (turns i ls - 6)) by (intros k sdk Hk Hq; specialize (Hturns i sd k sdk Hi Hk Hq); lia).
  pose proof (Hturns i sd i sd Hi Hi eq_refl) as Hpos.
  destruct (run_work _ i sd SHook _ ls Hl Hinv0 Hi Hm H0) as (st & Hst & Hw).
  specialize (Hok i sd st Hi Hst). specialize (Hcalm i sd st Hi Hst). cbn in Hw.
  destruct st; cbn in Hw; try lia. destruct Hok as ([Hh Hf] & Hu & Ha). split_and!; [exact Hst|exact Hh|exact Hf|exact Hu|].
  intros c Hc Hlive Hlast. destruct (Ha c Hc Hlive) as (k & sdk & (Hk & Hq & Hlast') & Hann).
  assert (k = i) as ->; [|by simplify_eq]. destruct (lt_eq_lt_dec k i) as [[Hlt|?]|Hlt]; [by destruct (Hlast' i sd Hlt Hi)|done|by destruct (Hlast k sdk Hlt Hk)].
Qed.

(** *** Found by clients *)

Lemma announced_addr n j : (forall m j, Marshal m = Some j -> Unmarshal j = Some m) -> grpc_meta tls = Some j ->
  grpc_addr Unmarshal n (mkInstance addr (Some j)) = Some (mkAddressInfo addr tls).
Proof.
  intros Hu Hj. unfold grpc_addr, UnmarshalRegistryMeta. cbn [imeta]. unfold grpc_meta, MarshalRegistryMeta in Hj. cbn in Hj. cbn. by rewrite (Hu _ _ Hj).
Qed.

(** Nothing that is done to the registry meanwhile touches the entry. *)
Definition keeps_entry (n : string) (l : Discovery.label) : Prop := match l with PStep (ARegistry o) => ~ touches n addr o | _ => True end.
Definition the_entry (n j : string) (s : string) : gset Balancer.Address := if decide (s = n) then {[Balancer.mkAddress addr j]} else ∅.
Lemma bulk_services es ss : forall r nm, Forall (fun p => p.1 ∈ ss \/ p.1 ∈ nm.*1) (foldl (MemoryRegistry.service_step es) (r, nm) ss).2.
Proof.
  clear Unmarshal. induction ss as [|x ss IH]; intros r nm; cbn [foldl].
  - apply Forall_forall. intros p Hp. right. by apply list_elem_of_fmap_2.
  - unfold MemoryRegistry.service_step at 2. destruct (foldl _ _ es) as [[im prev] new]. eapply Forall_impl; [apply IH|].
    intros p [Hp|Hp]; [left; by right|]. rewrite fmap_app, elem_of_app in Hp. destruct Hp as [Hp|Hp%list_elem_of_singleton]; [|left; rewrite Hp; by left].
    right. apply list_elem_of_fmap in Hp as (q & -> & [_ Hq]%list_elem_of_filter). by apply list_elem_of_fmap_2.
Qed.
Lemma entry_kept n j o r : ~ touches n addr o -> Forall (fun e => ~ takes_away (the_entry n j) e) (MemoryRegistry.apply_op r o).2.
Proof.
  clear Unmarshal. intros Ht. apply Forall_forall. intros e He (s & u & Hu & Hd & Hin). unfold the_entry in Hin. case_decide as Hs; [|set_solver].
  subst s. apply elem_of_singleton in Hin. assert (Hevent : MemoryRegistry.event_service e = n).
  { destruct e as [s l|s l]; cbn in Hu; case_bool_decide; try done; by apply elem_of_nil in Hu. }
  destruct o as [s a m|s a|ss es]; cbn in He, Ht.
  - apply list_elem_of_singleton in He as ->. cbn in Hu. case_bool_decide; [|by apply elem_of_nil in Hu].
    apply list_elem_of_singleton in Hu as ->. done.
  - unfold MemoryRegistry.UnregisterService in He. assert (Hl : forall l, e = MemoryRegistry.OnDelete s l -> Balancer.mkAddress addr j ∈ l).
    { intros l ->. cbn in Hu, Hevent. rewrite bool_decide_eq_true_2 in Hu by done. apply list_elem_of_fmap in Hu as (x & -> & Hx). cbn in Hin. by subst x. }
    assert (Hs : s = n).
    { destruct (r !! s); [case_bool_decide|]; apply list_elem_of_singleton in He as ->; done. }
    subst s. destruct (r !! n) as [m|]; [|apply list_elem_of_singleton in He; by apply Hl, elem_of_nil in He].
    case_bool_decide as Ha; apply list_elem_of_singleton in He; [naive_solver|]. apply Hl in He. destruct (m !! a); [|by apply elem_of_nil in He].
    apply list_elem_of_singleton in He. injection He as He _. naive_solver.
  - unfold MemoryRegistry.RegisterServiceWithEntries in He. pose proof (bulk_services es ss r []) as Hb. destruct (foldl _ _ ss) as [r' nm]. cbn in He, Hb.
    apply list_elem_of_bind in He as ([s [new dels]] & He & Hp). rewrite Forall_forall in Hb. destruct (Hb _ Hp) as [Hss|?%elem_of_nil]; [|done]. cbn in Hss, He.
    assert (s = n) as ->; [|done]. rewrite <- Hevent. apply elem_of_app in He as [He|He]; [destruct new|destruct dels];
      try (by apply elem_of_nil in He); by apply list_elem_of_singleton in He as ->.
Qed.
Section discovery.
Context (CreateHeaderRegexMap : gmap string string -> option (gmap string string * gmap string string)) (md5_Sum : string -> string)
  (range : gmap string httpRule -> list (string * httpRule)).
Notation discover := (process_run Unmarshal CreateHeaderRegexMap md5_Sum range).

(** C14: Clients find a server that has come up.  A discovery that starts when the routine of a
    service is done, or later, finds the service (of services that share a registry handler, the
    last of them), whatever happens to the registry and the discovery, as long as nobody takes
    away what the server registered and the address is not reported down: a pick answers, with
    the address of the server and its TLS setting, or with another address of a set that the
    outstanding notifications turn into what is registered for the service.  (The service has a
    handler of the framework that was not asked to wait; the metadata that is marshalled can be
    read back; an address of a service has the same metadata all the time, a bulk registration
    names no service twice, notifications arrive in the order of the changes, and none falls
    between the listing of the services and the watch.) *)
Theorem started_service_found ls i sd k sdk c n meta acts : ServiceRegistry.wf m0 -> Forall label_ok ls ->
  let w := run sds live addr tls hs r0 m0 ls in
  sds !! i = Some sd -> stages w !! i = Some SDone -> hs !! registryHandler sd = Some (Impl true c) -> live = true ->
  speaks_for sds (registryHandler sd) k sdk -> n ∈ serviceNames sdk -> (forall m j, Marshal m = Some j -> Unmarshal j = Some m) ->
  MemoryRegistry.consistent meta (reg w) -> Forall (Discovery.label_ok meta) acts -> Forall (keeps_entry n) acts ->
  let later := discover (reg w) [] acts in
  downList (discovery_of later) !! addr = None ->
  exists a, (PickWithInfo (discovery_of later) n).1 = Ok a /\
    (a = mkAddressInfo addr tls \/
     exists X : gset Balancer.Address,
       foldl Balancer.Balancer.set_update X (outstanding later ≫= MemoryRegistry.notified n) = MemoryRegistry.instances (registry_of later) n /\
       exists x, x ∈ X /\ Balancer.Addr x <> addr /\ grpc_addr Unmarshal n (of_address x) = Some a).
Proof.
  intros Hwf Hls w Hi Hst Hh Hlive Hlast Hn Hu Hcons Hacts Hkeep lt Hdown.
  destruct (turns_inv ls Hwf Hls) as (_ & _ & Hok & _). destruct (Hok i sd SDone Hi Hst) as (_ & _ & Ha).
  destruct (Ha c Hh Hlive) as (k' & sdk' & Hlast' & j & Hj & Hreg).
  assert (sdk' = sdk) as ->.
  { destruct Hlast as (Hk & Hq & Hl), Hlast' as (Hk' & Hq' & Hl').
    destruct (lt_eq_lt_dec k k') as [[Hlt|?]|Hlt]; [by destruct (Hl k' sdk' Hlt Hk')|by simplify_eq|by destruct (Hl' k sdk Hlt Hk)]. }
  specialize (Hreg n Hn). pose proof (announced_addr n j Hu Hj) as Haddr.
  destruct (process_run_ok Unmarshal CreateHeaderRegexMap md5_Sum range meta (the_entry n j) (reg w) acts Hcons) as (_ & Hp & _ & _ & HX); [|done| |].
  { intros s. unfold the_entry. case_decide as Hs; [|set_solver]. subst s. apply singleton_subseteq_l, MemoryRegistry.elem_instances. exact Hreg. }
  { eapply Forall_impl; [exact Hkeep|]. intros [[o| | | | | | ]|]; try done. intros Ho r. by apply entry_kept. }
  fold lt in Hp, HX. destruct (HX n) as (X & Hh' & Hm & Hks & Hq). pose proof (pick_from Unmarshal _ n X Hp Hh') as Hpick. unfold picks_from in Hpick.
  assert (Hin : Balancer.mkAddress addr j ∈ X) by (apply Hks; unfold the_entry; rewrite decide_True by done; set_solver).
  destruct (PickWithInfo (discovery_of lt) n).1 as [a|e|e]; [| |done].
  - exists a. split; [done|]. destruct Hpick as ([xa xm] & Hx & Hg & _). destruct (decide (xa = addr)) as [->|Hne]; [left|right; exists X; split; [exact Hq|by eexists (Balancer.mkAddress xa xm)]].
    pose proof (Hm _ Hx) as E1. pose proof (Hm _ Hin) as E2. cbn in E1, E2. subst xm. rewrite <- E2 in Hg. unfold of_address in Hg. cbn in Hg. congruence.
  - exfalso. destruct (Hpick _ (mkAddressInfo addr tls) Hin Haddr) as [v Hv]. cbn in Hv. congruence.
Qed.
End discovery.
End start.

(** ** Registering by hand *)

Lemma announce_names_spec l tls a j ns r r' e : register_names l tls a j ns r = (r', e) ->
  exists ns1 ns2, ns = ns1 ++ ns2 /\
    (forall n a', at_addr r' n a' = if decide (n ∈ ns1 /\ a' = a) then Some j else at_addr r n a') /\
    match e with
    | None => ns2 = []
    | Some e => exists n ns3 i, ns2 = n :: ns3 /\ e = conflict_error n /\ find_conflict l tls n = Some i
    end.
Proof.
  revert r. induction ns as [|n ns IH]; intros r; cbn [register_names].
  - intros [= <- <-]. exists [], []. split_and!; [done| |done]. intros n a'. by rewrite decide_False by set_solver.
  - destruct (find_conflict l tls n) as [i|] eqn:Hf.
    + intros [= <- <-]. exists [], (n :: ns). split_and!; [done| |by exists n, ns, i]. intros n' a'. by rewrite decide_False by set_solver.
    + intros (ns1 & ns2 & -> & Hat & He)%IH. exists (n :: ns1), ns2. split_and!; [done| |done]. intros n' a'. rewrite Hat, registered_at.
      repeat case_decide; set_solver.
Qed.
Lemma unregister_names_at a ns r n a' : a <> "" ->
  at_addr (foldl (fun r n => (MemoryRegistry.UnregisterService r n a).1) r ns) n a' = if decide (n ∈ ns /\ a' = a) then None else at_addr r n a'.
Proof.
  clear Unmarshal. intros Ha. revert r. induction ns as [|x ns IH]; intros r; cbn [foldl]; [by rewrite decide_False by set_solver|]. rewrite IH.
  assert (Hx : at_addr (MemoryRegistry.UnregisterService r x a).1 n a' = if decide (n = x /\ a' = a) then None else at_addr r n a').
  { clear IH. destruct (decide (n = x /\ a' = a)) as [[-> ->]|Hd].
    - unfold at_addr, MemoryRegistry.UnregisterService. destruct (r !! x) as [m|] eqn:Hm; [|cbn; rewrite Hm; cbn; by rewrite lookup_empty].
      rewrite bool_decide_eq_false_2 by done. cbn. by rewrite MemoryRegistry.store_lookup, decide_True, lookup_delete_eq.
    - apply (untouched r (MemoryRegistry.Unregister x a)). cbn. naive_solver. }
  rewrite Hx. repeat case_decide; set_solver.
Qed.

(** Registering by hand.  [Register] of a handler announces the names of its service in turn;
    at the first name under which an instance with another TLS setting is listed it stops with
    an error, and the names before that one stay announced.  Nothing else changes in the
    registry.  [Unregister] takes the address away from all names, announced or not. *)
Theorem register_by_hand sd a tls j r r' e : grpc_meta tls = Some j -> a <> "" -> registerService sd true a tls r = (r', e) ->
  (exists ns1 ns2, serviceNames sd = ns1 ++ ns2 /\
    (forall n a', at_addr r' n a' = if decide (n ∈ ns1 /\ a' = a) then Some j else at_addr r n a') /\
    match e with
    | None => ns2 = []
    | Some e => exists n ns3 x y, ns2 = n :: ns3 /\ e = conflict_error n /\ at_addr r n x = Some y /\ conflicts tls (mkInstance x (Some y))
    end) /\
  forall n a', at_addr (unregisterService sd true a r') n a' = if decide (n ∈ serviceNames sd /\ a' = a) then None else at_addr r n a'.
Proof.
  intros Hj Ha. unfold registerService. cbn. rewrite Hj. intros (ns1 & ns2 & Hns & Hat & He)%announce_names_spec. split.
  - exists ns1, ns2. split_and!; [done..|]. destruct e as [e|]; [|done]. destruct He as (n & ns3 & i & -> & -> & Hf).
    apply find_conflict_some in Hf as (en & (s & m & Hm & _ & ->)%registry_entries_elem & <- & Hi & Hc). cbn in Hi.
    apply list_elem_of_fmap in Hi as ([x y] & -> & Hx%MemoryRegistry.elem_instance_list). exists s, ns3, x, y. split_and!; [done..| |done].
    unfold at_addr. by rewrite Hm.
  - intros n a'. unfold unregisterService. cbn. rewrite unregister_names_at, Hat by done. rewrite Hns. repeat case_decide; set_solver.
Qed.
End services.

(** ** Examples *)

(** Metadata in two letters. *)
Definition example_Marshal (m : Meta) : option string :=
  match m with
  | mkMeta tls [] v t [] => if decide (v = 3 /\ t = 1)%Z then Some (if tls then "T" else "F") else None
  | _ => None
  end.
Definition example_Unmarshal (j : string) : option Meta :=
  if decide (j = "T") then Some (mkMeta true [] 3 1 []) else if decide (j = "F") then Some (mkMeta false [] 3 1 []) else None.
Lemma example_roundtrip m j : example_Marshal m = Some j -> example_Unmarshal j = Some m.
Proof.
  destruct m as [tls [|? ?] v t [|? ?]]; cbn; try done. case_decide as Hd; [|done]. destruct Hd as [-> ->]. by destruct tls; intros [= <-].
Qed.

Notation Desc := (ServiceDesc (Srv := unit) (UHandler := nat) (SHandler := nat)).
Definition alias_options (l : list string) : ServerOptions.RegisterOptions :=
  ServerOptions.mkRegisterOptions l None None None None None None false None ∅.
Definition example_services : list Desc :=
  [mkDesc ServiceRegistry.example_info (alias_options []) 0; mkDesc ServiceRegistry.other_info (alias_options ["b"]) 1].
Definition example_handlers : handlers := {[0 := DefaultRegistryHandler; 1 := DefaultRegistryHandler]}.
Notation example_run sds hs r ls :=
  (run (UInt := unit) (SInt := unit) (fun _ => ServiceRegistry.service_type) example_Marshal example_Unmarshal tt tt true sds true "h1:1" false hs r
     ServiceRegistry.NewMemoryRegistry ls).
Definition both : list label := [LRoutine 0 None; LRoutine 1 None].
(** The two routines in turn, while another server of one of the services registers. *)
Definition example_labels : list label :=
  both ++ both ++ LOther (MemoryRegistry.Register "pkg.Svc" "h2:1" "F") :: both ++ both ++ both ++ both ++ both.
Lemma example_labels_ok : Forall (label_ok example_services "h1:1") example_labels.
Proof. repeat (constructor; [first [exact I|by intros n _ [_ [=]]]|]). constructor. Qed.

(** A service whose hook fails is not announced, the other one is. *)
Example failed_hook :
  let w := example_run [mkDesc ServiceRegistry.example_info (ServerOptions.mkRegisterOptions [] None (Some 1) None None None None false None ∅) 0;
                        mkDesc ServiceRegistry.other_info (alias_options ["b"]) 1] example_handlers ∅
             (LRoutine 0 (Some "no database") :: example_labels) in
  at_addr (reg w) "pkg.Svc" "h1:1" = None /\ at_addr (reg w) "b" "h1:1" = Some "F".
Proof. by vm_compute. Qed.

(** Two services with one handler: the second is announced twice, the first never. *)
Example shared_handler :
  let w := example_run [mkDesc ServiceRegistry.example_info (alias_options []) 0; mkDesc ServiceRegistry.other_info (alias_options ["b"]) 0]
             example_handlers ∅ example_labels in
  stages w = [SDone; SDone] /\ at_addr (reg w) "pkg.Svc" "h1:1" = None /\ at_addr (reg w) "b" "h1:1" = Some "F".
Proof. by vm_compute. Qed.

(** The services are listed before the names are registered: a server with TLS that registers in
    between is not noticed. *)
Example tls_race :
  let w := example_run example_services example_handlers ∅
             (both ++ both ++ both ++ both ++ both ++ LOther (MemoryRegistry.Register "b" "h2:1" "T") :: both ++ both) in
  stages w = [SDone; SDone] /\ at_addr (reg w) "b" "h1:1" = Some "F" /\ at_addr (reg w) "b" "h2:1" = Some "T".
Proof. by vm_compute. Qed.

(** Without services there is still a rule, without patterns. *)
Example empty_rule : HttpRules ([] : list Desc) = [Some (mkHttpRule [] [] [])].
Proof. done. Qed.

Lemma announced_when_started_witness :
  let w := example_run example_services example_handlers ∅ example_labels in
  at_addr (reg w) "b" "h1:1" = Some "F" /\
  exists k sdk i sd, example_services !! k = Some sdk /\ "b" ∈ serviceNames sdk /\ grpc_meta example_Marshal false = Some "F" /\
    example_services !! i = Some sd /\ registryHandler sd = registryHandler sdk /\ i ∈ hooks_done w /\
    found (fun _ => ServiceRegistry.service_type) tt tt true (mem w) sd /\
    ((forall i' sd', example_services !! i' = Some sd' -> registryHandler sd' = registryHandler sdk -> i' = k) -> i = k).
Proof.
  assert (H : at_addr (reg (example_run example_services example_handlers ∅ example_labels)) "b" "h1:1" = Some "F") by by vm_compute.
  split; [exact H|].
  destruct (announced_when_started (fun _ => ServiceRegistry.service_type) example_Marshal example_Unmarshal tt tt true example_services true "h1:1" false
    example_handlers ∅ ServiceRegistry.NewMemoryRegistry example_labels "b" "F" ServiceRegistry.wf_empty example_labels_ok
    ltac:(by apply (bool_decide_unpack _); vm_compute) H) as [H0|H1]; [|exact H1]. by vm_compute in H0.
Defined.
Lemma server_comes_up_witness :
  let w := example_run example_services example_handlers ∅ example_labels in
  stages w !! 1 = Some SDone /\ at_addr (reg w) "b" "h1:1" = Some "F".
Proof.
  destruct (server_comes_up (fun _ => ServiceRegistry.service_type) example_Marshal example_Unmarshal tt tt true example_services true "h1:1" false
    example_handlers ∅ ServiceRegistry.NewMemoryRegistry example_labels ServiceRegistry.wf_empty) with (i := 1) (sd := mkDesc ServiceRegistry.other_info (alias_options ["b"]) 1)
    as (Hst & _ & _ & _ & Ha); [split|exact example_labels_ok| |  |done|].
  - exists "F". split; [done|]. by intros Hc; vm_compute in Hc.
  - intros n _ a m Hm. unfold at_addr in Hm. rewrite lookup_empty in Hm. cbn in Hm. by rewrite lookup_empty in Hm.
  - by apply (bool_decide_unpack _); vm_compute.
  - by intros sd [->|[->|[]%elem_of_nil]%elem_of_cons]%elem_of_cons; vm_compute.
  - intros sd b e [->|[->|[]%elem_of_nil]%elem_of_cons]%elem_of_cons Hc; vm_compute in Hc; discriminate Hc.
  - repeat (constructor; [first [done|by intros _ Hc; vm_compute in Hc]|]). constructor.
  - intros [|[|i]] sd [|[|k]] sdk Hi Hk Hq; vm_compute in Hi, Hk; simplify_eq; try discriminate Hq; vm_compute; lia.
  - split; [exact Hst|]. destruct (Ha None eq_refl eq_refl) as (j & Hj & Hn); [by intros [|[|k]] sd' Hk; [lia..|]|]. vm_compute in Hj. injection Hj as <-. apply Hn. by left.
Defined.
Lemma started_service_found_witness :
  let later := process_run example_Unmarshal (fun m => Some (m, m)) (fun s => s) map_to_list
    (reg (example_run example_services example_handlers ∅ example_labels)) [] [PStep (APick "b")] in
  exists a, (PickWithInfo (discovery_of later) "b").1 = Ok a /\
    (a = mkAddressInfo "h1:1" false \/
     exists X : gset Balancer.Address,
       foldl Balancer.Balancer.set_update X (outstanding later ≫= MemoryRegistry.notified "b") = MemoryRegistry.instances (registry_of later) "b" /\
       exists x, x ∈ X /\ Balancer.Addr x <> "h1:1" /\ grpc_addr example_Unmarshal "b" (of_address x) = Some a).
Proof.
  apply (started_service_found (fun _ => ServiceRegistry.service_type) example_Marshal example_Unmarshal tt tt true example_services true "h1:1" false
    example_handlers ∅ ServiceRegistry.NewMemoryRegistry (fun m => Some (m, m)) (fun s => s) map_to_list example_labels 1
    (mkDesc ServiceRegistry.other_info (alias_options ["b"]) 1) 1 (mkDesc ServiceRegistry.other_info (alias_options ["b"]) 1) None "b" (fun _ _ => "F") [PStep (APick "b")]
    ServiceRegistry.wf_empty example_labels_ok);
    [done|by vm_compute|done|done|by split_and!; [| |intros [|[|k]] sd' Hk; [lia..|]]|by left|exact example_roundtrip| |by repeat constructor..|by vm_compute].
  assert (H : map_Forall (fun _ m => m <> ∅ /\ map_Forall (fun _ x => x = "F") m)
    (reg (example_run example_services example_handlers ∅ example_labels))) by by apply (bool_decide_unpack _); vm_compute.
  intros s m Hm. exact (H s m Hm).
Defined.
Lemma register_by_hand_witness :
  let r := registerService example_Marshal example_Unmarshal (mkDesc ServiceRegistry.other_info (alias_options ["a"; "b"]) 1 : Desc) true "h1:1" false {["b" := {["h2:1" := "T"]}]} in
  r.2 = Some (conflict_error "b") /\ at_addr r.1 "a" "h1:1" = Some "F".
Proof.
  set (sd := mkDesc ServiceRegistry.other_info (alias_options ["a"; "b"]) 1 : Desc).
  destruct (register_by_hand example_Marshal example_Unmarshal sd "h1:1" false "F" {["b" := {["h2:1" := "T"]}]}
    (registerService example_Marshal example_Unmarshal sd true "h1:1" false {["b" := {["h2:1" := "T"]}]}).1 (Some (conflict_error "b")))
    as [(ns1 & ns2 & Hns & Hat & n & ns3 & _ & _ & -> & He & _) _]; [done|done|by vm_compute|].
  split; [by vm_compute|]. rewrite Hat, decide_True; [done|]. split; [|done].
  destruct ns1 as [|x ns1]; cbn in Hns; [by simplify_eq; vm_compute in He|]. simplify_eq. by left.
Defined.

End ServiceStart.
