(* ===== verification/ServerHooks.v ===== *)
(** * Serving: the hooks of HTTP services, the lists of servers and the health service
    ([Serve], [Prepare] and [httpServiceHook] of [server/internal/http_server/http_server.go],
    [server/internal/utils.go], [server/internal/server_list/serve_list.go],
    [healthy/healthy_server.go]).

    A server runs the start hooks of its services at the same time, waits for them, announces
    itself, serves, and runs the stop hooks when serving has ended.  The routines take atomic
    steps in any order.  As in [ServiceStart], [log.Fatal] stops the routine that calls it
    only. *)

From S2P Require Import Prelude.

Open Scope string_scope.
Open Scope list_scope.

(** ** Lists of servers *)

Module ServerList.

Record lists := mkLists { grpcServerList : list string; httpServerList : list string }.

(** The loop of both removals. *)
Definition remove_addr (addr : string) (l : list string) : list string := filter (fun a => a <> addr) l.

Definition GrpcServerList (s : lists) : list string := grpcServerList s.
Definition HttpServerList (s : lists) : list string := httpServerList s.
Definition AddGrpcServer (addr : string) (s : lists) : lists := mkLists (grpcServerList s ++ [addr]) (httpServerList s).
Definition RemoveGrpcServer (addr : string) (s : lists) : lists := mkLists (remove_addr addr (grpcServerList s)) (httpServerList s).
Definition AddHttpServer (addr : string) (s : lists) : lists := mkLists (grpcServerList s) (httpServerList s ++ [addr]).
Definition RemoveHttpServer (addr : string) (s : lists) : lists := mkLists (grpcServerList s) (remove_addr addr (httpServerList s)).

Lemma remove_added addr l : addr ∉ l -> remove_addr addr (l ++ [addr]) = l.
Proof.
  intros Ha. unfold remove_addr. rewrite filter_app, filter_cons_False by naive_solver. rewrite filter_nil, app_nil_r.
  apply list_filter_all. intros x Hx ->. done.
Qed.

(** Servers of one address, on different interfaces say, share its entry: when the first one
    stops, the others are no longer listed. *)
Example shared_address : RemoveHttpServer "[::]:80" (AddHttpServer "[::]:80" (AddHttpServer "[::]:80" (mkLists [] []))) = mkLists [] [].
Proof. by vm_compute. Qed.

End ServerList.

(** ** The health service *)

Module Health.

Definition SERVING : Z := 1.

Record healthServiceImpl := mkHealth { states : gmap string Z }.
Definition NewDefaultHealthService : healthServiceImpl := mkHealth ∅.
Definition Check (s : healthServiceImpl) (service : string) : Z := default SERVING (states s !! service).
Definition ChangeState (s : healthServiceImpl) (service : string) (state : Z) : healthServiceImpl := mkHealth (<[service := state]> (states s)).

(** What happens to a watch: the ticker fires, with the service as it is then and what [Send]
    returns, or the context of the stream ends. *)
Inductive watch_event := Tick (s : healthServiceImpl) (send : option string) | Done (err : string).

(** The statuses sent, and the result if the loop has ended. *)
Fixpoint Watch (service : string) (evs : list watch_event) : list Z * option string :=
  match evs with
  | [] => ([], None)
  | Tick s (Some err) :: _ => ([Check s service], Some err)
  | Tick s None :: evs => let (sent, r) := Watch service evs in (Check s service :: sent, r)
  | Done err :: _ => ([], Some err)
  end.

Lemma Check_ChangeState s service state service' :
  Check (ChangeState s service state) service' = if decide (service = service') then state else Check s service'.
Proof. unfold Check, ChangeState. cbn. rewrite lookup_insert_case. by case_decide. Qed.

(** A service nobody knows is reported as serving; a watch says nothing before its first tick. *)
Example unknown_serves : Check NewDefaultHealthService "none" = SERVING /\ Watch "none" [Done "cancelled"] = ([], Some "cancelled").
Proof. by vm_compute. Qed.

End Health.

(** ** Serving HTTP *)

Module ServerHooks.
Import ServerList.

(** How the function of [InvokeWithTimeout] ends, seen from its caller. *)
Inductive call_end := FnReturned (err : option string) | TimedOut.
Definition InvokeWithTimeout (o : call_end) : option string := match o with FnReturned err => err | TimedOut => Some "timeout" end.

(** A service: whether it has the two hooks.  The stop hook returns no error. *)
Record service := mkService { ServiceStartHook : bool; ServiceStopHook : bool }.

Inductive stage := Waiting | Finished | Stopped.

Definition startHookFunc (sd : service) (o : call_end) : stage :=
  if negb (ServiceStartHook sd) then Finished
  else match InvokeWithTimeout o with Some _ => Stopped | None => Finished end.
Definition stopHookFunc (sd : service) (o : call_end) : stage :=
  if negb (ServiceStopHook sd) then Finished
  else match InvokeWithTimeout (match o with FnReturned _ => FnReturned None | TimedOut => TimedOut end) with Some _ => Stopped | None => Finished end.

Inductive event := StartHook (i : nat) | Announced | Added | Served | Removed | StopHook (i : nat) | Finalized.
Inductive phase := Starting | Serving | Stopping | Returned | Ended.
#[export] Instance phase_dec : EqDecision phase.
Proof. solve_decision. Defined.

Record world := mkWorld { now : phase; stages : list stage; trace : list event; servers : lists }.

(** A routine runs its hook; the main routine goes on; serving ends.  [announce] is the error of
    [RegisterServices]. *)
Inductive label := LHook (i : nat) (o : call_end) | LMain | LServed.

Section serve.
Context (services : list service) (addr : string) (announce : option string).

Definition all_finished (w : world) : bool := forallb (fun st => match st with Finished => true | _ => false end) (stages w).
Definition waiting : list stage := (fun _ => Waiting) <$> services.

Definition run_hook (w : world) (i : nat) (st : stage) (ran : list event) : world :=
  mkWorld (now w) (<[i := st]> (stages w)) (trace w ++ ran) (servers w).

Definition do_step (w : world) (l : label) : world :=
  match now w, l with
  | Starting, LHook i o =>
      match services !! i, stages w !! i with
      | Some sd, Some Waiting => run_hook w i (startHookFunc sd o) (if ServiceStartHook sd then [StartHook i] else [])
      | _, _ => w
      end
  | Starting, LMain =>
      if all_finished w then
        match announce with
        | None => mkWorld Serving (stages w) (trace w ++ [Announced; Added]) (AddHttpServer addr (servers w))
        | Some _ => mkWorld Ended (stages w) (trace w) (servers w)
        end
      else w
  | Serving, LServed => mkWorld Stopping waiting (trace w ++ [Served; Removed]) (RemoveHttpServer addr (servers w))
  | Stopping, LHook i o =>
      match services !! i, stages w !! i with
      | Some sd, Some Waiting => run_hook w i (stopHookFunc sd o) (if ServiceStopHook sd then [StopHook i] else [])
      | _, _ => w
      end
  | Stopping, LMain => if all_finished w then mkWorld Returned (stages w) (trace w ++ [Finalized]) (servers w) else w
  | _, _ => w
  end.

Definition Serve (s : lists) : world := mkWorld Starting waiting [] s.
Definition run (s : lists) (ls : list label) : world := foldl do_step (Serve s) ls.

(** ** The invariant *)

(** The hooks of a kind that ran are those of the routines that no longer wait. *)
Definition ran (has : service -> bool) (l : list stage) (ids : list nat) : Prop :=
  NoDup ids /\ forall i, i ∈ ids <-> exists sd st, services !! i = Some sd /\ has sd = true /\ l !! i = Some st /\ st <> Waiting.
Definition all_ran (has : service -> bool) (ids : list nat) : Prop :=
  NoDup ids /\ forall i, i ∈ ids <-> exists sd, services !! i = Some sd /\ has sd = true.

Definition inv (s : lists) (w : world) : Prop :=
  length (stages w) = length services /\ exists starts,
  match now w with
  | Starting => trace w = StartHook <$> starts /\ ran ServiceStartHook (stages w) starts /\ servers w = s
  | Ended => trace w = StartHook <$> starts /\ all_ran ServiceStartHook starts /\ servers w = s
  | Serving => trace w = (StartHook <$> starts) ++ [Announced; Added] /\ all_ran ServiceStartHook starts /\ servers w = AddHttpServer addr s
  | Stopping => exists stops, trace w = (StartHook <$> starts) ++ [Announced; Added; Served; Removed] ++ (StopHook <$> stops) /\
      all_ran ServiceStartHook starts /\ ran ServiceStopHook (stages w) stops /\ servers w = RemoveHttpServer addr (AddHttpServer addr s)
  | Returned => exists stops, trace w = (StartHook <$> starts) ++ [Announced; Added; Served; Removed] ++ (StopHook <$> stops) ++ [Finalized] /\
      all_ran ServiceStartHook starts /\ all_ran ServiceStopHook stops /\ servers w = RemoveHttpServer addr (AddHttpServer addr s)
  end.

Lemma waiting_lookup i : waiting !! i = (fun _ => Waiting) <$> services !! i.
Proof. apply list_lookup_fmap. Qed.

Lemma ran_none has : ran has waiting [].
Proof.
  split; [apply NoDup_nil_2|]. intros i. split; [by intros ?%not_elem_of_nil|]. intros (sd & st & _ & _ & Hst & Hne).
  rewrite waiting_lookup in Hst. destruct (services !! i); [|done]. by injection Hst as <-.
Qed.

(** One more routine is through. *)
Lemma ran_more has l ids i sd st : ran has l ids -> services !! i = Some sd -> l !! i = Some Waiting -> st <> Waiting ->
  ran has (<[i := st]> l) (ids ++ (if has sd then [i] else [])).
Proof.
  intros [Hn Hi] Hsd Hl Hst. assert (Hnot : i ∉ ids) by (intros (sd' & st' & _ & _ & Hl' & Hne)%Hi; congruence). split.
  - destruct (has sd); [|by rewrite app_nil_r]. apply NoDup_app. split_and!; [done| |by apply NoDup_singleton].
    by intros j Hj ->%list_elem_of_singleton.
  - intros j. rewrite elem_of_app, Hi. destruct (decide (j = i)) as [->|Hne].
    + split.
      * intros [(sd' & st' & _ & _ & Hl' & Hne)|Hin]; [congruence|]. destruct (has sd) eqn:Eh; [|by apply not_elem_of_nil in Hin].
        exists sd, st. split_and!; [done..| |done]. apply list_lookup_insert_eq. by eapply lookup_lt_Some.
      * intros (sd' & st' & Hsd' & Hhas & _). right. assert (sd' = sd) as -> by congruence. rewrite Hhas. by apply list_elem_of_singleton.
    + rewrite list_lookup_insert_ne by done. split; [intros [H|Hin]; [done|]|by left].
      destruct (has sd); [apply list_elem_of_singleton in Hin; congruence|by apply not_elem_of_nil in Hin].
Qed.

Lemma ran_finished has w ids : length (stages w) = length services -> all_finished w = true -> ran has (stages w) ids -> all_ran has ids.
Proof.
  intros Hl Hf [Hn Hi]. split; [done|]. intros i. rewrite Hi. split; [intros (sd & st & ? & ? & _); by exists sd|].
  intros (sd & Hsd & Hh). destruct (lookup_lt_is_Some_2 (stages w) i) as [st Hst]; [rewrite Hl; by eapply lookup_lt_Some|].
  exists sd, st. split_and!; [done..|]. intros ->. unfold all_finished in Hf. rewrite forallb_forall in Hf.
  specialize (Hf Waiting). cbn in Hf. discriminate Hf. apply list_elem_of_In. by eapply list_elem_of_lookup_2.
Qed.

Lemma start_moves sd o : startHookFunc sd o <> Waiting.
Proof. unfold startHookFunc. repeat case_match; done. Qed.
Lemma stop_moves sd o : stopHookFunc sd o <> Waiting.
Proof. unfold stopHookFunc. repeat case_match; done. Qed.

Lemma stage_inv_step s w l : inv s w -> inv s (do_step w l).
Proof.
  intros [Hlen (starts & Hinv)]. unfold do_step. destruct (now w) eqn:En; destruct l as [i o| |];
    try (split; [exact Hlen|]; exists starts; rewrite En; exact Hinv).
  - destruct (services !! i) as [sd|] eqn:Esd; [|by split; [exact Hlen|]; exists starts; rewrite En].
    destruct (stages w !! i) as [[]|] eqn:Est; try (by split; [exact Hlen|]; exists starts; rewrite En).
    destruct Hinv as (Ht & Hr & Hs). split; [cbn; by rewrite length_insert|]. cbn. rewrite En. exists (starts ++ (if ServiceStartHook sd then [i] else [])).
    split_and!; [|by eapply ran_more, start_moves|done]. rewrite Ht, fmap_app. by destruct (ServiceStartHook sd).
  - destruct (all_finished w) eqn:Ef; [|by split; [exact Hlen|]; exists starts; rewrite En]. destruct Hinv as (Ht & Hr & Hs).
    pose proof (ran_finished _ _ _ Hlen Ef Hr) as Ha. destruct announce; (split; [exact Hlen|]); exists starts; cbn; by rewrite Ht, Hs.
  - destruct Hinv as (Ht & Ha & Hs). split; [cbn; unfold waiting; by rewrite length_fmap|]. exists starts. cbn. exists [].
    rewrite Ht, Hs, <- app_assoc. split_and!; [done|done|apply ran_none|done].
  - destruct (services !! i) as [sd|] eqn:Esd; [|by split; [exact Hlen|]; exists starts; rewrite En].
    destruct (stages w !! i) as [[]|] eqn:Est; try (by split; [exact Hlen|]; exists starts; rewrite En).
    destruct Hinv as (stops & Ht & Ha & Hr & Hs). split; [cbn; by rewrite length_insert|]. cbn. rewrite En.
    exists starts, (stops ++ (if ServiceStopHook sd then [i] else [])).
    split_and!; [|done|by eapply ran_more, stop_moves|done]. rewrite Ht, fmap_app, <- !app_assoc. by destruct (ServiceStopHook sd).
  - destruct (all_finished w) eqn:Ef; [|by split; [exact Hlen|]; exists starts; rewrite En]. destruct Hinv as (stops & Ht & Ha & Hr & Hs).
    pose proof (ran_finished _ _ _ Hlen Ef Hr) as Hb. split; [exact Hlen|]. exists starts. cbn. exists stops. rewrite Ht, <- !app_assoc. by split_and!.
Qed.

Lemma inv_run s ls : inv s (run s ls).
Proof.
  unfold run. apply (foldl_ind (inv s)).
  - split; [cbn; unfold waiting; by rewrite length_fmap|]. exists []. cbn. split_and!; [done|apply ran_none|done].
  - intros w l _. apply stage_inv_step.
Qed.

(** A start hook that fails or takes too long keeps the server from serving. *)
Lemma failed_hook_blocks w i ls : now w = Starting -> stages w !! i = Some Stopped -> now (foldl do_step w ls) = Starting.
Proof.
  intros Hn Hi. cut (now (foldl do_step w ls) = Starting /\ stages (foldl do_step w ls) !! i = Some Stopped); [tauto|].
  apply (foldl_ind (fun w => now w = Starting /\ stages w !! i = Some Stopped)); [done|].
  clear w Hn Hi. intros w l _ [Hn Hi]. unfold do_step. rewrite Hn. destruct l as [j o| |]; [| |done].
  - destruct (services !! j); [|done]. destruct (stages w !! j) as [[]|] eqn:Ej; try done. cbn. split; [done|].
    rewrite list_lookup_insert_ne; [done|congruence].
  - replace (all_finished w) with false; [done|]. symmetry. apply not_true_iff_false. intros Hf. unfold all_finished in Hf.
    rewrite forallb_forall in Hf. specialize (Hf Stopped). cbn in Hf. discriminate Hf. apply list_elem_of_In. by eapply list_elem_of_lookup_2.
Qed.

End serve.

(** C12: serving in order.  In whatever order the hooks and the main routine go on, the start
    hook of every service runs at most once and all of them before the server is announced,
    the stop hooks run after serving has ended, each at most once, and when [Serve] has
    returned all of them have run; the address of a server that was not listed is in the list
    of HTTP servers exactly while the server serves. *)
Theorem serving_in_order (services : list service) (addr : string) (announce : option string) (s : lists) (ls : list label) :
  addr ∉ httpServerList s ->
  let w := run services addr announce s ls in
  exists starts stops middle, trace w = (StartHook <$> starts) ++ middle ++ (StopHook <$> stops) ++ (if decide (now w = Returned) then [Finalized] else []) /\
    NoDup starts /\ NoDup stops /\
    (forall i, i ∈ starts -> exists sd, services !! i = Some sd /\ ServiceStartHook sd = true) /\
    (forall i, i ∈ stops -> exists sd, services !! i = Some sd /\ ServiceStopHook sd = true) /\
    (middle = [] \/ all_ran services ServiceStartHook starts /\ (middle = [Announced; Added] \/ middle = [Announced; Added; Served; Removed])) /\
    (stops <> [] -> middle = [Announced; Added; Served; Removed]) /\
    (now w = Returned -> all_ran services ServiceStopHook stops) /\
    (addr ∈ httpServerList (servers w) <-> now w = Serving) /\ (now w <> Serving -> servers w = s).
Proof.
  intros Ha w. pose proof (inv_run services addr announce s ls) as [Hl (starts & Hinv)]. fold w in Hl, Hinv.
  assert (Hback : RemoveHttpServer addr (AddHttpServer addr s) = s) by (unfold RemoveHttpServer, AddHttpServer; cbn [httpServerList grpcServerList]; rewrite (remove_added _ _ Ha); by destruct s).
  assert (Hran : forall has l ids, ran services has l ids -> NoDup ids /\ forall i, i ∈ ids -> exists sd, services !! i = Some sd /\ has sd = true).
  { intros has l ids [Hn Hi]. split; [done|]. intros i (sd & st & ? & ? & _)%Hi. by exists sd. }
  assert (Hall : forall has ids, all_ran services has ids -> NoDup ids /\ forall i, i ∈ ids -> exists sd, services !! i = Some sd /\ has sd = true).
  { intros has ids [Hn Hi]. split; [done|]. by intros i ?%Hi. }
  exists starts. destruct (now w) eqn:En.
  - destruct Hinv as (Ht & [Hn Hi]%Hran & Hs). exists [], []. rewrite Ht, Hs. split_and!; try done; [by rewrite !app_nil_r|apply NoDup_nil_2|by intros i ?%not_elem_of_nil|by left].
  - destruct Hinv as (Ht & Har & Hs). destruct (Hall _ _ Har) as [Hn Hi]. exists [], [Announced; Added]. rewrite Ht, Hs.
    split_and!; try done; [apply NoDup_nil_2|by intros i ?%not_elem_of_nil|right; auto|]. cbn. set_solver.
  - destruct Hinv as (stops & Ht & Har & [Hn' Hi']%Hran & Hs). destruct (Hall _ _ Har) as [Hn Hi]. exists stops, [Announced; Added; Served; Removed].
    rewrite Ht, Hs, Hback. split_and!; try done; [by rewrite !app_nil_r|right; auto].
  - destruct Hinv as (stops & Ht & Har & Har' & Hs). destruct (Hall _ _ Har) as [Hn Hi], (Hall _ _ Har') as [Hn' Hi']. exists stops, [Announced; Added; Served; Removed].
    rewrite Ht, Hs, Hback. split_and!; try done; [right; auto].
  - destruct Hinv as (Ht & Har & Hs). destruct (Hall _ _ Har) as [Hn Hi]. exists [], []. rewrite Ht, Hs. split_and!; try done; [by rewrite !app_nil_r|apply NoDup_nil_2|by intros i ?%not_elem_of_nil|by left].
Qed.

(** ** Examples *)

Definition two_services : list service := [mkService true true; mkService false true].
Definition smooth : list label :=
  [LHook 1 (FnReturned None); LHook 0 (FnReturned None); LMain; LServed; LHook 1 (FnReturned None); LMain; LHook 0 (FnReturned None); LMain].

Lemma serving_in_order_witness :
  trace (run two_services ":80" None (mkLists [] []) smooth) = [StartHook 0; Announced; Added; Served; Removed; StopHook 1; StopHook 0; Finalized] /\
  now (run two_services ":80" None (mkLists [] []) (take 3 smooth)) = Serving /\
  ":80" ∈ httpServerList (servers (run two_services ":80" None (mkLists [] []) (take 3 smooth))).
Proof.
  destruct (serving_in_order two_services ":80" None (mkLists [] []) (take 3 smooth) ltac:(apply not_elem_of_nil))
    as (starts & stops & middle & _ & _ & _ & _ & _ & _ & _ & _ & Hin & _).
  split; [vm_compute; reflexivity|]. split; [vm_compute; reflexivity|]. apply Hin. vm_compute. reflexivity.
Defined.

End ServerHooks.
