(* ===== verification/HttpService.v ===== *)
(** * The HTTP side of a server ([server/internal/http_server/route.go], [description.go],
    [registry_handler.go], [cors.go], [NewHttpServer] of [http_server.go]).

    An HTTP server passes a request to grpc-web, to grpc, to an HTTP service whose route fits, or
    to the multiplexer ([HttpMux]); and it announces in the registry ([MemoryRegistry]) which
    requests it takes, as rules that a discovery ([Discovery]) compares with requests.  The router
    of [gorilla/mux] is a parameter, as are [utils.MapFromPairsToString] and the test of grpc-web
    for its requests; the answers to cross-origin requests are those of [rs/cors]. *)

From S2P Require Import Prelude GoStrings MemoryRegistry PathMatcher Discovery ServiceRegistry ServerListen ServerOptions ServiceStart.
From Stdlib Require Import Ascii.

Open Scope string_scope.
Open Scope list_scope.

Module HttpService.
Import PathMatcher Discovery ServiceStart.
Notation registry := (gmap string (gmap string string)).

(** ** Routes ([route.go]) *)

(** [matcher]: a function of the program, by number. *)
Record Route := mkRoute {
  path : string; headers : list string; headersRegexp : list string; hostTpl : string; methods : list string;
  pathPrefix : string; queries : list string; schemes : list string; matcher : option nat
}.
Definition NewRouteOpt : Route := mkRoute "" [] [] "" [] "" [] [] None.
Definition SetPath (tpl : string) (s : Route) : Route :=
  mkRoute tpl (headers s) (headersRegexp s) (hostTpl s) (methods s) (pathPrefix s) (queries s) (schemes s) (matcher s).
Definition Headers (pairs : list string) (s : Route) : Route :=
  mkRoute (path s) pairs (headersRegexp s) (hostTpl s) (methods s) (pathPrefix s) (queries s) (schemes s) (matcher s).
Definition HeadersRegexp (pairs : list string) (s : Route) : Route :=
  mkRoute (path s) (headers s) pairs (hostTpl s) (methods s) (pathPrefix s) (queries s) (schemes s) (matcher s).
Definition SetHost (tpl : string) (s : Route) : Route :=
  mkRoute (path s) (headers s) (headersRegexp s) tpl (methods s) (pathPrefix s) (queries s) (schemes s) (matcher s).
Definition Methods (ms : list string) (s : Route) : Route :=
  mkRoute (path s) (headers s) (headersRegexp s) (hostTpl s) ms (pathPrefix s) (queries s) (schemes s) (matcher s).
Definition PathPrefix (tpl : string) (s : Route) : Route :=
  mkRoute (path s) (headers s) (headersRegexp s) (hostTpl s) (methods s) tpl (queries s) (schemes s) (matcher s).
Definition Queries (pairs : list string) (s : Route) : Route :=
  mkRoute (path s) (headers s) (headersRegexp s) (hostTpl s) (methods s) (pathPrefix s) pairs (schemes s) (matcher s).
Definition Schemes (l : list string) (s : Route) : Route :=
  mkRoute (path s) (headers s) (headersRegexp s) (hostTpl s) (methods s) (pathPrefix s) (queries s) l (matcher s).
Definition MatcherFunc (f : option nat) (s : Route) : Route :=
  mkRoute (path s) (headers s) (headersRegexp s) (hostTpl s) (methods s) (pathPrefix s) (queries s) (schemes s) f.
Definition route_String (s : Route) : string :=
  let ms := match methods s with [] => "*" | l => Join l "," end in
  let p := if bool_decide (path s = "") then if bool_decide (pathPrefix s <> "") then pathPrefix s +:+ "*" else "*" else path s in
  ms +:+ " Path: " +:+ p.

(** The calls by which [apply] describes a route to the router. *)
Inductive mux_call :=
| CPath (tpl : string) | CHeaders (pairs : list string) | CHeadersRegexp (pairs : list string) | CHost (tpl : string)
| CMethods (l : list string) | CPathPrefix (tpl : string) | CQueries (pairs : list string) | CSchemes (l : list string) | CMatcher (f : nat).
Definition call_if {A} (P : Prop) `{Decision P} (f : A -> mux_call) (x : A) : list mux_call := if bool_decide P then [f x] else [].
Definition route_calls (s : Route) : list mux_call :=
  call_if (path s <> "") CPath (path s) ++ call_if (headers s <> []) CHeaders (headers s) ++
  call_if (headersRegexp s <> []) CHeadersRegexp (headersRegexp s) ++ call_if (hostTpl s <> "") CHost (hostTpl s) ++
  call_if (methods s <> []) CMethods (methods s) ++ call_if (pathPrefix s <> "") CPathPrefix (pathPrefix s) ++
  call_if (queries s <> []) CQueries (queries s) ++ call_if (schemes s <> []) CSchemes (schemes s) ++
  match matcher s with Some f => [CMatcher f] | None => [] end.

(** ** Services ([description.go]) *)

(** [hasHandler]: the handler is not nil. *)
Record ServiceDesc := mkDesc { route : Route; hasHandler : bool; http_options : ServerOptions.HttpRegisterOptions }.
Definition emptyHttpOptions : ServerOptions.HttpRegisterOptions := ServerOptions.mkHttpRegisterOptions None None None None None.
Definition RegisterServiceHandler (s : list ServiceDesc) (r : Route) (h : bool) (opt : list ServerOptions.HttpRegisterOption) : gores (list ServiceDesc) :=
  opts ← foldl (fun acc o => opts ← acc; o opts) (Ok emptyHttpOptions) opt;
  Ok (s ++ [mkDesc r h opts]).

Section rules.
(** [utils.MapFromPairsToString]; an error ends the process. *)
Context (MapFromPairsToString : list string -> option (gmap string string)).

Definition pairs_map (pairs : list string) : gores (list (gmap string string)) :=
  match pairs with [] => Ok [] | _ => match MapFromPairsToString pairs with Some m => Ok [m] | None => Panic "register http service failed" end end.
Definition HttpRule (s : ServiceDesc) : gores (option HttpRule) :=
  if negb (hasHandler s) then Ok None
  else
    headerMap ← pairs_map (headers (route s));
    headersRegexpMap ← pairs_map (headersRegexp (route s));
    Ok (Some (mkHttpRule
      (if bool_decide (path (route s) <> "") then RegistryWithPath (methods (route s)) (path (route s)) else [])
      ((if bool_decide (hostTpl (route s) <> "") then [{["Host" := hostTpl (route s)]}] else []) ++ headerMap)
      headersRegexpMap)).
Fixpoint http_HttpRules (l : list ServiceDesc) : gores (list (option Discovery.HttpRule)) :=
  match l with
  | [] => Ok []
  | sd :: l => rule ← HttpRule sd; rules ← http_HttpRules l; Ok (match rule with Some r => Some r :: rules | None => rules end)
  end.

(** ** Routing ([NewHttpServer]) *)

Section router.
(** A route of the router, and how a call changes it; an error is [GetError] after the call. *)
Context {Rt Req : Type} (NewRoute : Rt) (call : mux_call -> Rt -> Rt * option string) (Matches : Rt -> Req -> bool).
Inductive http_handler := Service (i : nat) | Multiplexer.
Notation router := (list (Rt * http_handler)).

Fixpoint build (cs : list mux_call) (r : Rt) : gores Rt :=
  match cs with
  | [] => Ok r
  | c :: cs => match call c r with (r, None) => build cs r | (_, Some e) => Err e end
  end.
Definition apply (r : router) (rt : Route) (h : http_handler) : gores router :=
  x ← build (route_calls rt) NewRoute; Ok (r ++ [(x, h)]).
Definition apply_service (acc : gores router) (p : nat * ServiceDesc) : gores router :=
  r ← acc; if hasHandler p.2 then apply r (route p.2) (Service p.1) else Ok r.
(** The routes of the services, and then that of the multiplexer. *)
Definition restApiServer (l : list ServiceDesc) : gores router :=
  r ← foldl apply_service (Ok []) (imap pair l);
  x ← build [CPathPrefix "/"] NewRoute; Ok (r ++ [(x, Multiplexer)]).
(** [mux.Router]: the first route that matches. *)
Definition route_of (r : router) (q : Req) : option http_handler :=
  match list_find (fun p => Matches p.1 q = true) r with Some (_, p) => Some p.2 | None => None end.
End router.

Inductive target := GrpcWebServer | GrpcServer | RestApi | NotFound.
Definition isGrpcRequest (ProtoMajor : Z) (ContentType : string) : bool := (ProtoMajor =? 2)%Z && HasPrefix ContentType "application/grpc".
(** [isGrpcWeb]: [IsGrpcWebRequest] or [IsGrpcWebSocketRequest]. *)
Definition handlerFunc (EnableHttp EnableGrpcWeb isGrpcWeb : bool) (ProtoMajor : Z) (ContentType : string) : target :=
  if EnableGrpcWeb && isGrpcWeb then GrpcWebServer
  else if isGrpcRequest ProtoMajor ContentType then GrpcServer
  else if EnableHttp then RestApi else NotFound.

(** ** Origins ([cors.go]) *)

Record wildcard := mkWildcard { w_prefix : string; w_suffix : string }.
Definition wildcard_match (w : wildcard) (s : string) : bool :=
  (String.length (w_prefix w) + String.length (w_suffix w) <=? String.length s)%nat && HasPrefix s (w_prefix w) && HasSuffix s (w_suffix w).
Record CorsHandler := mkCors { allowedOrigins : list string; allowedWOrigins : list wildcard; allowedOriginsAll : bool }.
Fixpoint cors_loop (l : list string) (origins : list string) (worigins : list wildcard) : CorsHandler :=
  match l with
  | [] => mkCors origins worigins false
  | origin :: l =>
      let origin := ToLower origin in
      if bool_decide (origin = "*") then mkCors [] [] true
      else match ServerListen.IndexByte origin "*" with
           | Some i => cors_loop l origins (worigins ++ [mkWildcard (stake i origin) (sdrop (S i) origin)])
           | None => cors_loop l (origins ++ [origin]) worigins
           end
  end.
Definition newCorsHandler (origins : list string) : CorsHandler :=
  match origins with [] => mkCors [] [] true | l => cors_loop l [] [] end.
Definition isOriginAllowed (c : CorsHandler) (origin : string) : bool :=
  allowedOriginsAll c ||
  (let origin := ToLower origin in
   existsb (fun o => bool_decide (o = origin)) (allowedOrigins c) || existsb (fun w => wildcard_match w origin) (allowedWOrigins c)).

(** ** Registration ([registry_handler.go]) *)

Section registration.
Context {Srv UHandler SHandler : Type} (Marshal : Meta -> option string).
Notation GrpcDesc := (ServiceStart.ServiceDesc (Srv := Srv) (UHandler := UHandler) (SHandler := SHandler)).

Definition RegistryPrefix : string := "http.server@registry".

(** What [Prepare] leaves in the closures; [None]: there are none. *)
Record prepared := mkPrepared { endpoints : list string; metaJson : string }.
Definition endpoint_names (l : list GrpcDesc) : list string := l ≫= fun sd => (fun n => n +:+ ".http.endpoint") <$> serviceNames sd.
Definition http_meta (rules : list (option Discovery.HttpRule)) (WithTls legacy : bool) : Meta :=
  mkMeta WithTls (if legacy then rules ≫= fun r => match r with Some r => HttpPatterns r | None => [] end else []) 0 RegistryType_Http rules.
(** [mux_rules]: the rules of the multiplexer.  A rule of the list that is nil would be
    dereferenced for the legacy patterns; there is none.  [Panic]: the process ends. *)
Definition all_rules (EnableHttp EnableGrpcWeb : bool) (mux_rules : list (option Discovery.HttpRule)) (l : list ServiceDesc) (grpc : list GrpcDesc)
  : gores (list (option Discovery.HttpRule)) :=
  rules ← (if EnableHttp then rs ← http_HttpRules l; Ok (mux_rules ++ rs) else Ok []);
  Ok (rules ++ if EnableGrpcWeb then ServiceStart.HttpRules grpc else []).
Definition Prepare (EnableHttp EnableGrpcWeb WithTls legacy live : bool) (addr : string)
    (mux_rules : list (option Discovery.HttpRule)) (l : list ServiceDesc) (grpc : list GrpcDesc) : gores (option prepared) :=
  rules ← all_rules EnableHttp EnableGrpcWeb mux_rules l grpc;
  if bool_decide (rules = []) || negb live || IsPipeAddress addr then Ok None
  else match MarshalRegistryMeta Marshal (http_meta rules WithTls legacy) with
       | None => Panic "Register http service failed"
       | Some j => Ok (Some (mkPrepared (if EnableGrpcWeb then endpoint_names grpc else []) j))
       end.

Definition endpoint_meta (WithTls : bool) : option string := MarshalRegistryMeta Marshal (mkMeta WithTls [] 0 RegistryType_Http_Endpoint []).
Fixpoint register_endpoints (WithTls : bool) (addr : string) (es : list string) (r : registry) : registry * option string :=
  match es with
  | [] => (r, None)
  | e :: es =>
      match endpoint_meta WithTls with
      | None => (r, Some marshal_error)
      | Some j => register_endpoints WithTls addr es (MemoryRegistry.RegisterService r e addr j).1
      end
  end.
Definition http_RegisterServices (p : option prepared) (WithTls : bool) (addr : string) (r : registry) : registry * option string :=
  match p with
  | None => (r, None)
  | Some p =>
      match register_endpoints WithTls addr (endpoints p) r with
      | (r, None) => ((MemoryRegistry.RegisterService r RegistryPrefix addr (metaJson p)).1, None)
      | e => e
      end
  end.
Definition http_UnregisterServices (p : option prepared) (addr : string) (r : registry) : registry :=
  match p with
  | None => r
  | Some p =>
      (MemoryRegistry.UnregisterService (foldl (fun r e => (MemoryRegistry.UnregisterService r e addr).1) r (endpoints p)) RegistryPrefix addr).1
  end.
End registration.
End rules.

(** ** Origins *)

(** A pattern has at most one star, its first; the star stands for any characters. *)
Definition origin_matches (p s : string) : Prop :=
  match ServerListen.IndexByte p "*" with
  | None => p = s
  | Some i => exists mid, s = stake i p +:+ mid +:+ sdrop (S i) p
  end.

Lemma HasSuffix_spec s p : HasSuffix s p = true <-> exists r, s = r +:+ p.
Proof.
  unfold HasSuffix. rewrite andb_true_iff, Nat.leb_le, bool_decide_eq_true. split.
  - intros [_ Hd]. exists (stake (String.length s - String.length p) s). rewrite <- Hd at 2. by rewrite stake_sdrop.
  - intros [r ->]. rewrite length_string_app. split; [lia|]. replace (_ + _ - _) with (String.length r) by lia. apply sdrop_app.
Qed.
Lemma wildcard_match_spec w s : wildcard_match w s = true <-> exists mid, s = w_prefix w +:+ mid +:+ w_suffix w.
Proof.
  unfold wildcard_match. rewrite !andb_true_iff, Nat.leb_le, HasPrefix_spec, HasSuffix_spec. split.
  - intros [[Hl [r ->]] [q Hq]]. rewrite length_string_app in Hl.
    assert (Hs : HasSuffix r (w_suffix w) = true).
    { unfold HasSuffix. rewrite andb_true_iff, Nat.leb_le, bool_decide_eq_true. split; [lia|].
      pose proof (f_equal (sdrop (String.length q)) Hq) as H. rewrite sdrop_app in H. rewrite <- H at 2.
      pose proof (f_equal String.length Hq) as Hlen. rewrite !length_string_app in Hlen.
      replace (String.length q) with (String.length (w_prefix w) + (String.length r - String.length (w_suffix w))) by lia.
      generalize (String.length r - String.length (w_suffix w)) as n. intros n. clear. induction (w_prefix w) as [|a p IH]; [done|]. exact IH. }
    apply HasSuffix_spec in Hs as [mid ->]. by exists mid.
  - intros [mid ->]. split_and!; [rewrite !length_string_app; lia|by eexists|]. exists (w_prefix w +:+ mid). by rewrite string_app_assoc.
Qed.
Lemma cors_loop_spec l os ws origin : isOriginAllowed (cors_loop l os ws) origin = true <->
  ToLower origin ∈ os \/ (exists w, w ∈ ws /\ wildcard_match w (ToLower origin) = true) \/
  exists p, p ∈ l /\ origin_matches (ToLower p) (ToLower origin).
Proof.
  revert os ws. induction l as [|p l IH]; intros os ws; cbn [cors_loop].
  - unfold isOriginAllowed. cbn. rewrite orb_true_iff, !existsb_exists. setoid_rewrite <- list_elem_of_In. setoid_rewrite bool_decide_eq_true.
    split; [|intros [?|[?|(p & []%not_elem_of_nil & _)]]; [left; eauto|by right]].
    intros [(o & Ho & ->)|Hw]; [by left|by right; left].
  - setoid_rewrite elem_of_cons. case_bd (ToLower p = "*") as Hp.
    { split; [|done]. intros _. right. right. exists p. split; [by left|]. unfold origin_matches. rewrite Hp. cbn.
      exists (ToLower origin). by rewrite string_app_nil_r. }
    destruct (ServerListen.IndexByte (ToLower p) "*") as [i|] eqn:Hi; rewrite IH.
    + setoid_rewrite elem_of_app. setoid_rewrite list_elem_of_singleton. split.
      * intros [?|[(w & [?| ->] & Hw)|(q & ? & ?)]]; [by left|right; left; eauto| |right; right; eauto].
        right. right. exists p. split; [by left|]. unfold origin_matches. rewrite Hi. by apply wildcard_match_spec in Hw.
      * intros [?|[(w & ? & Hw)|(q & [->|?] & Hq)]]; [by left|right; left; eauto| |right; right; eauto].
        right. left. eexists. split; [by right|]. apply wildcard_match_spec. unfold origin_matches in Hq. by rewrite Hi in Hq.
    + rewrite elem_of_app, list_elem_of_singleton. split.
      * intros [[?| ->]|[?|(q & ? & ?)]]; [by left| |by right; left|right; right; eauto].
        right. right. exists p. split; [by left|]. unfold origin_matches. by rewrite Hi.
      * intros [?|[?|(q & [->|?] & Hq)]]; [by left; left|by right; left| |right; right; eauto].
        left. right. unfold origin_matches in Hq. by rewrite Hi in Hq.
Qed.

(** Which origins are allowed.  Without a list every origin is; otherwise an origin is allowed
    exactly if it is, but for the case of letters, an entry of the list without a star, or begins
    and ends like an entry with a star, with anything in its place; the order of the entries,
    and where a lone star stands among them, make no difference. *)
Theorem origin_allowed origins origin :
  isOriginAllowed (newCorsHandler origins) origin = true <->
  origins = [] \/ exists p, p ∈ origins /\ origin_matches (ToLower p) (ToLower origin).
Proof.
  unfold newCorsHandler. destruct origins as [|p l]; [split; [by left|done]|]. rewrite cors_loop_spec. split.
  - intros [[]%not_elem_of_nil|[(w & []%not_elem_of_nil & _)|H]]. by right.
  - intros [?|H]; [done|]. by right; right.
Qed.

(** ** Routing *)

Section routing.
Context {Rt Req : Type} (NewRoute : Rt) (call : mux_call -> Rt -> Rt * option string) (Matches : Rt -> Req -> bool).
(** A new route takes every request, and each call that succeeds adds a condition of its own;
    every path begins with a slash. *)
Class RouterLaws (sat : mux_call -> Req -> bool) : Prop := {
  new_matches q : Matches NewRoute q = true;
  call_matches c r r' q : call c r = (r', None) -> Matches r' q = Matches r q && sat c q;
  slash_matches q : sat (CPathPrefix "/") q = true
}.
Context (sat : mux_call -> Req -> bool) `{!RouterLaws sat}.

Lemma build_matches cs r r' q : build call cs r = Ok r' -> Matches r' q = Matches r q && forallb (fun c => sat c q) cs.
Proof.
  revert r. induction cs as [|c cs IH]; intros r; cbn; [intros [= ->]; by rewrite andb_true_r|].
  destruct (call c r) as [r1 [e|]] eqn:Hc; [done|]. intros Hb%IH. by rewrite Hb, (call_matches _ _ _ q Hc), andb_assoc.
Qed.
Definition takes (sd : ServiceDesc) (q : Req) : bool := hasHandler sd && forallb (fun c => sat c q) (route_calls (route sd)).

(** The first route of a list that fits decides. *)
Lemma route_of_app (r1 r2 : list (Rt * http_handler)) q :
  route_of Matches (r1 ++ r2) q = match route_of Matches r1 q with Some h => Some h | None => route_of Matches r2 q end.
Proof.
  unfold route_of. induction r1 as [|p r1 IH]; [done|]. cbn. case_decide; [done|].
  revert IH. destruct (list_find _ (r1 ++ r2)) as [[? ?]|], (list_find _ r1) as [[? ?]|]; cbn; auto.
Qed.
Lemma services_route (f : nat -> nat) l r r' q : foldl (apply_service NewRoute call) (Ok r) (imap (fun j sd => (f j, sd)) l) = Ok r' ->
  route_of Matches r' q = match route_of Matches r q with
                          | Some h => Some h
                          | None => match list_find (fun sd => takes sd q = true) l with Some (i, _) => Some (Service (f i)) | None => None end
                          end.
Proof.
  revert f r. induction l as [|sd l IH]; intros f r; cbn [imap foldl]; [intros [= ->]; by destruct (route_of Matches r' q)|].
  unfold apply_service at 2. cbn [fst snd]. unfold mbind, gores_bind.
  assert (Herr : forall x, (forall r, x <> Ok r) -> foldl (apply_service NewRoute call) x (imap ((fun j sd => (f j, sd)) ∘ S) l) <> Ok r').
  { generalize (imap ((fun (j : nat) (sd : ServiceDesc) => (f j, sd)) ∘ S) l). intros l' x. revert x. induction l' as [|p l' IHl]; intros x Hx; cbn; [by apply Hx|].
    apply IHl. intros r0. unfold apply_service. destruct x; cbn; [by destruct (Hx a)|done|done]. }
  cbn [list_find]. assert (Ht : takes sd q = hasHandler sd && forallb (fun c => sat c q) (route_calls (route sd))) by done.
  destruct (hasHandler sd) eqn:Hh; cbn [andb] in Ht.
  - unfold apply. destruct (build call (route_calls (route sd)) NewRoute) as [x|e|e] eqn:Hb;
      [|intros H; by apply Herr in H..]. cbn [mbind gores_bind]. intros H%(IH (f ∘ S)). rewrite H, route_of_app. destruct (route_of Matches r q); [done|].
    assert (Hx : Matches x q = takes sd q) by (by rewrite (build_matches _ _ _ q Hb), new_matches, Ht).
    unfold route_of at 1. cbn [list_find fst]. rewrite Hx. destruct (decide (takes sd q = true)); [done|]. cbn [fmap option_fmap option_map].
    by destruct (list_find _ l) as [[? ?]|].
  - intros H%(IH (f ∘ S)). rewrite H. destruct (route_of Matches r q); [done|].
    rewrite decide_False by (by rewrite Ht). by destruct (list_find _ l) as [[? ?]|].
Qed.

(** Which service gets a request.  If every route can be described to the router, a request for
    the HTTP server goes to the first service, in the order of registration, that has a handler
    and whose route fits in all respects (path, headers, host, methods, prefix, queries, schemes,
    function); without one it goes to the multiplexer. *)
Theorem first_route_decides l r q : restApiServer NewRoute call l = Ok r ->
  route_of Matches r q = Some (match list_find (fun sd => takes sd q = true) l with Some (i, _) => Service i | None => Multiplexer end).
Proof.
  unfold restApiServer. intros H. apply gores_bind_ok in H as (r1 & Hr1 & H). apply gores_bind_ok in H as (x & Hx & [= <-]).
  rewrite route_of_app, (services_route (fun i => i) l [] r1 q Hr1). cbn.
  destruct (list_find _ l) as [[? ?]|]; [done|]. unfold route_of. cbn.
  by rewrite (build_matches _ _ _ q Hx), new_matches, decide_True by (cbn; by rewrite slash_matches).
Qed.
End routing.

(** ** Registration *)

Section registered.
Context {Srv UHandler SHandler : Type} (MapFromPairsToString : list string -> option (gmap string string)).
Context (Marshal : Meta -> option string) (Unmarshal : string -> option Meta).
Notation GrpcDesc := (ServiceStart.ServiceDesc (Srv := Srv) (UHandler := UHandler) (SHandler := SHandler)).
Notation Prepare := (Prepare (Srv := Srv) (UHandler := UHandler) (SHandler := SHandler) MapFromPairsToString Marshal).

Lemma register_endpoints_at tls addr es j r : endpoint_meta Marshal tls = Some j ->
  exists r', register_endpoints Marshal tls addr es r = (r', None) /\
    forall n a, at_addr r' n a = if decide (n ∈ es /\ a = addr) then Some j else at_addr r n a.
Proof.
  clear MapFromPairsToString Unmarshal. intros Hj. revert r. induction es as [|e es IH]; intros r; cbn [register_endpoints].
  - exists r. split; [done|]. intros n a. by rewrite decide_False by set_solver.
  - rewrite Hj. destruct (IH (MemoryRegistry.RegisterService r e addr j).1) as (r' & -> & Hr). exists r'. split; [done|]. intros n a.
    rewrite Hr, registered_at. destruct (decide (n ∈ es /\ a = addr)) as [[? ->]|Hn]; [by rewrite decide_True by (split; [by right|done])|].
    destruct (decide (n = e /\ a = addr)) as [[-> ->]|Hn']; [by rewrite decide_True by (split; [by left|done])|].
    rewrite decide_False; [done|]. intros [[->|?]%elem_of_cons ->]; tauto.
Qed.

(** The registration of the HTTP server.  After it the registry holds, at the address, the
    rules of the server under the name for HTTP servers and an endpoint for every name of a
    service that grpc-web serves, and is otherwise unchanged; taking the registration back
    removes these entries and nothing else. *)
Theorem http_registered p tls addr je r : endpoint_meta Marshal tls = Some je -> addr <> "" ->
  exists r', http_RegisterServices Marshal (Some p) tls addr r = (r', None) /\
    (forall n a, at_addr r' n a =
       if decide (a = addr /\ n = RegistryPrefix) then Some (metaJson p)
       else if decide (a = addr /\ n ∈ endpoints p) then Some je else at_addr r n a) /\
    (forall n a, at_addr (http_UnregisterServices (Some p) addr r') n a =
       if decide (a = addr /\ (n = RegistryPrefix \/ n ∈ endpoints p)) then None else at_addr r n a).
Proof.
  clear MapFromPairsToString Unmarshal. intros Hj Ha. cbn [http_RegisterServices]. destruct (register_endpoints_at tls addr (endpoints p) je r Hj) as (r1 & -> & Hr1).
  eexists. split; [done|]. assert (Hat : forall n a, at_addr (MemoryRegistry.RegisterService r1 RegistryPrefix addr (metaJson p)).1 n a =
       if decide (a = addr /\ n = RegistryPrefix) then Some (metaJson p)
       else if decide (a = addr /\ n ∈ endpoints p) then Some je else at_addr r n a).
  { intros n a. rewrite registered_at, Hr1. destruct (decide (n = RegistryPrefix /\ a = addr)) as [[-> ->]|H1]; [by rewrite decide_True by done|].
    rewrite (decide_False (P := a = addr /\ n = RegistryPrefix)) by tauto. apply decide_ext. tauto. }
  split; [done|]. intros n a. cbn [http_UnregisterServices].
  pose proof (unregister_names_at addr [RegistryPrefix] (foldl (fun r e => (MemoryRegistry.UnregisterService r e addr).1)
    (MemoryRegistry.RegisterService r1 RegistryPrefix addr (metaJson p)).1 (endpoints p)) n a Ha) as Hu. cbn [foldl] in Hu.
  rewrite Hu. destruct (decide (n ∈ [RegistryPrefix] /\ a = addr)) as [[Hn ->]|H1].
  - apply list_elem_of_singleton in Hn as ->. by rewrite decide_True by auto.
  - rewrite unregister_names_at, Hat by done. destruct (decide (n ∈ endpoints p /\ a = addr)) as [[? ->]|H2]; [by rewrite decide_True by auto|].
    assert (~ (a = addr /\ (n = RegistryPrefix \/ n ∈ endpoints p))) by (intros [-> [->|?]]; [apply H1; split; [by left|done]|tauto]).
    by rewrite !decide_False by tauto.
Qed.

Lemma Prepare_some EnableHttp EnableGrpcWeb WithTls legacy live addr mux l grpc p :
  Prepare EnableHttp EnableGrpcWeb WithTls legacy live addr mux l grpc = Ok (Some p) ->
  exists rules, all_rules MapFromPairsToString EnableHttp EnableGrpcWeb mux l grpc = Ok rules /\ rules <> [] /\ live = true /\
    MarshalRegistryMeta Marshal (http_meta rules WithTls legacy) = Some (metaJson p) /\
    endpoints p = (if EnableGrpcWeb then endpoint_names grpc else []).
Proof.
  unfold HttpService.Prepare. intros H. apply gores_bind_ok in H as (rules & Hr & H). exists rules. split; [done|].
  revert H. case_bd (rules = []) as Hne; [done|]. destruct live; [|done]. cbn. destruct (MarshalRegistryMeta _ _) as [j|]; [|done].
  by intros [= <-].
Qed.

(** *** Requests for grpc-web services *)

Lemma trim_right_char_snoc c s a : a <> c -> trim_right_char c (s +:+ String a "") = s +:+ String a "".
Proof.
  intros Ha. induction s as [|b s IH]; [change (trim_right_char c (String a "") = String a ""); cbn; by rewrite bool_decide_eq_false_2|]. change (String b s +:+ String a "") with (String b (s +:+ String a "")).
  cbn [trim_right_char]. rewrite IH. by destruct s.
Qed.
Definition plain_name (n : string) : Prop := n <> "" /\ contains_char "/" n = false /\ contains_char "{" n = false.
Definition plain_method (m : string) : Prop := m <> "" /\ contains_char "/" m = false /\ contains_char ":" m = false.

Lemma grpc_patterns_eq n : grpc_patterns n = ["/*/" +:+ n +:+ "/*"].
Proof.
  unfold grpc_patterns, RegistryWithPath. cbn [foldl]. pose proof (trim_right_char_snoc "/" ("/" +:+ n +:+ "/") "*" ltac:(done)) as H.
  rewrite !string_app_assoc in H. change ("/" +:+ String "*" "") with "/*" in H. by rewrite H.
Qed.
Lemma ToLower_free c s : (forall a, lower_ascii a = c <-> a = c) -> contains_char c s = false -> contains_char c (ToLower s) = false.
Proof. intros Hc. by rewrite ToLower_contains. Qed.
Lemma ToLower_nonempty s : s <> "" -> ToLower s <> "".
Proof. by destruct s. Qed.

Lemma grpc_pattern_of n : plain_name n -> pattern_of "" ("/*/" +:+ n +:+ "/*") = Some ["*"; ToLower n; "*"].
Proof.
  intros (Hne & Hs & Hb). unfold pattern_of, TemplateConvert. cbn [convert]. rewrite find_variable_none; [|by rewrite !contains_char_app, Hb].
  cbn [mbind gores_bind]. unfold components. rewrite bool_decide_eq_false_2 by done. rewrite bool_decide_eq_true_2 by done.
  change (sdrop 1 ("/*/" +:+ n +:+ "/*")) with ("*" +:+ String "/" (n +:+ "/*")). rewrite ToLower_app. cbn [ToLower].
  change (lower_ascii "/") with "/"%char. rewrite (Split_app_sep "/" (ToLower "*")), ToLower_app by done.
  change (ToLower "/*") with (String "/" "*"). rewrite (Split_app_sep "/" (ToLower n)) by (apply ToLower_free; [apply lower_slash|done]).
  change (Split "/" "*") with ["*"]. change (ToLower "*") with "*". cbn [app last LastIndex].
  apply ToLower_nonempty in Hne. by destruct (ToLower n).
Qed.
Lemma grpc_components verb n m : plain_name n -> plain_method m -> verb <> "" ->
  components verb ("/" +:+ n +:+ "/" +:+ m) = Ok [ToLower verb; ToLower n; ToLower m].
Proof.
  intros (_ & Hs & _) (Hm & Hms & Hmc) Hv. unfold components. rewrite bool_decide_eq_false_2 by done. rewrite bool_decide_eq_false_2 by done.
  change (sdrop 1 ("/" +:+ n +:+ "/" +:+ m)) with (n +:+ String "/" m). rewrite ToLower_app. cbn [ToLower].
  change (lower_ascii "/") with "/"%char. rewrite (Split_app_sep "/" (ToLower n)) by (apply ToLower_free; [apply lower_slash|done]).
  rewrite (Split_free "/" (ToLower m)) by (apply ToLower_free; [apply lower_slash|done]). cbn.
  rewrite LastIndex_free; [done|]. by apply ToLower_free; [apply lower_colon|].
Qed.

(** Methods of grpc-web services can be found.  The metadata that the server registers is read
    back, by a discovery, with the TLS setting of the server and with the rules it was made of; and
    for every name of a service that grpc-web serves one of these rules, without conditions on
    headers, has a pattern that matches the path of every method of that service, whatever the
    HTTP method of the request. *)
Theorem grpc_web_announced EnableHttp WithTls legacy live addr mux l grpc p (sd : GrpcDesc) n m verb :
  Prepare EnableHttp true WithTls legacy live addr mux l grpc = Ok (Some p) -> (forall m j, Marshal m = Some j -> Unmarshal j = Some m) ->
  sd ∈ grpc -> n ∈ serviceNames sd -> plain_name n -> plain_method m -> verb <> "" ->
  (n +:+ ".http.endpoint") ∈ endpoints p /\
  exists meta hr pat pt cs, UnmarshalRegistryMeta Unmarshal (metaJson p) = Some meta /\ TlsServer meta = WithTls /\
    (EnableHttp = true -> mux ⊆ instance_rules RegistryPrefix meta) /\
    Some hr ∈ instance_rules RegistryPrefix meta /\ HeaderMap hr = [] /\ HeaderRegexMap hr = [] /\ pat ∈ HttpPatterns hr /\
    pattern_of "" pat = Some pt /\ components verb ("/" +:+ n +:+ "/" +:+ m) = Ok cs /\ pm pt cs.
Proof.
  intros (rules & Hr & _ & _ & Hj & He)%Prepare_some Hu Hsd Hn Hname Hmeth Hverb. split.
  { rewrite He. apply list_elem_of_bind. exists sd. split; [|done]. apply list_elem_of_fmap. by exists n. }
  pose proof (meta_roundtrip Marshal Unmarshal _ _ Hu Hj) as Hmeta. unfold all_rules in Hr.
  apply gores_bind_ok in Hr as (rules1 & Hr1 & [= <-]). eexists _, (mkHttpRule (grpc ≫= fun sd => serviceNames sd ≫= grpc_patterns) [] []), ("/*/" +:+ n +:+ "/*"), _, _.
  split; [exact Hmeta|]. split; [done|]. unfold instance_rules, http_meta. cbn [Version Type_ Discovery.HttpRules].
  change (CurrentVersion <? 2)%Z with false. change (CurrentVersion =? 2)%Z with false. change (CurrentVersion =? 3)%Z with true.
  change (RegistryType_Http =? RegistryType_Http)%Z with true. change (RegistryType_Http =? RegistryType_Http_Endpoint)%Z with false. cbn [andb orb app].
  rewrite app_nil_r. split_and!; [| |done|done| |by apply grpc_pattern_of|by apply grpc_components|].
  - intros ->. apply gores_bind_ok in Hr1 as (rs & _ & [= <-]). set_solver.
  - apply elem_of_app. right. by left.
  - cbn [HttpPatterns]. apply list_elem_of_bind. exists sd. split; [|done]. apply list_elem_of_bind. exists n. split; [|done].
    rewrite grpc_patterns_eq. by left.
  - destruct Hname as (? & _ & _), Hmeth as (? & _ & _).
    apply pm_star; [by apply ToLower_nonempty|]. apply pm_lit; [by apply ToLower_nonempty|]. apply pm_star; [by apply ToLower_nonempty|]. apply pm_nil.
Qed.
End registered.

(** ** Examples *)

(** A router that keeps the calls; a request is a path. *)
Definition example_sat (c : mux_call) (q : string) : bool :=
  match c with CPath t => bool_decide (q = t) | CPathPrefix p => bool_decide (p = "/") || HasPrefix q p | _ => true end.
Definition example_call (c : mux_call) (r : list mux_call) : list mux_call * option string := (r ++ [c], None).
Definition example_Matches (r : list mux_call) (q : string) : bool := forallb (fun c => example_sat c q) r.
#[export] Instance example_router_laws : RouterLaws [] example_call example_Matches example_sat.
Proof.
  split; [done| |done]. intros c r r' q [= <-]. unfold example_Matches. rewrite forallb_app. cbn. by rewrite andb_true_r.
Qed.
Definition example_sds : list ServiceDesc :=
  [mkDesc (SetPath "/a" NewRouteOpt) true emptyHttpOptions; mkDesc (SetPath "/b" NewRouteOpt) false emptyHttpOptions;
   mkDesc (PathPrefix "/b" NewRouteOpt) true emptyHttpOptions; mkDesc (Methods ["GET"; "POST"] (SetPath "/c" NewRouteOpt)) true emptyHttpOptions].

(** A route by prefix is announced as a rule that matches nothing, a route for two methods for the
    second of them only. *)
Example announced_routes : http_HttpRules (fun _ => None) example_sds =
  Ok [Some (mkHttpRule ["/*/a"] [] []); Some (mkHttpRule [] [] []); Some (mkHttpRule ["/POST/c"] [] [])].
Proof. done. Qed.

Lemma first_route_decides_witness :
  exists r, restApiServer [] example_call example_sds = Ok r /\ route_of example_Matches r "/b/x" = Some (Service 2) /\
    route_of example_Matches r "/d" = Some Multiplexer.
Proof.
  eexists. split; [by vm_compute|]. split.
  - by rewrite (first_route_decides [] example_call example_Matches example_sat example_sds).
  - by rewrite (first_route_decides [] example_call example_Matches example_sat example_sds).
Defined.

#[export] Instance rule_eq_dec : EqDecision Discovery.HttpRule.
Proof. solve_decision. Defined.
#[export] Instance meta_eq_dec : EqDecision Meta.
Proof. solve_decision. Defined.
(** Metadata in one word. *)
Definition http_Marshal (m : Meta) : option string :=
  if decide (m = mkMeta false [] 3 RegistryType_Http [Some (mkHttpRule ["/*/pkg.Svc/*"] [] [])]) then Some "rules"
  else if decide (m = mkMeta false [] 3 RegistryType_Http_Endpoint []) then Some "endpoint" else None.
Definition http_Unmarshal (j : string) : option Meta :=
  if decide (j = "rules") then Some (mkMeta false [] 3 RegistryType_Http [Some (mkHttpRule ["/*/pkg.Svc/*"] [] [])])
  else if decide (j = "endpoint") then Some (mkMeta false [] 3 RegistryType_Http_Endpoint []) else None.
Lemma http_json_roundtrip m j : http_Marshal m = Some j -> http_Unmarshal j = Some m.
Proof. unfold http_Marshal. repeat case_decide; [intros [= <-]; by subst..|done]. Qed.
Definition example_grpc : list (ServiceStart.ServiceDesc (Srv := unit) (UHandler := nat) (SHandler := nat)) :=
  [ServiceStart.mkDesc ServiceRegistry.example_info (alias_options []) 0].
Definition example_prepared : prepared := mkPrepared ["pkg.Svc.http.endpoint"] "rules".

Lemma http_registered_witness :
  exists r', http_RegisterServices http_Marshal (Some example_prepared) false "h1:80" ∅ = (r', None) /\
    at_addr r' "http.server@registry" "h1:80" = Some "rules" /\ at_addr r' "pkg.Svc.http.endpoint" "h1:80" = Some "endpoint" /\
    at_addr (http_UnregisterServices (Some example_prepared) "h1:80" r') "pkg.Svc.http.endpoint" "h1:80" = None.
Proof.
  destruct (http_registered http_Marshal example_prepared false "h1:80" "endpoint" ∅) as (r' & Hr & Hat & Hun); [by vm_compute|done|].
  exists r'. split; [exact Hr|]. rewrite !Hat, Hun. split_and!; by vm_compute.
Defined.
Lemma grpc_web_announced_witness :
  ("pkg.Svc" +:+ ".http.endpoint") ∈ endpoints example_prepared /\
  exists meta hr pat pt cs, UnmarshalRegistryMeta http_Unmarshal (metaJson example_prepared) = Some meta /\ TlsServer meta = false /\
    (false = true -> [] ⊆ instance_rules RegistryPrefix meta) /\
    Some hr ∈ instance_rules RegistryPrefix meta /\ HeaderMap hr = [] /\ HeaderRegexMap hr = [] /\ pat ∈ HttpPatterns hr /\
    pattern_of "" pat = Some pt /\ components "POST" ("/" +:+ "pkg.Svc" +:+ "/" +:+ "Get") = Ok cs /\ pm pt cs.
Proof.
  apply (grpc_web_announced (fun _ => None) http_Marshal http_Unmarshal false false false true "h1:80" [] [] example_grpc example_prepared
    (ServiceStart.mkDesc ServiceRegistry.example_info (alias_options []) 0));
    [by vm_compute|exact http_json_roundtrip|by left|by left|by split_and!|by split_and!|done].
Defined.

End HttpService.
