(* ===== verification/TlsInfo.v ===== *)
(** * Forwarding the TLS identity of a peer ([credentials/credentials.go], second half).

    A proxy puts what it knows of its TLS peer into the metadata of a call, compressed and
    signed with RSA; the server behind it checks the signature and takes the identity from
    there.  Both sides memoise.  Encoders, compression, hash, signature and base64 are those
    of the standard library (class [TlsCodec]); the fields of certificates that are not
    forwarded are a type of their own. *)

From S2P Require Import Prelude GoStrings Value GrpcMetadata.
From Stdlib Require Import Ascii.

Open Scope string_scope.
Open Scope list_scope.

Module TlsInfo.

Definition TlsInfoSign : string := "x-frame-tls-info".
Definition signatureLen : nat := 256.

(** [pkix.Name], [pkix.Extension]; times are instants, addresses bytes, URIs texts. *)
Record Name := mkName {
  Country : list string; Organization : list string; OrganizationalUnit : list string; Locality : list string; Province : list string;
  StreetAddress : list string; PostalCode : list string; NameSerialNumber : string; CommonName : string;
  Names : list (list Z * string); ExtraNames : list (list Z * string)
}.
Record Extension := mkExtension { Id : list Z; Critical : bool; ExtensionValue : string }.

Section info.
(** The fields of a certificate that are not forwarded ([None] for zero values). *)
Context {Rest : Type}.

Record Certificate := mkCertificate {
  SerialNumber : option Z; CertVersion : Z; Issuer : Name; Subject : Name; NotBefore : Z; NotAfter : Z; KeyUsage : Z;
  DNSNames : list string; EmailAddresses : list string; IPAddresses : list string; URIs : list string;
  Extensions : list Extension; ExtraExtensions : list Extension; others : option Rest
}.

(** [credentials.TLSInfo]; certificates are pointers. *)
Record TLSInfo := mkTLSInfo {
  ServerName : string; CipherSuite : Z; Version : Z; HandshakeComplete : bool;
  PeerCertificates : list (option Certificate); VerifiedChains : list (list (option Certificate))
}.

End info.
Arguments Certificate : clear implicits.
Arguments TLSInfo : clear implicits.

Class TlsCodec (Rest PubKey PrivKey : Type) := {
  gob_Encode : TLSInfo Rest -> option string;
  gob_Decode : string -> option (TLSInfo Rest);
  gzip_Write : string -> option string;
  gzip_Read : string -> option string;
  Sum256 : string -> string;
  SignPKCS1v15 : PrivKey -> string -> option string;
  VerifyPKCS1v15 : PubKey -> string -> string -> bool;
  base64_EncodeToString : string -> string;
  base64_DecodeString : string -> option string
}.

(** What the standard library promises; [pub] is the public half of a key. *)
Class TlsCodecLaws (Rest PubKey PrivKey : Type) `{TlsCodec Rest PubKey PrivKey} (pub : PrivKey -> PubKey) : Prop := {
  gob_decode_encode i s : gob_Encode i = Some s -> gob_Decode s = Some i;
  gzip_read_write s z : gzip_Write s = Some z -> gzip_Read z = Some s;
  rsa_verify_sign k h sig : SignPKCS1v15 k h = Some sig -> VerifyPKCS1v15 (pub k) h sig = true;
  base64_decode_encode s : base64_DecodeString (base64_EncodeToString s) = Some s
}.

Section forwarding.
Context {Rest PubKey PrivKey MD : Type} `{TlsCodec Rest PubKey PrivKey} `{Metadata MD}.
Notation Cert := (Certificate Rest).
Notation Info := (TLSInfo Rest).

(** [SerialNumber.String()] of every certificate that is not nil, one after the other. *)
Definition serial_string (c : Cert) : string := match SerialNumber c with Some n => Value.FormatInt n | None => "<nil>" end.
Definition tlsInfoKey (i : Info) : string := String.concat "" (serial_string <$> omap id (PeerCertificates i)).

(** The fields of a new certificate; a nil certificate panics. *)
Definition copyCertificateInfo (src : option Cert) : gores (option Cert) :=
  match src with
  | None => Panic "nil pointer dereference"
  | Some src => Ok (Some (mkCertificate None (CertVersion src) (Issuer src) (Subject src) (NotBefore src) (NotAfter src) (KeyUsage src)
      (DNSNames src) (EmailAddresses src) (IPAddresses src) (URIs src) (Extensions src) (ExtraExtensions src) None))
  end.
Fixpoint copy_certs (cs : list (option Cert)) : gores (list (option Cert)) :=
  match cs with
  | [] => Ok []
  | c :: cs => c' ← copyCertificateInfo c; cs' ← copy_certs cs; Ok (c' :: cs')
  end.
Fixpoint copy_chains (cs : list (list (option Cert))) : gores (list (list (option Cert))) :=
  match cs with
  | [] => Ok []
  | c :: cs => c' ← copy_certs c; cs' ← copy_chains cs; Ok (c' :: cs')
  end.
Definition tlsInfoForward (i : Info) : gores Info :=
  peers ← copy_certs (PeerCertificates i);
  vchains ← copy_chains (VerifiedChains i);
  Ok (mkTLSInfo (ServerName i) (CipherSuite i) (Version i) (HandshakeComplete i) peers vchains).

(** The header of an identity. *)
Definition of_option {A} (e : string) (o : option A) : gores A := match o with Some a => Ok a | None => Err e end.
Definition tls_header (key : PrivKey) (i : Info) : gores string :=
  fwd ← tlsInfoForward i;
  buf ← of_option "gob" (gob_Encode fwd);
  z ← of_option "gzip" (gzip_Write buf);
  sig ← of_option "sign" (SignPKCS1v15 key (Sum256 z));
  Ok (base64_EncodeToString (z +:+ sig)).

Definition SetTlsInfoHeader (outgoing : option MD) (header : string) : MD :=
  md_Set (default md_empty outgoing) TlsInfoSign [header].

(** [tlsInfoToMetaMap] and the outgoing metadata, before and after. *)
Definition PeerTlsInfoToMeta (toMeta : gmap string string) (outgoing : option MD) (tlsInfo : option Info) (key : option PrivKey)
  : gores (gmap string string * option MD) :=
  match tlsInfo, key with
  | None, _ => Ok (toMeta, outgoing)
  | Some _, None => Err "TlsInfoToMeta, rsaPrivateKey is nil"
  | Some i, Some key =>
      let k := tlsInfoKey i in
      if bool_decide (k = "") then Ok (toMeta, outgoing)
      else match toMeta !! k with
           | Some header => Ok (toMeta, Some (SetTlsInfoHeader outgoing header))
           | None =>
               header ← tls_header key i;
               Ok (<[k := header]> toMeta, Some (SetTlsInfoHeader outgoing header))
           end
  end.

(** The receiver: [tlsInfoFromMetaMap] and the default key. *)
Record receiver := mkReceiver { fromMeta : gmap string Info; defaultPubkey : option PubKey }.

Definition SetDefaultPublicKeyForTlsInfoVerify (r : receiver) (publicKey : option PubKey) : receiver := mkReceiver (fromMeta r) publicKey.

(** The check of a header that is not memoised. *)
Definition check_header (pk : PubKey) (header : string) : option Info :=
  data ← base64_DecodeString header;
  if (String.length data <? signatureLen)%nat then None
  else
    let n := String.length data - signatureLen in
    let compressed := stake n data in
    let signature := sdrop n data in
    if VerifyPKCS1v15 pk (Sum256 compressed) signature then gobTlsInfo ← gzip_Read compressed; gob_Decode gobTlsInfo
    else None.

Definition peerTlsInfoFromMeta (r : receiver) (incoming : option MD) (publicKey : option PubKey) : receiver * option Info :=
  let publicKey := match publicKey with Some _ => publicKey | None => defaultPubkey r end in
  match publicKey, incoming with
  | None, _ | _, None => (r, None)
  | Some pk, Some md =>
      match md_Get md TlsInfoSign with
      | [] => (r, None)
      | header :: _ =>
          match fromMeta r !! header with
          | Some i => (r, Some i)
          | None =>
              match check_header pk header with
              | None => (r, None)
              | Some i => (mkReceiver (<[header := i]> (fromMeta r)) (defaultPubkey r), Some i)
              end
          end
      end
  end.

(** [AuthInfo] of the peer of a connection: its type, and the information if it is that of
    package [credentials]. *)
Definition peerTlsInfoFromPeer (peer : option (option (string * option Info))) : option Info :=
  authInfo ← peer; '(ty, info) ← authInfo; if bool_decide (ty = "tls") then info else None.

Definition PeerTlsInfo (r : receiver) (incoming : option MD) (peer : option (option (string * option Info))) : receiver * option Info :=
  let '(r, i) := peerTlsInfoFromMeta r incoming None in
  (r, match i with Some _ => i | None => peerTlsInfoFromPeer peer end).

(** [position] is an index into a slice. *)
Definition PeerTlsCommonName (r : receiver) (incoming : option MD) (peer : option (option (string * option Info))) (position : Z)
  : receiver * gores string :=
  let '(r, i) := PeerTlsInfo r incoming peer in
  (r, match i with
      | None => Err "no tls info"
      | Some i =>
          if negb (HandshakeComplete i) then Err "PeerTlsCommonName, tls handshake incomplete"
          else if (Z.of_nat (length (PeerCertificates i)) <=? position)%Z then Err "TlsAuthSubject, tlsInfo.State.PeerCertificates is empty"
          else if (position <? 0)%Z then Panic "index out of range"
          else match PeerCertificates i !! Z.to_nat position with
               | Some (Some c) => Ok (CommonName (Subject c))
               | _ => Panic "nil pointer dereference"
               end
      end).
Definition TlsAuthSubject (r : receiver) (incoming : option MD) (peer : option (option (string * option Info))) :=
  PeerTlsCommonName r incoming peer 0.
Definition TlsAuthServerName (r : receiver) (incoming : option MD) (peer : option (option (string * option Info))) : receiver * option string :=
  let '(r, i) := PeerTlsInfo r incoming peer in (r, ServerName <$> i).

(** ** Properties *)

(** What is forwarded of a certificate. *)
Definition forwarded_as (c c' : option Cert) : Prop :=
  exists x y, c = Some x /\ c' = Some y /\ CertVersion y = CertVersion x /\ Issuer y = Issuer x /\ Subject y = Subject x /\
    NotBefore y = NotBefore x /\ NotAfter y = NotAfter x /\ KeyUsage y = KeyUsage x /\ DNSNames y = DNSNames x /\
    EmailAddresses y = EmailAddresses x /\ IPAddresses y = IPAddresses x /\ URIs y = URIs x /\
    Extensions y = Extensions x /\ ExtraExtensions y = ExtraExtensions x.
(** And of an identity. *)
Definition identity_kept (i i' : Info) : Prop :=
  ServerName i' = ServerName i /\ CipherSuite i' = CipherSuite i /\ Version i' = Version i /\ HandshakeComplete i' = HandshakeComplete i /\
  Forall2 forwarded_as (PeerCertificates i) (PeerCertificates i') /\
  Forall2 (Forall2 forwarded_as) (VerifiedChains i) (VerifiedChains i').

Lemma copy_certs_copied (cs : list (option Cert)) :
  match copy_certs cs with Ok cs' => Forall2 forwarded_as cs cs' | Err _ => False | Panic _ => None ∈ cs end.
Proof.
  induction cs as [|[c|] cs IH]; cbn; [constructor| |by left]. destruct (copy_certs cs) as [cs'|e|e]; cbn; [|done|by right].
  constructor; [|done]. by eexists _, _.
Qed.
Lemma copy_chains_copied (cs : list (list (option Cert))) :
  match copy_chains cs with Ok cs' => Forall2 (Forall2 forwarded_as) cs cs' | Err _ => False | Panic _ => exists c, c ∈ cs /\ None ∈ c end.
Proof.
  induction cs as [|c cs IH]; cbn; [constructor|]. pose proof (copy_certs_copied c) as Hc.
  destruct (copy_certs c) as [c'|e|e]; cbn; [|done|exists c; split; [by left|done]].
  destruct (copy_chains cs) as [cs'|e|e]; cbn; [by constructor|done|]. destruct IH as (c2 & ? & ?). exists c2. split; [by right|done].
Qed.
Lemma tlsInfoForward_keeps (i : Info) :
  match tlsInfoForward i with
  | Ok fwd => identity_kept i fwd
  | Err _ => False
  | Panic _ => None ∈ PeerCertificates i \/ exists c, c ∈ VerifiedChains i /\ None ∈ c
  end.
Proof.
  unfold tlsInfoForward. pose proof (copy_certs_copied (PeerCertificates i)) as Hp. pose proof (copy_chains_copied (VerifiedChains i)) as Hv.
  destruct (copy_certs _) as [ps|e|e]; cbn; [|done|by left]. destruct (copy_chains _) as [vs|e|e]; cbn; [|done|by right]. done.
Qed.
Lemma tlsInfoKey_nonempty (i : Info) (c : Cert) : Some c ∈ PeerCertificates i -> tlsInfoKey i <> "".
Proof.
  unfold tlsInfoKey. intros Hin. induction (PeerCertificates i) as [|c' cs IH]; [by apply not_elem_of_nil in Hin|].
  assert (Happ : forall l a b, String.concat "" (a :: b :: l) = a +:+ String.concat "" (b :: l)) by done.
  assert (Hs : forall c : Cert, serial_string c <> "") by (intros [[n|]]; [apply Value.FormatInt_nonempty|done]).
  destruct c' as [c'|]; cbn [omap list_omap id].
  - cbn [fmap list_fmap]. destruct (serial_string <$> _) as [|b l]; [exact (Hs c')|]. rewrite Happ. intros E. destruct (serial_string c') eqn:Es; [by apply (Hs c')|done].
  - apply elem_of_cons in Hin as [|Hin]; [done|by apply IH].
Qed.

(** The text that a header stands for. *)
Lemma check_header_inv (pk : PubKey) (header : string) (i : Info) : check_header pk header = Some i ->
  exists compressed signature gob, base64_DecodeString header = Some (compressed +:+ signature) /\
    String.length signature = signatureLen /\ VerifyPKCS1v15 pk (Sum256 compressed) signature = true /\
    gzip_Read compressed = Some gob /\ gob_Decode gob = Some i.
Proof.
  unfold check_header. destruct (base64_DecodeString header) as [data|]; [|done]. cbn [mbind option_bind].
  destruct (Nat.ltb_spec (String.length data) signatureLen) as [|Hlen]; [done|]. set (n := String.length data - signatureLen).
  destruct (VerifyPKCS1v15 _ _ _) eqn:Ev; [|done]. destruct (gzip_Read _) as [g|] eqn:Eg; [|done]. cbn. intros Ed.
  exists (stake n data), (sdrop n data), g. rewrite stake_sdrop. split_and!; try done.
  assert (Hl : String.length data = String.length (stake n data) + String.length (sdrop n data)) by (by rewrite <- length_string_app, stake_sdrop).
  assert (Hs : forall m s, (m <= String.length s)%nat -> String.length (stake m s) = m).
  { clear. intros m s. revert m. induction s as [|a s IH]; intros [|m] Hm; cbn in *; try lia. rewrite IH; lia. }
  rewrite (Hs n data) in Hl by (unfold n; lia). unfold n in Hl |- *. lia.
Qed.

Section laws.
Context (pub : PrivKey -> PubKey) `{!TlsCodecLaws Rest PubKey PrivKey pub} `{!MetadataLaws MD}.

Lemma check_tls_header (key : PrivKey) (i fwd : Info) (header : string) :
  (forall h sig, SignPKCS1v15 key h = Some sig -> String.length sig = signatureLen) ->
  tlsInfoForward i = Ok fwd -> tls_header key i = Ok header -> check_header (pub key) header = Some fwd.
Proof.
  intros Hlen Hf Hh. unfold tls_header in Hh. rewrite Hf in Hh. cbn [mbind gores_bind] in Hh.
  destruct (gob_Encode fwd) as [buf|] eqn:Eg; [|done]. cbn [mbind gores_bind of_option] in Hh.
  destruct (gzip_Write buf) as [z|] eqn:Ez; [|done]. cbn [mbind gores_bind of_option] in Hh.
  destruct (SignPKCS1v15 key (Sum256 z)) as [sig|] eqn:Es; [|done]. injection Hh as <-.
  unfold check_header. rewrite base64_decode_encode. cbn [mbind option_bind]. rewrite length_string_app, (Hlen _ _ Es).
  destruct (Nat.ltb_spec (String.length z + signatureLen) signatureLen); [lia|].
  replace (String.length z + signatureLen - signatureLen)%nat with (String.length z) by lia.
  rewrite stake_app, sdrop_app, (rsa_verify_sign _ _ _ Es), (gzip_read_write _ _ Ez). cbn. by apply gob_decode_encode.
Qed.

(** C38: the identity of a peer survives forwarding.  Let a proxy forward the TLS identity of a
    peer that showed certificates, with a key of 2048 bits, and let it not have forwarded
    one before whose serial numbers give the same text when they are written one after the other
    (a header is memoised under that text, so that such a peer would be sent in its place:
    [forwarded_identity_confused]).  Then the server behind it, which has the public key and
    has not read the header before, reads the server name, the cipher suite, the version and the state of the handshake,
    and of every certificate of the peer and of its verified chains the twelve fields that are
    forwarded; other metadata stay as they are.  There is an error only when one of the
    encoders, the compression or the signature fails, and a panic only for a certificate that
    is nil. *)
Theorem tls_identity_forwarded (toMeta : gmap string string) (outgoing : option MD) (i : Info) (c : Cert) (key : PrivKey) (r : receiver) :
  Some c ∈ PeerCertificates i -> toMeta !! tlsInfoKey i = None ->
  (forall h sig, SignPKCS1v15 key h = Some sig -> String.length sig = signatureLen) ->
  match PeerTlsInfoToMeta toMeta outgoing (Some i) (Some key) with
  | Ok (toMeta', Some md) =>
      (forall k, k <> TlsInfoSign -> md_Get md k = md_Get (default md_empty outgoing) k) /\
      ((forall header, header ∈ md_Get md TlsInfoSign -> fromMeta r !! header = None) ->
       exists fwd, (peerTlsInfoFromMeta r (Some md) (Some (pub key))).2 = Some fwd /\ identity_kept i fwd)
  | Ok (_, None) => False
  | Err _ => (exists j, gob_Encode j = None) \/ (exists s, gzip_Write s = None) \/ (exists h, SignPKCS1v15 key h = None)
  | Panic _ => None ∈ PeerCertificates i \/ exists c, c ∈ VerifiedChains i /\ None ∈ c
  end.
Proof.
  intros Hc Hn Hlen. unfold PeerTlsInfoToMeta. rewrite bool_decide_eq_false_2, Hn by (by eapply tlsInfoKey_nonempty).
  pose proof (tlsInfoForward_keeps i) as Hkept. destruct (tls_header key i) as [header|e|e] eqn:Eh; cbn [mbind gores_bind].
  - unfold SetTlsInfoHeader. split; [intros k Hne; rewrite md_Get_Set; by rewrite decide_False|].
    unfold peerTlsInfoFromMeta. rewrite md_Get_Set, decide_True by done. intros Hr. rewrite Hr by by left.
    destruct (tlsInfoForward i) as [fwd|e|e] eqn:Ef; [|done|by unfold tls_header in Eh; rewrite Ef in Eh].
    exists fwd. by rewrite (check_tls_header key i fwd header).
  - unfold tls_header in Eh. destruct (tlsInfoForward i) as [fwd|e'|e']; cbn [mbind gores_bind] in Eh; [|done..].
    destruct (gob_Encode fwd) as [buf|] eqn:Eg; cbn [mbind gores_bind of_option] in Eh; [|by left; eexists].
    destruct (gzip_Write buf) as [z|] eqn:Ez; cbn [mbind gores_bind of_option] in Eh; [|by right; left; eexists].
    destruct (SignPKCS1v15 key (Sum256 z)) as [sig|] eqn:Es; [done|by right; right; eexists].
  - unfold tls_header in Eh. destruct (tlsInfoForward i) as [fwd|e'|e']; cbn [mbind gores_bind] in Eh; [|done..].
    destruct (gob_Encode fwd) as [buf|]; cbn [mbind gores_bind of_option] in Eh; [|done].
    destruct (gzip_Write buf) as [z|]; cbn [mbind gores_bind of_option] in Eh; [|done].
    by destruct (SignPKCS1v15 key (Sum256 z)) as [sig|].
Qed.

(** a forwarded identity can be someone else's.  After a proxy has forwarded the identity
    of one peer, it sends the same header for every other peer whose serial numbers, written
    one after the other, give the same text, whatever its certificates, its server name and
    the key asked for; so the server behind it reads the identity of the first peer. *)
Theorem forwarded_identity_confused (toMeta toMeta' : gmap string string) (outgoing : option MD) (md : MD) (i j fwd : Info)
    (key key' : PrivKey) (r : receiver) :
  tlsInfoKey i <> "" -> tlsInfoKey j = tlsInfoKey i -> toMeta !! tlsInfoKey i = None -> tlsInfoForward i = Ok fwd ->
  (forall h sig, SignPKCS1v15 key h = Some sig -> String.length sig = signatureLen) -> fromMeta r = ∅ ->
  PeerTlsInfoToMeta toMeta outgoing (Some i) (Some key) = Ok (toMeta', Some md) ->
  PeerTlsInfoToMeta toMeta' outgoing (Some j) (Some key') = Ok (toMeta', Some md) /\
  (peerTlsInfoFromMeta r (Some md) (Some (pub key))).2 = Some fwd.
Proof.
  intros Hk Hj Hn Hf Hlen Hr Hs. unfold PeerTlsInfoToMeta in Hs. rewrite bool_decide_eq_false_2, Hn in Hs by done.
  destruct (tls_header key i) as [header| |] eqn:Eh; [|done..]. injection Hs as <- <-. split.
  - unfold PeerTlsInfoToMeta. rewrite Hj, bool_decide_eq_false_2 by done. by rewrite lookup_insert_eq.
  - unfold peerTlsInfoFromMeta, SetTlsInfoHeader. rewrite md_Get_Set, decide_True, Hr, lookup_empty by done.
    by rewrite (check_tls_header key i fwd header).
Qed.

End laws.

(** ** What a receiver believes *)

Definition key_in (trusted : PubKey -> Prop) (pk : option PubKey) : Prop := forall k, pk = Some k -> trusted k.

Inductive recv_step (trusted : PubKey -> Prop) (r : receiver) : receiver -> Prop :=
| recv_lookup incoming pk : key_in trusted pk -> recv_step trusted r (peerTlsInfoFromMeta r incoming pk).1
| recv_default pk : key_in trusted pk -> recv_step trusted r (SetDefaultPublicKeyForTlsInfoVerify r pk).

Definition recv_ok (trusted : PubKey -> Prop) (r : receiver) : Prop :=
  key_in trusted (defaultPubkey r) /\
  forall h i, fromMeta r !! h = Some i -> exists k, trusted k /\ check_header k h = Some i.

Lemma lookup_ok (trusted : PubKey -> Prop) (r : receiver) (md : option MD) (pk : option PubKey) : recv_ok trusted r -> key_in trusted pk ->
  recv_ok trusted (peerTlsInfoFromMeta r md pk).1 /\
  forall i, (peerTlsInfoFromMeta r md pk).2 = Some i ->
    exists m header k, md = Some m /\ head (md_Get m TlsInfoSign) = Some header /\ trusted k /\ check_header k header = Some i.
Proof.
  intros [Hd Hc] Hpk. unfold peerTlsInfoFromMeta.
  assert (Hk : key_in trusted (match pk with Some _ => pk | None => defaultPubkey r end)) by (by destruct pk).
  destruct (match pk with Some _ => pk | None => _ end) as [k|]; [|done]. specialize (Hk k eq_refl).
  destruct md as [m|]; [|done]. destruct (md_Get m TlsInfoSign) as [|header hs] eqn:Em; [done|].
  destruct (fromMeta r !! header) as [i|] eqn:Ef.
  { split; [done|]. intros i' [= <-]. destruct (Hc _ _ Ef) as (k' & ? & ?). exists m, header, k'. by rewrite Em. }
  destruct (check_header k header) as [i|] eqn:Ech; [|done]. split.
  - split; [done|]. cbn. intros h i'. rewrite lookup_insert_case. case_decide as Eh; [|apply Hc]. subst h. intros [= <-]. eauto.
  - intros i' [= <-]. exists m, header, k. by rewrite Em.
Qed.

(** Forwarded identities are signed.  Whatever headers a server has read before and
    whatever keys of a trusted set it has used and made its default, the identity it reads
    from metadata is the content of the first header, whose signature is valid under one of
    those keys; though not necessarily the key of this call, since headers are memoised
    without it. *)
Theorem forwarded_identity_signed (trusted : PubKey -> Prop) (r : receiver) (md : option MD) (pk : option PubKey) (i : Info) :
  rtc (recv_step trusted) (mkReceiver ∅ None) r -> key_in trusted pk ->
  (peerTlsInfoFromMeta r md pk).2 = Some i ->
  exists m header k compressed signature gob, md = Some m /\ head (md_Get m TlsInfoSign) = Some header /\ trusted k /\
    base64_DecodeString header = Some (compressed +:+ signature) /\ String.length signature = signatureLen /\
    VerifyPKCS1v15 k (Sum256 compressed) signature = true /\ gzip_Read compressed = Some gob /\ gob_Decode gob = Some i.
Proof.
  intros Hr Hpk Hi. assert (Hok : recv_ok trusted r).
  { refine (rtc_invariant _ (recv_ok trusted) _ _ _ r Hr); [split; cbn; done|]. clear.
    intros r r' Hok [incoming pk Hpk|pk Hpk]; [by apply lookup_ok|]. split; [exact Hpk|apply Hok]. }
  destruct (proj2 (lookup_ok trusted r md pk Hok Hpk) i Hi) as (m & header & k & -> & Hh & Hk & Hc).
  apply check_header_inv in Hc as (z & sig & g & ? & ? & ? & ? & ?). exists m, header, k, z, sig, g. done.
Qed.

(** A header read under one key is believed under every other one afterwards. *)
Lemma header_believed_under_any_key (r : receiver) (md : MD) (k k' : PubKey) (i : Info) :
  (peerTlsInfoFromMeta r (Some md) (Some k)).2 = Some i ->
  (peerTlsInfoFromMeta (peerTlsInfoFromMeta r (Some md) (Some k)).1 (Some md) (Some k')).2 = Some i.
Proof.
  unfold peerTlsInfoFromMeta. destruct (md_Get md TlsInfoSign) as [|h hs]; [done|].
  destruct (fromMeta r !! h) as [i'|] eqn:E; cbn; [by rewrite E|].
  destruct (check_header k h) as [i'|] eqn:Ec; [|done]. cbn. by rewrite lookup_insert_eq.
Qed.

End forwarding.

(** ** A concrete codec *)

#[export] Instance name_eq_dec : EqDecision Name.
Proof. solve_decision. Defined.
#[export] Instance extension_eq_dec : EqDecision Extension.
Proof. solve_decision. Defined.
#[export] Instance certificate_eq_dec : EqDecision (Certificate unit).
Proof. solve_decision. Defined.
#[export] Instance info_eq_dec : EqDecision (TLSInfo unit).
Proof. solve_decision. Defined.

(** One identity can be encoded; a key is a byte, its signatures repeat it. *)
Definition named (name : string) : Name := mkName [] [] [] [] [] [] [] "" name [] [].
Definition example_cert (serial : Z) (name : string) : Certificate unit := 
  mkCertificate (Some serial) 3 (named "ca") (named name) 0 100 5 [name +:+ ".org"] [] [] [] [mkExtension [2; 5; 29; 17]%Z false "san"] [] (Some ()).
Definition example_copy (name : string) : Certificate unit :=
  mkCertificate None 3 (named "ca") (named name) 0 100 5 [name +:+ ".org"] [] [] [] [mkExtension [2; 5; 29; 17]%Z false "san"] [] None.
Definition example_info : TLSInfo unit :=
  mkTLSInfo "gateway" 1 771 true [Some (example_cert 1 "alice"); Some (example_cert 23 "ca")] [].
Definition example_forwarded : TLSInfo unit :=
  mkTLSInfo "gateway" 1 771 true [Some (example_copy "alice"); Some (example_copy "ca")] [].
Definition example_signature (key : ascii) : string := String.string_of_list_ascii (replicate signatureLen key).
#[export] Instance example_codec : TlsCodec unit string ascii := {|
  gob_Encode i := if bool_decide (i = example_forwarded) then Some "gob" else None;
  gob_Decode s := if bool_decide (s = "gob") then Some example_forwarded else None;
  gzip_Write := Some; gzip_Read := Some; Sum256 s := s;
  SignPKCS1v15 key _ := Some (example_signature key);
  VerifyPKCS1v15 pk _ sig := bool_decide (pk = sig);
  base64_EncodeToString s := s; base64_DecodeString := Some
|}.
#[export] Instance example_codec_laws : TlsCodecLaws unit string ascii example_signature.
Proof.
  split; cbn; [|congruence| |done].
  - intros i s. case_bool_decide; [|done]. intros [= <-]. by subst i.
  - intros k h sig [= <-]. by rewrite bool_decide_eq_true_2.
Qed.

Lemma tls_identity_forwarded_witness :
  exists toMeta' md fwd, PeerTlsInfoToMeta (MD := gmap string (list string)) ∅ None (Some example_info) (Some "k"%char) = Ok (toMeta', Some md) /\
    (peerTlsInfoFromMeta (mkReceiver ∅ None) (Some md) (Some (example_signature "k"))).2 = Some fwd /\ identity_kept example_info fwd.
Proof.
  pose proof (tls_identity_forwarded (MD := gmap string (list string)) example_signature ∅ None example_info (example_cert 1 "alice") "k"%char
    (mkReceiver ∅ None) ltac:(by left) ltac:(done) ltac:(by intros h sig [= <-])) as H.
  destruct (PeerTlsInfoToMeta (MD := gmap string (list string)) ∅ None (Some example_info) (Some "k"%char)) as [[toMeta' [md|]]|e|e] eqn:E; [|discriminate E..].
  destruct H as (_ & H). destruct H as (fwd & H1 & H2); [done|]. exists toMeta', md, fwd. split; [reflexivity|]. split; [exact H1|exact H2].
Defined.

(** Serial numbers 1 and 23, or 12 and 3: Mallory is read as Alice. *)
Lemma forwarded_identity_confused_witness :
  let mallory := mkTLSInfo "evil" 1 771 true [Some (example_cert 12 "mallory"); Some (example_cert 3 "ca")] [] in
  exists toMeta md, PeerTlsInfoToMeta (MD := gmap string (list string)) ∅ None (Some example_info) (Some "k"%char) = Ok (toMeta, Some md) /\
    PeerTlsInfoToMeta (MD := gmap string (list string)) toMeta None (Some mallory) (Some "k"%char) = Ok (toMeta, Some md) /\
    (peerTlsInfoFromMeta (mkReceiver ∅ None) (Some md) (Some (example_signature "k"))).2 = Some example_forwarded.
Proof.
  intros mallory.
  destruct (PeerTlsInfoToMeta (MD := gmap string (list string)) ∅ None (Some example_info) (Some "k"%char)) as [[toMeta [md|]]|e|e] eqn:E;
    [|discriminate E..].
  exists toMeta, md. split; [done|].
  apply (forwarded_identity_confused example_signature ∅ toMeta None md example_info mallory example_forwarded "k"%char "k"%char
    (mkReceiver ∅ None)); [by vm_compute|by vm_compute|done|done|by intros h sig [= <-]|done|exact E].
Defined.

Lemma forwarded_identity_signed_witness :
  exists i, (peerTlsInfoFromMeta (mkReceiver ∅ None) (Some (md_Set (md_empty : gmap string (list string)) TlsInfoSign ["gob" +:+ example_signature "k"]))
       (Some (example_signature "k"))).2 = Some i /\
    exists compressed signature, "gob" +:+ example_signature "k" = compressed +:+ signature /\ signature = example_signature "k".
Proof.
  exists example_forwarded. assert (E : (peerTlsInfoFromMeta (mkReceiver ∅ None)
    (Some (md_Set (md_empty : gmap string (list string)) TlsInfoSign ["gob" +:+ example_signature "k"]))
    (Some (example_signature "k"))).2 = Some example_forwarded) by (by vm_compute). split; [exact E|].
  destruct (forwarded_identity_signed (fun k => k = example_signature "k") (mkReceiver ∅ None)
    (Some (md_Set (md_empty : gmap string (list string)) TlsInfoSign ["gob" +:+ example_signature "k"]))
    (Some (example_signature "k")) example_forwarded (rtc_refl _ _) ltac:(by intros k [= <-]) E)
    as (m & header & k & z & sig & g & [= <-] & Hh & -> & Hb & _ & Hv & _ & _).
  exists z, sig. cbn in Hh.
  injection Hh as <-. injection Hb as Hb. split; [exact Hb|]. by apply bool_decide_eq_true in Hv as <-.
Defined.

End TlsInfo.
