(* ===== verification/DialOption.v ===== *)
(** * Options of client calls ([dialer/dialer.go], [dialer/option.go],
    [dialer/internal/option/]).

    A call collects its options, asks for a connection and runs through a chain of
    interceptors.  Options are pointers, compared by identity.  gRPC's and the other packages'
    objects (connections, interceptors, tracers, codecs, balancers, registries) are types of
    their own; the configuration is what [config] reads of it. *)

From S2P Require Import Prelude GoStrings Control Interceptor Lifecycle Discovery.
From Stdlib Require Import Ascii.

Open Scope string_scope.
Open Scope list_scope.

Module DialOption.

(** ** Call options *)

Section options.
(** User interceptors of the two kinds, tracers, options of asynchronous calls. *)
Context {UnaryInt StreamInt Tracer Async : Type}.

Inductive CallOptionValue :=
| DialOptTagOpt (DialOptTag : string)
| UseInProcDialOpt (UseInProcDial : bool)
| TargetCallOpt (Target : string)
| TracerCallOpt (t : option Tracer)
| AsyncCallOpt (a : Async)
| UnaryInterceptorCallOpt (i : UnaryInt)
| StreamInterceptorCallOpt (i : StreamInt)
| IgnoreInternalInterceptorsCallOpt (Ignore : bool)
| DialOptTagAsPoolIdOpt (Enable : bool)
| OtherCallOpt
| NilCallOpt.

(** An option with its identity. *)
Record CallOption := mkCallOption { ref : nat; val : CallOptionValue }.

(** An interceptor of the caller, or the one of asynchronous calls. *)
Inductive unary_interceptor := UserUnary (i : UnaryInt) | AsyncUnary (target : string) (a : Async).

Record CallOptions := mkCallOptions {
  DialOptTag : list string; UseInProcDial : bool; Target : string; ServiceName : string; Tracer_ : option Tracer;
  UnaryInts : list unary_interceptor; StreamInts : list StreamInt; IgnoreInternalInterceptors : bool;
  AsyncOpt : option Async; DialOptTagAsPoolId : bool;
  (** The providers set on top of the default identity, the first one innermost. *)
  poolIdentity : list (string -> string)
}.

Definition SetPoolIdentityProvider (s : CallOptions) (provider : string -> string) : CallOptions :=
  mkCallOptions (DialOptTag s) (UseInProcDial s) (Target s) (ServiceName s) (Tracer_ s) (UnaryInts s) (StreamInts s)
    (IgnoreInternalInterceptors s) (AsyncOpt s) (DialOptTagAsPoolId s) (poolIdentity s ++ [provider]).

(** The identity is computed from the options as they are when it is asked for. *)
Definition PoolIdentity (s : CallOptions) : string :=
  foldl (fun id provider => provider id)
    (if DialOptTagAsPoolId s then Join (DialOptTag s) ":" else Target s +:+ ":" +:+ Join (DialOptTag s) ":")
    (poolIdentity s).

(** One turn of the loop of [parseCallOpt]. *)
Definition apply_option (s : CallOptions) (o : CallOption) : CallOptions :=
  let '(mkCallOptions tags inproc target svc tr us ss ign asy asid pid) := s in
  match val o with
  | DialOptTagOpt t =>
      mkCallOptions (if bool_decide (t ∈ tags) then tags else tags ++ [t]) inproc target svc tr us ss ign asy asid pid
  | UseInProcDialOpt b => mkCallOptions tags b target svc tr us ss ign asy asid pid
  | TargetCallOpt t => mkCallOptions tags inproc t svc tr us ss ign asy asid pid
  | TracerCallOpt t => mkCallOptions tags inproc target svc t us ss ign asy asid pid
  | AsyncCallOpt a => mkCallOptions tags inproc target svc tr us ss ign (Some a) asid pid
  | UnaryInterceptorCallOpt i => mkCallOptions tags inproc target svc tr (us ++ [UserUnary i]) ss ign asy asid pid
  | StreamInterceptorCallOpt i => mkCallOptions tags inproc target svc tr us (ss ++ [i]) ign asy asid pid
  | IgnoreInternalInterceptorsCallOpt b => mkCallOptions tags inproc target svc tr us ss b asy asid pid
  | DialOptTagAsPoolIdOpt b => mkCallOptions tags inproc target svc tr us ss ign asy b pid
  | OtherCallOpt | NilCallOpt => s
  end.

(** [methodMap]: the service names of methods seen before. *)
Notation methods := (gmap string string).

Definition service_of (methodMap : methods) (method : string) : gores (string * methods) :=
  match methodMap !! method with
  | Some path => Ok (path, methodMap)
  | None =>
      match Split "/" method with
      | [_; svc; _] => Ok (svc, <[method := svc]> methodMap)
      | _ => Err "Invoke grpc method without target specified"
      end
  end.

Definition parseCallOpt (methodMap : methods) (method : string) (callOpt : list CallOption) (opts : CallOptions)
  : gores (CallOptions * methods) :=
  let opts := foldl apply_option opts callOpt in
  '(svc, methodMap) ← service_of methodMap method;
  let '(mkCallOptions tags inproc target _ tr us ss ign asy asid _) := opts in
  Ok (mkCallOptions tags inproc (if bool_decide (target = "") then svc else target) svc tr us ss ign asy asid [], methodMap).

(** [CallOptionHook]: it gives the options to go on with, and may change the parsed ones. *)
Notation Hook := (list CallOption -> CallOptions -> list CallOption * CallOptions).

Record Defaults := mkDefaults { dialInMemory : bool; ignoreInternal : bool; DefaultTracer : option Tracer; AsyncAddr : string }.

Definition initial (d : Defaults) : CallOptions :=
  mkCallOptions [] (dialInMemory d) "" "" (DefaultTracer d) [] [] (ignoreInternal d) None false [].

Definition with_async (d : Defaults) (s : CallOptions) : CallOptions :=
  match AsyncOpt s with
  | None => s
  | Some a =>
      mkCallOptions (DialOptTag s) (UseInProcDial s) (AsyncAddr d) (ServiceName s) (Tracer_ s)
        (UnaryInts s ++ [AsyncUnary (Target s) a]) (StreamInts s) (IgnoreInternalInterceptors s) (AsyncOpt s)
        (DialOptTagAsPoolId s) (poolIdentity s)
  end.

Definition PrepareCallOptions (d : Defaults) (methodMap : methods) (method : string) (callOpt : list CallOption)
    (callOptHook : option Hook) : gores (list CallOption * CallOptions * methods) :=
  '(result, methodMap) ← parseCallOpt methodMap method callOpt (initial d);
  match callOptHook with
  | None => Ok (callOpt, with_async d result, methodMap)
  | Some hook =>
      let '(callOpt, result) := hook callOpt result in
      '(result, methodMap) ← parseCallOpt methodMap method callOpt result;
      Ok (callOpt, with_async d result, methodMap)
  end.

(** ** Interceptors of a call *)

Inductive unary_layer :=
| CallerUnary (i : unary_interceptor) | OpenTracingUnary (t : Tracer) | PrometheusUnary | ReqIdUnary | RetryUnary | TimeoutUnary.
Inductive stream_layer :=
| CallerStream (i : StreamInt) | OpenTracingStream (t : Tracer) | PrometheusStream | ReqIdStream | RetryStream | TimeoutStream.

Definition PrepareUnaryInterceptor (prometheus : bool) (s : CallOptions) (ignore : bool) : list unary_layer :=
  (CallerUnary <$> UnaryInts s) ++
  match Tracer_ s with Some t => [OpenTracingUnary t] | None => [] end ++
  (if prometheus then [PrometheusUnary] else []) ++
  (if ignore then [] else [ReqIdUnary; RetryUnary; TimeoutUnary]).
Definition PrepareStreamInterceptor (prometheus : bool) (s : CallOptions) (ignore : bool) : list stream_layer :=
  (CallerStream <$> StreamInts s) ++
  match Tracer_ s with Some t => [OpenTracingStream t] | None => [] end ++
  (if prometheus then [PrometheusStream] else []) ++
  (if ignore then [] else [ReqIdStream; RetryStream; TimeoutStream]).

(** ** Options of the context and of the connection *)

(** Options are kept once, by identity. *)
Definition joinTwoCallOpts (lhs rhs : list CallOption) : list CallOption :=
  foldl (fun lhs r => if existsb (fun l => ref l =? ref r)%nat lhs then lhs else lhs ++ [r]) lhs rhs.
Definition joinCallOpts (callOpts : list (list CallOption)) : list CallOption := foldl joinTwoCallOpts [] callOpts.

(** [joinUnaryCallOpts] and [joinStreamCallOpts]: the options of the context afterwards, and
    those of the call.  A call without options has the nil slice. *)
Definition joinCtxCallOpts (presetCallOpt ctxCallOpt callOpt : list CallOption) : list CallOption * list CallOption :=
  (match callOpt with [] => ctxCallOpt | _ => joinTwoCallOpts ctxCallOpt callOpt end,
   joinCallOpts [presetCallOpt; callOpt]).

(** ** A call *)

Context {Conn : Type} (IsMemoryConnection : Conn -> bool).

(** How the call goes on: the layers around it, the connection, its options, and the target
    put into the metadata of a remote call. *)
Record invocation (L : Type) := mkInvocation {
  layers : list L; conn : Conn; co : list CallOption; targetMeta : option string
}.
#[global] Arguments mkInvocation {L}.
#[global] Arguments layers {L}.
#[global] Arguments conn {L}.
#[global] Arguments co {L}.
#[global] Arguments targetMeta {L}.

(** [dialCh]: the connection or an error, unless the context ends first ([None]). *)
Notation DialFunc := (CallOptions -> option (string + Conn)).

Definition not_nil (o : CallOption) : bool := match val o with NilCallOpt => false | _ => true end.

Definition connectionWrapper {L} (l : Lifecycle.lifeCycle) (prepare : CallOptions -> bool -> list L) (d : Defaults) (methodMap : methods)
    (dialFunc : DialFunc) (callOptHook : option Hook) (method : string) (callOpt : list CallOption) : gores (invocation L) :=
  if negb (Lifecycle.IsInitialized l) then Err "framework not initialized"
  else
    let hook := fun callOpt callOpts => match callOptHook with None => (callOpt, callOpts) | Some h => h callOpt callOpts end in
    '(callOpt, callOpts, _) ← PrepareCallOptions d methodMap method callOpt (Some hook);
    match dialFunc callOpts with
    | None => Err "context done"
    | Some (inl e) => Err e
    | Some (inr v) =>
        Ok (mkInvocation (prepare callOpts (IgnoreInternalInterceptors callOpts || IsMemoryConnection v)) v
              (filter (fun o => not_nil o = true) callOpt)
              (if IsMemoryConnection v then None else Some (Target callOpts)))
    end.

Definition unaryConnectionWrapper (l : Lifecycle.lifeCycle) (prometheus : bool) :=
  connectionWrapper l (PrepareUnaryInterceptor prometheus).
Definition streamConnectionWrapper (l : Lifecycle.lifeCycle) (prometheus : bool) :=
  connectionWrapper l (PrepareStreamInterceptor prometheus).

(** ** Properties *)

(** A field set by the last option that has it. *)
Lemma foldl_last_wins {A B} (g : B -> option A) (l : list B) (a : A) :
  foldl (fun a o => default a (g o)) a l = default a (last (omap g l)).
Proof.
  induction l as [|o l IH] using rev_ind; [done|]. rewrite foldl_snoc, IH, omap_app. cbn.
  destruct (g o); cbn; [by rewrite last_snoc|by rewrite app_nil_r].
Qed.

Definition tag_of (o : CallOption) : option string := match val o with DialOptTagOpt t => Some t | _ => None end.
Definition inproc_of (o : CallOption) : option bool := match val o with UseInProcDialOpt b => Some b | _ => None end.
Definition target_of (o : CallOption) : option string := match val o with TargetCallOpt t => Some t | _ => None end.
Definition tracer_of (o : CallOption) : option (option Tracer) := match val o with TracerCallOpt t => Some t | _ => None end.
Definition async_of (o : CallOption) : option Async := match val o with AsyncCallOpt a => Some a | _ => None end.
Definition unary_of (o : CallOption) : option UnaryInt := match val o with UnaryInterceptorCallOpt i => Some i | _ => None end.
Definition stream_of (o : CallOption) : option StreamInt := match val o with StreamInterceptorCallOpt i => Some i | _ => None end.
Definition ignore_of (o : CallOption) : option bool := match val o with IgnoreInternalInterceptorsCallOpt b => Some b | _ => None end.
Definition as_id_of (o : CallOption) : option bool := match val o with DialOptTagAsPoolIdOpt b => Some b | _ => None end.

Definition add_tag (tags : list string) (t : string) : list string := if bool_decide (t ∈ tags) then tags else tags ++ [t].

(** What the loop of [parseCallOpt] makes of the options. *)
Lemma apply_options_spec (l : list CallOption) (s : CallOptions) :
  foldl apply_option s l =
  mkCallOptions (foldl add_tag (DialOptTag s) (omap tag_of l)) (default (UseInProcDial s) (last (omap inproc_of l)))
    (default (Target s) (last (omap target_of l))) (ServiceName s) (default (Tracer_ s) (last (omap tracer_of l)))
    (UnaryInts s ++ (UserUnary <$> omap unary_of l)) (StreamInts s ++ omap stream_of l)
    (default (IgnoreInternalInterceptors s) (last (omap ignore_of l)))
    (match last (omap async_of l) with Some a => Some a | None => AsyncOpt s end)
    (default (DialOptTagAsPoolId s) (last (omap as_id_of l))) (poolIdentity s).
Proof.
  induction l as [|o l IH] using rev_ind; [destruct s; cbn; by rewrite !app_nil_r|].
  rewrite foldl_snoc, IH, !omap_app. destruct o as [r [| | | | | | | | | |]]; cbn;
    rewrite ?app_nil_r, ?last_snoc, ?foldl_snoc, ?fmap_app, ?app_assoc; reflexivity.
Qed.

Lemma add_tags_keep (ts tags : list string) (t : string) : t ∈ tags -> t ∈ foldl add_tag tags ts.
Proof. intros Ht. apply foldl_ind; [done|]. intros tags' t' _ Hin. unfold add_tag. case_match; [done|]. apply elem_of_app. by left. Qed.

Lemma add_tags_all (ts tags : list string) (t : string) : t ∈ ts -> t ∈ foldl add_tag tags ts.
Proof.
  revert tags. induction ts as [|t' ts IH]; intros tags Ht; [by apply elem_of_nil in Ht|]. cbn.
  apply elem_of_cons in Ht as [->|Ht]; [|by apply IH]. apply add_tags_keep. unfold add_tag. case_bd (t' ∈ tags) as Hin; [done|].
  apply elem_of_app. right. by left.
Qed.

Lemma add_tags_idem (ts tags : list string) : (forall t, t ∈ ts -> t ∈ tags) -> foldl add_tag tags ts = tags.
Proof.
  induction ts as [|t ts IH]; intros Hin; [done|]. cbn. unfold add_tag at 2. rewrite bool_decide_eq_true_2 by (apply Hin; by left).
  apply IH. intros t' Ht'. apply Hin. by right.
Qed.

Lemma service_of_again (methodMap methodMap' : methods) (method svc : string) :
  service_of methodMap method = Ok (svc, methodMap') -> service_of methodMap' method = Ok (svc, methodMap').
Proof.
  unfold service_of. destruct (methodMap !! method) as [path|] eqn:E; [intros [= <- <-]; by rewrite E|].
  destruct (Split "/" method) as [|? [|? [|? []]]]; try done. intros [= <- <-]. by rewrite lookup_insert_eq.
Qed.

(** The interceptors of a call, as [parseCallOpt] leaves them after [n] times. *)
Definition with_interceptors (us : list unary_interceptor) (ss : list StreamInt) (s : CallOptions) : CallOptions :=
  mkCallOptions (DialOptTag s) (UseInProcDial s) (Target s) (ServiceName s) (Tracer_ s) us ss
    (IgnoreInternalInterceptors s) (AsyncOpt s) (DialOptTagAsPoolId s) (poolIdentity s).

Lemma parse_twice (methodMap methodMap' : methods) (method : string) (l : list CallOption) (s s' : CallOptions) :
  parseCallOpt methodMap method l s = Ok (s', methodMap') ->
  parseCallOpt methodMap' method l s' =
    Ok (with_interceptors (UnaryInts s' ++ (UserUnary <$> omap unary_of l)) (StreamInts s' ++ omap stream_of l) s', methodMap').
Proof.
  unfold parseCallOpt. rewrite !apply_options_spec. intros ((svc & mm) & Hs & Hp)%gores_bind_ok. cbn in Hp.
  injection Hp as <- <-. rewrite (service_of_again _ _ _ _ Hs). cbn. unfold with_interceptors. cbn. f_equal. f_equal. f_equal.
  - apply add_tags_idem. intros t. apply add_tags_all.
  - by destruct (last _).
  - destruct (last (omap target_of l)) as [t|]; cbn; [done|]. case_bd (Target s = "") as Ht; [|done].
    by case_match.
  - by destruct (last _).
  - by destruct (last _).
  - by destruct (last _).
  - by destruct (last _).
Qed.

(** Whatever a hook does to the identity of the pool, the second parse sets the default again. *)
Lemma hook_identity_lost (d : Defaults) (methodMap methodMap' : methods) (method : string) (l l' : list CallOption) (hook : Hook) (s : CallOptions) :
  PrepareCallOptions d methodMap method l (Some hook) = Ok (l', s, methodMap') -> poolIdentity s = [].
Proof.
  intros ((s1 & mm) & _ & H)%gores_bind_ok. cbn in H. destruct (hook l s1) as [l2 s2].
  apply gores_bind_ok in H as ((s3 & mm3) & Hp & [= <- <- <-]). unfold parseCallOpt in Hp.
  apply gores_bind_ok in Hp as ((svc & mm4) & _ & Hp). destruct (foldl apply_option s2 l2). injection Hp as <- <-.
  unfold with_async. by case_match.
Qed.

Lemma prepare_without_hook (d : Defaults) (methodMap methodMap' : methods) (method : string) (l l' : list CallOption) (s : CallOptions) :
  PrepareCallOptions d methodMap method l (Some (fun o s => (o, s))) = Ok (l', s, methodMap') ->
  l' = l /\ exists s1, parseCallOpt methodMap method l (initial d) = Ok (s1, methodMap') /\
    s = with_async d (with_interceptors ((UserUnary <$> omap unary_of l) ++ (UserUnary <$> omap unary_of l))
                        (omap stream_of l ++ omap stream_of l) s1).
Proof.
  intros ((s1 & mm) & Hp & H)%gores_bind_ok. cbn in H. rewrite (parse_twice _ _ _ _ _ _ Hp) in H. injection H as <- <- <-.
  split; [done|]. exists s1. split; [done|]. do 2 f_equal.
  - unfold parseCallOpt in Hp. rewrite apply_options_spec in Hp. apply gores_bind_ok in Hp as ((? & ?) & _ & [= <- <-]). done.
  - unfold parseCallOpt in Hp. rewrite apply_options_spec in Hp. apply gores_bind_ok in Hp as ((? & ?) & _ & [= <- <-]). done.
Qed.

(** The interceptors of the caller among those of a call. *)
Definition caller_unary (x : unary_layer) : option UnaryInt := match x with CallerUnary (UserUnary i) => Some i | _ => None end.
Definition caller_stream (x : stream_layer) : option StreamInt := match x with CallerStream i => Some i | _ => None end.

Lemma caller_unary_all (us : list UnaryInt) : omap caller_unary (CallerUnary <$> (UserUnary <$> us)) = us.
Proof. induction us as [|u us IH]; cbn; [done|]. by f_equal. Qed.
Lemma caller_stream_all (ss : list StreamInt) : omap caller_stream (CallerStream <$> ss) = ss.
Proof. induction ss as [|u ss IH]; cbn; [done|]. by f_equal. Qed.

Lemma unary_layers_callers prometheus (s : CallOptions) ignore :
  omap caller_unary (PrepareUnaryInterceptor prometheus s ignore) = omap caller_unary (CallerUnary <$> UnaryInts s).
Proof.
  unfold PrepareUnaryInterceptor. rewrite !omap_app. destruct (Tracer_ s), prometheus, ignore; cbn; by rewrite app_nil_r.
Qed.
Lemma stream_layers_callers prometheus (s : CallOptions) ignore :
  omap caller_stream (PrepareStreamInterceptor prometheus s ignore) = StreamInts s.
Proof.
  unfold PrepareStreamInterceptor. rewrite !omap_app, caller_stream_all. destruct (Tracer_ s), prometheus, ignore; cbn; by rewrite app_nil_r.
Qed.

Lemma retry_layer prometheus (s : CallOptions) ignore :
  (RetryUnary ∈ PrepareUnaryInterceptor prometheus s ignore <-> ignore = false) /\
  (RetryStream ∈ PrepareStreamInterceptor prometheus s ignore <-> ignore = false).
Proof.
  unfold PrepareUnaryInterceptor, PrepareStreamInterceptor. rewrite !elem_of_app, !list_elem_of_fmap.
  destruct (Tracer_ s), prometheus, ignore; cbn; rewrite ?elem_of_cons, ?elem_of_nil; naive_solver.
Qed.

(** The target of a call: the last one given, else the service of the method. *)
Definition call_target (d : Defaults) (l : list CallOption) (svc : string) : string :=
  let t := default "" (last (omap target_of l)) in
  match last (omap async_of l) with Some _ => AsyncAddr d | None => if bool_decide (t = "") then svc else t end.

Lemma parsed_target (d : Defaults) (methodMap methodMap' : methods) (method : string) (l : list CallOption) (s : CallOptions) us ss :
  parseCallOpt methodMap method l (initial d) = Ok (s, methodMap') ->
  exists svc, service_of methodMap method = Ok (svc, methodMap') /\
    Target (with_async d (with_interceptors us ss s)) = call_target d l svc /\
    IgnoreInternalInterceptors (with_async d (with_interceptors us ss s)) = default (ignoreInternal d) (last (omap ignore_of l)) /\
    omap caller_unary (CallerUnary <$> UnaryInts (with_async d (with_interceptors us ss s))) = omap caller_unary (CallerUnary <$> us) /\
    StreamInts (with_async d (with_interceptors us ss s)) = ss.
Proof.
  unfold parseCallOpt. rewrite apply_options_spec. intros ((svc & mm) & Hs & Hp)%gores_bind_ok. injection Hp as <- <-.
  exists svc. split; [done|]. unfold with_async, with_interceptors, call_target. cbn. destruct (last (omap async_of l)) as [a|]; cbn.
  - rewrite fmap_app, omap_app. cbn. by rewrite app_nil_r.
  - done.
Qed.

(** A call that goes out, of either kind. *)
Lemma connectionWrapper_out {L} (l : Lifecycle.lifeCycle) (prepare : CallOptions -> bool -> list L) (d : Defaults)
    (methodMap : methods) (dialFunc : DialFunc) (method : string) (callOpt : list CallOption) (inv : invocation L) :
  connectionWrapper l prepare d methodMap dialFunc None method callOpt = Ok inv ->
  exists s svc mm ignore, service_of methodMap method = Ok (svc, mm) /\
    layers inv = prepare s ignore /\ co inv = filter (fun o => not_nil o = true) callOpt /\
    ignore = default (ignoreInternal d) (last (omap ignore_of callOpt)) || IsMemoryConnection (conn inv) /\
    targetMeta inv = (if IsMemoryConnection (conn inv) then None else Some (call_target d callOpt svc)) /\
    omap caller_unary (CallerUnary <$> UnaryInts s) = omap unary_of callOpt ++ omap unary_of callOpt /\
    StreamInts s = omap stream_of callOpt ++ omap stream_of callOpt.
Proof.
  unfold connectionWrapper. destruct (negb _); [done|]. intros ([[l' s] mm] & Hp & H)%gores_bind_ok.
  apply (prepare_without_hook d methodMap mm method callOpt l' s) in Hp as (-> & s1 & Hp & Es).
  destruct (parsed_target d _ _ _ _ _ ((UserUnary <$> omap unary_of callOpt) ++ (UserUnary <$> omap unary_of callOpt))
    (omap stream_of callOpt ++ omap stream_of callOpt) Hp) as (svc & Hsvc & Et & Ei & Eu & Ess).
  rewrite <- Es in Et, Ei, Eu, Ess. destruct (dialFunc s) as [[e|v]|]; [done| |done]. injection H as <-. cbn.
  exists s, svc, mm, (IgnoreInternalInterceptors s || IsMemoryConnection v). split_and!; try done.
  - by rewrite Ei.
  - by rewrite Et.
  - by rewrite Eu, fmap_app, omap_app, caller_unary_all.
Qed.

(** interceptors of a call run twice.  A call without a hook that goes out over a
    connection passes through every interceptor the caller gave it twice, since its options
    are always parsed a second time for the hook, and through the retries of the framework
    exactly when neither the option nor an in-process connection switches the internal
    interceptors off.  A remote call sends the last target given, or the service of the
    method, or the address of the asynchronous service. *)
Theorem call_interceptors_run_twice (l : Lifecycle.lifeCycle) (prometheus : bool) (d : Defaults) (methodMap : methods)
    (dialFunc : DialFunc) (method : string) (callOpt : list CallOption) (uinv : invocation unary_layer) (sinv : invocation stream_layer) :
  unaryConnectionWrapper l prometheus d methodMap dialFunc None method callOpt = Ok uinv ->
  streamConnectionWrapper l prometheus d methodMap dialFunc None method callOpt = Ok sinv ->
  let ignore c := default (ignoreInternal d) (last (omap ignore_of callOpt)) || IsMemoryConnection c in
  omap caller_unary (layers uinv) = omap unary_of callOpt ++ omap unary_of callOpt /\
  omap caller_stream (layers sinv) = omap stream_of callOpt ++ omap stream_of callOpt /\
  (RetryUnary ∈ layers uinv <-> ignore (conn uinv) = false) /\ (RetryStream ∈ layers sinv <-> ignore (conn sinv) = false) /\
  exists svc mm, service_of methodMap method = Ok (svc, mm) /\
    targetMeta uinv = (if IsMemoryConnection (conn uinv) then None else Some (call_target d callOpt svc)).
Proof.
  intros Hu Hs ignore.
  destruct (connectionWrapper_out _ _ _ _ _ _ _ _ Hu) as (s & svc & mm & ig & Hsvc & El & _ & -> & Et & Eu & _).
  destruct (connectionWrapper_out _ _ _ _ _ _ _ _ Hs) as (s' & svc' & mm' & ig' & _ & El' & _ & -> & _ & _ & Es').
  rewrite El, El', unary_layers_callers, stream_layers_callers. do 2 (split; [done|]). split; [apply retry_layer|]. split; [apply retry_layer|]. by exists svc, mm.
Qed.

(** ** The guard of the wrappers *)

(** What the program does to its life cycle. *)
Inductive life_step `{Lifecycle.LinqOps} (expired : Lifecycle.hookFunc -> bool) (l : Lifecycle.lifeCycle) : Lifecycle.lifeCycle -> Prop :=
| life_hook hook opt : life_step expired l (Lifecycle.HookFinalize l hook opt)
| life_initialize t : life_step expired l (Lifecycle.Initialize expired l t).1
| life_finalize : life_step expired l (Lifecycle.Finalize expired l).1.

Lemma life_never_initialized `{Lifecycle.LinqOps} expired (l : Lifecycle.lifeCycle) :
  rtc (life_step expired) Lifecycle.newLifeCycle l -> Lifecycle.IsInitialized l = false.
Proof.
  intros Hr. refine (rtc_invariant _ (fun l => Lifecycle.IsInitialized l = false) _ _ _ l Hr); [done|]. clear l Hr.
  intros l l' Hl [hook opt|t|]; [exact Hl| |]; unfold Lifecycle.Initialize, Lifecycle.Finalize; by case_match.
Qed.

(** Client calls are refused.  In every state the life cycle of the process can reach,
    whatever is hooked, initialized and finalized, a call over a connection of the dialer
    fails with "framework not initialized" before it looks at its options or dials: the
    flag that the wrappers test is never set. *)
Theorem client_calls_refused `{Lifecycle.LinqOps} (expired : Lifecycle.hookFunc -> bool) (l : Lifecycle.lifeCycle) (prometheus : bool)
    (d : Defaults) (methodMap : methods) (dialFunc : DialFunc) (hook : option Hook) (method : string) (callOpt : list CallOption) :
  rtc (life_step expired) Lifecycle.newLifeCycle l ->
  unaryConnectionWrapper l prometheus d methodMap dialFunc hook method callOpt = Err "framework not initialized" /\
  streamConnectionWrapper l prometheus d methodMap dialFunc hook method callOpt = Err "framework not initialized".
Proof.
  intros Hr%life_never_initialized. unfold unaryConnectionWrapper, streamConnectionWrapper, connectionWrapper. by rewrite Hr.
Qed.

End options.
Arguments CallOptionValue : clear implicits.
Arguments CallOption : clear implicits.
Arguments CallOptions : clear implicits.
Arguments Defaults : clear implicits.


(** ** Witnesses *)

Definition example_options : list (CallOption string string unit unit) :=
  [mkCallOption 0 (UnaryInterceptorCallOpt "auth"); mkCallOption 1 (StreamInterceptorCallOpt "log");
   mkCallOption 2 (TargetCallOpt "users"); mkCallOption 3 NilCallOpt].
Definition example_defaults : Defaults unit := mkDefaults false false None "async".
Definition example_life : Lifecycle.lifeCycle := Lifecycle.mkLife true false [] [] true 30000000000 false.

Lemma call_interceptors_run_twice_witness :
  exists uinv, unaryConnectionWrapper (fun _ : nat => false) example_life false example_defaults ∅ (fun _ => Some (inr 7%nat)) None
      "/pkg.Svc/Get" example_options = Ok uinv /\
    omap caller_unary (layers uinv) = ["auth"; "auth"] /\ RetryUnary ∈ layers uinv /\ targetMeta uinv = Some "users".
Proof.
  destruct (unaryConnectionWrapper (fun _ : nat => false) example_life false example_defaults ∅ (fun _ => Some (inr 7%nat)) None
    "/pkg.Svc/Get" example_options) as [uinv|e|e] eqn:Eu; [|by vm_compute in Eu..].
  destruct (streamConnectionWrapper (fun _ : nat => false) example_life false example_defaults ∅ (fun _ => Some (inr 7%nat)) None
    "/pkg.Svc/Get" example_options) as [sinv|e|e] eqn:Es; [|by vm_compute in Es..].
  destruct (call_interceptors_run_twice (fun _ : nat => false) example_life false example_defaults ∅ (fun _ => Some (inr 7%nat))
    "/pkg.Svc/Get" example_options uinv sinv Eu Es) as (Hu & _ & Hr & _ & svc & mm & _ & Ht).
  exists uinv. split; [done|]. split; [exact Hu|]. split; [by apply Hr|exact Ht].
Defined.

#[local] Existing Instance Lifecycle.list_linq.

Lemma client_calls_refused_witness :
  unaryConnectionWrapper (fun _ : nat => false)
    (Lifecycle.Initialize (fun _ => false) (Lifecycle.HookFinalize Lifecycle.newLifeCycle 1 []) 0).1 false example_defaults ∅
    (fun _ => Some (inr 7%nat)) None "/pkg.Svc/Get" example_options = Err "framework not initialized".
Proof.
  apply (client_calls_refused (fun _ : nat => false) (fun _ => false) _ false example_defaults ∅ (fun _ => Some (inr 7%nat)) None
    "/pkg.Svc/Get" example_options).
  eapply rtc_l; [apply (life_hook _ _ 1 [])|]. eapply rtc_l; [apply (life_initialize _ _ 0)|]. apply rtc_refl.
Defined.

End DialOption.
