(* ===== verification/DialRegistry.v ===== *)
(** * Dial options and the dial itself ([dialer/internal/option/utils.go], [dialer/option.go],
    [dialer/internal/dialer/]).

    Options are registered under a tag and applied when a pool is made; the default ones come
    from configuration and the control plane, and the credentials may come from what the
    registry says about the target.  [Dial] turns them into what [grpc.DialContext] is given.
    gRPC's codecs, balancers and network dialers are types of their own; a registry is the
    record of the operations used of it. *)

From S2P Require Import Prelude GoStrings Control Discovery Hostname Credentials.

Open Scope string_scope.
Open Scope list_scope.

Module DialRegistry.
Import Credentials.

(** What the dialer asks of a registry.  [ListAllService] is [None] when it fails; a resolver
    may not take options ([resolver_option]), and setting them may fail. *)
Record Registry := mkRegistry {
  is_noop : bool; ListAllService : option (list Discovery.Entry);
  WithNamespace : option (string -> string); WithoutNamespace : option (string -> string);
  has_resolver : bool; resolver_option : bool; option_fails : bool
}.

(** [registry.ServicePath] and [registry.Target]. *)
Definition ServicePath (r : Registry) (target : string) : string :=
  match WithNamespace r with None => target | Some f => f target end.
Definition registry_Target (r : Registry) (servicePath : string) : string :=
  match WithoutNamespace r with None => servicePath | Some f => f servicePath end.

Section dial.
Context {Cert IP KeyPair Factory Fn PerRPC : Type} `{HostCert Cert IP} `{X509 Cert KeyPair}.
Context {Codec Builder DialFn KeepAlive : Type}.
Notation ClientOptionFunc := (ClientOptions Cert KeyPair Factory Fn PerRPC -> gores (ClientOptions Cert KeyPair Factory Fn PerRPC)).

Record DialOptions := mkDialOptions {
  d_Codec : option Codec; BalancerBuilder : option Builder; d_Registry : option Registry; DialTimeout : Z;
  CredentialOpts : list ClientOptionFunc; PoolSize : Z; DialFunc : option DialFn; CredentialFromRegistry : bool;
  ReadBufferSize : Z; WriteBufferSize : Z; KeepAliveParameters : option KeepAlive
}.
Notation DialOption := (DialOptions -> gores DialOptions).

(** ** The options of users *)

Definition DialWithCodec (codec : option Codec) : DialOption := fun '(mkDialOptions _ b r t c p f cr rb wb k) =>
  Ok (mkDialOptions codec b r t c p f cr rb wb k).
(** [provider]: nil, or the builder of the provider, or an error. *)
Definition DialWithBalancer (DefaultBalancerBuilder : option Builder) (provider : option (option Builder)) : DialOption :=
  fun '(mkDialOptions co _ r t c p f cr rb wb k) =>
  match provider with
  | None => Ok (mkDialOptions co DefaultBalancerBuilder r t c p f cr rb wb k)
  | Some None => Err "balancer"
  | Some (Some builder) => Ok (mkDialOptions co (Some builder) r t c p f cr rb wb k)
  end.
Definition DialWithRegistry (registry : option Registry) : DialOption := fun '(mkDialOptions co b _ t c p f cr rb wb k) =>
  Ok (mkDialOptions co b registry t c p f cr rb wb k).
Definition DialWithTimeout (timeout : Z) : DialOption := fun '(mkDialOptions co b r _ c p f cr rb wb k) =>
  Ok (mkDialOptions co b r timeout c p f cr rb wb k).
Definition DialWithCredentialsOption (opt : list ClientOptionFunc) : DialOption := fun '(mkDialOptions co b r t c p f cr rb wb k) =>
  Ok (mkDialOptions co b r t (c ++ opt) p f cr rb wb k).
Definition DialWithPoolSize (size : Z) : DialOption := fun '(mkDialOptions co b r t c _ f cr rb wb k) =>
  if (size <? 1)%Z then Err "pool size must larger than 0" else Ok (mkDialOptions co b r t c size f cr rb wb k).
Definition DialWithCustomDialer (dialFunc : option DialFn) : DialOption := fun '(mkDialOptions co b r t c p _ cr rb wb k) =>
  Ok (mkDialOptions co b r t c p dialFunc cr rb wb k).
Definition DialWithCredentialsFromRegistry (enable : bool) : DialOption := fun '(mkDialOptions co b r t c p f _ rb wb k) =>
  Ok (mkDialOptions co b r t c p f enable rb wb k).
Definition DialWithReadBufferSize (s : Z) : DialOption := fun '(mkDialOptions co b r t c p f cr _ wb k) =>
  Ok (mkDialOptions co b r t c p f cr s wb k).
Definition DialWithWriteBufferSize (s : Z) : DialOption := fun '(mkDialOptions co b r t c p f cr rb _ k) =>
  Ok (mkDialOptions co b r t c p f cr rb s k).
Definition DialWithKeepAliveParams (kp : KeepAlive) : DialOption := fun '(mkDialOptions co b r t c p f cr rb wb _) =>
  Ok (mkDialOptions co b r t c p f cr rb wb (Some kp)).

(** ** The registry of options *)

Definition RegisterDialOption (dialOptions : gmap string (list DialOption)) (dialOptTag : string) (opt : list DialOption)
  : gmap string (list DialOption) * gores unit :=
  match dialOptions !! dialOptTag with
  | Some _ => (dialOptions, Err ("dialer::RegisterDialOption: found duplicate options for " +:+ dialOptTag))
  | None => (<[dialOptTag := opt]> dialOptions, Ok ())
  end.
Definition IsDialOptionRegistered (dialOptions : gmap string (list DialOption)) (dialOptTag : string) : bool :=
  bool_decide (is_Some (dialOptions !! dialOptTag)).
Definition QueryDialOption (dialOptions : gmap string (list DialOption)) (dialOptTag : string) : option (list DialOption) :=
  dialOptions !! dialOptTag.

(** ** Default options *)

(** What is read of the configuration. *)
Record Config := mkConfig {
  FlagConnTimeout : Z; FlagCert : string; FlagKey : string; FlagUseServerCert : bool;
  ServerCert : string; ServerKey : string; FlagCaCert : list string; FlagInsecureSkipVerify : bool; FlagInsecure : bool
}.

Definition pemPrefix : string := "-----BEGIN".

(** A certificate function that reads the key pair of the configuration. *)
Context (pair_of_pem : string -> string -> CertSource KeyPair Factory Fn).

Definition cert_options (c : Config) : list ClientOptionFunc :=
  let '(certFile, keyFile) :=
    if bool_decide (FlagCert c = "" /\ FlagKey c = "") && FlagUseServerCert c then (ServerCert c, ServerKey c) else (FlagCert c, FlagKey c) in
  if bool_decide (certFile <> "" /\ keyFile <> "") then
    if HasPrefix certFile pemPrefix && HasPrefix keyFile pemPrefix
    then [WithClientCertificate (pair_of_pem certFile keyFile)]
    else [WithClientCertificateFile certFile keyFile]
  else [].

(** The certificates are read when the function is called. *)
Definition read_cas (caFiles : list string) : option (list string) :=
  mapM (fun f => if HasPrefix f pemPrefix then Some f else ReadFile f) caFiles.

Definition dial_timeout (c : Config) (factory : option Control.Factory) (target : string) : Z :=
  match Control.wrapper_ClientControlPlane factory target with
  | inl _ => FlagConnTimeout c
  | inr cp =>
      let policy := Control.client_TimeoutPolicy cp target "" in
      if negb (Control.Enabled (Control.TPolicy (Control.CTTimeout policy))) || (Control.ConnTimeout policy =? 0)%Z
      then FlagConnTimeout c else Control.ConnTimeout policy
  end.

Definition DefaultDialOption (c : Config) (factory : option Control.Factory) (DefaultRegistry : option Registry)
    (DefaultBalancerBuilder : option Builder) (target : string) : DialOptions :=
  mkDialOptions None DefaultBalancerBuilder DefaultRegistry (dial_timeout c factory target)
    (cert_options c ++ match FlagCaCert c with [] => [] | caFiles => [WithRootCACert (read_cas caFiles)] end ++
     [WithInsecureSkipVerify (FlagInsecureSkipVerify c); WithInsecureDial (FlagInsecure c)])
    1 None false 0 0 None.

(** ** Credentials from the registry *)

Context (Unmarshal : string -> option Discovery.Meta).

Definition instance_credentials (inst : Discovery.Instance) : list ClientOptionFunc :=
  match Discovery.imeta inst ≫= Discovery.UnmarshalRegistryMeta Unmarshal with
  | None => [WithInsecureDial true]
  | Some meta => if Discovery.TlsServer meta then [WithInsecureSkipVerify true; WithInsecureDial false] else [WithInsecureDial true]
  end.

(** The first entry with the name of the target decides. *)
Fixpoint entry_credentials (target : string) (entries : list Discovery.Entry) : gores (list ClientOptionFunc) :=
  match entries with
  | [] => Err ("CredentialOptsFromRegistry: no entry of " +:+ target +:+ " found")
  | entry :: entries =>
      if bool_decide (Discovery.ServiceName entry <> target) then entry_credentials target entries
      else match Discovery.Instances entry with
           | [] => Err "CredentialOptsFromRegistry: no service instance found"
           | inst :: _ => Ok (instance_credentials inst)
           end
  end.
Definition credentialOptsFromRegistry (target : string) (dialOpts : DialOptions) : gores (list ClientOptionFunc) :=
  match d_Registry dialOpts with
  | None => Err "CredentialOptsFromRegistry: no registry instance found"
  | Some r =>
      if is_noop r then Err "CredentialOptsFromRegistry: no registry instance found"
      else match ListAllService r with
           | None => Err "CredentialOptsFromRegistry: try to get service info failed"
           | Some entries => entry_credentials target entries
           end
  end.

(** ** Options of a pool *)

Fixpoint apply_opts (opt : list DialOption) (dialOpts : DialOptions) : gores DialOptions :=
  match opt with [] => Ok dialOpts | o :: opt => dialOpts ← o dialOpts; apply_opts opt dialOpts end.
Fixpoint apply_tags (dialOptions : gmap string (list DialOption)) (tags : list string) (dialOpts : DialOptions) : gores DialOptions :=
  match tags with
  | [] => Ok dialOpts
  | tag :: tags =>
      match QueryDialOption dialOptions tag with
      | None => Err "dialer::PrepareDialOption: dialOpt tag not found in registry"
      | Some opt => dialOpts ← apply_opts opt dialOpts; apply_tags dialOptions tags dialOpts
      end
  end.

Definition PrepareDialOption (dialOptions : gmap string (list DialOption)) (default_ : string -> DialOptions) (tags : list string) (target : string)
  : gores DialOptions :=
  dialOpts ← match tags with
             | [] => match QueryDialOption dialOptions target with
                     | None => Ok (default_ target)
                     | Some opt => apply_opts opt (default_ target)
                     end
             | _ => apply_tags dialOptions tags (default_ target)
             end;
  if CredentialFromRegistry dialOpts then
    cred ← credentialOptsFromRegistry target dialOpts;
    let '(mkDialOptions co b r t _ p f cr rb wb k) := dialOpts in
    Ok (mkDialOptions co b r t cred p f cr rb wb k)
  else Ok dialOpts.

(** ** Dialling *)

(** What [grpc.DialContext] is given.  [with_balancer] is the builder and the TLS mode its
    resolver is told to look for, if it takes the option. *)
Record dial_call := mkDialCall {
  dial_target : string; dial_creds : dial_credentials (Cert := Cert) (KeyPair := KeyPair) (Factory := Factory) (Fn := Fn) (PerRPC := PerRPC);
  with_balancer : option (Builder * option bool); with_codec : option Codec; with_dialer : option DialFn;
  with_read : option Z; with_write : option Z; with_keepalive : option KeepAlive
}.

(** A buffer size is passed on unless it is zero. *)
Definition nonzero (n : Z) : option Z := if (n =? 0)%Z then None else Some n.

Definition Dial (target : string) (dialOpts : DialOptions) : gores dial_call :=
  copts ← ParseClientOptions (WithServerNameOverride target :: WithIgnoreServerCertExpiresCheck true :: CredentialOpts dialOpts);
  creds ← DialOptionWithOpts copts;
  '(bal, target) ←
    match BalancerBuilder dialOpts, d_Registry dialOpts with
    | Some b, Some r =>
        if negb (has_resolver r) then Ok (None, target)
        else if resolver_option r then
          if option_fails r then Err "resolver option"
          else Ok (Some (b, Some (negb (insecure copts))), ServicePath r target)
        else Ok (Some (b, None), ServicePath r target)
    | _, _ => Ok (None, target)
    end;
  Ok (mkDialCall target creds bal (d_Codec dialOpts) (DialFunc dialOpts) (nonzero (ReadBufferSize dialOpts)) (nonzero (WriteBufferSize dialOpts))
        (KeepAliveParameters dialOpts)).

(** ** Properties *)

Lemma entry_credentials_inv (target : string) (entries : list Discovery.Entry) (cred : list ClientOptionFunc) :
  entry_credentials target entries = Ok cred ->
  exists before entry after inst rest, entries = before ++ entry :: after /\ Forall (fun e => Discovery.ServiceName e <> target) before /\
    Discovery.ServiceName entry = target /\ Discovery.Instances entry = inst :: rest /\ cred = instance_credentials inst.
Proof.
  induction entries as [|entry entries IH]; [done|]. cbn. case_bool_decide as Hn.
  - intros Hc. destruct (IH Hc) as (before & e & after & inst & rest & -> & Hb & ?). exists (entry :: before), e, after, inst, rest.
    split; [done|]. split; [by constructor|done].
  - destruct (Discovery.Instances entry) as [|inst rest] eqn:Ei; [done|]. intros [= <-]. exists [], entry, entries, inst, rest.
    split; [done|]. split; [done|]. split; [by destruct (decide (Discovery.ServiceName entry = target))|done].
Qed.

Lemma prepared_credentials (dialOptions : gmap string (list DialOption)) (default_ : string -> DialOptions) (tags : list string)
    (target : string) (o : DialOptions) :
  PrepareDialOption dialOptions default_ tags target = Ok o -> CredentialFromRegistry o = true ->
  exists r entries, d_Registry o = Some r /\ is_noop r = false /\ ListAllService r = Some entries /\
    entry_credentials target entries = Ok (CredentialOpts o).
Proof.
  intros (o1 & _ & Ho)%gores_bind_ok Hc. destruct (CredentialFromRegistry o1) eqn:E1; [|injection Ho as <-; congruence].
  apply gores_bind_ok in Ho as (cred & Hcred & Ho). unfold credentialOptsFromRegistry in Hcred.
  destruct o1 as [co b reg t c p f cr rb wb k]. injection Ho as <-. cbn in *. destruct reg as [r|]; [|done].
  destruct (is_noop r) eqn:En; [done|]. destruct (ListAllService r) as [entries|] eqn:El; [|done]. by exists r, entries.
Qed.

Lemma Dial_balancer (target : string) (o : DialOptions) (call : dial_call) : Dial target o = Ok call ->
  exists copts, ParseClientOptions (WithServerNameOverride target :: WithIgnoreServerCertExpiresCheck true :: CredentialOpts o) = Ok copts /\
    DialOptionWithOpts copts = Ok (dial_creds call) /\
    (forall b t, with_balancer call = Some (b, Some t) -> t = negb (insecure copts)).
Proof.
  intros (copts & Hp & (creds & Hc & ([bal tg] & Hb & [= <-])%gores_bind_ok)%gores_bind_ok)%gores_bind_ok.
  exists copts. split_and!; [done..|]. cbn. intros b t ->. destruct (BalancerBuilder o), (d_Registry o) as [r|]; try done.
  destruct (has_resolver r), (resolver_option r), (option_fails r); try done; cbn in Hb; congruence.
Qed.

(** C31: the registry decides about TLS.  A connection whose credentials come from the registry
    is dialled in plain text exactly when the first instance of the first entry of the target
    is not registered as a TLS server (or has no readable metadata), and the balancer then
    looks for instances of the same kind.  Otherwise it is a TLS connection that does not
    verify the server: whatever certificates the server shows, if they can be read, and
    whenever, the handshake accepts them; it shows no client certificate and sends the name of
    the target; all this whatever the other options of the dial say. *)
Theorem registry_decides_tls (dialOptions : gmap string (list DialOption)) (default_ : string -> DialOptions) (tags : list string)
    (target : string) (o : DialOptions) (call : dial_call) :
  PrepareDialOption dialOptions default_ tags target = Ok o -> CredentialFromRegistry o = true -> Dial target o = Ok call ->
  exists r before entry after inst rest, d_Registry o = Some r /\ ListAllService r = Some (before ++ entry :: after) /\
    Forall (fun e => Discovery.ServiceName e <> target) before /\ Discovery.ServiceName entry = target /\ Discovery.Instances entry = inst :: rest /\
    let tls := match Discovery.imeta inst ≫= Discovery.UnmarshalRegistryMeta Unmarshal with
               | Some meta => Discovery.TlsServer meta | None => false end in
    match dial_creds call with
    | Insecure p => tls = false /\ p = None
    | WithTLS c p => tls = true /\ p = None /\ GetClientCertificate c = None /\ ServerName c = target /\
        (forall clock rawCerts cert certs, mapM ParseCertificate rawCerts = Some (cert :: certs) -> tls_client_accepts clock c rawCerts = true)
    end /\
    (forall b t, with_balancer call = Some (b, Some t) -> t = tls).
Proof.
  intros Ho Hc Hd. destruct (prepared_credentials _ _ _ _ _ Ho Hc) as (r & entries & Hr & _ & Hl & He).
  apply entry_credentials_inv in He as (before & entry & after & inst & rest & -> & Hbefore & Hn & Hi & Hcred).
  destruct (Dial_balancer _ _ _ Hd) as (copts & Hp & Hcreds & Hb). exists r, before, entry, after, inst, rest. do 5 (split; [done|]).
  rewrite Hcred in Hp. unfold instance_credentials in Hp. cbv zeta.
  destruct (Discovery.imeta inst ≫= _) as [meta|]; [destruct (Discovery.TlsServer meta)|]; injection Hp as <-;
    injection Hcreds as <-; (split; [|intros b t Ht; by apply Hb in Ht]); [|done..].
  do 4 (split; [done|]). intros clock rawCerts cert certs Hcerts. unfold tls_client_accepts. by rewrite Hcerts.
Qed.

(** security of default dials.  Without options for the target, a dial is plain text
    exactly when the configuration says "insecure", whatever certificates it names; otherwise
    it is TLS for the name of the target, and the server is verified (against the configured
    authorities, or those of the system) unless the configuration says to skip that. *)
Theorem default_dial_security (dialOptions : gmap string (list DialOption)) (c : Config) (factory : option Control.Factory)
    (reg : option Registry) (builder : option Builder) (target : string) (o : DialOptions) (call : dial_call) :
  dialOptions !! target = None ->
  PrepareDialOption dialOptions (DefaultDialOption c factory reg builder) [] target = Ok o -> Dial target o = Ok call ->
  match dial_creds call with
  | Insecure p => FlagInsecure c = true /\ p = None
  | WithTLS cfg p => FlagInsecure c = false /\ InsecureSkipVerify cfg = FlagInsecureSkipVerify c /\ ServerName cfg = target /\
      RootCAs cfg = match FlagCaCert c with [] => None | caFiles => read_cas caFiles end /\ p = None
  end.
Proof.
  intros Hn Ho Hd. unfold PrepareDialOption, QueryDialOption in Ho. rewrite Hn in Ho. injection Ho as <-.
  destruct (Dial_balancer _ _ _ Hd) as (copts & Hp & Hcreds & _).
  assert (E : exists cert, copts = mkClientOptions (match FlagCaCert c with [] => None | caFiles => Some (read_cas caFiles) end) cert
    target (FlagInsecure c) (FlagInsecureSkipVerify c) [] None true None).
  { cbn [DefaultDialOption CredentialOpts] in Hp. unfold cert_options in Hp.
    destruct (if bool_decide (FlagCert c = "" /\ FlagKey c = "") && _ then _ else _) as [certFile keyFile].
    destruct (bool_decide _); [destruct (HasPrefix certFile pemPrefix && _)|]; destruct (FlagCaCert c);
      cbn -[read_cas] in Hp; unfold WithClientCertificateFile in Hp; try destruct (_ ≫= _) in Hp; try discriminate Hp;
      injection Hp as <-; by eexists. }
  destruct E as [cert ->]. unfold DialOptionWithOpts in Hcreds. cbn -[read_cas] in Hcreds.
  destruct (FlagInsecure c); [by injection Hcreds as <-|]. apply gores_bind_ok in Hcreds as (cfg & Hcfg & [= <-]).
  apply gores_bind_ok in Hcfg as (pool & Hpool & [= <-]). cbn -[read_cas].
  apply cert_pool_ok in Hpool as ->. split_and!; try done. by destruct (FlagCaCert c).
Qed.

End dial.

(** ** Witnesses *)

#[local] Existing Instances Hostname.example_host_cert Credentials.example_x509.

Definition example_entries : list Discovery.Entry :=
  [Discovery.mkEntry "users" [Discovery.mkInstance "10.0.0.1:443" (Some "tls")]; Discovery.mkEntry "mail" [Discovery.mkInstance "10.0.0.2:80" None]].
Definition example_registry : Registry := mkRegistry false (Some example_entries) None None true true false.
Definition example_meta (s : string) : option Discovery.Meta :=
  if bool_decide (s = "tls") then Some (Discovery.mkMeta true [] 3 1 []) else None.
Definition example_config : Config := mkConfig 5 "" "" true "cert" "key" ["ca"] false false.
Notation example_dial_options := (DialOptions (Cert := Hostname.example_cert) (KeyPair := string) (Factory := unit) (Fn := unit) (PerRPC := unit)
  (Codec := unit) (Builder := unit) (DialFn := unit) (KeepAlive := unit)).
Definition example_default (target : string) : example_dial_options :=
  DefaultDialOption (fun c k => FromPair (c +:+ k)) example_config None (Some example_registry) (Some ()) target.
Definition from_registry : gmap string (list (example_dial_options -> gores example_dial_options)) :=
  {[ "users" := [DialWithCredentialsFromRegistry true]; "mail" := [DialWithCredentialsFromRegistry true] ]}.

Lemma registry_decides_tls_witness :
  exists o call c, PrepareDialOption example_meta from_registry example_default [] "users" = Ok o /\ Dial "users" o = Ok call /\
    dial_creds call = WithTLS c None /\ GetClientCertificate c = None /\ tls_client_accepts (fun _ => 0%Z) c ["evil.org"] = true.
Proof.
  destruct (PrepareDialOption example_meta from_registry example_default [] "users") as [o|e|e] eqn:Eo; [|discriminate Eo..].
  destruct (Dial "users" o) as [call|e|e] eqn:Ec; [|injection Eo as <-; discriminate Ec..].
  destruct (registry_decides_tls example_meta from_registry example_default [] "users" o call Eo ltac:(by injection Eo as <-) Ec)
    as (r & before & entry & after & inst & rest & Hr & Hl & Hbefore & Hn & Hi & Hm & _).
  destruct (dial_creds call) as [p|c p] eqn:Ed; [exfalso|].
  - injection Eo as <-. injection Ec as <-. discriminate Ed.
  - destruct Hm as (_ & -> & Hg & _ & Ha). exists o, call, c. split; [reflexivity|]. split; [exact Ec|]. split; [exact Ed|]. split; [exact Hg|].
    eapply Ha. reflexivity.
Defined.

Lemma default_dial_security_witness :
  exists o call c, PrepareDialOption example_meta ∅ example_default [] "users" = Ok o /\ Dial "users" o = Ok call /\
    dial_creds call = WithTLS c None /\ InsecureSkipVerify c = false /\ RootCAs c = Some ["ca"].
Proof.
  destruct (PrepareDialOption example_meta ∅ example_default [] "users") as [o|e|e] eqn:Eo; [|discriminate Eo..].
  destruct (Dial "users" o) as [call|e|e] eqn:Ec; [|injection Eo as <-; discriminate Ec..].
  pose proof (default_dial_security (fun c k => FromPair (c +:+ k)) example_meta ∅ example_config None (Some example_registry) (Some ())
    "users" o call eq_refl Eo Ec) as Hd.
  destruct (dial_creds call) as [p|c p] eqn:Ed; [by destruct Hd|]. destruct Hd as (_ & Hs & _ & Hr & ->). by exists o, call, c.
Defined.

End DialRegistry.
