(* ===== verification/Pool.v ===== *)
(** * The connection pool of the dialer ([dialer/internal/pool/pool.go]).

    Pools are kept under the identity of the call options; each has a fixed number of slots
    that calls use in turn.  Pools are pointers, so they live in a heap and the map holds
    their indices.  Connections are gRPC's: what a look at one shows, how a wait ends, what a
    dial gives and the readings of the clock are inputs ([env]).  The body of [group.Do] is
    one step: the group runs at most one per slot. *)

From S2P Require Import Prelude GoInt GoStrings DialOption.
From Stdlib Require Import Ascii.

Open Scope string_scope.
Open Scope list_scope.

Module Pool.

(** States of [google.golang.org/grpc/connectivity]. *)
Inductive ConnState := Idle | Connecting | Ready | TransientFailure | Shutdown | InvalidState.

(** [checkConnState]: what [GetState] shows in each round of the loop, and whether the state
    changes before the deadline.  [None]: the rounds given are used up and it still waits. *)
Fixpoint checkConnState (obs : list (ConnState * bool)) : option (gores unit) :=
  match obs with
  | [] => None
  | (state, changed) :: obs =>
      match state with
      | Ready => Some (Ok ())
      | Idle | TransientFailure | Connecting => if (changed : bool) then checkConnState obs else Some (Err "DeadlineExceeded")
      | Shutdown => Some (Err "checkConnState: cc.State == connectivity.Shutdown")
      | InvalidState => Some (Err "checkConnState: invalid cc.State")
      end
  end.

Definition redialInterval : Z := 300 * 1000000000.

Section pool.
Context {UnaryInt StreamInt Tracer Async : Type}.
Notation CallOptions := (DialOption.CallOptions UnaryInt StreamInt Tracer Async).

(** Dial options: what [option.PrepareDialOption] makes of tags and target, and their pool size. *)
Context {O : Type} (PoolSize : O -> Z).

(** [lastFail]: [None] is the zero time.  A slot is [None] before its first connection and
    when it holds [nilCC]. *)
Record ccPool := mkPool {
  pool_id : string; optionTag : list string; target : string; dialOpts : O; capacity : Z; idx : Z;
  ccs : list (option nat); lastFail : list (option Z)
}.

(** Connections are numbered in the order they are dialled, and remember for what. *)
Record world := mkWorld {
  heap : list ccPool; pools : gmap string nat; conns : list (string * O); closed : list nat
}.
Definition newWorld : world := mkWorld [] ∅ [] [].

(** ** Operations *)

Definition newPool (poolId : string) (callOpts : CallOptions) (o : O) : ccPool :=
  mkPool poolId (DialOption.DialOptTag callOpts) (DialOption.Target callOpts) o (wrapU 32 (PoolSize o)) 0
    (replicate (Z.to_nat (PoolSize o)) None) (replicate (Z.to_nat (PoolSize o)) None).

(** The pool is a pointer into the heap. *)
Definition WithPool (w : world) (prepare : list string -> string -> gores O) (callOpts : CallOptions) : world * gores nat :=
  let poolId := DialOption.PoolIdentity callOpts in
  match pools w !! poolId with
  | Some p => (w, Ok p)
  | None =>
      match prepare (DialOption.DialOptTag callOpts) (DialOption.Target callOpts) with
      | Err e => (w, Err e)
      | Panic e => (w, Panic e)
      | Ok o =>
          if (PoolSize o <? 0)%Z then (w, Panic "makeslice: len out of range")
          else (mkWorld (heap w ++ [newPool poolId callOpts o]) (<[poolId := length (heap w)]> (pools w)) (conns w) (closed w),
                Ok (length (heap w)))
      end
  end.

Definition set_pool (w : world) (p : nat) (s : ccPool) : world := mkWorld (<[p := s]> (heap w)) (pools w) (conns w) (closed w).
Definition set_idx (s : ccPool) (i : Z) : ccPool :=
  mkPool (pool_id s) (optionTag s) (target s) (dialOpts s) (capacity s) i (ccs s) (lastFail s).
Definition set_cc (s : ccPool) (slot : nat) (cc : option nat) : ccPool :=
  mkPool (pool_id s) (optionTag s) (target s) (dialOpts s) (capacity s) (idx s) (<[slot := cc]> (ccs s)) (lastFail s).
Definition set_fail (s : ccPool) (slot : nat) (t : option Z) : ccPool :=
  mkPool (pool_id s) (optionTag s) (target s) (dialOpts s) (capacity s) (idx s) (ccs s) (<[slot := t]> (lastFail s)).

(** [atomic.AddUint32(&s.idx, 1) % s.capacity], and the load of the slot. *)
Definition next_slot (s : ccPool) : ccPool * gores nat :=
  let i := wrapU 32 (idx s + 1) in
  (set_idx s i, if (capacity s =? 0)%Z then Panic "integer divide by zero" else Ok (Z.to_nat (i mod capacity s))).

(** What the environment answers to the body of [group.Do]: the looks at the pooled
    connection, the time when it failed, the dial ([None] an error, [Some false] no
    connection), the looks at the new one, and the time of a failure. *)
Record env := mkEnv {
  obs_old : list (ConnState * bool); now_check : Z; dial : option bool; obs_new : list (ConnState * bool); now_fail : Z
}.

(** The deferred function. *)
Definition note_fail (e : env) (slot : nat) (s : ccPool) : ccPool :=
  match lastFail s !! slot with Some None => set_fail s slot (Some (now_fail e)) | _ => s end.

(** [lastFail[idx].Add(redialInterval).Before(time.Now())]; the zero time is long ago. *)
Definition may_redial (e : env) (slot : nat) (s : ccPool) : bool :=
  match lastFail s !! slot with Some (Some t) => (t + redialInterval <? now_check e)%Z | _ => true end.

(** The dial, from [s.lastFail[idx] = time.Time{}] on.  The result is [None] while the check
    of the new connection waits. *)
Definition redial (w : world) (p : nat) (s : ccPool) (slot : nat) (e : env) : option (world * gores nat) :=
  let s := set_fail s slot None in
  match dial e with
  | None => Some (set_pool w p (note_fail e slot s), Err "dial")
  | Some false => Some (set_pool w p (note_fail e slot s), Err "Dial returns nil cc.")
  | Some true =>
      let newCC := length (conns w) in
      let s := set_cc s slot (Some newCC) in
      let w := mkWorld (heap w) (pools w) (conns w ++ [(target s, dialOpts s)]) (closed w) in
      r ← checkConnState (obs_new e);
      Some (match r with
            | Ok _ => (set_pool w p s, Ok newCC)
            | Err m => (set_pool w p (note_fail e slot s), Err m)
            | Panic m => (set_pool w p (note_fail e slot s), Panic m)
            end)
  end.

Definition do_slot (w : world) (p slot : nat) (e : env) : option (world * gores nat) :=
  s ← heap w !! p;
  c ← ccs s !! slot;
  match c with
  | None => redial w p s slot e
  | Some cc =>
      r ← checkConnState (obs_old e);
      match r with
      | Ok _ => Some (w, Ok cc)
      | Err m | Panic m =>
          if may_redial e slot s
          then redial (mkWorld (heap w) (pools w) (conns w) (closed w ++ [cc])) p (set_cc s slot None) slot e
          else Some (set_pool w p (note_fail e slot s), Err m)
      end
  end.

(** [Dial]: the next slot; its connection if it is ready, else [group.Do].  [now_ready] is the
    first look. *)
Definition Dial (w : world) (p : nat) (now_ready : bool) (e : env) : option (world * gores nat) :=
  s ← heap w !! p;
  let '(s, r) := next_slot s in
  let w := set_pool w p s in
  match r with
  | Ok slot =>
      match ccs s !! slot with
      | None => Some (w, Panic "index out of range")
      | Some (Some cc) => if (now_ready : bool) then Some (w, Ok cc) else do_slot w p slot e
      | Some None => do_slot w p slot e
      end
  | Err m => Some (w, Err m)
  | Panic m => Some (w, Panic m)
  end.

(** [Clear] of a pool closes what is in its slots; the slots keep their connections. *)
Definition Clear_pool (s : ccPool) : list nat := omap id (ccs s).
Definition Clear (w : world) : world :=
  mkWorld (heap w) ∅ (conns w) (closed w ++ (omap (fun kp => heap w !! kp.2) (map_to_list (pools w)) ≫= Clear_pool)).

(** [dialer.dial]: the in-process connection if there is one, else the options of the call
    together with those of its context are parsed again, and its pool is dialled. *)
Definition dialer_dial (w : world) (memory_dial : CallOptions -> option nat) (handler : gores CallOptions) (callOpts : CallOptions)
    (prepare : list string -> string -> gores O) (now_ready : bool) (e : env) : option (world * gores nat) :=
  match memory_dial callOpts with
  | Some cc => Some (w, Ok cc)
  | None =>
      match handler with
      | Err m => Some (w, Err m)
      | Panic m => Some (w, Panic m)
      | Ok callOpts =>
          match WithPool w prepare callOpts with
          | (w, Ok p) => Dial w p now_ready e
          | (w, Err m) => Some (w, Err m)
          | (w, Panic m) => Some (w, Panic m)
          end
      end
  end.

(** ** Runs *)

(** One operation of some goroutine: [group.Do] runs for a slot that [next_slot] chose earlier.
    [plain] restricts the options of calls, [clear] says whether pools are cleared, and every
    check of the redial time comes before [limit], if there is one. *)
Inductive pstep (plain : CallOptions -> Prop) (clear : bool) (limit : option Z) (w : world) : world -> Prop :=
| PWith prepare callOpts : plain callOpts -> pstep plain clear limit w (WithPool w prepare callOpts).1
| PSlot p s : heap w !! p = Some s -> pstep plain clear limit w (set_pool w p (next_slot s).1)
| PDo p slot e w' r : (forall t, limit = Some t -> (now_check e <= t)%Z) ->
    do_slot w p slot e = Some (w', r) -> pstep plain clear limit w w'
| PClear : clear = true -> pstep plain clear limit w (Clear w).

Definition reachable (w : world) : Prop := rtc (pstep (fun _ => True) true None) newWorld w.

(** ** What a world looks like *)

Definition holds (w : world) (p slot n : nat) : Prop := exists s, heap w !! p = Some s /\ ccs s !! slot = Some (Some n).

Definition pool_ok (s : ccPool) : Prop :=
  (0 <= PoolSize (dialOpts s))%Z /\ length (ccs s) = Z.to_nat (PoolSize (dialOpts s)) /\ length (lastFail s) = length (ccs s) /\
  capacity s = wrapU 32 (PoolSize (dialOpts s)) /\ (0 <= idx s < 2 ^ 32)%Z.

Record world_ok (clear : bool) (w : world) : Prop := {
  ok_pools p s : heap w !! p = Some s -> pool_ok s;
  ok_conns p s slot n : heap w !! p = Some s -> ccs s !! slot = Some (Some n) -> conns w !! n = Some (target s, dialOpts s);
  ok_once p slot p' slot' n : holds w p slot n -> holds w p' slot' n -> p = p' /\ slot = slot';
  ok_kept n : (n < length (conns w))%nat -> (exists p slot, holds w p slot n) \/ n ∈ closed w;
  ok_open p slot n : clear = false -> holds w p slot n -> n ∉ closed w;
  ok_closed n : n ∈ closed w -> (n < length (conns w))%nat
}.

(** A pool with the same slots, or with one slot changed. *)
Definition same_but (s s' : ccPool) : Prop :=
  target s' = target s /\ optionTag s' = optionTag s /\ pool_id s' = pool_id s /\ dialOpts s' = dialOpts s /\ capacity s' = capacity s /\
  length (lastFail s') = length (lastFail s).

Lemma same_but_fail (s : ccPool) (slot : nat) (t : option Z) : same_but s (set_fail s slot t).
Proof. unfold same_but. cbn. by rewrite length_insert. Qed.

Lemma note_fail_slots (e : env) (slot : nat) (s : ccPool) : ccs (note_fail e slot s) = ccs s /\ same_but s (note_fail e slot s) /\
  idx (note_fail e slot s) = idx s.
Proof. unfold note_fail. destruct (lastFail s !! slot) as [[t|]|]; (split_and!; [done| |done]); try done. apply same_but_fail. Qed.

Lemma set_pool_lookup (w : world) (p p' : nat) (s s' : ccPool) : heap (set_pool w p s) !! p' = Some s' ->
  (p' = p /\ s' = s) \/ (p' <> p /\ heap w !! p' = Some s').
Proof.
  cbn. intros Hl. destruct (decide (p' = p)) as [->|Hne]; [|right; by rewrite list_lookup_insert_ne in Hl by done]. left.
  destruct (decide (p < length (heap w))%nat) as [Hlt|Hge]; [rewrite list_lookup_insert_eq in Hl by done; by injection Hl as <-|].
  by rewrite list_insert_ge, lookup_ge_None_2 in Hl by lia.
Qed.

(** Replacing a pool by one with the same slots. *)
Lemma set_pool_ok (clear : bool) (w : world) (p : nat) (s s' : ccPool) : world_ok clear w -> heap w !! p = Some s ->
  ccs s' = ccs s -> same_but s s' -> (0 <= idx s' < 2 ^ 32)%Z -> world_ok clear (set_pool w p s').
Proof.
  intros Hok Hs Hccs (Ht & _ & _ & Hd & Hcap & Hlf) Hidx.
  assert (Hh : forall q slot n, holds (set_pool w p s') q slot n -> holds w q slot n).
  { intros q slot n (x & Hx & Hn). apply set_pool_lookup in Hx as [[-> ->]|[_ Hx]]; [exists s; by rewrite <- Hccs|by exists x]. }
  destruct Hok as [H1 H2 H3 H4 H5 H6]. split.
  - intros q x Hx. apply set_pool_lookup in Hx as [[-> ->]|[_ Hx]]; [|by eapply H1]. destruct (H1 p s Hs) as (? & ? & ? & ? & ?).
    unfold pool_ok. by rewrite Hccs, Hd, Hcap, Hlf.
  - intros q x slot n Hx Hn. apply set_pool_lookup in Hx as [[-> ->]|[_ Hx]]; [|by eapply H2]. cbn. rewrite Ht, Hd.
    eapply H2; [done|]. by rewrite <- Hccs.
  - intros q slot q' slot' n Ha%Hh Hb%Hh. by eapply H3.
  - intros n Hn. destruct (H4 n Hn) as [(q & slot & x & Hx & Hn')|]; [left|by right]. exists q, slot.
    destruct (decide (q = p)) as [->|Hne].
    + exists s'. cbn. rewrite list_lookup_insert_eq by (by eapply lookup_lt_Some). rewrite Hs in Hx. injection Hx as <-. by rewrite Hccs.
    + exists x. cbn. by rewrite list_lookup_insert_ne.
  - intros q slot n Hc Ha%Hh. by eapply H5.
  - done.
Qed.

(** Closing what a slot holds and emptying it. *)
Lemma drop_ok (clear : bool) (w : world) (p slot cc : nat) (s : ccPool) : world_ok clear w -> heap w !! p = Some s ->
  ccs s !! slot = Some (Some cc) ->
  world_ok clear (set_pool (mkWorld (heap w) (pools w) (conns w) (closed w ++ [cc])) p (set_cc s slot None)).
Proof.
  intros Hok Hs Hcc. set (w1 := mkWorld _ _ _ _).
  assert (Hh : forall q sl n, holds (set_pool w1 p (set_cc s slot None)) q sl n -> holds w q sl n /\ n <> cc).
  { intros q sl n (x & Hx & Hn). apply set_pool_lookup in Hx as [[-> ->]|[Hne Hx]].
    - cbn in Hn. destruct (decide (sl = slot)) as [->|Hsl]; [rewrite list_lookup_insert_eq in Hn by (by eapply lookup_lt_Some); done|].
      rewrite list_lookup_insert_ne in Hn by done. split; [by exists s|]. intros ->.
      destruct (ok_once _ _ Hok p sl p slot cc) as [_ ?]; [by exists s..|done].
    - split; [by exists x|]. intros ->. destruct (ok_once _ _ Hok q sl p slot cc) as [? _]; [by exists x|by exists s|done]. }
  pose proof (ok_conns _ _ Hok p s slot cc Hs Hcc) as Hconn. destruct Hok as [H1 H2 H3 H4 H5 H6]. split.
  - intros q x Hx. apply set_pool_lookup in Hx as [[-> ->]|[_ Hx]]; [|by eapply H1]. destruct (H1 p s Hs) as (? & ? & ? & ? & ?).
    unfold pool_ok. cbn. by rewrite !length_insert.
  - intros q x sl n Hx Hn. assert (Hq : holds w q sl n) by (eapply Hh; by exists x). apply set_pool_lookup in Hx as [[-> ->]|[_ Hx]].
    + destruct Hq as (x & Hx & Hn'). cbn. eapply H2; [exact Hs|]. rewrite Hs in Hx. injection Hx as <-. exact Hn'.
    + by eapply H2.
  - intros q sl q' sl' n [Ha _]%Hh [Hb _]%Hh. by eapply H3.
  - intros n Hn. cbn in *. destruct (decide (n = cc)) as [->|Hne]; [right; apply elem_of_app; right; by left|].
    destruct (H4 n Hn) as [(q & sl & x & Hx & Hn')|]; [left|right; apply elem_of_app; by left]. exists q, sl.
    destruct (decide (q = p)) as [->|Hq].
    + exists (set_cc s slot None). rewrite Hs in Hx. injection Hx as <-. split; [cbn; by rewrite list_lookup_insert_eq by (by eapply lookup_lt_Some)|].
      cbn. rewrite list_lookup_insert_ne; [done|]. intros ->. congruence.
    + exists x. cbn. by rewrite list_lookup_insert_ne.
  - intros q sl n Hc [Ha Hne]%Hh. cbn. intros [Hin|Hin]%elem_of_app; [by eapply H5|]. by apply list_elem_of_singleton in Hin.
  - cbn. intros n [Hin|Hin]%elem_of_app; [by apply H6|]. apply list_elem_of_singleton in Hin as ->. by eapply lookup_lt_Some.
Qed.

(** Storing a new connection in an empty slot. *)
Lemma store_ok (clear : bool) (w : world) (p slot : nat) (s : ccPool) : world_ok clear w -> heap w !! p = Some s ->
  ccs s !! slot = Some None ->
  world_ok clear (set_pool (mkWorld (heap w) (pools w) (conns w ++ [(target s, dialOpts s)]) (closed w)) p (set_cc s slot (Some (length (conns w))))).
Proof.
  intros Hok Hs Hcc. set (w1 := mkWorld _ _ _ _). set (n0 := length (conns w)).
  assert (Hh : forall q sl n, holds (set_pool w1 p (set_cc s slot (Some n0))) q sl n ->
    (holds w q sl n /\ (n < n0)%nat) \/ (q = p /\ sl = slot /\ n = n0)).
  { intros q sl n (x & Hx & Hn). apply set_pool_lookup in Hx as [[-> ->]|[Hne Hx]].
    - cbn in Hn. destruct (decide (sl = slot)) as [->|Hsl].
      + rewrite list_lookup_insert_eq in Hn by (by eapply lookup_lt_Some). right. by injection Hn as <-.
      + rewrite list_lookup_insert_ne in Hn by done. left. split; [by exists s|]. eapply lookup_lt_Some, (ok_conns _ _ Hok); done.
    - left. split; [by exists x|]. eapply lookup_lt_Some, (ok_conns _ _ Hok); done. }
  destruct Hok as [H1 H2 H3 H4 H5 H6]. split.
  - intros q x Hx. apply set_pool_lookup in Hx as [[-> ->]|[_ Hx]]; [|by eapply H1]. destruct (H1 p s Hs) as (? & ? & ? & ? & ?).
    unfold pool_ok. cbn. by rewrite !length_insert.
  - intros q x sl n Hx Hn. cbn. destruct (Hh q sl n) as [[(y & Hy & Hn') Hlt]|(-> & -> & ->)]; [by exists x| |].
    + rewrite lookup_app_l by done. apply set_pool_lookup in Hx as [[-> ->]|[_ Hx]]; [|by eapply H2].
      cbn. eapply H2; [exact Hs|]. rewrite Hs in Hy. injection Hy as <-. exact Hn'.
    + apply set_pool_lookup in Hx as [[_ ->]|[? _]]; [|done]. cbn. unfold n0. by rewrite list_lookup_middle.
  - intros q sl q' sl' n [[Ha Hlt]|(-> & -> & ->)]%Hh [[Hb Hlt']|(-> & -> & E)]%Hh; [by eapply H3|subst n; lia|lia|done].
  - intros n Hn. cbn in Hn. rewrite length_app in Hn. cbn in Hn. destruct (decide (n = n0)) as [->|Hne].
    + left. exists p, slot, (set_cc s slot (Some n0)). cbn. by rewrite !list_lookup_insert_eq by (by eapply lookup_lt_Some).
    + destruct (H4 n) as [(q & sl & x & Hx & Hn')|]; [unfold n0 in Hne; lia| |by right]. left. exists q, sl.
      destruct (decide (q = p)) as [->|Hq].
      * exists (set_cc s slot (Some n0)). rewrite Hs in Hx. injection Hx as <-. split; [cbn; by rewrite list_lookup_insert_eq by (by eapply lookup_lt_Some)|].
        cbn. rewrite list_lookup_insert_ne; [done|]. intros ->. congruence.
      * exists x. cbn. by rewrite list_lookup_insert_ne.
  - intros q sl n Hc [[Ha _]|(-> & -> & ->)]%Hh; [by eapply H5|]. cbn. intros Hin%H6. unfold n0 in Hin. lia.
  - cbn. intros n Hin%H6. rewrite length_app. cbn. lia.
Qed.

Lemma set_pool_twice (w : world) (p : nat) (s s' : ccPool) : set_pool (set_pool w p s) p s' = set_pool w p s'.
Proof. unfold set_pool. cbn. by rewrite list_insert_insert_eq. Qed.

Lemma redial_set_pool (w : world) (p : nat) (s s' : ccPool) (slot : nat) (e : env) : redial (set_pool w p s') p s slot e = redial w p s slot e.
Proof.
  unfold redial. destruct (dial e) as [[]|]; rewrite ?set_pool_twice; try done. destruct (checkConnState _) as [[]|]; cbn; try done;
    unfold set_pool; cbn; by rewrite list_insert_insert_eq.
Qed.

Lemma check_ready (obs : list (ConnState * bool)) : checkConnState obs = Some (Ok ()) -> exists b, (Ready, b) ∈ obs.
Proof.
  induction obs as [|[st ch] obs IH]; [done|]. cbn. destruct st, ch; intros Hc; try done.
  all: try (eexists; by left). all: destruct (IH Hc) as [b ?]; exists b; by right.
Qed.

(** Changing what is noted of failures only. *)
Lemma note_ok (clear : bool) (w : world) (p : nat) (s : ccPool) (slot : nat) (e : env) : world_ok clear w -> heap w !! p = Some s ->
  world_ok clear (set_pool w p (note_fail e slot s)).
Proof.
  intros Hok Hs. destruct (note_fail_slots e slot s) as (Hc & Hsame & Hi). eapply set_pool_ok; [done..|]. rewrite Hi. by apply (ok_pools _ _ Hok p s Hs).
Qed.

Lemma redial_ok (clear : bool) (w w' : world) (p slot : nat) (s : ccPool) (e : env) (r : gores nat) :
  world_ok clear w -> heap w !! p = Some s -> ccs s !! slot = Some None -> redial w p s slot e = Some (w', r) ->
  world_ok clear w' /\ forall cc, r = Ok cc -> holds w' p slot cc /\ exists b, (Ready, b) ∈ obs_new e.
Proof.
  intros Hok Hs Hcc Hr. set (s1 := set_fail s slot None).
  assert (Hok1 : world_ok clear (set_pool w p s1)).
  { eapply set_pool_ok; [done..|apply same_but_fail|]. by apply (ok_pools _ _ Hok p s Hs). }
  assert (Hs1 : heap (set_pool w p s1) !! p = Some s1) by (cbn; rewrite list_lookup_insert_eq; [done|by eapply lookup_lt_Some]).
  unfold redial in Hr. fold s1 in Hr.
  pose proof (note_ok clear _ p s1 slot e Hok1 Hs1) as Hnote. rewrite set_pool_twice in Hnote.
  destruct (dial e) as [[]|]; [|by injection Hr as <- <-..].
  destruct (checkConnState (obs_new e)) as [c|] eqn:Ec; [|done]. cbn [mbind option_bind] in Hr.
  pose proof (store_ok clear _ p slot s1 Hok1 Hs1 Hcc) as Hst. cbn [conns closed pools heap set_pool] in Hst.
  set (w2 := mkWorld (heap w) (pools w) (conns w ++ [(target s1, dialOpts s1)]) (closed w)) in Hr.
  set (s2 := set_cc s1 slot (Some (length (conns w)))) in Hr, Hst.
  assert (Hst' : world_ok clear (set_pool w2 p s2)) by (unfold set_pool in Hst |- *; cbn in Hst |- *; by rewrite list_insert_insert_eq in Hst).
  assert (Hs2 : heap (set_pool w2 p s2) !! p = Some s2) by (cbn; rewrite list_lookup_insert_eq; [done|by eapply lookup_lt_Some]).
  destruct c as [[]|m|m]; injection Hr as <- <-.
  - split; [done|]. intros cc [= <-]. split; [|by apply check_ready]. exists s2. split; [done|]. cbn.
    rewrite list_lookup_insert_eq; [done|by eapply lookup_lt_Some].
  - split; [|done]. rewrite <- (set_pool_twice w2 p s2). by apply note_ok.
  - split; [|done]. rewrite <- (set_pool_twice w2 p s2). by apply note_ok.
Qed.

(** A pooled connection that failed its check: closed and dialled again, or left for now. *)
Lemma drop_redial_ok (clear : bool) (w w' : world) (p slot cc : nat) (s : ccPool) (e : env) (m : string) (r : gores nat) :
  world_ok clear w -> heap w !! p = Some s -> ccs s !! slot = Some (Some cc) ->
  (if may_redial e slot s then redial (mkWorld (heap w) (pools w) (conns w) (closed w ++ [cc])) p (set_cc s slot None) slot e
   else Some (set_pool w p (note_fail e slot s), Err m)) = Some (w', r) ->
  world_ok clear w' /\ forall cc, r = Ok cc -> holds w' p slot cc /\ exists b, (Ready, b) ∈ obs_old e ++ obs_new e.
Proof.
  intros Hok Hs Hcc Hd. pose proof (drop_ok clear w p slot cc s Hok Hs Hcc) as Hdrop. destruct (may_redial e slot s).
  - rewrite <- (redial_set_pool _ _ _ (set_cc s slot None)) in Hd. eapply redial_ok in Hd as [Hw Hr]; [|exact Hdrop|..].
    + split; [done|]. intros cc' E. destruct (Hr cc' E) as (? & b & ?). split; [done|]. exists b. apply elem_of_app. by right.
    + cbn. rewrite list_lookup_insert_eq; [done|by eapply lookup_lt_Some].
    + cbn. rewrite list_lookup_insert_eq; [done|by eapply lookup_lt_Some].
  - injection Hd as <- <-. split; [by apply note_ok|done].
Qed.

Lemma do_slot_ok (clear : bool) (w w' : world) (p slot : nat) (e : env) (r : gores nat) :
  world_ok clear w -> do_slot w p slot e = Some (w', r) ->
  world_ok clear w' /\ forall cc, r = Ok cc -> holds w' p slot cc /\ exists b, (Ready, b) ∈ obs_old e ++ obs_new e.
Proof.
  intros Hok Hd. unfold do_slot in Hd. destruct (heap w !! p) as [s|] eqn:Hs; [|done]. cbn [mbind option_bind] in Hd.
  destruct (ccs s !! slot) as [[cc|]|] eqn:Hcc; [| |done]; cbn [mbind option_bind] in Hd.
  - destruct (checkConnState (obs_old e)) as [[[]|m|m]|] eqn:Ec; [| | |done]; cbn [mbind option_bind] in Hd.
    + injection Hd as <- <-. split; [done|]. intros cc' [= <-]. split; [by exists s|]. destruct (check_ready _ Ec) as [b Hb].
      exists b. apply elem_of_app. by left.
    + by eapply drop_redial_ok.
    + by eapply drop_redial_ok.
  - eapply redial_ok in Hd as [Hw Hr]; [|done..]. split; [done|]. intros cc E. destruct (Hr cc E) as (? & b & ?). split; [done|].
    exists b. apply elem_of_app. by right.
Qed.

Lemma with_pool_ok (clear : bool) (w : world) prepare (callOpts : CallOptions) : world_ok clear w -> world_ok clear (WithPool w prepare callOpts).1.
Proof.
  intros Hok. unfold WithPool. destruct (pools w !! _); [done|]. destruct (prepare _ _) as [o| |]; [|done..].
  destruct (Z.ltb_spec (PoolSize o) 0); [done|]. cbn. set (s0 := newPool _ _ _).
  assert (Hnone : forall slot n, ccs s0 !! slot <> Some (Some n)).
  { intros slot n Hl. cbn in Hl. by apply lookup_replicate in Hl as [? _]. }
  assert (Hl : forall q x, (heap w ++ [s0]) !! q = Some x -> heap w !! q = Some x \/ x = s0).
  { intros q x [Hx|[_ Hx]]%lookup_app_Some; [by left|]. right. by apply list_lookup_singleton_Some in Hx as [_ <-]. }
  assert (Hh : forall w2 q slot n, heap w2 = heap w ++ [s0] -> holds w2 q slot n -> holds w q slot n).
  { intros w2 q slot n E (x & Hx & Hn). rewrite E in Hx. apply Hl in Hx as [Hx| ->]; [by exists x|by apply Hnone in Hn]. }
  destruct Hok as [H1 H2 H3 H4 H5 H6]. split; cbn.
  - intros q x [Hx| ->]%Hl; [by eapply H1|]. unfold pool_ok. cbn. rewrite !length_replicate. split_and!; try done; lia.
  - intros q x slot n [Hx| ->]%Hl Hn; [by eapply H2|by apply Hnone in Hn].
  - intros q slot q' slot' n Ha Hb. apply Hh in Ha; [|done]. apply Hh in Hb; [|done]. by eapply H3.
  - intros n Hn. destruct (H4 n Hn) as [(q & slot & x & Hx & Hn')|]; [left|by right]. exists q, slot, x. split; [|done].
    cbn. by apply lookup_app_l_Some.
  - intros q slot n Hc Ha. apply Hh in Ha; [|done]. by eapply H5.
  - done.
Qed.

Lemma clear_ok (w : world) : world_ok true w -> world_ok true (Clear w).
Proof.
  intros [H1 H2 H3 H4 H5 H6]. split; cbn; try done.
  - intros n Hn. destruct (H4 n Hn) as [(q & slot & x & Hx)|]; [left; by exists q, slot, x|right; apply elem_of_app; by left].
  - intros n [Hin|Hin]%elem_of_app; [by apply H6|]. apply list_elem_of_bind in Hin as (s & Hn & Hs).
    apply list_elem_of_omap in Hs as ([k q] & _ & Hq). cbn in Hq. unfold Clear_pool in Hn.
    apply list_elem_of_omap in Hn as (c & Hc & Ec). destruct c as [n'|]; [|done]. injection Ec as ->.
    apply list_elem_of_lookup in Hc as [slot Hslot]. eapply lookup_lt_Some, H2; done.
Qed.

Lemma pstep_ok plain (clear : bool) limit (w w' : world) : world_ok clear w -> pstep plain clear limit w w' -> world_ok clear w'.
Proof.
  intros Hok [prepare callOpts _|p s Hs|p slot e w'' r _ Hd|Hc].
  - by apply with_pool_ok.
  - eapply set_pool_ok; [done..| |]; [by unfold same_but|]. cbn. apply wrapU_range. lia.
  - by eapply do_slot_ok in Hd as [? _].
  - subst clear. by apply clear_ok.
Qed.

Lemma new_ok (clear : bool) : world_ok clear newWorld.
Proof.
  split; cbn; try done; try (intros; lia).
  - intros p slot p' slot' n (s & Hs & _). done.
  - intros p slot n _ (s & Hs & _). done.
  - intros n Hn. by apply elem_of_nil in Hn.
Qed.

Lemma dialled_ok plain (clear : bool) limit (w : world) : rtc (pstep plain clear limit) newWorld w -> world_ok clear w.
Proof. intros Hr. eapply (rtc_invariant _ (world_ok clear)); [apply new_ok| |exact Hr]. intros. by eapply pstep_ok. Qed.

(** C25: no connection of a pool is lost.  However calls of any number of goroutines use the
    pools, and however their dials and checks end, every connection that was dialled sits in
    exactly one slot of one pool or has been closed, a slot holds only connections dialled
    for the target and the options of its own pool, and, until the pools are cleared, no
    closed connection is left in a slot. *)
Theorem connections_conserved (clear : bool) (w : world) (n : nat) :
  rtc (pstep (fun _ => True) clear None) newWorld w ->
  ((n < length (conns w))%nat <-> (exists p slot, holds w p slot n) \/ n ∈ closed w) /\
  (forall p slot p' slot', holds w p slot n -> holds w p' slot' n -> p = p' /\ slot = slot') /\
  (forall p slot s, heap w !! p = Some s -> ccs s !! slot = Some (Some n) -> conns w !! n = Some (target s, dialOpts s)) /\
  (clear = false -> forall p slot, holds w p slot n -> n ∉ closed w).
Proof.
  intros Hr. apply dialled_ok in Hr as [H1 H2 H3 H4 H5 H6]. split; [split|split_and!].
  - apply H4.
  - intros [(p & slot & s & Hs & Hn)|Hn]; [eapply lookup_lt_Some, H2; done|by apply H6].
  - intros p slot p' slot'. apply H3.
  - intros p slot s. apply H2.
  - intros Hc p slot. by apply H5.
Qed.

(** ** Slots in turn *)

Fixpoint take_slots (n : nat) (s : ccPool) : list (gores nat) :=
  match n with 0%nat => [] | S n => (next_slot s).2 :: take_slots n (next_slot s).1 end.

Lemma take_slots_spec (n : nat) : forall s, capacity s <> 0%Z -> (0 <= idx s)%Z -> (idx s + Z.of_nat n < 2 ^ 32)%Z ->
  take_slots n s = (fun j => Ok (Z.to_nat ((idx s + 1 + Z.of_nat j) mod capacity s))) <$> seq 0 n.
Proof.
  induction n as [|n IH]; intros s Hc Hi Hn; [done|]. cbn [take_slots seq]. rewrite fmap_cons.
  assert (Hw : wrapU 32 (idx s + 1) = (idx s + 1)%Z) by (apply wrapU_id; unfold inU; lia).
  rewrite IH by (cbn; rewrite ?Hw; lia || done). unfold next_slot. cbn [fst snd idx capacity set_idx]. rewrite Hw.
  destruct (Z.eqb_spec (capacity s) 0); [done|]. f_equal; [do 3 f_equal; lia|].
  rewrite <- fmap_S_seq, <- list_fmap_compose. apply list_fmap_ext. intros i j _. cbn. do 3 f_equal. lia.
Qed.

Lemma residues_perm (a c : Z) : (0 < c)%Z ->
  (fun j => Z.to_nat ((a + Z.of_nat j) mod c)) <$> seq 0 (Z.to_nat c) ≡ₚ seq 0 (Z.to_nat c).
Proof.
  intros Hc. apply submseteq_length_Permutation; [|by rewrite length_fmap, !length_seq]. apply NoDup_submseteq.
  - apply NoDup_fmap_2_strong; [|apply NoDup_seq]. intros x y Hx%elem_of_seq Hy%elem_of_seq E.
    pose proof (Z.mod_pos_bound (a + Z.of_nat x) c Hc) as Bx. pose proof (Z.mod_pos_bound (a + Z.of_nat y) c Hc) as By.
    assert (Em : ((a + Z.of_nat x) mod c = (a + Z.of_nat y) mod c)%Z) by lia.
    pose proof (Z.div_mod (a + Z.of_nat x) c ltac:(lia)) as Dx. pose proof (Z.div_mod (a + Z.of_nat y) c ltac:(lia)) as Dy.
    assert (((a + Z.of_nat x) / c = (a + Z.of_nat y) / c)%Z) as Eq by nia. rewrite Eq in Dx. lia.
  - intros x (j & -> & _)%list_elem_of_fmap. apply elem_of_seq. pose proof (Z.mod_pos_bound (a + Z.of_nat j) c Hc). lia.
Qed.

(** slots are used in turn.  In a pool of at least one and fewer than 2^32 slots the slot
    of a dial always exists, also when the 32-bit counter wraps around; and as long as it does
    not, any run of as many dials as there are slots uses every slot once. *)
Theorem slots_in_turn (w : world) (p : nat) (s : ccPool) :
  reachable w -> heap w !! p = Some s -> (1 <= PoolSize (dialOpts s) < 2 ^ 32)%Z ->
  (exists slot, (next_slot s).2 = Ok slot /\ (slot < length (ccs s))%nat) /\
  ((idx s + PoolSize (dialOpts s) < 2 ^ 32)%Z ->
     exists slots, take_slots (length (ccs s)) s = Ok <$> slots /\ slots ≡ₚ seq 0 (length (ccs s))).
Proof.
  intros Hr Hs Hn. apply dialled_ok in Hr as Hok. destruct (ok_pools _ _ Hok p s Hs) as (_ & Hl & _ & Hc & Hi).
  rewrite wrapU_id in Hc by (unfold inU; lia). rewrite Hl, <- Hc in *. split.
  - unfold next_slot. cbn [snd]. destruct (Z.eqb_spec (capacity s) 0); [lia|]. eexists. split; [done|].
    pose proof (Z.mod_pos_bound (wrapU 32 (idx s + 1)) (capacity s)). lia.
  - intros Hw. exists ((fun j => Z.to_nat ((idx s + 1 + Z.of_nat j) mod capacity s)) <$> seq 0 (Z.to_nat (capacity s))). split.
    + rewrite take_slots_spec by lia. by rewrite <- list_fmap_compose.
    + apply residues_perm. lia.
Qed.

(** ** Redials *)

(** A redial changes one slot of one pool. *)
Lemma redial_frame (w w' : world) (p slot : nat) (s : ccPool) (e : env) (r : gores nat) : redial w p s slot e = Some (w', r) ->
  pools w' = pools w /\ exists s', heap w' = <[p := s']> (heap w) /\ same_but s s' /\
    forall sl, sl <> slot -> ccs s' !! sl = ccs s !! sl /\ lastFail s' !! sl = lastFail s !! sl.
Proof.
  unfold redial. set (s1 := set_fail s slot None).
  assert (H : forall s2, ccs s2 = ccs s1 \/ ccs s2 = <[slot := Some (length (conns w))]> (ccs s1) -> lastFail s2 = lastFail s1 -> same_but s1 s2 ->
    forall s3, s3 = s2 \/ s3 = note_fail e slot s2 -> same_but s s3 /\
      forall sl, sl <> slot -> ccs s3 !! sl = ccs s !! sl /\ lastFail s3 !! sl = lastFail s !! sl).
  { intros s2 Hc Hf Hsame s3 H3. pose proof (same_but_fail s slot None) as H1. fold s1 in H1.
    destruct (note_fail_slots e slot s2) as (Hnc & Hns & _).
    assert (Hf3 : forall sl, sl <> slot -> lastFail s3 !! sl = lastFail s !! sl).
    { intros sl Hne. assert (E : lastFail s2 !! sl = lastFail s !! sl) by (rewrite Hf; cbn; by rewrite list_lookup_insert_ne).
      destruct H3 as [->| ->]; [done|]. unfold note_fail. destruct (lastFail s2 !! slot) as [[]|]; cbn; rewrite ?list_lookup_insert_ne; done. }
    assert (Hc3 : ccs s3 = ccs s2) by (by destruct H3 as [->| ->]).
    split; [unfold same_but in *; destruct H3 as [->| ->]; intuition congruence|].
    intros sl Hne. split; [|by apply Hf3]. rewrite Hc3. destruct Hc as [->| ->]; cbn; [done|by rewrite list_lookup_insert_ne]. }
  assert (Hrefl : same_but s1 s1) by (by unfold same_but).
  assert (Hset : same_but s1 (set_cc s1 slot (Some (length (conns w))))) by (by unfold same_but).
  destruct (dial e) as [[]|]; [destruct (checkConnState (obs_new e)) as [[[]|m|m]|]; [| | |done]| |];
    intros [= <- <-]; (split; [done|]); eexists; (split; [cbn; reflexivity|]).
  - apply (H (set_cc s1 slot (Some (length (conns w)))) (or_intror eq_refl) eq_refl Hset). by left.
  - apply (H (set_cc s1 slot (Some (length (conns w)))) (or_intror eq_refl) eq_refl Hset). by right.
  - apply (H (set_cc s1 slot (Some (length (conns w)))) (or_intror eq_refl) eq_refl Hset). by right.
  - apply (H s1 (or_introl eq_refl) eq_refl Hrefl). by right.
  - apply (H s1 (or_introl eq_refl) eq_refl Hrefl). by right.
Qed.

Lemma do_slot_frame (w w' : world) (p slot : nat) (e : env) (r : gores nat) : do_slot w p slot e = Some (w', r) ->
  pools w' = pools w /\ exists s s', heap w !! p = Some s /\ heap w' = <[p := s']> (heap w) /\ same_but s s' /\
    forall sl, sl <> slot -> ccs s' !! sl = ccs s !! sl /\ lastFail s' !! sl = lastFail s !! sl.
Proof.
  unfold do_slot. destruct (heap w !! p) as [s|] eqn:Hs; [|done]. cbn [mbind option_bind].
  assert (Hfail : forall s', s' = note_fail e slot s -> same_but s s' /\ forall sl, sl <> slot -> ccs s' !! sl = ccs s !! sl /\ lastFail s' !! sl = lastFail s !! sl).
  { intros s' ->. destruct (note_fail_slots e slot s) as (Hc & Hsame & _). split; [done|]. intros sl Hne. rewrite Hc. split; [done|].
    unfold note_fail. destruct (lastFail s !! slot) as [[]|]; cbn; rewrite ?list_lookup_insert_ne; done. }
  assert (Hdrop : forall w1, heap w1 = heap w -> pools w1 = pools w -> forall m,
    (if may_redial e slot s then redial w1 p (set_cc s slot None) slot e else Some (set_pool w p (note_fail e slot s), Err m)) = Some (w', r) ->
    pools w' = pools w /\ exists s0 s', Some s = Some s0 /\ heap w' = <[p := s']> (heap w) /\ same_but s0 s' /\
      forall sl, sl <> slot -> ccs s' !! sl = ccs s0 !! sl /\ lastFail s' !! sl = lastFail s0 !! sl).
  { intros w1 Hh1 Hp1 m Hd. destruct (may_redial e slot s).
    - apply redial_frame in Hd as (Hp & s' & Hh & Hsame & Hsl). split; [congruence|]. exists s, s'. rewrite <- Hh1. split_and!; [done..|].
      intros sl Hne. destruct (Hsl sl Hne) as [Hc Hf]. cbn in Hc. by rewrite list_lookup_insert_ne in Hc by done.
    - injection Hd as <- <-. split; [done|]. exists s, (note_fail e slot s). split_and!; [done..| |]; by apply Hfail. }
  destruct (ccs s !! slot) as [[cc|]|]; [| |done]; cbn [mbind option_bind].
  - destruct (checkConnState (obs_old e)) as [[[]|m|m]|]; [| | |done]; cbn [mbind option_bind].
    + intros [= <- <-]. split; [done|]. exists s, s. by rewrite list_insert_id.
    + by apply Hdrop.
    + by apply Hdrop.
  - intros Hd. apply redial_frame in Hd as (Hp & s' & Hh & Hsame & Hsl). split; [done|]. by exists s, s'.
Qed.

Lemma Dial_ok (clear : bool) (w w' : world) (p cc : nat) (now_ready : bool) (e : env) :
  world_ok clear w -> Dial w p now_ready e = Some (w', Ok cc) ->
  exists s0 s slot, heap w !! p = Some s0 /\ heap w' !! p = Some s /\ same_but s0 s /\ ccs s !! slot = Some (Some cc) /\
    conns w' !! cc = Some (target s, dialOpts s) /\ (now_ready = true \/ exists b, (Ready, b) ∈ obs_old e ++ obs_new e).
Proof.
  intros Hok0 Hd. unfold Dial in Hd. destruct (heap w !! p) as [s|] eqn:Hs; [|done]. cbn [mbind option_bind] in Hd.
  assert (Hok : world_ok clear (set_pool w p (next_slot s).1)) by (eapply (pstep_ok (fun _ => True) clear None); [done|by apply PSlot]).
  unfold next_slot in Hd, Hok. destruct (capacity s =? 0)%Z; [done|]. cbn [fst] in Hok. set (slot := Z.to_nat _) in Hd.
  set (s1 := set_idx s _) in *. assert (Hs1 : heap (set_pool w p s1) !! p = Some s1) by (cbn; rewrite list_lookup_insert_eq; [done|by eapply lookup_lt_Some]).
  assert (Hdo : do_slot (set_pool w p s1) p slot e = Some (w', Ok cc) -> exists s0 s slot, Some s1 = Some s0 /\ heap w' !! p = Some s /\
    same_but s0 s /\ ccs s !! slot = Some (Some cc) /\ conns w' !! cc = Some (target s, dialOpts s) /\
    (now_ready = true \/ exists b, (Ready, b) ∈ obs_old e ++ obs_new e)).
  { intros Hx. pose proof (do_slot_frame _ _ _ _ _ _ Hx) as (_ & x & s' & Hx1 & Hh & Hsame & _). rewrite Hs1 in Hx1. injection Hx1 as <-.
    eapply do_slot_ok in Hx as [Hw' Hx]; [|done]. destruct (Hx cc eq_refl) as [(y & Hy & Hc') Hb]. exists s1, y, slot.
    assert (y = s') as -> by (rewrite Hh, list_lookup_insert_eq in Hy by (eapply lookup_lt_Some; exact Hs1); by injection Hy).
    split_and!; [done..|by eapply ok_conns|by right]. }
  destruct (ccs s1 !! slot) as [[cc'|]|] eqn:Hcc; [destruct now_ready| |done].
  - injection Hd as <- <-. exists s, s1, slot. split_and!; try done; [by eapply ok_conns|by left].
  - destruct (Hdo Hd) as (s0 & y & sl & [= <-] & ? & Hsame & ?). exists s, y, sl. split; [done|]. split; [done|]. split; [exact Hsame|done].
  - destruct (Hdo Hd) as (s0 & y & sl & [= <-] & ? & Hsame & ?). exists s, y, sl. split; [done|]. split; [done|]. split; [exact Hsame|done].
Qed.

(** C26: what a pool hands out.  A dial that succeeds gives a connection that the slot of the
    pool holds afterwards, that was dialled for the target and options of that pool, and that
    was seen ready during this dial. *)
Theorem pool_dial_sound (w w' : world) (p cc : nat) (now_ready : bool) (e : env) :
  reachable w -> Dial w p now_ready e = Some (w', Ok cc) ->
  exists s slot, heap w' !! p = Some s /\ ccs s !! slot = Some (Some cc) /\ conns w' !! cc = Some (target s, dialOpts s) /\
    (now_ready = true \/ exists b, (Ready, b) ∈ obs_old e ++ obs_new e).
Proof.
  intros Hr%dialled_ok Hd. destruct (Dial_ok true w w' p cc now_ready e Hr Hd) as (_ & s & slot & _ & ? & _ & ?). by exists s, slot.
Qed.

(** What a step leaves of a slot that waits for its redial. *)
Definition waits (w : world) (p slot n : nat) (f : Z) : Prop :=
  exists s, heap w !! p = Some s /\ ccs s !! slot = Some (Some n) /\ lastFail s !! slot = Some (Some f).

Lemma waits_step plain (clear : bool) (w w' : world) (p slot n : nat) (f : Z) :
  pstep plain clear (Some (f + redialInterval)%Z) w w' -> waits w p slot n f -> waits w' p slot n f.
Proof.
  intros Hst (s & Hs & Hc & Hf). destruct Hst as [prepare callOpts _|q s0 Hs0|q sl e w' r Hl Hd|_].
  - exists s. split_and!; [|done..]. unfold WithPool. destruct (pools w !! _); [done|]. destruct (prepare _ _); [|done..].
    destruct (_ <? _)%Z; [done|]. cbn. by apply lookup_app_l_Some.
  - destruct (decide (q = p)) as [->|Hne].
    + rewrite Hs in Hs0. injection Hs0 as <-. exists (next_slot s).1. cbn. rewrite list_lookup_insert_eq by (by eapply lookup_lt_Some). done.
    + exists s. cbn. by rewrite list_lookup_insert_ne.
  - destruct (decide (q = p /\ sl = slot)) as [[-> ->]|Hne].
    + unfold do_slot in Hd. rewrite Hs in Hd. cbn [mbind option_bind] in Hd. rewrite Hc in Hd. cbn [mbind option_bind] in Hd.
      assert (Hm : may_redial e slot s = false) by (unfold may_redial; rewrite Hf; apply Z.ltb_ge; by apply Hl).
      assert (Hn : note_fail e slot s = s) by (unfold note_fail; by rewrite Hf).
      destruct (checkConnState (obs_old e)) as [[[]|m|m]|]; [| | |done]; cbn [mbind option_bind] in Hd; rewrite ?Hm, ?Hn in Hd;
        injection Hd as <- <-; exists s; cbn; rewrite ?list_lookup_insert_eq by (by eapply lookup_lt_Some); done.
    + apply do_slot_frame in Hd as (_ & s1 & s2 & Hs1 & Hh & _ & Hsl). unfold waits. rewrite Hh. destruct (decide (q = p)) as [->|Hqp].
      * rewrite Hs in Hs1. injection Hs1 as <-. destruct (Hsl slot) as [E1 E2]; [intros ->; by apply Hne|].
        exists s2. rewrite list_lookup_insert_eq by (by eapply lookup_lt_Some). by rewrite E1, E2.
      * exists s. by rewrite list_lookup_insert_ne.
  - by exists s.
Qed.

(** A dial that stored a connection and failed its check notes the time. *)
Lemma failed_dial_waits (clear : bool) (w w1 : world) (p slot : nat) (s1 : ccPool) (e : env) (m : string) :
  world_ok clear w -> do_slot w p slot e = Some (w1, Err m) -> heap w1 !! p = Some s1 -> ccs s1 !! slot = Some (Some (length (conns w))) ->
  waits w1 p slot (length (conns w)) (now_fail e).
Proof.
  intros Hok Hd Hs1 Hn. unfold do_slot in Hd. destruct (heap w !! p) as [s|] eqn:Hs; [|done]. cbn [mbind option_bind] in Hd.
  destruct (ok_pools _ _ Hok p s Hs) as (_ & _ & Hlf & _).
  assert (Hre : forall w2 s2, length (conns w2) = length (conns w) -> length (ccs s2) = length (ccs s) -> length (lastFail s2) = length (ccs s) ->
    (slot < length (ccs s))%nat -> (forall n, ccs s2 !! slot <> Some (Some n)) ->
    redial w2 p s2 slot e = Some (w1, Err m) -> waits w1 p slot (length (conns w)) (now_fail e)).
  { intros w2 s2 Hlen Hl2 Hf2 Hlt Hnone Hr. exists s1. split_and!; [done..|]. unfold redial in Hr.
    assert (Hsn : forall s3, lastFail s3 = <[slot := None]> (lastFail s2) -> lastFail (note_fail e slot s3) !! slot = Some (Some (now_fail e))).
    { intros s3 E. unfold note_fail. rewrite E, list_lookup_insert_eq by lia. cbn. rewrite E. rewrite list_lookup_insert_eq; [done|]. rewrite length_insert. lia. }
    destruct (dial e) as [[]|].
    - destruct (checkConnState (obs_new e)) as [[[]|m'|m']|]; cbn [mbind option_bind] in Hr; [discriminate Hr| |discriminate Hr|discriminate Hr]. injection Hr as <- _. cbn in Hs1.
      apply list_lookup_insert_Some in Hs1 as [(_ & <- & _)|[? _]]; [|done]. by apply Hsn.
    - injection Hr as <- _. apply set_pool_lookup in Hs1 as [[_ ->]|[? _]]; [|done]. destruct (note_fail_slots e slot (set_fail s2 slot None)) as [E _].
      rewrite E in Hn. by apply Hnone in Hn.
    - injection Hr as <- _. apply set_pool_lookup in Hs1 as [[_ ->]|[? _]]; [|done]. destruct (note_fail_slots e slot (set_fail s2 slot None)) as [E _].
      rewrite E in Hn. by apply Hnone in Hn. }
  destruct (ccs s !! slot) as [[cc|]|] eqn:Hcc; [| |done]; cbn [mbind option_bind] in Hd; pose proof (lookup_lt_Some _ _ _ Hcc) as Hlt.
  - assert (Hdrop : forall m', (if may_redial e slot s then redial (mkWorld (heap w) (pools w) (conns w) (closed w ++ [cc])) p (set_cc s slot None) slot e
      else Some (set_pool w p (note_fail e slot s), Err m')) = Some (w1, Err m) -> waits w1 p slot (length (conns w)) (now_fail e)).
    { intros m' Hd'. destruct (may_redial e slot s).
      - eapply Hre; [..|exact Hd']; cbn; rewrite ?length_insert; try done. intros n Hx. by rewrite list_lookup_insert_eq in Hx by done.
      - injection Hd' as <- _. apply set_pool_lookup in Hs1 as [[_ ->]|[? _]]; [|done]. destruct (note_fail_slots e slot s) as [E _].
        rewrite E, Hcc in Hn. injection Hn as ->. pose proof (ok_conns _ _ Hok p s slot _ Hs Hcc) as Hl%lookup_lt_Some. lia. }
    destruct (checkConnState (obs_old e)) as [[[]|m'|m']|]; [done| | |done]; cbn [mbind option_bind] in Hd; by eapply Hdrop.
  - eapply Hre; [..|exact Hd]; try done. intros n Hx. congruence.
Qed.

(** Redials are throttled.  When a connection was dialled for a slot and did not become
    ready in time, then for the next five minutes, whatever goroutines do with the pools
    meanwhile, the slot keeps that connection: it is neither closed by its pool nor dialled
    again, and the time of the failure stays. *)
Theorem redial_throttled plain (clear : bool) (w w1 w2 : world) (p slot n : nat) (s1 : ccPool) (e : env) (m : string) :
  reachable w -> n = length (conns w) -> do_slot w p slot e = Some (w1, Err m) ->
  heap w1 !! p = Some s1 -> ccs s1 !! slot = Some (Some n) ->
  rtc (pstep plain clear (Some (now_fail e + redialInterval)%Z)) w1 w2 ->
  exists s2, heap w2 !! p = Some s2 /\ ccs s2 !! slot = Some (Some n) /\ lastFail s2 !! slot = Some (Some (now_fail e)).
Proof.
  intros Hr%dialled_ok -> Hd Hs1 Hn Hrun. set (n := length (conns w)) in *.
  assert (Hw : waits w1 p slot n (now_fail e)) by (by eapply failed_dial_waits).
  refine (rtc_invariant _ (fun w => waits w p slot n (now_fail e)) w1 Hw _ w2 Hrun). intros v v' Hv Hst. by eapply waits_step.
Qed.

(** ** Whose pool it is *)

(** The options that the identity of a pool can be read from. *)
Definition plain_call (c : CallOptions) : Prop :=
  DialOption.poolIdentity c = [] /\ DialOption.DialOptTagAsPoolId c = false /\ contains_char ":" (DialOption.Target c) = false /\
  Forall (fun t => t <> "" /\ contains_char ":" t = false) (DialOption.DialOptTag c).

Lemma plain_identity (c : CallOptions) : plain_call c ->
  Split ":" (DialOption.PoolIdentity c) = DialOption.Target c :: match DialOption.DialOptTag c with [] => [""] | tags => tags end.
Proof.
  intros (Hp & Ha & Ht & Hg). unfold DialOption.PoolIdentity. rewrite Hp, Ha. cbn [foldl].
  change (DialOption.Target c +:+ ":" +:+ Join (DialOption.DialOptTag c) ":") with (DialOption.Target c +:+ String ":" (Join (DialOption.DialOptTag c) ":")).
  rewrite Split_app_sep by done. f_equal. destruct (DialOption.DialOptTag c) as [|t ts] eqn:E; [done|]. apply Split_Join; [done|].
  eapply Forall_impl; [exact Hg|]. by intros ? [].
Qed.

Lemma plain_identity_inj (c c' : CallOptions) : plain_call c -> plain_call c' -> DialOption.PoolIdentity c = DialOption.PoolIdentity c' ->
  DialOption.Target c = DialOption.Target c' /\ DialOption.DialOptTag c = DialOption.DialOptTag c'.
Proof.
  intros Hc Hc' E. pose proof (plain_identity c Hc) as H1. rewrite E, (plain_identity c' Hc') in H1. injection H1 as Ht Hg.
  split; [done|]. destruct Hc as (_ & _ & _ & Hf), Hc' as (_ & _ & _ & Hf').
  destruct (DialOption.DialOptTag c) as [|t ts], (DialOption.DialOptTag c') as [|t' ts']; [done| | |done].
  - injection Hg as -> _. apply Forall_inv in Hf' as [? _]. done.
  - injection Hg as <- _. apply Forall_inv in Hf as [? _]. done.
Qed.

Definition pool_of (w : world) (k : string) (p : nat) : Prop :=
  exists s c, heap w !! p = Some s /\ plain_call c /\ k = DialOption.PoolIdentity c /\ target s = DialOption.Target c /\ optionTag s = DialOption.DialOptTag c.

Lemma with_pool_of (w : world) prepare (c : CallOptions) : plain_call c -> (forall k p, pools w !! k = Some p -> pool_of w k p) ->
  forall k p, pools (WithPool w prepare c).1 !! k = Some p -> pool_of (WithPool w prepare c).1 k p.
Proof.
  intros Hc Hw. unfold WithPool. destruct (pools w !! _) eqn:El; [done|]. destruct (prepare _ _) as [o| |]; [|done..].
  destruct (_ <? _)%Z; [done|]. cbn. intros k p. rewrite lookup_insert_case. case_decide as Ek.
  - intros [= <-]. exists (newPool (DialOption.PoolIdentity c) c o), c. cbn. by rewrite list_lookup_middle.
  - intros Hp. destruct (Hw k p Hp) as (s & c' & Hs & ?). exists s, c'. split; [|done]. cbn. by apply lookup_app_l_Some.
Qed.

Lemma with_pool_id (w : world) prepare (c : CallOptions) (p : nat) : (WithPool w prepare c).2 = Ok p ->
  pools (WithPool w prepare c).1 !! DialOption.PoolIdentity c = Some p.
Proof.
  unfold WithPool. destruct (pools w !! _) eqn:El; [by intros [= <-]|]. destruct (prepare _ _) as [o| |]; [|done..].
  destruct (_ <? _)%Z; [done|]. cbn. intros [= <-]. by rewrite lookup_insert_eq.
Qed.

Lemma pool_of_step (clear : bool) (w w' : world) : (forall k p, pools w !! k = Some p -> pool_of w k p) -> pstep plain_call clear None w w' ->
  forall k p, pools w' !! k = Some p -> pool_of w' k p.
Proof.
  intros Hw Hst. assert (Hset : forall q s s' w'', heap w !! q = Some s -> heap w'' = <[q := s']> (heap w) -> pools w'' = pools w ->
    same_but s s' -> forall k p, pools w'' !! k = Some p -> pool_of w'' k p).
  { intros q s s' w'' Hq Hh Hp (Ht & Hg & _) k p Hk. rewrite Hp in Hk. destruct (Hw k p Hk) as (x & c & Hx & ? & ? & ? & ?).
    destruct (decide (p = q)) as [->|Hne].
    - exists s', c. rewrite Hh, list_lookup_insert_eq by (by eapply lookup_lt_Some). rewrite Hq in Hx. injection Hx as <-. by rewrite Ht, Hg.
    - exists x, c. by rewrite Hh, list_lookup_insert_ne. }
  destruct Hst as [prepare c Hc|q s Hs|q sl e w' r _ Hd|_].
  - by apply with_pool_of.
  - eapply Hset; [done..|]. by unfold same_but.
  - apply do_slot_frame in Hd as (Hp & s & s' & Hs & Hh & Hsame & _). by eapply Hset.
  - intros k p Hk. cbn in Hk. by rewrite lookup_empty in Hk.
Qed.

(** Calls go to their own target.  When targets and tags of all calls are free of colons
    (and tags are not empty, and no call asks for the tags alone as identity), a remote call
    that gets a connection gets one that was dialled for its own target, from a pool with its
    own tags. *)
Theorem call_on_own_pool (clear : bool) (w w' : world) (callOpts parsed : CallOptions) prepare (now_ready : bool) (e : env) (cc : nat) :
  rtc (pstep plain_call clear None) newWorld w -> plain_call parsed ->
  dialer_dial w (fun _ => None) (Ok parsed) callOpts prepare now_ready e = Some (w', Ok cc) ->
  exists s slot p, heap w' !! p = Some s /\ ccs s !! slot = Some (Some cc) /\ target s = DialOption.Target parsed /\
    optionTag s = DialOption.DialOptTag parsed /\ conns w' !! cc = Some (DialOption.Target parsed, dialOpts s).
Proof.
  intros Hr Hc Hd. unfold dialer_dial in Hd. pose proof (dialled_ok _ _ _ _ Hr) as Hok.
  assert (Hof : forall k p, pools w !! k = Some p -> pool_of w k p).
  { refine (rtc_invariant _ (fun w => forall k p, pools w !! k = Some p -> pool_of w k p) newWorld _ _ w Hr).
    - intros k p Hk. cbn in Hk. by rewrite lookup_empty in Hk.
    - intros v v' Hv Hst. by eapply pool_of_step. }
  pose proof (with_pool_of w prepare parsed Hc Hof) as Hof'. pose proof (with_pool_ok clear w prepare parsed Hok) as Hok'.
  pose proof (with_pool_id w prepare parsed) as Hid. destruct (WithPool w prepare parsed) as [w1 [p| |]]; [|done..]. cbn [fst] in *.
  destruct (Hof' _ p (Hid p eq_refl)) as (s0 & c & Hs0 & Hpc & Ek & Ht & Hg).
  destruct (plain_identity_inj parsed c Hc Hpc Ek) as [Et Eg].
  destruct (Dial_ok clear w1 w' p cc now_ready e Hok' Hd) as (x & s & slot & Hx & Hs & (Hst & Hsg & _) & Hcc & Hconn & _).
  rewrite Hs0 in Hx. injection Hx as <-. exists s, slot, p. rewrite Hconn, Hst, Hsg, Ht, Hg, Et, Eg. by split_and!.
Qed.

End pool.

(** ** Examples and witnesses *)

Notation example_call := (DialOption.CallOptions unit unit unit unit).
Definition example_options (tags : list string) (target : string) : example_call :=
  DialOption.mkCallOptions tags false target "" None [] [] false None false [].
Definition example_prepare (tags : list string) (target : string) : gores Z := Ok 2%Z.
Definition example_size (o : Z) : Z := o.
Definition example_env (new : ConnState) (t : Z) : env :=
  mkEnv [(TransientFailure, true); (Connecting, false)] t (Some true) [(Connecting, true); (new, false)] t.

Notation run_with w c := (WithPool example_size w example_prepare c).1.
Definition world1 : world := run_with (newWorld (O := Z)) (example_options ["tls"] "users").

(** A target with a port shares its pool with a call of that port as tag: the second call
    gets the pool of the first. *)
Example targets_confused :
  let w := run_with (newWorld (O := Z)) (example_options ["x"] "host:80") in
  target <$> (heap (run_with w (example_options ["80"; "x"] "host"))) = ["host:80"] /\
  (WithPool example_size w example_prepare (example_options ["80"; "x"] "host")).2 = Ok 0.
Proof. by vm_compute. Qed.

Lemma world1_reachable (plain : example_call -> Prop) clear limit : plain (example_options ["tls"] "users") ->
  rtc (pstep example_size plain clear limit) newWorld world1.
Proof. intros Hp. apply rtc_once. by apply (PWith _ _ _ _ _ example_prepare). Qed.

Definition world2 : world (O := Z) :=
  match Dial world1 0 false (example_env Ready 10) with Some (w, _) => w | None => world1 end.

Lemma connections_conserved_witness : exists p slot, holds world2 p slot 0.
Proof.
  assert (Hr : rtc (pstep example_size (fun _ : example_call => True) false None) newWorld world2).
  { etrans; [by apply world1_reachable|]. eapply rtc_l; [by eapply (PSlot _ _ _ _ world1 0)|].
    eapply rtc_l; [|apply rtc_refl]. eapply (PDo _ _ _ _ _ 0 1 (example_env Ready 10)); [done|vm_compute; reflexivity]. }
  destruct (connections_conserved example_size false world2 0 Hr) as ([H _] & _). destruct H as [H|H]; [by vm_compute; lia|exact H|].
  by apply elem_of_nil in H.
Defined.

Lemma pool_dial_sound_witness :
  exists w', Dial world1 0 false (example_env Ready 10) = Some (w', Ok 0) /\
    exists s slot, heap w' !! 0 = Some s /\ ccs s !! slot = Some (Some 0) /\ conns w' !! 0 = Some (target s, dialOpts s).
Proof.
  assert (E : Dial world1 0 false (example_env Ready 10) = Some (world2, Ok 0)) by (by vm_compute).
  exists world2. split; [exact E|].
  destruct (pool_dial_sound (UnaryInt := unit) (StreamInt := unit) (Tracer := unit) (Async := unit) example_size world1 world2 0 0 false
    (example_env Ready 10) (world1_reachable _ _ _ I) E) as (s & slot & Hs & Hc & Hn & _).
  by exists s, slot.
Defined.

Lemma slots_in_turn_witness :
  exists s slots, heap world1 !! 0 = Some s /\ take_slots (length (ccs s)) s = Ok <$> slots /\ slots ≡ₚ [0; 1].
Proof.
  destruct (heap world1 !! 0) as [s|] eqn:Hs; [|done].
  destruct (slots_in_turn (UnaryInt := unit) (StreamInt := unit) (Tracer := unit) (Async := unit) example_size world1 0 s
    (world1_reachable _ _ _ I) Hs ltac:(injection Hs as <-; by vm_compute)) as [_ H].
  destruct H as (slots & Ht & Hp); [injection Hs as <-; by vm_compute|]. exists s, slots. split; [done|]. split; [exact Ht|].
  injection Hs as <-. exact Hp.
Defined.

Lemma redial_throttled_witness :
  exists w1 s1, do_slot world1 0 1 (example_env TransientFailure 10) = Some (w1, Err "DeadlineExceeded") /\
    heap w1 !! 0 = Some s1 /\ lastFail s1 !! 1 = Some (Some 10%Z).
Proof.
  destruct (do_slot world1 0 1 (example_env TransientFailure 10)) as [[w1 r]|] eqn:E; [|discriminate E].
  assert (Er : r = Err "DeadlineExceeded") by (by injection E as <- <-). subst r.
  destruct (heap w1 !! 0) as [s1|] eqn:Hs; [|injection E as <-; discriminate Hs].
  exists w1, s1. split; [done|]. split; [done|].
  destruct (redial_throttled (UnaryInt := unit) (StreamInt := unit) (Tracer := unit) (Async := unit) example_size (fun _ => True) true
    world1 w1 w1 0 1 0 s1 (example_env TransientFailure 10) "DeadlineExceeded" (world1_reachable _ _ _ I) eq_refl E Hs
    ltac:(injection E as <-; by injection Hs as <-) (rtc_refl _ _)) as (s2 & Hs2 & _ & Hf).
  rewrite Hs in Hs2. injection Hs2 as <-. exact Hf.
Defined.

Lemma call_on_own_pool_witness :
  exists w', dialer_dial example_size newWorld (fun _ => None) (Ok (example_options ["tls"] "users")) (example_options [] "") example_prepare false
      (example_env Ready 10) = Some (w', Ok 0) /\
    exists o, conns w' !! 0 = Some ("users", o).
Proof.
  destruct (dialer_dial example_size newWorld (fun _ => None) (Ok (example_options ["tls"] "users")) (example_options [] "") example_prepare false
      (example_env Ready 10)) as [[w' r]|] eqn:E; [|discriminate E].
  assert (Er : r = Ok 0) by (by injection E as <- <-). subst r. exists w'. split; [done|].
  destruct (call_on_own_pool example_size true newWorld w' (example_options [] "") (example_options ["tls"] "users") example_prepare false
    (example_env Ready 10) 0 (rtc_refl _ _)) as (s & slot & p & _ & _ & _ & _ & Hc); [|exact E|].
  - split_and!; [done..|]. by repeat constructor.
  - by exists (dialOpts s).
Defined.

End Pool.
