(* ===== verification/PathTemplate.v ===== *)
(** * Path templates ([3rdparty/grpc-gateway/httprule/parse.go], [compile.go], [types.go]).

    A template like [/v1/{name=shelves/*}:move] is cut into tokens by an automaton of three
    states, parsed by recursive descent and compiled to operations over a pool of constants,
    from which [runtime.NewPattern] of grpc-gateway makes a pattern.  Strings are bytes; an
    error keeps its operands, the text that [fmt] makes of them is left out. *)

From S2P Require Import Prelude GoStrings.
From Stdlib Require Import Ascii.

Open Scope string_scope.
Open Scope list_scope.

Module PathTemplate.

(** ** Templates ([types.go]) *)

Inductive segment := wildcard | deepWildcard | literal (l : string) | variable (path : string) (segments : list segment).
Record template := mkTemplate { segments : list segment; verb : string; text : string }.

Fixpoint segment_String (s : segment) : string :=
  match s with
  | wildcard => "*"
  | deepWildcard => "**"
  | literal l => l
  | variable path segs => "{" +:+ path +:+ "=" +:+ Join (List.map segment_String segs) "/" +:+ "}"
  end.
Definition template_String (t : template) : string :=
  let str := Join (List.map segment_String (segments t)) "/" in
  "/" +:+ (if bool_decide (verb t <> "") then str +:+ ":" +:+ verb t else str).

(** ** Tokens *)

Definition eof : string := String (ascii_of_nat 0) "".

Inductive tstate := TInit | TField | TNested.
Definition delims (st : tstate) : string := match st with TInit => "/{" | TField => ".=}" | TNested => "/}" end.
Definition next (st : tstate) (r : ascii) : tstate :=
  if decide (r = "{"%char) then TField else if decide (r = "="%char) then TNested else if decide (r = "}"%char) then TInit else st.

(** The loop; every round takes a byte off the path. *)
Fixpoint scan (n : nat) (st : tstate) (path : string) : list string :=
  match n, path with
  | O, _ | _, "" => []
  | S n, _ =>
      match IndexAny path (delims st) with
      | None => [path]
      | Some idx =>
          match sdrop idx path with
          | "" => []
          | String r rest =>
              (if decide (idx = 0) then [String r ""] else [stake idx path; String r ""]) ++ scan n (next st r) rest
          end
      end
  end.
Definition toks (st : tstate) (path : string) : list string := scan (String.length path) st path.

(** The last token is cut at its last colon. *)
Definition cut (tokens : list string) : gores (list string * string) :=
  match last tokens with
  | None => Panic "index out of range"
  | Some t =>
      let front := take (length tokens - 1) tokens in
      match LastIndex t ":" with
      | None => Ok (tokens, "")
      | Some 0 => Ok (front, sdrop 1 t)
      | Some idx => Ok (front ++ [stake idx t], sdrop (S idx) t)
      end
  end.
Definition tokenize (path : string) : gores (list string * string) :=
  if bool_decide (path = "") then Ok ([eof], "")
  else '(tokens, verb) ← cut (toks TInit path); Ok (tokens ++ [eof], verb).

(** ** Terminal symbols *)

Definition is_digit (r : ascii) : bool := let n := nat_of_ascii r in (48 <=? n)%nat && (n <=? 57)%nat.
Definition is_alpha (r : ascii) : bool := is_upper r || is_lower r.
Definition isHexDigit (r : ascii) : bool :=
  let n := nat_of_ascii r in is_digit r || ((65 <=? n)%nat && (n <=? 70)%nat) || ((97 <=? n)%nat && (n <=? 102)%nat).

Inductive pct := PInit | Pct1 | Pct2.
Fixpoint pchars (st : pct) (t : string) : bool :=
  match t with
  | "" => match st with PInit => true | _ => false end
  | String r t =>
      match st with
      | Pct1 => isHexDigit r && pchars Pct2 t
      | Pct2 => isHexDigit r && pchars PInit t
      | PInit =>
          if is_alpha r || is_digit r then pchars PInit t
          else if contains_char r "-._~!$&'()*+,;=:@" then pchars PInit t
          else if decide (r = "%"%char) then pchars Pct1 t
          else false
      end
  end.
Definition expectPChars (t : string) : bool := pchars PInit t.

Fixpoint ident_tail (t : string) : bool :=
  match t with "" => true | String r t => (is_digit r || is_alpha r || bool_decide (r = "_"%char)) && ident_tail t end.
Definition expectIdent (t : string) : bool :=
  match t with "" => false | String r t' => negb (is_digit r) && ident_tail t end.

(** [typeIdent], [typeLiteral], [typeEOF], or a token as its own type. *)
Inductive termType := typeIdent | typeLiteral | typeEOF | Tok (t : string).

(** As in the code, ["/"] is taken for every punctuation. *)
Definition accepts (term : termType) (t : string) : bool :=
  match term with
  | Tok s => bool_decide (t = s \/ t = "/")
  | typeEOF => bool_decide (t = eof)
  | typeIdent => expectIdent t
  | typeLiteral => expectPChars t
  end.

(** ** The parser *)

Inductive error :=
| NoLeadingSlash
| Unexpected (term : termType) (t : string)
| UnexpectedAfter (t : string) (accepted : list string)
| SegmentNeither (e : error)
| InvalidSegment (path : string) (e : error)
| Unterminated (path : string)
| InvalidComponent (e : error).

Inductive res (A : Type) := ROk (a : A) | RErr (e : error) | RPanic | RFuel.
Arguments ROk {_}. Arguments RErr {_}. Arguments RPanic {_}. Arguments RFuel {_}.

Record parser := mkParser { tokens : list string; accepted : list string }.

(** A method of the parser; it may have taken tokens when it fails. *)
Definition M (A : Type) : Type := parser -> res A * parser.
Definition ret {A} (a : A) : M A := fun p => (ROk a, p).
Definition err {A} (e : error) : M A := fun p => (RErr e, p).

(** [if x, err := m; err == nil { ok x } else { bad err }] *)
Definition try {A B} (m : M A) (ok : A -> M B) (bad : error -> M B) : M B := fun p =>
  match m p with
  | (ROk a, p) => ok a p
  | (RErr e, p) => bad e p
  | (RPanic, p) => (RPanic, p)
  | (RFuel, p) => (RFuel, p)
  end.
Definition bind {A B} (m : M A) (k : A -> M B) : M B := try m k err.
Notation "x <- m ; k" := (bind m (fun x => k)) (at level 90, m at level 85, k at level 200, right associativity, only parsing) : gofw_scope.
Local Open Scope gofw_scope.

Definition accept (term : termType) : M string := fun p =>
  match tokens p with
  | [] => (RPanic, p)
  | t :: rest => if accepts term t then (ROk t, mkParser rest (accepted p ++ [t])) else (RErr (Unexpected term t), p)
  end.

(** [fieldPath]: every round takes two tokens. *)
Fixpoint path_loop (n : nat) (components : list string) : M string :=
  match n with
  | O => fun p => (RFuel, p)
  | S n =>
      try (accept (Tok "."))
        (fun _ => try (accept typeIdent) (fun c => path_loop n (components ++ [c])) (fun e => err (InvalidComponent e)))
        (fun _ => ret (Join components "."))
  end.
Definition fieldPath (n : nat) : M string := c <- accept typeIdent; path_loop n [c].

(** The mutual recursion of [segment], [variable] and [segments], with the loop of the latter. *)
Fixpoint parse_segment (n : nat) : M segment :=
  match n with
  | O => fun p => (RFuel, p)
  | S n =>
      let variable_ : M segment :=
        _ <- accept (Tok "{");
        path <- fieldPath n;
        segs <- try (accept (Tok "="))
                  (fun _ => try (parse_segments n) ret (fun e => err (InvalidSegment path e)))
                  (fun _ => ret [wildcard]);
        try (accept (Tok "}")) (fun _ => ret (variable path segs)) (fun _ => err (Unterminated path)) in
      try (accept (Tok "*")) (fun _ => ret wildcard) (fun _ =>
      try (accept (Tok "**")) (fun _ => ret deepWildcard) (fun _ =>
      try (accept typeLiteral) (fun l => ret (literal l)) (fun _ =>
      try variable_ ret (fun e => err (SegmentNeither e)))))
  end
with parse_segments (n : nat) : M (list segment) :=
  match n with
  | O => fun p => (RFuel, p)
  | S n => s <- parse_segment n; segments_loop n [s]
  end
with segments_loop (n : nat) (segs : list segment) : M (list segment) :=
  match n with
  | O => fun p => (RFuel, p)
  | S n => try (accept (Tok "/")) (fun _ => s <- parse_segment n; segments_loop n (segs ++ [s])) (fun _ => ret segs)
  end.

Definition topLevelSegments (n : nat) : M (list segment) :=
  segs <- parse_segments n;
  try (accept typeEOF) (fun _ => ret segs) (fun _ p =>
    match tokens p with
    | [] => (RPanic, p)
    | t :: _ => (RErr (UnexpectedAfter t (accepted p)), p)
    end).

(** Two calls per token. *)
Definition parse_fuel (ts : list string) : nat := 2 * length ts + 2.

Definition Parse (tmpl : string) : res template :=
  if negb (HasPrefix tmpl "/") then RErr NoLeadingSlash
  else match tokenize (sdrop 1 tmpl) with
  | Ok (ts, verb) =>
      match (topLevelSegments (parse_fuel ts) (mkParser ts [])).1 with
      | ROk segs => ROk (mkTemplate segs verb tmpl)
      | RErr e => RErr e
      | RPanic => RPanic
      | RFuel => RFuel
      end
  | _ => RPanic
  end.

(** ** Compilation ([compile.go]) *)

(** The codes are those of package [utilities] of grpc-gateway. *)
Inductive OpCode := OpPush | OpPushM | OpLitPush | OpConcatN | OpCapture.
#[export] Instance OpCode_dec : EqDecision OpCode.
Proof. solve_decision. Defined.

Record op := mkOp { code : OpCode; str : string; num : Z }.

Fixpoint compile (s : segment) : list op :=
  match s with
  | wildcard => [mkOp OpPush "" 0]
  | deepWildcard => [mkOp OpPushM "" 0]
  | literal l => [mkOp OpLitPush l 0]
  | variable path segs =>
      List.concat (List.map compile segs) ++ [mkOp OpConcatN "" (Z.of_nat (length segs)); mkOp OpCapture path 0]
  end.

Record Template := mkCompiled { OpCodes : list Z; Pool : list string; Verb : string; Fields : list string; Source : string }.

Section compiled.
Context (int : OpCode -> Z).

(** The variables of the loop: [ops], [pool], [fields], [consts]. *)
Record cstate := mkC { c_ops : list Z; c_pool : list string; c_fields : list string; c_consts : gmap string Z }.

Definition compile_op (c : cstate) (o : op) : cstate :=
  let ops := c_ops c ++ [int (code o)] in
  let fields := if decide (code o = OpCapture) then c_fields c ++ [str o] else c_fields c in
  if decide (str o = "") then mkC (ops ++ [num o]) (c_pool c) fields (c_consts c)
  else match c_consts c !! str o with
  | Some k => mkC (ops ++ [k]) (c_pool c) fields (c_consts c)
  | None =>
      let k := Z.of_nat (length (c_pool c)) in
      mkC (ops ++ [k]) (c_pool c ++ [str o]) fields (<[str o := k]> (c_consts c))
  end.
Definition rawOps (segs : list segment) : list op := List.concat (List.map compile segs).
Definition Compile (t : template) : Template :=
  let c := foldl compile_op (mkC [] [] [] ∅) (rawOps (segments t)) in
  mkCompiled (c_ops c) (c_pool c) (verb t) (c_fields c) (text t).

End compiled.

(** ** Well-formed templates *)

Definition wf_literal (l : string) : Prop := expectPChars l = true /\ l <> "" /\ l <> "*" /\ l <> "**".
Definition wf_simple (s : segment) : Prop := match s with literal l => wf_literal l | variable _ _ => False | _ => True end.
Definition wf_path (path : string) : Prop := Forall (fun c => expectIdent c = true) (Split "." path).
(** A segment; those of a variable are simple. *)
Definition wf_segment (s : segment) : Prop :=
  match s with variable path segs => wf_path path /\ segs <> [] /\ Forall wf_simple segs | _ => wf_simple s end.
Definition wf_verb (v : string) : Prop := IndexAny v "/{:" = None.
Definition wf_template (t : template) : Prop := segments t <> [] /\ Forall wf_segment (segments t) /\ wf_verb (verb t).

(** A printed template is not cut: it has a verb, or its last segment is no literal with a colon. *)
Definition uncut (t : template) : Prop :=
  verb t <> "" \/ match last (segments t) with Some (literal l) => contains_char ":" l = false | _ => True end.

(** ** The tokens of a path *)

Lemma IndexAny_sdrop s cs i : IndexAny s cs = Some i ->
  exists a d r, s = a +:+ String d r /\ String.length a = i /\ IndexAny a cs = None /\ contains_char d cs = true.
Proof.
  revert i. induction s as [|c s IH]; intros i; cbn; [done|]. destruct (contains_char c cs) eqn:Ec.
  - intros [= <-]. by exists "", c, s.
  - destruct (IndexAny s cs) as [j|] eqn:Ej; [|done]. intros [= <-]. destruct (IH j eq_refl) as (a & d & r & -> & Hl & Ha & Hd).
    exists (String c a), d, r. cbn. by rewrite Ec, Ha, Hl.
Qed.
Lemma IndexAny_app a d r cs : IndexAny a cs = None -> contains_char d cs = true -> IndexAny (a +:+ String d r) cs = Some (String.length a).
Proof.
  induction a as [|c a IH]; simpl; [by intros _ ->|]. destruct (contains_char c cs); [done|]. intros Ha Hd.
  destruct (IndexAny a cs); [done|]. by rewrite IH.
Qed.
Lemma IndexAny_app_none a b cs : IndexAny (a +:+ b) cs = None <-> IndexAny a cs = None /\ IndexAny b cs = None.
Proof.
  induction a as [|c a IH]; simpl; [naive_solver|]. destruct (contains_char c cs); [naive_solver|].
  destruct (IndexAny (a +:+ b) cs), (IndexAny a cs); cbn; naive_solver.
Qed.
Lemma IndexAny_contains s cs d : IndexAny s cs = None -> contains_char d cs = true -> contains_char d s = false.
Proof.
  induction s as [|c s IH]; [done|]. cbn. destruct (contains_char c cs) eqn:Ec; [done|].
  destruct (IndexAny s cs) eqn:Es; [done|]. intros _ Hd. case_decide as E; [subst; congruence|auto].
Qed.

Lemma IndexAny_add s cs d : IndexAny s cs = None -> contains_char d s = false -> IndexAny s (cs +:+ String d "") = None.
Proof.
  induction s as [|c s IH]; cbn; [done|]. rewrite contains_char_app. cbn. destruct (contains_char c cs); [done|]. cbn.
  destruct (decide (c = d)) as [|Hn]; [done|]. rewrite decide_False by congruence. destruct (IndexAny s cs); [done|]. intros _ Hd. by rewrite IH.
Qed.

Lemma IndexAny_tail c s cs : IndexAny (String c s) cs = None -> IndexAny s cs = None.
Proof. cbn. destruct (contains_char c cs); [done|]. by destruct (IndexAny s cs). Qed.

(** The text before a delimiter is a token of its own unless it is empty. *)
Definition texts (a : string) : list string := if decide (a = "") then [] else [a].

Lemma scan_delim n st a d r : IndexAny a (delims st) = None -> contains_char d (delims st) = true ->
  scan (S n) st (a +:+ String d r) = texts a ++ String d "" :: scan n (next st d) r.
Proof.
  intros Ha Hd. cbn [scan]. rewrite IndexAny_app, sdrop_app, stake_app by done.
  destruct (a +:+ String d r) eqn:E; [by destruct a|]. unfold texts. destruct a; [done|]. cbn. by rewrite decide_False.
Qed.
Lemma scan_text n st a : IndexAny a (delims st) = None -> a <> "" -> scan (S n) st a = [a].
Proof. intros Ha Hne. cbn [scan]. rewrite Ha. by destruct a. Qed.

Lemma scan_fuel n st path : (String.length path <= n)%nat -> scan n st path = toks st path.
Proof.
  unfold toks. remember (String.length path) as k eqn:Ek. revert n st path Ek. induction k as [k IH] using lt_wf_ind. intros n st path -> Hn.
  destruct path as [|c path]; [by destruct n|]. destruct n as [|n]; [cbn in Hn; lia|]. change (String.length (String c path)) with (S (String.length path)).
  destruct (IndexAny (String c path) (delims st)) as [i|] eqn:Ei; [|by rewrite !scan_text].
  destruct (IndexAny_sdrop _ _ _ Ei) as (a & d & r & E & _ & Ha & Hd). rewrite E, !scan_delim by done.
  apply (f_equal String.length) in E. rewrite length_string_app in E. cbn in E, Hn. f_equal. f_equal.
  rewrite (IH (String.length r)) by (cbn; lia). symmetry. apply (IH (String.length r)); cbn; lia.
Qed.
Lemma toks_delim st a d r : IndexAny a (delims st) = None -> contains_char d (delims st) = true ->
  toks st (a +:+ String d r) = texts a ++ String d "" :: toks (next st d) r.
Proof.
  intros Ha Hd. unfold toks at 1. rewrite length_string_app. cbn [String.length]. rewrite Nat.add_succ_r, scan_delim by done.
  by rewrite scan_fuel by lia.
Qed.
Lemma toks_text st a : IndexAny a (delims st) = None -> toks st a = texts a.
Proof. intros Ha. destruct a as [|c a]; [done|]. unfold toks. cbn [String.length]. by rewrite scan_text. Qed.

(** The tokens from a state on: a text is followed by a delimiter of the state or by the end
    [e], where the automaton is in the state [fin]. *)
Inductive after (e : list string) (fin : tstate) : tstate -> list string -> Prop :=
| after_end : after e fin fin e
| after_delim st d ts : contains_char d (delims st) = true -> from e fin (next st d) ts -> after e fin st (String d "" :: ts)
with from (e : list string) (fin : tstate) : tstate -> list string -> Prop :=
| from_after st ts : after e fin st ts -> from e fin st ts
| from_text st a ts : a <> "" -> IndexAny a (delims st) = None -> after e fin st ts -> from e fin st (a :: ts).

Lemma toks_from path st : exists fin, from [] fin st (toks st path).
Proof.
  remember (String.length path) as k eqn:Ek. revert path st Ek. induction k as [k IH] using lt_wf_ind. intros path st ->.
  destruct (IndexAny path (delims st)) as [i|] eqn:Ei.
  - destruct (IndexAny_sdrop _ _ _ Ei) as (a & d & r & -> & _ & Ha & Hd). rewrite toks_delim by done.
    destruct (IH (String.length r)) with (path := r) (st := next st d) as [fin Hf]; [rewrite length_string_app; cbn; lia|done|].
    exists fin. unfold texts. case_decide; [by apply from_after, after_delim|]. by apply from_text, after_delim.
  - rewrite toks_text by done. exists st. unfold texts. case_decide; [by repeat constructor|]. by apply from_text; [..|constructor].
Qed.

Lemma after_app e fin st ts : (after [] fin st ts -> after e fin st (ts ++ e)) /\ (from [] fin st ts -> from e fin st (ts ++ e)).
Proof.
  revert st. induction ts as [|t ts IH]; intros st.
  - assert (after [] fin st [] -> after e fin st e) as Ha by (inversion 1; subst; constructor).
    split; [done|]. inversion 1; subst. by apply from_after, Ha.
  - assert (after [] fin st (t :: ts) -> after e fin st ((t :: ts) ++ e)) as Ha.
    { inversion 1; subst. apply after_delim; [done|]. by apply IH. }
    split; [done|]. inversion 1; subst; [by apply from_after, Ha|]. apply from_text; [done..|]. by apply IH.
Qed.

Lemma delim_no_colon st d : contains_char d (delims st) = true -> contains_char ":" (String d "") = false.
Proof. destruct st; cbn; repeat (case_decide; [subst; done|]); done. Qed.

(** A last token with a colon is a text; it may be shortened or left out. *)
Lemma after_last fin ts t tail st : contains_char ":" t = true -> from [] fin fin tail ->
  (after [] fin st (ts ++ [t]) -> after [] fin st (ts ++ tail)) /\ (from [] fin st (ts ++ [t]) -> from [] fin st (ts ++ tail)).
Proof.
  intros Hc Ht. revert st. induction ts as [|x ts IH]; intros st; cbn [app].
  - assert (~ after [] fin st [t]) as Hn. { inversion 1; subst. by rewrite (delim_no_colon st d) in Hc. }
    split; [done|]. intros Hf. inversion Hf as [? ? Ha|? ? ? ? ? Ha]; subst; [done|]. by inversion Ha; subst.
  - assert (after [] fin st (x :: ts ++ [t]) -> after [] fin st (x :: ts ++ tail)) as Ha.
    { inversion 1; subst. apply after_delim; [done|]. by apply IH. }
    split; [done|]. inversion 1; subst; [by apply from_after, Ha|]. apply from_text; [done..|]. by apply IH.
Qed.
Lemma last_free fin ts t st : contains_char ":" t = true ->
  (after [] fin st (ts ++ [t]) -> IndexAny t (delims fin) = None) /\ (from [] fin st (ts ++ [t]) -> IndexAny t (delims fin) = None).
Proof.
  intros Hc. revert st. induction ts as [|x ts IH]; intros st; cbn [app].
  - assert (~ after [] fin st [t]) as Hn. { inversion 1; subst. by rewrite (delim_no_colon st d) in Hc. }
    split; [done|]. intros Hf. inversion Hf as [? ? Ha|? ? ? ? ? Ha]; subst; [done|]. by inversion Ha; subst.
  - assert (after [] fin st (x :: ts ++ [t]) -> IndexAny t (delims fin) = None) as Ha.
    { inversion 1; subst. by eapply (proj2 (IH _)). }
    split; [done|]. inversion 1; subst; [by apply Ha|]. by eapply (proj1 (IH _)).
Qed.

Lemma LastIndex_Some s c i : LastIndex s c = Some i -> s = stake i s +:+ String c (sdrop (S i) s) /\ contains_char c (sdrop (S i) s) = false.
Proof.
  revert i. induction s as [|a s IH]; intros i; cbn [LastIndex]; [done|]. destruct (LastIndex s c) as [j|] eqn:Ej.
  - intros [= <-]. destruct (IH j eq_refl) as [E Hc]. split; [|done]. cbn [stake sdrop]. rewrite E at 1. done.
  - case_decide as Ea; [|done]. intros [= <-]. subst a. split; [done|]. clear IH. cbn [sdrop].
    induction s as [|b s IH]; [done|]. cbn in *. destruct (LastIndex s c); [done|]. case_decide; [done|]. by apply IH.
Qed.

(** What the parser gets: tokens that the automaton passes, and a verb without its delimiters. *)
Lemma tokenize_spec path : exists ts v fin, tokenize path = Ok (ts ++ [eof], v) /\ from [eof] fin TInit (ts ++ [eof]) /\
  (fin = TInit -> wf_verb v).
Proof.
  unfold tokenize. case_bool_decide as Hp.
  { exists [], "", TInit. split; [done|]. split; [repeat constructor|done]. }
  destruct (toks_from path TInit) as [fin Hf]. destruct (list_snoc_inv (toks TInit path)) as [E|(ts & t & E)].
  { destruct path as [|c path]; [done|]. unfold toks in E. cbn [String.length scan] in E. destruct (IndexAny _ _) as [i|] eqn:Ei; [|done].
    destruct (IndexAny_sdrop _ _ _ Ei) as (a & d & r & Ep & <- & _). rewrite Ep, sdrop_app in E. by case_decide. }
  rewrite E in Hf |- *. unfold cut. rewrite last_snoc, length_app, Nat.add_sub, take_app_length.
  destruct (LastIndex t ":") as [i|] eqn:Ei; [|exists (ts ++ [t]), "", fin; repeat split; by apply after_app].
  destruct (LastIndex_Some t ":" i Ei) as [Et Hv].
  assert (contains_char ":" t = true) as Hc. { rewrite Et, contains_char_app. cbn. by rewrite orb_true_r. }
  pose proof (proj2 (last_free fin ts t TInit Hc) Hf) as Hfree. rewrite Et in Hfree. apply IndexAny_app_none in Hfree as [Hs Hd].
  assert (fin = TInit -> wf_verb (sdrop (S i) t)) as Hwf.
  { intros ->. apply (IndexAny_add _ "/{"); [|done]. by apply IndexAny_tail in Hd. }
  destruct i as [|i].
  - exists ts, (sdrop 1 t), fin. split; [done|]. split; [|done]. apply after_app. rewrite <- (app_nil_r ts).
    apply after_last with (t := t); [done| |done]. apply from_after, after_end.
  - assert (from [] fin fin [stake (S i) t]) as Ht by (apply from_text; [by destruct t|done|constructor]).
    exists (ts ++ [stake (S i) t]), (sdrop (S (S i)) t), fin. split; [done|]. split; [|done]. by apply after_app, (after_last fin ts t).
Qed.

(** ** The parser ends, and what it returns *)

Lemma try_accept {B} term (ok : string -> M B) bad t rest p : tokens p = t :: rest ->
  try (accept term) ok bad p = if accepts term t then ok t (mkParser rest (accepted p ++ [t])) else bad (Unexpected term t) p.
Proof. intros E. unfold try, accept. rewrite E. by destruct (accepts term t). Qed.

Definition post {A} (r : res A * parser) (Q : A -> parser -> Prop) : Prop :=
  match r with (ROk a, p) => Q a p | (RErr _, _) => True | _ => False end.
Lemma post_bind {A B} (m : M A) (k : A -> M B) p Q R : post (m p) R -> (forall a p', R a p' -> post (k a p') Q) -> post (bind m k p) Q.
Proof. unfold bind, try. destruct (m p) as [[a|e| |] p']; naive_solver. Qed.
Lemma post_try_ret {A} (m : M A) g p Q : post (m p) Q -> post (try m ret (fun e => err (g e)) p) Q.
Proof. unfold try. by destruct (m p) as [[a|e| |] p']. Qed.
Lemma post_mono {A} (r : res A * parser) (Q Q' : A -> parser -> Prop) : post r Q -> (forall a p, Q a p -> Q' a p) -> post r Q'.
Proof. destruct r as [[a|e| |] p']; cbn; auto. Qed.

Lemma ident_texts t : expectIdent t = true -> t <> eof /\ forall st d, contains_char d (delims st) = true -> t <> String d "".
Proof.
  intros Ht. split; [by intros ->|]. intros st d Hd ->. destruct st; cbn in Hd; repeat (case_decide; [subst; done|]); done.
Qed.
Lemma pchars_texts t : expectPChars t = true -> t <> eof /\ t <> "{" /\ t <> "}" /\ t <> "/".
Proof. intros Ht. by split_and!; intros ->. Qed.

Lemma ident_free t : expectIdent t = true -> forall d, contains_char d "/{.=}:" = true -> contains_char d t = false.
Proof.
  destruct t as [|r t]; [done|]. cbn [expectIdent]. rewrite andb_true_iff. intros [_ Ht] d Hd. revert Ht. generalize (String r t) as s. clear r t.
  induction s as [|r s IH]; [done|]. cbn [ident_tail contains_char]. rewrite andb_true_iff. intros [Hr Hs].
  destruct (decide (r = d)) as [->|]; [|auto]. exfalso.
  assert (d = "/" \/ d = "{" \/ d = "." \/ d = "=" \/ d = "}" \/ d = ":")%char as Hds by (cbn in Hd; clear Hr; repeat (case_decide; [auto 9|]); done).
  destruct Hds as [->|[->|[->|[->|[->| ->]]]]]; by vm_compute in Hr.
Qed.

Section parsing.
Context (fin : tstate) (all : list string).
Notation after := (after [eof] fin). Notation from := (from [eof] fin).

Lemma step_same st t rest : st <> TField -> t <> eof -> t <> "{" -> t <> "}" -> from st (t :: rest) -> from st rest.
Proof.
  intros Hst He Ho Hc Hf. inversion Hf as [? ? Ha|]; subst; [|by constructor]. inversion Ha as [|? d ? Hd Hn]; subst; [done|].
  destruct st; cbn in Hd; [|done|]; repeat (case_decide; [subst; done|]); done.
Qed.

(** A state of the parser before a token, and after a text. *)
Definition good (st : tstate) (p : parser) : Prop := from st (tokens p) /\ accepted p ++ tokens p = all.
Definition good_after (st : tstate) (p : parser) : Prop := after st (tokens p) /\ accepted p ++ tokens p = all.
Definition size (p : parser) : nat := length (tokens p).

Lemma good_next st st' p t rest : good st p \/ good_after st p -> tokens p = t :: rest -> from st' rest -> good st' (mkParser rest (accepted p ++ [t])).
Proof. intros H Et Hf. split; [done|]. cbn. rewrite <- app_assoc. cbn. rewrite <- Et. by destruct H as [[_ H]|[_ H]]. Qed.

Lemma from_cons st ts : from st ts -> exists t rest, ts = t :: rest.
Proof. destruct 1 as [? ? []|]; eauto. Qed.
Lemma good_cons st p : good st p \/ good_after st p -> exists t rest, tokens p = t :: rest.
Proof. intros [[H _]|[H _]]; [|apply from_after in H]; by apply from_cons in H. Qed.

(** An identifier in the state of fields. *)
Lemma ident_next p t rest : good TField p -> tokens p = t :: rest -> expectIdent t = true -> good_after TField (mkParser rest (accepted p ++ [t])).
Proof.
  intros [Hf Ha] E Ht. destruct (ident_texts t Ht) as [He Hd]. rewrite E in Hf. split; [|cbn; by rewrite <- app_assoc; cbn; rewrite <- E].
  inversion Hf as [? ? Haf|]; subst; [|done]. inversion Haf as [|? d ? Hdd]; subst; [done|]. by destruct (Hd TField d).
Qed.
(** A dot, an equals sign or a brace that follows a text. *)
Lemma after_next st p t rest s : good_after st p -> tokens p = t :: rest -> accepts (Tok s) t = true -> s <> eof -> t <> "/" ->
  t = s /\ exists d, s = String d "" /\ good (next st d) (mkParser rest (accepted p ++ [t])).
Proof.
  intros Hp E Hs Hne Ht. apply bool_decide_eq_true in Hs as [->|]; [|done]. split; [done|]. pose proof (proj1 Hp) as Hf. rewrite E in Hf.
  inversion Hf as [|? d ? Hdd Hn]; subst; [done|]. exists d. split; [done|]. by apply (good_next st) with (1 := or_intror Hp).
Qed.
Lemma field_no_slash p t rest : good_after TField p -> tokens p = t :: rest -> t <> "/".
Proof. intros [Hf _] E ->. rewrite E in Hf. by inversion Hf. Qed.

(** A dotted path, in the state of fields. *)
Lemma path_loop_spec n cs p : Forall (fun c => expectIdent c = true) cs -> cs <> [] -> good_after TField p -> (size p <= 2 * n)%nat ->
  post (path_loop n cs p) (fun path p' => wf_path path /\ good_after TField p' /\ (size p' <= size p)%nat /\ head (tokens p') <> Some ".").
Proof.
  revert cs p. induction n as [|n IH]; intros cs p Hcs Hne Hp Hn; destruct (good_cons _ _ (or_intror Hp)) as (t & rest & E).
  { unfold size in Hn. rewrite E in Hn. cbn in Hn. lia. }
  cbn [path_loop]. rewrite (try_accept _ _ _ t rest p E). destruct (accepts (Tok ".") t) eqn:Ea.
  - destruct (after_next _ _ _ _ _ Hp E Ea) as (-> & d & [= <-] & Hp'); [done|by eapply field_no_slash|].
    destruct (good_cons _ _ (or_introl Hp')) as (c & rest' & E'). rewrite (try_accept _ _ _ c rest' _ E'). destruct (accepts typeIdent c) eqn:Ec; [|done].
    eapply post_mono; [apply IH|]. 
    + apply Forall_app. auto.
    + by destruct cs.
    + by apply ident_next.
    + unfold size in *. cbn in *. rewrite E in Hn. subst rest. cbn in Hn. lia.
    + intros path p' (Hw & Hg & Hs & Hh). split_and!; [done..| |done]. unfold size in *. cbn in *. rewrite E. subst rest. cbn. lia.
  - cbn. split_and!; [|done..|]. 
    + unfold wf_path. rewrite Split_Join; [done|done|]. eapply Forall_impl; [exact Hcs|]. intros c Hc. cbn.
      by apply ident_free.
    + rewrite E. cbn. intros [= ->]. done.
Qed.
Lemma fieldPath_spec n p : good TField p -> (size p <= 2 * n)%nat ->
  post (fieldPath n p) (fun path p' => wf_path path /\ good_after TField p' /\ (size p' < size p)%nat /\ head (tokens p') <> Some ".").
Proof.
  intros Hp Hn. destruct (good_cons _ _ (or_introl Hp)) as (c & rest & E). unfold fieldPath, bind. rewrite (try_accept _ _ _ c rest p E).
  destruct (accepts typeIdent c) eqn:Ec; [|done]. eapply post_mono; [apply path_loop_spec|].
  - by constructor.
  - done.
  - by apply ident_next.
  - unfold size in *. cbn. rewrite E in Hn. cbn in Hn. lia.
  - intros path p' (Hw & Hg & Hs & Hh). split_and!; [done..| |done]. unfold size in *. rewrite E. cbn in *. lia.
Qed.

(** The segments of a state: none inside a variable is a variable. *)
Definition segment_in (st : tstate) (s : segment) : Prop := match st with TNested => wf_simple s | _ => wf_segment s end.
Lemma simple_in st s : wf_simple s -> segment_in st s.
Proof. by destruct st, s. Qed.

Definition segment_spec (n : nat) : Prop := forall st p, st <> TField -> good st p -> (2 * size p <= S n)%nat ->
  post (parse_segment n p) (fun s p' => segment_in st s /\ good st p' /\ (size p' < size p)%nat).
Definition segments_spec (n : nat) : Prop := forall st p, st <> TField -> good st p -> (2 * size p <= n)%nat ->
  post (parse_segments n p) (fun segs p' => segs <> [] /\ Forall (segment_in st) segs /\ good st p' /\ (size p' < size p)%nat /\
    head (tokens p') <> Some "/").
Definition loop_spec (n : nat) : Prop := forall st segs p, st <> TField -> segs <> [] -> Forall (segment_in st) segs -> good st p -> (2 * size p <= n)%nat ->
  post (segments_loop n segs p) (fun segs' p' => segs' <> [] /\ Forall (segment_in st) segs' /\ good st p' /\ (size p' <= size p)%nat /\
    head (tokens p') <> Some "/").

Lemma size_step p t rest acc : tokens p = t :: rest -> size p = S (size (mkParser rest acc)).
Proof. unfold size. by intros ->. Qed.

Lemma loop_step n : segment_spec n -> loop_spec n -> loop_spec (S n).
Proof.
  intros Hseg Hloop st segs p Hst Hne Hs Hp Hn. destruct (good_cons _ _ (or_introl Hp)) as (t & rest & E).
  cbn [segments_loop]. rewrite (try_accept _ _ _ t rest p E). pose proof (size_step p t rest (accepted p ++ [t]) E) as Hsz.
  destruct (accepts (Tok "/") t) eqn:Ea.
  - assert (t = "/") as -> by (apply bool_decide_eq_true in Ea; naive_solver).
    assert (good st (mkParser rest (accepted p ++ ["/"]))) as Hp'.
    { apply (good_next st) with (1 := or_introl Hp); [done|]. apply (step_same st "/"); [done..|]. rewrite <- E. apply Hp. }
    eapply post_bind; [apply (Hseg st); [done..|lia]|]. intros s p' (Hs' & Hp'' & Hlt).
    eapply post_mono; [apply (Hloop st); [done|by destruct segs| |done|lia]|]. 
    + apply Forall_app. auto.
    + intros segs' q (? & ? & ? & ? & ?). split_and!; [done..|lia|done].
  - cbn. split_and!; [done..|]. rewrite E. intros [= ->]. done.
Qed.
Lemma segments_step n : segment_spec n -> loop_spec n -> segments_spec (S n).
Proof.
  intros Hseg Hloop st p Hst Hp Hn. cbn [parse_segments]. eapply post_bind; [apply (Hseg st); [done..|lia]|]. intros s p' (Hs & Hp' & Hlt).
  eapply post_mono; [apply (Hloop st); [done..| |done|lia]|]; [by constructor|]. intros segs q (? & ? & ? & ? & ?). split_and!; [done..|lia|done].
Qed.
(** The end of a variable. *)
Definition close_variable (path : string) (segs : list segment) : M segment :=
  try (accept (Tok "}")) (fun _ => ret (variable path segs)) (fun _ => err (Unterminated path)).
Lemma close_spec p t rest path segs : tokens p = t :: rest -> (accepts (Tok "}") t = true -> good TInit (mkParser rest (accepted p ++ [t]))) ->
  wf_segment (variable path segs) ->
  post (close_variable path segs p) (fun s p' => segment_in TInit s /\ good TInit p' /\ (size p' < size p)%nat).
Proof.
  intros E Hg Hw. unfold close_variable. rewrite (try_accept _ _ _ t rest p E). pose proof (size_step p t rest (accepted p ++ [t]) E).
  destruct (accepts (Tok "}") t); [|done]. unfold ret. cbn [post]. split_and!; [apply Hw..|by apply Hg|lia].
Qed.
Lemma nested_close p t rest : good TNested p -> tokens p = t :: rest -> t <> "/" -> accepts (Tok "}") t = true ->
  good TInit (mkParser rest (accepted p ++ [t])).
Proof.
  intros Hp E Ht Ha. apply bool_decide_eq_true in Ha as [->|]; [|done]. apply (good_next TNested) with (1 := or_introl Hp); [done|].
  pose proof (proj1 Hp) as Hf. rewrite E in Hf. inversion Hf as [? ? Haf|]; subst; [|done]. by inversion Haf; subst.
Qed.

(** What follows the opening brace. *)
Definition variable_rest (n : nat) : M segment :=
  path <- fieldPath n;
  segs <- try (accept (Tok "="))
            (fun _ => try (parse_segments n) ret (fun e => err (InvalidSegment path e)))
            (fun _ => ret [wildcard]);
  close_variable path segs.
Lemma variable_spec n p : segments_spec n -> good TField p -> (2 * size p <= n)%nat ->
  post (variable_rest n p) (fun s p' => segment_in TInit s /\ good TInit p' /\ (size p' < size p)%nat).
Proof.
  intros Hsegs Hp Hn. eapply post_bind; [apply fieldPath_spec; [done|lia]|]. intros path p1 (Hw & Hp1 & Hlt & Hdot).
  destruct (good_cons _ _ (or_intror Hp1)) as (t & rest & E). pose proof (size_step p1 t rest (accepted p1 ++ [t]) E).
  assert (t <> "/") as Hsl by (by eapply field_no_slash). unfold bind at 1. unfold try at 1. rewrite (try_accept _ _ _ t rest p1 E).
  destruct (accepts (Tok "=") t) eqn:Ea.
  - destruct (after_next _ _ _ _ _ Hp1 E Ea) as (-> & d & [= <-] & Hp2); [done..|].
    assert (post (parse_segments n (mkParser rest (accepted p1 ++ ["="]))) (fun segs p' => segs <> [] /\ Forall wf_simple segs /\ good TNested p' /\
      (size p' < size p)%nat /\ head (tokens p') <> Some "/")) as Hs.
    { eapply post_mono; [apply (Hsegs TNested); [done..|lia]|]. intros segs q (? & ? & ? & ? & ?). split_and!; [done..|lia|done]. }
    unfold try.
    destruct (parse_segments n _) as [[segs|e| |] p3]; cbn in Hs |- *; [|done..]. destruct Hs as (Hne & Hall & Hp3 & Hlt3 & Hsl3).
    destruct (good_cons _ _ (or_introl Hp3)) as (u & rest3 & E3). rewrite E3 in Hsl3. eapply post_mono; [apply (close_spec p3 u rest3); [done| |done]|].
    + apply nested_close; [done..|]. intros ->. done.
    + intros s p' (? & ? & ?). split_and!; [done..|lia].
  - cbn. eapply post_mono; [apply (close_spec p1 t rest); [done| |]|].
    + intros Hb. by destruct (after_next _ _ _ _ _ Hp1 E Hb) as (-> & d & [= <-] & Hp2).
    + split_and!; [done..|]. by constructor.
    + intros s p' (? & ? & ?). split_and!; [done..|lia].
Qed.
(** Inside a variable no path follows a brace. *)
Lemma nested_variable n p : good_after TNested p -> exists e p', variable_rest n p = (RErr e, p').
Proof.
  intros Hp. destruct (good_cons _ _ (or_intror Hp)) as (t & rest & E). unfold variable_rest, fieldPath, bind, try at 1.
  rewrite (try_accept _ _ _ t rest p E). destruct (accepts typeIdent t) eqn:Ea; [|eauto]. exfalso.
  destruct (ident_texts t Ea) as [He Hd]. pose proof (proj1 Hp) as Hf. rewrite E in Hf. inversion Hf; subst; [done|]. by eapply Hd.
Qed.

Lemma segment_step n : segments_spec n -> segment_spec (S n).
Proof.
  intros Hsegs st p Hst Hp Hn. destruct (good_cons _ _ (or_introl Hp)) as (t & rest & E). pose proof (proj1 Hp) as Hf. rewrite E in Hf.
  pose proof (size_step p t rest (accepted p ++ [t]) E) as Hsz.
  assert (forall s, wf_simple s -> t <> eof -> t <> "{" -> t <> "}" -> segment_in st s /\ good st (mkParser rest (accepted p ++ [t])) /\
    (size (mkParser rest (accepted p ++ [t])) < size p)%nat) as Hstep.
  { intros s Hw H1 H2 H3. split_and!; [by apply simple_in| |lia]. apply (good_next st) with (1 := or_introl Hp); [done|]. by apply (step_same st t). }
  cbn [parse_segment]. rewrite !(try_accept _ _ _ t rest p E).
  destruct (accepts (Tok "*") t) eqn:E1; [apply Hstep; [done|..]; intros ->; done|].
  destruct (accepts (Tok "**") t) eqn:E2; [apply Hstep; [done|..]; intros ->; done|].
  destruct (accepts typeLiteral t) eqn:E3.
  { destruct (pchars_texts t E3) as (? & ? & ? & ?). apply Hstep; [|done..]. split_and!; [done| |by intros ->..].
    intros ->. inversion Hf as [? ? Haf|]; subst; [by inversion Haf|done]. }
  apply post_try_ret. change (post (bind (accept (Tok "{")) (fun _ => variable_rest n) p)
    (fun s p' => segment_in st s /\ good st p' /\ (size p' < size p)%nat)). unfold bind. rewrite (try_accept _ _ _ t rest p E).
  destruct (accepts (Tok "{") t) eqn:E4; [|done]. apply bool_decide_eq_true in E4 as [->| ->]; [|done]. destruct st; [|done|].
  - eapply post_mono; [apply variable_spec; [done| |lia]|].
    + apply (good_next TInit) with (1 := or_introl Hp); [done|]. inversion Hf as [? ? Haf|]; subst; [|done]. by inversion Haf; subst.
    + intros s p' (? & ? & ?). split_and!; [done..|lia].
  - destruct (nested_variable n (mkParser rest (accepted p ++ ["{"]))) as (e & p' & ->); [|done].
    split; [|cbn; rewrite <- app_assoc; cbn; rewrite <- E; apply Hp]. inversion Hf as [? ? Haf|]; subst; [by inversion Haf|done].
Qed.

Lemma parse_specs n : segment_spec n /\ segments_spec n /\ loop_spec n.
Proof.
  induction n as [|n (IH1 & IH2 & IH3)].
  - split_and!; intros st; [intros p Hst Hp Hn|intros p Hst Hp Hn|intros segs p Hst Hne Hs Hp Hn];
      destruct (good_cons _ _ (or_introl Hp)) as (t & rest & E); unfold size in Hn; rewrite E in Hn; cbn in Hn; lia.
  - split_and!; [by apply segment_step|by apply segments_step|by apply loop_step].
Qed.

(** The parser does not run out of tokens or fuel.  It stops before an end; at the only one, if
    no other token looks like it. *)
Lemma topLevel_spec n p : good TInit p -> (2 * size p <= n)%nat ->
  post (topLevelSegments n p) (fun segs p' => segs <> [] /\ Forall wf_segment segs /\
    (forall ts, all = ts ++ [eof] -> eof ∉ ts -> fin = TInit)).
Proof.
  intros Hp Hn. destruct (parse_specs n) as (_ & Hsegs & _). eapply post_bind; [by apply (Hsegs TInit)|]. intros segs p' (Hne & Hall & Hp' & _ & _).
  destruct (good_cons _ _ (or_introl Hp')) as (t & rest & E). rewrite (try_accept _ _ _ t rest p' E).
  destruct (accepts typeEOF t) eqn:Ea; [|by rewrite E]. apply bool_decide_eq_true in Ea. subst t. split_and!; [done..|]. intros ts Hts Hin.
  destruct Hp' as [Hf Hacc]. rewrite E, Hts in Hacc. rewrite E in Hf. destruct (list_snoc_inv rest) as [->|(r & x & ->)].
  - inversion Hf as [? ? Haf|? ? ? ? ? Haf]; subst; [|by inversion Haf]. by inversion Haf as [|? d ? Hd]; subst.
  - change (eof :: r ++ [x]) with ((eof :: r) ++ [x]) in Hacc. rewrite app_assoc in Hacc. apply app_inj_tail in Hacc as [<- _].
    destruct Hin. apply elem_of_app. right. by left.
Qed.
End parsing.

(** A token has only bytes of the path. *)
Lemma toks_free c path st t : contains_char c path = false -> t ∈ toks st path -> contains_char c t = false.
Proof.
  remember (String.length path) as k eqn:Ek. revert path st Ek. induction k as [k IH] using lt_wf_ind. intros path st -> Hc.
  destruct (IndexAny path (delims st)) as [i|] eqn:Ei.
  - destruct (IndexAny_sdrop _ _ _ Ei) as (a & d & r & -> & _ & Ha & Hd). rewrite toks_delim by done.
    rewrite contains_char_app in Hc. apply orb_false_iff in Hc as [Hca Hcr]. cbn in Hcr. case_decide as Ed; [done|].
    intros [Ht|[->|Ht]%elem_of_cons]%elem_of_app.
    + unfold texts in Ht. case_decide; [by apply not_elem_of_nil in Ht|]. by apply list_elem_of_singleton in Ht as ->.
    + cbn. by rewrite decide_False.
    + eapply (IH (String.length r)); [rewrite length_string_app; cbn; lia|done|done|done].
  - rewrite toks_text by done. unfold texts. case_decide; [by intros ?%not_elem_of_nil|]. by intros ->%list_elem_of_singleton.
Qed.
Lemma tokenize_free path ts v : contains_char (ascii_of_nat 0) path = false -> tokenize path = Ok (ts ++ [eof], v) -> eof ∉ ts.
Proof.
  intros Hc. unfold tokenize. case_bool_decide; [intros [= E <-]; destruct ts as [|? [|]]; simplify_eq/=; by intros ?%not_elem_of_nil|].
  unfold cut. destruct (list_snoc_inv (toks TInit path)) as [E|(l & t & E)]; [by rewrite E|].
  assert (forall x, x ∈ l ++ [t] -> contains_char (ascii_of_nat 0) x = false) as Hfree by (intros x Hx; eapply toks_free; [done|by rewrite E]).
  rewrite E, last_snoc, length_app, Nat.add_sub, take_app_length. destruct (LastIndex t ":") as [i|] eqn:Ei.
  - destruct (LastIndex_Some _ _ _ Ei) as [Et _].
    assert (contains_char (ascii_of_nat 0) (stake i t) = false) as Hs.
    { pose proof (Hfree t) as Ht. rewrite Et, contains_char_app, orb_false_iff in Ht. apply Ht. apply elem_of_app. right. by left. }
    destruct i as [|i]; cbn [mbind gores_bind]; intros [= [<- _]%app_inj_tail <-] Hx; [by specialize (Hfree eof ltac:(set_solver))|].
    apply elem_of_app in Hx as [Hx|Hx%list_elem_of_singleton]; [by specialize (Hfree eof ltac:(set_solver))|]. change (eof = stake (S i) t) in Hx. by rewrite <- Hx in Hs.
  - cbn. intros [= [<- _]%app_inj_tail <-] Hx. by specialize (Hfree _ Hx).
Qed.

(** Every template is parsed, or refused with an error; what is parsed has the form of the
    grammar. *)
Lemma Parse_cases s : match Parse s with
  | ROk t => segments t <> [] /\ Forall wf_segment (segments t) /\ text t = s /\ (contains_char (ascii_of_nat 0) s = false -> wf_verb (verb t))
  | RErr _ => True
  | _ => False
  end.
Proof.
  unfold Parse. destruct (HasPrefix s "/") eqn:Ep; [|done]. apply HasPrefix_spec in Ep as [path ->]. change (sdrop 1 ("/" +:+ path)) with path. cbn [negb].
  destruct (tokenize_spec path) as (ts & v & fin & E & Hf & Hv). rewrite E.
  assert (good fin (ts ++ [eof]) TInit (mkParser (ts ++ [eof]) [])) as Hg by done.
  pose proof (topLevel_spec fin (ts ++ [eof]) (parse_fuel (ts ++ [eof])) _ Hg) as H. unfold parse_fuel, size in H. cbn [tokens] in H.
  specialize (H ltac:(lia)). unfold parse_fuel. destruct (topLevelSegments _ _) as [[segs|e| |] p']; cbn in H |- *; [|done..].
  destruct H as (Hne & Hall & Hfin). split_and!; [done..|]. intros Hnul. apply Hv, (Hfin ts); [done|].
  eapply tokenize_free; [|exact E]. by cbn in Hnul.
Qed.

(** ** Printing and parsing *)

(** The tokens of a printed template: a text in front of the separator [d]. *)
Definition path_tokens (path : string) : list string := tail (List.concat ((fun c => ["."; c]) <$> Split "." path)).
Definition simple_token (s : segment) : string := segment_String s.
Fixpoint sep_tokens (segs : list (list string)) : list string :=
  match segs with [] => [] | [s] => s | s :: segs => s ++ "/" :: sep_tokens segs end.
Definition segment_tokens (s : segment) : list string :=
  match s with
  | variable path segs => "{" :: path_tokens path ++ "=" :: sep_tokens ((fun s => [simple_token s]) <$> segs) ++ ["}"]
  | s => [simple_token s]
  end.

Lemma pchars_free st t : pchars st t = true -> forall c, contains_char c "/{}" = true -> contains_char c t = false.
Proof.
  revert st. induction t as [|r t IH]; intros st Ht c Hc; [done|]. cbn [contains_char]. rewrite decide_False.
  - destruct st; cbn [pchars] in Ht.
    + repeat (case_match; [by eapply IH|]). done.
    + apply andb_true_iff in Ht as [_ Ht]. by eapply IH.
    + apply andb_true_iff in Ht as [_ Ht]. by eapply IH.
  - intros ->. assert (c = "/" \/ c = "{" \/ c = "}")%char as Hcs by (cbn in Hc; repeat (case_decide; [auto|]); done).
    destruct Hcs as [->|[->| ->]]; by destruct st.
Qed.
Lemma IndexAny_free s cs : (forall c, contains_char c cs = true -> contains_char c s = false) -> IndexAny s cs = None.
Proof.
  induction s as [|a s IH]; intros Hf; [done|]. cbn. destruct (contains_char a cs) eqn:E.
  - specialize (Hf a E). cbn in Hf. by rewrite decide_True in Hf.
  - rewrite IH; [done|]. intros c Hc. specialize (Hf c Hc). cbn in Hf. by case_decide.
Qed.
Lemma delims_all st c : contains_char c (delims st) = true -> contains_char c "/{.=}:" = true.
Proof. destruct st; cbn; intros; repeat (case_decide; subst; [done|]); done. Qed.
Lemma delims_braces st c : st <> TField -> contains_char c (delims st) = true -> contains_char c "/{}" = true.
Proof. destruct st; cbn; intros; [|done|]; repeat (case_decide; subst; [done|]); done. Qed.
Lemma simple_free s st : wf_simple s -> st <> TField -> IndexAny (simple_token s) (delims st) = None /\ simple_token s <> "".
Proof.
  intros Hw Hst. destruct s as [| |l|]; [by destruct st|by destruct st| |done]. destruct Hw as (Hp & Hne & _). split; [|done].
  apply IndexAny_free. intros c Hc. apply (pchars_free PInit l Hp). by apply (delims_braces st).
Qed.
Lemma texts_ne a : a <> "" -> texts a = [a].
Proof. unfold texts. by case_decide. Qed.

Lemma Join_cons x l sep : l <> [] -> Join (x :: l) sep = x +:+ sep +:+ Join l sep.
Proof. by destruct l. Qed.

(** Inside the braces. *)
Lemma toks_simple segs rest : segs <> [] -> Forall wf_simple segs ->
  toks TNested (Join (List.map segment_String segs) "/" +:+ String "}" rest) =
  sep_tokens ((fun s => [simple_token s]) <$> segs) ++ "}" :: toks TInit rest.
Proof.
  intros Hne Hw. induction Hw as [|s segs Hs Hw IH]; [done|]. destruct (simple_free s TNested Hs ltac:(done)) as [Hf He].
  destruct segs as [|s' segs].
  - cbn [List.map Join]. rewrite toks_delim by done. rewrite texts_ne by done. done.
  - change (List.map segment_String (s :: s' :: segs)) with (segment_String s :: List.map segment_String (s' :: segs)).
    rewrite Join_cons by done. rewrite !string_app_assoc.
    change ("/" +:+ ?x) with (String "/" x). rewrite toks_delim, texts_ne by done. change (next TNested "/") with TNested. by rewrite IH.
Qed.
Lemma toks_path cs rest : cs <> [] -> Forall (fun c => expectIdent c = true) cs ->
  toks TField (Join cs "." +:+ String "=" rest) = tail (List.concat ((fun c => ["."; c]) <$> cs)) ++ "=" :: toks TNested rest.
Proof.
  intros Hne Hw. induction Hw as [|c cs Hc Hw IH]; [done|].
  assert (IndexAny c (delims TField) = None /\ c <> "") as [Hf He].
  { split; [|by intros ->]. apply IndexAny_free. intros d Hd. apply ident_free; [done|]. by apply (delims_all TField). }
  destruct cs as [|c' cs].
  - cbn [Join]. rewrite toks_delim by done. by rewrite texts_ne.
  - rewrite Join_cons by done. rewrite !string_app_assoc.
    change ("." +:+ ?x) with (String "." x). rewrite toks_delim, texts_ne by done. change (next TField ".") with TField. by rewrite IH.
Qed.
Lemma toks_variable path segs rest : wf_segment (variable path segs) ->
  toks TInit (segment_String (variable path segs) +:+ rest) = segment_tokens (variable path segs) ++ toks TInit rest.
Proof.
  intros (Hp & Hne & Hs). cbn [segment_String segment_tokens]. rewrite !string_app_assoc.
  change ("{" +:+ ?x) with ("" +:+ String "{" x). rewrite toks_delim by done. change (next TInit "{") with TField.
  rewrite <- (Join_Split "." path) at 1. change ("=" +:+ ?x) with (String "=" x). rewrite toks_path; [|apply Split_not_nil|done].
  change ("}" +:+ ?x) with (String "}" x). rewrite toks_simple by done. cbn. rewrite <- !app_assoc. cbn. by rewrite <- !app_assoc.
Qed.

(** The last segment, with what follows it. *)
Definition last_tokens (s : segment) (sfx : string) : list string :=
  match s with variable _ _ => segment_tokens s ++ texts sfx | _ => [simple_token s +:+ sfx] end.
Definition front_tokens (segs : list segment) : list string := List.concat ((fun s => segment_tokens s ++ ["/"]) <$> segs).

Lemma simple_or_variable s : wf_segment s -> wf_simple s /\ segment_tokens s = [simple_token s] /\ (forall sfx, last_tokens s sfx = [simple_token s +:+ sfx]) \/
  exists path segs, s = variable path segs.
Proof. destruct s; cbn; eauto. Qed.

Lemma toks_top segs s sfx : Forall wf_segment segs -> wf_segment s -> IndexAny sfx "/{" = None ->
  toks TInit (Join (List.map segment_String (segs ++ [s])) "/" +:+ sfx) = front_tokens segs ++ last_tokens s sfx.
Proof.
  intros Hw Hs Hv. induction Hw as [|x segs Hx Hw IH].
  - cbn [app List.map Join]. destruct (simple_or_variable s Hs) as [(Hsim & _ & ->)|(path & vs & ->)].
    + destruct (simple_free s TInit Hsim ltac:(done)) as [Hf He]. change (segment_String s) with (simple_token s).
      rewrite toks_text by (by apply IndexAny_app_none). by apply texts_ne; destruct (simple_token s).
    + rewrite toks_variable by done. by rewrite toks_text.
  - change (List.map segment_String ((x :: segs) ++ [s])) with (segment_String x :: List.map segment_String (segs ++ [s])).
    rewrite Join_cons by (by destruct segs). rewrite !string_app_assoc. change ("/" +:+ ?x) with (String "/" x).
    change (front_tokens (x :: segs)) with ((segment_tokens x ++ ["/"]) ++ front_tokens segs). rewrite <- !app_assoc, <- IH.
    destruct (simple_or_variable x Hx) as [(Hsim & -> & _)|(path & vs & ->)].
    + destruct (simple_free x TInit Hsim ltac:(done)) as [Hf He]. change (segment_String x) with (simple_token x).
      by rewrite toks_delim, texts_ne.
    + rewrite toks_variable by done. by f_equal.
Qed.

Lemma sep_tokens_snoc segs s : sep_tokens (segment_tokens <$> (segs ++ [s])) = front_tokens segs ++ segment_tokens s.
Proof.
  induction segs as [|x segs IH]; [done|]. change (front_tokens (x :: segs)) with ((segment_tokens x ++ ["/"]) ++ front_tokens segs).
  rewrite <- !app_assoc, <- IH. by destruct segs.
Qed.

Lemma LastIndex_colon w v : contains_char ":" v = false -> LastIndex (w +:+ ":" +:+ v) ":" = Some (String.length w).
Proof.
  intros Hv. induction w as [|a w IH]; [|by simpl; rewrite IH]. simpl. by rewrite LastIndex_free.
Qed.
Lemma cut_verb front w v : contains_char ":" v = false ->
  cut (front ++ [w +:+ ":" +:+ v]) = Ok (front ++ texts w, v).
Proof.
  intros Hv. unfold cut. rewrite last_snoc, LastIndex_colon, length_app, Nat.add_sub, take_app_length by done.
  unfold texts. destruct w as [|a w]; [by rewrite app_nil_r|]. cbn [String.length decide]. rewrite decide_False by done.
  change (S (String.length w)) with (String.length (String a w)). rewrite stake_app.
  do 3 f_equal. replace (S (String.length (String a w))) with (String.length (String a w +:+ ":")) by (rewrite length_string_app; cbn; lia).
  by rewrite <- string_app_assoc, sdrop_app.
Qed.
Lemma cut_none front w : contains_char ":" w = false -> cut (front ++ [w]) = Ok (front ++ [w], "").
Proof. intros Hw. unfold cut. by rewrite last_snoc, LastIndex_free. Qed.

Lemma verb_free v : wf_verb v -> IndexAny v "/{" = None /\ contains_char ":" v = false.
Proof.
  intros Hv. split; [|by eapply IndexAny_contains].
  apply IndexAny_free. intros c Hc. eapply IndexAny_contains; [exact Hv|]. cbn in *. repeat (case_decide; [done|]). done.
Qed.
Lemma verb_tail v : IndexAny v "/{" = None -> IndexAny (":" +:+ v) "/{" = None.
Proof. intros Hv. change (":" +:+ v) with (String ":" v). cbn. by rewrite Hv. Qed.
Lemma tokenize_print segs s v tail : Forall wf_segment segs -> wf_segment s -> wf_verb v ->
  (v <> "" \/ match s with literal l => contains_char ":" l = false | _ => True end) ->
  tail = (if bool_decide (v <> "") then ":" +:+ v else "") ->
  tokenize (Join (List.map segment_String (segs ++ [s])) "/" +:+ tail) = Ok (sep_tokens (segment_tokens <$> (segs ++ [s])) ++ [eof], v).
Proof.
  intros Hw Hs Hv Hu ->. destruct (verb_free v Hv) as [Hv1 Hv2].
  assert (forall sfx, IndexAny sfx "/{" = None -> cut (front_tokens segs ++ last_tokens s sfx) = Ok (front_tokens segs ++ segment_tokens s, v) ->
    tokenize (Join (List.map segment_String (segs ++ [s])) "/" +:+ sfx) = Ok (sep_tokens (segment_tokens <$> (segs ++ [s])) ++ [eof], v)) as Hgoal.
  { intros sfx Hsfx Hcut. unfold tokenize. rewrite bool_decide_eq_false_2.
    - rewrite toks_top, Hcut by done. cbn. by rewrite sep_tokens_snoc.
    - intros E. pose proof (toks_top segs s sfx Hw Hs Hsfx) as Ht. rewrite E in Ht. symmetry in Ht. apply app_nil in Ht as [_ Ht]. by destruct s. }
  apply Hgoal; case_bool_decide as Hne; [by apply verb_tail|done| |].
  - destruct (simple_or_variable s Hs) as [(Hsim & -> & ->)|(path & vs & ->)].
    + rewrite cut_verb by done. rewrite texts_ne; [done|]. by destruct (simple_free s TInit Hsim).
    + cbn [last_tokens]. rewrite texts_ne by done. rewrite app_assoc. change (":" +:+ v) with ("" +:+ ":" +:+ v). by rewrite cut_verb, app_nil_r.
  - assert (v = "") as -> by (destruct (decide (v = "")); [done|by destruct Hne]). destruct Hu as [Hu|Hu]; [done|].
    destruct s as [| |l|path vs]; cbn [last_tokens]; [by apply cut_none..| |].
    + rewrite string_app_nil_r. by apply cut_none.
    + rewrite app_nil_r. cbn [segment_tokens]. rewrite !app_comm_cons, !app_assoc. apply cut_none. done.
Qed.
(** The parser on the tokens of a printed template. *)
Lemma try_token {B} term (ok : string -> M B) bad t rest acc :
  try (accept term) ok bad (mkParser (t :: rest) acc) =
  if accepts term t then ok t (mkParser rest (acc ++ [t])) else bad (Unexpected term t) (mkParser (t :: rest) acc).
Proof. by apply try_accept. Qed.
Lemma run_simple s n rest acc : wf_simple s ->
  parse_segment (S n) (mkParser (simple_token s :: rest) acc) = (ROk s, mkParser rest (acc ++ [simple_token s])).
Proof.
  intros Hw. cbn [parse_segment]. rewrite !try_token.
  destruct s as [| |l|]; [done..| |done]. destruct Hw as (Hp & _ & H1 & H2). cbn [simple_token segment_String].
  assert (l <> "/") as H3 by (by intros ->). unfold accepts. rewrite Hp, !bool_decide_eq_false_2 by naive_solver. done.
Qed.

Lemma run_path cs : forall n done_ t rest acc, Forall (fun c => expectIdent c = true) cs -> (length cs < n)%nat -> accepts (Tok ".") t = false ->
  path_loop n done_ (mkParser (List.concat ((fun c => ["."; c]) <$> cs) ++ t :: rest) acc) =
  (ROk (Join (done_ ++ cs) "."), mkParser (t :: rest) (acc ++ List.concat ((fun c => ["."; c]) <$> cs))).
Proof.
  induction cs as [|c cs IH]; intros n d t rest acc Hcs Hn Ht; (destruct n as [|n]; [lia|]).
  - cbn [path_loop fmap list_fmap List.concat app]. rewrite try_token, Ht. by rewrite !app_nil_r.
  - apply Forall_cons in Hcs as [Hc Hcs]. cbn [path_loop fmap list_fmap List.concat app].
    rewrite try_token.
    change (accepts (Tok ".") ".") with true. cbv iota. rewrite try_token.
    cbn [accepts accepted]. rewrite Hc. rewrite IH; [|done|cbn in Hn; lia|done]. by rewrite <- !app_assoc.
Qed.

(** The loop over segments, each of which runs with fuel [k] or more. *)
Definition runs (k : nat) (s : segment) : Prop := forall n rest acc, (k <= n)%nat ->
  parse_segment n (mkParser (segment_tokens s ++ rest) acc) = (ROk s, mkParser rest (acc ++ segment_tokens s)).
Lemma simple_runs s : wf_simple s -> runs 1 s.
Proof. intros Hw n rest acc Hn. destruct n as [|n]; [lia|]. by destruct s; try done; apply run_simple. Qed.
Lemma runs_mono k k' s : (k <= k')%nat -> runs k s -> runs k' s.
Proof. intros Hk H n rest acc Hn. apply H. lia. Qed.

Lemma run_loop k segs : forall n done_ t rest acc, Forall (runs k) segs -> (k + length segs < n)%nat -> accepts (Tok "/") t = false ->
  segments_loop n done_ (mkParser (List.concat ((fun s => "/" :: segment_tokens s) <$> segs) ++ t :: rest) acc) =
  (ROk (done_ ++ segs), mkParser (t :: rest) (acc ++ List.concat ((fun s => "/" :: segment_tokens s) <$> segs))).
Proof.
  induction segs as [|s segs IH]; intros n d t rest acc Hs Hn Ht; (destruct n as [|n]; [lia|]).
  - cbn [segments_loop fmap list_fmap List.concat app]. rewrite try_token, Ht. by rewrite !app_nil_r.
  - apply Forall_cons in Hs as [Hs Hrest]. cbn [segments_loop fmap list_fmap List.concat app]. rewrite <- app_assoc.
    rewrite try_token.
    change (accepts (Tok "/") "/") with true. cbv iota. cbn [accepted]. unfold bind, try. cbn [length] in Hn.
    rewrite Hs by lia. rewrite IH; [|done|lia|done]. by rewrite <- !app_assoc.
Qed.
Lemma sep_tokens_cons s segs : sep_tokens (segment_tokens <$> (s :: segs)) = segment_tokens s ++ List.concat ((fun s => "/" :: segment_tokens s) <$> segs).
Proof.
  revert s. induction segs as [|x segs IH]; intros s; [by rewrite app_nil_r|].
  change (sep_tokens (segment_tokens <$> (s :: x :: segs))) with (segment_tokens s ++ "/" :: sep_tokens (segment_tokens <$> (x :: segs))).
  by rewrite IH.
Qed.
Lemma run_segments k segs n t rest acc : segs <> [] -> Forall (runs k) segs -> (k + length segs < n)%nat -> accepts (Tok "/") t = false ->
  parse_segments n (mkParser (sep_tokens (segment_tokens <$> segs) ++ t :: rest) acc) =
  (ROk segs, mkParser (t :: rest) (acc ++ sep_tokens (segment_tokens <$> segs))).
Proof.
  intros Hne Hs Hn Ht. destruct segs as [|s segs]; [done|]. apply Forall_cons in Hs as [Hs Hrest]. destruct n as [|n]; [lia|].
  rewrite sep_tokens_cons, <- app_assoc. cbn [parse_segments]. unfold bind, try. cbn [length] in Hn. rewrite Hs by lia.
  rewrite (run_loop k); [|done|lia|done]. by rewrite <- !app_assoc.
Qed.

Lemma simple_tokens segs : Forall wf_simple segs -> segment_tokens <$> segs = (fun s => [simple_token s]) <$> segs.
Proof. induction 1 as [|s segs Hs _ IH]; [done|]. cbn. rewrite IH. by destruct s. Qed.
Lemma run_variable c cs segs n rest acc : expectIdent c = true -> Forall (fun c => expectIdent c = true) cs -> segs <> [] -> Forall wf_simple segs ->
  (length cs + length segs + 2 < n)%nat ->
  let ts := (c :: List.concat ((fun c => ["."; c]) <$> cs)) ++ "=" :: sep_tokens (segment_tokens <$> segs) ++ ["}"] in
  variable_rest n (mkParser (ts ++ rest) acc) = (ROk (variable (Join (c :: cs) ".") segs), mkParser rest (acc ++ ts)).
Proof.
  intros Hc Hcs Hne Hs Hn ts. subst ts. unfold variable_rest, fieldPath. rewrite <- !app_assoc. cbn [app].
  assert (forall (k : string -> M segment) p, bind (c <- accept typeIdent; path_loop n [c]) k p =
    try (accept typeIdent) (fun c => bind (path_loop n [c]) k) err p) as Hb by (intros; unfold bind, try; by destruct (accept _ _) as [[]]).
  rewrite Hb, try_token. cbn [accepts]. rewrite Hc. unfold bind at 1, try at 1. rewrite run_path; [|done|lia|done].
  unfold bind at 1. unfold try at 1. rewrite try_token. change (accepts (Tok "=") "=") with true. cbv iota. cbn [accepted]. unfold try at 1.
  rewrite <- app_assoc. cbn [app]. rewrite (run_segments 1); [|done| |lia|done].
  - cbn [ret]. unfold ret, close_variable. rewrite try_token. change (accepts (Tok "}") "}") with true. cbv iota. cbn [accepted].
    unfold ret. by rewrite <- !app_assoc.
  - eapply Forall_impl; [exact Hs|]. apply simple_runs.
Qed.
Lemma variable_runs path segs : wf_segment (variable path segs) -> runs (length (Split "." path) + length segs + 3) (variable path segs).
Proof.
  intros (Hp & Hne & Hs) n rest acc Hn. destruct n as [|n]; [lia|].
  pose proof (Join_Split "." path) as Hj. unfold wf_path in Hp. unfold segment_tokens, path_tokens.
  destruct (Split "." path) as [|c cs] eqn:Esp; [by destruct (Split_not_nil "." path)|]. apply Forall_cons in Hp as [Hc Hcs].
  rewrite <- simple_tokens by done. cbn [fmap list_fmap List.concat app tail length] in *.
  pose proof (run_variable c cs segs n rest (acc ++ ["{"]) Hc Hcs Hne Hs ltac:(lia)) as Hr. cbv zeta in Hr. cbn [fmap list_fmap List.concat app] in Hr.
  cbn [parse_segment]. rewrite !try_token. change (accepts (Tok "*") "{") with false. change (accepts (Tok "**") "{") with false.
  change (accepts typeLiteral "{") with false. cbv iota. unfold try at 1.
  match goal with |- context [bind (accept (Tok "{")) ?k ?p] => change (bind (accept (Tok "{")) k p) with (try (accept (Tok "{")) (fun _ => variable_rest n) err p) end.
  rewrite try_token. change (accepts (Tok "{") "{") with true. cbv iota. cbn [accepted]. rewrite Hr, Hj. by rewrite <- app_assoc.
Qed.

Lemma concat_pair_length (cs : list string) : length (List.concat ((fun c => ["."; c]) <$> cs)) = (2 * length cs)%nat.
Proof. induction cs as [|c cs IH]; [done|]. cbn in *. lia. Qed.
Lemma sep_length segs : (length segs <= length (sep_tokens (segment_tokens <$> segs)))%nat.
Proof.
  induction segs as [|s [|s' segs] IH]; [done|by destruct s; cbn; lia|].
  change (sep_tokens (segment_tokens <$> (s :: s' :: segs))) with (segment_tokens s ++ "/" :: sep_tokens (segment_tokens <$> (s' :: segs))).
  rewrite length_app. cbn [length] in *. lia.
Qed.
Lemma sep_in s segs : s ∈ segs -> (length (segment_tokens s) <= length (sep_tokens (segment_tokens <$> segs)))%nat.
Proof.
  intros Hs. destruct segs as [|x segs]; [by apply not_elem_of_nil in Hs|]. rewrite sep_tokens_cons, length_app.
  apply elem_of_cons in Hs as [->|Hs]; [lia|]. enough (length (segment_tokens s) <= length (List.concat ((fun s => "/" :: segment_tokens s) <$> segs)))%nat by lia.
  induction segs as [|y segs IH]; [by apply not_elem_of_nil in Hs|]. cbn. rewrite length_app. apply elem_of_cons in Hs as [->|Hs]; [lia|].
  specialize (IH Hs). change (List.concat (list_fmap _ _ (fun s => "/" :: segment_tokens s) segs)) with (List.concat ((fun s => "/" :: segment_tokens s) <$> segs)). lia.
Qed.
Lemma segment_runs s k : wf_segment s -> (length (segment_tokens s) <= k)%nat -> runs (k + 1) s.
Proof.
  intros Hw Hk. destruct (simple_or_variable s Hw) as [(Hs & _ & _)|(path & segs & ->)].
  - apply (runs_mono 1); [lia|by apply simple_runs].
  - apply (runs_mono (length (Split "." path) + length segs + 3)); [|by apply variable_runs].
    unfold segment_tokens, path_tokens in Hk. rewrite <- simple_tokens in Hk by apply Hw. destruct (Split "." path) as [|c cs] eqn:Esp; [by destruct (Split_not_nil "." path)|].
    pose proof (sep_length segs). cbn [fmap list_fmap List.concat app tail length] in *. rewrite !length_app in Hk. cbn [length] in Hk.
    rewrite length_app, concat_pair_length in Hk. cbn [length] in *. lia.
Qed.

(** A well-formed template that is printed uncut is read as it was. *)
Lemma print_parse t : wf_template t -> uncut t -> Parse (template_String t) = ROk (mkTemplate (segments t) (verb t) (template_String t)).
Proof.
  intros (Hne & Hw & Hv) Hu. destruct t as [segs v tx]. cbn [segments verb] in *. destruct (list_snoc_inv segs) as [->|(front & s & ->)]; [done|].
  apply Forall_app in Hw as [Hfront Hs]. apply Forall_cons in Hs as [Hs _]. unfold uncut in Hu. cbn [segments verb] in Hu. rewrite last_snoc in Hu.
  pose proof (tokenize_print front s v (if bool_decide (v <> "") then ":" +:+ v else "") Hfront Hs Hv) as Ht.
  assert (template_String (mkTemplate (front ++ [s]) v tx) = "/" +:+ (Join (List.map segment_String (front ++ [s])) "/" +:+
    (if bool_decide (v <> "") then ":" +:+ v else ""))) as E.
  { unfold template_String. cbn [segments verb]. case_bool_decide; [done|]. by rewrite string_app_nil_r. }
  unfold Parse. rewrite E. rewrite HasPrefix_app. cbn [negb]. change (sdrop 1 ("/" +:+ ?x)) with x.
  rewrite Ht; [|by destruct s|done]. unfold topLevelSegments. unfold bind at 1, try at 1.
  pose proof (sep_length (front ++ [s])) as Hl.
  rewrite (run_segments (length (sep_tokens (segment_tokens <$> front ++ [s])) + 1)); [|done| |unfold parse_fuel; rewrite (length_app (sep_tokens _)); cbn [length]; lia|done].
  - by rewrite try_token.
  - apply Forall_forall. intros x Hx. apply segment_runs; [|by apply sep_in].
    apply elem_of_app in Hx as [Hx| ->%list_elem_of_singleton]; [|done]. by eapply Forall_forall.
Qed.

(** ** What the operations mean *)

Section meaning.
Context (int : OpCode -> Z) (int_inj : forall c c', int c = int c' -> c = c').

(** Reading the operations back, with the constants of a pool. *)
Definition opcode_of (z : Z) : option OpCode := List.find (fun c => bool_decide (int c = z)) [OpPush; OpPushM; OpLitPush; OpConcatN; OpCapture].
Definition read_op (pool : list string) (c : OpCode) (k : Z) : option op :=
  match c with
  | OpLitPush | OpCapture => s ← pool !! Z.to_nat k; Some (mkOp c s 0)
  | _ => Some (mkOp c "" k)
  end.
Fixpoint decode (pool : list string) (l : list Z) : option (list op) :=
  match l with
  | [] => Some []
  | c :: k :: l => c ← opcode_of c; o ← read_op pool c k; os ← decode pool l; Some (o :: os)
  | _ => None
  end.

(** Running them on a stack of lists of segments, the last one first. *)
Definition exec (stack : list (list segment)) (o : op) : option (list (list segment)) :=
  match code o with
  | OpPush => Some ([wildcard] :: stack)
  | OpPushM => Some ([deepWildcard] :: stack)
  | OpLitPush => Some ([literal (str o)] :: stack)
  | OpConcatN => let n := Z.to_nat (num o) in
      if decide (n <= length stack)%nat then Some (List.concat (rev (take n stack)) :: drop n stack) else None
  | OpCapture => match stack with segs :: stack => Some ([variable (str o) segs] :: stack) | [] => None end
  end.
Fixpoint exec_all (stack : list (list segment)) (os : list op) : option (list (list segment)) :=
  match os with [] => Some stack | o :: os => stack ← exec stack o; exec_all stack os end.
Definition decompile (t : Template) : option (list segment) :=
  os ← decode (Pool t) (OpCodes t); stack ← exec_all [] os; Some (List.concat (rev stack)).

Lemma exec_all_app stack os os' : exec_all stack (os ++ os') = (stack ← exec_all stack os; exec_all stack os').
Proof. revert stack. induction os as [|o os IH]; intros stack; [done|]. cbn. destruct (exec stack o); [apply IH|done]. Qed.

(** Induction on segments, through the segments of variables. *)
Lemma segment_ind' (P : segment -> Prop) : P wildcard -> P deepWildcard -> (forall l, P (literal l)) ->
  (forall path segs, Forall P segs -> P (variable path segs)) -> forall s, P s.
Proof.
  intros H1 H2 H3 H4. fix IH 1. intros [| |l|path segs]; [done|done|apply H3|]. apply H4. induction segs as [|s segs IHs]; constructor; [apply IH|exact IHs].
Qed.

Lemma exec_segments segs : Forall (fun s => forall stack, exec_all stack (compile s) = Some ([s] :: stack)) segs ->
  forall stack, exec_all stack (rawOps segs) = Some (rev ((fun s => [s]) <$> segs) ++ stack).
Proof.
  induction 1 as [|s segs Hs _ IH]; intros stack; [done|]. change (rawOps (s :: segs)) with (compile s ++ rawOps segs).
  rewrite exec_all_app, Hs. cbn [mbind option_bind]. rewrite IH. cbn. by rewrite <- app_assoc.
Qed.
Lemma exec_segment s : forall stack, exec_all stack (compile s) = Some ([s] :: stack).
Proof.
  induction s as [| |l|path segs IH] using segment_ind'; [done..|]. intros stack. cbn [compile]. change (List.concat (List.map compile segs)) with (rawOps segs).
  rewrite exec_all_app, exec_segments by done. cbn [mbind option_bind exec_all exec code num str]. rewrite Nat2Z.id.
  assert (length (rev ((fun s : segment => [s]) <$> segs)) = length segs) as Hl by (by rewrite length_rev, length_fmap).
  rewrite decide_True by (rewrite length_app; lia). cbn [mbind option_bind]. rewrite <- Hl at 1 2. rewrite take_app_length, drop_app_length, rev_involutive.
  do 4 f_equal. induction segs as [|x segs IHs]; [done|]. cbn. f_equal. apply Forall_cons in IH as [_ IH]. by apply IHs; [|rewrite length_rev, length_fmap].
Qed.

Lemma opcode_of_int c : opcode_of (int c) = Some c.
Proof.
  unfold opcode_of. cbn [List.find]. assert (forall d, bool_decide (int d = int c) = bool_decide (d = c)) as H.
  { intros d. apply bool_decide_ext. split; [apply int_inj|by intros ->]. }
  rewrite !H. by destruct c.
Qed.
Lemma decode_snoc pool l c k os o : decode pool l = Some os -> read_op pool c k = Some o -> decode pool (l ++ [int c; k]) = Some (os ++ [o]).
Proof.
  intros Hl Ho. revert os Hl. remember (length l) as m eqn:Em. revert l Em. induction m as [m IH] using lt_wf_ind. intros l -> os Hl.
  destruct l as [|c' [|k' l]]; [|done|].
  - injection Hl as <-. cbn [app decode]. rewrite opcode_of_int. cbn [mbind option_bind]. by rewrite Ho.
  - cbn [app decode] in Hl |- *. destruct (opcode_of c') as [d|]; [|done]. cbn [mbind option_bind] in *.
    destruct (read_op pool d k') as [o'|]; [|done]. cbn [mbind option_bind] in *.
    destruct (decode pool l) as [os'|] eqn:E; [|done]. injection Hl as <-.
    rewrite (IH (length l)) with (os := os'); [done|cbn; lia|done|done].
Qed.

(** The operands that are constants are not empty. *)
Definition op_ok (o : op) : Prop := match code o with OpLitPush | OpCapture => str o <> "" /\ num o = 0%Z | _ => str o = "" end.
Definition captured (os : list op) : list string := str <$> filter (fun o => code o = OpCapture) os.

Definition compiled (c : cstate) (os : list op) : Prop :=
  NoDup (c_pool c) /\ (forall s k, c_consts c !! s = Some k -> c_pool c !! Z.to_nat k = Some s) /\
  (forall s, s ∈ c_pool c -> is_Some (c_consts c !! s)) /\
  (forall pool, decode (c_pool c ++ pool) (c_ops c) = Some os) /\ c_fields c = captured os.

Lemma read_plain pool o : op_ok o -> str o = "" -> read_op pool (code o) (num o) = Some o.
Proof. destruct o as [co s k]. cbn. intros Ho ->. unfold op_ok in Ho. cbn in Ho. destruct co; [done|done|naive_solver|done|naive_solver]. Qed.
Lemma read_const pool o k : op_ok o -> str o <> "" -> pool !! Z.to_nat k = Some (str o) -> read_op pool (code o) k = Some o.
Proof. destruct o as [co s n]. cbn. unfold op_ok. cbn. destruct co; intros Ho Hs Hk; cbn; try done; rewrite Hk; destruct Ho as [_ ->]; done. Qed.

Lemma compile_op_ok c os o : compiled c os -> op_ok o -> compiled (compile_op int c o) (os ++ [o]).
Proof.
  intros (Hnd & Hc & Hp & Hd & Hf) Ho. unfold compile_op.
  assert ((if decide (code o = OpCapture) then c_fields c ++ [str o] else c_fields c) = captured (os ++ [o])) as ->.
  { rewrite Hf. unfold captured. rewrite filter_app, fmap_app. case_decide; [by rewrite filter_cons_True|by rewrite filter_cons_False, app_nil_r]. }
  case_decide as Hs; [|destruct (c_consts c !! str o) as [k|] eqn:Ek]; unfold compiled; cbn [c_pool c_consts c_ops c_fields]; rewrite <- !app_assoc; cbn [app].
  - split_and!; [done..| |done]. intros pool. apply decode_snoc; [apply Hd|by apply read_plain].
  - split_and!; [done..| |done]. intros pool. apply decode_snoc; [apply Hd|]. apply read_const; [done..|]. apply lookup_app_l_Some. by apply Hc.
  - split_and!; [| | | |done].
    + apply NoDup_app. split_and!; [done| |apply NoDup_singleton]. intros s Hin ->%list_elem_of_singleton. apply Hp in Hin as [k Hk]. congruence.
    + intros s k. rewrite lookup_insert_case. case_decide as E; [intros [= <-]; subst s; by rewrite Nat2Z.id, list_lookup_middle|].
      intros Hk. apply lookup_app_l_Some. by apply Hc.
    + intros s [Hin|Hin%list_elem_of_singleton]%elem_of_app; rewrite lookup_insert_case; case_decide; [done|by apply Hp|done|congruence].
    + intros pool. rewrite <- app_assoc. apply decode_snoc; [apply Hd|]. apply read_const; [done..|]. rewrite Nat2Z.id. by apply list_lookup_middle.
Qed.
Lemma compile_ops_ok os : Forall op_ok os -> compiled (foldl (compile_op int) (mkC [] [] [] ∅) os) os.
Proof.
  intros Ho. change os with ([] ++ os) at 2. assert (compiled (mkC [] [] [] ∅) []) as H0.
  { unfold compiled. cbn. split_and!; [constructor|done|by intros s ?%not_elem_of_nil|done..]. }
  revert H0. generalize (mkC [] [] [] ∅) as c, (@nil op) as done_. induction Ho as [|o os Ho _ IH]; intros c d Hc; [by rewrite app_nil_r|].
  cbn [foldl]. change (o :: os) with ([o] ++ os). rewrite app_assoc. by apply IH, compile_op_ok.
Qed.
Lemma rawOps_ok segs : Forall wf_segment segs -> Forall op_ok (rawOps segs).
Proof.
  assert (forall s, wf_simple s -> Forall op_ok (compile s)) as Hsimple.
  { intros [| |l|]; cbn; intros H; [..|done]; repeat constructor; by destruct H as (_ & ? & _). }
  assert (forall segs, Forall wf_simple segs -> Forall op_ok (rawOps segs)) as Hall.
  { induction 1 as [|s segs' Hs _ IH]; [constructor|]. apply Forall_app. auto. }
  induction 1 as [|s segs' Hs _ IH]; [constructor|]. apply Forall_app. split; [|done]. destruct s as [| |l|path vs]; [by apply Hsimple..|].
  destruct Hs as (Hp & _ & Hs). cbn [compile]. apply Forall_app. split; [by apply Hall|]. repeat constructor. cbn. intros ->. by apply Forall_cons in Hp as [? _].
Qed.

(** The paths of the variables, in order. *)
Definition paths (segs : list segment) : list string := omap (fun s => match s with variable path _ => Some path | _ => None end) segs.
Lemma captured_paths segs : Forall wf_segment segs -> captured (rawOps segs) = paths segs.
Proof.
  assert (forall segs, Forall wf_simple segs -> captured (rawOps segs) = []) as Hall.
  { induction 1 as [|s segs' Hs _ IH]; [done|]. unfold captured in *. change (rawOps (s :: segs')) with (compile s ++ rawOps segs').
    rewrite filter_app, fmap_app, IH. by destruct s. }
  induction 1 as [|s segs' Hs _ IH]; [done|]. change (rawOps (s :: segs')) with (compile s ++ rawOps segs').
  unfold captured in *. rewrite filter_app, fmap_app, IH. destruct s as [| |l|path vs]; [done..|]. destruct Hs as (_ & _ & Hs).
  cbn [compile]. rewrite filter_app, fmap_app. change (List.concat (List.map compile vs)) with (rawOps vs). by rewrite Hall.
Qed.

(** The fields are what the operations capture. *)
Lemma captured_fields s t : Parse s = ROk t ->
  exists os, decode (Pool (Compile int t)) (OpCodes (Compile int t)) = Some os /\ Fields (Compile int t) = captured os.
Proof.
  intros Hs. pose proof (Parse_cases s) as H. rewrite Hs in H. destruct H as (_ & Hw & _).
  destruct (compile_ops_ok (rawOps (segments t)) (rawOps_ok _ Hw)) as (_ & _ & _ & Hd & Hf).
  exists (rawOps (segments t)). split; [|done]. specialize (Hd []). by rewrite app_nil_r in Hd.
Qed.

(** C19: compiled templates keep their meaning.  For a template that was parsed, the operations,
    read with the constants of the pool and run on a stack, build the segments of the template;
    the fields are the paths of its variables, in order, and no constant is twice in the pool. *)
Theorem compile_correct s t : Parse s = ROk t ->
  decompile (Compile int t) = Some (segments t) /\ Fields (Compile int t) = paths (segments t) /\ Verb (Compile int t) = verb t /\
  NoDup (Pool (Compile int t)).
Proof.
  intros Hs. pose proof (Parse_cases s) as H. rewrite Hs in H. destruct H as (_ & Hw & _).
  destruct (compile_ops_ok (rawOps (segments t)) (rawOps_ok _ Hw)) as (Hnd & _ & _ & Hd & Hf).
  unfold decompile, Compile. cbn [Pool OpCodes Fields Verb]. split_and!; [|by rewrite Hf, captured_paths|done..].
  specialize (Hd []). rewrite app_nil_r in Hd. rewrite Hd. cbn [mbind option_bind].
  rewrite exec_segments by (apply Forall_forall; intros; apply exec_segment). cbn [mbind option_bind].
  rewrite app_nil_r, rev_involutive. f_equal. clear. induction (segments t) as [|x l IH]; [done|]. cbn. f_equal. exact IH.
Qed.
End meaning.

Definition example_int (c : OpCode) : Z := match c with OpPush => 1 | OpLitPush => 2 | OpPushM => 3 | OpConcatN => 4 | OpCapture => 5 end%Z.
Lemma compile_correct_witness : match Parse "/v1/{name.id=v1/*}" with
  | ROk t => decompile example_int (Compile example_int t) = Some [literal "v1"; variable "name.id" [literal "v1"; wildcard]]
  | _ => False end.
Proof.
  refine (proj1 (compile_correct example_int _ "/v1/{name.id=v1/*}" (mkTemplate [literal "v1"; variable "name.id" [literal "v1"; wildcard]] "" "/v1/{name.id=v1/*}") _)).
  - by intros [] [].
  - by vm_compute.
Defined.

Example parse_1 : Parse "/v1/{name.id=shelves/*}/**:move" =
  ROk (mkTemplate [literal "v1"; variable "name.id" [literal "shelves"; wildcard]; deepWildcard] "move" "/v1/{name.id=shelves/*}/**:move").
Proof. by vm_compute. Qed.
Example compile_1 : match Parse "/v1/{name.id=v1/*}" with ROk t => Compile example_int t = mkCompiled [2;0;2;0;1;0;4;2;5;1]%Z ["v1"; "name.id"] "" ["name.id"] (text t) | _ => False end.
Proof. by vm_compute. Qed.
(** Every slash is taken for a wildcard where a segment is expected; a verb may be empty, and
    the colon is then lost; what follows a null byte is not looked at. *)
Example colon_lost : match Parse "/a:b:" with
  | ROk t => segments t = [literal "a:b"] /\ (exists t', Parse (template_String t) = ROk t' /\ segments t' = [literal "a"] /\ verb t' = "b")
  | _ => False end.
Proof. vm_compute. split; [done|]. by eexists. Qed.
Example null_ends : match Parse ("/{a}" +:+ eof +:+ "/{{{") with ROk t => segments t = [variable "a" [wildcard]] | _ => False end.
Proof. by vm_compute. Qed.
Example slash_accepted : Parse "/a//" = ROk (mkTemplate [literal "a"; wildcard] "" "/a//").
Proof. by vm_compute. Qed.

(** C18: templates can be printed and parsed.  A string without a null byte that [Parse] accepts
    gives a well-formed template: a segment inside the braces of a variable is no variable, a
    literal consists of the characters of a path segment, and the verb has no delimiter.  Its
    printed form is parsed to the same segments and the same verb, unless it ends in a literal
    with a colon and has no verb; no string makes [Parse] panic or loop. *)
Theorem template_roundtrip s : contains_char (ascii_of_nat 0) s = false ->
  match Parse s with
  | ROk t => wf_template t /\ text t = s /\
      (uncut t -> Parse (template_String t) = ROk (mkTemplate (segments t) (verb t) (template_String t)))
  | RErr _ => True
  | RPanic | RFuel => False
  end.
Proof.
  intros Hs. pose proof (Parse_cases s) as H. destruct (Parse s) as [t|e| |]; [|done..]. destruct H as (Hne & Hw & Ht & Hv).
  assert (wf_template t) as Hwf by (split_and!; [done..|by apply Hv]). split_and!; [done..|]. by apply print_parse.
Qed.
Lemma template_roundtrip_witness : let t := mkTemplate [literal "v1"; variable "name.id" [literal "shelves"; wildcard]; deepWildcard] "move" in
  Parse "/v1/{name.id=shelves/*}/**:move" = ROk (t "/v1/{name.id=shelves/*}/**:move") /\
  Parse (template_String (t "")) = ROk (t "/v1/{name.id=shelves/*}/**:move").
Proof.
  cbv zeta. split; [by vm_compute|]. pose proof (template_roundtrip "/v1/{name.id=shelves/*}/**:move" eq_refl) as H.
  change (Parse "/v1/{name.id=shelves/*}/**:move") with (ROk (mkTemplate [literal "v1"; variable "name.id" [literal "shelves"; wildcard]; deepWildcard] "move" "/v1/{name.id=shelves/*}/**:move")) in H.
  apply H. by left.
Defined.

End PathTemplate.
