(* ===== verification/HttpMux.v ===== *)
(** * The HTTP mux of a gRPC server ([server/internal/http_server/http_mux.go]).

    The mux registers every method of the services of a gRPC server under HTTP patterns: those
    of its [google.api.http] annotations, or else [POST /Service/Method].  A request finds its
    method through the path matchers.  Path templates are parsed and compiled by [PathTemplate].
    Descriptors, reflection, grpc-gateway (making patterns of operations, matching them, filling
    messages), JSON and the invocation of a method are parameters; the two header matchers are those of package [utils]. *)

From S2P Require Import Prelude GoStrings PathMatcher PathTemplate.
From Stdlib Require Import Ascii.

Open Scope string_scope.
Open Scope list_scope.

Module HttpMux.
Import PathMatcher.

(** [google.api.http]: a rule, and a rule with its additional bindings (whose own ones are
    never looked at). *)
Inductive HttpPattern := RGet (p : string) | RPost (p : string) | RPut (p : string) | RDelete (p : string) | RPatch (p : string)
| RCustom (kind path : string) | RNone.
Record HttpBinding := mkBinding { GetPattern : HttpPattern; GetBody : string; GetResponseBody : string }.
Record HttpRule := mkRule { rule : HttpBinding; AdditionalBindings : list HttpBinding }.

(** A method of a descriptor; an extension of its options that is no HTTP rule is [None], and
    [extensions] is [None] when they cannot be read. *)
Record MethodDesc := mkMethod { mname : string; ClientStreaming : bool; ServerStreaming : bool; extensions : option (list (option HttpRule)) }.
Record ServiceDesc := mkServiceDesc { sname : string; methods : list MethodDesc }.
Record FileDesc := mkFile { package : string; services : list ServiceDesc }.

Section mux.
(** Types by reflection, compiled patterns, parameter handlers. *)
Context {T Pat PH : Type}.

(** A method that can be invoked. *)
Record InvokerWrapper := mkInvoker { iMethod : string; RequestType : T; ResponseType : T }.

(** [runtime.Pattern.Match]; [typ.Elem().FieldByName(CamelCase(p))], which panics on what is no
    pointer; [runtime.NewPattern] and the codes of the operations it takes. *)
Context (PatternMatch : Pat -> list string -> string -> option (gmap string string)).
Context (FieldByName : T -> string -> gores (option T)).
Context (int : PathTemplate.PathTemplate.OpCode -> Z) (NewPattern : Z -> list Z -> list string -> string -> option Pat).

Record serviceOpt := mkServiceOpt { headerMap : list (gmap string string); headerRegexMap : list (gmap string string) }.

(** Descriptions in the two matchers; [_HeaderMatcher] is their service option. *)
Record RawDesc := mkRawDesc { raw_opt : option serviceOpt; raw_method : InvokerWrapper }.
Record HttpRuleDesc := mkRuleDesc {
  rule_opt : option serviceOpt; rule_method : InvokerWrapper; pattern : Pat; filterSeqs : list (list string);
  bodyField : string; respField : string; parameterHandler : gmap string PH
}.

Definition HeaderMap (o : option serviceOpt) : list (gmap string string) := match o with None => [] | Some o => headerMap o end.
Definition HeaderRegexMap (o : option serviceOpt) : list (gmap string string) := match o with None => [] | Some o => headerRegexMap o end.
Definition Priority (o : option serviceOpt) : Z :=
  match HeaderMap o, HeaderRegexMap o with [], [] => 0 | _, _ => 1 end.

(** [opts.WithPackageName] *)
Record ServerMux := mkMux {
  WithPackageName : bool; rawPostMatcher : PathMatcher.PathMatcher RawDesc; ruleMatcher : PathMatcher.PathMatcher HttpRuleDesc
}.
Definition NewMux (withPackageName : bool) : ServerMux := mkMux withPackageName NewPathMatcher NewPathMatcher.

(** ** Registration *)

(** Every registration gives the mux afterwards, the pattern it adds to the rule that is
    announced to the registry, and its error. *)
Definition registration := (ServerMux * list string * gores unit)%type.

Definition serviceOptions (alias : list string) : option serviceOpt :=
  match alias with [] => None | _ => Some (mkServiceOpt ((fun a => {[ "X-F-Service" := a ]}) <$> alias) []) end.

Definition add_pattern {M} (m : PathMatcher.PathMatcher M) (text : string) (desc : M) : PathMatcher.PathMatcher M * list string * gores unit :=
  match RegistryWithGrpcPattern text with
  | Err e => (m, [], Err e)
  | Panic e => (m, [], Panic e)
  | Ok matcherPattern =>
      let '(m, r) := AddPattern m "" matcherPattern desc in
      match r with Ok _ => (m, [matcherPattern], Ok ()) | Err e => (m, [], Err e) | Panic e => (m, [], Panic e) end
  end.

Definition raw_path (s : ServerMux) (packageName serviceName methodName : string) : string :=
  let serviceName := if WithPackageName s then packageName +:+ "." +:+ serviceName else serviceName in
  "/" +:+ serviceName +:+ "/" +:+ methodName.

Definition registerRawPostApi (s : ServerMux) (packageName serviceName : string) (opt : option serviceOpt) (invoker : InvokerWrapper)
    (methodName : string) : registration :=
  let '(m, ps, r) := add_pattern (rawPostMatcher s) ("POST" +:+ raw_path s packageName serviceName methodName) (mkRawDesc opt invoker) in
  (mkMux (WithPackageName s) m (ruleMatcher s), ps, r).

(** The fields of a dotted path exist, one below the other. *)
Fixpoint has_fields (typ : T) (ps : list string) : gores unit :=
  match ps with
  | [] => Ok ()
  | p :: ps =>
      inner ← FieldByName typ p;
      match inner with None => Err "no field found" | Some typ => has_fields typ ps end
  end.
Fixpoint all_fields (typ : T) (fields : list string) : gores unit :=
  match fields with [] => Ok () | f :: fields => _ ← has_fields typ (Split "." f); all_fields typ fields end.

(** The field of a body: empty and ["*"] are allowed, too. *)
Definition body_field (typ : T) (field : string) : gores unit :=
  f ← FieldByName typ field;
  match f with
  | Some _ => Ok ()
  | None => if bool_decide (field <> "" /\ field <> "*") then Err "no field found" else Ok ()
  end.

(** The fields of a path template and its pattern. *)
Definition compilePath (pathPat : string) : option (list string * option Pat) :=
  match PathTemplate.PathTemplate.Parse pathPat with
  | PathTemplate.PathTemplate.ROk pathCompiler =>
      let pathTemplate := PathTemplate.PathTemplate.Compile int pathCompiler in
      Some (PathTemplate.PathTemplate.Fields pathTemplate,
            NewPattern 1 (PathTemplate.PathTemplate.OpCodes pathTemplate) (PathTemplate.PathTemplate.Pool pathTemplate) (PathTemplate.PathTemplate.Verb pathTemplate))
  | _ => None
  end.

(** The checks of [registerPattern] up to the registration. *)
Definition rule_desc (opt : option serviceOpt) (invoker : InvokerWrapper) (pathPat bodyField respField : string) (ph : gmap string PH)
    : gores HttpRuleDesc :=
  match compilePath pathPat with
  | None => Err "parse"
  | Some (fields, pat) =>
      match pat with
      | None => Err "pattern"
      | Some pat =>
          _ ← all_fields (RequestType invoker) fields;
          if contains_char "." bodyField then Err "referred field in body must be present at the top-level of the request message type"
          else if contains_char "." respField then Err "referred field in response-body must be present at the top-level of the request message type"
          else
            _ ← body_field (RequestType invoker) bodyField;
            _ ← body_field (ResponseType invoker) respField;
            Ok (mkRuleDesc opt invoker pat ((if bool_decide (bodyField = "") then [] else [Split "." bodyField]) ++ (Split "." <$> fields))
                  bodyField respField ph)
      end
  end.
Definition registerPattern (s : ServerMux) (opt : option serviceOpt) (invoker : InvokerWrapper) (httpMethod pathPat bodyField respField : string)
    (ph : gmap string PH) : registration :=
  match rule_desc opt invoker pathPat bodyField respField ph with
  | Err e => (s, [], Err e)
  | Panic e => (s, [], Panic e)
  | Ok desc =>
      let '(m, ps, r) := add_pattern (ruleMatcher s) (httpMethod +:+ pathPat) desc in
      (mkMux (WithPackageName s) (rawPostMatcher s) m, ps, r)
  end.

Definition registerHttpRule (s : ServerMux) (opt : option serviceOpt) (invoker : InvokerWrapper) (httpRule : HttpBinding) (ph : gmap string PH)
  : registration :=
  let body := TrimSpace (GetBody httpRule) in
  let responseBody := TrimSpace (GetResponseBody httpRule) in
  let reg method path := registerPattern s opt invoker method path body responseBody ph in
  match GetPattern httpRule with
  | RGet p => reg "GET" p
  | RPost p => reg "POST" p
  | RPut p => reg "PUT" p
  | RDelete p => reg "DELETE" p
  | RPatch p => reg "PATCH" p
  | RCustom kind path => reg (ToUpper kind) path
  | RNone => (s, [], Err "invalid http rule annotation")
  end.

(** One registration after the other, until one fails. *)
Definition andThen (r : registration) (f : ServerMux -> registration) : registration :=
  let '(s, ps, e) := r in
  match e with Ok _ => let '(s', ps', e') := f s in (s', ps ++ ps', e') | _ => r end.
Fixpoint register_all {A} (f : A -> ServerMux -> registration) (l : list A) (s : ServerMux) : registration :=
  match l with [] => (s, [], Ok ()) | a :: l => andThen (f a s) (register_all f l) end.

Definition registerMethod (s : ServerMux) (packageName serviceName : string) (opt : option serviceOpt) (invoker : InvokerWrapper)
    (methodDesc : MethodDesc) (ph : gmap string PH) : registration :=
  match extensions methodDesc with
  | None => (s, [], Err "extensions")
  | Some exts =>
      let rules := omap id exts in
      andThen (register_all (fun httpRule s => register_all (fun b s => registerHttpRule s opt invoker b ph) (rule httpRule :: AdditionalBindings httpRule) s) rules s)
        (fun s => match rules with
                  | [] => registerRawPostApi s packageName serviceName opt invoker (mname methodDesc)
                  | _ => (s, [], Ok ())
                  end)
  end.

(** A service as it was registered with the server. *)
Record GrpcService := mkGrpcService { ServiceName : string; Alias : list string; HttpParameterHandler : gmap string PH }.

(** The loop over the services: the alias of each name, which is its own unless it has others,
    and the handlers of its parameters. *)
Definition alias_step (m : gmap string (list string)) (sd : GrpcService) : gmap string (list string) :=
  let m := foldl (fun m a => <[ServiceName sd := default [] (m !! ServiceName sd) ++ [a]]> m) m (Alias sd) in
  match m !! ServiceName sd with Some _ => m | None => <[ServiceName sd := [ServiceName sd]]> m end.
Definition handler_step (m : gmap string (gmap string PH)) (sd : GrpcService) : gmap string (gmap string PH) :=
  if bool_decide (HttpParameterHandler sd = ∅) then m
  else <[ServiceName sd := HttpParameterHandler sd ∪ default ∅ (m !! ServiceName sd)]> m.
Definition headerAlias (l : list GrpcService) : gmap string (list string) := foldl alias_step ∅ l.
Definition parameterHandlers (l : list GrpcService) : gmap string (gmap string PH) := foldl handler_step ∅ l.

(** [memory_registry.GlobalRegistry]: the implementations by service and method. *)
Context (QueryUnary QueryStreaming : string -> string -> option InvokerWrapper).

(** One method of a service: client streams and methods without implementation are left
    out, and so is one whose registration fails, with what it registered until then. *)
Definition method_step (pkg full name : string) (opt : option serviceOpt) (ph : gmap string PH) (acc : ServerMux * list string) (m : MethodDesc)
  : gores (ServerMux * list string) :=
  if ClientStreaming m then Ok acc
  else
    let path := "/" +:+ full +:+ "/" +:+ mname m in
    match (if ServerStreaming m then QueryStreaming full path else QueryUnary full path) with
    | None => Ok acc
    | Some wrapper =>
        let '(s, ps, r) := registerMethod acc.1 pkg name opt wrapper m ph in
        match r with Panic e => Panic e | _ => Ok (s, acc.2 ++ ps) end
    end.

(** [registry.HttpRule] of a service. *)
Record announced := mkAnnounced { a_headerMap : list (gmap string string); a_headerRegexMap : list (gmap string string); HttpPatterns : list string }.

Fixpoint fold_gores {A B} (f : A -> B -> gores A) (a : A) (l : list B) : gores A :=
  match l with [] => Ok a | b :: l => a ← f a b; fold_gores f a l end.

Definition service_step (aliases : gmap string (list string)) (phs : gmap string (gmap string PH)) (full : string) (fd : FileDesc)
    (acc : ServerMux * list announced) (sd : ServiceDesc) : gores (ServerMux * list announced) :=
  if bool_decide (full <> package fd +:+ "." +:+ sname sd) then Ok acc
  else
    let opt := serviceOptions (default [] (aliases !! full)) in
    '(s, ps) ← fold_gores (method_step (package fd) full (sname sd) opt (default ∅ (phs !! full))) (acc.1, []) (methods sd);
    Ok (s, acc.2 ++ [mkAnnounced (HeaderMap opt) (HeaderRegexMap opt) ps]).

(** [registerMethods]: [info] are the services of the server in the order in which the map is
    ranged over, with their file descriptors, if these can be read. *)
Definition registerMethods (s : ServerMux) (grpcServiceDesc : list GrpcService) (info : list (string * option FileDesc))
  : gores (ServerMux * list announced) :=
  let aliases := headerAlias grpcServiceDesc in
  let phs := parameterHandlers grpcServiceDesc in
  fold_gores (fun acc '(full, fd) =>
    match fd with
    | None => Ok acc
    | Some fd => fold_gores (service_step aliases phs full fd) acc (services fd)
    end) (s, []) info.

Definition NewServerMux (withPackageName : bool) (grpcServiceDesc : list GrpcService) (info : list (string * option FileDesc)) :=
  registerMethods (NewMux withPackageName) grpcServiceDesc info.

(** ** Requests *)

(** [matches_string] and [matches_regex]: what the header matchers of [utils] say. *)
Record Request := mkRequest {
  Method : string; Path : string; Override : string; ContentType : string; formOk : bool;
  matches_string : gmap string string -> bool; matches_regex : gmap string string -> bool
}.

(** What a request is handed to. *)
Inductive handler :=
| RawHandler (m : InvokerWrapper)
| RuleHandler (rd : HttpRuleDesc) (pathParams : gmap string string).

Definition estimate {M} (opt : M -> option serviceOpt) (r : Request) : M -> nat -> option string :=
  EstimateHeader (fun m => Some (HeaderMap (opt m), HeaderRegexMap (opt m))) (matches_string r) (matches_regex r).
Definition match_meta {M} (opt : M -> option serviceOpt) (m : PathMatcher.PathMatcher M) (r : Request) (est : M -> nat -> option string) : gores (list M) :=
  MatchWithMeta (fun m => Some (Priority (opt m))) (fun m => Some (HeaderMap (opt m), HeaderRegexMap (opt m))) m (Method r) (Path r) est.

(** [None]: no handler and no error. *)
Definition makeRawPostRequest (s : ServerMux) (r : Request) : gores (option handler) :=
  if bool_decide (Method r <> "POST") then Ok None
  else
    match match_meta raw_opt (rawPostMatcher s) r (estimate raw_opt r) with
    | Ok (desc :: _) => Ok (Some (RawHandler (raw_method desc)))
    | Ok [] | Err _ => Err "http mux: makeRawPostRequest failed"
    | Panic e => Panic e
    end.

(** The path without its slash, and its verb after the last colon of the last component. *)
Definition request_components (path : string) : gores (list string * string) :=
  if negb (HasPrefix path "/") then Err "http mux: makeHttpRuleRequest: not a valid path"
  else
    let components := Split "/" (sdrop 1 path) in
    match last components with
    | None => Ok (components, "")
    | Some c =>
        match LastIndex c ":" with
        | Some 0%nat => Err "http mux: makeHttpRuleRequest: not a valid path"
        | Some idx => Ok (take (length components - 1) components ++ [stake idx c], sdrop (S idx) c)
        | None => Ok (components, "")
        end
    end.

Definition CheckPathParam (components : list string) (verb : string) (rd : HttpRuleDesc) (count : nat) : option string :=
  match PatternMatch (pattern rd) components verb with None => Some "http mux: checkPathParam: pattern match with request failed" | Some _ => None end.

Definition makeHttpRuleRequest (s : ServerMux) (r : Request) : gores (option handler) :=
  '(components, verb) ← request_components (Path r);
  match match_meta rule_opt (ruleMatcher s) r (EstimateMetaChain [CheckPathParam components verb; estimate rule_opt r]) with
  | Ok (rd :: _) => Ok (Some (RuleHandler rd (default ∅ (PatternMatch (pattern rd) components verb))))
  | Ok [] | Err _ => Err "http mux: makeHttpRuleRequest failed"
  | Panic e => Panic e
  end.

Definition makeRequest (s : ServerMux) (r : Request) : gores handler :=
  match makeRawPostRequest s r with
  | Ok (Some request) => Ok request
  | Panic e => Panic e
  | Ok None | Err _ =>
      match makeHttpRuleRequest s r with
      | Ok (Some request) => Ok request
      | Panic e => Panic e
      | Ok None | Err _ => Err "NotFound"
      end
  end.

(** [ServeHTTP] up to the call of the handler: the method may be overridden, and a panic is an
    internal error.  [inl] is the error that is answered. *)
Definition override (r : Request) : gores Request :=
  if bool_decide (Override r <> "" /\ Method r = "POST") then
    if bool_decide (ContentType r = "application/x-www-form-urlencoded") && negb (formOk r) then Err "InvalidArgument"
    else Ok (mkRequest (ToUpper (Override r)) (Path r) (Override r) (ContentType r) (formOk r) (matches_string r) (matches_regex r))
  else Ok r.
Definition ServeHTTP (s : ServerMux) (r : Request) : string + handler :=
  match (r ← override r; makeRequest s r) with Ok h => inr h | Err e => inl e | Panic _ => inl "Internal" end.

(** ** Where the entries of the matchers come from *)

(** The implementation of a method, its rules, and the method and path of a binding. *)
Definition implementation (full : string) (m : MethodDesc) : option InvokerWrapper :=
  let path := "/" +:+ full +:+ "/" +:+ mname m in
  if ServerStreaming m then QueryStreaming full path else QueryUnary full path.
Definition rules_of (m : MethodDesc) : list HttpRule := match extensions m with None => [] | Some exts => omap id exts end.
Definition route_of (b : HttpBinding) : option (string * string) :=
  match GetPattern b with
  | RGet p => Some ("GET", p) | RPost p => Some ("POST", p) | RPut p => Some ("PUT", p) | RDelete p => Some ("DELETE", p)
  | RPatch p => Some ("PATCH", p) | RCustom kind path => Some (ToUpper kind, path) | RNone => None
  end.

Section origin.
Context (wp : bool) (descs : list GrpcService) (info : list (string * option FileDesc)).

(** [m] is a method that can be called, of a service of the server. *)
Definition served (full : string) (fd : FileDesc) (sd : ServiceDesc) (m : MethodDesc) (invoker : InvokerWrapper) (opt : option serviceOpt) : Prop :=
  (full, Some fd) ∈ info /\ sd ∈ services fd /\ full = package fd +:+ "." +:+ sname sd /\ m ∈ methods sd /\ ClientStreaming m = false /\
  implementation full m = Some invoker /\ opt = serviceOptions (default [] (headerAlias descs !! full)).

Definition raw_from (pat : string) (d : RawDesc) : Prop :=
  exists full fd sd m, served full fd sd m (raw_method d) (raw_opt d) /\ rules_of m = [] /\
    RegistryWithGrpcPattern ("POST" +:+ raw_path (NewMux wp) (package fd) (sname sd) (mname m)) = Ok pat.
Definition rule_from (pat : string) (d : HttpRuleDesc) : Prop :=
  exists full fd sd m hr b method path ph, served full fd sd m (rule_method d) (rule_opt d) /\ hr ∈ rules_of m /\
    b ∈ rule hr :: AdditionalBindings hr /\ route_of b = Some (method, path) /\
    rule_desc (rule_opt d) (rule_method d) path (TrimSpace (GetBody b)) (TrimSpace (GetResponseBody b)) ph = Ok d /\
    RegistryWithGrpcPattern (method +:+ path) = Ok pat.

Definition mux_inv (s : ServerMux) : Prop :=
  WithPackageName s = wp /\
  (exists ra, rawPostMatcher s = register ra /\ forall x, x ∈ ra -> x.1.1 = "" /\ raw_from x.1.2 x.2) /\
  (exists ru, ruleMatcher s = register ru /\ forall x, x ∈ ru -> x.1.1 = "" /\ rule_from x.1.2 x.2).

Lemma add_pattern_from {M} (P : string -> M -> Prop) (m : PathMatcher.PathMatcher M) (text : string) (d : M) :
  (exists adds, m = register adds /\ forall x, x ∈ adds -> x.1.1 = "" /\ P x.1.2 x.2) ->
  (forall pat, RegistryWithGrpcPattern text = Ok pat -> P pat d) ->
  exists adds, (add_pattern m text d).1.1 = register adds /\ forall x, x ∈ adds -> x.1.1 = "" /\ P x.1.2 x.2.
Proof.
  intros (adds & -> & Ha) Hp. unfold add_pattern. destruct (RegistryWithGrpcPattern text) as [pat|e|e]; [|by exists adds..].
  exists (adds ++ [("", pat, d)]). split.
  - unfold register. rewrite foldl_snoc. cbn. by destruct (AddPattern _ _ _ _) as [m' [[]|e|e]].
  - intros x [Hx|Hx]%elem_of_app; [by apply Ha|]. apply list_elem_of_singleton in Hx as ->. cbn. split; [done|by apply Hp].
Qed.

Lemma registerRawPostApi_inv (s : ServerMux) full fd sd m invoker opt : mux_inv s -> served full fd sd m invoker opt -> rules_of m = [] ->
  mux_inv (registerRawPostApi s (package fd) (sname sd) opt invoker (mname m)).1.1.
Proof.
  intros (Hw & Hra & Hru) Hs Hr. unfold registerRawPostApi. destruct (add_pattern _ _ _) as [[m' ps] r] eqn:E. cbn. split; [done|].
  split; [|done]. change m' with (m', ps, r).1.1. rewrite <- E. apply add_pattern_from; [done|]. intros pat Hpat.
  exists full, fd, sd, m. split; [done|]. split; [done|]. unfold raw_path in *. by rewrite Hw in Hpat.
Qed.

Lemma registerHttpRule_inv (s : ServerMux) full fd sd m invoker opt ph hr b : mux_inv s -> served full fd sd m invoker opt ->
  hr ∈ rules_of m -> b ∈ rule hr :: AdditionalBindings hr ->
  mux_inv (registerHttpRule s opt invoker b ph).1.1.
Proof.
  intros Hinv Hs Hr Hb.
  assert (H : forall method path, route_of b = Some (method, path) ->
    mux_inv (registerPattern s opt invoker method path (TrimSpace (GetBody b)) (TrimSpace (GetResponseBody b)) ph).1.1).
  { intros method path Hroute. unfold registerPattern. destruct (rule_desc _ _ _ _ _ _) as [d|e|e] eqn:Ed; [|done..].
    assert (Hd : rule_method d = invoker /\ rule_opt d = opt).
    { unfold rule_desc in Ed. destruct (compilePath path) as [[fields [pat|]]|]; [|done..].
      apply gores_bind_ok in Ed as (_ & _ & Ed). destruct (contains_char _ _); [done|]. destruct (contains_char _ _); [done|].
      apply gores_bind_ok in Ed as (_ & _ & (_ & _ & [= <-])%gores_bind_ok). done. }
    destruct Hd as [Hd1 Hd2]. destruct Hinv as (Hw & Hra & Hru). destruct (add_pattern _ _ _) as [[m' ps] r] eqn:E. cbn. split; [done|].
    split; [done|]. change m' with (m', ps, r).1.1. rewrite <- E. apply add_pattern_from; [done|]. intros pat Hpat.
    exists full, fd, sd, m, hr, b, method, path, ph. rewrite Hd1, Hd2. by split_and!. }
  unfold registerHttpRule. unfold route_of in H. destruct (GetPattern b); try (by apply H); done.
Qed.

Lemma register_all_inv {A} (f : A -> ServerMux -> registration) (l : list A) (s : ServerMux) :
  (forall a s, a ∈ l -> mux_inv s -> mux_inv (f a s).1.1) -> mux_inv s -> mux_inv (register_all f l s).1.1.
Proof.
  revert s. induction l as [|a l IH]; intros s Hf Hs; [done|]. cbn. pose proof (Hf a s ltac:(by left) Hs) as Ha. unfold andThen.
  destruct (f a s) as [[s' ps] [[]|e|e]]; [|done..]. specialize (IH s'). destruct (register_all f l s') as [[s2 ps2] e2]. cbn in *.
  apply IH; [|done]. intros a' s3 Hin. apply Hf. by right.
Qed.

Lemma registerMethod_inv (s : ServerMux) full fd sd m invoker opt ph : mux_inv s -> served full fd sd m invoker opt ->
  mux_inv (registerMethod s (package fd) (sname sd) opt invoker m ph).1.1.
Proof.
  intros Hinv Hs. unfold registerMethod. destruct (extensions m) as [exts|] eqn:Ee; [|done].
  assert (Hr : rules_of m = omap id exts) by (unfold rules_of; by rewrite Ee).
  set (r0 := register_all _ (omap id exts) s). assert (H0 : mux_inv r0.1.1).
  { apply register_all_inv; [|done]. intros hr s1 Hhr H1. apply register_all_inv; [|done]. intros b s2 Hb H2.
    eapply registerHttpRule_inv; [done..|by rewrite Hr|done]. }
  unfold andThen. destruct r0 as [[s1 ps] [[]|e|e]]; [|done..]. cbn [fst] in H0. destruct (omap id exts) as [|hr rs] eqn:Eo; [|done].
  pose proof (registerRawPostApi_inv s1 full fd sd m invoker opt H0 Hs Hr) as H1.
  by destruct (registerRawPostApi _ _ _ _ _ _) as [[s2 ps2] e2].
Qed.

Lemma fold_gores_inv {A B} (P : A -> Prop) (f : A -> B -> gores A) (l : list B) (a a' : A) : P a ->
  (forall a b a', b ∈ l -> P a -> f a b = Ok a' -> P a') -> fold_gores f a l = Ok a' -> P a'.
Proof.
  revert a. induction l as [|b l IH]; intros a Ha Hf; cbn; [by intros [= <-]|]. intros (a1 & H1 & H2)%gores_bind_ok.
  eapply IH; [|intros ? ? ? ?; apply Hf; by right|exact H2]. eapply Hf; [by left|done..].
Qed.

Lemma registerMethods_inv (s : ServerMux) (ann : list announced) : NewServerMux wp descs info = Ok (s, ann) -> mux_inv s.
Proof.
  unfold NewServerMux, registerMethods. intros Hf. refine (fold_gores_inv (fun a => mux_inv a.1) _ _ _ _ _ _ Hf).
  - split_and!; [done|by exists []; split; [|intros ? ?%elem_of_nil]..].
  - intros acc [full [fd|]] acc' Hin Hacc H; [|by injection H as <-].
    refine (fold_gores_inv (fun a => mux_inv a.1) _ _ _ _ Hacc _ H). clear acc acc' Hacc H Hf.
    intros acc sd acc' Hsd Hacc H. unfold service_step in H. destruct (decide (full = package fd +:+ "." +:+ sname sd)) as [Hfull|Hne];
      [rewrite bool_decide_eq_false_2 in H by naive_solver|rewrite bool_decide_eq_true_2 in H by done; by injection H as <-].
    apply gores_bind_ok in H as ([s1 ps] & H & [= <-]).
    refine (fold_gores_inv (fun a => mux_inv a.1) _ _ _ _ _ _ H); [exact Hacc|]. clear s1 ps H Hacc acc.
    intros acc m acc' Hm Hacc H. unfold method_step in H. destruct (ClientStreaming m) eqn:Hc; [by injection H as <-|].
    fold (implementation full m) in H. destruct (implementation full m) as [invoker|] eqn:Hi; [|by injection H as <-].
    assert (Hs : served full fd sd m invoker (serviceOptions (default [] (headerAlias descs !! full)))) by done.
    pose proof (registerMethod_inv acc.1 full fd sd m invoker _ (default ∅ (parameterHandlers descs !! full)) Hacc Hs) as H1.
    destruct (registerMethod _ _ _ _ _ _ _) as [[s1 ps] e]. destruct e; [injection H as <-..|done]; exact H1.
Qed.

End origin.

(** What a matcher accepts was registered for a pattern that matches, and passed the estimate. *)
Lemma match_meta_from {M} (opt : M -> option serviceOpt) (adds : list (string * string * M)) (r : Request) (est : M -> nat -> option string) d ds :
  match_meta opt (register adds) r est = Ok (d :: ds) ->
  exists cs p n pat method, components (Method r) (Path r) = Ok cs /\ pm p cs /\ (method, pat, d) ∈ adds /\ pattern_of method pat = Some p /\ est d n = None.
Proof.
  unfold match_meta. intros Hmm. apply MatchWithMeta_accepts in Hmm as (cs & metas & n & Hc & Hm & E). apply match_fuel_sound in Hm as (p & Hp & Hat & _).
  assert (Hd : d ∈ filter (fun m => est m n = None) metas) by (rewrite <- E; by left). apply list_elem_of_filter in Hd as [He Hd].
  rewrite <- Hat, metas_at_register in Hd. apply list_elem_of_omap in Hd as ([[method pat] d'] & Hin & Hd).
  destruct (decide _) as [Hpat|]; [|done]. injection Hd as ->. by exists cs, p, n, pat, method.
Qed.

Lemma override_path (r r' : Request) : override r = Ok r' -> Path r' = Path r.
Proof. unfold override. repeat case_match; by intros [= <-]. Qed.

Lemma estimate_chain_none {M} (es : list (M -> nat -> option string)) (m : M) (n : nat) e : EstimateMetaChain es m n = None -> e ∈ es -> e m n = None.
Proof.
  induction es as [|e' es IH]; intros Hn He; [by apply elem_of_nil in He|]. cbn in Hn. destruct (e' m n) eqn:E; [done|].
  apply elem_of_cons in He as [->|He]; [done|by apply IH].
Qed.

Lemma raw_request_from (s : ServerMux) (r : Request) (ra : list (string * string * RawDesc)) (h : handler) :
  rawPostMatcher s = register ra -> makeRawPostRequest s r = Ok (Some h) ->
  Method r = "POST" /\ exists cs p pat method d, components (Method r) (Path r) = Ok cs /\ pm p cs /\ (method, pat, d) ∈ ra /\
    pattern_of method pat = Some p /\ h = RawHandler (raw_method d).
Proof.
  intros Era Hm. unfold makeRawPostRequest in Hm. destruct (decide (Method r = "POST")) as [Hpost|];
    [rewrite bool_decide_eq_false_2 in Hm by naive_solver|by rewrite bool_decide_eq_true_2 in Hm]. split; [done|]. rewrite Era in Hm.
  destruct (match_meta _ _ _ _) as [[|d ds]|e|e] eqn:Emm in Hm; [done| |done..]. injection Hm as <-.
  apply match_meta_from in Emm as (cs & p & n & pat & method & Hc & Hp & Hin & Hpat & _). by exists cs, p, pat, method, d.
Qed.

Lemma rule_request_from (s : ServerMux) (r : Request) (ru : list (string * string * HttpRuleDesc)) (h : handler) :
  ruleMatcher s = register ru -> makeHttpRuleRequest s r = Ok (Some h) ->
  exists cs p pat method rd comps verb params, components (Method r) (Path r) = Ok cs /\ pm p cs /\ (method, pat, rd) ∈ ru /\
    pattern_of method pat = Some p /\ request_components (Path r) = Ok (comps, verb) /\ PatternMatch (pattern rd) comps verb = Some params /\
    h = RuleHandler rd params.
Proof.
  unfold makeHttpRuleRequest. intros Eru ([comps verb] & Hcs & Hm)%gores_bind_ok. rewrite Eru in Hm.
  destruct (match_meta _ _ _ _) as [[|rd ds]|e|e] eqn:Emm in Hm; [done| |done..]. injection Hm as <-.
  apply match_meta_from in Emm as (cs & p & n & pat & method & Hc & Hp & Hin & Hpat & He).
  apply (estimate_chain_none _ _ _ (CheckPathParam comps verb)) in He; [|by left]. unfold CheckPathParam in He.
  destruct (PatternMatch (pattern rd) comps verb) as [params|] eqn:Epm; [|done]. by exists cs, p, pat, method, rd, comps, verb, params.
Qed.

(** C20: requests reach the methods they are registered for.  In the mux of a server, a request
    that is handed on is, after a method override, either a [POST] for a method of one of its
    services without HTTP rules, whose pattern matches the path, or a request for one of the
    HTTP rules of such a method, whose pattern for method and path matches and whose compiled
    template gives the parameters handed on; the method is not a client stream, and what is
    called is its registered implementation. *)
Theorem requests_reach_their_method (wp : bool) (descs : list GrpcService) (info : list (string * option FileDesc))
    (s : ServerMux) (ann : list announced) (r : Request) (h : handler) :
  NewServerMux wp descs info = Ok (s, ann) -> ServeHTTP s r = inr h ->
  exists r' cs p pat, override r = Ok r' /\ components (Method r') (Path r) = Ok cs /\ pattern_of "" pat = Some p /\ pm p cs /\
    match h with
    | RawHandler invoker => Method r' = "POST" /\ exists opt, raw_from wp descs info pat (mkRawDesc opt invoker)
    | RuleHandler rd params => rule_from descs info pat rd /\ exists cs verb,
        request_components (Path r) = Ok (cs, verb) /\ PatternMatch (pattern rd) cs verb = Some params
    end.
Proof.
  intros Hn Hs. apply registerMethods_inv in Hn as (_ & (ra & Era & Hra) & (ru & Eru & Hru)). unfold ServeHTTP in Hs.
  destruct (override r) as [r'|e|e] eqn:Eo; [|done..]. cbn [mbind gores_bind] in Hs. pose proof (override_path r r' Eo) as Hpath.
  destruct (makeRequest s r') as [h'|e|e] eqn:Em; [|done..]. injection Hs as ->. unfold makeRequest in Em.
  assert (Hrule : makeHttpRuleRequest s r' = Ok (Some h) -> exists cs p pat rd params, components (Method r') (Path r) = Ok cs /\
    pattern_of "" pat = Some p /\ pm p cs /\ h = RuleHandler rd params /\ rule_from descs info pat rd /\ exists cs verb,
      request_components (Path r) = Ok (cs, verb) /\ PatternMatch (pattern rd) cs verb = Some params).
  { intros Hr. destruct (rule_request_from s r' ru h Eru Hr) as (cs & p & pat & method & rd & comps & verb & params & Hc & Hp & Hin & Hpat & Hrc & Hpm & ->).
    destruct (Hru _ Hin) as [Hm Hfrom]. cbn in Hm, Hfrom. subst method. rewrite Hpath in Hc, Hrc. exists cs, p, pat, rd, params. eauto 10. }
  assert (Hcase : makeRawPostRequest s r' = Ok (Some h) \/ makeHttpRuleRequest s r' = Ok (Some h)).
  { destruct (makeRawPostRequest s r') as [[h1|]|e|e]; [left; congruence|right..|done];
      destruct (makeHttpRuleRequest s r') as [[h2|]|e2|e2]; done || congruence. }
  destruct Hcase as [Hraw|Hr].
  - destruct (raw_request_from s r' ra h Era Hraw) as (Hpost & cs & p & pat & method & d & Hc & Hp & Hin & Hpat & ->).
    destruct (Hra _ Hin) as [Hm Hfrom]. cbn in Hm, Hfrom. subst method. rewrite Hpath in Hc. exists r', cs, p, pat. split_and!; [done..|].
    exists (raw_opt d). by destruct d.
  - destruct (Hrule Hr) as (cs & p & pat & rd & params & Hc & Hpat & Hp & -> & Hfrom & Hpm). exists r', cs, p, pat. by split_and!.
Qed.

(** ** Methods without rules *)

(** A name that is one literal component of a path. *)
Definition plain_name (s : string) : Prop :=
  s <> "" /\ contains_char "/" s = false /\ contains_char ":" s = false /\ contains_char "{" s = false /\ ToLower s <> "*" /\ ToLower s <> "**".

Record raw_entry := mkRawEntry { e_package : string; e_service : string; e_opt : option serviceOpt; e_invoker : InvokerWrapper; e_method : string }.
Definition raw_service (wp : bool) (e : raw_entry) : string := if wp then e_package e +:+ "." +:+ e_service e else e_service e.
Definition register_raws (s : ServerMux) (l : list raw_entry) : ServerMux :=
  foldl (fun s e => (registerRawPostApi s (e_package e) (e_service e) (e_opt e) (e_invoker e) (e_method e)).1.1) s l.

Definition raw_key (wp : bool) (e : raw_entry) : list string := ["post"; ToLower (raw_service wp e); ToLower (e_method e)].
Definition raw_adds (wp : bool) (l : list raw_entry) : list (string * string * RawDesc) :=
  (fun e => ("", "/POST/" +:+ raw_service wp e +:+ "/" +:+ e_method e, mkRawDesc (e_opt e) (e_invoker e))) <$> l.

Lemma lower_plain (s : string) : plain_name s -> contains_char "/" (ToLower s) = false /\ contains_char ":" (ToLower s) = false /\ ToLower s <> "".
Proof.
  intros (Hne & Hs & Hc & _). rewrite !ToLower_contains by (apply lower_slash || apply lower_colon). split_and!; [done..|]. by destruct s.
Qed.

(** The components of two plain names behind one another, with a method or without. *)
Lemma components_plain (a b : string) : plain_name a -> plain_name b ->
  components "" ("/POST/" +:+ a +:+ "/" +:+ b) = Ok ["post"; ToLower a; ToLower b] /\
  components "POST" ("/" +:+ a +:+ "/" +:+ b) = Ok ["post"; ToLower a; ToLower b].
Proof.
  intros Ha Hb. destruct (lower_plain a Ha) as (Ha1 & _ & _), (lower_plain b Hb) as (Hb1 & Hb2 & _).
  assert (E : Split "/" (ToLower (a +:+ "/" +:+ b)) = [ToLower a; ToLower b]).
  { rewrite !ToLower_app. change (ToLower "/" +:+ ToLower b) with (String "/" (ToLower b)). rewrite Split_app_sep by done. f_equal. by apply Split_free. }
  unfold components. cbn [app last].
  assert (E1 : Split "/" (ToLower (sdrop 1 ("/POST/" +:+ a +:+ "/" +:+ b))) = ["post"; ToLower a; ToLower b]).
  { change (sdrop 1 ("/POST/" +:+ a +:+ "/" +:+ b)) with ("POST" +:+ String "/" (a +:+ "/" +:+ b)). rewrite ToLower_app.
    change (ToLower (String "/" (a +:+ "/" +:+ b))) with (String "/" (ToLower (a +:+ "/" +:+ b))). rewrite Split_app_sep by done. by rewrite E. }
  assert (E2 : Split "/" (ToLower (sdrop 1 ("/" +:+ a +:+ "/" +:+ b))) = [ToLower a; ToLower b]) by exact E.
  split.
  - rewrite bool_decide_eq_false_2 by done. rewrite (bool_decide_eq_true_2 ("" = "")), E1 by done. cbn [app last]. by rewrite (LastIndex_free _ _ Hb2).
  - rewrite bool_decide_eq_false_2 by done. rewrite (bool_decide_eq_false_2 ("POST" = "")), E2 by done. cbn [app last]. by rewrite (LastIndex_free _ _ Hb2).
Qed.

Lemma plain_brace_free (a b : string) : plain_name a -> plain_name b -> contains_char "{" ("POST/" +:+ a +:+ "/" +:+ b) = false.
Proof. intros (_ & _ & _ & Ha & _) (_ & _ & _ & Hb & _). rewrite !contains_char_app, Ha, Hb. done. Qed.

Lemma raw_pattern (a b : string) : plain_name a -> plain_name b ->
  RegistryWithGrpcPattern ("POST" +:+ "/" +:+ a +:+ "/" +:+ b) = Ok ("/POST/" +:+ a +:+ "/" +:+ b) /\
  pattern_of "" ("/POST/" +:+ a +:+ "/" +:+ b) = Some ["post"; ToLower a; ToLower b].
Proof.
  intros Ha Hb. pose proof (plain_brace_free a b Ha Hb) as Hf. split.
  - unfold RegistryWithGrpcPattern. change ("POST" +:+ "/" +:+ a +:+ "/" +:+ b) with ("POST/" +:+ a +:+ "/" +:+ b). by rewrite TemplateConvert_plain.
  - unfold pattern_of. rewrite TemplateConvert_plain by exact Hf. cbn [mbind gores_bind]. rewrite (proj1 (components_plain a b Ha Hb)).
    destruct (lower_plain a Ha) as (_ & _ & Ha3), (lower_plain b Hb) as (_ & _ & Hb3). unfold nonempty_parts. cbn [forallb].
    by rewrite !bool_decide_eq_false_2.
Qed.

Lemma register_raws_adds (wp : bool) (l : list raw_entry) :
  (forall e, e ∈ l -> plain_name (raw_service wp e) /\ plain_name (e_method e)) ->
  WithPackageName (register_raws (NewMux wp) l) = wp /\ rawPostMatcher (register_raws (NewMux wp) l) = register (raw_adds wp l).
Proof.
  induction l as [|e l IH] using rev_ind; intros Hl; [done|]. destruct IH as [Hw Hm]; [intros e' He'; apply Hl, elem_of_app; by left|].
  destruct (Hl e) as [Hs Hn]; [apply elem_of_app; right; by left|]. unfold register_raws, raw_adds. rewrite foldl_snoc, fmap_app. cbn [fmap list_fmap].
  fold (register_raws (NewMux wp) l). set (s := register_raws (NewMux wp) l) in *. unfold register. rewrite foldl_snoc. fold (register (raw_adds wp l)).
  unfold registerRawPostApi, add_pattern, raw_path. rewrite Hw. fold (raw_service wp e).
  rewrite (proj1 (raw_pattern _ _ Hs Hn)), Hm. by destruct (AddPattern _ _ _ _) as [m' [[]|x|x]].
Qed.

Lemma raw_literal (wp : bool) (e : raw_entry) : plain_name (raw_service wp e) -> plain_name (e_method e) -> literal (raw_key wp e).
Proof.
  intros Hs Hn. destruct (lower_plain _ Hs) as (_ & _ & ?), (lower_plain _ Hn) as (_ & _ & ?).
  destruct Hs as (_ & _ & _ & _ & ? & ?), Hn as (_ & _ & _ & _ & ? & ?). by repeat constructor.
Qed.

Lemma raw_registered (wp : bool) (l : list raw_entry) (e : raw_entry) :
  (forall e, e ∈ l -> plain_name (raw_service wp e) /\ plain_name (e_method e)) -> NoDup (raw_key wp <$> l) -> e ∈ l ->
  registered (raw_adds wp l) (raw_key wp e) = [mkRawDesc (e_opt e) (e_invoker e)].
Proof.
  intros Hl Hnd He. induction l as [|e' l IH]; [by apply elem_of_nil in He|].
  assert (Hl' : forall e, e ∈ l -> plain_name (raw_service wp e) /\ plain_name (e_method e)) by (intros x Hx; apply Hl; by right).
  destruct (Hl e') as [Hs Hn]; [by left|]. rewrite fmap_cons in Hnd. apply NoDup_cons in Hnd as [Hni Hnd].
  assert (Hnone : e ∉ l -> raw_key wp e ∉ raw_key wp <$> l -> registered (raw_adds wp l) (raw_key wp e) = []).
  { intros _ Hk. unfold registered, raw_adds. clear IH He Hni Hnd Hl. induction l as [|x l IHl]; [done|]. cbn.
    destruct (Hl' x) as [Hxs Hxn]; [by left|]. rewrite (proj2 (raw_pattern _ _ Hxs Hxn)). rewrite fmap_cons, not_elem_of_cons in Hk. destruct Hk as [Hk1 Hk].
    rewrite decide_False by (intros [= E]; apply Hk1; unfold raw_key; congruence). apply IHl; [|done]. intros y Hy. apply Hl'. by right. }
  unfold registered, raw_adds. cbn. rewrite (proj2 (raw_pattern _ _ Hs Hn)). apply elem_of_cons in He as [->|He].
  - rewrite decide_True by done. f_equal. apply Hnone; [|done]. intros Hin. apply Hni. by apply list_elem_of_fmap_2.
  - rewrite decide_False; [by apply IH|]. intros [= E1 E2]. apply Hni. apply list_elem_of_fmap. exists e. split; [|done]. unfold raw_key. congruence.
Qed.

(** Methods without HTTP rules can be posted to.  When services are registered whose names
    are plain and, whatever their case, pairwise different with those of their methods, then
    a [POST] for the path of any of their methods is handed to exactly that method, with
    whatever headers it comes. *)
Theorem raw_post_served (wp : bool) (l : list raw_entry) (e : raw_entry) (r : Request) :
  (forall e, e ∈ l -> plain_name (raw_service wp e) /\ plain_name (e_method e)) -> NoDup (raw_key wp <$> l) -> e ∈ l ->
  Method r = "POST" -> Override r = "" -> Path r = "/" +:+ raw_service wp e +:+ "/" +:+ e_method e ->
  ServeHTTP (register_raws (NewMux wp) l) r = inr (RawHandler (e_invoker e)).
Proof.
  intros Hl Hnd He Hm Ho Hp. destruct (Hl e He) as [Hs Hn]. unfold ServeHTTP, override. rewrite Ho, bool_decide_eq_false_2 by naive_solver.
  cbn [mbind gores_bind]. unfold makeRequest, makeRawPostRequest. rewrite bool_decide_eq_false_2 by naive_solver.
  destruct (register_raws_adds wp l Hl) as [_ ->]. unfold match_meta, MatchWithMeta. rewrite Hm, Hp, (proj2 (components_plain _ _ Hs Hn)).
  cbn [mbind gores_bind]. fold (raw_key wp e). rewrite match_literal.
  - rewrite (raw_registered wp l e Hl Hnd He). cbn. done.
  - intros m pat x p Hin Hpat. apply list_elem_of_fmap in Hin as (e' & [= -> -> ->] & He'). destruct (Hl e' He') as [Hs' Hn'].
    rewrite (proj2 (raw_pattern _ _ Hs' Hn')) in Hpat. injection Hpat as <-. by apply raw_literal.
  - by apply raw_literal.
  - by rewrite (raw_registered wp l e Hl Hnd He).
Qed.

End mux.
Arguments ServerMux : clear implicits.
Arguments InvokerWrapper : clear implicits.
Arguments handler : clear implicits.

(** ** Witnesses *)

Definition example_invoker (m : string) : InvokerWrapper unit := mkInvoker m () ().
Definition example_entry (s m : string) : raw_entry (T := unit) := mkRawEntry "pkg" s None (example_invoker m) m.
Definition example_request (method path : string) : Request := mkRequest method path "" "" true (fun _ => false) (fun _ => false).

Lemma raw_post_served_witness :
  ServeHTTP (Pat := unit) (PH := unit) (fun _ _ _ => None) (register_raws (NewMux true) [example_entry "Users" "Get"; example_entry "Users" "List"])
    (example_request "POST" "/pkg.Users/List") = inr (RawHandler (example_invoker "List")).
Proof.
  apply (raw_post_served (Pat := unit) (PH := unit) (fun _ _ _ => None) true [example_entry "Users" "Get"; example_entry "Users" "List"]
    (example_entry "Users" "List") (example_request "POST" "/pkg.Users/List")); [| |right; by left|done..].
  - intros e [->|[->|?%elem_of_nil]%elem_of_cons]%elem_of_cons; [| |done]; by vm_compute.
  - apply (bool_decide_unpack _). vm_compute. exact I.
Defined.

Notation example_int := PathTemplate.PathTemplate.example_int.
(** A server with one method without rules and one with two bindings. *)
Definition example_file : FileDesc :=
  mkFile "pkg" [mkServiceDesc "Users"
    [mkMethod "Get" false false (Some []);
     mkMethod "List" false false (Some [None; Some (mkRule (mkBinding (RGet "/v1/users/{id=*}") "" "") [mkBinding (RCustom "head" "/v1/users") "" ""])])]].
Notation example_server := (NewServerMux (Pat := list string) (PH := unit) (fun _ _ => Ok (Some ())) example_int (fun _ _ pool _ => Some pool)
  (fun _ m => Some (example_invoker m)) (fun _ _ => None) false [] [("pkg.Users", Some example_file)]).
Notation example_match := (fun (pool : list string) (_ : list string) (_ : string) => Some ({[ "id" := Join pool "/" ]} : gmap string string)).

Definition example_mux : ServerMux unit (list string) unit := Eval vm_compute in match example_server with Ok (s, _) => s | _ => NewMux false end.
Definition example_announced : list announced := Eval vm_compute in match example_server with Ok (_, a) => a | _ => [] end.
Definition example_rule : HttpRuleDesc (T := unit) (Pat := list string) (PH := unit) :=
  mkRuleDesc None (example_invoker "/pkg.Users/List") ["v1"; "users"; "id"] [["id"]] "" "" ∅.

Lemma requests_reach_their_method_witness :
  ServeHTTP example_match example_mux (example_request "GET" "/v1/users/7") = inr (RuleHandler example_rule {[ "id" := "v1/users/id" ]}) /\
  exists pat, rule_from (fun _ _ => Ok (Some ())) example_int (fun _ _ pool _ => Some pool) (fun _ m => Some (example_invoker m)) (fun _ _ => None) []
    [("pkg.Users", Some example_file)] pat example_rule.
Proof.
  assert (E : example_server = Ok (example_mux, example_announced)) by (vm_compute; reflexivity).
  assert (Eh : ServeHTTP example_match example_mux (example_request "GET" "/v1/users/7") =
    inr (RuleHandler example_rule {[ "id" := "v1/users/id" ]})) by (vm_compute; reflexivity).
  split; [exact Eh|].
  destruct (requests_reach_their_method example_match (fun _ _ => Ok (Some ())) example_int (fun _ _ pool _ => Some pool)
    (fun _ m => Some (example_invoker m)) (fun _ _ => None) false [] [("pkg.Users", Some example_file)] example_mux example_announced
    (example_request "GET" "/v1/users/7") _ E Eh) as (_ & _ & _ & pat & _ & _ & _ & _ & Hfrom & _).
  by exists pat.
Defined.

End HttpMux.
