(* ===== verification/HttpRequest.v ===== *)
(** * Filling the request of a method from an HTTP request
    ([makeRawPostHandler], [makeHttpRuleHandler] and [decodeBody] of
    [server/internal/http_server/http_mux.go]).

    The body is decoded into the message or one of its fields, then the parameters of the path
    are set, then those of the query, and then the parameter handlers of the service run.
    Messages, their decoding and the filling of fields are those of protobuf and grpc-gateway
    (class [Message]; [MessageLaws] is what the order relies on).  The query may name a field
    otherwise than the path does, by its JSON name for one: such a key passes the filter
    ([alias_overrides]). *)

From Stdlib Require Import Ascii.
From S2P Require Import Prelude GoStrings PathMatcher PathTemplate HttpMux.

Open Scope string_scope.
Open Scope list_scope.

Module HttpRequest.
Import PathMatcher HttpMux.

(** Reading the body, and its errors; [EOF] is [io.EOF]. *)
Inductive read_error := EOF | Failed (e : string).
Notation body := (string + read_error)%type.

(** What a field points to, for the type switch of [decodeBody]. *)
Inductive target := TBytes | TString | TOther.

Class Message (T Msg : Type) := {
  new_message : T -> Msg;
  field_target : Msg -> string -> option target;
  set_bytes : Msg -> string -> string -> Msg;
  set_string : Msg -> string -> string -> Msg;
  decode_json : Msg -> option string -> string -> Msg * option read_error;
  PopulateFieldFromPath : Msg -> string -> string -> Msg + string;
  PopulateQueryParameters : Msg -> list (string * list string) -> list (list string) -> Msg + string
}.

(** [l] is a prefix of [l'] *)
Fixpoint is_prefix (l l' : list string) : bool :=
  match l, l' with
  | [], _ => true
  | a :: l, b :: l' => bool_decide (a = b) && is_prefix l l'
  | _ :: _, [] => false
  end.

(** [holds m k v]: the field of [m] at the dotted path [k] is what the text [v] stands for (it
    ends with it, if it is repeated).  [touches key k]: setting what [key] names may
    change the field at [k]: it names that field, or one above or below it, by whatever name
    and, in a query, with or without a bracketed part.
    Setting a field from the path does so and changes no field but those it touches.  A key of the query that begins with a sequence of the filter is passed over (the part
    in brackets, that is cut off before the filter is asked, aside); another one changes no
    field but those it touches. *)
Class MessageLaws (T Msg : Type) `{Message T Msg} (holds : Msg -> string -> string -> Prop) (touches : string -> string -> bool) : Prop := {
  populate_sets m k v m' : PopulateFieldFromPath m k v = inl m' -> holds m' k v;
  populate_keeps m k v m' k' v' : PopulateFieldFromPath m k v = inl m' ->
    touches k k' = false -> holds m k' v' -> holds m' k' v';
  query_keeps m q filter m' k v : PopulateQueryParameters m q filter = inl m' ->
    (forall key vals, (key, vals) ∈ q ->
      (contains_char "[" key = false /\ exists f, f ∈ filter /\ is_prefix f (Split "." key) = true) \/ touches key k = false) ->
    holds m k v -> holds m' k v
}.

Section requests.
Context {T Pat PH Msg Resp : Type} `{Message T Msg}.
Notation InvokerWrapper := (InvokerWrapper T).

(** A parameter handler of a service: the values, the message, and the message in its place. *)
Context (call_handler : PH -> list string -> Msg -> option Msg).
(** [FieldByName] of a response. *)
Context (response_field : Resp -> string -> option Resp).

(** The type switch: a message is neither bytes nor a string; [None] is the message itself. *)
Definition decodeBody (b : body) (m : Msg) (field : option (string * target)) : Msg * option read_error :=
  let as_text (set : Msg -> string -> string -> Msg) f :=
    match b with
    | inr EOF => (m, Some EOF)
    | inr (Failed e) => (m, Some (Failed ("serverMux decodeBody readAll http body failed, err = " +:+ e)))
    | inl s => (set m f s, None)
    end in
  match field with
  | Some (f, TBytes) => as_text set_bytes f
  | Some (f, TString) => as_text set_string f
  | _ =>
      match b with
      | inr EOF => (m, Some EOF)
      | inr (Failed e) => (m, Some (Failed ("serverMux decodeBody create IOReaderFactory failed, err = " +:+ e)))
      | inl s =>
          let (m, e) := decode_json m (fst <$> field) s in
          (m, match e with Some (Failed e) => Some (Failed ("serverMux decodeBody unmarshal request body failed, err = " +:+ e)) | e => e end)
      end
  end.

(** What a handler comes to: an [InvalidArgument] error in the answer, or the call of the
    method with a request and the choice of the response. *)
Inductive outcome :=
| Rejected (message : string)
| Invokes (m : InvokerWrapper) (request : Msg) (response : Resp -> string + Resp).

Definition makeRawPostHandler (b : body) (m : InvokerWrapper) : outcome :=
  match decodeBody b (new_message (RequestType m)) None with
  | (_, Some (Failed e)) => Rejected ("http mux decodeBody failed, err = " +:+ e)
  | (pbReq, _) => Invokes m pbReq inr
  end.

(** The body, if the rule has a field for it. *)
Definition fill_body (rd : HttpRuleDesc (T := T) (Pat := Pat) (PH := PH)) (b : body) (pbReq : Msg) : Msg + string :=
  let decode field :=
    match decodeBody b pbReq field with
    | (_, Some (Failed e)) => inr ("http mux decodeBody failed, err = " +:+ e)
    | (pbReq, _) => inl pbReq
    end in
  if decide (bodyField rd = "") then inl pbReq
  else if decide (bodyField rd = "*") then decode None
  else match field_target pbReq (bodyField rd) with
       | None => inr ("no field found: " +:+ bodyField rd)
       | Some t => decode (Some (bodyField rd, t))
       end.

(** The parameters of the path, in the order in which their map is walked. *)
Fixpoint fill_path (pathParams : list (string * string)) (pbReq : Msg) : Msg + string :=
  match pathParams with
  | [] => inl pbReq
  | (k, v) :: rest =>
      match PopulateFieldFromPath pbReq k v with
      | inr e => inr ("http mux populateFieldFromPath failed, err = " +:+ e)
      | inl pbReq => fill_path rest pbReq
      end
  end.

Definition fill_query (rd : HttpRuleDesc (T := T) (Pat := Pat) (PH := PH)) (query : list (string * list string)) (pbReq : Msg) : Msg + string :=
  if decide (bodyField rd = "*") then inl pbReq
  else match PopulateQueryParameters pbReq query (filterSeqs rd) with
       | inr e => inr ("http mux populateQueryParameters failed, err = " +:+ e)
       | inl pbReq => inl pbReq
       end.

(** The handlers of the parameters of the query, in the order in which its map is walked. *)
Fixpoint run_handlers (handlers : gmap string PH) (query : list (string * list string)) (pbReq : Msg) : Msg :=
  match query with
  | [] => pbReq
  | (k, v) :: rest =>
      run_handlers handlers rest (match handlers !! k with Some h => default pbReq (call_handler h v pbReq) | None => pbReq end)
  end.

Definition choose_response (respField : string) (resp : Resp) : string + Resp :=
  if decide (respField = "*" \/ respField = "") then inr resp
  else match response_field resp respField with Some r => inr r | None => inl ("no field found: " +:+ respField) end.

Definition makeHttpRuleHandler (rd : HttpRuleDesc (T := T) (Pat := Pat) (PH := PH)) (pathParams : list (string * string))
    (query : list (string * list string)) (b : body) : outcome :=
  match fill_body rd b (new_message (RequestType (rule_method rd))) with
  | inr e => Rejected e
  | inl pbReq =>
      match fill_path pathParams pbReq with
      | inr e => Rejected e
      | inl pbReq =>
          match fill_query rd query pbReq with
          | inr e => Rejected e
          | inl pbReq => Invokes (rule_method rd) (run_handlers (parameterHandler rd) query pbReq) (choose_response (respField rd))
          end
      end
  end.

(** ** Lemmas *)

Lemma run_handlers_none query m : run_handlers ∅ query m = m.
Proof. revert m. induction query as [|[k v] query IH]; intros m; [done|]. cbn. by rewrite lookup_empty. Qed.

Section laws.
Context (holds : Msg -> string -> string -> Prop) (touches : string -> string -> bool) `{!MessageLaws T Msg holds touches}.

(** Names of which no two are of the same field, or of fields of which one is above the other. *)
Definition apart (l : list (string * string)) : Prop := forall k v k' v', (k, v) ∈ l -> (k', v') ∈ l -> k <> k' -> touches k k' = false.

Lemma fill_path_keeps l m m' k v : fill_path l m = inl m' -> holds m k v ->
  (forall k' v', (k', v') ∈ l -> touches k' k = false) -> holds m' k v.
Proof.
  revert m. induction l as [|[k1 v1] l IH]; intros m Hf Hh Hl; cbn in Hf; [congruence|].
  destruct (PopulateFieldFromPath m k1 v1) as [m1|e] eqn:E; [|done]. eapply IH; [exact Hf| |intros k' v' Hin; apply (Hl k' v'); by right]. eapply populate_keeps; [exact E|apply (Hl k1 v1); by left|done].
Qed.

Lemma fill_path_sets l m m' k v : fill_path l m = inl m' -> NoDup l.*1 -> apart l -> (k, v) ∈ l -> holds m' k v.
Proof.
  revert m. induction l as [|[k1 v1] l IH]; intros m Hf Hn Ha Hin; [by apply not_elem_of_nil in Hin|]. cbn in Hf.
  destruct (PopulateFieldFromPath m k1 v1) as [m1|e] eqn:E; [|done]. cbn in Hn. apply NoDup_cons in Hn as [Hk Hn].
  apply elem_of_cons in Hin as [[= -> ->]|Hin].
  - eapply fill_path_keeps; [exact Hf|by eapply populate_sets|]. intros k' v' Hin'.
    assert (k1 <> k') by (intros ->; apply Hk; apply list_elem_of_fmap; by exists (k', v')).
    apply (Ha k' v' k1 v1); first [by left|by right|congruence].
  - eapply IH; [exact Hf|done| |done]. intros a b c d H1 H2. apply (Ha a b c d); by right.
Qed.

(** A rule that a request is handed to is in the matcher of the rules. *)
Lemma served_rule (PatternMatch : Pat -> list string -> string -> option (gmap string string)) (s : ServerMux T Pat PH) r ru rd params :
  ruleMatcher s = register ru -> ServeHTTP PatternMatch s r = inr (RuleHandler rd params) ->
  exists pat method comps verb, (method, pat, rd) ∈ ru /\ PatternMatch (pattern rd) comps verb = Some params.
Proof.
  intros Eru Hs. unfold ServeHTTP in Hs. destruct (override r) as [r'|e|e]; [|done..]. cbn [mbind gores_bind] in Hs.
  destruct (makeRequest PatternMatch s r') as [h|e|e] eqn:Em; [|done..]. injection Hs as ->. unfold makeRequest in Em.
  assert (Hr : makeHttpRuleRequest PatternMatch s r' = Ok (Some (RuleHandler rd params))).
  { unfold makeRawPostRequest in Em. repeat case_match; simplify_eq; done. }
  destruct (rule_request_from PatternMatch s r' ru _ Eru Hr) as (cs & p & pat & method & rd' & comps & verb & ps & _ & _ & Hin & _ & _ & Hpm & [= <- <-]).
  by exists pat, method, comps, verb.
Qed.

(** C21: the path decides.  In the mux of a server, let a request be handed to an HTTP rule with
    the parameters of its path, of which no two name the same field or one above the other.  Let a key of the
    query that reaches the field of a parameter of the path, or one above or below it, be
    written without brackets and begin with the name a parameter of the path is declared with.
    (Other names of such a field, as its JSON name, and those of the fields above it are not
    covered: they would win over the path.)  In whatever order the parameters are walked: if
    the request is not rejected and the service handles no parameter itself, the method of the
    rule is called with a message in which every parameter of the path has the value of the
    path, whatever the body says and whatever values the query gives. *)
Theorem path_decides (PatternMatch : Pat -> list string -> string -> option (gmap string string)) (FieldByName : T -> string -> gores (option T))
    (int : PathTemplate.PathTemplate.OpCode -> Z) (NewPattern : Z -> list Z -> list string -> string -> option Pat)
    (QueryUnary QueryStreaming : string -> string -> option InvokerWrapper)
    (wp : bool) (descs : list (GrpcService (PH := PH))) (info : list (string * option FileDesc)) (s : ServerMux T Pat PH) (ann : list announced)
    (r : Request) (rd : HttpRuleDesc) (params : gmap string string) (pathParams : list (string * string))
    (query : list (string * list string)) (b : body) (m : InvokerWrapper) (request : Msg) (response : Resp -> string + Resp) :
  (forall c c', int c = int c' -> c = c') ->
  (forall ops pool verb pat cs verb' params os, NewPattern 1%Z ops pool verb = Some pat -> PatternMatch pat cs verb' = Some params ->
    PathTemplate.PathTemplate.decode int pool ops = Some os -> forall k v, params !! k = Some v -> k ∈ PathTemplate.PathTemplate.captured os) ->
  NewServerMux FieldByName int NewPattern QueryUnary QueryStreaming wp descs info = Ok (s, ann) ->
  ServeHTTP PatternMatch s r = inr (RuleHandler rd params) ->
  pathParams ≡ₚ map_to_list params -> apart pathParams -> parameterHandler rd = ∅ ->
  (forall key vals k v, (key, vals) ∈ query -> params !! k = Some v -> touches key k = true ->
    contains_char "[" key = false /\ exists k' v', params !! k' = Some v' /\ is_prefix (Split "." k') (Split "." key) = true) ->
  makeHttpRuleHandler rd pathParams query b = Invokes m request response ->
  m = rule_method rd /\ forall k v, params !! k = Some v -> holds request k v.
Proof.
  intros Hint Hbinds Hmux Hserve Hperm Hapart Hnone Hnames Hinv.
  assert (Hfilter : forall k v, params !! k = Some v -> Split "." k ∈ filterSeqs rd).
  { apply registerMethods_inv in Hmux as (_ & _ & (ru & Eru & Hru)).
    destruct (served_rule _ _ _ _ _ _ Eru Hserve) as (pat & method & comps & verb & Hin & Hpm). destruct (Hru _ Hin) as [_ Hfrom]. cbn in Hfrom.
    destruct Hfrom as (full & fd & sd & md & hr & bd & me & path & ph & _ & _ & _ & _ & Hd & _). intros k v Hk. unfold rule_desc in Hd.
    destruct (compilePath int NewPattern path) as [[fields [p|]]|] eqn:Ec; [|done..].
    apply gores_bind_ok in Hd as (_ & _ & Hd). destruct (contains_char _ _); [done|]. destruct (contains_char _ _); [done|].
    apply gores_bind_ok in Hd as (_ & _ & (_ & _ & [= Erd])%gores_bind_ok). rewrite <- Erd in Hpm |- *. cbn [pattern filterSeqs] in Hpm |- *.
    apply elem_of_app. right. apply list_elem_of_fmap. exists k. split; [done|].
    unfold compilePath in Ec. destruct (PathTemplate.PathTemplate.Parse path) eqn:Et; [|done..]. injection Ec as <- Enp.
    destruct (PathTemplate.PathTemplate.captured_fields int Hint path _ Et) as (os & Hos & Hf).
    pose proof (Hbinds _ _ _ _ _ _ _ _ Enp Hpm Hos k v Hk) as Hc. rewrite <- Hf in Hc. exact Hc. }
  unfold makeHttpRuleHandler in Hinv.
  destruct (fill_body rd b _) as [m1|e] eqn:E1; [|done]. destruct (fill_path pathParams m1) as [m2|e] eqn:E2; [|done].
  destruct (fill_query rd query m2) as [m3|e] eqn:E3; [|done]. injection Hinv as <- <- <-. split; [done|]. intros k v Hk.
  rewrite Hnone, run_handlers_none.
  assert (H2 : holds m2 k v).
  { eapply fill_path_sets; [exact E2| |done|].
    - rewrite Hperm. apply NoDup_fst_map_to_list.
    - rewrite Hperm. by apply elem_of_map_to_list. }
  unfold fill_query in E3. case_decide; [congruence|].
  destruct (PopulateQueryParameters m2 query (filterSeqs rd)) as [m4|e] eqn:E4; [|done]. injection E3 as <-.
  eapply query_keeps; [exact E4| |exact H2]. intros key vals Hin.
  destruct (touches key k) eqn:Ht; [left|by right].
  destruct (Hnames key vals k v Hin Hk Ht) as (Hb & k' & v' & Hk' & Hp). split; [done|]. exists (Split "." k'). split; [by eapply Hfilter|done].
Qed.

End laws.
End requests.

(** ** A message of texts *)

(** A field goes by its name and by its JSON name. *)
Definition canonical (k : string) : string := if decide (k = "userId") then "user_id" else k.
Definition filtered (filter : list (list string)) (k : string) : bool := existsb (fun f => is_prefix f (Split "." k)) filter.

#[local] Instance text_message : Message unit (gmap string string) := {|
  new_message _ := ∅;
  field_target _ _ := Some TString;
  set_bytes m f s := <[f := s]> m;
  set_string m f s := <[f := s]> m;
  decode_json m field s := (<[default "user_id" field := s]> m, None);
  PopulateFieldFromPath m k v := inl (<[canonical k := v]> m);
  PopulateQueryParameters m q filter := inl (foldl (fun m '(k, vs) => if filtered filter k then m else <[canonical k := default "" (last vs)]> m) m q)
|}.

#[local] Instance text_message_laws : MessageLaws unit (gmap string string) (fun m k v => m !! canonical k = Some v) (fun key k => bool_decide (canonical key = canonical k)).
Proof.
  split; cbn.
  - intros m k v m' [= <-]. apply lookup_insert_eq.
  - intros m k v m' k' v' [= <-] Hk%bool_decide_eq_false Hv. by rewrite lookup_insert_ne.
  - intros m q filter m' k v [= <-] Hq Hv. apply (foldl_ind (fun m => m !! canonical k = Some v)); [done|].
    intros m1 [k1 vs] Hin H1. destruct (filtered filter k1) eqn:E; [done|].
    destruct (Hq k1 vs Hin) as [(_ & f & Hf & Hp)|Hn%bool_decide_eq_false]; [|by rewrite lookup_insert_ne].
    apply not_true_iff_false in E. destruct E. apply existsb_exists. exists f. split; [by apply list_elem_of_In|done].
Qed.

(** Patterns that keep their operations and bind all they capture to the last component. *)
Notation example_pattern := (list Z * list string)%type.
Definition example_bind (p : example_pattern) (cs : list string) (verb : string) : option (gmap string string) :=
  match PathTemplate.PathTemplate.decode PathTemplate.PathTemplate.example_int p.2 p.1 with
  | Some os => Some (list_to_map ((fun k => (k, default "" (last cs))) <$> PathTemplate.PathTemplate.captured os))
  | None => None
  end.
Definition get_user : FileDesc :=
  mkFile "pkg" [mkServiceDesc "Users" [mkMethod "Get" false false (Some [Some (mkRule (mkBinding (RGet "/v1/users/{user_id}") "" "") [])])]].
Notation users_server := (NewServerMux (Pat := example_pattern) (PH := unit) (fun _ _ => Ok (Some ())) PathTemplate.PathTemplate.example_int (fun _ ops pool _ => Some (ops, pool))
  (fun _ m => Some (example_invoker m)) (fun _ _ => None) false [] [("pkg.Users", Some get_user)]).
Definition users_mux : ServerMux unit example_pattern unit := Eval vm_compute in match users_server with Ok (s, _) => s | _ => NewMux false end.
Definition users_announced : list announced := Eval vm_compute in match users_server with Ok (_, a) => a | _ => [] end.
Definition users_rule : HttpRuleDesc (T := unit) (Pat := example_pattern) (PH := unit) := Eval vm_compute in
  match ServeHTTP example_bind users_mux (example_request "GET" "/v1/users/7") with inr (RuleHandler rd _) => rd | _ => mkRuleDesc None (example_invoker "") ([], []) [] "" "" ∅ end.

Lemma path_decides_witness : match makeHttpRuleHandler (Resp := unit) (fun _ _ _ => None) (fun _ _ => None) users_rule [("user_id", "7")] [("user_id", ["8"]); ("name", ["x"])] (inl "body") with
  | Invokes m request _ => m = example_invoker "/pkg.Users/Get" /\ request !! "user_id" = Some "7"
  | Rejected _ => False
  end.
Proof.
  destruct (makeHttpRuleHandler (Resp := unit) (fun _ _ _ => None) (fun _ _ => None) users_rule [("user_id", "7")] [("user_id", ["8"]); ("name", ["x"])] (inl "body"))
    as [e|m request response] eqn:E; [vm_compute in E; discriminate E|].
  destruct (path_decides (T := unit) (Pat := example_pattern) (PH := unit) (Msg := gmap string string) (Resp := unit) (fun _ _ _ => None) (fun _ _ => None)
    (fun m k v => m !! canonical k = Some v) (fun key k => bool_decide (canonical key = canonical k)) example_bind (fun _ _ => Ok (Some ())) PathTemplate.PathTemplate.example_int (fun _ ops pool _ => Some (ops, pool))
    (fun _ m => Some (example_invoker m)) (fun _ _ => None) false [] [("pkg.Users", Some get_user)] users_mux users_announced (example_request "GET" "/v1/users/7")
    users_rule {[ "user_id" := "7" ]} [("user_id", "7")] [("user_id", ["8"]); ("name", ["x"])] (inl "body") m request response) as [Hm Hk].
  - by intros [] [].
  - intros ops pool verb pat cs verb' params os [= <-]. unfold example_bind. cbn [fst snd]. intros Hp Hos k v Hk. rewrite Hos in Hp. injection Hp as <-.
    apply elem_of_list_to_map_2 in Hk. apply list_elem_of_fmap in Hk as (k' & [= -> _] & Hin). done.
  - vm_compute. reflexivity.
  - vm_compute. reflexivity.
  - vm_compute. reflexivity.
  - intros k v k' v' [= -> ->]%list_elem_of_singleton [= -> ->]%list_elem_of_singleton Hne. by destruct Hne.
  - reflexivity.
  - intros key vals k v Hin Hk Ht%bool_decide_eq_true. apply lookup_singleton_Some in Hk as [<- <-].
    apply elem_of_cons in Hin as [[= -> ->]|[= -> ->]%list_elem_of_singleton]; [|discriminate Ht].
    split; [reflexivity|]. exists "user_id", "7". by split.
  - exact E.
  - split; [rewrite Hm; reflexivity|]. apply (Hk "user_id" "7"). vm_compute. reflexivity.
Defined.

(** The JSON name of the field passes the filter and wins over the path. *)
Example alias_overrides : match makeHttpRuleHandler (Resp := unit) (fun _ _ _ => None) (fun _ _ => None) users_rule [("user_id", "7")] [("userId", ["8"])] (inl "body") with
  | Invokes m request _ => request !! "user_id" = Some "8"
  | Rejected _ => False
  end.
Proof. vm_compute. reflexivity. Qed.

End HttpRequest.
