(* ===== verification/HttpHeader.v ===== *)
(** * Headers between HTTP and gRPC ([server/internal/http_server/http_header.go]).

    A request's headers become incoming metadata, a response's metadata become headers and
    trailers.  Headers that belong to the transport are renamed on the way in and kept back on
    the way out. *)

From S2P Require Import Prelude GoStrings GrpcMetadata.
From Stdlib Require Import Ascii.

Open Scope string_scope.
Open Scope list_scope.

Module HttpHeader.

(** ** [net/textproto] and [net/http] *)

(** [validHeaderFieldByte]: letters, digits and the marks of tokens. *)
Definition is_digit (a : ascii) : bool := let n := nat_of_ascii a in ((48 <=? n) && (n <=? 57))%nat.
Definition header_byte (a : ascii) : bool :=
  is_upper a || is_lower a || is_digit a || contains_char a "!#$%&'*+-.^_`|~".
Fixpoint all_header_bytes (s : string) : bool :=
  match s with EmptyString => true | String a s => header_byte a && all_header_bytes s end.
Fixpoint canon_bytes (upper : bool) (s : string) : string :=
  match s with
  | EmptyString => EmptyString
  | String a s => String (if upper then upper_ascii a else lower_ascii a) (canon_bytes (bool_decide (a = "-"%char)) s)
  end.
(** [CanonicalMIMEHeaderKey]: a key with other bytes is left alone. *)
Definition CanonicalMIMEHeaderKey (s : string) : string := if all_header_bytes s then canon_bytes true s else s.

(** [http.Header] with canonical keys: [Get] and [Add]. *)
Notation Header := (gmap string (list string)).
Definition Header_Get (h : Header) (key : string) : string :=
  match h !! CanonicalMIMEHeaderKey key with Some (v :: _) => v | _ => "" end.
Definition Header_Add (h : Header) (key value : string) : Header :=
  let key := CanonicalMIMEHeaderKey key in <[key := default [] (h !! key) ++ [value]]> h.

(** ** Names *)

Definition StandardIncomingHeaderPrefix : string := "x-frame-incoming".
Definition StandardOutgoingHeaderPrefix : string := "x-frame-outgoing".
Definition Path : string := "X-FRAME-PATH".
Definition Method : string := "X-FRAME-METHOD".
Definition Host : string := "X-FRAME-HOST".
Definition Scheme : string := "X-FRAME-SCHEME".
Definition RequestURI : string := "X-FRAME-URI".
Definition XForwardedFor : string := "X-Forwarded-For".
Definition XForwardedHost : string := "X-Forwarded-Host".

Definition http2_headers : list string :=
  [":uri"; ":host"; ":authority"; ":path"; "accept"; "accept-charset"; "accept-encoding"; "accept-language"; "accept-ranges"; "age";
   "access-control-allow-origin"; "allow"; "authorization"; "cache-control"; "content-disposition"; "content-encoding";
   "content-language"; "content-length"; "content-location"; "content-range"; "content-type"; "cookie"; "date"; "etag"; "expect";
   "expires"; "from"; "host"; "if-match"; "if-modified-since"; "if-none-match"; "if-unmodified-since"; "last-modified"; "link";
   "location"; "max-forwards"; "proxy-authenticate"; "proxy-authorization"; "range"; "referer"; "refresh"; "retry-after"; "server";
   "set-cookie"; "strict-transport-security"; "trailer"; "transfer-encoding"; "user-agent"; "vary"; "via"; "www-authenticate"].
Definition isHttp2Header (hdr : string) : bool := bool_decide (ToLower hdr ∈ http2_headers).
Definition permanent_headers : list string :=
  ["Accept"; "Accept-Charset"; "Accept-Language"; "Accept-Ranges"; "Authorization"; "Cache-Control"; "Content-Type"; "Cookie"; "Date";
   "Expect"; "From"; "Host"; "If-Match"; "If-Modified-Since"; "If-None-Match"; "If-Schedule-Tag-Match"; "If-Unmodified-Since";
   "Max-Forwards"; "Origin"; "Pragma"; "Referer"; "User-Agent"; "Via"; "Warning"].
Definition isPermanentHTTPHeader (hdr : string) : bool := bool_decide (hdr ∈ permanent_headers).

Section header.
Context {MD : Type} `{Metadata MD}.
(** The prefixes of grpc-gateway's [runtime]. *)
Context (MetadataPrefix MetadataHeaderPrefix MetadataTrailerPrefix : string).

(** [MD.Set] and [MD.Append]: without values they do nothing. *)
Definition Set_ (md : MD) (key : string) (values : list string) : MD :=
  match values with [] => md | _ => md_Set md (ToLower key) values end.
Definition Append (md : MD) (key : string) (values : list string) : MD :=
  match values with [] => md | _ => md_Set md (ToLower key) (md_Get md (ToLower key) ++ values) end.

(** ** Requests *)

Record Request := mkRequest {
  url_path : string; method : string; url_host : string; request_uri : string; url_scheme : string; tls : bool;
  header : Header; remote_addr : string; host : string
}.

Definition requestHeaderFilter (key : string) (grpcGatewayCompatible : bool) : option string :=
  let key := CanonicalMIMEHeaderKey key in
  key ← (if grpcGatewayCompatible then
           if isPermanentHTTPHeader key then Some (MetadataPrefix +:+ key)
           else if HasPrefix key MetadataHeaderPrefix then Some (sdrop (String.length MetadataHeaderPrefix) key)
           else None
         else Some key);
  Some (if isHttp2Header key then StandardIncomingHeaderPrefix +:+ key else key).

Definition request_header_step (compatible : bool) (md : MD) (kv : string * list string) : MD :=
  match requestHeaderFilter kv.1 compatible with Some k => Set_ md k kv.2 | None => md end.
(** What is set before the headers: who asks for what. *)
Definition request_md (incoming : option MD) (r : Request) : MD :=
  let md := default md_empty incoming in
  let md := Set_ md Path [url_path r] in
  let md := Set_ md Method [method r] in
  let md := Set_ md Host [url_host r] in
  let md := Set_ md RequestURI [request_uri r] in
  Set_ md Scheme [if bool_decide (url_scheme r <> "") then url_scheme r else if tls r then "https://" else "http://"].
(** [order]: the entries of the header in the order of the iteration. *)
Definition requestCtxWithHeader (incoming : option MD) (r : Request) (order : list (string * list string)) (compatible : bool) : MD :=
  let md := foldl (request_header_step compatible) (request_md incoming r) order in
  let md := if bool_decide (Header_Get (header r) XForwardedFor = "") then Append md XForwardedFor [remote_addr r] else md in
  if bool_decide (Header_Get (header r) XForwardedHost = "") then Append md XForwardedHost [host r] else md.

(** ** Responses *)

Definition responseHeaderKey (key : string) (compatible : bool) : string :=
  if compatible then MetadataHeaderPrefix +:+ key else key.
Definition add_all (key : string) (w : Header) (vs : list string) : Header := foldl (fun w v => Header_Add w key v) w vs.
Definition response_header_step (compatible : bool) (w : Header) (kv : string * list string) : Header :=
  let k := responseHeaderKey kv.1 compatible in
  if isHttp2Header k then w else add_all (TrimPrefix k StandardOutgoingHeaderPrefix) w kv.2.
Definition writeResponseHeader (w : Header) (md : list (string * list string)) (compatible : bool) : Header :=
  foldl (response_header_step compatible) w md.

Definition announce_step (w : Header) (kv : string * list string) : Header :=
  let tKey := CanonicalMIMEHeaderKey (MetadataTrailerPrefix +:+ kv.1) in
  if isHttp2Header tKey then w else Header_Add w "Trailer" tKey.
Definition trailer_step (w : Header) (kv : string * list string) : Header :=
  if isHttp2Header kv.1 then w else add_all (MetadataTrailerPrefix +:+ kv.1) w kv.2.
(** Two iterations over the metadata, which may differ in their order. *)
Definition writeResponseTrailer (w : Header) (order1 order2 : list (string * list string)) : Header :=
  foldl trailer_step (foldl announce_step w order1) order2.

(** ** What a request's metadata says *)

Context `{!MetadataLaws MD}.

Lemma Get_Set_ md k vs k' : md_Get (Set_ md k vs) k' = if decide (ToLower k = k' /\ vs <> []) then vs else md_Get md k'.
Proof.
  unfold Set_. destruct vs as [|v vs]; [by rewrite decide_False by naive_solver|]. rewrite md_Get_Set.
  repeat case_decide; naive_solver.
Qed.
Lemma Get_Set1 md k v k' : md_Get (Set_ md k [v]) k' = if decide (ToLower k = k') then [v] else md_Get md k'.
Proof. rewrite Get_Set_. repeat case_decide; naive_solver. Qed.
Lemma Get_Append md k vs k' : md_Get (Append md k vs) k' = md_Get md k' ++ (if decide (ToLower k = k') then vs else []).
Proof.
  unfold Append. destruct vs as [|v vs]; [case_decide; by rewrite app_nil_r|]. rewrite md_Get_Set.
  case_decide as Hk; [by subst|by rewrite app_nil_r].
Qed.

(** What a header entry contributes to a key of the metadata. *)
Definition entry_at (compatible : bool) (k' : string) (kv : string * list string) : option (list string) :=
  k ← requestHeaderFilter kv.1 compatible; if decide (ToLower k = k' /\ kv.2 <> []) then Some kv.2 else None.
Definition from_headers (compatible : bool) (order : list (string * list string)) (k' : string) : option (list string) :=
  last (omap (entry_at compatible k') order).

Lemma fold_headers compatible order md k' :
  md_Get (foldl (request_header_step compatible) md order) k' = default (md_Get md k') (from_headers compatible order k').
Proof.
  unfold from_headers. induction order as [|kv order IH] using rev_ind; [done|].
  rewrite foldl_snoc, omap_app. unfold request_header_step at 1, entry_at at 2. cbn [omap list_omap].
  destruct (requestHeaderFilter kv.1 compatible) as [k|]; cbn; [|by rewrite app_nil_r].
  rewrite Get_Set_. case_decide; [by rewrite last_snoc|by rewrite app_nil_r].
Qed.

(** The facts about the request itself, under their keys. *)
Definition pseudo (r : Request) : list (string * string) :=
  [("x-frame-scheme", if bool_decide (url_scheme r <> "") then url_scheme r else if tls r then "https://" else "http://");
   ("x-frame-uri", request_uri r); ("x-frame-host", url_host r); ("x-frame-method", method r); ("x-frame-path", url_path r)].
Lemma Get_request_md incoming r k' : md_Get (request_md incoming r) k' =
  match list_find (fun p => p.1 = k') (pseudo r) with Some (_, p) => [p.2] | None => md_Get (default md_empty incoming) k' end.
Proof.
  unfold request_md. rewrite !Get_Set1. unfold pseudo.
  change (ToLower Scheme) with "x-frame-scheme". change (ToLower RequestURI) with "x-frame-uri".
  change (ToLower Host) with "x-frame-host". change (ToLower Method) with "x-frame-method". change (ToLower Path) with "x-frame-path".
  cbn [list_find fst snd]. repeat (case_decide; [done|]). done.
Qed.

(** An address that is added when the client sent none. *)
Lemma Get_forwarded (sent : string) md k v k' :
  md_Get (if bool_decide (sent = "") then Append md k [v] else md) k' = md_Get md k' ++ (if decide (sent = "" /\ k' = ToLower k) then [v] else []).
Proof.
  case_bool_decide; [rewrite Get_Append|]; repeat case_decide; try naive_solver; by rewrite app_nil_r.
Qed.

(** What a handler reads as metadata of an HTTP request.  Under a key it finds the values
    of the last header of the iteration that is renamed to the key, if there is one; else,
    under the five keys of the request, what was asked for; else the metadata of the context.
    The address of the client and the host are added only when the client sent no forwarding
    headers of its own. *)
Theorem request_metadata incoming r order compatible k' :
  md_Get (requestCtxWithHeader incoming r order compatible) k' =
    default (match list_find (fun p => p.1 = k') (pseudo r) with Some (_, p) => [p.2] | None => md_Get (default md_empty incoming) k' end)
      (from_headers compatible order k') ++
    (if decide (Header_Get (header r) XForwardedFor = "" /\ k' = "x-forwarded-for") then [remote_addr r] else []) ++
    (if decide (Header_Get (header r) XForwardedHost = "" /\ k' = "x-forwarded-host") then [host r] else []).
Proof.
  unfold requestCtxWithHeader. by rewrite !Get_forwarded, fold_headers, Get_request_md, <- app_assoc.
Qed.

(** The keys that a header can get. *)
Lemma filter_not_http2 key compatible k : requestHeaderFilter key compatible = Some k -> isHttp2Header k = false.
Proof.
  unfold requestHeaderFilter. destruct (if compatible then _ else _) as [k0|]; [|done]. cbn. intros [= <-].
  destruct (isHttp2Header k0) eqn:Hk; [|done]. unfold isHttp2Header, StandardIncomingHeaderPrefix. apply bool_decide_eq_false.
  rewrite ToLower_app. generalize (ToLower k0). intros s Hin. unfold http2_headers in Hin.
  repeat (apply elem_of_cons in Hin as [Hin|Hin]; [discriminate Hin|]). by apply not_elem_of_nil in Hin.
Qed.
Lemma from_headers_not_http2 compatible order k' : k' ∈ http2_headers -> from_headers compatible order k' = None.
Proof.
  intros Hk. unfold from_headers. replace (omap (entry_at compatible k') order) with (@nil (list string)); [done|].
  induction order as [|kv order IH]; [done|]. cbn. rewrite <- IH. unfold entry_at.
  destruct (requestHeaderFilter kv.1 compatible) as [k|] eqn:Hf; [|done]. cbn. rewrite decide_False; [done|].
  intros [<- _]. apply filter_not_http2 in Hf. by apply bool_decide_eq_false in Hf.
Qed.

(** The headers of the transport do not get through under their own names: whatever a
    client sends, and in either mode, the metadata of a handler has under the name of such a
    header ([authorization], [content-type], [:path] and so on) what the context had. *)
Theorem transport_headers_renamed incoming r order compatible k' : k' ∈ http2_headers ->
  md_Get (requestCtxWithHeader incoming r order compatible) k' = md_Get (default md_empty incoming) k'.
Proof.
  intros Hk. unfold requestCtxWithHeader. rewrite !Get_forwarded, fold_headers, Get_request_md, from_headers_not_http2 by done.
  unfold http2_headers in Hk.
  repeat (apply elem_of_cons in Hk as [->|Hk]; [by rewrite !decide_False, !app_nil_r by (intros [? [=]])|]).
  by apply not_elem_of_nil in Hk.
Qed.

(** ** What a response's headers say *)

Definition values (w : Header) (K : string) : list string := default [] (w !! K).
Lemma values_Add w k v K : values (Header_Add w k v) K = values w K ++ (if decide (CanonicalMIMEHeaderKey k = K) then [v] else []).
Proof.
  unfold values, Header_Add. rewrite lookup_insert_case. case_decide as Hk; [by subst|by rewrite app_nil_r].
Qed.
Lemma values_add_all k w vs K : values (add_all k w vs) K = values w K ++ (if decide (CanonicalMIMEHeaderKey k = K) then vs else []).
Proof.
  unfold add_all. revert w. induction vs as [|v vs IH]; intros w; cbn; [by case_decide; rewrite app_nil_r|].
  rewrite IH, values_Add, <- app_assoc. by case_decide.
Qed.
Lemma values_fold (step : Header -> string * list string -> Header) (f : string * list string -> list string) w md K :
  (forall w kv, values (step w kv) K = values w K ++ f kv) -> values (foldl step w md) K = values w K ++ (md ≫= f).
Proof.
  intros Hs. revert w. induction md as [|kv md IH]; intros w; cbn; [by rewrite app_nil_r|]. by rewrite IH, Hs, <- app_assoc.
Qed.

(** What an entry of the metadata sends, and as which header. *)
Definition sent_header (compatible : bool) (kv : string * list string) : option string :=
  let k := responseHeaderKey kv.1 compatible in
  if isHttp2Header k then None else Some (CanonicalMIMEHeaderKey (TrimPrefix k StandardOutgoingHeaderPrefix)).
Definition sent_trailer (kv : string * list string) : option string :=
  if isHttp2Header kv.1 then None else Some (CanonicalMIMEHeaderKey (MetadataTrailerPrefix +:+ kv.1)).
Definition announced (kv : string * list string) : option string :=
  let tKey := CanonicalMIMEHeaderKey (MetadataTrailerPrefix +:+ kv.1) in if isHttp2Header tKey then None else Some tKey.

(** What a client reads as headers and trailers of a response: under every name, after
    what was there, the values of all entries that are sent under that name, in order.  The
    headers of the transport are kept back; a handler sets them with the outgoing prefix.
    Trailers are announced for all entries, though those of the transport are kept back. *)
Theorem response_headers w md compatible order1 order2 K :
  values (writeResponseHeader w md compatible) K =
    values w K ++ (md ≫= fun kv => if decide (sent_header compatible kv = Some K) then kv.2 else []) /\
  values (writeResponseTrailer w order1 order2) K =
    values w K ++ (if decide (K = "Trailer") then omap announced order1 else []) ++
    (order2 ≫= fun kv => if decide (sent_trailer kv = Some K) then kv.2 else []).
Proof.
  split.
  - unfold writeResponseHeader. apply values_fold. intros w' kv. unfold response_header_step, sent_header.
    destruct (isHttp2Header _); [by rewrite app_nil_r|]. rewrite values_add_all. repeat case_decide; naive_solver.
  - unfold writeResponseTrailer. rewrite (values_fold _ (fun kv => if decide (sent_trailer kv = Some K) then kv.2 else [])).
    + rewrite (values_fold _ (fun kv => if decide (K = "Trailer") then option_list (announced kv) else [])).
      * rewrite <- app_assoc. f_equal. f_equal. case_decide; [|by induction order1].
        induction order1 as [|kv order1 IH]; [done|]. cbn. rewrite IH. by destruct (announced kv).
      * intros w' kv. unfold announce_step, announced. destruct (isHttp2Header _); [case_decide; by rewrite app_nil_r|].
        rewrite values_Add. change (CanonicalMIMEHeaderKey "Trailer") with "Trailer". repeat case_decide; by subst.
    + intros w' kv. unfold trailer_step, sent_trailer. destruct (isHttp2Header _); [by rewrite app_nil_r|].
      rewrite values_add_all. repeat case_decide; naive_solver.
Qed.

End header.

(** ** Examples *)

Definition example_request (h : Header) : Request := mkRequest "/public" "GET" "" "/public" "" false h "10.0.0.1:5" "example.com".
Definition example_md h compatible : gmap string (list string) :=
  requestCtxWithHeader "grpcgateway-" "Grpc-Metadata-" None (example_request h) (map_to_list h) compatible.

(** A header of the client replaces the path that was asked for. *)
Example client_overrides_path : example_md {["X-Frame-Path" := ["/admin"]]} false !! "x-frame-path" = Some ["/admin"].
Proof. by vm_compute. Qed.
(** The header of a proxy is lost in the compatible mode, and no address is put in its place. *)
Example forwarded_for_lost : example_md {["X-Forwarded-For" := ["1.2.3.4"]]} true !! "x-forwarded-for" = None.
Proof. by vm_compute. Qed.
(** A trailer that is announced and not sent. *)
Example trailer_announced_only :
  let w := writeResponseTrailer "Grpc-Trailer-" ∅ [("etag", ["7"])] [("etag", ["7"])] in
  values w "Trailer" = ["Grpc-Trailer-Etag"] /\ values w "Grpc-Trailer-Etag" = [].
Proof. by vm_compute. Qed.

Lemma request_metadata_witness : md_Get (example_md {["X-Frame-Path" := ["/admin"]]} false) "x-frame-path" = ["/admin"].
Proof.
  unfold example_md. rewrite (request_metadata (MD := gmap string (list string)) "grpcgateway-" "Grpc-Metadata-"). by vm_compute.
Defined.
Lemma transport_headers_renamed_witness :
  md_Get (example_md {["Authorization" := ["secret"]]} false) "authorization" = [] /\
  md_Get (example_md {["Authorization" := ["secret"]]} false) "x-frame-incomingauthorization" = ["secret"].
Proof.
  split; [|by vm_compute].
  refine (transport_headers_renamed (MD := gmap string (list string)) "grpcgateway-" "Grpc-Metadata-" None
    (example_request {["Authorization" := ["secret"]]}) (map_to_list {["Authorization" := ["secret"]]}) false "authorization" _).
  apply (bool_decide_eq_true_1 _). by vm_compute.
Defined.

End HttpHeader.
