(* ===== verification/HttpInvoker.v ===== *)
(** * HTTP responses of gRPC methods ([server/internal/http_server/invoker.go], [http_error.go]).

    The result of a call, or the messages of a stream, are written to an HTTP response: status,
    headers, body.  Metadata under [x-http-code] chooses the status. *)

From S2P Require Import Prelude GoInt GoStrings Value GrpcMetadata HttpHeader.
From Stdlib Require Import Ascii.

Open Scope string_scope.
Open Scope list_scope.

Module HttpInvoker.
Import HttpHeader.
Notation Header := (gmap string (list string)).

(** ** [http.ResponseWriter]

    The first [WriteHeader] of a final status sends it with a copy of the header, later changes
    of which are lost; writing a body sends a status of 200 when none was sent; some statuses
    have no body.  An informational status (1xx without 101, as in Go since 1.19) is sent ahead
    with the header of the moment ([informed]), and the final one is still to come; a handler
    that returns without one is answered for by the server, with 200. *)

Record ResponseWriter := mkWriter { live : Header; sent : option (Z * Header); body : string; informed : list (Z * Header) }.
Definition Header_Set (h : Header) (k v : string) : Header := <[CanonicalMIMEHeaderKey k := [v]]> h.
Definition Header_Del (h : Header) (k : string) : Header := delete (CanonicalMIMEHeaderKey k) h.
Definition set_live (w : ResponseWriter) (h : Header) : ResponseWriter := mkWriter h (sent w) (body w) (informed w).
Definition informational (code : Z) : bool := ((100 <=? code) && (code <=? 199) && negb (code =? 101))%Z.
Definition WriteHeader (w : ResponseWriter) (code : Z) : gores ResponseWriter :=
  match sent w with
  | Some _ => Ok w
  | None => if ((code <? 100) || (999 <? code))%Z then Panic "invalid WriteHeader code"
            else if informational code then Ok (mkWriter (live w) None (body w) (informed w ++ [(code, live w)]))
            else Ok (mkWriter (live w) (Some (code, live w)) (body w) (informed w))
  end.
Definition bodyAllowedForStatus (status : Z) : bool :=
  negb (((100 <=? status) && (status <=? 199)) || (status =? 204) || (status =? 304))%Z.
Definition Write (w : ResponseWriter) (data : string) : gores ResponseWriter :=
  w ← WriteHeader w 200;
  Ok (match sent w with
      | Some (code, _) => if bodyAllowedForStatus code then mkWriter (live w) (sent w) (body w +:+ data) (informed w) else w
      | None => w
      end).

(** ** Errors ([http_error.go]) *)

Inductive Code :=
| OK | Canceled | Unknown | InvalidArgument | DeadlineExceeded | NotFound | AlreadyExists | PermissionDenied | ResourceExhausted
| FailedPrecondition | Aborted | OutOfRange | Unimplemented | Internal | Unavailable | DataLoss | Unauthenticated | OtherCode (n : nat).
Definition httpStatusFromCode (code : Code) : Z :=
  match code with
  | OK => 200 | Canceled => 408 | Unknown => 500 | InvalidArgument => 400 | DeadlineExceeded => 504 | NotFound => 404
  | AlreadyExists => 409 | PermissionDenied => 403 | Unauthenticated => 401 | ResourceExhausted => 429 | FailedPrecondition => 412
  | Aborted => 409 | OutOfRange => 400 | Unimplemented => 501 | Internal => 500 | Unavailable => 503 | DataLoss => 500
  | OtherCode _ => 500
  end%Z.
(** An error with a status, whose details are messages in their wire form, or another one. *)
Inductive error := Status (c : Code) (msg : string) (details : list string) | Plain (msg : string).
Definition FromError (e : error) : Code * string * list string := match e with Status c m ds => (c, m, ds) | Plain m => (Unknown, m, []) end.

Section invoker.
Context {Resp : Type}.
(** [marshaler]: its content type and [Marshal] of a response, a status, a message of a stream
    ([streamChunk]) and the error of a stream; [None] is an error. *)
Context (ContentType : string) (Marshal : Resp -> option string) (MarshalStatus : Code -> string -> list string -> option string).
Context (MarshalChunk : Resp -> option string) (MarshalError : Code -> Z -> string -> list string -> option string).
(** The prefixes of grpc-gateway's [runtime]. *)
Context (MetadataHeaderPrefix MetadataTrailerPrefix : string).
(** [respHandler], and whether grpc-gateway's names are used. *)
Context (respHandler : Resp -> error + Resp) (compatible : bool).

Definition quoted (s : string) : string := String "034" (s +:+ String "034" "").
Definition fallback : string := "{" +:+ quoted "code" +:+ ": 13, " +:+ quoted "message" +:+ ": " +:+ quoted "failed to marshal error message" +:+ "}".
Definition httpErrorHandler (code : Z) (w : ResponseWriter) (e : error) : gores ResponseWriter :=
  let w := set_live w (Header_Del (Header_Set (live w) "Content-Type" "application/json") "Trailer") in
  if (code =? 0)%Z then
    let '(c, m, ds) := FromError e in
    match MarshalStatus c m ds with
    | None => w ← WriteHeader w 500; Write w fallback
    | Some resp => w ← WriteHeader w (httpStatusFromCode c); Write w resp
    end
  else WriteHeader w code.

(** Metadata in the order of the iteration; its keys are in lower case. *)
Notation MD := (list (string * list string)).
Definition XHttpCodeHeader : string := "x-http-code".
(** The status that the metadata asks for, taken out of it; [strconv.Atoi]. *)
Definition customCode (respHeader : MD) : option (Z * MD) :=
  match snd ∘ snd <$> list_find (fun kv => kv.1 = XHttpCodeHeader) respHeader with
  | Some (v :: _) => code ← Value.Value.ParseInt 64 v; Some (code, filter (fun kv => kv.1 <> XHttpCodeHeader) respHeader)
  | _ => None
  end.
Definition httpCode (respHeader : MD) : Z * MD := default (0%Z, respHeader) (customCode respHeader).

(** ** Unary calls: what the method returned, with the metadata of the response. *)
Definition unary_Invoke (result : error + Resp) (respHeader respTrailer respTrailer' : MD) (w : ResponseWriter) : gores ResponseWriter :=
  match result with
  | inl e => httpErrorHandler (httpCode respHeader).1 w e
  | inr resp =>
      match respHandler resp with
      | inl e => httpErrorHandler (httpCode respHeader).1 w e
      | inr resp =>
          let w := set_live w (Header_Set (live w) "Content-Type" ContentType) in
          match Marshal resp with
          | None => httpErrorHandler (httpCode respHeader).1 w (Status Internal "http unary invoker marshal grpc response failed" [])
          | Some httpResp =>
              let '(code, respHeader) := httpCode respHeader in
              w ← (if (code =? 0)%Z then Ok w else WriteHeader w code);
              let w := set_live w (writeResponseHeader MetadataHeaderPrefix (live w) respHeader compatible) in
              let w := set_live w (writeResponseTrailer MetadataTrailerPrefix (live w) respTrailer respTrailer') in
              Write w httpResp
          end
      end
  end.

(** ** Streams of responses *)

Inductive recv := RMsg (m : Resp) | REof | RErr (e : error).
Definition handleStreamErrorResponse (wroteHeader wroteCustomCode : bool) (w : ResponseWriter) (e : error) : gores ResponseWriter :=
  let '(c, m, ds) := FromError e in
  let code := httpStatusFromCode c in
  w ← (if wroteHeader || wroteCustomCode then Ok w else WriteHeader w code);
  if wroteCustomCode then Ok w
  else match MarshalError c code m ds with None => Ok w | Some buf => Write w buf end.
(** What is done before the first message: [Header] of the stream, or its error. *)
Definition first_header (hdr : option MD) (w : ResponseWriter) : gores (ResponseWriter * bool) :=
  match hdr with
  | None => Ok (w, false)
  | Some respHeader =>
      match customCode respHeader with
      | Some (code, respHeader) =>
          w ← WriteHeader w code; Ok (set_live w (writeResponseHeader MetadataHeaderPrefix (live w) respHeader compatible), true)
      | None => Ok (set_live w (writeResponseHeader MetadataHeaderPrefix (live w) respHeader compatible), false)
      end
  end.
(** The loop; [msgs] are what [RecvMsg] answers, and when they end it waits. *)
Fixpoint stream_loop (hdr : option MD) (wroteHeader custom : bool) (msgs : list recv) (w : ResponseWriter) : gores ResponseWriter :=
  match msgs with
  | [] | REof :: _ => Ok w
  | r :: msgs =>
      '(w, custom) ← (if wroteHeader then Ok (w, custom) else first_header hdr w);
      match r with
      | REof => Ok w
      | RErr e => handleStreamErrorResponse wroteHeader custom w e
      | RMsg m =>
          match respHandler m with
          | inl e => handleStreamErrorResponse wroteHeader custom w e
          | inr m =>
              match MarshalChunk m with
              | None => httpErrorHandler 0 w (Status Internal "http streaming invoker marshal grpc response failed" [])
              | Some httpResp => w ← Write w httpResp; w ← Write w (String "010" ""); stream_loop hdr true custom msgs w
              end
          end
      end
  end.
(** The stream is opened, the request sent and the sending closed; each may fail. *)
Definition stream_Invoke (flusher : bool) (opened sending closing : option error) (hdr : option MD) (msgs : list recv) (w : ResponseWriter) : gores ResponseWriter :=
  if negb flusher then httpErrorHandler 0 w (Status Internal "flush not supported in http response writer" []) else
  match opened, sending, closing with
  | Some e, _, _ => httpErrorHandler 0 w (Status Internal "http streaming invoker NewStream failed" [])
  | None, Some e, _ => httpErrorHandler 0 w e
  | None, None, Some e => httpErrorHandler 0 w (Status Internal "http streaming invoker CloseSend failed" [])
  | None, None, None =>
      let w := set_live w (Header_Set (Header_Set (live w) "Transfer-Encoding" "chunked") "Content-Type" ContentType) in
      stream_loop hdr false false msgs w
  end.

(** ** What the client gets of a unary call *)

(** The status that the metadata asks for, and whether an entry is such a wish. *)
Definition asks (md : MD) (code : Z) : Prop := exists v vs, ("x-http-code", v :: vs) ∈ md /\ Value.Value.ParseInt 64 v = Some code.
Definition is_wish (kv : string * list string) : bool :=
  bool_decide (kv.1 = "x-http-code") && match kv.2 with v :: _ => bool_decide (is_Some (Value.Value.ParseInt 64 v)) | [] => false end.

(** The status of an error, by its code. *)
Definition status_table : list (Z * list Code) :=
  [(200, [OK]); (400, [InvalidArgument; OutOfRange]); (401, [Unauthenticated]); (403, [PermissionDenied]); (404, [NotFound]); (408, [Canceled]);
   (409, [AlreadyExists; Aborted]); (412, [FailedPrecondition]); (429, [ResourceExhausted]); (500, [Unknown; Internal; DataLoss]);
   (501, [Unimplemented]); (503, [Unavailable]); (504, [DeadlineExceeded])]%Z.
Definition status_of (c : Code) (status : Z) : Prop :=
  Exists (fun row => status = row.1 /\ c ∈ row.2) status_table \/ exists n, c = OtherCode n /\ status = 500%Z.

(** The headers of the transport, which metadata cannot set. *)
Definition transport_headers : list string := Split " "
  (":uri :host :authority :path accept accept-charset accept-encoding accept-language accept-ranges age access-control-allow-origin allow " +:+
   "authorization cache-control content-disposition content-encoding content-language content-length content-location content-range " +:+
   "content-type cookie date etag expect expires from host if-match if-modified-since if-none-match if-unmodified-since last-modified link " +:+
   "location max-forwards proxy-authenticate proxy-authorization range referer refresh retry-after server set-cookie " +:+
   "strict-transport-security trailer transfer-encoding user-agent vary via www-authenticate").
(** The header that an entry of the metadata, or of the trailers, is sent as. *)
Definition header_of (key : string) : option string :=
  let name := if compatible then MetadataHeaderPrefix +:+ key else key in
  if decide (ToLower name ∈ transport_headers) then None else Some (CanonicalMIMEHeaderKey (TrimPrefix name "x-frame-outgoing")).
Definition trailer_of (key : string) : string := CanonicalMIMEHeaderKey (MetadataTrailerPrefix +:+ key).
(** The values under the name [K]: of a result with the metadata, of a result without, of an error. *)
Definition bare (w : ResponseWriter) (K : string) : list string := if decide (K = "Content-Type") then [ContentType] else values (live w) K.
Definition with_metadata (w : ResponseWriter) (md tr tr' : MD) (K : string) : list string :=
  bare w K ++
  (md ≫= fun kv => if is_wish kv then [] else if decide (header_of kv.1 = Some K) then kv.2 else []) ++
  (tr ≫= fun kv => if decide (K = "Trailer" /\ ToLower (trailer_of kv.1) ∉ transport_headers) then [trailer_of kv.1] else []) ++
  (tr' ≫= fun kv => if decide (ToLower kv.1 ∉ transport_headers /\ trailer_of kv.1 = K) then kv.2 else []).
Definition of_error (w : ResponseWriter) (K : string) : list string :=
  if decide (K = "Content-Type") then ["application/json"] else if decide (K = "Trailer") then [] else values (live w) K.

(** The statuses, by what can be done with them. *)
Definition ahead (code : Z) : Prop := (100 <= code <= 199 /\ code <> 101)%Z.
Definition final (code : Z) : Prop := (code = 101 \/ 200 <= code <= 999)%Z.
Definition bodiless (code : Z) : Prop := (code = 101 \/ code = 204 \/ code = 304)%Z.

Lemma transport_headers_eq : http2_headers = transport_headers.
Proof. vm_compute. reflexivity. Qed.
Lemma informational_ahead code : informational code = true <-> ahead code.
Proof. unfold informational, ahead. rewrite !andb_true_iff, negb_true_iff, Z.eqb_neq, !Z.leb_le. lia. Qed.

Lemma WriteHeader_fresh w code : sent w = None -> final code -> WriteHeader w code = Ok (mkWriter (live w) (Some (code, live w)) (body w) (informed w)).
Proof.
  intros Hw Hc. unfold WriteHeader, final in *. rewrite Hw. rewrite (proj2 (Z.ltb_ge code 100)), (proj2 (Z.ltb_ge 999 code)) by lia. cbn [orb].
  destruct (informational code) eqn:E; [|done]. apply informational_ahead in E. unfold ahead in E. lia.
Qed.
Lemma WriteHeader_ahead w code : sent w = None -> ahead code -> WriteHeader w code = Ok (mkWriter (live w) None (body w) (informed w ++ [(code, live w)])).
Proof.
  intros Hw Hc. unfold WriteHeader. rewrite Hw, (proj2 (informational_ahead code)) by done. unfold ahead in Hc.
  by rewrite (proj2 (Z.ltb_ge code 100)), (proj2 (Z.ltb_ge 999 code)) by lia.
Qed.
Lemma WriteHeader_again w p code : sent w = Some p -> WriteHeader w code = Ok w.
Proof. intros Hw. unfold WriteHeader. by rewrite Hw. Qed.
Lemma WriteHeader_bad w code : sent w = None -> ~ ahead code -> ~ final code -> WriteHeader w code = Panic "invalid WriteHeader code".
Proof.
  unfold ahead, final. intros Hw Ha Hf. unfold WriteHeader. rewrite Hw. destruct (Z.ltb_spec code 100), (Z.ltb_spec 999 code); cbn; try done. lia.
Qed.
(** What a body adds. *)
Definition written (status : Z) (data : string) : string := if bodyAllowedForStatus status then data else "".
Lemma Write_sent w status h data : sent w = Some (status, h) ->
  Write w data = Ok (mkWriter (live w) (sent w) (body w +:+ written status data) (informed w)).
Proof.
  intros Hw. unfold Write. rewrite (WriteHeader_again _ _ _ Hw). cbn. rewrite Hw. unfold written.
  destruct (bodyAllowedForStatus status); [done|]. rewrite string_app_nil_r. rewrite <- Hw. by destruct w.
Qed.
Lemma Write_fresh w data : sent w = None -> Write w data = Ok (mkWriter (live w) (Some (200%Z, live w)) (body w +:+ data) (informed w)).
Proof. intros Hw. unfold Write. rewrite WriteHeader_fresh by (done || (unfold final; lia)). done. Qed.
Lemma written_final code data : final code -> (bodiless code /\ written code data = "") \/ (~ bodiless code /\ written code data = data).
Proof.
  unfold final, bodiless, written, bodyAllowedForStatus. intros Hc.
  destruct (Z.leb_spec 100 code), (Z.leb_spec code 199), (Z.eqb_spec code 204), (Z.eqb_spec code 304); cbn; (left; split; [lia|done]) || (right; split; [lia|done]).
Qed.

Lemma httpStatus_final c : final (httpStatusFromCode c).
Proof. unfold final. destruct c; cbn; lia. Qed.
Lemma httpStatus_body c : bodyAllowedForStatus (httpStatusFromCode c) = true.
Proof. by destruct c. Qed.
Lemma httpStatus_of c : status_of c (httpStatusFromCode c).
Proof.
  unfold status_of. destruct c; [left; unfold status_table..|right; by eexists];
    repeat first [apply Exists_cons_hd; split; [reflexivity|cbn [snd]; repeat (first [by left|right]); fail]|apply Exists_cons_tl].
Qed.

(** *** The status that is asked for *)

Lemma NoDup_fst_inj {A} (l : list (string * A)) k v v' : NoDup l.*1 -> (k, v) ∈ l -> (k, v') ∈ l -> v = v'.
Proof.
  intros Hn H1 H2. pose proof (elem_of_list_to_map_1 (M := gmap string) l k v Hn H1).
  pose proof (elem_of_list_to_map_1 (M := gmap string) l k v' Hn H2). congruence.
Qed.
Lemma bind_filter_in {A B} (P : A -> Prop) `{forall x, Decision (P x)} (g : A -> bool) (f : A -> list B) (l : list A) :
  (forall x, x ∈ l -> P x <-> g x = false) -> filter P l ≫= f = l ≫= fun x => if g x then [] else f x.
Proof.
  induction l as [|x l IH]; intros Hl; [done|]. pose proof (Hl x (list_elem_of_here x l)) as Hx. rewrite filter_cons. cbn [mbind list_bind].
  change (list_bind A B ?f l) with (l ≫= f). rewrite <- IH by (intros y Hy; apply Hl; by right).
  case_decide as HP; destruct (g x); cbn; try done; exfalso; naive_solver.
Qed.
Lemma asks_unique md code code' : NoDup md.*1 -> asks md code -> asks md code' -> code = code'.
Proof.
  intros Hn (v & vs & Hin & Hv) (v' & vs' & Hin' & Hv'). pose proof (NoDup_fst_inj md _ _ _ Hn Hin Hin') as [= -> ->]. congruence.
Qed.
Lemma wish_asks md kv : kv ∈ md -> is_wish kv = true -> exists code, asks md code.
Proof.
  intros Hin. unfold is_wish. destruct kv as [k [|v vs]]; cbn [fst snd]; [by rewrite andb_false_r|].
  intros [->%bool_decide_eq_true [code Hc]%bool_decide_eq_true]%andb_true_iff. exists code, v, vs. done.
Qed.
Lemma httpCode_spec md : NoDup md.*1 ->
  (asks md (httpCode md).1 \/ ((httpCode md).1 = 0%Z /\ forall code, ~ asks md code)) /\
  forall f : string * list string -> list string, (httpCode md).2 ≫= f = md ≫= fun kv => if is_wish kv then [] else f kv.
Proof.
  intros Hn.
  assert (Hnone : (forall code, ~ asks md code) -> forall f : string * list string -> list string, md ≫= f = md ≫= fun kv => if is_wish kv then [] else f kv).
  { intros Hno f. rewrite <- (bind_filter_in (fun _ => True)); [by rewrite list_filter_all|]. intros kv Hin. split; [|done]. intros _.
    apply not_true_iff_false. intros [code Hc]%(wish_asks md); [|done]. by apply (Hno code). }
  unfold httpCode, customCode. destruct (list_find _ md) as [[i [k vals]]|] eqn:Hf; cbn [fmap option_fmap option_map compose snd].
  - apply list_find_Some in Hf as (Hi%list_elem_of_lookup_2 & Hk & _). cbn [fst] in Hk. subst k.
    assert (Hown : forall code, asks md code -> exists v vs, vals = v :: vs /\ Value.Value.ParseInt 64 v = Some code).
    { intros code (v & vs & Hin & Hv). exists v, vs. split; [exact (NoDup_fst_inj md _ _ _ Hn Hi Hin)|done]. }
    destruct vals as [|v vs]; [|destruct (Value.Value.ParseInt 64 v) as [code|] eqn:Hp; cbn [mbind option_bind default fst snd]].
    + assert (forall code, ~ asks md code) by (intros code (v & vs & [=] & _)%Hown). split; [by right|by apply Hnone].
    + split; [left; by exists v, vs|]. intros f. apply bind_filter_in. intros [k vals] Hin. cbn [fst]. unfold is_wish. cbn [fst snd].
      destruct (decide (k = "x-http-code")) as [->|Hk].
      * rewrite (NoDup_fst_inj md _ _ _ Hn Hin Hi), Hp, !bool_decide_eq_true_2 by done. by split; [intros []|].
      * by rewrite bool_decide_eq_false_2 by done.
    + assert (forall code, ~ asks md code) by (intros code (v1 & vs1 & [= <- <-] & ?)%Hown; congruence). split; [by right|by apply Hnone].
  - assert (forall code, ~ asks md code) as Hno; [|cbn; split; [by right|by apply Hnone]].
    intros code (v & vs & Hin & _). apply list_find_None in Hf. rewrite Forall_forall in Hf. by apply (Hf _ Hin).
Qed.

(** *** What is written *)

Lemma values_Set h k v K : values (Header_Set h k v) K = if decide (CanonicalMIMEHeaderKey k = K) then [v] else values h K.
Proof. unfold values, Header_Set. rewrite lookup_insert_case. by case_decide. Qed.
Lemma values_Del h k K : values (Header_Del h k) K = if decide (CanonicalMIMEHeaderKey k = K) then [] else values h K.
Proof. unfold values, Header_Del. case_decide as Hk; [subst; by rewrite lookup_delete_eq|by rewrite lookup_delete_ne]. Qed.
Lemma metadata_values w md tr tr' K : NoDup md.*1 ->
  values (writeResponseTrailer MetadataTrailerPrefix (writeResponseHeader MetadataHeaderPrefix (Header_Set (live w) "Content-Type" ContentType) (httpCode md).2 compatible) tr tr') K =
  with_metadata w md tr tr' K.
Proof.
  intros Hn. unfold with_metadata. rewrite (proj2 (response_headers MetadataHeaderPrefix MetadataTrailerPrefix _ md compatible tr tr' K)).
  rewrite (proj1 (response_headers MetadataHeaderPrefix MetadataTrailerPrefix _ _ compatible tr tr' K)).
  rewrite (proj2 (httpCode_spec md Hn)), values_Set, <- app_assoc. unfold bare, header_of, trailer_of, sent_header, sent_trailer, announced, responseHeaderKey, isHttp2Header.
  rewrite transport_headers_eq. generalize transport_headers as th. intros th. f_equal; [|f_equal; [|f_equal]].
  - change (CanonicalMIMEHeaderKey "Content-Type") with "Content-Type". repeat case_decide; by subst.
  - apply list_bind_ext; [|done]. intros kv. destruct (is_wish kv); [done|].
    destruct (decide (ToLower (if compatible then _ else _) ∈ th)) as [Hth|Hth].
    + rewrite bool_decide_eq_true_2 by done. by rewrite decide_False by done.
    + rewrite bool_decide_eq_false_2 by done. done.
  - destruct (decide (K = "Trailer")) as [->|HK].
    + induction tr as [|kv tr IH]; [done|]. cbn [omap list_omap mbind list_bind]. rewrite IH.
      destruct (decide (ToLower (CanonicalMIMEHeaderKey (MetadataTrailerPrefix +:+ kv.1)) ∈ th)) as [Hth|Hth].
      * rewrite bool_decide_eq_true_2, decide_False by (done || by intros []). done.
      * rewrite bool_decide_eq_false_2, decide_True by done. done.
    + induction tr as [|kv tr IH]; [done|]. cbn. rewrite <- IH. rewrite decide_False; [done|]. by intros [].
  - apply list_bind_ext; [|done]. intros kv.
    destruct (decide (ToLower kv.1 ∈ th)) as [Hth|Hth].
    + rewrite bool_decide_eq_true_2, !decide_False by (done || by intros []). done.
    + rewrite bool_decide_eq_false_2 by done. repeat case_decide; naive_solver.
Qed.
Lemma error_values w K : values (Header_Del (Header_Set (live w) "Content-Type" "application/json") "Trailer") K = of_error w K.
Proof.
  rewrite values_Del, values_Set. change (CanonicalMIMEHeaderKey "Trailer") with "Trailer". change (CanonicalMIMEHeaderKey "Content-Type") with "Content-Type".
  unfold of_error. repeat case_decide; subst; done.
Qed.
Lemma bare_values w K : values (Header_Set (live w) "Content-Type" ContentType) K = bare w K.
Proof. rewrite values_Set. change (CanonicalMIMEHeaderKey "Content-Type") with "Content-Type". unfold bare. repeat case_decide; by subst. Qed.

(** *** The answers *)

(** An error that no status is asked for. *)
Definition error_answer (w : ResponseWriter) (e : error) (w' : ResponseWriter) : Prop :=
  let '(c, m, ds) := match e with Status c m ds => (c, m, ds) | Plain m => (Unknown, m, []) end in
  exists h status, sent w' = Some (status, h) /\ (forall K, values h K = of_error w K) /\ informed w' = informed w /\
    match MarshalStatus c m ds with
    | Some b => status_of c status /\ body w' = body w +:+ b
    | None => status = 500%Z /\ body w' = body w +:+ fallback
    end.
(** No status is asked for. *)
Definition plain_answer (w : ResponseWriter) (answer : error + string) (md tr tr' : MD) (w' : ResponseWriter) : Prop :=
  match answer with
  | inr b => exists h, sent w' = Some (200%Z, h) /\ (forall K, values h K = with_metadata w md tr tr' K) /\ body w' = body w +:+ b /\ informed w' = informed w
  | inl e => error_answer w e w'
  end.
(** A final status is asked for. *)
Definition final_answer (w : ResponseWriter) (code : Z) (answer : error + string) (w' : ResponseWriter) : Prop :=
  exists h, sent w' = Some (code, h) /\ informed w' = informed w /\
    match answer with
    | inr b => (forall K, values h K = bare w K) /\ (bodiless code -> body w' = body w) /\ (~ bodiless code -> body w' = body w +:+ b)
    | inl _ => (forall K, values h K = of_error w K) /\ body w' = body w
    end.
(** An informational status is asked for. *)
Definition ahead_answer (w : ResponseWriter) (code : Z) (answer : error + string) (md tr tr' : MD) (w' : ResponseWriter) : Prop :=
  exists h, informed w' = informed w ++ [(code, h)] /\
    match answer with
    | inr b => (forall K, values h K = bare w K) /\ exists h', sent w' = Some (200%Z, h') /\ (forall K, values h' K = with_metadata w md tr tr' K) /\ body w' = body w +:+ b
    | inl _ => (forall K, values h K = of_error w K) /\ sent w' = None /\ body w' = body w
    end.

(** The handler of errors, of which the content type may be set already. *)
Lemma of_error_set w K : of_error (set_live w (Header_Set (live w) "Content-Type" ContentType)) K = of_error w K.
Proof.
  unfold of_error. cbn [live set_live]. rewrite values_Set. change (CanonicalMIMEHeaderKey "Content-Type") with "Content-Type".
  repeat case_decide; by subst.
Qed.
Lemma error_handled code e w : sent w = None ->
  (code = 0%Z -> exists w', httpErrorHandler code w e = Ok w' /\ error_answer w e w') /\
  (code <> 0%Z -> final code -> exists w', httpErrorHandler code w e = Ok w' /\ final_answer w code (inl e) w') /\
  (code <> 0%Z -> ahead code -> forall md tr tr', exists w', httpErrorHandler code w e = Ok w' /\ ahead_answer w code (inl e) md tr tr' w') /\
  (code <> 0%Z -> ~ final code -> ~ ahead code -> exists why, httpErrorHandler code w e = Panic why).
Proof.
  intros Hw. unfold httpErrorHandler. split; [|split; [|split]].
  - intros ->. cbn [Z.eqb]. unfold error_answer, FromError. destruct (match e with Status c m ds => _ | Plain m => _ end) as [[c m] ds].
    destruct (MarshalStatus c m ds) as [b|].
    + rewrite WriteHeader_fresh by (done || apply httpStatus_final). cbn [mbind gores_bind]. erewrite Write_sent by done. unfold written. rewrite httpStatus_body.
      eexists. split; [done|]. eexists _, _. split; [done|]. split; [apply error_values|]. split; [done|]. split; [apply httpStatus_of|done].
    + rewrite WriteHeader_fresh by (done || (unfold final; lia)). cbn [mbind gores_bind]. erewrite Write_sent by done.
      eexists. split; [done|]. eexists _, _. split; [done|]. split; [apply error_values|]. done.
  - intros H0 Hc. rewrite (proj2 (Z.eqb_neq code 0)) by done. rewrite WriteHeader_fresh by done.
    eexists. split; [done|]. eexists. split; [done|]. split; [done|]. split; [apply error_values|done].
  - intros H0 Hc md tr tr'. rewrite (proj2 (Z.eqb_neq code 0)) by done. rewrite WriteHeader_ahead by done.
    eexists. split; [done|]. eexists. split; [done|]. split; [apply error_values|done].
  - intros H0 Hf Ha. rewrite (proj2 (Z.eqb_neq code 0)) by done. rewrite WriteHeader_bad by done. by eexists.
Qed.
Lemma answer_after w e code md tr tr' w' : let w1 := set_live w (Header_Set (live w) "Content-Type" ContentType) in
  (error_answer w1 e w' -> error_answer w e w') /\ (final_answer w1 code (inl e) w' -> final_answer w code (inl e) w') /\
  (ahead_answer w1 code (inl e) md tr tr' w' -> ahead_answer w code (inl e) md tr tr' w').
Proof.
  cbn zeta. unfold error_answer, final_answer, ahead_answer. cbn [sent body informed set_live]. split; [|split].
  - destruct (match e with Status c m ds => _ | Plain m => _ end) as [[c m] ds]. intros (h & st & H1 & H2 & H3). exists h, st.
    split; [done|]. split; [|done]. intros K. by rewrite H2, of_error_set.
  - intros (h & H1 & H2 & H3 & H4). exists h. split; [done|]. split; [done|]. split; [|done]. intros K. by rewrite H3, of_error_set.
  - intros (h & H1 & H2 & H3). exists h. split; [done|]. split; [|done]. intros K. by rewrite H2, of_error_set.
Qed.
(** A result with its text. *)
Lemma result_written code md tr tr' b w : sent w = None -> NoDup md.*1 -> let w1 := set_live w (Header_Set (live w) "Content-Type" ContentType) in
  let sending := (w2 ← (if (code =? 0)%Z then Ok w1 else WriteHeader w1 code);
    let w2 := set_live w2 (writeResponseHeader MetadataHeaderPrefix (live w2) (httpCode md).2 compatible) in
    Write (set_live w2 (writeResponseTrailer MetadataTrailerPrefix (live w2) tr tr')) b) in
  (code = 0%Z -> exists w', sending = Ok w' /\ plain_answer w (inr b) md tr tr' w') /\
  (code <> 0%Z -> final code -> exists w', sending = Ok w' /\ final_answer w code (inr b) w') /\
  (code <> 0%Z -> ahead code -> exists w', sending = Ok w' /\ ahead_answer w code (inr b) md tr tr' w') /\
  (code <> 0%Z -> ~ final code -> ~ ahead code -> exists why, sending = Panic why).
Proof.
  intros Hw Hn. cbn zeta. split; [|split; [|split]].
  - intros ->. cbn [Z.eqb mbind gores_bind]. rewrite Write_fresh by done. eexists. split; [done|]. eexists. split; [done|].
    split; [|done]. intros K. by apply metadata_values.
  - intros H0 Hc. rewrite (proj2 (Z.eqb_neq code 0)) by done. rewrite WriteHeader_fresh by done. cbn [mbind gores_bind].
    rewrite (Write_sent _ code (live (set_live w (Header_Set (live w) "Content-Type" ContentType)))) by done.
    eexists. split; [done|]. eexists. split; [done|]. split; [done|]. split; [apply bare_values|]. cbn [body set_live].
    destruct (written_final code b Hc) as [[Hb ->]|[Hb ->]]; rewrite ?string_app_nil_r; done.
  - intros H0 Hc. rewrite (proj2 (Z.eqb_neq code 0)) by done. rewrite WriteHeader_ahead by done. cbn [mbind gores_bind].
    rewrite Write_fresh by done. eexists. split; [done|]. eexists. split; [done|]. split; [apply bare_values|]. eexists. split; [done|].
    split; [|done]. intros K. by apply metadata_values.
  - intros H0 Hf Ha. rewrite (proj2 (Z.eqb_neq code 0)) by done. rewrite WriteHeader_bad by done. by eexists.
Qed.

(** C22: The answer to a unary call, for a response to which nothing was written.  A status is
    asked for by metadata under [x-http-code] whose first value is a number; 0 is none.  A result that
    can be marshalled is the body; an error is sent as JSON.
    - Without a status: the result is sent with 200 and with the metadata (without the wish)
      and the trailers as headers; the error with the status of its code, and its code, message
      and details are the body.
    - With a final status (101, or 200 to 999): it is sent with none of the metadata, with the
      result as the body where the status allows one, and of an error with no body.
    - With another informational status: it is sent ahead; the result follows as without a
      status, and of an error nothing follows.
    - Any other status is a panic. *)
Theorem unary_response result respHeader tr tr' w : sent w = None -> NoDup respHeader.*1 ->
  let answer := match result with inl e => inl e | inr r => match respHandler r with inl e => inl e | inr r => match Marshal r with
          | Some b => inr b | None => inl (Status Internal "http unary invoker marshal grpc response failed" []) end end end in
  let run := unary_Invoke result respHeader tr tr' w in
  ((forall code, asks respHeader code -> code = 0%Z) -> exists w', run = Ok w' /\ plain_answer w answer respHeader tr tr' w') /\
  forall code, asks respHeader code -> code <> 0%Z ->
    (final code -> exists w', run = Ok w' /\ final_answer w code answer w') /\
    (ahead code -> exists w', run = Ok w' /\ ahead_answer w code answer respHeader tr tr' w') /\
    (~ final code -> ~ ahead code -> exists why, run = Panic why).
Proof.
  intros Hw Hn. cbn zeta. destruct (httpCode_spec respHeader Hn) as [Hcode _].
  assert (Hz : (forall code, asks respHeader code -> code = 0%Z) -> (httpCode respHeader).1 = 0%Z) by (intros Ha; destruct Hcode as [Hc|[Hc _]]; auto).
  assert (Hs : forall code, asks respHeader code -> (httpCode respHeader).1 = code).
  { intros code Ha. destruct Hcode as [Hc|[_ Hno]]; [by eapply asks_unique|by destruct (Hno code)]. }
  unfold unary_Invoke.
  assert (Herr : forall e, let run := httpErrorHandler (httpCode respHeader).1 w e in
    ((forall code, asks respHeader code -> code = 0%Z) -> exists w', run = Ok w' /\ error_answer w e w') /\
    forall code, asks respHeader code -> code <> 0%Z -> (final code -> exists w', run = Ok w' /\ final_answer w code (inl e) w') /\
      (ahead code -> exists w', run = Ok w' /\ ahead_answer w code (inl e) respHeader tr tr' w') /\ (~ final code -> ~ ahead code -> exists why, run = Panic why)).
  { intros e. cbn zeta. split; [intros Ha; by apply error_handled, Hz|]. intros code Ha H0. rewrite (Hs code Ha).
    destruct (error_handled code e w Hw) as (_ & H1 & H2 & H3). split; [auto|]. split; [intros; by apply H2|auto]. }
  destruct result as [e|r]; [apply Herr|]. destruct (respHandler r) as [e|r']; [apply Herr|].
  destruct (Marshal r') as [b|].
  - destruct (httpCode respHeader) as [code md] eqn:E. cbn [fst] in Hz, Hs. pose proof (result_written code respHeader tr tr' b w Hw Hn) as Hrun.
    rewrite E in Hrun. cbn [snd] in Hrun. destruct Hrun as (H1 & H2 & H3 & H4). split; [auto|]. intros code' Ha H0. rewrite <- (Hs code' Ha) in *. auto.
  - set (w1 := set_live w _). set (e := Status Internal _ _). destruct (error_handled (httpCode respHeader).1 e w1 Hw) as (H1 & H2 & H3 & H4). split.
    + intros Ha. destruct (H1 (Hz Ha)) as (w' & Hr & Hw'). exists w'. split; [done|]. by apply (answer_after w e 0%Z respHeader tr tr').
    + intros code Ha H0. rewrite (Hs code Ha) in *. split; [|split; [|auto]]; intros Hc.
      * destruct (H2 H0 Hc) as (w' & Hr & Hw'). exists w'. split; [done|]. by apply (answer_after w e code respHeader tr tr').
      * destruct (H3 H0 Hc respHeader tr tr') as (w' & Hr & Hw'). exists w'. split; [done|]. by apply (answer_after w e code respHeader tr tr').
Qed.

(** ** What the client gets of a stream *)

Definition line : string := String "010" "".
(** The line of a message. *)
Definition chunk (m : Resp) : option string := match respHandler m with inl _ => None | inr m => (fun b => b +:+ line) <$> MarshalChunk m end.
Definition all_chunks (l : list string) : string := foldr (fun a b => a +:+ b) "" l.
(** How a stream ends: not yet, at its end, or with an error. *)
Definition fin := option (option error).
Definition fin_msgs (f : fin) : list recv := match f with None => [] | Some None => [REof] | Some (Some e) => [RErr e] end.
Definition fin_body (custom : bool) (f : fin) : string :=
  match f with
  | Some (Some e) => let '(c, m, ds) := FromError e in if custom then "" else default "" (MarshalError c (httpStatusFromCode c) m ds)
  | _ => ""
  end.

Lemma loop_rest hdr custom ms f : forall w status h outs, sent w = Some (status, h) -> bodyAllowedForStatus status = true -> mapM chunk ms = Some outs ->
  stream_loop hdr true custom ((RMsg <$> ms) ++ fin_msgs f) w = Ok (mkWriter (live w) (sent w) (body w +:+ all_chunks outs +:+ fin_body custom f) (informed w)).
Proof.
  induction ms as [|m ms IH]; intros w status h outs Hw Hb Houts.
  - injection Houts as <-. cbn [app fmap list_fmap all_chunks foldr]. destruct f as [[e|]|]; cbn [fin_msgs stream_loop mbind gores_bind fin_body].
    + unfold handleStreamErrorResponse. destruct (FromError e) as [[c msg] ds]. cbn [orb mbind gores_bind]. destruct custom.
      * change ("" +:+ "") with "". rewrite string_app_nil_r. by destruct w.
      * destruct (MarshalError c _ msg ds) as [buf|]; cbn; [|rewrite string_app_nil_r; by destruct w].
        rewrite (Write_sent _ status h) by done. unfold written. by rewrite Hb.
    + change ("" +:+ "") with "". rewrite string_app_nil_r. by destruct w.
    + change ("" +:+ "") with "". rewrite string_app_nil_r. by destruct w.
  - cbn [mapM] in Houts. apply bind_Some in Houts as (o & Ho & Houts). apply bind_Some in Houts as (os & Hos & [= <-]).
    cbn [fmap list_fmap app stream_loop mbind gores_bind]. unfold chunk in Ho. destruct (respHandler m) as [e|m']; [done|].
    apply fmap_Some in Ho as (b & Hb' & ->). rewrite Hb'. rewrite (Write_sent _ status h) by done. cbn [mbind gores_bind].
    rewrite (Write_sent _ status h) by done. cbn [mbind gores_bind]. cbn [sent live body]. unfold written. rewrite Hb.
    rewrite (IH _ status h os) by done. cbn [sent live body all_chunks foldr]. fold (all_chunks os). unfold line. by rewrite !string_app_assoc.
Qed.

(** The header and the status that a stream starts with. *)
Definition custom_of (hdr : option MD) : option (Z * MD) := hdr ≫= customCode.
Definition started (hdr : option MD) (h : Header) : Header :=
  match hdr, custom_of hdr with
  | Some md, None => writeResponseHeader MetadataHeaderPrefix h md compatible
  | _, _ => h
  end.
Definition stream_status (hdr : option MD) (default_status : Z) : Z := match custom_of hdr with Some (c, _) => c | None => default_status end.

Lemma first_header_ok hdr w : sent w = None -> from_option (fun p => final p.1) True (custom_of hdr) ->
  exists w', first_header hdr w = Ok (w', bool_decide (is_Some (custom_of hdr))) /\ body w' = body w /\
    match custom_of hdr with
    | Some (c, _) => sent w' = Some (c, live w)
    | None => sent w' = None /\ live w' = started hdr (live w)
    end.
Proof.
  intros Hw Hc. unfold first_header, started, custom_of in *. destruct hdr as [md|]; cbn [mbind option_bind] in *; [|by eexists].
  destruct (customCode md) as [[c md']|]; cbn in Hc |- *; [|by eexists].
  rewrite WriteHeader_fresh by done. cbn. by eexists.
Qed.

(** The answer to a stream whose messages can be marshalled.  The body is a line for each
    message, in order, and then the error with which the stream ends, if it does.  The status
    is the one that the metadata asks for; else 200 after a message and the one of the error
    without; a stream that ends without a message sends nothing.  The metadata is in the
    headers only when it asks for no status; and when it asks for one, the error at the end is
    not in the body. *)
Theorem stream_response hdr ms f w outs : sent w = None -> mapM chunk ms = Some outs ->
  from_option (fun p => final p.1 /\ bodyAllowedForStatus p.1 = true) True (custom_of hdr) ->
  exists w', stream_loop hdr false false ((RMsg <$> ms) ++ fin_msgs f) w = Ok w' /\
    body w' = body w +:+ all_chunks outs +:+ fin_body (bool_decide (is_Some (custom_of hdr))) f /\
    sent w' =
      match ms, f with
      | [], Some (Some e) => Some (stream_status hdr (httpStatusFromCode (FromError e).1.1), started hdr (live w))
      | [], _ => None
      | _, _ => Some (stream_status hdr 200, started hdr (live w))
      end.
Proof.
  intros Hw Houts Hc. destruct (first_header_ok hdr w Hw) as (w1 & Hfirst & Hb1 & Hw1); [by destruct (custom_of hdr) as [[]|]; [destruct Hc|]|].
  assert (forall c md, custom_of hdr = Some (c, md) -> started hdr (live w) = live w) as Hst by (intros c md E; unfold started; destruct hdr; [by rewrite E|done]).
  unfold stream_status. destruct ms as [|m ms].
  - injection Houts as <-. destruct f as [[e|]|]; cbn [fmap list_fmap app fin_msgs stream_loop all_chunks foldr fin_body].
    + rewrite Hfirst. cbn [mbind gores_bind]. unfold handleStreamErrorResponse. destruct (FromError e) as [[c msg] ds]. cbn [fst].
      destruct (custom_of hdr) as [[c0 md0]|] eqn:Ec.
      * rewrite bool_decide_eq_true_2 by done. cbn. exists w1. rewrite (Hst c0 md0), Hb1, string_app_nil_r by done. done.
      * rewrite bool_decide_eq_false_2 by by intros [? [=]]. destruct Hw1 as [Hw1 Hl1].
        cbn [orb]. rewrite WriteHeader_fresh by (done || apply httpStatus_final). cbn [mbind gores_bind].
        destruct (MarshalError c _ msg ds) as [buf|].
        -- rewrite (Write_sent _ (httpStatusFromCode c) (live w1)) by done. unfold written. rewrite httpStatus_body, Hb1, Hl1. by eexists.
        -- eexists. split; [done|]. cbn. by rewrite Hb1, string_app_nil_r, Hl1.
    + exists w. by rewrite !string_app_nil_r.
    + exists w. by rewrite !string_app_nil_r.
  - cbn [mapM] in Houts. apply bind_Some in Houts as (o & Ho & Houts). apply bind_Some in Houts as (os & Hos & [= <-]).
    cbn [fmap list_fmap app stream_loop]. rewrite Hfirst. cbn [mbind gores_bind].
    unfold chunk in Ho. destruct (respHandler m) as [e|m']; [done|]. apply fmap_Some in Ho as (b & Hb' & ->). rewrite Hb'.
    set (status := match custom_of hdr with Some (c, _) => c | None => 200%Z end).
    assert (exists l1, forall x y, (w2 ← Write w1 x; w3 ← Write w2 y; stream_loop hdr true (bool_decide (is_Some (custom_of hdr))) ((RMsg <$> ms) ++ fin_msgs f) w3) =
      Ok (mkWriter l1 (Some (status, started hdr (live w))) (((body w1 +:+ x) +:+ y) +:+ all_chunks os +:+ fin_body (bool_decide (is_Some (custom_of hdr))) f) (informed w1))) as [l1 ->].
    { exists (live w1). intros x y. unfold status. destruct (custom_of hdr) as [[c0 md0]|] eqn:Ec.
      - rewrite (Write_sent w1 c0 (live w)) by done. cbn [mbind gores_bind]. rewrite (Write_sent _ c0 (live w)) by done. cbn [mbind gores_bind].
        rewrite (loop_rest _ _ _ _ _ c0 (live w) os) by (done || apply Hc). cbn [live sent body]. rewrite Hw1, (Hst c0 md0) by done.
        unfold written. destruct Hc as [_ Hc2]. cbn [fst] in Hc2. by rewrite Hc2.
      - destruct Hw1 as [Hw1 Hl1]. rewrite Write_fresh by done. cbn [mbind gores_bind]. rewrite (Write_sent _ 200%Z (live w1)) by done. cbn [mbind gores_bind].
        rewrite (loop_rest _ _ _ _ _ 200%Z (live w1) os) by done. cbn [live sent body]. by rewrite Hl1. }
    eexists. split; [done|]. cbn [sent body all_chunks foldr]. fold (all_chunks os). split; [|by destruct f as [[]|]].
    rewrite Hb1. unfold line. by rewrite !string_app_assoc.
Qed.
End invoker.

(** ** Examples *)

Definition no_marshal_status (_ : Code) (m : string) (_ : list string) : option string := Some m.
Definition no_marshal_error (_ : Code) (_ : Z) (m : string) (_ : list string) : option string := Some m.
Definition fresh : ResponseWriter := mkWriter ∅ None "" [].
Definition example_unary (md : list (string * list string)) : gores ResponseWriter :=
  unary_Invoke "application/json" Some no_marshal_status "Grpc-Metadata-" "Grpc-Trailer-" inr false (inr "ok") md [] [] fresh.
Definition example_stream (md : list (string * list string)) (msgs : list (recv (Resp := string))) : gores ResponseWriter :=
  stream_loop no_marshal_status Some no_marshal_error "Grpc-Metadata-" inr false (Some md) false false msgs fresh.

(** With a status of its own a response loses its metadata. *)
Example status_drops_metadata : example_unary [("x-http-code", ["201"]); ("location-id", ["7"])] =
  Ok (mkWriter {["Content-Type" := ["application/json"]; "Location-Id" := ["7"]]} (Some (201%Z, {["Content-Type" := ["application/json"]]})) "ok" []).
Proof. apply (f_equal (fun x => x)). by vm_compute. Qed.
(** A status that is none is a panic. *)
Example bad_status_panics : exists why, example_unary [("x-http-code", ["42"])] = Panic why.
Proof. by eexists. Qed.
(** With a status of its own the error of a stream is lost. *)
Example stream_error_lost : exists w, example_stream [("x-http-code", ["206"])] [RMsg "a"; RErr (Status Internal "broken" [])] = Ok w /\
  body w = "a" +:+ line /\ fst <$> sent w = Some 206%Z.
Proof. eexists. split; [done|]. by vm_compute. Qed.

Lemma unary_response_witness :
  (exists w', example_unary [("location-id", ["7"])] = Ok w' /\ body w' = "ok" /\ exists h, sent w' = Some (200%Z, h) /\ values h "Location-Id" = ["7"]) /\
  (exists w' h, example_unary [("x-http-code", ["201"])] = Ok w' /\ sent w' = Some (201%Z, h) /\ body w' = "ok").
Proof.
  split.
  - destruct (proj1 (unary_response "application/json" Some no_marshal_status "Grpc-Metadata-" "Grpc-Trailer-" inr false (inr "ok")
      [("location-id", ["7"])] [] [] fresh eq_refl ltac:(apply (bool_decide_eq_true_1 _); vm_compute; reflexivity))) as (w' & H1 & h & H2 & H3 & H4 & _).
    { intros code (v & vs & Hin & _). apply list_elem_of_singleton in Hin. discriminate Hin. }
    exists w'. split; [exact H1|]. split; [exact H4|]. exists h. split; [exact H2|]. rewrite H3. vm_compute. reflexivity.
  - destruct (proj2 (unary_response "application/json" Some no_marshal_status "Grpc-Metadata-" "Grpc-Trailer-" inr false (inr "ok")
      [("x-http-code", ["201"])] [] [] fresh eq_refl ltac:(apply (bool_decide_eq_true_1 _); vm_compute; reflexivity)) 201%Z) as (Hf & _).
    { exists "201", []. split; [by left|vm_compute; reflexivity]. }
    { lia. }
    destruct Hf as (w' & H1 & h & H2 & _ & _ & _ & H3); [unfold final; lia|]. exists w', h. split; [exact H1|]. split; [exact H2|].
    apply H3. unfold bodiless. lia.
Defined.
Lemma stream_response_witness : exists w', example_stream [("x-http-code", ["206"])] [RMsg "a"; RErr (Status Internal "broken" [])] = Ok w' /\ body w' = "a" +:+ line.
Proof.
  destruct (stream_response no_marshal_status Some no_marshal_error "Grpc-Metadata-" inr false (Some [("x-http-code", ["206"])]) ["a"]
    (Some (Some (Status Internal "broken" []))) fresh ["a" +:+ line] eq_refl eq_refl) as (w' & H1 & H2 & _).
  { split; [right; split; vm_compute; discriminate|done]. }
  exists w'. split; [exact H1|]. by rewrite H2.
Defined.

End HttpInvoker.
