(* ===== verification/ControlConfig.v ===== *)
(** * The control plane read from the configuration ([control_plugins/config.go]).

    A plane answers a policy per method, made from the configuration of its service: a setting
    of the method (below the key [<method>.]) wins over one of the service, and a default
    applies where the source has one.  A policy that was made is served again for
    [configUpdateInterval].  Parameters are the map type of [orcaman/concurrent-map] (class
    [ConcurrentMap]), the case conversions of [iancoleman/strcase], the names of gRPC's codes,
    the parsers of floats and durations, and the order in which Go ranges over a set. *)

From Stdlib Require Import SpecFloat.
From S2P Require Import Prelude GoInt GoStrings PrefixTree ConfigImpl Filter Value Control.

Open Scope string_scope.
Open Scope list_scope.

(** [cmap.ConcurrentMap]: what is used of it, and its documented behaviour. *)
Class ConcurrentMap (CM : Type -> Type) := {
  cm_New {V} : CM V;
  cm_Get {V} : CM V -> string -> option V;
  cm_Set {V} : CM V -> string -> V -> CM V
}.
Class ConcurrentMapLaws (CM : Type -> Type) `{ConcurrentMap CM} : Prop := {
  cm_Get_New {V} k : cm_Get (cm_New (V := V)) k = None;
  cm_Get_Set {V} (m : CM V) k k' v : cm_Get (cm_Set m k v) k' = if decide (k = k') then Some v else cm_Get m k'
}.

#[export] Instance gmap_concurrent : ConcurrentMap (gmap string) := {|
  cm_New V := ∅; cm_Get V m k := m !! k; cm_Set V m k v := <[k := v]> m
|}.
#[export] Instance gmap_concurrent_laws : ConcurrentMapLaws (gmap string).
Proof. split; intros; [apply lookup_empty|apply lookup_insert_case]. Qed.

Module ControlConfig.
Import Control.

(** ** Status names *)

Section status.
Context (code_String : Z -> string) (ToSnake ToScreamingSnake ToKebab ToScreamingKebab ToLowerCamel : string -> string).

Definition fillStatusMap (m : gmap string Z) (code : Z) : gmap string Z :=
  foldl (fun m f => <[f (code_String code) := code]> m) m
    [ToLower; ToUpper; ToSnake; ToScreamingSnake; ToKebab; ToScreamingKebab; ToLowerCamel].

(** [codes.OK] to [codes.Unauthenticated], in the order of [init]. *)
Definition statusMap : gmap string Z := foldl fillStatusMap ∅ (Z.of_nat <$> seq 0 17).
End status.

(** ** Keys *)

Definition circuitBreakerPolicyPrefix := "circuit_breaker.".
Definition circuitBreakerEnable := circuitBreakerPolicyPrefix +:+ "enable".
Definition circuitBreakerTimeout := circuitBreakerPolicyPrefix +:+ "timeout".
Definition circuitBreakerMaxConcurrentRequests := circuitBreakerPolicyPrefix +:+ "max_concurrent_requests".
Definition circuitBreakerRequestVolumeThreshold := circuitBreakerPolicyPrefix +:+ "request_volume_threshold".
Definition circuitBreakerSleepWindow := circuitBreakerPolicyPrefix +:+ "sleep_window".
Definition circuitBreakerErrorPercentThreshold := circuitBreakerPolicyPrefix +:+ "error_percent_threshold".
Definition circuitBreakerFailureCodes := circuitBreakerPolicyPrefix +:+ "failure_status_codes".
Definition circuitBreakerFailureStatus := circuitBreakerPolicyPrefix +:+ "failure_status".
Definition circuitBreakerRollingDurationInSec := circuitBreakerPolicyPrefix +:+ "rolling_duration".
Definition rateLimitPolicyPrefix := "rate_limit.".
Definition rateLimitEnable := rateLimitPolicyPrefix +:+ "enable".
Definition rateLimitMaxRequestPerSecond := rateLimitPolicyPrefix +:+ "max_request_per_unit".
Definition rateLimitMaxSendMsgPerSecond := rateLimitPolicyPrefix +:+ "max_send_msg_per_unit".
Definition rateLimitMaxRecvMsgPerSecond := rateLimitPolicyPrefix +:+ "max_recv_msg_per_unit".
Definition rateLimitUnit := rateLimitPolicyPrefix +:+ "unit".
Definition clientSideTimeoutPolicyPrefix := "client_timeout.".
Definition clientSideTimeoutEnable := clientSideTimeoutPolicyPrefix +:+ "enable".
Definition clientSideConnTimeout := clientSideTimeoutPolicyPrefix +:+ "conn_timeout".
Definition clientSideRequestTimeout := clientSideTimeoutPolicyPrefix +:+ "request_timeout".
Definition serverSideTimeoutPolicyPrefix := "server_timeout.".
Definition serverSideTimeoutEnable := serverSideTimeoutPolicyPrefix +:+ "enable".
Definition serverSideRequestTimeout := serverSideTimeoutPolicyPrefix +:+ "request_timeout".
Definition retryPolicyPrefix := "retry.".
Definition retryEnable := retryPolicyPrefix +:+ "enable".
Definition retryNumberOfRetries := retryPolicyPrefix +:+ "num_of_retries".
Definition retryPerTryTimeout := retryPolicyPrefix +:+ "per_try_timeout".
Definition retryRetriableStatus := retryPolicyPrefix +:+ "retriable_status".
Definition retryRetriableCodes := retryPolicyPrefix +:+ "retriable_status_codes".
Definition retryOverlap := retryPolicyPrefix +:+ "overlap".
Definition retryBackoffDuration := retryPolicyPrefix +:+ "backoff_duration".
Definition retryBackoffJitter := retryPolicyPrefix +:+ "backoff_jitter".
Definition retryBackoffExponential := retryPolicyPrefix +:+ "backoff_exponential".

(** 10 seconds. *)
Definition configUpdateInterval : Z := 10 * Second.

(** ** Policies from a configuration *)

Section policies.
Context (statusMap : gmap string Z) (ParseFloat : string -> option float64) (ParseDuration : string -> option Z).
(** The order in which a set of codes is ranged over. *)
Context (range : gset Z -> list Z).
(** The number [0.2]. *)
Context (point2 : float64).

(** The configuration of the service when the policy is made, and the method. *)
Context (cfg : string -> option string) (methodName : string).

Definition withMethod (key : string) : string := methodName +:+ "." +:+ key.

(** [if Has(method key) { read } else if Has(key) { read } else { default }] *)
Definition setting {A} (read : string -> A) (key : string) (dflt : A) : A :=
  if Value.Has cfg (withMethod key) then read (withMethod key)
  else if Value.Has cfg key then read key else dflt.

Definition enabled (key : string) : bool := Value.Bool cfg (withMethod key) || Value.Bool cfg key.

Definition Duration : string -> Z := Value.Duration cfg ParseDuration.

(** The set of codes given by number and by name; [None] without any. *)
Definition code_set (codes names : string) : gset Z :=
  list_to_set (setting (Value.IntList cfg) codes []) ∪
  list_to_set (omap (fun s => statusMap !! s) (setting (Value.StringList cfg) names [])).
Definition code_list (codes names : string) : list Z :=
  let c := code_set codes names in if bool_decide (c = ∅) then [] else range c.

Definition client_timeout_policyFromConfig (now : Z) : ClientTimeoutPolicy :=
  if negb (enabled clientSideTimeoutEnable)
  then mkClientTimeoutPolicy (mkTimeoutPolicy (mkPolicy false now) 0) 0
  else mkClientTimeoutPolicy
    (mkTimeoutPolicy (mkPolicy true now) (setting Duration clientSideRequestTimeout 0%Z))
    (setting Duration clientSideConnTimeout 0%Z).

Definition retry_policyFromConfig (now : Z) : RetryPolicy :=
  if negb (enabled retryEnable)
  then mkRetryPolicy (mkPolicy false now) 0 0 [] false 0 (S754_zero false) false
  else mkRetryPolicy (mkPolicy true now)
    (Z.to_nat (setting (Value.Uint cfg) retryNumberOfRetries 0%Z))
    (setting Duration retryPerTryTimeout 0%Z)
    (code_list retryRetriableCodes retryRetriableStatus)
    (setting (Value.Bool cfg) retryOverlap false)
    (setting Duration retryBackoffDuration 0%Z)
    (setting (Value.Float64 cfg ParseFloat) retryBackoffJitter point2)
    (setting (Value.Bool cfg) retryBackoffExponential true).

Definition server_timeout_policyFromConfig (now : Z) : TimeoutPolicy :=
  if negb (enabled serverSideTimeoutEnable) then mkTimeoutPolicy (mkPolicy false now) 0
  else mkTimeoutPolicy (mkPolicy true now) (setting Duration serverSideRequestTimeout 0%Z).

Definition circuit_policyFromConfig (now : Z) : CircuitBreakerPolicy :=
  if negb (enabled circuitBreakerEnable) then mkCircuitBreakerPolicy (mkPolicy false now) 0 0 0 0 0 [] 0
  else mkCircuitBreakerPolicy (mkPolicy true now)
    (setting Duration circuitBreakerTimeout 0%Z)
    (setting (Value.Int cfg) circuitBreakerMaxConcurrentRequests (-1)%Z)
    (setting (Value.Int cfg) circuitBreakerRequestVolumeThreshold 0%Z)
    (setting Duration circuitBreakerSleepWindow 0%Z)
    (setting (Value.Int cfg) circuitBreakerErrorPercentThreshold 0%Z)
    (code_list circuitBreakerFailureCodes circuitBreakerFailureStatus)
    (setting (Value.Int cfg) circuitBreakerRollingDurationInSec 0%Z).

Definition rate_policyFromConfig (now : Z) : RateLimitPolicy :=
  if negb (enabled rateLimitEnable) then mkRateLimitPolicy (mkPolicy false now) 0 0 0 0
  else mkRateLimitPolicy (mkPolicy true now)
    (setting (Value.Int cfg) rateLimitMaxRequestPerSecond (-1)%Z)
    (setting (Value.Int cfg) rateLimitMaxSendMsgPerSecond (-1)%Z)
    (setting (Value.Int cfg) rateLimitMaxRecvMsgPerSecond (-1)%Z)
    (setting Duration rateLimitUnit Second).

End policies.

(** ** Planes *)

(** How policies are made: the reading of a configuration handle at the time, and the
    parameters above. *)
Record Reader (C : Type) := mkReader {
  read : C -> string -> option string;
  status : gmap string Z;
  r_ParseFloat : string -> option float64;
  r_ParseDuration : string -> option Z;
  range : gset Z -> list Z;
  point2 : float64
}.
Arguments read {C}. Arguments status {C}. Arguments r_ParseFloat {C}. Arguments r_ParseDuration {C}.
Arguments range {C}. Arguments point2 {C}.

Section planes.
Context {CM : Type -> Type} `{ConcurrentMap CM} {C : Type}.

(** [clientConfigControl] and [serverConfigControl]. *)
Record clientConfigControl := mkClientControl {
  c_cfg : C; c_timeoutPolicies : CM ClientTimeoutPolicy; retryPolicies : CM RetryPolicy
}.
Record serverConfigControl := mkServerControl {
  s_cfg : C; circuitBreakerPolicies : CM CircuitBreakerPolicy; rateLimitPolicies : CM RateLimitPolicy;
  s_timeoutPolicies : CM TimeoutPolicy
}.

(** The policy of the map unless it is older than the interval; else a new one, which is put
    into the map.  [now] is the time of the check. *)
Definition cached {P} (version : P -> Z) (policies : CM P) (methodName : string) (now : Z) (made : P) : P * CM P :=
  match cm_Get policies methodName with
  | Some p => if (configUpdateInterval <? now - version p)%Z then (made, cm_Set policies methodName made) else (p, policies)
  | None => (made, cm_Set policies methodName made)
  end.

(** [now] is the time of the check, [now'] that of making a policy. *)
Definition client_TimeoutPolicy (r : Reader C) (s : clientConfigControl) (methodName : string) (now now' : Z)
  : ClientTimeoutPolicy * clientConfigControl :=
  let '(p, m) := cached (fun p => Version (TPolicy (CTTimeout p))) (c_timeoutPolicies s) methodName now
    (client_timeout_policyFromConfig (r_ParseDuration r) (read r (c_cfg s)) methodName now') in
  (p, mkClientControl (c_cfg s) m (retryPolicies s)).

Definition client_RetryPolicy (r : Reader C) (s : clientConfigControl) (methodName : string) (now now' : Z)
  : RetryPolicy * clientConfigControl :=
  let '(p, m) := cached (fun p => Version (RPolicy p)) (retryPolicies s) methodName now
    (retry_policyFromConfig (status r) (r_ParseFloat r) (r_ParseDuration r) (range r) (point2 r)
       (read r (c_cfg s)) methodName now') in
  (p, mkClientControl (c_cfg s) (c_timeoutPolicies s) m).

Definition server_TimeoutPolicy (r : Reader C) (s : serverConfigControl) (methodName : string) (now now' : Z)
  : TimeoutPolicy * serverConfigControl :=
  let '(p, m) := cached (fun p => Version (TPolicy p)) (s_timeoutPolicies s) methodName now
    (server_timeout_policyFromConfig (r_ParseDuration r) (read r (s_cfg s)) methodName now') in
  (p, mkServerControl (s_cfg s) (circuitBreakerPolicies s) (rateLimitPolicies s) m).

Definition server_CircuitBreakerPolicy (r : Reader C) (s : serverConfigControl) (methodName : string) (now now' : Z)
  : CircuitBreakerPolicy * serverConfigControl :=
  let '(p, m) := cached (fun p => Version (CPolicy p)) (circuitBreakerPolicies s) methodName now
    (circuit_policyFromConfig (status r) (r_ParseDuration r) (range r) (read r (s_cfg s)) methodName now') in
  (p, mkServerControl (s_cfg s) m (rateLimitPolicies s) (s_timeoutPolicies s)).

Definition server_RateLimitPolicy (r : Reader C) (s : serverConfigControl) (methodName : string) (now now' : Z)
  : RateLimitPolicy * serverConfigControl :=
  let '(p, m) := cached (fun p => Version (LPolicy p)) (rateLimitPolicies s) methodName now
    (rate_policyFromConfig (r_ParseDuration r) (read r (s_cfg s)) methodName now') in
  (p, mkServerControl (s_cfg s) (circuitBreakerPolicies s) m (s_timeoutPolicies s)).

(** ** The factory *)

(** A plane is shared by pointer; it is named by the service it is stored under. *)
Record configControlFactory := mkFactory {
  serverControlPlanes : gmap string serverConfigControl;
  clientControlPlanes : gmap string clientConfigControl
}.

Definition NewConfigControlFactory : configControlFactory := mkFactory ∅ ∅.

(** [config.WithPrefix]: the configuration handle of a service. *)
Context (WithPrefix : string -> C).

Definition ClientControlPlane (s : configControlFactory) (service : string) : string * configControlFactory :=
  match clientControlPlanes s !! service with
  | Some _ => (service, s)
  | None => (service, mkFactory (serverControlPlanes s)
               (<[service := mkClientControl (WithPrefix service) cm_New cm_New]> (clientControlPlanes s)))
  end.

(** [srv] is a [server.ServiceProvider] with a name and a configuration, which may be nil. *)
Definition ServerControlPlane (s : configControlFactory) (srv : option (string * option C)) (service : string)
  : string * configControlFactory :=
  let '(service, cfg) :=
    match srv with
    | Some (name, Some cfg) => (name, cfg)
    | _ => (service, WithPrefix service)
    end in
  match serverControlPlanes s !! service with
  | Some _ => (service, s)
  | None => (service, mkFactory
               (<[service := mkServerControl cfg cm_New cm_New cm_New]> (serverControlPlanes s)) (clientControlPlanes s))
  end.

End planes.
Arguments clientConfigControl : clear implicits.
Arguments serverConfigControl : clear implicits.

End ControlConfig.
