(* ===== verification/ConfigPolicies.v ===== *)
(** * What policies from the configuration come to.

    The theorems about [ControlConfig], alone and with its neighbours: how settings of a method
    and of its service combine, how old a served policy can be, that the retries of a call
    follow the configuration ([RetryManager], [Scheduler]), and what the layered configuration
    ([ConfigImpl], [Filter]) makes of settings of a service. *)

From Stdlib Require Import Ascii SpecFloat.
From S2P Require Import Prelude GoInt GoStrings PrefixTree ConfigImpl Filter Value TaskQueue Scheduler RetryController.
From S2P Require Import Control RetryManager ControlConfig.

Open Scope string_scope.
Open Scope list_scope.

Module ConfigPolicies.
Import Control ControlConfig.

(** ** Serving policies for a while *)

Section serving.
Context {CM : Type -> Type} `{ConcurrentMapLaws CM} {P : Type} (version : P -> Z).

(** A request: its method, the time of the check and the policy it would make. *)
Record request := mkRequest { r_method : string; r_now : Z; r_made : P }.

Definition serve (m : CM P) (r : request) : P * CM P := cached version m (r_method r) (r_now r) (r_made r).
Definition serve_step (acc : list (request * P) * CM P) (r : request) : list (request * P) * CM P :=
  let '(p, m) := serve acc.2 r in (acc.1 ++ [(r, p)], m).

(** The requests with the policies they got, and the map. *)
Definition serve_all (rs : list request) : list (request * P) * CM P := foldl serve_step ([], cm_New) rs.

(** What is stored was made for the method, and is newer than what was served before, by more
    than the interval. *)
Definition serving_inv (rs : list request) (acc : list (request * P) * CM P) : Prop :=
  (forall k p, cm_Get acc.2 k = Some p -> exists r, r ∈ rs /\ r_method r = k /\ p = r_made r) /\
  (forall r p, (r, p) ∈ acc.1 -> exists q, cm_Get acc.2 (r_method r) = Some q /\
     (p = q \/ (version p + configUpdateInterval < version q)%Z)).

Lemma serve_cases m r :
  (exists p, cm_Get m (r_method r) = Some p /\ (r_now r - version p <= configUpdateInterval)%Z /\ serve m r = (p, m)) \/
  ((forall p, cm_Get m (r_method r) = Some p -> (configUpdateInterval < r_now r - version p)%Z) /\
   serve m r = (r_made r, cm_Set m (r_method r) (r_made r))).
Proof.
  unfold serve, cached. destruct (cm_Get m (r_method r)) as [p|]; [|right; split; [by intros p|done]].
  destruct (Z.ltb_spec configUpdateInterval (r_now r - version p)); [right|left; by exists p].
  split; [|done]. by intros ? [= <-].
Qed.

Lemma serve_stored m r : cm_Get (serve m r).2 (r_method r) = Some (serve m r).1.
Proof.
  destruct (serve_cases m r) as [(p & Hp & _ & ->)|[_ ->]]; [done|]. cbn. rewrite cm_Get_Set. by rewrite decide_True.
Qed.

Lemma serve_newer m r q : (r_now r <= version (r_made r))%Z -> cm_Get m (r_method r) = Some q ->
  q = (serve m r).1 \/ (version q + configUpdateInterval < version (serve m r).1)%Z.
Proof.
  intros Hn Hq. destruct (serve_cases m r) as [(p & Hp & _ & ->)|[Ho ->]]; [left; cbn; congruence|right].
  specialize (Ho q Hq). cbn. lia.
Qed.

Lemma serve_other m r k : r_method r <> k -> cm_Get (serve m r).2 k = cm_Get m k.
Proof.
  intros Hk. destruct (serve_cases m r) as [(p & _ & _ & ->)|[_ ->]]; [done|]. cbn. rewrite cm_Get_Set. by case_decide.
Qed.

Lemma serve_all_inv rs : Forall (fun r => (r_now r <= version (r_made r))%Z) rs -> serving_inv rs (serve_all rs).
Proof.
  induction rs as [|r rs IH] using rev_ind; intros Hc.
  - split; [intros k p; cbn; by rewrite cm_Get_New|]. intros r p Hin. by apply elem_of_nil in Hin.
  - apply Forall_app in Hc as [Hc Hr]. rewrite Forall_singleton in Hr. destruct (IH Hc) as [Hmade Hold].
    unfold serve_all in *. rewrite foldl_snoc. destruct (foldl serve_step ([], cm_New) rs) as [h m]. cbn [fst snd] in *.
    unfold serve_step. cbn [fst snd]. destruct (serve m r) as [p m'] eqn:Es.
    assert (Hp : p = (serve m r).1) by by rewrite Es. assert (Hm' : m' = (serve m r).2) by by rewrite Es.
    split; cbn [fst snd].
    + intros k q Hq. destruct (decide (r_method r = k)) as [<-|Hk].
      * rewrite Hm', serve_stored in Hq. injection Hq as <-.
        destruct (serve_cases m r) as [(q & Hq & _ & E)|[_ E]]; rewrite E; cbn [fst].
        -- destruct (Hmade _ _ Hq) as (r' & ? & ? & ?). exists r'. split_and!; [apply elem_of_app; by left|done..].
        -- exists r. split_and!; [apply elem_of_app; right; by left|done..].
      * rewrite Hm', serve_other in Hq by done. destruct (Hmade _ _ Hq) as (r' & ? & ? & ?).
        exists r'. split_and!; [apply elem_of_app; by left|done..].
    + intros r' q [Hin|Hin]%elem_of_app.
      * destruct (Hold r' q Hin) as (q' & Hq' & Hlt). destruct (decide (r_method r = r_method r')) as [Hk|Hk].
        -- exists p. rewrite <- Hk, Hm', serve_stored, Hp. split; [done|].
           rewrite <- Hk in Hq'. destruct (serve_newer m r q' Hr Hq') as [<-|Hlt']; [done|right].
           destruct Hlt as [->|Hlt]; [done|]. unfold configUpdateInterval, Second, Millisecond in *. lia.
        -- exists q'. by rewrite Hm', serve_other.
      * apply list_elem_of_singleton in Hin as [= -> ->]. exists p. rewrite Hm', serve_stored, Hp. auto.
Qed.

(** The policy of a request after any others. *)
Lemma serve_fresh rs r : Forall (fun r => (r_now r <= version (r_made r))%Z) (rs ++ [r]) ->
  let p := (serve (serve_all rs).2 r).1 in
  (exists r', r' ∈ rs ++ [r] /\ r_method r' = r_method r /\ p = r_made r') /\
  (r_now r - version p <= configUpdateInterval)%Z /\
  (forall r' p', (r', p') ∈ (serve_all rs).1 -> r_method r' = r_method r ->
     p' = p \/ (version p' + configUpdateInterval < version p)%Z).
Proof.
  intros Hc p. apply Forall_app in Hc as [Hc Hr]. rewrite Forall_singleton in Hr.
  destruct (serve_all_inv rs Hc) as [Hmade Hold]. split_and!.
  - unfold p. destruct (serve_cases (serve_all rs).2 r) as [(q & Hq & _ & ->)|[_ ->]]; cbn [fst].
    + destruct (Hmade _ _ Hq) as (r' & ? & ? & ?). exists r'. split_and!; [apply elem_of_app; by left|done..].
    + exists r. split_and!; [apply elem_of_app; right; by left|done..].
  - unfold p. destruct (serve_cases (serve_all rs).2 r) as [(q & _ & Hq & ->)|[_ ->]]; cbn [fst]; [done|].
    unfold configUpdateInterval, Second, Millisecond. lia.
  - intros r' p' Hin Hk. destruct (Hold r' p' Hin) as (q & Hq & Hlt). rewrite Hk in Hq.
    destruct (serve_newer (serve_all rs).2 r q Hr Hq) as [Heq|Hlt'].
    + unfold p. by rewrite <- Heq.
    + right. unfold p. destruct Hlt as [->|Hlt]; [done|]. unfold configUpdateInterval, Second, Millisecond in *. lia.
Qed.

End serving.

(** ** Retries that follow the configuration *)

Section retries.
Context {CM : Type -> Type} `{ConcurrentMapLaws CM} {C : Type} (rnd : float64).

#[local] Instance retry_cached : PolicyCache.CachedPolicy RetryPolicy (string + Scheduler.Options) :=
  RetryManager.RetryPolicy_cached rnd.
#[local] Instance retry_cached_laws : PolicyCache.CachedPolicyLaws RetryPolicy (string + Scheduler.Options) :=
  RetryManager.RetryPolicy_laws rnd.

(** A call of a method: the times of the two clock readings and the configuration then. *)
Record call := mkCall { q_method : string; q_now : Z; q_made : Z; q_reader : Reader C }.

Definition policy_of (cfg : C) (q : call) : RetryPolicy :=
  let r := q_reader q in
  retry_policyFromConfig (status r) (r_ParseFloat r) (r_ParseDuration r) (range r) (point2 r)
    (read r cfg) (q_method q) (q_made q).
Definition call_request (cfg : C) (q : call) : request := mkRequest (q_method q) (q_now q) (policy_of cfg q).

(** The plane and the controllers of the process. *)
Notation process := (clientConfigControl CM C * gmap string (PolicyCache.wrapper RetryPolicy (string + Scheduler.Options)))%type.

(** One call of a method of [service]: the plane gives the policy, [retryHandler] does the rest. *)
Definition call_step (service : string) (s : process) (q : call) : RetryManager.handling * RetryPolicy * process :=
  let '(p, plane) := client_RetryPolicy (q_reader q) s.1 (q_method q) (q_now q) (q_made q) in
  let '(h, _, m) := RetryManager.retryHandler
    (inr (Some (mkClientPlane (fun _ _ => None) (fun _ _ => Some p)))) service (q_method q) ∅ s.2 in
  (h, p, (plane, m)).
Definition calls (service : string) (cfg : C) (qs : list call) : process :=
  foldl (fun s q => (call_step service s q).2) (mkClientControl cfg cm_New cm_New, ∅) qs.

Definition retry_version (p : RetryPolicy) : Z := Version (RPolicy p).
Definition served (cfg : C) (qs : list call) : list (request * RetryPolicy) * CM RetryPolicy :=
  serve_all retry_version (call_request cfg <$> qs).

Lemma served_snoc cfg qs q : served cfg (qs ++ [q]) = serve_step retry_version (served cfg qs) (call_request cfg q).
Proof. unfold served, serve_all. by rewrite fmap_app, foldl_app. Qed.

Lemma call_step_serves (s : process) (q : call) :
  client_RetryPolicy (q_reader q) s.1 (q_method q) (q_now q) (q_made q) =
  let '(p, m) := serve retry_version (retryPolicies s.1) (call_request (c_cfg s.1) q) in
  (p, mkClientControl (c_cfg s.1) (c_timeoutPolicies s.1) m).
Proof. done. Qed.

(** The plane holds what [served] says. *)
Lemma calls_plane service cfg qs :
  c_cfg (calls service cfg qs).1 = cfg /\ retryPolicies (calls service cfg qs).1 = (served cfg qs).2.
Proof.
  induction qs as [|q qs [IHc IHm]] using rev_ind; [done|]. rewrite served_snoc. unfold calls in *. rewrite foldl_snoc.
  set (s := foldl _ _ qs) in *. unfold call_step. rewrite (call_step_serves), IHc, IHm.
  unfold serve_step. destruct (serve retry_version (served cfg qs).2 (call_request cfg q)) as [p m].
  destruct (RetryManager.retryHandler _ _ _ _ _) as [[h ls] cs]. done.
Qed.

(** The policies that calls of [service] have come with, as the manager sees them. *)
Definition known (service : string) (cfg : C) (qs : list call) (n : string) (p : RetryPolicy) : Prop :=
  exists r p', (r, p') ∈ (served cfg qs).1 /\ n = service +:+ "/" +:+ r_method r /\ p = retry_defaults p'.

Lemma known_mono service cfg qs q n p : known service cfg qs n p -> known service cfg (qs ++ [q]) n p.
Proof.
  intros (r & p' & Hin & Hn & Hp). exists r, p'. split_and!; [|done..]. rewrite served_snoc. unfold serve_step.
  destruct (serve _ _ _). apply elem_of_app. by left.
Qed.

Lemma known_last service cfg qs q :
  known service cfg (qs ++ [q]) (service +:+ "/" +:+ q_method q)
    (retry_defaults (serve retry_version (served cfg qs).2 (call_request cfg q)).1).
Proof.
  exists (call_request cfg q), (serve retry_version (served cfg qs).2 (call_request cfg q)).1.
  split_and!; [|done..]. rewrite served_snoc. unfold serve_step. destruct (serve _ _ _). apply elem_of_app. right. by left.
Qed.

Lemma retry_defaults_version p : retry_version (retry_defaults p) = retry_version p.
Proof. unfold retry_defaults. destruct (negb _); [done|]. by destruct (_ <=? _)%nat. Qed.

Definition clock_ok (qs : list call) : Prop := Forall (fun q => (q_now q <= q_made q)%Z) qs.

Lemma policy_of_version cfg q : retry_version (policy_of cfg q) = q_made q.
Proof. unfold policy_of, retry_policyFromConfig. by destruct (negb _). Qed.

Lemma clock_requests cfg qs : clock_ok qs ->
  Forall (fun r => (r_now r <= retry_version (r_made r))%Z) (call_request cfg <$> qs).
Proof. intros Hc. apply Forall_fmap. eapply Forall_impl; [exact Hc|]. intros q Hq. cbn. by rewrite policy_of_version. Qed.

(** Versions identify policies: of two policies served for a method, one was made more than
    the interval after the other, or they are the same. *)
Lemma served_versions cfg qs : clock_ok qs ->
  forall i j r p r' p', (served cfg qs).1 !! i = Some (r, p) -> (served cfg qs).1 !! j = Some (r', p') -> i <= j ->
    r_method r = r_method r' -> p = p' \/ (retry_version p + configUpdateInterval < retry_version p')%Z.
Proof.
  induction qs as [|q qs IH] using rev_ind; intros Hc i j r p r' p' Hi Hj Hij Hm; [done|].
  apply Forall_app in Hc as [Hc Hq]. rewrite served_snoc in Hi, Hj.
  pose proof (serve_fresh retry_version (call_request cfg <$> qs) (call_request cfg q)) as Hf.
  fold (served cfg qs) in Hf. unfold serve_step in Hi, Hj.
  destruct (serve retry_version (served cfg qs).2 (call_request cfg q)) as [pn mn]. cbn [fst snd] in *.
  apply lookup_app_Some in Hj as [Hj|[Hlj Hj]].
  - assert (Hi' : (served cfg qs).1 !! i = Some (r, p)).
    { apply lookup_app_Some in Hi as [?|[Hli _]]; [done|]. apply lookup_lt_Some in Hj. lia. }
    by apply (IH Hc i j r p r' p').
  - apply list_lookup_singleton_Some in Hj as [Hj [= <- <-]].
    apply lookup_app_Some in Hi as [Hi|[Hli Hi]].
    + destruct Hf as (_ & _ & Hf).
      { apply Forall_app. split; [by apply clock_requests|]. apply Forall_singleton. cbn. rewrite policy_of_version.
        by rewrite Forall_singleton in Hq. }
      apply (Hf r p); [by eapply list_elem_of_lookup_2|done].
    + apply list_lookup_singleton_Some in Hi as [_ [= _ <-]]. by left.
Qed.

Lemma known_versions service cfg qs : clock_ok qs -> forall n p q,
  known service cfg qs n p -> known service cfg qs n q -> retry_version p = retry_version q -> p = q.
Proof.
  intros Hc n p q (r & p' & Hp & Hn & ->) (r' & q' & Hq & Hn' & ->) Hv. rewrite !retry_defaults_version in Hv.
  assert (Hm : r_method r = r_method r') by (rewrite Hn in Hn'; by apply string_app_inj_l, string_app_inj_l in Hn').
  apply list_elem_of_lookup in Hp as [i Hi]. apply list_elem_of_lookup in Hq as [j Hj].
  assert (Hpos : (0 < configUpdateInterval)%Z) by done.
  destruct (decide (i <= j)) as [Hij|Hij].
  - destruct (served_versions cfg qs Hc i j _ _ _ _ Hi Hj Hij Hm) as [->|]; [done|lia].
  - destruct (served_versions cfg qs Hc j i _ _ _ _ Hj Hi ltac:(lia) (eq_sym Hm)) as [->|]; [done|lia].
Qed.

Lemma cache_step_mono (K K' : string -> RetryPolicy -> Prop) m m' :
  (forall n p, K n p -> K' n p) ->
  rtc (PolicyCache.cache_step K) m m' ->
  rtc (PolicyCache.cache_step K') m m'.
Proof.
  intros HK. apply rtc_subrel. intros x y [? n p Hk|? n w r Hw Hr]; [constructor; by apply HK|by econstructor].
Qed.

(** The controllers of the process come from the policies of its calls. *)
Lemma calls_controllers service cfg qs :
  rtc (PolicyCache.cache_step (known service cfg qs)) ∅ (calls service cfg qs).2.
Proof.
  induction qs as [|q qs IH] using rev_ind; [constructor|].
  etrans; [eapply cache_step_mono, IH; intros; by apply known_mono|].
  pose proof (known_last service cfg qs q) as Hk. destruct (calls_plane service cfg qs) as [Hc Hm].
  unfold calls in *. rewrite foldl_snoc. set (s := foldl _ _ qs) in *. unfold call_step.
  rewrite (call_step_serves s), Hc, Hm.
  destruct (serve retry_version (served cfg qs).2 (call_request cfg q)) as [p m]. cbn [fst snd] in Hk.
  unfold RetryManager.retryHandler. cbn [Control.client_RetryPolicy cp_RetryPolicy].
  destruct (negb (Enabled (RPolicy (retry_defaults p)))); [constructor|].
  pose proof (PolicyCache.cache_request _ s.2 _ _ Hk) as Hstep.
  destruct (PolicyCache.WithPolicy s.2 _ _) as [m' c]. by apply rtc_once.
Qed.

(** C9: the retries of a call follow the configuration.  Whatever calls of a service came
    before, with whatever configurations at their times, a call is handled by the policy that
    the configuration of its method gave at most [configUpdateInterval] before the call: it
    goes straight to its handler if that policy (with the defaults filled in) is disabled;
    otherwise a controller exists (no panic) that makes, in every interleaving, at most
    [NumOfRetries + 1] attempts, of which only one at a time is valid unless the policy allows
    overlap. *)
Theorem retry_follows_config (service : string) (cfg : C) (qs : list call) (q : call) :
  clock_ok (qs ++ [q]) ->
  let '(h, p, _) := call_step service (calls service cfg qs) q in
  (exists q', q' ∈ qs ++ [q] /\ q_method q' = q_method q /\ p = policy_of cfg q' /\
     (q_now q - q_made q' <= configUpdateInterval)%Z) /\
  match h with
  | RetryManager.CallDirectly => Enabled (RPolicy (retry_defaults p)) = false
  | RetryManager.Retries c codes =>
      codes = RetriableStatusCodes (retry_defaults p) /\
      exists o, c = inr o /\ forall s, Scheduler.reachable o s ->
        Scheduler.nextId s <= S (NumOfRetries p) /\ (Overlap p = false -> TaskQueue.TaskCount (Scheduler.queue s) <= 1)
  end.
Proof.
  intros Hclock. pose proof (calls_controllers service cfg qs) as Hctl.
  pose proof (known_last service cfg qs q) as Hk. destruct (calls_plane service cfg qs) as [Hc Hm].
  set (s := calls service cfg qs) in *. unfold call_step. rewrite (call_step_serves s), Hc, Hm.
  destruct (serve_fresh retry_version (call_request cfg <$> qs) (call_request cfg q)) as (Hmade & Hage & _).
  { replace ((call_request cfg <$> qs) ++ [call_request cfg q]) with (call_request cfg <$> (qs ++ [q])) by by rewrite fmap_app.
    by apply clock_requests. }
  fold (served cfg qs) in Hmade, Hage.
  destruct (serve retry_version (served cfg qs).2 (call_request cfg q)) as [p m]. cbn [fst snd] in *.
  assert (Hfirst : exists q', q' ∈ qs ++ [q] /\ q_method q' = q_method q /\ p = policy_of cfg q' /\
     (q_now q - q_made q' <= configUpdateInterval)%Z).
  { destruct Hmade as (r' & Hr' & Hme & ->).
    replace ((call_request cfg <$> qs) ++ [call_request cfg q]) with (call_request cfg <$> (qs ++ [q])) in Hr' by by rewrite fmap_app.
    apply list_elem_of_fmap in Hr' as (q' & -> & Hq'). exists q'. split_and!; [done..|].
    cbn in Hage. by rewrite policy_of_version in Hage. }
  unfold RetryManager.retryHandler. cbn [Control.client_RetryPolicy cp_RetryPolicy].
  destruct (Enabled (RPolicy (retry_defaults p))) eqn:He; cbn [negb]; [|done].
  assert (Hserve : PolicyCache.configured
    (PolicyCache.WithPolicy s.2 (service +:+ "/" +:+ q_method q) (retry_defaults p)).2
    (retry_defaults p)).
  { apply Forall_app in Hclock as [Hc1 Hc2].
    apply (PolicyCache.cache_serves_eq (known service cfg (qs ++ [q]))); [|by eapply cache_step_mono, Hctl; intros; apply known_mono|done].
    intros n p1 p2 H1 H2 Hv. left. by apply (known_versions service cfg (qs ++ [q]) ltac:(by apply Forall_app) n). }
  destruct (PolicyCache.WithPolicy s.2 _ _) as [m' c]. cbn [snd] in Hserve. change (RetryManager.does rnd c (retry_defaults p)) in Hserve.
  split; [done|]. split; [done|].
  destruct c as [e|o]; [done|]. exists o. split; [done|]. intros st Hst.
  assert (Hd : NumOfRetries (retry_defaults p) = NumOfRetries p /\ Overlap (retry_defaults p) = Overlap p).
  { unfold retry_defaults. destruct (negb _); [done|]. by destruct (_ <=? _)%nat. }
  destruct Hd as [Hn Ho]. rewrite <- Hn, <- Ho. split; [by eapply RetryManager.does_attempts|].
  intros Hov. by eapply RetryManager.does_serial.
Qed.

End retries.

(** ** Settings of a method and of its service *)

(** The settings that hold values; the other five switch the policies on. *)
Definition setting_keys : list string :=
  [circuitBreakerTimeout; circuitBreakerMaxConcurrentRequests; circuitBreakerRequestVolumeThreshold;
   circuitBreakerSleepWindow; circuitBreakerErrorPercentThreshold; circuitBreakerFailureCodes;
   circuitBreakerFailureStatus; circuitBreakerRollingDurationInSec; rateLimitMaxRequestPerSecond;
   rateLimitMaxSendMsgPerSecond; rateLimitMaxRecvMsgPerSecond; rateLimitUnit; clientSideConnTimeout;
   clientSideRequestTimeout; serverSideRequestTimeout; retryNumberOfRetries; retryPerTryTimeout;
   retryRetriableStatus; retryRetriableCodes; retryOverlap; retryBackoffDuration; retryBackoffJitter;
   retryBackoffExponential].

(** Membership of a given key in the list. *)
Ltac in_keys := apply (bool_decide_unpack _); vm_compute; exact I.

Section settings.
Context (statusMap : gmap string Z) (ParseFloat : string -> option float64) (ParseDuration : string -> option Z)
  (range : gset Z -> list Z) (point2 : float64).
Context (cfg : string -> option string) (methodName : string).

(** What the settings say, read off the two configurations directly: the text of a setting is
    the method's, if it has one, and the service's otherwise. *)
Definition said (key : string) : option string :=
  match cfg (methodName +:+ "." +:+ key) with
  | Some v => Some v
  | None => cfg key
  end.
(** Texts that switch something on. *)
Definition says_yes (v : option string) : Prop :=
  exists text, v = Some text /\ (text = "1" \/ ToLower text = "true").
(** The method and the service can both switch a policy on; neither can switch it off. *)
Definition switched_on (key : string) : Prop := says_yes (cfg (methodName +:+ "." +:+ key)) \/ says_yes (cfg key).

(** The value of a setting as a number, a duration, a switch, and its default. *)
Definition said_as {A} (convert : string -> A) (key : string) (d : A) : A :=
  match said key with Some text => convert text | None => d end.
Definition as_int (text : string) : Z := default 0%Z (Value.ParseInt 64 text).
Definition as_uint (text : string) : Z := default 0%Z (Value.ParseUint 64 text).
Definition as_float (text : string) : float64 := default (S754_zero false) (ParseFloat text).
Definition as_duration (text : string) : Z := if decide (text = "") then 0%Z else default 0%Z (ParseDuration text).
Definition as_words (text : string) : list string := filter (fun w => w <> "") (TrimSpace <$> Split ","%char text).
Definition as_codes (text : string) : list Z := omap (Value.ParseInt 64) (as_words text).

(** A code is given by its number under one setting or by its name under another one. *)
Definition codes_said (codes names : string) (c : Z) : Prop :=
  c ∈ said_as as_codes codes [] \/ exists name, name ∈ said_as as_words names [] /\ statusMap !! name = Some c.

Lemma GetString_some key v : cfg key = Some v -> Value.GetString cfg key = v.
Proof. unfold Value.GetString. by intros ->. Qed.

Lemma setting_said {A} (read : string -> A) (convert : string -> A) key d :
  (forall k, read k = convert (Value.GetString cfg k)) -> setting cfg methodName read key d = said_as convert key d.
Proof.
  intros Hr. unfold setting, said_as, said, Value.Has, withMethod. case_bool_decide as Hm.
  - destruct Hm as [v Hv]. by rewrite Hr, (GetString_some _ _ Hv), Hv.
  - apply eq_None_not_Some in Hm as ->. case_bool_decide as Hk.
    + destruct Hk as [v Hv]. by rewrite Hr, (GetString_some _ _ Hv), Hv.
    + by apply eq_None_not_Some in Hk as ->.
Qed.

Lemma Bool_says_yes key : Value.Bool cfg key = true <-> says_yes (cfg key).
Proof.
  unfold Value.Bool, Value.GetString, says_yes. destruct (cfg key) as [v|]; cbn.
  - rewrite orb_true_iff, !bool_decide_eq_true. split.
    + intros [H|H]; exists v; split; [done|by right|done|left]. destruct v as [|a [|b v]]; [done| |done].
      cbn in H. injection H as H. f_equal. revert H. clear. destruct a as [[] [] [] [] [] [] [] []]; vm_compute; congruence.
    + intros (? & [= <-] & [->|H]); [by right|by left].
  - split; [done|]. by intros (? & ? & _).
Qed.

Lemma enabled_switched key : enabled cfg methodName key = true <-> switched_on key.
Proof. unfold enabled, switched_on, withMethod. by rewrite orb_true_iff, !Bool_says_yes. Qed.

Lemma code_list_said codes names c : (forall s, range s ≡ₚ elements s) ->
  c ∈ code_list statusMap range cfg methodName codes names <-> codes_said codes names c.
Proof.
  intros Hrange. unfold code_list.
  assert (E : c ∈ code_set statusMap cfg methodName codes names <-> codes_said codes names c).
  { unfold code_set, codes_said. rewrite (setting_said _ as_codes) by done. rewrite (setting_said _ as_words) by done.
    rewrite elem_of_union, !elem_of_list_to_set, list_elem_of_omap. done. }
  case_bool_decide as He.
  - rewrite <- E, He. set_solver.
  - by rewrite Hrange, elem_of_elements.
Qed.

Lemma settings_said key d :
  setting cfg methodName (Value.Int cfg) key d = said_as as_int key d /\
  setting cfg methodName (Value.Uint cfg) key d = said_as as_uint key d /\
  setting cfg methodName (Duration ParseDuration cfg) key d = said_as as_duration key d.
Proof.
  split_and!; apply setting_said; intros k; [done..|].
  unfold Duration, Value.Duration, as_duration. case_bool_decide; by case_decide.
Qed.

Lemma switch_said key d :
  setting cfg methodName (Value.Bool cfg) key d = true <-> (said key = None /\ d = true) \/ says_yes (said key).
Proof.
  unfold setting, said, Value.Has, withMethod. case_bool_decide as Hm.
  - destruct Hm as [v Hv]. rewrite Bool_says_yes, Hv. split; [by right|by intros [[? _]|?]].
  - apply eq_None_not_Some in Hm as ->. case_bool_decide as Hk.
    + destruct Hk as [v Hv]. rewrite Bool_says_yes, Hv. split; [by right|by intros [[? _]|?]].
    + apply eq_None_not_Some in Hk as ->. split; [auto|]. intros [[_ ?]|(? & ? & _)]; done.
Qed.

(** C4: how settings combine.  Each of the five policies is enabled exactly if the method or
    the service switches it on, with the text 1 or, in any case, true; so a method cannot
    switch off what the service switches on.  Every other setting of an enabled policy is the
    method's, if the configuration has its key at all, else the service's, else a fixed
    default; texts that are no number or duration count as zero.  Codes are those given by
    number together with those given by name.  (A range over a Go map visits each code once.) *)
Theorem settings_layered (now : Z) :
  (forall s, range s ≡ₚ elements s) ->
  (let p := client_timeout_policyFromConfig ParseDuration cfg methodName now in
   (Enabled (TPolicy (CTTimeout p)) = true <-> switched_on "client_timeout.enable") /\
   (switched_on "client_timeout.enable" ->
    Timeout (CTTimeout p) = said_as as_duration "client_timeout.request_timeout" 0%Z /\
    ConnTimeout p = said_as as_duration "client_timeout.conn_timeout" 0%Z)) /\
  (let p := retry_policyFromConfig statusMap ParseFloat ParseDuration range point2 cfg methodName now in
   (Enabled (RPolicy p) = true <-> switched_on "retry.enable") /\
   (switched_on "retry.enable" ->
    NumOfRetries p = Z.to_nat (said_as as_uint "retry.num_of_retries" 0%Z) /\
    PerTryTimeout p = said_as as_duration "retry.per_try_timeout" 0%Z /\
    (forall c, c ∈ RetriableStatusCodes p <-> codes_said "retry.retriable_status_codes" "retry.retriable_status" c) /\
    (Overlap p = true <-> says_yes (said "retry.overlap")) /\
    BackoffDuration p = said_as as_duration "retry.backoff_duration" 0%Z /\
    BackoffJitter p = said_as as_float "retry.backoff_jitter" point2 /\
    (BackoffExponential p = true <-> said "retry.backoff_exponential" = None \/ says_yes (said "retry.backoff_exponential")))) /\
  (let p := server_timeout_policyFromConfig ParseDuration cfg methodName now in
   (Enabled (TPolicy p) = true <-> switched_on "server_timeout.enable") /\
   (switched_on "server_timeout.enable" -> Timeout p = said_as as_duration "server_timeout.request_timeout" 0%Z)) /\
  (let p := circuit_policyFromConfig statusMap ParseDuration range cfg methodName now in
   (Enabled (CPolicy p) = true <-> switched_on "circuit_breaker.enable") /\
   (switched_on "circuit_breaker.enable" ->
    CTimeout p = said_as as_duration "circuit_breaker.timeout" 0%Z /\
    MaxConcurrentRequests p = said_as as_int "circuit_breaker.max_concurrent_requests" (-1)%Z /\
    RequestVolumeThreshold p = said_as as_int "circuit_breaker.request_volume_threshold" 0%Z /\
    SleepWindow p = said_as as_duration "circuit_breaker.sleep_window" 0%Z /\
    ErrorPercentThreshold p = said_as as_int "circuit_breaker.error_percent_threshold" 0%Z /\
    (forall c, c ∈ FailureStatusCode p <-> codes_said "circuit_breaker.failure_status_codes" "circuit_breaker.failure_status" c) /\
    RollingDurationInSec p = said_as as_int "circuit_breaker.rolling_duration" 0%Z)) /\
  (let p := rate_policyFromConfig ParseDuration cfg methodName now in
   (Enabled (LPolicy p) = true <-> switched_on "rate_limit.enable") /\
   (switched_on "rate_limit.enable" ->
    MaxRequestPerUnit p = said_as as_int "rate_limit.max_request_per_unit" (-1)%Z /\
    MaxSendMsgPerUnit p = said_as as_int "rate_limit.max_send_msg_per_unit" (-1)%Z /\
    MaxRecvMsgPerUnit p = said_as as_int "rate_limit.max_recv_msg_per_unit" (-1)%Z /\
    Unit_ p = said_as as_duration "rate_limit.unit" 1000000000%Z)).
Proof.
  intros Hrange.
  assert (Hint : forall key d, setting cfg methodName (Value.Int cfg) key d = said_as as_int key d) by apply settings_said.
  assert (Huint : forall key d, setting cfg methodName (Value.Uint cfg) key d = said_as as_uint key d) by apply settings_said.
  assert (Hdur : forall key d, setting cfg methodName (Duration ParseDuration cfg) key d = said_as as_duration key d) by apply settings_said.
  assert (Hfloat : forall key d, setting cfg methodName (Value.Float64 cfg ParseFloat) key d = said_as as_float key d)
    by (intros; by apply setting_said).
  unfold client_timeout_policyFromConfig, retry_policyFromConfig, server_timeout_policyFromConfig,
    circuit_policyFromConfig, rate_policyFromConfig.
  split_and!; cbv zeta; rewrite <- enabled_switched.
  all: match goal with |- context [if negb ?b then _ else _] => change (enabled cfg methodName _) with b; destruct b end.
  all: first [by split|intros ?; try done].
  all: repeat apply conj; cbn [CTTimeout TPolicy Timeout ConnTimeout NumOfRetries PerTryTimeout RetriableStatusCodes Overlap
    BackoffDuration BackoffJitter BackoffExponential CTimeout MaxConcurrentRequests RequestVolumeThreshold SleepWindow
    ErrorPercentThreshold FailureStatusCode RollingDurationInSec MaxRequestPerUnit MaxSendMsgPerUnit MaxRecvMsgPerUnit Unit_ negb].
  all: try first [apply Hdur|apply Hint|apply Hfloat|f_equal; apply Huint|intros c; by apply code_list_said].
  all: rewrite switch_said; naive_solver.
Qed.

End settings.

(** ** With the layered configuration behind it *)

Section layers.
Context {key : Type} (Decrypt : key -> string -> option string) (K : key).

(** What [Value] reads of a filtered configuration. *)
Definition config_getter (f : Filter.Filter key) (c : ConfigImpl.ConfigImpl) (k : string) : option string :=
  let '(v, ok, _) := Filter.Get Decrypt K f c k in if (ok : bool) then Some v else None.

(** A [ConfigImpl] has every key. *)
Lemma config_getter_some f c k : config_getter f c k = Some (Value.GetString (config_getter f c) k).
Proof.
  unfold Value.GetString, config_getter. unfold Filter.Get.
  change (ds_Get c k "" true) with (ConfigImpl.Get c k "" true).
  assert (Hraw : (ConfigImpl.Get c k "" true).2 <> (-1)%Z) by (unfold ConfigImpl.Get; repeat case_match; simpl; lia).
  destruct (ConfigImpl.Get c k "" true) as [rv rvIdx]. simpl in Hraw. destruct (Filter.scan_ns f c k) as [v idx].
  rewrite (proj2 (Z.eqb_neq _ _) Hraw), andb_false_l. by destruct (idx <? rvIdx)%Z; destruct (Filter.decrypt _ _ _ _).
Qed.

Lemma setting_shadowed {A} f c methodName (read : string -> A) k d :
  setting (config_getter f c) methodName read k d = read (withMethod methodName k).
Proof.
  unfold setting, Value.Has. rewrite config_getter_some. by rewrite bool_decide_eq_true_2.
Qed.

(** with a [ConfigImpl] behind them, settings of a service have no effect.  A filter over it
    has every key, so only the settings of the method are ever read: if the method has none,
    then whatever the service says, and whether it enables the policies or not, calls are never
    retried, requests are not limited, there are no timeouts, and a circuit breaker has the
    built-in thresholds. *)
Theorem service_settings_shadowed (statusMap : gmap string Z) (ParseFloat : string -> option float64)
  (ParseDuration : string -> option Z) (range : gset Z -> list Z) (point2 : float64)
  (f : Filter.Filter key) (c : ConfigImpl.ConfigImpl) (methodName : string) (now : Z) :
  let cfg := config_getter f c in
  Forall (fun k => Value.GetString cfg (withMethod methodName k) = "") setting_keys ->
  Enabled (RPolicy (retry_defaults (retry_policyFromConfig statusMap ParseFloat ParseDuration range point2 cfg methodName now))) = false /\
  (let p := client_timeout_policyFromConfig ParseDuration cfg methodName now in
   Timeout (CTTimeout p) = 0%Z /\ ConnTimeout p = 0%Z) /\
  Timeout (server_timeout_policyFromConfig ParseDuration cfg methodName now) = 0%Z /\
  (let p := rate_defaults (rate_policyFromConfig ParseDuration cfg methodName now) in
   Enabled (LPolicy p) = true ->
   MaxRequestPerUnit p = (-1)%Z /\ MaxSendMsgPerUnit p = (-1)%Z /\ MaxRecvMsgPerUnit p = (-1)%Z) /\
  (let p := circuit_defaults (circuit_policyFromConfig statusMap ParseDuration range cfg methodName now) in
   Enabled (CPolicy p) = true ->
   p = circuit_defaults (mkCircuitBreakerPolicy (mkPolicy true now) 0 0 0 0 0 [] 0)).
Proof.
  intros cfg Hempty. rewrite Forall_forall in Hempty.
  assert (Hint : forall k, k ∈ setting_keys -> Value.Int cfg (withMethod methodName k) = 0%Z)
    by (intros k Hk; unfold Value.Int; by rewrite (Hempty k Hk)).
  assert (Huint : forall k, k ∈ setting_keys -> Value.Uint cfg (withMethod methodName k) = 0%Z)
    by (intros k Hk; unfold Value.Uint; by rewrite (Hempty k Hk)).
  assert (Hdur : forall k, k ∈ setting_keys -> Duration ParseDuration cfg (withMethod methodName k) = 0%Z)
    by (intros k Hk; unfold Duration, Value.Duration; by rewrite (Hempty k Hk)).
  assert (Hsl : forall k, k ∈ setting_keys -> Value.StringList cfg (withMethod methodName k) = [])
    by (intros k Hk; unfold Value.StringList; by rewrite (Hempty k Hk)).
  assert (Hcodes : forall a b, a ∈ setting_keys -> b ∈ setting_keys ->
    code_list statusMap range cfg methodName a b = []).
  { intros a b Ha Hb. unfold code_list, code_set. unfold cfg. rewrite !setting_shadowed. fold cfg. unfold Value.IntList.
    rewrite Hsl, Hsl by done. cbn. by rewrite bool_decide_eq_true_2 by set_solver. }
  unfold retry_policyFromConfig, client_timeout_policyFromConfig, server_timeout_policyFromConfig, rate_policyFromConfig,
    circuit_policyFromConfig.
  rewrite !(setting_shadowed f c methodName), !Huint, !Hint, !Hdur, !Hcodes by in_keys.
  split_and!.
  all: cbv zeta; destruct (negb (enabled _ _ _)); [done|]; first [reflexivity|by intros _].
Qed.

End layers.

(** ** Examples *)

Definition no_duration (_ : string) : option Z := None.
Definition no_float (_ : string) : option float64 := None.

(** A service that allows [n] retries and a method [Say] that allows [n'] of them. *)
Definition example_cfg (n n' : string) : gmap string string :=
  {["retry.enable" := "true"; "retry.num_of_retries" := n; "Say.retry.num_of_retries" := n']}.
Definition example_reader (n n' : string) : Reader unit :=
  mkReader _ (fun _ k => example_cfg n n' !! k) ∅ no_float no_duration elements (S754_zero false).

Definition example_calls : list call :=
  [mkCall "Say" 0 1 (example_reader "7" "2"); mkCall "Say" (5 * Second) (5 * Second) (example_reader "7" "3")].
Definition late_call : call := mkCall "Say" (11 * Second) (11 * Second) (example_reader "7" "4").

(** The second call comes with the policy of the first one, the third with a new one. *)
Example policies_over_time :
  (fun x => NumOfRetries x.2) <$> (served (CM := gmap string) tt (example_calls ++ [late_call])).1 = [2; 2; 4].
Proof. vm_compute. reflexivity. Qed.

Lemma retry_follows_config_witness :
  let '(h, p, _) := call_step (CM := gmap string) (S754_zero false) "svc" (calls (S754_zero false) "svc" tt example_calls) late_call in
  (exists q', q' ∈ example_calls ++ [late_call] /\ q_method q' = "Say" /\ p = policy_of tt q' /\
     (11 * Second - q_made q' <= configUpdateInterval)%Z) /\
  match h with
  | RetryManager.CallDirectly => Enabled (RPolicy (retry_defaults p)) = false
  | RetryManager.Retries c codes =>
      codes = RetriableStatusCodes (retry_defaults p) /\
      exists o, c = inr o /\ forall s, Scheduler.reachable o s ->
        Scheduler.nextId s <= S (NumOfRetries p) /\ (Overlap p = false -> TaskQueue.TaskCount (Scheduler.queue s) <= 1)
  end.
Proof.
  apply (retry_follows_config (CM := gmap string) (S754_zero false) "svc" tt example_calls late_call).
  repeat constructor; cbn; lia.
Defined.

Lemma settings_layered_witness :
  let cfg k := example_cfg "7" "2" !! k in
  let p := retry_policyFromConfig ∅ no_float no_duration elements (S754_zero false) cfg "Say" 1 in
  Enabled (RPolicy p) = true /\ NumOfRetries p = 2.
Proof.
  intros cfg.
  destruct (settings_layered ∅ no_float no_duration elements (S754_zero false) cfg "Say" 1) as (_ & [Hon Hset] & _); [done|].
  assert (E : switched_on cfg "Say" "retry.enable") by (right; exists "true"; split; [reflexivity|right; reflexivity]).
  split; [by apply Hon|]. destruct (Hset E) as [-> _]. vm_compute. reflexivity.
Defined.

(** Two sources; the second one switches retries on for the service [svc] and allows five. *)
Definition example_config : ConfigImpl.ConfigImpl :=
  (ConfigImpl.sync (ConfigImpl.newConfigImpl [false; false])
     [Some []; Some [("svc.retry.enable", "true"); ("svc.retry.num_of_retries", "5")]]).1.1.
Definition example_getter : string -> option string :=
  config_getter (fun _ _ => None) tt (Filter.NewFilter "svc" [] []) example_config.

Lemma service_settings_shadowed_witness :
  Value.Bool example_getter retryEnable = true /\ Value.Uint example_getter retryNumberOfRetries = 5%Z /\
  Enabled (RPolicy (retry_defaults (retry_policyFromConfig ∅ no_float no_duration elements (S754_zero false)
    example_getter "Say" 1))) = false.
Proof.
  split; [vm_compute; reflexivity|]. split; [vm_compute; reflexivity|].
  apply (service_settings_shadowed (fun _ _ => None) tt ∅ no_float no_duration elements (S754_zero false)
    (Filter.NewFilter "svc" [] []) example_config "Say" 1).
  repeat (constructor; [vm_compute; reflexivity|]). constructor.
Defined.

End ConfigPolicies.
