(* ===== verification/Framework.v ===== *)
(** * The process ([framework.go], [option.go], [server/server.go]).

    [Init] prepares the configuration, runs the life cycle and starts the goroutine that gives
    memory back; then servers can be run and clients used.  This file puts the life cycle
    ([Lifecycle]), the logger ([Logging]) and the clients ([DialOption]) together.  The
    preparation of the configuration ([Declare], [ConfigImpl]) comes to a configuration, a type
    of its own here, of which two keys are read. *)

From S2P Require Import Prelude GoInt Lifecycle Logging.

Open Scope string_scope.
Open Scope list_scope.

Module Framework.

Section framework.
Context {Conf Ctx Time : Type} `{L : Lifecycle.LinqOps} (expired : Lifecycle.hookFunc -> bool).
Context (Int : Conf -> string -> Z) (Bool : Conf -> string -> bool).
Context (Sprintf : string -> list Logging.value -> string) (Format : Time -> string) (ctxFieldProviders : list (Ctx -> list Logging.Field)).

(** [option.go]: what preparing the configuration and the life cycle are given. *)
Record Options := mkOptions { configPreparer : option nat; finalizeTimeout : Z; compactUsage : bool; flagsToShow : list string; flagsToHide : list string }.
Definition zeroOptions : Options := mkOptions None 0 false [] [].
Definition Option : Type := Options -> gores Options.

(** [internal_config.PrepareConfigs]: a configuration, or the end of the process. *)
Context (PrepareConfigs : Options -> option Conf).

Definition frameworkPrefix : string := "framework".
Definition flagIdleMemoryReleaseInterval : string := "framework.idle_mem_release_interval".
Definition flagForceGC : string := "framework.force_gc".

(** [once] and [initialized] are those of the package, [global] is the global configuration,
    [releasing] is the goroutine that gives memory back, with [forceGC], [crashed] a panic that
    nobody recovers, or the end of the process. *)
Record process := mkProcess {
  once : bool; initialized : bool; global : option Conf; life : Lifecycle.lifeCycle; releasing : option bool; ended : option string
}.
Definition new_process (l : Lifecycle.lifeCycle) : process := mkProcess false false None l None None.

Definition end_with (p : process) (e : string) : process := mkProcess (once p) (initialized p) (global p) (life p) (releasing p) (Some e).

(** The goroutine is started if the interval is positive; the raised value is not used again. *)
Definition starts_release (c : Conf) : option bool :=
  let memReleaseInterval := Int c flagIdleMemoryReleaseInterval in
  let forceGC := Bool c flagForceGC in
  if (0 <? memReleaseInterval)%Z then
    let memReleaseInterval := if (memReleaseInterval <? 10)%Z then 10%Z else memReleaseInterval in
    Some forceGC
  else None.

(** [append(presetOpt, opt...)] *)
Definition Init (presetOpt opt : list Option) (p : process) : process :=
  if once p then p
  else
    let p := mkProcess true (initialized p) (global p) (life p) (releasing p) (ended p) in
    match foldl (fun r o => r ≫= o) (Ok zeroOptions) (presetOpt ++ opt) with
    | Err e => end_with p "[LOAD_ERROR]"
    | Panic e => end_with p e
    | Ok opts =>
        match PrepareConfigs opts with
        | None => end_with p "[ERROR] Create config failed"
        | Some c =>
            let (l, r) := Lifecycle.Initialize expired (life p) (finalizeTimeout opts) in
            match r with
            | Some (_, false) => mkProcess true true (Some c) l (starts_release c) (ended p)
            | Some (_, true) => mkProcess true (initialized p) (Some c) l (releasing p) (Some "a hook did not end in time")
            | None => mkProcess true (initialized p) (Some c) l (releasing p) (Some "panic")
            end
        end
    end.

Definition Finalize (p : process) : process * option (list Lifecycle.effect * bool) :=
  let (l, r) := Lifecycle.Finalize expired (life p) in
  (mkProcess (once p) (initialized p) (global p) l (releasing p) (ended p), r).

(** One round of the goroutine: how many seconds it waits, by the configuration of then, and
    what its log call comes to; [rest] are collections and freeing. *)
Inductive memory_effect := GC | FreeOSMemory.
Definition release_wait (c : Conf) : Z := Int c flagIdleMemoryReleaseInterval.
Definition release_round (p : process) (w : Logging.world) : option (list memory_effect * gores (list Logging.event)) :=
  match releasing p with
  | None => None
  | Some forceGC =>
      Some ((if forceGC then [GC] else []) ++ [FreeOSMemory],
            (Logging.pkg_Debugf Sprintf Format ctxFieldProviders (Lifecycle.IsInitialized (life p)) (global p)
               "Framework: free idle memory to os, forceGC = %v" [Logging.VOther (if forceGC then "true" else "false")] w).2)
  end.

(** [serverImpl.Run]; [run] stands for the server that is run. *)
Definition Run (p : process) (run : gores unit) : gores unit :=
  if negb (Lifecycle.IsInitialized (life p)) then Panic "[ERROR] Framework not initialized!" else run.

(** ** Processes *)

(** What a program does with the framework. *)
Inductive action := AHook (hook : nat) (opt : list (Lifecycle.Options -> Lifecycle.Options)) | AInit (presetOpt opt : list Option) | AFinalize.
Definition act (p : process) (a : action) : process :=
  match a with
  | AHook hook opt => mkProcess (once p) (initialized p) (global p) (Lifecycle.HookFinalize (life p) hook opt) (releasing p) (ended p)
  | AInit presetOpt opt => Init presetOpt opt p
  | AFinalize => (Finalize p).1
  end.

Lemma initialize_keeps l t : Lifecycle.initialized (Lifecycle.Initialize expired l t).1 = Lifecycle.initialized l.
Proof. unfold Lifecycle.Initialize. by destruct (Lifecycle.onceInitialize l). Qed.
Lemma finalize_keeps l : Lifecycle.initialized (Lifecycle.Finalize expired l).1 = Lifecycle.initialized l.
Proof. unfold Lifecycle.Finalize. by destruct (Lifecycle.onceFinalize l). Qed.

Lemma act_keeps p a : Lifecycle.initialized (life (act p a)) = Lifecycle.initialized (life p).
Proof.
  destruct a as [hook opt|presetOpt opt|]; cbn; [done| |].
  - unfold Init. destruct (once p); [done|]. destruct (foldl _ _ _) as [opts|e|e]; [|done..]. destruct (PrepareConfigs opts) as [c|]; [|done].
    pose proof (initialize_keeps (life p) (finalizeTimeout opts)) as H. cbn [life]. 
    destruct (Lifecycle.Initialize expired (life p) (finalizeTimeout opts)) as [l r]. cbn in H. by destruct r as [[es []]|].
  - unfold Finalize. pose proof (finalize_keeps (life p)) as H. by destruct (Lifecycle.Finalize expired (life p)) as [l r].
Qed.

(** [Init] has an effect once. *)
Lemma Init_once presetOpt opt presetOpt' opt' p : Init presetOpt' opt' (Init presetOpt opt p) = Init presetOpt opt p.
Proof.
  unfold Init at 1. assert (once (Init presetOpt opt p) = true) as ->; [|done]. unfold Init. destruct (once p) eqn:E; [done|].
  destruct (foldl _ _ _) as [opts|e|e]; [|done..]. destruct (PrepareConfigs opts) as [c|]; [|done].
  destruct (Lifecycle.Initialize _ _ _) as [l [[es []]|]]; done.
Qed.

(** What a process can do.  Whatever a program hooks, initializes and finalizes, and in
    whatever order: running a server ends the process, as the flag that [Run] tests is never
    set; once the configuration is there every function of the logger panics; and then so does
    the goroutine that gives memory back, in its first round, after it has done its work. *)
Theorem process_cannot_serve (l : Lifecycle.lifeCycle) (actions : list action) (run : gores unit) :
  Lifecycle.initialized l = false ->
  let p := foldl act (new_process l) actions in
  Run p run = Panic "[ERROR] Framework not initialized!" /\
  (is_Some (global p) -> forall (method : Logging.LEntry -> Logging.world -> Logging.outcome) w,
    (Logging.package_call (Ctx := Ctx) Format (Lifecycle.IsInitialized (life p)) (global p) method w).2 = Logging.nil_dereference) /\
  (is_Some (global p) -> forall w effects log, release_round p w = Some (effects, log) ->
    FreeOSMemory ∈ effects /\ log = Logging.nil_dereference).
Proof.
  intros Hl p. assert (Hi : Lifecycle.IsInitialized (life p) = false).
  { unfold p. apply (foldl_ind (fun p => Lifecycle.IsInitialized (life p) = false)); [exact Hl|]. intros q a _ Hq.
    unfold Lifecycle.IsInitialized in *. by rewrite act_keeps. }
  split_and!.
  - unfold Run. by rewrite Hi.
  - intros [c Hc] method w. rewrite Hi, Hc. apply Logging.configured_log_panics.
  - intros [c Hc] w effects log. unfold release_round. destruct (releasing p) as [forceGC|]; [|done]. intros [= <- <-].
    split; [apply elem_of_app; right; by left|]. rewrite Hi, Hc. apply Logging.configured_log_panics.
Qed.

(** The wait between two rounds is not raised to ten seconds. *)
Lemma wait_not_raised c : Int c flagIdleMemoryReleaseInterval = 1%Z -> starts_release c = Some (Bool c flagForceGC) /\ release_wait c = 1%Z.
Proof. intros H. unfold starts_release, release_wait. by rewrite H. Qed.

End framework.

#[local] Existing Instance Lifecycle.list_linq.

Definition example_Init : process (Conf := unit) :=
  Init (fun _ => false) (fun _ _ => 5%Z) (fun _ _ => true) (fun _ => Some ()) [] [] (new_process (Lifecycle.HookFinalize Lifecycle.newLifeCycle 1 [])).

Lemma process_cannot_serve_witness :
  is_Some (global example_Init) /\ Run example_Init (Ok ()) = Panic "[ERROR] Framework not initialized!" /\
  forall w, release_round (Ctx := unit) (Time := unit) (fun f _ => f) (fun _ => "now") [] example_Init w = Some ([GC; FreeOSMemory], Logging.nil_dereference).
Proof.
  assert (Hg : is_Some (global example_Init)) by (exists (); vm_compute; reflexivity). split; [exact Hg|].
  destruct (process_cannot_serve (Conf := unit) (Ctx := unit) (Time := unit) (fun _ => false) (fun _ _ => 5%Z) (fun _ _ => true) (fun f _ => f) (fun _ => "now") []
    (fun _ => Some ()) Lifecycle.newLifeCycle [AHook 1 []; AInit [] []] (Ok ()) eq_refl) as (Hrun & _ & Hround).
  change (foldl _ _ [AHook 1 []; AInit [] []]) with example_Init in *. split; [exact Hrun|]. intros w.
  destruct (release_round (Ctx := unit) (fun f _ => f) (fun _ => "now") [] example_Init w) as [[effects log]|] eqn:E.
  - destruct (Hround Hg w effects log E) as [_ ->]. cbn in E. congruence.
  - cbn in E. discriminate E.
Defined.

End Framework.
